(* ===== verification/_CoqProject ===== *)
-Q . S2P
Prelude.v
Checked.v
GoSlice.v
Crypto.v
VMCode.v
VM.v
VMRun.v
VMExec.v
VMCost.v
VMOpCost.v
VMTerm.v
VMFindings.v
VMSpec.v
VMUtil.v
Encoding.v
Bc.v
EntryHash.v
Legacy.v
LegacyRoundtrip.v
LegacyMap.v
Merkle.v
StateTree.v
Patricia.v
Snapshot.v
TxContext.v
Validation.v
ValidSpec.v
ValidLogic.v
ValidProof.v
ValidTheorems.v
LegacyProof.v
LegacyTheorems.v
Chain.v
ChainProof.v
ChainTheorems.v
Concur.v
Idempotency.v
Reserver.v
ReserverProof.v
ReserverInv.v
ReserverTheorems.v
ReserverRuns.v
Filter.v
FilterScan.v
FilterParse.v
FilterRound.v
FilterSQL.v
FilterSafe.v
FilterTheorems.v
Pin.v
PinRun.v
PinTheorems.v
TxBuilder.v
TxSign.v
VMLogic.v
SigProgram.v
P2SP.v
SigTheorems.v
TxSignTheorems.v
TxBuilderTheorems.v
Finalize.v
BlockSigner.v
Limbs.v
Fp.v
FieldElement.v
FieldBytes.v
Edwards.v
GroupElement.v
GroupBytes.v
EdTable.v
TableProof.v
Scalar.v
ScalarMult.v
Ed25519.v
Ed25519Proof.v
Ed25519Theorems.v
RaftState.v
Raft.v
RaftCluster.v
