(* ===== verification/Prelude.v ===== *)
(** * Chainmint: a verification development of the ledger

    Chainmint is a permissioned ledger in Go.  A transaction is a graph of entries
    ([protocol/bc]) that moves value from issuances and spends through muxes to
    outputs and retirements; entries are guarded by programs of a stack machine
    ([protocol/vm]); a block lists transactions under a Merkle root; the state is the
    set of unspent outputs in a Patricia tree and the recent nonces
    ([protocol/state], [protocol/patricia]).  Clients write transactions in a serial
    form, [protocol/bc/legacy], which [MapTx] turns into entries.  A [Chain]
    ([protocol]) keeps the last block and snapshot, generates, validates and commits
    blocks and recovers from its store.  Around it, [core] serves clients: the
    reserver of [core/account] hands out unspent outputs to concurrent builders of
    transactions, [core/txbuilder] collects inputs and outputs into a template, has it
    signed and submits it, [core/blocksigner] signs the blocks that the members of a
    federation agree on, [core/pin] keeps how far each processor of blocks has come,
    and [core/query/filter] is the language of queries over the annotated transactions
    in Postgres.  Signatures and keys are those of [crypto/ed25519], with the arithmetic
    of the curve, and of its package [chainkd], which derives keys from keys.  The
    processes of a core share their configuration through [database/raft], a store of keys
    and values that is replicated by the consensus library of etcd.

    ** Files

    - [Prelude]: integers at their width, bytes, lists, results, automation.
    - [Checked]: [math/checked], with the interface [CheckedInt] of exact operations.
    - [GoSlice]: slices that share arrays, with [append] in place.
    - [Crypto]: digests and signatures, parameters of the development.
    - [VMCode]: instructions, parser and encoders ([ops.go], [pushdata.go], [types.go]).
    - [VM], [VMRun]: the machine, its opcodes, [step], [run], [Verify].
    - [VMExec], [VMCost], [VMOpCost], [VMTerm]: evaluation lemmas, the accounting of
      costs opcode by opcode, independence of fuel and termination.
    - [VMSpec], [VMFindings]: functional specifications of opcodes, and two flaws.
    - [VMUtil]: the builder and the multisignature programs ([protocol/vmutil]).
    - [Encoding]: [encoding/blockchain].
    - [Bc], [EntryHash]: messages, entry hashing, and what an identifier commits to.
    - [Merkle]: Merkle roots.
    - [StateTree], [Patricia], [Snapshot]: the interface of a tree of items, its
      implementation, and snapshots, proved against the interface.
    - [TxContext]: execution contexts of blocks and entries.
    - [Validation], [ValidSpec], [ValidLogic], [ValidProof], [ValidTheorems]: the
      validator, the rules it decides, a program logic for its monad, the proof.
    - [Legacy], [LegacyRoundtrip]: transactions, blocks and commitments in their
      serial form, readers and writers, and their round trips ([protocol/bc/legacy]).
    - [LegacyMap], [LegacyProof], [LegacyTheorems]: [map.go], with the map of entries
      that is filled on the way; that the entries it makes are well formed, and what
      this says of validation.
    - [Chain], [ChainProof], [ChainTheorems]: [protocol/block.go], [tx.go],
      [recover.go], [protocol.go]: the chain over its store, waiters and caches.
    - [Concur]: goroutines as trees of atomic actions, pools of them, a logic for an
      invariant of the shared state, and one for facts that stay once they are true.
    - [Idempotency]: [sync/idempotency], calls that are made once per key.
    - [Reserver], [ReserverProof], [ReserverInv], [ReserverTheorems], [ReserverRuns]:
      [core/account/reserve.go] over [Concur] and [Idempotency]: programs, the choice of
      outputs, the invariant of the pool, the theorems, and concrete schedules.
    - [Filter], [FilterSQL]: [core/query/filter] and the tables of [core/query/sql.go]:
      scanner, parser and printer; types and SQL.
    - [FilterScan], [FilterParse], [FilterRound]: what text a token is; the parser ends;
      printed expressions are scanned into their tokens and parsed back.
    - [FilterSafe], [FilterTheorems]: type checking and quoting, theorems.
    - [Pin], [PinRun], [PinTheorems]: [core/pin]: the pins and their workers, what
      completing a block does, runs of the whole system with restarts, theorems.
    - [TxBuilder], [TxSign], [Finalize]: [core/txbuilder]: builder and actions; signing,
      decoding and the check of commitments; submission.
    - [VMLogic]: a logic for straight-line programs of the machine, and its rules for the
      instructions that signature programs are made of.
    - [SigProgram], [P2SP], [SigTheorems]: what an accepted signature program shows of the
      context and what this says of the transaction, the script that asks for
      signatures, theorems.
    - [TxSignTheorems], [TxBuilderTheorems]: what [Sign] leaves in the inputs, theorems on
      signing, decoding and submission; theorems on [Build].
    - [BlockSigner]: [core/blocksigner]: the requests to a block signer as programs of
      [Concur] over its table of signed heights; what a block that satisfies its consensus
      program shows; theorems on a signer and on a federation of them.
    - [Limbs], [Fp], [Edwards]: numbers in machine words, for certificates that the kernel
      evaluates; the prime [2 ^ 255 - 19] and its field; the curve and its group.
    - [FieldElement], [GroupElement], [EdTable], [Scalar], [ScalarMult]:
      [crypto/ed25519/internal/edwards25519]: limbs, points, the tables of multiples of
      the base point, arithmetic modulo its order, scalar multiplication.
    - [FieldBytes], [GroupBytes], [TableProof], and the second parts of [FieldElement],
      [GroupElement], [Scalar] and [ScalarMult]: that each of them computes in the field,
      the group and the integers modulo the order, with bounds on every limb.
    - [Ed25519], [Ed25519Proof], [Ed25519Theorems]: [ed25519.go], [ecmath] and [chainkd];
      signing and verification in terms of points; theorems.
    - [RaftState], [Raft], [RaftCluster]: [database/raft]: the replicated state with its
      instructions, snapshots and node identifiers; files, checksums, the service with its
      update loop, recovery and joining; clients and processes of a cluster over one log,
      as programs of [Concur], and theorems.

    ** Conventions

    A Go function keeps its name.  A w-bit integer is a [Z] with its wrap-around
    written out ([int64], [uint64], ...).  A pointer is an [option]; following a nil
    pointer is a panic, which is an outcome of its own ([Panic], [VPanic], [FPanic],
    [None] where the comment says so).  Errors are values of one type per package;
    wrapping, details and messages are left out, except where formatting a message
    panics.  State is passed explicitly, in one small monad per component: [M] for the
    machine (the state survives an error, because CHECKPREDICATE reads it), [SM] for
    snapshots, [V] for the validator with its shared cache, [R] for readers, [CM] for
    the chain, [P] and [TC] for parser and type checker of filters, another [M] for the
    raft service, which keeps its state when it panics.  Code that runs
    under locks in several goroutines is a program of [Concur]: what a lock protects is
    one atomic action, and actions of different goroutines interleave freely.

    ** Fuel

    [run_loop] takes one unit per iteration and per child machine.  [VMTerm] proves
    that a verdict does not depend on the fuel, and that [verify_fuel] is enough, from
    the run limit: every instruction that does not move the program counter forward in
    a bounded way is paid for.  This holds up to the first CHECKPREDICATE, and in the
    whole run when no item of the context is long ([large_item]); a child machine can
    otherwise give back more than it was lent ([VMFindings]). [merkle_root] takes the length of the list;
    [checkValid] takes the depth of the graph of entries, [rank], which is at most six
    for a transaction that [MapTx] made. The parser of filters takes four units for
    each byte and eight more ([parse_fuel]): every call but a bounded number reads a
    token first. The loops of its scanner take the length of the text. The loops of
    [ScalarMult] count the iterations that the code has. In [Raft] and [RaftCluster] fuel
    is a number of attempts ([redo], [allocNodeID], [Get]) or of times a goroutine is woken
    up; the theorems hold for every number, and a call that has used it up has not
    returned.

    ** Theorems

    - Validation: [ValidateTx] decides the declarative rules [valid], with its cache;
      value is conserved in every mux; [ValidateBlock] decides [valid_block].  For a
      transaction of [MapTx] the conditions of these theorems hold, and what its
      inputs bring of an asset its outputs take, if it has version 1 or an output.
    - Machine: termination and the bound on run limit and stacks, for every program, up to
      a CHECKPREDICATE that runs with a long item in the context; the opcodes, parsing.
    - State: snapshots refine a set of outputs and a map of nonces; the Patricia tree
      refines a finite set, its root depends on the set only and commits to it.
    - Chain: after any history of commits, crashes and recoveries the state is the one
      the stored blocks lead to; generated blocks apply; waiters are released.
    - Block signing: a signer never signs two blocks at one height, in every interleaving
      of requests and with failures of the database; so a federation with a large enough
      quorum has one acceptable block at a height, unless the blocks themselves show a
      signature that its signer did not make or two strings with one digest.
    - Reservations, in every interleaving: no output is reserved twice, a reservation
      is of distinct outputs of the account and the asset with the sum that the call, or
      a call with its client token, asked for; a client token has one reservation, all calls end, and nothing stays reserved for nobody.
    - Pins: in every run with restarts a pin passes only blocks that were processed, or that
      lie below a height at which [CreatePin] started it; without errors of the database
      in completing a block, a pin has reached the blocks that were handed out once its
      workers are done, whatever notifications arrived.
    - Signatures: a spend that the script of an account accepts carries signatures of a
      quorum over a program that the machine accepts; a signature program that is accepted
      for a transaction holds it to the constraints it was made from, up to the whole
      transaction; [Sign] puts those programs into the inputs.
    - [Build]: the template it returns is the one that the calls of its actions on the
      builder describe: the base, their inputs, outputs and data in order, the tightest of
      their times; a blank check, in exact sums, is refused.
    - Curve: the operations on limbs are exact and do not overflow, for all limbs that their
      callers give them; additions and doublings are the group law; scalars are reduced
      modulo the order of the base point, which is proved to be its order; the tables and
      the loops over signed digits give the multiples of points; encodings are read back.
    - Keys: what a key signs verifies, and [Verify] decides the equation of verification;
      derivation commutes with taking the public key; the machine's [CHECKMULTISIG]
      accepts the signatures of derived keys.
    - Replicated store: [Apply] is a transaction on an abstract store; in every
      interleaving of the clients and processes of a cluster [Get] is linearizable, also
      when processes start from snapshots, and node identifiers are unique when none does,
      as long as the library hands no snapshot to a process that runs ([receives]); when
      it does, both fail, on runs that are given;
      the file of the identifier is replaced at once and a changed byte is noticed.
    - Filters: the parser ends; what a predicate prints is parsed to the predicate; an
      accepted filter has SQL; strings of a filter stay between quotes in the SQL.
    - Commitments: entry identifiers, Merkle roots and tree roots determine what was
      hashed, unless two strings that were hashed are a collision.
    - Round trips of the encoders.
    - Flaws and departures from the documentation, each proved on a concrete run.

    ** Interfaces and parameters

    [Crypto] (digests and signature check; [Ed25519Theorems] gives the instance with the
    signatures of the repository), [Sha512] with the length of its digest, [Runtime] (capacities that [append]
    chooses), [StateTree] (what snapshots need of the tree), [Verifier] (what the
    validator needs of the machine), [CheckedInt]; the store and the LRU cache of the
    chain with [StoreLaws] and [LRULaws]; the environment of the reserver (the table of
    outputs, the state tree, the clock) and the order in which Go ranges over a map;
    [Unicode] (letters and digits outside ASCII) and [PQ] with [PQLaws] (quoted
    identifiers) for filters; the function that signs, the service that a transaction is
    submitted to, and the world that actions change for [core/txbuilder]; [Protobuf],
    [RaftPB], [OS] and [RaftLib] with their laws (encodings, files, and etcd's node, storage
    and log) for [database/raft]; the HSM of a block signer.  Witnesses
    instantiate each of them; their digest is a polynomial that is easy to compute and
    makes no claim to be a good one.

    ** Not modelled

    The assembler of [vm]; text, JSON and SQL forms of hashes; generated code; the
    time that the curve arithmetic takes; the rest of [core] (HTTP handlers, the generator,
    indexers), the access to Postgres, [net] and the command-line tools, which
    are services over a database, a network and libraries that are not in the
    repository.  The machine is run with a fresh store per call: that one call can change
    the bytes of [trueBytes] for a later one is shown in [VMFindings] and not carried
    further.  Trace output, metrics and logging are left out.

    ** Plan

    Next: [core/generator], which asks the signers, [core/account/builder.go] and
    [protocol/vm/assemble.go]. *)

From Stdlib Require Import ZArith Lia List.
From Stdlib.Strings Require Byte.
From stdpp Require Export base list gmap.
From stdpp Require Import numbers.

#[global] Open Scope Z_scope.

(** ** Automation *)

Create HintDb chain.

(** Split conjunctions in the goal and finish with [eauto] and [lia]. *)
Ltac chain := repeat split; eauto with chain; try lia; try done.

(** Case analysis on every boolean comparison of integers in the goal or in
    the hypotheses. *)
Ltac zbool :=
  repeat match goal with
  | H : (_ && _)%bool = true |- _ => apply andb_prop in H; destruct H
  | H : (_ || _)%bool = false |- _ => apply orb_false_iff in H; destruct H
  | H : negb _ = true |- _ => apply negb_true_iff in H
  | H : negb _ = false |- _ => apply negb_false_iff in H
  | H : (_ <? _) = true |- _ => apply Z.ltb_lt in H
  | H : (_ <? _) = false |- _ => apply Z.ltb_ge in H
  | H : (_ <=? _) = true |- _ => apply Z.leb_le in H
  | H : (_ <=? _) = false |- _ => apply Z.leb_gt in H
  | H : (_ =? _) = true |- _ => apply Z.eqb_eq in H
  | H : (_ =? _) = false |- _ => apply Z.eqb_neq in H
  | H : (_ >? _) = _ |- _ => rewrite Z.gtb_ltb in H
  | H : (_ >=? _) = _ |- _ => rewrite Z.geb_leb in H
  end.

(** ** Machine integers

    A Go integer of a fixed width is a [Z] in the range of its type.  Every
    conversion and every arithmetic operation of the source that can leave the
    range is followed by the conversion function of the type, which wraps. *)

Definition MaxInt64 : Z := 9223372036854775807.
Definition MinInt64 : Z := -9223372036854775808.
Definition MaxUint64 : Z := 18446744073709551615.
Definition MaxInt32 : Z := 2147483647.
Definition MinInt32 : Z := -2147483648.
Definition MaxUint32 : Z := 4294967295.

Definition uint64 (z : Z) : Z := z mod 18446744073709551616.
Definition uint32 (z : Z) : Z := z mod 4294967296.
Definition int64 (z : Z) : Z :=
  (z + 9223372036854775808) mod 18446744073709551616 - 9223372036854775808.
Definition int32 (z : Z) : Z :=
  (z + 2147483648) mod 4294967296 - 2147483648.

Definition in_int64 (z : Z) : bool := (MinInt64 <=? z) && (z <=? MaxInt64).
Definition in_int32 (z : Z) : bool := (MinInt32 <=? z) && (z <=? MaxInt32).
Definition in_uint64 (z : Z) : bool := (0 <=? z) && (z <=? MaxUint64).
Definition in_uint32 (z : Z) : bool := (0 <=? z) && (z <=? MaxUint32).

Ltac unfold_int :=
  unfold in_int64, in_int32, in_uint64, in_uint32, MaxInt64, MinInt64,
    MaxUint64, MaxInt32, MinInt32, MaxUint32 in *.

Lemma int64_id z : MinInt64 <= z <= MaxInt64 -> int64 z = z.
Proof. unfold int64; unfold_int; intros; rewrite Z.mod_small; lia. Qed.

Lemma int32_id z : MinInt32 <= z <= MaxInt32 -> int32 z = z.
Proof. unfold int32; unfold_int; intros; rewrite Z.mod_small; lia. Qed.

Lemma uint64_id z : 0 <= z <= MaxUint64 -> uint64 z = z.
Proof. unfold uint64; unfold_int; intros; rewrite Z.mod_small; lia. Qed.

Lemma uint32_id z : 0 <= z <= MaxUint32 -> uint32 z = z.
Proof. unfold uint32; unfold_int; intros; rewrite Z.mod_small; lia. Qed.

Lemma int64_range z : MinInt64 <= int64 z <= MaxInt64.
Proof.
  unfold int64; unfold_int.
  pose proof (Z.mod_pos_bound (z + 9223372036854775808) 18446744073709551616). lia.
Qed.

Lemma uint32_range z : 0 <= uint32 z <= MaxUint32.
Proof. unfold uint32; unfold_int. pose proof (Z.mod_pos_bound z 4294967296). lia. Qed.

Lemma uint64_range z : 0 <= uint64 z <= MaxUint64.
Proof.
  unfold uint64; unfold_int. pose proof (Z.mod_pos_bound z 18446744073709551616). lia.
Qed.

(** Reinterpreting a 64-bit pattern as signed and back loses nothing. *)
Lemma int64_uint64 z : int64 (uint64 z) = int64 z.
Proof.
  unfold int64, uint64. f_equal.
  rewrite <- (Z.add_mod_idemp_l z), Z.add_mod_idemp_l by lia. reflexivity.
Qed.

#[export] Hint Resolve int64_range uint32_range uint64_range : chain.

(** ** Bytes *)

Notation byte := Byte.byte.
Notation bytes := (list Byte.byte).

#[export] Instance byte_eq_dec : EqDecision byte := Byte.byte_eq_dec.

(** [Z_of_byte b] is Go's conversion of a [byte] to a wider integer and
    [byte_of_Z z] its conversion [byte(z)], which keeps the low 8 bits. *)
Definition Z_of_byte (b : byte) : Z := Z.of_N (Byte.to_N b).
Definition byte_of_Z (z : Z) : byte := default Byte.x00 (Byte.of_N (Z.to_N (z mod 256))).

Lemma Z_of_byte_range b : 0 <= Z_of_byte b < 256.
Proof. unfold Z_of_byte. pose proof (Byte.to_N_bounded b). lia. Qed.

Lemma byte_of_Z_of_byte b : byte_of_Z (Z_of_byte b) = b.
Proof.
  unfold byte_of_Z. rewrite Z.mod_small by apply Z_of_byte_range.
  unfold Z_of_byte. rewrite N2Z.id. by rewrite Byte.of_to_N.
Qed.

Lemma Z_of_byte_of_Z z : Z_of_byte (byte_of_Z z) = z mod 256.
Proof.
  unfold byte_of_Z. pose proof (Z.mod_pos_bound z 256 ltac:(lia)) as Hr.
  destruct (Byte.of_N (Z.to_N (z mod 256))) as [b|] eqn:E; simpl.
  - apply Byte.to_of_N in E. unfold Z_of_byte. rewrite E. lia.
  - apply Byte.of_N_None_iff in E. lia.
Qed.

Lemma Z_of_byte_small z : 0 <= z < 256 -> Z_of_byte (byte_of_Z z) = z.
Proof. intros. rewrite Z_of_byte_of_Z. by apply Z.mod_small. Qed.

#[export] Instance Z_of_byte_inj : Inj (=) (=) Z_of_byte.
Proof. intros a b E. rewrite <- (byte_of_Z_of_byte a), E. apply byte_of_Z_of_byte. Qed.

#[export] Instance byte_countable : Countable byte :=
  inj_countable Byte.to_N Byte.of_N Byte.of_to_N.

(** ** Fixed-width byte orders: [encoding/binary]

    [le_put n z] are the [n] low bytes of [z], least significant first
    ([binary.LittleEndian.PutUint16/32/64]); [le_get bs] reads them back. *)

Fixpoint le_put (n : nat) (z : Z) : bytes :=
  match n with
  | O => []
  | S n => byte_of_Z z :: le_put n (z / 256)
  end.

Fixpoint le_get (bs : bytes) : Z :=
  match bs with
  | [] => 0
  | b :: bs => Z_of_byte b + 256 * le_get bs
  end.

(** Big-endian: the same digits, most significant first. *)
Definition be_put (n : nat) (z : Z) : bytes := rev (le_put n z).
Definition be_get (bs : bytes) : Z := le_get (rev bs).

Lemma length_le_put n z : length (le_put n z) = n.
Proof. revert z; induction n; simpl; auto. Qed.

Lemma le_get_bound bs : 0 <= le_get bs < 256 ^ Z.of_nat (length bs).
Proof.
  induction bs as [|b bs IH]; cbn [le_get length]; [lia|].
  pose proof (Z_of_byte_range b). rewrite Nat2Z.inj_succ, Z.pow_succ_r by lia. nia.
Qed.

Lemma le_get_put n z : le_get (le_put n z) = z mod 256 ^ Z.of_nat n.
Proof.
  revert z; induction n as [|n IH]; intros z; cbn [le_get le_put].
  - by rewrite Z.mod_1_r.
  - rewrite Z_of_byte_of_Z, IH, Nat2Z.inj_succ, Z.pow_succ_r by lia.
    rewrite Z.rem_mul_r by lia. lia.
Qed.

Lemma le_put_get bs : le_put (length bs) (le_get bs) = bs.
Proof.
  induction bs as [|b bs IH]; simpl; [done|]. pose proof (Z_of_byte_range b).
  replace ((Z_of_byte b + 256 * le_get bs) / 256) with (le_get bs)
    by (rewrite Z.mul_comm, Z.div_add, Z.div_small by lia; lia).
  rewrite IH. f_equal. apply (inj Z_of_byte). rewrite Z_of_byte_of_Z.
  rewrite Z.mul_comm, Z.mod_add, Z.mod_small by lia. done.
Qed.

Lemma le_get_app a b :
  le_get (a ++ b) = le_get a + 256 ^ Z.of_nat (length a) * le_get b.
Proof.
  induction a as [|x a IH]; cbn [app le_get length]; [lia|].
  rewrite IH, Nat2Z.inj_succ, Z.pow_succ_r by lia. ring.
Qed.

Lemma le_get_zeros n : le_get (replicate n Byte.x00) = 0.
Proof. induction n as [|n IH]; cbn [replicate le_get]; [done|]. rewrite IH. done. Qed.

Lemma be_get_put n z : be_get (be_put n z) = z mod 256 ^ Z.of_nat n.
Proof. unfold be_get, be_put. by rewrite rev_involutive, le_get_put. Qed.

Lemma be_put_get bs : be_put (length bs) (be_get bs) = bs.
Proof.
  unfold be_get, be_put. rewrite <- (length_rev bs), le_put_get. apply rev_involutive.
Qed.

Lemma length_be_put n z : length (be_put n z) = n.
Proof. unfold be_put. by rewrite length_rev, length_le_put. Qed.

#[global] Arguments le_put : simpl never.
#[global] Arguments int64 : simpl never.
#[global] Arguments uint64 : simpl never.
#[global] Arguments uint32 : simpl never.

(** ** Lengths as integers *)

Definition zlen {A} (l : list A) : Z := Z.of_nat (length l).
Arguments zlen : simpl never.

Lemma zlen_nonneg {A} (l : list A) : 0 <= zlen l.
Proof. unfold zlen. lia. Qed.
Lemma zlen_nil {A} : zlen (@nil A) = 0. Proof. done. Qed.
Lemma zlen_cons {A} (x : A) l : zlen (x :: l) = 1 + zlen l.
Proof. unfold zlen. simpl. lia. Qed.
Lemma zlen_app {A} (a b : list A) : zlen (a ++ b) = zlen a + zlen b.
Proof. unfold zlen. rewrite length_app. lia. Qed.

Create HintDb zlen.
#[export] Hint Rewrite @zlen_nil @zlen_cons @zlen_app : zlen.
#[export] Hint Resolve zlen_nonneg Z_of_byte_range : chain.

(** The Go expression [l[lo:hi]] on a slice whose bounds were checked. *)
Definition subslice {A} (lo hi : Z) (l : list A) : list A :=
  take (Z.to_nat (hi - lo)) (drop (Z.to_nat lo) l).

Lemma subslice_app {A} (a b c : list A) lo hi :
  lo = zlen a -> hi = zlen a + zlen b -> subslice lo hi (a ++ b ++ c) = b.
Proof.
  unfold subslice, zlen. intros -> ->.
  replace (Z.to_nat (Z.of_nat (length a))) with (length a) by lia.
  rewrite drop_app_length.
  replace (Z.to_nat _) with (length b) by lia. by rewrite take_app_length.
Qed.

Lemma subslice_head {A} (b c : list A) hi : hi = zlen b -> subslice 0 hi (b ++ c) = b.
Proof. intros ->. apply (subslice_app [] b c); unfold zlen; simpl; lia. Qed.

Lemma subslice_tail {A} (a b : list A) lo hi :
  lo = zlen a -> hi = zlen a + zlen b -> subslice lo hi (a ++ b) = b.
Proof. intros. rewrite <- (app_nil_r b) at 1. by apply subslice_app. Qed.

Lemma zlen_subslice {A} (l : list A) lo hi :
  0 <= lo <= hi -> hi <= zlen l -> zlen (subslice lo hi l) = hi - lo.
Proof.
  unfold subslice, zlen. intros. rewrite length_take, length_drop. lia.
Qed.

(** ** Results of fallible code: a value or an error of type [E]. *)

Inductive result (E A : Type) : Type :=
| Ok (a : A)
| Err (e : E).
Arguments Ok {E A} a.
Arguments Err {E A} e.

#[export] Instance result_ret E : MRet (result E) := fun A a => Ok a.
#[export] Instance result_bind E : MBind (result E) :=
  fun A B f m => match m with Ok a => f a | Err e => Err e end.

Lemma result_bind_Ok {E A B} (m : result E A) (f : A -> result E B) b :
  (m ≫= f) = Ok b -> exists a, m = Ok a /\ f a = Ok b.
Proof. destruct m; simpl; [eauto|discriminate]. Qed.
