(* ===== verification/Checked.v ===== *)
(** * Overflow-checked arithmetic: [math/checked/checked.go]

    Every function returns the pair [(result, ok)] of the source.  The
    comparisons of the guards are written with the wrap-around of the operand
    type, so that a guard that itself overflowed would be visible here.

    [CheckedInt] is the contract the rest of the program relies on: on operands
    of the type, an operation returns the mathematical result when the type can
    represent it and [(0, false)] otherwise. *)

From Stdlib Require Import ZArith Lia.
From S2P Require Import Prelude.

Section Definitions.
Local Open Scope bool_scope.

(** [int64] *)

Definition AddInt64 (a b : Z) : Z * bool :=
  if ((0 <? b) && (int64 (MaxInt64 - b) <? a)) || ((b <? 0) && (a <? int64 (MinInt64 - b)))
  then (0, false)
  else (int64 (a + b), true).

Definition SubInt64 (a b : Z) : Z * bool :=
  if ((0 <? b) && (a <? int64 (MinInt64 + b))) || ((b <? 0) && (int64 (MaxInt64 + b) <? a))
  then (0, false)
  else (int64 (a - b), true).

Definition MulInt64 (a b : Z) : Z * bool :=
  if ((0 <? a) && (0 <? b) && (int64 (Z.quot MaxInt64 b) <? a))
     || ((0 <? a) && (b <=? 0) && (b <? int64 (Z.quot MinInt64 a)))
     || ((a <=? 0) && (0 <? b) && (a <? int64 (Z.quot MinInt64 b)))
     || ((a <? 0) && (b <=? 0) && (b <? int64 (Z.quot MaxInt64 a)))
  then (0, false)
  else (int64 (a * b), true).

Definition DivInt64 (a b : Z) : Z * bool :=
  if (b =? 0) || ((a =? MinInt64) && (b =? -1))
  then (0, false)
  else (int64 (Z.quot a b), true).

Definition ModInt64 (a b : Z) : Z * bool :=
  if (b =? 0) || ((a =? MinInt64) && (b =? -1))
  then (0, false)
  else (int64 (Z.rem a b), true).

Definition NegateInt64 (a : Z) : Z * bool :=
  if a =? MinInt64 then (0, false) else (int64 (- a), true).

Definition LshiftInt64 (a b : Z) : Z * bool :=
  if (b <? 0) || (64 <=? b) then (0, false)
  else if ((0 <=? a) && (Z.shiftr MaxInt64 b <? a)) || ((a <? 0) && (a <? Z.shiftr MinInt64 b))
  then (0, false)
  else (int64 (Z.shiftl a b), true).

(** [int32] *)

Definition AddInt32 (a b : Z) : Z * bool :=
  if ((0 <? b) && (int32 (MaxInt32 - b) <? a)) || ((b <? 0) && (a <? int32 (MinInt32 - b)))
  then (0, false)
  else (int32 (a + b), true).

Definition SubInt32 (a b : Z) : Z * bool :=
  if ((0 <? b) && (a <? int32 (MinInt32 + b))) || ((b <? 0) && (int32 (MaxInt32 + b) <? a))
  then (0, false)
  else (int32 (a - b), true).

Definition MulInt32 (a b : Z) : Z * bool :=
  if ((0 <? a) && (0 <? b) && (int32 (Z.quot MaxInt32 b) <? a))
     || ((0 <? a) && (b <=? 0) && (b <? int32 (Z.quot MinInt32 a)))
     || ((a <=? 0) && (0 <? b) && (a <? int32 (Z.quot MinInt32 b)))
     || ((a <? 0) && (b <=? 0) && (b <? int32 (Z.quot MaxInt32 a)))
  then (0, false)
  else (int32 (a * b), true).

Definition DivInt32 (a b : Z) : Z * bool :=
  if (b =? 0) || ((a =? MinInt32) && (b =? -1))
  then (0, false)
  else (int32 (Z.quot a b), true).

Definition ModInt32 (a b : Z) : Z * bool :=
  if (b =? 0) || ((a =? MinInt32) && (b =? -1))
  then (0, false)
  else (int32 (Z.rem a b), true).

Definition NegateInt32 (a : Z) : Z * bool :=
  if a =? MinInt32 then (0, false) else (int32 (- a), true).

Definition LshiftInt32 (a b : Z) : Z * bool :=
  if (b <? 0) || (32 <=? b) then (0, false)
  else if ((0 <=? a) && (Z.shiftr MaxInt32 b <? a)) || ((a <? 0) && (a <? Z.shiftr MinInt32 b))
  then (0, false)
  else (int32 (Z.shiftl a b), true).

(** [uint64] *)

Definition AddUint64 (a b : Z) : Z * bool :=
  if uint64 (MaxUint64 - a) <? b then (0, false) else (uint64 (a + b), true).

Definition SubUint64 (a b : Z) : Z * bool :=
  if a <? b then (0, false) else (uint64 (a - b), true).

Definition MulUint64 (a b : Z) : Z * bool :=
  if (0 <? b) && (MaxUint64 / b <? a) then (0, false) else (uint64 (a * b), true).

Definition DivUint64 (a b : Z) : Z * bool :=
  if b =? 0 then (0, false) else (a / b, true).

Definition ModUint64 (a b : Z) : Z * bool :=
  if b =? 0 then (0, false) else (a mod b, true).

Definition LshiftUint64 (a b : Z) : Z * bool :=
  if 64 <=? b then (0, false)
  else if Z.shiftr MaxUint64 b <? a then (0, false)
  else (uint64 (Z.shiftl a b), true).

(** [uint32] *)

Definition AddUint32 (a b : Z) : Z * bool :=
  if uint32 (MaxUint32 - a) <? b then (0, false) else (uint32 (a + b), true).

Definition SubUint32 (a b : Z) : Z * bool :=
  if a <? b then (0, false) else (uint32 (a - b), true).

Definition MulUint32 (a b : Z) : Z * bool :=
  if (0 <? b) && (MaxUint32 / b <? a) then (0, false) else (uint32 (a * b), true).

Definition DivUint32 (a b : Z) : Z * bool :=
  if b =? 0 then (0, false) else (a / b, true).

Definition ModUint32 (a b : Z) : Z * bool :=
  if b =? 0 then (0, false) else (a mod b, true).

Definition LshiftUint32 (a b : Z) : Z * bool :=
  if 32 <=? b then (0, false)
  else if Z.shiftr MaxUint32 b <? a then (0, false)
  else (uint32 (Z.shiftl a b), true).

End Definitions.

(** ** The contract *)

(** The pair a checked operation returns when the mathematical result is [r]
    and the type holds the integers of [inr]. *)
Definition exact (inr : Z -> bool) (r : Z) : Z * bool :=
  if inr r then (r, true) else (0, false).

(** Division and remainder truncate towards zero and have no result for a zero
    divisor; a remainder is reported as an overflow when its quotient
    overflows. *)
Definition exact_quot (inr : Z -> bool) (a b : Z) : Z * bool :=
  if b =? 0 then (0, false) else exact inr (Z.quot a b).
Definition exact_rem (inr : Z -> bool) (a b : Z) : Z * bool :=
  if (b =? 0) || negb (inr (Z.quot a b)) then (0, false) else (Z.rem a b, true).

(** A shift count must be between 0 and the width of the type. *)
Definition exact_shl (inr : Z -> bool) (bits a b : Z) : Z * bool :=
  if (0 <=? b) && (b <? bits) then exact inr (a * 2 ^ b) else (0, false).

Class CheckedInt (inr : Z -> bool) (bits : Z)
    (add sub mul div rem shl : Z -> Z -> Z * bool) : Prop := {
  add_exact a b : inr a = true -> inr b = true -> add a b = exact inr (a + b);
  sub_exact a b : inr a = true -> inr b = true -> sub a b = exact inr (a - b);
  mul_exact a b : inr a = true -> inr b = true -> mul a b = exact inr (a * b);
  div_exact a b : inr a = true -> inr b = true -> div a b = exact_quot inr a b;
  rem_exact a b : inr a = true -> inr b = true -> rem a b = exact_rem inr a b;
  shl_exact a b : inr a = true -> inr b = true -> shl a b = exact_shl inr bits a b;
}.

(** ** Quotient guards as comparisons of products *)

Lemma quot_lt_mul M a b : 0 < b -> 0 <= M -> (Z.quot M b <? a) = (M <? a * b).
Proof.
  intros Hb HM. rewrite Z.quot_div_nonneg by lia.
  apply eq_bool_prop_intro. rewrite !Is_true_true, !Z.ltb_lt. split; intros H.
  - pose proof (Z.mul_succ_div_gt M b Hb). nia.
  - apply Z.div_lt_upper_bound; lia.
Qed.

Lemma lt_quot_mul_pos N a b : 0 < a -> N <= 0 -> (b <? Z.quot N a) = (a * b <? N).
Proof.
  intros Ha HN. replace N with (- (- N)) at 1 by lia. rewrite Z.quot_opp_l by lia.
  pose proof (quot_lt_mul (- N) (- b) a Ha ltac:(lia)) as H.
  transitivity (Z.quot (- N) a <? - b).
  - apply eq_bool_prop_intro. rewrite !Is_true_true, !Z.ltb_lt. lia.
  - rewrite H. apply eq_bool_prop_intro. rewrite !Is_true_true, !Z.ltb_lt. lia.
Qed.

Lemma lt_quot_mul_neg M a b : a < 0 -> 0 <= M -> (b <? Z.quot M a) = (M <? a * b).
Proof.
  intros Ha HM. replace a with (- (- a)) at 1 by lia. rewrite Z.quot_opp_r by lia.
  pose proof (quot_lt_mul M (- b) (- a) ltac:(lia) HM) as H.
  transitivity (Z.quot M (- a) <? - b).
  - apply eq_bool_prop_intro. rewrite !Is_true_true, !Z.ltb_lt. lia.
  - rewrite H. apply eq_bool_prop_intro. rewrite !Is_true_true, !Z.ltb_lt. lia.
Qed.

Lemma quot_abs_le M b : b <> 0 -> - Z.abs M <= Z.quot M b <= Z.abs M.
Proof.
  intros Hb. assert (Z.abs (Z.quot M b) <= Z.abs M); [|lia].
  rewrite <- Z.quot_abs by done. rewrite Z.quot_div_nonneg by lia.
  apply Z.div_le_upper_bound; nia.
Qed.

(** A truncated quotient overflows a two's-complement type only in the one case
    the guards of [Div] and [Mod] test. *)
Lemma quot_in_range m a b :
  0 < m -> - m <= a < m -> b <> 0 -> ~ (a = - m /\ b = -1) -> - m <= Z.quot a b < m.
Proof.
  intros Hm Ha Hb Hn. pose proof (quot_abs_le a b Hb).
  assert (Z.quot a b <> m); [|lia]. intros E.
  assert (a = - m) by lia. subst a.
  assert (b < 0) by (destruct (Z_lt_le_dec b 0); [done|];
    assert (Z.quot (- m) b <= 0); [|lia]; rewrite Z.quot_opp_l by lia;
    pose proof (Z.quot_pos m b ltac:(lia) ltac:(lia)); lia).
  pose proof (Z.quot_rem' (- m) b) as Hq.
  pose proof (Z.rem_sign_mul (- m) b Hb). rewrite E in Hq. nia.
Qed.

Lemma quot_overflow m : Z.quot (- m) (-1) = m.
Proof. change (-1) with (- (1)). rewrite Z.quot_opp_opp, Z.quot_1_r; lia. Qed.

Lemma rem_in_range m a b : - m <= a < m -> b <> 0 -> - m <= Z.rem a b < m.
Proof.
  intros Ha Hb. pose proof (Z.rem_bound_abs a b Hb).
  pose proof (Z.rem_sign_nz a b Hb).
  assert (Z.abs (Z.rem a b) <= Z.abs a).
  { rewrite <- Z.rem_abs by done. rewrite Z.rem_mod_nonneg by lia. apply Z.mod_le; lia. }
  destruct (decide (Z.rem a b = 0)) as [->|Hz]; [lia|]. specialize (H0 Hz). lia.
Qed.

(** Comparing with a right shift of the bound is comparing the shifted value
    with the bound. *)
Lemma shiftr_lt_shl M a b : 0 <= b -> (Z.shiftr M b <? a) = (M <? a * 2 ^ b).
Proof.
  intros Hb. rewrite Z.shiftr_div_pow2 by done.
  assert (0 < 2 ^ b) by (apply Z.pow_pos_nonneg; lia).
  apply eq_bool_prop_intro. rewrite !Is_true_true, !Z.ltb_lt. split; intros H0.
  - pose proof (Z.mul_succ_div_gt M (2 ^ b) H). nia.
  - apply Z.div_lt_upper_bound; lia.
Qed.

Lemma lt_shiftr_shl c a b :
  0 <= c -> 0 <= b <= c -> (a <? Z.shiftr (- 2 ^ c) b) = (a * 2 ^ b <? - 2 ^ c).
Proof.
  intros Hc Hb. rewrite Z.shiftr_div_pow2 by lia.
  replace (- 2 ^ c) with (- 2 ^ (c - b) * 2 ^ b)
    by (rewrite Z.mul_opp_l, <- Z.pow_add_r by lia; do 2 f_equal; lia).
  assert (0 < 2 ^ b) by (apply Z.pow_pos_nonneg; lia).
  rewrite Z.div_mul by lia.
  apply eq_bool_prop_intro. rewrite !Is_true_true, !Z.ltb_lt. nia.
Qed.

(** ** The guards are right for every two's-complement width

    [m] is the first integer the type cannot hold and [w] its wrap-around. *)

Section Signed.
Context (c : Z) (w : Z -> Z).
Let m := 2 ^ c.
Hypothesis Hc : 0 <= c.
Hypothesis Hw : forall z, - m <= z < m -> w z = z.
Let inr (z : Z) : bool := (- m <=? z) && (z <=? m - 1).

Local Lemma m_pos : 0 < m.
Proof. apply Z.pow_pos_nonneg; lia. Qed.

(** Split on the tests of the guard, removing each wrap-around as soon as the
    range of its argument is known. *)
Ltac guards :=
  pose proof m_pos; unfold exact, inr in *;
  repeat ((rewrite Hw by lia) || match goal with
  | |- context [?x <? 0] => destruct (Z.ltb_spec x 0); cbn [andb orb]
  | |- context [0 <? ?x] => destruct (Z.ltb_spec 0 x); cbn [andb orb]
  | |- context [?x <=? 0] => destruct (Z.leb_spec x 0); cbn [andb orb]
  | |- context [if ?b then _ else _] => destruct b eqn:?
  end); try (f_equal; lia); try lia.

Lemma signed_add a b :
  inr a = true -> inr b = true ->
  (if ((0 <? b) && (w (m - 1 - b) <? a)) || ((b <? 0) && (a <? w (- m - b)))
   then (0, false) else (w (a + b), true)) = exact inr (a + b).
Proof. intros; guards. Qed.

Lemma signed_sub a b :
  inr a = true -> inr b = true ->
  (if ((0 <? b) && (a <? w (- m + b))) || ((b <? 0) && (w (m - 1 + b) <? a))
   then (0, false) else (w (a - b), true)) = exact inr (a - b).
Proof. intros; guards. Qed.

Lemma signed_mul a b :
  inr a = true -> inr b = true ->
  (if ((0 <? a) && (0 <? b) && (w (Z.quot (m - 1) b) <? a))
      || ((0 <? a) && (b <=? 0) && (b <? w (Z.quot (- m) a)))
      || ((a <=? 0) && (0 <? b) && (a <? w (Z.quot (- m) b)))
      || ((a <? 0) && (b <=? 0) && (b <? w (Z.quot (m - 1) a)))
   then (0, false) else (w (a * b), true)) = exact inr (a * b).
Proof.
  intros Ha Hb. pose proof m_pos as Hm.
  assert (Hq : forall x, x <> 0 -> w (Z.quot (m - 1) x) = Z.quot (m - 1) x)
    by (intros x Hx; apply Hw; pose proof (quot_abs_le (m - 1) x Hx); lia).
  assert (Hq' : forall x, 0 < x -> w (Z.quot (- m) x) = Z.quot (- m) x)
    by (intros x Hx; apply Hw, quot_in_range; lia).
  destruct (Z.ltb_spec 0 a), (Z.ltb_spec 0 b), (Z.leb_spec a 0), (Z.leb_spec b 0),
    (Z.ltb_spec a 0); try lia; cbn [andb orb];
    rewrite ?orb_false_r, ?Hq, ?Hq' by lia;
    rewrite ?(quot_lt_mul (m - 1) a b), ?(lt_quot_mul_pos (- m) a b),
      ?(lt_quot_mul_pos (- m) b a), ?(lt_quot_mul_neg (m - 1) a b) by lia;
    unfold exact, inr in *;
    repeat match goal with |- context [if ?x then _ else _] => destruct x eqn:? end;
    rewrite ?Hw by nia; try done; nia.
Qed.

(** The common guard of division and remainder. *)
Lemma signed_div_guard a b :
  inr a = true -> inr b = true ->
  (b =? 0) || ((a =? - m) && (b =? -1)) = (b =? 0) || negb (inr (Z.quot a b)).
Proof.
  intros Ha Hb. pose proof m_pos as Hm. destruct (Z.eqb_spec b 0); [done|]. cbn [orb].
  destruct (Z.eqb_spec a (- m)) as [->|], (Z.eqb_spec b (-1)) as [->|]; cbn [andb];
    rewrite ?quot_overflow; unfold inr in *; try lia;
    match goal with |- context [Z.quot ?x ?y] => pose proof (quot_in_range m x y) end; lia.
Qed.

Lemma signed_div a b :
  inr a = true -> inr b = true ->
  (if (b =? 0) || ((a =? - m) && (b =? -1)) then (0, false) else (w (Z.quot a b), true))
  = exact_quot inr a b.
Proof.
  intros Ha Hb. rewrite signed_div_guard by done. unfold exact_quot, exact.
  destruct (b =? 0); [done|]. destruct (inr (Z.quot a b)) eqn:E; [|done].
  cbn. rewrite Hw; [done|]. unfold inr in E. lia.
Qed.

Lemma signed_rem a b :
  inr a = true -> inr b = true ->
  (if (b =? 0) || ((a =? - m) && (b =? -1)) then (0, false) else (w (Z.rem a b), true))
  = exact_rem inr a b.
Proof.
  intros Ha Hb. rewrite signed_div_guard by done. unfold exact_rem.
  destruct (Z.eqb_spec b 0); [done|]. destruct (inr (Z.quot a b)); [|done].
  cbn. rewrite Hw; [done|]. apply rem_in_range; unfold inr in *; lia.
Qed.

Lemma signed_neg a :
  inr a = true ->
  (if a =? - m then (0, false) else (w (- a), true)) = exact inr (- a).
Proof. intros; guards. Qed.

Lemma signed_shl a b :
  inr a = true -> inr b = true ->
  (if (b <? 0) || (c + 1 <=? b) then (0, false)
   else if ((0 <=? a) && (Z.shiftr (m - 1) b <? a)) || ((a <? 0) && (a <? Z.shiftr (- m) b))
   then (0, false) else (w (Z.shiftl a b), true)) = exact_shl inr (c + 1) a b.
Proof.
  intros Ha Hb. unfold exact_shl.
  destruct (Z.ltb_spec b 0), (Z.leb_spec (c + 1) b), (Z.leb_spec 0 b),
    (Z.ltb_spec b (c + 1)); cbn [andb orb]; try lia; try done.
  rewrite shiftr_lt_shl, Z.shiftl_mul_pow2 by lia.
  unfold m at 2. rewrite lt_shiftr_shl by lia. fold m.
  assert (0 < 2 ^ b) by (apply Z.pow_pos_nonneg; lia). unfold exact, inr in *.
  destruct (Z.leb_spec 0 a), (Z.ltb_spec a 0); try lia; cbn [andb orb];
    rewrite ?orb_false_r;
    repeat match goal with |- context [if ?x then _ else _] => destruct x eqn:? end;
    rewrite ?Hw by nia; try done; nia.
Qed.
End Signed.

Section Unsigned.
#[local] Set Default Proof Using "All".
Context (c : Z) (w : Z -> Z).
Let m := 2 ^ c.
Hypothesis Hc : 0 <= c.
Hypothesis Hw : forall z, 0 <= z < m -> w z = z.
Let inr (z : Z) : bool := (0 <=? z) && (z <=? m - 1).

Ltac split_ifs :=
  unfold exact, inr in *;
  repeat match goal with |- context [if ?x then _ else _] => destruct x eqn:? end;
  rewrite ?Hw by nia; try done; try nia.

Lemma unsigned_add a b :
  inr a = true -> inr b = true ->
  (if w (m - 1 - a) <? b then (0, false) else (w (a + b), true)) = exact inr (a + b).
Proof. intros. rewrite (Hw (m - 1 - a)) by (unfold inr in *; lia). split_ifs. Qed.

Lemma unsigned_sub a b :
  inr a = true -> inr b = true ->
  (if a <? b then (0, false) else (w (a - b), true)) = exact inr (a - b).
Proof. intros. split_ifs. Qed.

Lemma unsigned_mul a b :
  inr a = true -> inr b = true ->
  (if (0 <? b) && ((m - 1) / b <? a) then (0, false) else (w (a * b), true))
  = exact inr (a * b).
Proof.
  intros. assert (0 < m) by (apply Z.pow_pos_nonneg; lia).
  destruct (Z.ltb_spec 0 b); cbn [andb].
  - rewrite <- (Z.quot_div_nonneg (m - 1) b), quot_lt_mul by lia. split_ifs.
  - assert (b = 0) as -> by (unfold inr in *; lia). rewrite Z.mul_0_r. split_ifs.
Qed.

Lemma unsigned_div a b :
  inr a = true -> inr b = true ->
  (if b =? 0 then (0, false) else (a / b, true)) = exact_quot inr a b.
Proof.
  intros. unfold exact_quot. destruct (Z.eqb_spec b 0); [done|].
  rewrite Z.quot_div_nonneg by (unfold inr in *; lia). split_ifs.
  assert (0 <= a / b <= a); [|lia].
  split; [apply Z.div_pos; lia|apply Z.div_le_upper_bound; nia].
Qed.

Lemma unsigned_rem a b :
  inr a = true -> inr b = true ->
  (if b =? 0 then (0, false) else (a mod b, true)) = exact_rem inr a b.
Proof.
  intros Ha Hb. pose proof (unsigned_div a b Ha Hb) as Hd.
  unfold exact_rem. unfold exact_quot, exact in Hd. destruct (Z.eqb_spec b 0); [done|].
  destruct (inr (Z.quot a b)); [|done]. cbn.
  by rewrite Z.rem_mod_nonneg by (unfold inr in *; lia).
Qed.

Lemma unsigned_shl a b :
  inr a = true -> inr b = true ->
  (if c <=? b then (0, false)
   else if Z.shiftr (m - 1) b <? a then (0, false) else (w (Z.shiftl a b), true))
  = exact_shl inr c a b.
Proof.
  intros Ha Hb. assert (0 <= b) by (unfold inr in *; lia). unfold exact_shl.
  rewrite shiftr_lt_shl, Z.shiftl_mul_pow2 by lia.
  assert (0 < 2 ^ b) by (apply Z.pow_pos_nonneg; lia).
  destruct (Z.leb_spec c b), (Z.leb_spec 0 b), (Z.ltb_spec b c); cbn [andb]; try lia; [done|].
  split_ifs.
Qed.
End Unsigned.

(** ** The four instances *)

#[export] Instance checked_int64 :
  CheckedInt in_int64 64 AddInt64 SubInt64 MulInt64 DivInt64 ModInt64 LshiftInt64.
Proof.
  assert (H : 0 <= 63) by lia.
  assert (Hw : forall z, - 2 ^ 63 <= z < 2 ^ 63 -> int64 z = z)
    by (intros; apply int64_id; unfold_int; lia).
  split; [apply (signed_add 63 _ H Hw)|apply (signed_sub 63 _ H Hw)|apply (signed_mul 63 _ H Hw)
         |apply (signed_div 63 _ H Hw)|apply (signed_rem 63 _ H Hw)|apply (signed_shl 63 _ H Hw)].
Qed.

#[export] Instance checked_int32 :
  CheckedInt in_int32 32 AddInt32 SubInt32 MulInt32 DivInt32 ModInt32 LshiftInt32.
Proof.
  assert (H : 0 <= 31) by lia.
  assert (Hw : forall z, - 2 ^ 31 <= z < 2 ^ 31 -> int32 z = z)
    by (intros; apply int32_id; unfold_int; lia).
  split; [apply (signed_add 31 _ H Hw)|apply (signed_sub 31 _ H Hw)|apply (signed_mul 31 _ H Hw)
         |apply (signed_div 31 _ H Hw)|apply (signed_rem 31 _ H Hw)|apply (signed_shl 31 _ H Hw)].
Qed.

#[export] Instance checked_uint64 :
  CheckedInt in_uint64 64 AddUint64 SubUint64 MulUint64 DivUint64 ModUint64 LshiftUint64.
Proof.
  assert (H : 0 <= 64) by lia.
  assert (Hw : forall z, 0 <= z < 2 ^ 64 -> uint64 z = z)
    by (intros; apply uint64_id; unfold_int; lia).
  split; [apply (unsigned_add 64 _ H Hw)|apply (unsigned_sub 64 _ H Hw)|apply (unsigned_mul 64 _ H Hw)
         |apply (unsigned_div 64 _ H Hw)|apply (unsigned_rem 64 _ H Hw)|apply (unsigned_shl 64 _ H Hw)].
Qed.

#[export] Instance checked_uint32 :
  CheckedInt in_uint32 32 AddUint32 SubUint32 MulUint32 DivUint32 ModUint32 LshiftUint32.
Proof.
  assert (H : 0 <= 32) by lia.
  assert (Hw : forall z, 0 <= z < 2 ^ 32 -> uint32 z = z)
    by (intros; apply uint32_id; unfold_int; lia).
  split; [apply (unsigned_add 32 _ H Hw)|apply (unsigned_sub 32 _ H Hw)|apply (unsigned_mul 32 _ H Hw)
         |apply (unsigned_div 32 _ H Hw)|apply (unsigned_rem 32 _ H Hw)|apply (unsigned_shl 32 _ H Hw)].
Qed.

(** Negation, for the two signed types. *)
Lemma NegateInt64_exact a : in_int64 a = true -> NegateInt64 a = exact in_int64 (- a).
Proof.
  apply (signed_neg 63 int64 ltac:(lia)). intros; apply int64_id; unfold_int; lia.
Qed.

Lemma NegateInt32_exact a : in_int32 a = true -> NegateInt32 a = exact in_int32 (- a).
Proof.
  apply (signed_neg 31 int32 ltac:(lia)). intros; apply int32_id; unfold_int; lia.
Qed.

(** What a successful checked operation tells its caller. *)
Lemma exact_ok inr r z : exact inr r = (z, true) -> z = r /\ inr r = true.
Proof. unfold exact. destruct (inr r) eqn:E; [|discriminate]. by intros [= <-]. Qed.

(** The 26 operations of [math/checked] are exact: on operands of their type
    they return the mathematical result when it fits the type (division truncates,
    a shift is a multiplication by a power of two), and report an overflow, with a
    zero, in every other case; the internal tests never wrap. *)
Lemma checked_arithmetic_exact :
  CheckedInt in_int64 64 AddInt64 SubInt64 MulInt64 DivInt64 ModInt64 LshiftInt64 /\
  CheckedInt in_int32 32 AddInt32 SubInt32 MulInt32 DivInt32 ModInt32 LshiftInt32 /\
  CheckedInt in_uint64 64 AddUint64 SubUint64 MulUint64 DivUint64 ModUint64 LshiftUint64 /\
  CheckedInt in_uint32 32 AddUint32 SubUint32 MulUint32 DivUint32 ModUint32 LshiftUint32 /\
  (forall a, in_int64 a = true -> NegateInt64 a = exact in_int64 (- a)) /\
  (forall a, in_int32 a = true -> NegateInt32 a = exact in_int32 (- a)).
Proof.
  split_and!; [apply checked_int64|apply checked_int32|apply checked_uint64|apply checked_uint32
              |apply NegateInt64_exact|apply NegateInt32_exact].
Qed.
