(* ===== verification/GoSlice.v ===== *)
(** * Go byte slices over a shared store

    The stack machine passes byte slices around: several stack items, the
    program being executed and the execution context can share one backing
    array, and [append] writes into that array when the slice has spare
    capacity.  A slice is therefore modelled by its header (array, offset,
    length, capacity) over a store of arrays, and not by its contents.

    [Runtime] holds the one thing the language leaves open: the capacity of the
    array [append] allocates when the old one is full.  The Go specification
    only promises that it is large enough. *)

From Stdlib Require Import ZArith Lia.
From S2P Require Import Prelude.

(** A backing array, and the arrays allocated so far (never freed). *)
Notation heap := (list (list Byte.byte)).

Record slice := Slice { s_arr : nat; s_off : nat; s_len : nat; s_cap : nat }.

#[export] Instance slice_eq_dec : EqDecision slice.
Proof. solve_decision. Defined.

Class Runtime := {
  growcap : nat -> nat -> nat;
  growcap_enough c n : (n <= growcap c n)%nat;
}.

(** A runtime that allocates exactly what is asked for. *)
Definition exact_runtime : Runtime :=
  {| growcap := fun _ n => n; growcap_enough := fun _ n => le_n n |}.

(** ** Operations *)

(** The contents of a slice. *)
Definition arr (h : heap) (i : nat) : bytes := default [] (h !! i).
Definition sbytes (h : heap) (s : slice) : bytes :=
  take (s_len s) (drop (s_off s) (arr h (s_arr s))).

(** [len(s)] *)
Definition slen (s : slice) : Z := Z.of_nat (s_len s).

(** A fresh array of capacity [cap] holding [bs]: [make] followed by [copy], or
    a composite literal. *)
Definition alloc (h : heap) (bs : bytes) (cap : nat) : slice * heap :=
  (Slice (length h) 0 (length bs) cap, h ++ [bs ++ replicate (cap - length bs) Byte.x00]).

(** [make([]byte, len(bs))] and [copy]; also [[]byte{...}]. *)
Definition new_slice (h : heap) (bs : bytes) : slice * heap := alloc h bs (length bs).

(** [s[:n]] and [s[lo:hi]] keep the capacity up to the end of the array. *)
Definition reslice (s : slice) (lo hi : nat) : slice :=
  Slice (s_arr s) (s_off s + lo) (hi - lo) (s_cap s - lo).

(** Overwrite [length bs] bytes of an array from position [i]. *)
Definition overwrite (a : bytes) (i : nat) (bs : bytes) : bytes :=
  take i a ++ bs ++ drop (i + length bs) a.

(** [append(s, bs...)] *)
Definition append_slice `{Runtime} (h : heap) (s : slice) (bs : bytes) : slice * heap :=
  let n := (s_len s + length bs)%nat in
  if (n <=? s_cap s)%nat
  then (Slice (s_arr s) (s_off s) n (s_cap s),
        alter (fun a => overwrite a (s_off s + s_len s) bs) (s_arr s) h)
  else alloc h (sbytes h s ++ bs) (growcap (s_cap s) n).

(** ** Well-formed headers *)

(** The slice lies inside its array. *)
Definition wf_slice (h : heap) (s : slice) : Prop :=
  exists a, h !! s_arr s = Some a /\
  (s_len s <= s_cap s)%nat /\ (s_off s + s_cap s <= length a)%nat.

(** [h'] was reached from [h] by allocations and writes: arrays stay where they
    are and keep their size. *)
Definition heap_le (h h' : heap) : Prop :=
  forall i a, h !! i = Some a -> exists a', h' !! i = Some a' /\ length a' = length a.

#[export] Instance heap_le_preorder : PreOrder heap_le.
Proof.
  split.
  - intros h i a E. eauto.
  - intros h1 h2 h3 H12 H23 i a E. destruct (H12 _ _ E) as (a2 & E2 & L2).
    destruct (H23 _ _ E2) as (a3 & E3 & L3). exists a3. split; [done|congruence].
Qed.

Lemma wf_slice_mono h h' s : heap_le h h' -> wf_slice h s -> wf_slice h' s.
Proof.
  intros Hle (a & E & H1 & H2). destruct (Hle _ _ E) as (a' & E' & L).
  exists a'. repeat split; [done|done|lia].
Qed.

Lemma wf_slices_mono h h' ss : heap_le h h' -> Forall (wf_slice h) ss -> Forall (wf_slice h') ss.
Proof. intros Hle H. eapply Forall_impl; [exact H|]. eauto using wf_slice_mono. Qed.

Lemma length_overwrite a i bs :
  (i + length bs <= length a)%nat -> length (overwrite a i bs) = length a.
Proof. intros. unfold overwrite. rewrite !length_app, length_take, length_drop. lia. Qed.

Lemma alloc_le h bs cap : heap_le h (alloc h bs cap).2.
Proof. intros i a E. exists a. split; [|done]. simpl. by apply lookup_app_l_Some. Qed.

Lemma alloc_wf h bs cap :
  (length bs <= cap)%nat -> wf_slice (alloc h bs cap).2 (alloc h bs cap).1.
Proof.
  intros Hc. eexists. simpl. split.
  - rewrite lookup_app_r, Nat.sub_diag by lia. done.
  - rewrite length_app, length_replicate. lia.
Qed.

Lemma alloc_bytes h bs cap : sbytes (alloc h bs cap).2 (alloc h bs cap).1 = bs.
Proof.
  unfold sbytes, arr. cbn [fst snd s_arr s_off s_len alloc].
  rewrite lookup_app_r, Nat.sub_diag by lia. apply take_app_length.
Qed.

Lemma append_le `{Runtime} h s bs : wf_slice h s -> heap_le h (append_slice h s bs).2.
Proof.
  intros (a0 & E0 & H1 & H2). unfold append_slice. case_match eqn:Hn; [|apply alloc_le].
  apply Nat.leb_le in Hn. intros i a E. simpl. destruct (decide (i = s_arr s)) as [->|Hi].
  - rewrite list_lookup_alter_eq, E. simpl. eexists; split; [done|].
    assert (a = a0) as -> by congruence. apply length_overwrite. lia.
  - rewrite list_lookup_alter_ne by done. eauto.
Qed.

Lemma append_wf `{Runtime} h s bs :
  wf_slice h s -> wf_slice (append_slice h s bs).2 (append_slice h s bs).1.
Proof.
  intros Hs. pose proof Hs as (a0 & E0 & H1 & H2). unfold append_slice.
  case_match eqn:Hn; [apply Nat.leb_le in Hn|apply Nat.leb_gt in Hn].
  - eexists. simpl. rewrite list_lookup_alter_eq, E0. simpl. split; [done|].
    rewrite length_overwrite; lia.
  - apply alloc_wf. rewrite length_app.
    pose proof (growcap_enough (s_cap s) (s_len s + length bs)).
    assert (length (sbytes h s) <= s_len s)%nat by (unfold sbytes; rewrite length_take; lia).
    lia.
Qed.

Lemma length_sbytes h s : wf_slice h s -> length (sbytes h s) = s_len s.
Proof.
  intros (a & E & H1 & H2). unfold sbytes, arr. rewrite E. simpl.
  rewrite length_take, length_drop. lia.
Qed.

Lemma reslice_wf h s lo hi :
  (lo <= hi <= s_len s)%nat -> wf_slice h s -> wf_slice h (reslice s lo hi).
Proof. intros ? (a & E & H1 & H2). exists a. simpl. repeat split; [done|lia|lia]. Qed.

Lemma reslice_bytes h s lo hi :
  (lo <= hi <= s_len s)%nat ->
  sbytes h (reslice s lo hi) = take (hi - lo) (drop lo (sbytes h s)).
Proof.
  intros. unfold sbytes. simpl. rewrite skipn_firstn_comm, drop_drop, take_take.
  f_equal; lia.
Qed.

(** [append] returns the concatenation, whatever it does to the store. *)
Lemma append_bytes `{Runtime} h s bs :
  wf_slice h s -> sbytes (append_slice h s bs).2 (append_slice h s bs).1 = sbytes h s ++ bs.
Proof.
  intros (a & E & H1 & H2). unfold append_slice.
  case_match eqn:Hn; [apply Nat.leb_le in Hn|apply alloc_bytes].
  unfold sbytes, arr. simpl. rewrite list_lookup_alter_eq, E. simpl. unfold overwrite.
  rewrite drop_app_le by (rewrite length_take; lia).
  rewrite skipn_firstn_comm, app_assoc.
  replace (s_off s + s_len s - s_off s)%nat with (s_len s) by lia.
  rewrite take_app_le by (rewrite length_app, length_take, length_drop; lia).
  apply take_ge. rewrite length_app, length_take, length_drop. lia.
Qed.

(** The bytes [append] may write: the spare capacity of its argument. *)
Definition disjoint_spare (s t : slice) : Prop :=
  s_arr s <> s_arr t \/
  (s_off t + s_len t <= s_off s + s_len s)%nat \/ (s_off s + s_cap s <= s_off t)%nat.

Lemma take_drop_overwrite (a bs : bytes) i o n :
  (i + length bs <= length a)%nat -> (o + n <= i \/ i + length bs <= o)%nat ->
  take n (drop o (overwrite a i bs)) = take n (drop o a).
Proof.
  intros Hi Hd. unfold overwrite. apply list_eq. intros k.
  destruct (decide (k < n)%nat); [|rewrite !lookup_take_ge by lia; done].
  rewrite !lookup_take_lt, !lookup_drop by lia. destruct Hd.
  - rewrite lookup_app_l, lookup_take_lt by (rewrite ?length_take; lia). done.
  - rewrite lookup_app_r, lookup_app_r, lookup_drop by (rewrite ?length_take; lia).
    rewrite length_take. f_equal. lia.
Qed.

(** Contents of slices outside the spare capacity survive an [append]. *)
Lemma append_frame `{Runtime} h s t bs :
  wf_slice h s -> wf_slice h t -> disjoint_spare s t ->
  sbytes (append_slice h s bs).2 t = sbytes h t.
Proof.
  intros (a & E & H1 & H2) (a' & E' & H1' & H2') Hd. unfold append_slice.
  case_match eqn:Hn; [apply Nat.leb_le in Hn|]; unfold sbytes, arr; simpl.
  - destruct (decide (s_arr s = s_arr t)) as [Eq|Ne].
    + rewrite <- Eq, list_lookup_alter_eq, E. simpl.
      assert (a' = a) as -> by congruence.
      apply take_drop_overwrite; [lia|]. destruct Hd as [?|[?|?]]; [done|lia|lia].
    + by rewrite list_lookup_alter_ne by done.
  - rewrite lookup_app_l; [done|]. by eapply lookup_lt_Some.
Qed.
