(* ===== verification/Crypto.v ===== *)
(** * Cryptographic functions the program calls

    SHA-256 and SHA3-256 come from packages outside the repository.  Verification of a
    signature is a parameter here too, because the validator relies on nothing about it;
    [Ed25519] models it, and [Ed25519Theorems] has the instance.  [CryptoLaws] states what
    the program relies on. *)

From Stdlib Require Import ZArith Lia Strings.Byte.
From S2P Require Import Prelude.

(** [sha256.Sum256], [sha3pool.Sum256] and [ed25519.Verify]. *)
Class Crypto := {
  sha256_sum : bytes -> bytes;
  sha3_256_sum : bytes -> bytes;
  ed25519_Verify : bytes -> bytes -> bytes -> bool;
}.

(** A digest has 32 bytes. *)
Class CryptoLaws `{Crypto} : Prop := {
  sha256_len bs : zlen (sha256_sum bs) = 32;
  sha3_256_len bs : zlen (sha3_256_sum bs) = 32;
}.

(** [ed25519.PublicKeySize] *)
Definition PublicKeySize : Z := 32.

(** A stand-in on which examples are computed: a digest is the first 32 bytes of
    its input, padded, and a signature is valid when it is the public key. *)
Definition toy_digest (bs : bytes) : bytes := take 32 (bs ++ replicate 32 x00).

Definition toy_crypto : Crypto := {|
  sha256_sum := toy_digest;
  sha3_256_sum := toy_digest;
  ed25519_Verify p _ s := bool_decide (p = s);
|}.

#[export] Instance toy_crypto_laws : @CryptoLaws toy_crypto.
Proof.
  split; intros bs; simpl; unfold toy_digest, zlen;
    rewrite length_take, length_app, length_replicate; lia.
Qed.

(** Another stand-in, whose digest depends on the whole input: a polynomial in its
    bytes modulo [2 ^ 61], spread over the 32 bytes. *)
Definition poly_digest (bs : bytes) : bytes :=
  be_put 32 (foldl (fun h b => Z.land (h * 1000003 + Z_of_byte b + 7) (2 ^ 61 - 1)) 5 bs * (2 ^ 192 + 2 ^ 70 + 1)).

Definition poly_crypto : Crypto := {|
  sha256_sum := poly_digest;
  sha3_256_sum := poly_digest;
  ed25519_Verify p _ s := bool_decide (p = s);
|}.

Lemma poly_crypto_laws : @CryptoLaws poly_crypto.
Proof. split; intros bs; simpl; unfold poly_digest, zlen; by rewrite length_be_put. Qed.
