(* ===== verification/VMCode.v ===== *)
(** * Instructions and values of the virtual machine

    [protocol/vm/types.go] (booleans and integers as byte strings),
    [protocol/vm/ops.go] (opcodes, [ParseOp], [ParseProgram]) and the encoders
    of [protocol/vm/pushdata.go].

    These functions read byte slices and never write to them, so they work on
    contents. *)

From Stdlib Require Import ZArith Lia.
From S2P Require Import Prelude Checked.

(** ** Errors: [protocol/vm/errors.go]

    [ErrOverflow] is [checked.ErrOverflow]; [ErrFalseVMResult] is declared in
    [vm.go]; [ErrMissingEntry] is the error of package [bc] that an output check
    can return through the machine. *)
Inductive vmerr :=
| ErrAltStackUnderflow | ErrBadValue | ErrContext | ErrDataStackUnderflow
| ErrDisallowedOpcode | ErrDivZero | ErrLongProgram | ErrRange | ErrReturn
| ErrRunLimitExceeded | ErrShortProgram | ErrToken | ErrUnexpected
| ErrUnsupportedTx | ErrUnsupportedVM | ErrVerifyFailed
| ErrFalseVMResult | ErrOverflow | ErrMissingEntry.

#[export] Instance vmerr_eq_dec : EqDecision vmerr.
Proof. solve_decision. Defined.

(** What a call of the machine does: return, return an error, panic, or run
    longer than the fuel of the model allows. *)
Inductive outcome (A : Type) :=
| Ret (a : A)
| Fail (e : vmerr)
| Panic
| OutOfFuel.
Arguments Ret {A} a.
Arguments Fail {A} e.
Arguments Panic {A}.
Arguments OutOfFuel {A}.

(** ** Values: [protocol/vm/types.go] *)

Definition AsBool (bs : bytes) : bool := existsb (fun b => negb (Z_of_byte b =? 0)) bs.

(** The loop of [Int64Bytes]: drop the zero bytes at the end. *)
Fixpoint trim_zeros (bs : bytes) : bytes :=
  match bs with
  | [] => []
  | b :: bs =>
      match trim_zeros bs with
      | [] => if Z_of_byte b =? 0 then [] else [b]
      | bs' => b :: bs'
      end
  end.

(** The contents of the slice [Int64Bytes(n)]. *)
Definition int64_bytes (n : Z) : bytes :=
  if n =? 0 then [] else trim_zeros (le_put 8 (uint64 n)).

Definition AsInt64 (b : bytes) : result vmerr Z :=
  if zlen b =? 0 then Ok 0
  else if 8 <? zlen b then Err ErrBadValue
  else Ok (int64 (le_get (b ++ replicate (8 - length b) Byte.x00))).

(** ** Opcodes: [protocol/vm/ops.go] *)

Definition OP_FALSE : Z := 0x00.
Definition OP_0 : Z := 0x00.
Definition OP_1 : Z := 0x51.
Definition OP_TRUE : Z := 0x51.
Definition OP_2 : Z := 0x52.
Definition OP_3 : Z := 0x53.
Definition OP_4 : Z := 0x54.
Definition OP_5 : Z := 0x55.
Definition OP_6 : Z := 0x56.
Definition OP_7 : Z := 0x57.
Definition OP_8 : Z := 0x58.
Definition OP_9 : Z := 0x59.
Definition OP_10 : Z := 0x5a.
Definition OP_11 : Z := 0x5b.
Definition OP_12 : Z := 0x5c.
Definition OP_13 : Z := 0x5d.
Definition OP_14 : Z := 0x5e.
Definition OP_15 : Z := 0x5f.
Definition OP_16 : Z := 0x60.
Definition OP_PUSHDATA1 : Z := 0x4c.
Definition OP_PUSHDATA2 : Z := 0x4d.
Definition OP_PUSHDATA4 : Z := 0x4e.
Definition OP_1NEGATE : Z := 0x4f.
Definition OP_NOP : Z := 0x61.
Definition OP_JUMP : Z := 0x63.
Definition OP_JUMPIF : Z := 0x64.
Definition OP_VERIFY : Z := 0x69.
Definition OP_FAIL : Z := 0x6a.
Definition OP_CHECKPREDICATE : Z := 0xc0.
Definition OP_TOALTSTACK : Z := 0x6b.
Definition OP_FROMALTSTACK : Z := 0x6c.
Definition OP_2DROP : Z := 0x6d.
Definition OP_2DUP : Z := 0x6e.
Definition OP_3DUP : Z := 0x6f.
Definition OP_2OVER : Z := 0x70.
Definition OP_2ROT : Z := 0x71.
Definition OP_2SWAP : Z := 0x72.
Definition OP_IFDUP : Z := 0x73.
Definition OP_DEPTH : Z := 0x74.
Definition OP_DROP : Z := 0x75.
Definition OP_DUP : Z := 0x76.
Definition OP_NIP : Z := 0x77.
Definition OP_OVER : Z := 0x78.
Definition OP_PICK : Z := 0x79.
Definition OP_ROLL : Z := 0x7a.
Definition OP_ROT : Z := 0x7b.
Definition OP_SWAP : Z := 0x7c.
Definition OP_TUCK : Z := 0x7d.
Definition OP_CAT : Z := 0x7e.
Definition OP_SUBSTR : Z := 0x7f.
Definition OP_LEFT : Z := 0x80.
Definition OP_RIGHT : Z := 0x81.
Definition OP_SIZE : Z := 0x82.
Definition OP_CATPUSHDATA : Z := 0x89.
Definition OP_INVERT : Z := 0x83.
Definition OP_AND : Z := 0x84.
Definition OP_OR : Z := 0x85.
Definition OP_XOR : Z := 0x86.
Definition OP_EQUAL : Z := 0x87.
Definition OP_EQUALVERIFY : Z := 0x88.
Definition OP_1ADD : Z := 0x8b.
Definition OP_1SUB : Z := 0x8c.
Definition OP_2MUL : Z := 0x8d.
Definition OP_2DIV : Z := 0x8e.
Definition OP_NEGATE : Z := 0x8f.
Definition OP_ABS : Z := 0x90.
Definition OP_NOT : Z := 0x91.
Definition OP_0NOTEQUAL : Z := 0x92.
Definition OP_ADD : Z := 0x93.
Definition OP_SUB : Z := 0x94.
Definition OP_MUL : Z := 0x95.
Definition OP_DIV : Z := 0x96.
Definition OP_MOD : Z := 0x97.
Definition OP_LSHIFT : Z := 0x98.
Definition OP_RSHIFT : Z := 0x99.
Definition OP_BOOLAND : Z := 0x9a.
Definition OP_BOOLOR : Z := 0x9b.
Definition OP_NUMEQUAL : Z := 0x9c.
Definition OP_NUMEQUALVERIFY : Z := 0x9d.
Definition OP_NUMNOTEQUAL : Z := 0x9e.
Definition OP_LESSTHAN : Z := 0x9f.
Definition OP_GREATERTHAN : Z := 0xa0.
Definition OP_LESSTHANOREQUAL : Z := 0xa1.
Definition OP_GREATERTHANOREQUAL : Z := 0xa2.
Definition OP_MIN : Z := 0xa3.
Definition OP_MAX : Z := 0xa4.
Definition OP_WITHIN : Z := 0xa5.
Definition OP_SHA256 : Z := 0xa8.
Definition OP_SHA3 : Z := 0xaa.
Definition OP_CHECKSIG : Z := 0xac.
Definition OP_CHECKMULTISIG : Z := 0xad.
Definition OP_TXSIGHASH : Z := 0xae.
Definition OP_BLOCKHASH : Z := 0xaf.
Definition OP_CHECKOUTPUT : Z := 0xc1.
Definition OP_ASSET : Z := 0xc2.
Definition OP_AMOUNT : Z := 0xc3.
Definition OP_PROGRAM : Z := 0xc4.
Definition OP_MINTIME : Z := 0xc5.
Definition OP_MAXTIME : Z := 0xc6.
Definition OP_TXDATA : Z := 0xc7.
Definition OP_ENTRYDATA : Z := 0xc8.
Definition OP_INDEX : Z := 0xc9.
Definition OP_ENTRYID : Z := 0xca.
Definition OP_OUTPUTID : Z := 0xcb.
Definition OP_NONCE : Z := 0xcc.
Definition OP_NEXTPROGRAM : Z := 0xcd.
Definition OP_BLOCKTIME : Z := 0xce.
(** [OP_DATA_1] to [OP_DATA_75] are the opcodes 1 to 75. *)
Definition OP_DATA (n : Z) : Z := n.

Record Instruction := mkInst { Op : Z; Len : Z; Data : bytes }.

(** The byte at index [i], which the caller has checked to be in range. *)
Definition at_ (prog : bytes) (i : Z) : Z := Z_of_byte (nth (Z.to_nat i) prog Byte.x00).

(** [ParseOp(prog, pc)].  A program longer than [MaxInt32] makes it return
    [ErrLongProgram] unless a later test replaces the error; [fin] is the final
    [return] with whatever error was set so far.

    In the [PUSHDATA1] case the source does not return after the overflow of
    [pc + len]: it goes on to slice [prog[pc+2:0]], which panics. *)
Definition ParseOp (prog : bytes) (pc : Z) : outcome Instruction :=
  let fin i := if MaxInt32 <? zlen prog then Fail ErrLongProgram else Ret i in
  let l := uint32 (zlen prog) in
  if l <=? pc then Fail ErrShortProgram
  else
    let opcode := at_ prog pc in
    if (OP_1 <=? opcode) && (opcode <=? OP_16) then
      fin (mkInst opcode 1 [byte_of_Z (opcode - OP_1 + 1)])
    else if (OP_DATA 1 <=? opcode) && (opcode <=? OP_DATA 75) then
      let len := uint32 (1 + (opcode - OP_DATA 1 + 1)) in
      match AddUint32 pc len with
      | (_, false) => Fail ErrOverflow
      | (end_, true) =>
          if l <? end_ then Fail ErrShortProgram
          else fin (mkInst opcode len (subslice (pc + 1) end_ prog))
      end
    else if opcode =? OP_PUSHDATA1 then
      if pc =? l - 1 then Fail ErrShortProgram
      else
        let n := at_ prog (pc + 1) in
        let len := uint32 (1 + (n + 1)) in
        match AddUint32 pc len with
        | (_, false) => Panic
        | (end_, true) =>
            if l <? end_ then Fail ErrShortProgram
            else fin (mkInst opcode len (subslice (pc + 2) end_ prog))
        end
    else if opcode =? OP_PUSHDATA2 then
      if (zlen prog <? 3) || (uint32 (l - 3) <? pc) then Fail ErrShortProgram
      else
        let n := le_get (subslice (pc + 1) (pc + 3) prog) in
        let len := uint32 (1 + (n + 2)) in
        match AddUint32 pc len with
        | (_, false) => Fail ErrOverflow
        | (end_, true) =>
            if l <? end_ then Fail ErrShortProgram
            else fin (mkInst opcode len (subslice (pc + 3) end_ prog))
        end
    else if opcode =? OP_PUSHDATA4 then
      if (zlen prog <? 5) || (uint32 (l - 5) <? pc) then Fail ErrShortProgram
      else
        let n := le_get (subslice (pc + 1) (pc + 5) prog) in
        match AddUint32 5 n with
        | (_, false) => Fail ErrOverflow
        | (len, true) =>
            match AddUint32 pc len with
            | (_, false) => Fail ErrOverflow
            | (end_, true) =>
                if l <? end_ then Fail ErrShortProgram
                else fin (mkInst opcode len (subslice (pc + 5) end_ prog))
            end
        end
    else if (opcode =? OP_JUMP) || (opcode =? OP_JUMPIF) then
      let len := 5 in
      match AddUint32 pc len with
      | (_, false) => Fail ErrOverflow
      | (end_, true) =>
          if l <? end_ then Fail ErrShortProgram
          else fin (mkInst opcode len (subslice (pc + 1) end_ prog))
      end
    else fin (mkInst opcode 1 []).

(** The loop of [ParseProgram] from position [pc]. *)
Fixpoint parse_loop (fuel : nat) (prog : bytes) (pc : Z) : outcome (list Instruction) :=
  match fuel with
  | O => OutOfFuel
  | S fuel =>
      if pc <? uint32 (zlen prog) then
        match ParseOp prog pc with
        | Ret inst =>
            match AddUint32 pc (Len inst) with
            | (pc', true) =>
                match parse_loop fuel prog pc' with
                | Ret rest => Ret (inst :: rest)
                | o => o
                end
            | (_, false) => Fail ErrOverflow
            end
        | Fail e => Fail e
        | Panic => Panic
        | OutOfFuel => OutOfFuel
        end
      else Ret []
  end.

(** Every instruction is at least one byte long, so the loop runs at most once
    per byte of the program. *)
Definition ParseProgram (prog : bytes) : outcome (list Instruction) :=
  parse_loop (S (length prog)) prog 0.

(** ** Encoders: [protocol/vm/pushdata.go] *)

Definition PushdataBytes (inp : bytes) : bytes :=
  let l := zlen inp in
  if l =? 0 then [byte_of_Z OP_0]
  else if l <=? 75 then byte_of_Z (OP_DATA 1 + l - 1) :: inp
  else if l <? 256 then byte_of_Z OP_PUSHDATA1 :: byte_of_Z l :: inp
  else if l <? 65536 then byte_of_Z OP_PUSHDATA2 :: le_put 2 l ++ inp
  else byte_of_Z OP_PUSHDATA4 :: le_put 4 l ++ inp.

Definition PushdataInt64 (n : Z) : bytes :=
  if n =? 0 then [byte_of_Z OP_0]
  else if (1 <=? n) && (n <=? 16) then [byte_of_Z (OP_1 + n - 1)]
  else PushdataBytes (int64_bytes n).

(** ** Lemmas on values *)

Lemma trim_zeros_spec bs : exists k, bs = trim_zeros bs ++ replicate k Byte.x00.
Proof.
  induction bs as [|b bs [k IH]]; simpl; [by exists 0%nat|].
  destruct (trim_zeros bs) as [|t ts].
  - destruct (Z.eqb_spec (Z_of_byte b) 0) as [E|].
    + exists (S k). simpl. rewrite IH at 1. f_equal.
      apply (inj Z_of_byte). by rewrite E.
    + exists k. by rewrite IH at 1.
  - exists k. by rewrite IH at 1.
Qed.

Lemma length_trim_zeros bs : (length (trim_zeros bs) <= length bs)%nat.
Proof. destruct (trim_zeros_spec bs) as [k E]. rewrite E at 2. rewrite length_app. lia. Qed.

Lemma zlen_int64_bytes n : 0 <= zlen (int64_bytes n) <= 8.
Proof.
  unfold zlen, int64_bytes. case_match; [simpl; lia|].
  pose proof (length_trim_zeros (le_put 8 (uint64 n))). rewrite length_le_put in *. lia.
Qed.

Lemma AsInt64_range b n : AsInt64 b = Ok n -> in_int64 n = true.
Proof.
  unfold AsInt64. repeat case_match; intros [= <-]; [done|].
  pose proof (int64_range (le_get (b ++ replicate (8 - length b) Byte.x00))).
  unfold_int. lia.
Qed.

Lemma AsInt64_int64_bytes n : in_int64 n = true -> AsInt64 (int64_bytes n) = Ok n.
Proof.
  intros Hn. unfold AsInt64. pose proof (zlen_int64_bytes n) as Hl.
  unfold int64_bytes in *. destruct (Z.eqb_spec n 0) as [->|Hz]; [done|].
  set (bs := le_put 8 (uint64 n)) in *.
  assert (length bs = 8%nat) as Lb by apply length_le_put.
  assert (le_get bs = uint64 n) as Eb.
  { unfold bs. rewrite le_get_put. change (256 ^ Z.of_nat 8) with 18446744073709551616.
    apply Z.mod_small. pose proof (uint64_range n). unfold_int. lia. }
  assert (Hu : int64 (uint64 n) = n)
    by (rewrite int64_uint64; apply int64_id; unfold_int; lia).
  destruct (trim_zeros_spec bs) as [k E]. pose proof (f_equal length E) as L.
  rewrite length_app, length_replicate, Lb in L.
  destruct (Z.eqb_spec (zlen (trim_zeros bs)) 0) as [E0|].
  - exfalso. apply Hz. rewrite <- Hu, <- Eb, E.
    destruct (trim_zeros bs); [|unfold zlen in E0; simpl in E0; lia].
    cbn [app]. by rewrite le_get_zeros.
  - destruct (Z.ltb_spec 8 (zlen (trim_zeros bs))); [lia|].
    replace (8 - length (trim_zeros bs))%nat with k by lia. rewrite <- E, Eb. by rewrite Hu.
Qed.

Lemma AsBool_int64_bytes n : in_int64 n = true -> AsBool (int64_bytes n) = negb (n =? 0).
Proof.
  intros Hn. pose proof (AsInt64_int64_bytes n Hn) as Ha. unfold int64_bytes in *.
  destruct (Z.eqb_spec n 0) as [|Hz]; [done|]. cbn [negb].
  destruct (AsBool _) eqn:E; [done|]. exfalso. apply Hz.
  set (bs := trim_zeros _) in *.
  assert (le_get (bs ++ replicate (8 - length bs) Byte.x00) = 0) as E0.
  { rewrite le_get_app, le_get_zeros, Z.mul_0_r, Z.add_0_r. clearbody bs. clear - E.
    induction bs as [|b bs IH]; [done|]. simpl in E. apply orb_false_iff in E as [E1 E2].
    apply negb_false_iff, Z.eqb_eq in E1. cbn [le_get]. rewrite E1, IH by done. lia. }
  unfold AsInt64 in Ha. rewrite E0 in Ha. repeat case_match; by inversion Ha.
Qed.

(** ** Lemmas on parsing *)

Lemma at_app pre b suf pc :
  pc = zlen pre -> at_ (pre ++ b :: suf) pc = Z_of_byte b.
Proof.
  intros ->. unfold at_, zlen. rewrite Nat2Z.id, app_nth2, Nat.sub_diag by lia. done.
Qed.

Lemma AddUint32_ok a b :
  0 <= a -> 0 <= b -> a + b <= MaxUint32 -> AddUint32 a b = (a + b, true).
Proof.
  intros. rewrite (add_exact (CheckedInt := checked_uint32)) by (unfold_int; lia).
  unfold exact. replace (in_uint32 (a + b)) with true; [done|]. unfold_int. lia.
Qed.

Lemma AddUint32_inv a b c :
  0 <= a <= MaxUint32 -> 0 <= b <= MaxUint32 -> AddUint32 a b = (c, true) ->
  c = a + b /\ a + b <= MaxUint32.
Proof.
  intros Ha Hb. rewrite (add_exact (CheckedInt := checked_uint32)) by (unfold_int; lia).
  intros [-> H]%exact_ok. unfold_int. lia.
Qed.

Lemma at_range prog i : 0 <= at_ prog i < 256.
Proof. apply Z_of_byte_range. Qed.

Lemma le_get_sub_bound prog lo hi (n : nat) :
  hi - lo = Z.of_nat n -> 0 <= le_get (subslice lo hi prog) < 256 ^ Z.of_nat n.
Proof.
  intros E. pose proof (le_get_bound (subslice lo hi prog)) as H.
  assert (Z.of_nat (length (subslice lo hi prog)) <= Z.of_nat n) as L
    by (unfold subslice; rewrite length_take; lia).
  pose proof (Z.pow_le_mono_r 256 _ _ ltac:(lia) L). lia.
Qed.

Lemma zlen_subslice_le {A} (l : list A) lo hi : zlen (subslice lo hi l) <= Z.max 0 (hi - lo).
Proof. unfold zlen, subslice. rewrite length_take. lia. Qed.

(** What the caller of a successful [ParseOp] knows. *)
Lemma ParseOp_inv prog pc inst :
  0 <= pc -> ParseOp prog pc = Ret inst ->
  zlen prog <= MaxInt32 /\ Op inst = at_ prog pc /\
  1 <= Len inst /\ pc + Len inst <= zlen prog /\
  (Op inst = OP_JUMP \/ Op inst = OP_JUMPIF -> length (Data inst) = 4%nat).
Proof.
  intros Hpc. unfold ParseOp. pose proof (zlen_nonneg prog).
  pose proof (at_range prog pc) as Hat. pose proof (at_range prog (pc + 1)).
  pose proof (le_get_sub_bound prog (pc + 1) (pc + 3) 2 ltac:(lia)) as H2.
  pose proof (le_get_sub_bound prog (pc + 1) (pc + 5) 4 ltac:(lia)) as H4.
  change (256 ^ Z.of_nat 2) with 65536 in H2. change (256 ^ Z.of_nat 4) with 4294967296 in H4.
  destruct (Z.ltb_spec MaxInt32 (zlen prog)) as [Hlong|Hlong].
  { repeat case_match; discriminate. }
  rewrite (uint32_id (zlen prog)) by (unfold_int; lia).
  destruct (Z.leb_spec (zlen prog) pc) as [|Hlt]; [discriminate|].
  unfold OP_DATA, OP_1, OP_16, OP_PUSHDATA1, OP_PUSHDATA2, OP_PUSHDATA4, OP_JUMP, OP_JUMPIF.
  rewrite !(uint32_id (1 + _)) by (unfold_int; lia).
  repeat (case_match; try discriminate);
    repeat match goal with
    | H : AddUint32 _ _ = (_, true) |- _ => apply AddUint32_inv in H as [-> ?]; [|unfold_int; lia..]
    end;
    intros [= <-]; cbn [Op Len Data]; repeat split; try done; try lia.
  intros _. apply Nat2Z.inj. change (zlen (subslice (pc + 1) (pc + 5) prog) = 4).
  rewrite zlen_subslice; lia.
Qed.

(** [ParseOp] can only panic on programs that are too long to be valid. *)
Lemma ParseOp_no_panic prog pc : 0 <= pc -> zlen prog <= MaxInt32 ->
  ParseOp prog pc <> Panic /\ ParseOp prog pc <> OutOfFuel.
Proof.
  intros Hpc Hl. unfold ParseOp. pose proof (zlen_nonneg prog).
  destruct (Z.ltb_spec MaxInt32 (zlen prog)); [lia|].
  rewrite (uint32_id (zlen prog)) by (unfold_int; lia).
  destruct (Z.leb_spec (zlen prog) pc) as [|Hlt]; [done|].
  pose proof (at_range prog (pc + 1)).
  rewrite (AddUint32_ok pc (uint32 (1 + (at_ prog (pc + 1) + 1))))
    by (rewrite ?uint32_id by (unfold_int; lia); unfold_int; lia).
  repeat case_match; done.
Qed.

(** The loop of [ParseProgram] never needs more iterations than bytes are left. *)
Lemma parse_loop_total fuel prog pc :
  zlen prog <= MaxInt32 -> 0 <= pc -> (zlen prog - pc < Z.of_nat fuel) ->
  0 < Z.of_nat fuel ->
  (exists insts, parse_loop fuel prog pc = Ret insts /\
     (pc <= zlen prog -> foldr (fun i n => Len i + n) pc insts = zlen prog))
  \/ exists e, parse_loop fuel prog pc = Fail e.
Proof.
  intros Hl. revert pc. induction fuel as [|fuel IH]; [lia|]. intros pc Hpc Hf _.
  cbn [parse_loop]. pose proof (zlen_nonneg prog).
  rewrite (uint32_id (zlen prog)) by (unfold_int; lia).
  destruct (Z.ltb_spec pc (zlen prog)); [|left; exists []; simpl; split; [done|lia]].
  destruct (ParseOp prog pc) as [inst|e| |] eqn:E;
    [|by right; eauto|by apply ParseOp_no_panic in E..].
  apply ParseOp_inv in E as (_ & _ & H1 & H2 & _); [|lia].
  rewrite AddUint32_ok by (unfold_int; lia).
  destruct (IH (pc + Len inst)) as [(insts & -> & Hsum)|[e ->]]; [lia..| |by right; eauto].
  left. eexists; split; [done|]. intros _. specialize (Hsum ltac:(lia)).
  enough (G : forall k l, foldr (fun i n => Len i + n) (pc + k) l
              = k + foldr (fun i n => Len i + n) pc l)
    by (cbn [foldr]; rewrite <- Hsum, G; lia).
  intros k l. induction l as [|i l IHl]; cbn [foldr]; [lia|]. rewrite IHl. lia.
Qed.

(** ** Encoding and parsing

    [encodes code inst]: wherever [code] stands in a program of valid length,
    [ParseOp] reads the instruction [inst] there. *)
Definition encodes (code : bytes) (inst : Instruction) : Prop :=
  Len inst = zlen code /\ 1 <= Len inst /\
  forall pre suf, zlen (pre ++ code ++ suf) <= MaxInt32 ->
    ParseOp (pre ++ code ++ suf) (zlen pre) = Ret inst.

(** Common start of the proofs about [ParseOp] on an encoded instruction: the
    program is valid and the opcode is the first byte of the encoding. *)
Lemma ParseOp_head pre b rest suf :
  zlen (pre ++ (b :: rest) ++ suf) <= MaxInt32 ->
  let prog := pre ++ (b :: rest) ++ suf in
  (MaxInt32 <? zlen prog) = false /\ uint32 (zlen prog) = zlen prog /\
  (zlen prog <=? zlen pre) = false /\ at_ prog (zlen pre) = Z_of_byte b /\
  zlen prog = zlen pre + 1 + zlen rest + zlen suf.
Proof.
  intros H prog. unfold prog. rewrite <- app_comm_cons, at_app by done.
  autorewrite with zlen in *. pose proof (zlen_nonneg pre). pose proof (zlen_nonneg rest).
  pose proof (zlen_nonneg suf).
  repeat split; try lia; rewrite uint32_id; unfold_int; lia.
Qed.

(** The operand of an encoded instruction follows its [k] header bytes. *)
Lemma subslice_operand pre (hd inp suf : bytes) lo hi :
  lo = zlen pre + zlen hd -> hi = zlen pre + zlen hd + zlen inp ->
  subslice lo hi (pre ++ (hd ++ inp) ++ suf) = inp.
Proof.
  intros -> ->. rewrite <- app_assoc, app_assoc. apply subslice_app; rewrite zlen_app; lia.
Qed.

(** Start on a goal [ParseOp (pre ++ (b :: rest) ++ suf) (zlen pre) = _]. *)
Ltac parse_head pre suf Hl :=
  let A := fresh "A" in let B := fresh "B" in let C := fresh "C" in
  let D := fresh "D" in let L := fresh "L" in
  destruct (ParseOp_head _ _ _ _ Hl) as (A & B & C & D & L);
  pose proof (zlen_nonneg pre); pose proof (zlen_nonneg suf);
  unfold ParseOp; rewrite A, B, C, D, ?L; rewrite L in Hl;
  unfold MaxInt32 in Hl; clear A B C D; unfold OP_DATA, OP_1, OP_16,
    OP_PUSHDATA1, OP_PUSHDATA2, OP_PUSHDATA4, OP_JUMP, OP_JUMPIF;
  rewrite ?Z_of_byte_small by lia.

(** Decide a comparison of the goal. *)
Ltac decide_to b :=
  match goal with
  | |- context [?x <? ?y] => replace (x <? y) with b by lia
  | |- context [?x <=? ?y] => replace (x <=? y) with b by lia
  end.

Lemma encodes_plain op :
  0 <= op < 256 -> ~ 1 <= op <= 78 -> ~ 81 <= op <= 96 -> op <> OP_JUMP -> op <> OP_JUMPIF ->
  encodes [byte_of_Z op] (mkInst op 1 []).
Proof.
  intros H1 H2 H3 H4 H5. split; [done|]. split; [done|]. intros pre suf Hl. parse_head pre suf Hl.
  unfold OP_JUMP, OP_JUMPIF in *.
  repeat match goal with |- context [if ?c then _ else _] => replace c with false by lia end.
  done.
Qed.

Lemma encodes_0 : encodes [byte_of_Z OP_0] (mkInst OP_0 1 []).
Proof. apply encodes_plain; unfold OP_0, OP_JUMP, OP_JUMPIF; lia. Qed.

Lemma encodes_small n :
  1 <= n <= 16 -> encodes [byte_of_Z (OP_1 + n - 1)] (mkInst (OP_1 + n - 1) 1 [byte_of_Z n]).
Proof.
  intros Hn. split; [done|]. split; [done|]. intros pre suf Hl. parse_head pre suf Hl.
  replace (_ && _) with true by (unfold OP_1; lia).
  by replace (81 + n - 1 - 81 + 1) with n by lia.
Qed.

Lemma encodes_data inp :
  1 <= zlen inp <= 75 ->
  encodes (byte_of_Z (zlen inp) :: inp) (mkInst (zlen inp) (1 + zlen inp) inp).
Proof.
  intros Hn. split; [by rewrite zlen_cons|]. split; [cbn; lia|].
  intros pre suf Hl. parse_head pre suf Hl.
  replace (_ && _) with false by lia. replace (_ && _) with true by lia.
  rewrite uint32_id, AddUint32_ok by (unfold_int; lia). decide_to false.
  f_equal. f_equal; [lia|]. apply (subslice_operand pre [_]); autorewrite with zlen; lia.
Qed.

Lemma encodes_pushdata1 inp :
  1 <= zlen inp < 256 ->
  encodes (byte_of_Z OP_PUSHDATA1 :: byte_of_Z (zlen inp) :: inp)
          (mkInst OP_PUSHDATA1 (2 + zlen inp) inp).
Proof.
  intros Hn. split; [rewrite !zlen_cons; cbn; lia|]. split; [cbn; lia|].
  intros pre suf Hl. parse_head pre suf Hl. rewrite zlen_cons in *.
  cbn [Z.eqb Z.leb Z.compare andb Pos.compare Pos.compare_cont Pos.eqb].
  replace (_ =? _) with false by lia.
  replace (at_ _ (zlen pre + 1)) with (zlen inp).
  2:{ change (byte_of_Z 76 :: byte_of_Z (zlen inp) :: inp)
        with ([byte_of_Z 76] ++ byte_of_Z (zlen inp) :: inp).
      rewrite <- app_assoc, app_assoc, <- app_comm_cons, at_app by (rewrite zlen_app; done).
      rewrite Z_of_byte_small; lia. }
  rewrite uint32_id, AddUint32_ok by (unfold_int; lia). decide_to false.
  f_equal. f_equal; [lia|]. apply (subslice_operand pre [_; _]); autorewrite with zlen; lia.
Qed.

(** The little-endian count of [PUSHDATA2] and [PUSHDATA4]. *)
Lemma count_operand pre op (n : nat) inp suf :
  zlen inp < 256 ^ Z.of_nat n ->
  le_get (subslice (zlen pre + 1) (zlen pre + 1 + Z.of_nat n)
            (pre ++ (op :: le_put n (zlen inp) ++ inp) ++ suf)) = zlen inp.
Proof.
  intros Hn. change (op :: le_put n (zlen inp) ++ inp) with ([op] ++ le_put n (zlen inp) ++ inp).
  rewrite <- !app_assoc, app_assoc, subslice_app.
  - rewrite le_get_put. apply Z.mod_small. pose proof (zlen_nonneg inp). lia.
  - by rewrite zlen_app.
  - rewrite zlen_app. unfold zlen at 4. rewrite length_le_put. done.
Qed.

Lemma encodes_pushdata2 inp :
  1 <= zlen inp < 65536 ->
  encodes (byte_of_Z OP_PUSHDATA2 :: le_put 2 (zlen inp) ++ inp)
          (mkInst OP_PUSHDATA2 (3 + zlen inp) inp).
Proof.
  intros Hn. assert (zlen (le_put 2 (zlen inp)) = 2) as L2 by done.
  split; [rewrite zlen_cons, zlen_app, L2; cbn; lia|]. split; [cbn; lia|].
  intros pre suf Hl. parse_head pre suf Hl. rewrite zlen_app, L2 in *.
  cbn [Z.eqb Z.leb Z.compare andb Pos.compare Pos.compare_cont Pos.eqb].
  rewrite (uint32_id (_ - 3)) by (unfold_int; lia). replace (_ || _) with false by lia.
  pose proof (count_operand pre (byte_of_Z 77) 2 inp suf ltac:(cbn; lia)) as Hc.
  replace (zlen pre + 1 + Z.of_nat 2) with (zlen pre + 3) in Hc by lia. rewrite Hc.
  rewrite uint32_id, AddUint32_ok by (unfold_int; lia). decide_to false.
  f_equal. f_equal; [lia|].
  apply (subslice_operand pre (_ :: le_put 2 _)); rewrite zlen_cons, L2; lia.
Qed.

Lemma encodes_pushdata4 inp :
  1 <= zlen inp <= MaxInt32 ->
  encodes (byte_of_Z OP_PUSHDATA4 :: le_put 4 (zlen inp) ++ inp)
          (mkInst OP_PUSHDATA4 (5 + zlen inp) inp).
Proof.
  unfold_int. intros Hn. assert (zlen (le_put 4 (zlen inp)) = 4) as L4 by done.
  split; [rewrite zlen_cons, zlen_app, L4; cbn; lia|]. split; [cbn; lia|].
  intros pre suf Hl. parse_head pre suf Hl. rewrite zlen_app, L4 in *.
  cbn [Z.eqb Z.leb Z.compare andb Pos.compare Pos.compare_cont Pos.eqb].
  rewrite (uint32_id (_ - 5)) by (unfold_int; lia). replace (_ || _) with false by lia.
  pose proof (count_operand pre (byte_of_Z 78) 4 inp suf ltac:(cbn; lia)) as Hc.
  replace (zlen pre + 1 + Z.of_nat 4) with (zlen pre + 5) in Hc by lia. rewrite Hc.
  rewrite !AddUint32_ok by (unfold_int; lia). decide_to false.
  f_equal. f_equal. apply (subslice_operand pre (_ :: le_put 4 _)); rewrite zlen_cons, L4; lia.
Qed.

(** Whatever the length of the data, the encoder emits one instruction that
    carries it. *)
Lemma PushdataBytes_encodes inp :
  zlen inp <= MaxInt32 ->
  exists op, encodes (PushdataBytes inp) (mkInst op (zlen (PushdataBytes inp)) inp).
Proof.
  intros Hin. unfold PushdataBytes, OP_DATA. pose proof (zlen_nonneg inp) as Hn.
  destruct (Z.eqb_spec (zlen inp) 0) as [E|].
  { destruct inp; [|rewrite zlen_cons in E; pose proof (zlen_nonneg inp); lia].
    exists OP_0. apply encodes_0. }
  replace (1 + zlen inp - 1) with (zlen inp) by lia.
  assert (H : forall code op len, encodes code (mkInst op len inp) ->
            exists op, encodes code (mkInst op (zlen code) inp))
    by (intros code op len Hc; exists op; pose proof Hc as [<- _]; done).
  repeat case_match; zbool; eapply H;
    [apply encodes_data|apply encodes_pushdata1|apply encodes_pushdata2|apply encodes_pushdata4];
    lia.
Qed.

Lemma PushdataInt64_encodes n :
  in_int64 n = true ->
  exists op data, encodes (PushdataInt64 n) (mkInst op (zlen (PushdataInt64 n)) data) /\
    AsInt64 data = Ok n.
Proof.
  intros Hn. unfold PushdataInt64.
  destruct (Z.eqb_spec n 0) as [->|].
  { exists OP_0, []. split; [apply encodes_0|done]. }
  destruct ((1 <=? n) && (n <=? 16)) eqn:E.
  - exists (OP_1 + n - 1), [byte_of_Z n]. split; [apply encodes_small; lia|].
    unfold AsInt64. change (zlen [byte_of_Z n]) with 1. cbn [Z.eqb Z.ltb Z.compare].
    rewrite le_get_app, le_get_zeros. cbn [le_get length Pos.compare Pos.compare_cont].
    rewrite Z_of_byte_small by lia. f_equal. rewrite int64_id; unfold_int; lia.
  - pose proof (zlen_int64_bytes n).
    destruct (PushdataBytes_encodes (int64_bytes n)) as [op Hop]; [unfold_int; lia|].
    exists op, (int64_bytes n). split; [done|]. by apply AsInt64_int64_bytes.
Qed.

(** A program assembled from encoded instructions parses back to them. *)
Lemma parse_loop_encoded fuel pre codes insts :
  Forall2 encodes codes insts -> zlen (pre ++ concat codes) <= MaxInt32 ->
  (length codes < fuel)%nat ->
  parse_loop fuel (pre ++ concat codes) (zlen pre) = Ret insts.
Proof.
  intros HF. revert fuel pre. induction HF as [|code inst codes insts Hc HF IH];
    intros fuel pre Hl Hf; (destruct fuel as [|fuel]; [simpl in Hf; lia|]).
  - cbn [parse_loop concat] in *. rewrite app_nil_r in *.
    rewrite uint32_id by (pose proof (zlen_nonneg pre); unfold_int; lia).
    by rewrite Z.ltb_irrefl.
  - cbn [concat parse_loop length] in *. destruct Hc as (HL & H1 & Hp).
    pose proof (zlen_nonneg pre). pose proof (zlen_nonneg (concat codes)).
    rewrite !zlen_app in Hl.
    rewrite uint32_id by (unfold_int; rewrite !zlen_app; lia).
    replace (_ <? _) with true by (rewrite !zlen_app; lia).
    rewrite Hp by (rewrite !zlen_app; lia). rewrite AddUint32_ok by (unfold_int; lia).
    rewrite HL, <- zlen_app, app_assoc, IH; [done|rewrite !zlen_app; lia|lia].
Qed.

Lemma encodes_codes_length codes insts :
  Forall2 encodes codes insts -> (length codes <= length (concat codes))%nat.
Proof.
  induction 1 as [|code inst codes insts (HL & H1 & _) _ IH]; cbn [concat length]; [lia|].
  rewrite length_app. unfold zlen in HL. lia.
Qed.

Lemma ParseProgram_encoded codes insts :
  Forall2 encodes codes insts -> zlen (concat codes) <= MaxInt32 ->
  ParseProgram (concat codes) = Ret insts.
Proof.
  intros HF Hl. apply (parse_loop_encoded _ [] codes insts HF Hl).
  pose proof (encodes_codes_length _ _ HF). lia.
Qed.

(** ** Programs *)

(** [ParseProgram] ends on every program of at most [MaxInt32] bytes, without a
    panic: it returns an error, or instructions whose lengths add up to the length of
    the program, so that every byte belongs to one instruction. *)
Lemma ParseProgram_total prog :
  zlen prog <= MaxInt32 ->
  (exists insts, ParseProgram prog = Ret insts /\ foldr (fun i n => Len i + n) 0 insts = zlen prog)
  \/ exists e, ParseProgram prog = Fail e.
Proof.
  intros Hl. pose proof (zlen_nonneg prog). unfold ParseProgram.
  destruct (parse_loop_total (S (length prog)) prog 0) as [(insts & E & Hs)|He]; [unfold zlen in *; lia..| |by right].
  left. eauto.
Qed.

Lemma ParseProgram_total_witness :
  zlen [Byte.x51; Byte.x02; Byte.x07; Byte.x08; Byte.x93] <= MaxInt32 /\
  ((exists insts, ParseProgram [Byte.x51; Byte.x02; Byte.x07; Byte.x08; Byte.x93] = Ret insts /\
      foldr (fun i n => Len i + n) 0 insts = zlen [Byte.x51; Byte.x02; Byte.x07; Byte.x08; Byte.x93])
   \/ exists e, ParseProgram [Byte.x51; Byte.x02; Byte.x07; Byte.x08; Byte.x93] = Fail e).
Proof. split; [vm_compute; discriminate|]. apply (ParseProgram_total [Byte.x51; Byte.x02; Byte.x07; Byte.x08; Byte.x93]). vm_compute. discriminate. Defined.

(** An operand of a program under construction: a string or a number. *)
Inductive operand := Str (bs : bytes) | Num (n : Z).

Definition push_operand (o : operand) : bytes :=
  match o with Str bs => PushdataBytes bs | Num n => PushdataInt64 n end.

Definition operand_ok (o : operand) : Prop :=
  match o with Str bs => zlen bs <= MaxInt32 | Num n => in_int64 n = true end.

(** The data of an instruction is the operand. *)
Definition carries (i : Instruction) (o : operand) : Prop :=
  match o with Str bs => Data i = bs | Num n => AsInt64 (Data i) = Ok n end.

Lemma push_operands_encode l :
  Forall operand_ok l -> exists insts, Forall2 encodes (map push_operand l) insts /\ Forall2 carries insts l.
Proof.
  induction 1 as [|o l Ho HF (insts & He & Hc)]; [by exists []|].
  assert (exists i, encodes (push_operand o) i /\ carries i o) as (i & Hi & Hci).
  { destruct o as [bs|n]; simpl in *.
    - destruct (PushdataBytes_encodes bs Ho) as [op Hop]. eexists. by split.
    - destruct (PushdataInt64_encodes n Ho) as (op & data & Hop & Hd). eexists. by split. }
  exists (i :: insts). split; by constructor.
Qed.

(** what [PushdataBytes] and [PushdataInt64] encode, [ParseProgram] reads back:
    a sequence of pushes of strings and numbers parses to one instruction each, whose
    data is the string, or the encoding of the number. *)
Lemma pushdata_roundtrip l :
  Forall operand_ok l -> zlen (concat (map push_operand l)) <= MaxInt32 ->
  exists insts, ParseProgram (concat (map push_operand l)) = Ret insts /\ Forall2 carries insts l.
Proof.
  intros HF Hl. destruct (push_operands_encode l HF) as (insts & He & Hc).
  exists insts. split; [by apply ParseProgram_encoded|done].
Qed.

Lemma pushdata_roundtrip_witness :
  exists insts,
    ParseProgram (concat (map push_operand [Num (-1); Str (replicate 80 Byte.x07); Num 16; Str []])) = Ret insts /\
    Forall2 carries insts [Num (-1); Str (replicate 80 Byte.x07); Num 16; Str []].
Proof.
  apply (pushdata_roundtrip [Num (-1); Str (replicate 80 Byte.x07); Num 16; Str []]);
    [repeat constructor; vm_compute; discriminate|vm_compute; discriminate].
Defined.
