(* ===== verification/VM.v ===== *)
(** * The virtual machine: state and opcodes

    [protocol/vm/vm.go] (state, stacks, cost accounting) and the opcode files
    [pushdata.go], [control.go], [stack.go], [splice.go], [bitwise.go],
    [numeric.go], [crypto.go] and [introspection.go].

    A method of the Go machine is a state transformer that can return, return an
    error, or panic; on an error the state at the point of the error is kept,
    because [CHECKPREDICATE] reads the run limit and the stacks of a child
    machine that failed.

    Stacks are lists with the top of the stack first: the Go expression
    [stack[len(stack)-1-i]] is [stack !! i], [stack[:len(stack)-n]] is [drop n]
    and [stack[len(stack)-n:]] is [take n]. *)

From Stdlib Require Import ZArith Lia.
From S2P Require Import Prelude Checked GoSlice Crypto VMCode.

(** ** Execution context: [context.go]

    A nil pointer is [None].  [TxSigHash] is a function in the source; the
    closure that builds it caches its result, so every call returns the same
    slice.  [CheckOutput] reads the byte strings it is given, and those of the
    transaction, in the store; it can panic ([None]). *)
Record Context := mkContext {
  VMVersion : Z;
  Code : slice;
  Arguments : list slice;
  EntryID : slice;
  TxVersion : option Z;
  BlockHash : option slice;
  BlockTimeMS : option Z;
  NextConsensusProgram : option slice;
  NumResults : option Z;
  AssetID : option slice;
  Amount : option Z;
  MinTimeMS : option Z;
  MaxTimeMS : option Z;
  EntryData : option slice;
  TxData : option slice;
  DestPos : option Z;
  AnchorID : option slice;
  SpentOutputID : option slice;
  TxSigHash : option slice;
  CheckOutput : option (heap -> Z -> slice -> Z -> slice -> Z -> slice -> bool ->
    option (result vmerr bool));
}.

(** ** Machine state: [vm.go]

    [data] holds the bytes of the operand of the current instruction; [mem] is
    the store of the process. *)
Record virtualMachine := mkVM {
  context : Context;
  program : slice;
  pc : Z;
  nextPC : Z;
  runLimit : Z;
  deferredCost : Z;
  expansionReserved : bool;
  data : bytes;
  depth : Z;
  dataStack : list slice;
  altStack : list slice;
  mem : heap;
}.

Definition set_pc p vm := mkVM (context vm) (program vm) p (nextPC vm) (runLimit vm)
  (deferredCost vm) (expansionReserved vm) (data vm) (depth vm) (dataStack vm) (altStack vm) (mem vm).
Definition set_nextPC p vm := mkVM (context vm) (program vm) (pc vm) p (runLimit vm)
  (deferredCost vm) (expansionReserved vm) (data vm) (depth vm) (dataStack vm) (altStack vm) (mem vm).
Definition set_runLimit r vm := mkVM (context vm) (program vm) (pc vm) (nextPC vm) r
  (deferredCost vm) (expansionReserved vm) (data vm) (depth vm) (dataStack vm) (altStack vm) (mem vm).
Definition set_deferredCost d vm := mkVM (context vm) (program vm) (pc vm) (nextPC vm) (runLimit vm)
  d (expansionReserved vm) (data vm) (depth vm) (dataStack vm) (altStack vm) (mem vm).
Definition set_data d vm := mkVM (context vm) (program vm) (pc vm) (nextPC vm) (runLimit vm)
  (deferredCost vm) (expansionReserved vm) d (depth vm) (dataStack vm) (altStack vm) (mem vm).
Definition set_dataStack st vm := mkVM (context vm) (program vm) (pc vm) (nextPC vm) (runLimit vm)
  (deferredCost vm) (expansionReserved vm) (data vm) (depth vm) st (altStack vm) (mem vm).
Definition set_altStack st vm := mkVM (context vm) (program vm) (pc vm) (nextPC vm) (runLimit vm)
  (deferredCost vm) (expansionReserved vm) (data vm) (depth vm) (dataStack vm) st (mem vm).
Definition set_mem h vm := mkVM (context vm) (program vm) (pc vm) (nextPC vm) (runLimit vm)
  (deferredCost vm) (expansionReserved vm) (data vm) (depth vm) (dataStack vm) (altStack vm) h.

(** ** The monad of the machine *)

Definition M (A : Type) : Type := virtualMachine -> outcome A * virtualMachine.

#[export] Instance M_ret : MRet M := fun A a vm => (Ret a, vm).
#[export] Instance M_bind : MBind M := fun A B f m vm =>
  match m vm with
  | (Ret a, vm') => f a vm'
  | (Fail e, vm') => (Fail e, vm')
  | (Panic, vm') => (Panic, vm')
  | (OutOfFuel, vm') => (OutOfFuel, vm')
  end.

Definition fail {A} (e : vmerr) : M A := fun vm => (Fail e, vm).
Definition panic {A} : M A := fun vm => (Panic, vm).
Definition gets {A} (f : virtualMachine -> A) : M A := fun vm => (Ret (f vm), vm).
Definition modify (f : virtualMachine -> virtualMachine) : M unit := fun vm => (Ret tt, f vm).

(** Run an operation of the store. *)
Definition store {A} (f : heap -> A * heap) : M A :=
  fun vm => let '(a, h) := f (mem vm) in (Ret a, set_mem h vm).

(** The contents of a slice, now. *)
Definition contents (s : slice) : M bytes := gets (fun vm => sbytes (mem vm) s).

(** [if !ok { return e }] *)
Definition require (ok : bool) (e : vmerr) : M unit := if ok then mret tt else fail e.

(** A result of [math/checked]: the error [e] unless [ok]. *)
Definition checked (r : Z * bool) (e : vmerr) : M Z :=
  if r.2 then mret r.1 else fail e.

Definition of_result {A} (r : result vmerr A) : M A :=
  match r with Ok a => mret a | Err e => fail e end.

(** ** Costs and stacks: the methods of [vm.go] *)

Definition initialRunLimit : Z := 10000.

Definition applyCost (n : Z) : M unit := fun vm =>
  if runLimit vm <? n then (Fail ErrRunLimitExceeded, vm)
  else (Ret tt, set_runLimit (int64 (runLimit vm - n)) vm).

Definition deferCost (n : Z) : M unit :=
  modify (fun vm => set_deferredCost (int64 (deferredCost vm + n)) vm).

Definition stack_push (s : slice) : M unit :=
  modify (fun vm => set_dataStack (s :: dataStack vm) vm).

Definition push (d : slice) (deferred : bool) : M unit :=
  let cost := 8 + slen d in
  (if deferred then deferCost cost else applyCost cost);;
  stack_push d.

(** The package variable [trueBytes] is the first array of every store, and
    [[]byte{}] has no capacity, so its array does not matter. *)
Definition trueBytes : slice := Slice 0 0 1 1.
Definition emptySlice : slice := Slice 0 0 0 0.

Definition BoolBytes (b : bool) : slice := if b then trueBytes else emptySlice.

Definition Int64Bytes (n : Z) (h : heap) : slice * heap :=
  if n =? 0 then (emptySlice, h)
  else
    let '(res, h') := new_slice h (le_put 8 (uint64 n)) in
    (reslice res 0 (length (int64_bytes n)), h').

Definition pushBool (b : bool) (deferred : bool) : M unit := push (BoolBytes b) deferred.

Definition pushInt64 (n : Z) (deferred : bool) : M unit :=
  s ← store (Int64Bytes n); push s deferred.

Definition pop (deferred : bool) : M slice := fun vm =>
  match dataStack vm with
  | [] => (Fail ErrDataStackUnderflow, vm)
  | res :: rest =>
      let vm := set_dataStack rest vm in
      let cost := 8 + slen res in
      if deferred
      then (Ret res, set_deferredCost (int64 (deferredCost vm + - cost)) vm)
      else (Ret res, set_runLimit (int64 (runLimit vm + cost)) vm)
  end.

Definition popInt64 (deferred : bool) : M Z :=
  s ← pop deferred; b ← contents s; of_result (AsInt64 b).

Definition top : M slice := fun vm =>
  match dataStack vm with
  | [] => (Fail ErrDataStackUnderflow, vm)
  | s :: _ => (Ret s, vm)
  end.

(** [vm.dataStack[len(vm.dataStack)-1-i]] *)
Definition item (i : nat) : M slice := fun vm =>
  match dataStack vm !! i with
  | Some s => (Ret s, vm)
  | None => (Panic, vm)
  end.

(** [if len(vm.dataStack) < n { return ErrDataStackUnderflow }] *)
Definition need (n : Z) : M unit :=
  l ← gets (fun vm => zlen (dataStack vm)); require (n <=? l) ErrDataStackUnderflow.

(** [stackCost]: 8 per item plus its length. *)
Fixpoint stackCost (st : list slice) : Z :=
  match st with
  | [] => 0
  | s :: st => 8 + slen s + stackCost st
  end.

Definition falseResult (vm : virtualMachine) : bool :=
  match dataStack vm with
  | [] => true
  | s :: _ => negb (AsBool (sbytes (mem vm) s))
  end.

Section Opcodes.
Context `{Runtime} `{Crypto}.

(** ** Pushing data: [pushdata.go] *)

Definition opFalse : M unit := applyCost 1;; pushBool false false.

Definition opPushdata : M unit :=
  applyCost 1;;
  bs ← gets data;
  d ← store (fun h => new_slice h bs);
  push d false.

Definition op1Negate : M unit := applyCost 1;; pushInt64 (-1) false.

Definition opNop : M unit := applyCost 1.

(** ** Control flow: [control.go] *)

Definition opVerify : M unit :=
  applyCost 1;;
  p ← pop true;
  b ← contents p;
  require (AsBool b) ErrVerifyFailed.

Definition opFail : M unit := applyCost 1;; fail ErrReturn.

Definition opJump : M unit :=
  applyCost 1;;
  modify (fun vm => set_nextPC (le_get (data vm)) vm).

Definition opJumpIf : M unit :=
  applyCost 1;;
  p ← pop true;
  b ← contents p;
  if AsBool b then modify (fun vm => set_nextPC (le_get (data vm)) vm) else mret tt.

(** The machine [CHECKPREDICATE] spawns: the fields the literal does not name
    are zero, in particular [expansionReserved]. *)
Definition childVM (vm : virtualMachine) (predicate : slice) (limit : Z) (n : nat) :
    virtualMachine :=
  mkVM (context vm) predicate 0 0 limit 0 false [] (depth vm + 1)
    (take n (dataStack vm)) [] (mem vm).

(** The second half of [opCheckPredicate]: spawn the child machine, run it, and
    take back what it did not use.  [run_child] is [run], which is defined from
    this function.  A negative [n] makes the slice expression
    [vm.dataStack[l-n:]] panic. *)
Definition runPredicate (run_child : M unit) (predicate : slice) (limit n : Z) : M unit :=
  (if n <? 0 then panic else mret tt);;
  child ← gets (fun vm => run_child (childVM vm predicate limit (Z.to_nat n)));
  modify (fun vm => set_mem (mem child.2) (set_dataStack (drop (Z.to_nat n) (dataStack vm)) vm));;
  (match child.1 with
   | Panic => panic
   | OutOfFuel => fun vm => (OutOfFuel, vm)
   | _ => mret tt
   end);;
  deferCost (- runLimit child.2);;
  deferCost (- stackCost (dataStack child.2));;
  deferCost (- stackCost (altStack child.2));;
  pushBool (match child.1 with Ret _ => negb (falseResult child.2) | _ => false end) true.

Definition opCheckPredicate (run_child : M unit) : M unit :=
  applyCost 256;;
  deferCost (-256 + 64);;
  limit ← popInt64 true;
  predicate ← pop true;
  n ← popInt64 true;
  require (0 <=? limit) ErrBadValue;;
  l ← gets (fun vm => zlen (dataStack vm));
  require (n <=? l) ErrDataStackUnderflow;;
  limit ← (if limit =? 0 then gets runLimit else mret limit);
  applyCost limit;;
  runPredicate run_child predicate limit n.

(** ** Stack manipulation: [stack.go] *)

Definition opToAltStack : M unit :=
  applyCost 2;;
  need 1;;
  s ← item 0;
  modify (fun vm => set_altStack (s :: altStack vm) (set_dataStack (drop 1 (dataStack vm)) vm)).

Definition opFromAltStack : M unit :=
  applyCost 2;;
  alt ← gets altStack;
  match alt with
  | [] => fail ErrAltStackUnderflow
  | s :: rest => modify (fun vm => set_altStack rest (set_dataStack (s :: dataStack vm) vm))
  end.

Definition op2Drop : M unit := applyCost 2;; pop false;; pop false;; mret tt.

(** [for i := 0; i < k; i++ { push(vm.dataStack[len-1-j]) }] *)
Fixpoint push_items (k j : nat) : M unit :=
  match k with
  | O => mret tt
  | S k => s ← item j; push s false;; push_items k j
  end.

Definition nDup (n : nat) : M unit :=
  applyCost (Z.of_nat n);; need (Z.of_nat n);; push_items n (n - 1).

Definition op2Dup : M unit := nDup 2.
Definition op3Dup : M unit := nDup 3.

Definition op2Over : M unit := applyCost 2;; need 4;; push_items 2 3.

Definition op2Rot : M unit :=
  applyCost 2;;
  need 6;;
  st ← gets dataStack;
  match st with
  | s0 :: s1 :: s2 :: s3 :: s4 :: s5 :: rest =>
      modify (set_dataStack (s4 :: s5 :: s0 :: s1 :: s2 :: s3 :: rest))
  | _ => panic
  end.

Definition op2Swap : M unit :=
  applyCost 2;;
  need 4;;
  st ← gets dataStack;
  match st with
  | s0 :: s1 :: s2 :: s3 :: rest => modify (set_dataStack (s2 :: s3 :: s0 :: s1 :: rest))
  | _ => panic
  end.

Definition opIfDup : M unit :=
  applyCost 1;;
  s ← top;
  b ← contents s;
  if AsBool b then push s false else mret tt.

Definition opDepth : M unit :=
  applyCost 1;;
  l ← gets (fun vm => zlen (dataStack vm));
  pushInt64 l false.

Definition opDrop : M unit := applyCost 1;; pop false;; mret tt.

Definition opDup : M unit := nDup 1.

Definition opNip : M unit :=
  applyCost 1;;
  s ← top;
  modify (fun vm => set_dataStack (drop 1 (dataStack vm)) vm);;
  pop false;;
  stack_push s.

Definition opOver : M unit := applyCost 1;; need 2;; s ← item 1; push s false.

Definition opPick : M unit :=
  applyCost 2;;
  n ← popInt64 false;
  require (0 <=? n) ErrBadValue;;
  off ← checked (AddInt64 n 1) ErrBadValue;
  need off;;
  s ← item (Z.to_nat (off - 1));
  push s false.

Definition rot (n : Z) : M unit :=
  require (1 <=? n) ErrBadValue;;
  need n;;
  let i := Z.to_nat (n - 1) in
  s ← item i;
  modify (fun vm => set_dataStack (s :: take i (dataStack vm) ++ drop (S i) (dataStack vm)) vm).

Definition opRoll : M unit :=
  applyCost 2;;
  n ← popInt64 false;
  require (0 <=? n) ErrBadValue;;
  off ← checked (AddInt64 n 1) ErrBadValue;
  rot off.

Definition opRot : M unit := applyCost 2;; rot 3.

Definition opSwap : M unit :=
  applyCost 1;;
  need 2;;
  st ← gets dataStack;
  match st with
  | s0 :: s1 :: rest => modify (set_dataStack (s1 :: s0 :: rest))
  | _ => panic
  end.

Definition opTuck : M unit :=
  applyCost 1;;
  need 2;;
  s0 ← item 0;
  s1 ← item 1;
  modify (fun vm => set_dataStack (drop 2 (dataStack vm)) vm);;
  push s0 false;;
  modify (fun vm => set_dataStack (s0 :: s1 :: dataStack vm) vm).

(** ** Splicing: [splice.go] *)

Definition opCat : M unit :=
  applyCost 4;;
  b ← pop true;
  a ← pop true;
  let lens := slen a + slen b in
  applyCost lens;;
  deferCost (- lens);;
  bs ← contents b;
  r ← store (fun h => append_slice h a bs);
  push r true.

Definition opSubstr : M unit :=
  applyCost 4;;
  size ← popInt64 true;
  require (0 <=? size) ErrBadValue;;
  applyCost size;;
  deferCost (- size);;
  offset ← popInt64 true;
  require (0 <=? offset) ErrBadValue;;
  str ← pop true;
  end_ ← checked (AddInt64 offset size) ErrBadValue;
  require (end_ <=? slen str) ErrBadValue;;
  push (reslice str (Z.to_nat offset) (Z.to_nat end_)) true.

Definition opLeft : M unit :=
  applyCost 4;;
  size ← popInt64 true;
  require (0 <=? size) ErrBadValue;;
  applyCost size;;
  deferCost (- size);;
  str ← pop true;
  require (size <=? slen str) ErrBadValue;;
  push (reslice str 0 (Z.to_nat size)) true.

Definition opRight : M unit :=
  applyCost 4;;
  size ← popInt64 true;
  require (0 <=? size) ErrBadValue;;
  applyCost size;;
  deferCost (- size);;
  str ← pop true;
  require (size <=? slen str) ErrBadValue;;
  push (reslice str (Z.to_nat (slen str - size)) (s_len str)) true.

Definition opSize : M unit :=
  applyCost 1;;
  str ← top;
  pushInt64 (slen str) true.

Definition opCatpushdata : M unit :=
  applyCost 4;;
  b ← pop true;
  a ← pop true;
  let lens := slen a + slen b in
  applyCost lens;;
  deferCost (- lens);;
  bs ← contents b;
  r ← store (fun h => append_slice h a (PushdataBytes bs));
  push r true.

(** ** Bitwise operations: [bitwise.go] *)

(** [^b] on a byte. *)
Definition byte_not (b : byte) : byte := byte_of_Z (255 - Z_of_byte b).
Definition byte_op (f : Z -> Z -> Z) (a b : byte) : byte :=
  byte_of_Z (f (Z_of_byte a) (Z_of_byte b)).

Definition opInvert : M unit :=
  applyCost 1;;
  s ← top;
  applyCost (slen s);;
  bs ← contents s;
  newTop ← store (fun h => new_slice h (map byte_not bs));
  modify (fun vm => set_dataStack (newTop :: drop 1 (dataStack vm)) vm).

Definition opAnd : M unit :=
  applyCost 1;;
  b ← pop true;
  a ← pop true;
  applyCost (Z.min (slen a) (slen b));;
  abs ← contents a;
  bbs ← contents b;
  res ← store (fun h => new_slice h (zip_with (byte_op Z.land) abs bbs));
  push res true.

(** The loop of [doOr]: bytes past the end of the shorter string count as 0. *)
Fixpoint zip_pad (f : byte -> byte -> byte) (a b : bytes) : bytes :=
  match a, b with
  | [], [] => []
  | x :: a, [] => f x Byte.x00 :: zip_pad f a []
  | [], y :: b => f Byte.x00 y :: (fix go b := match b with
                                    | [] => []
                                    | y :: b => f Byte.x00 y :: go b
                                    end) b
  | x :: a, y :: b => f x y :: zip_pad f a b
  end.

Definition doOr (xor : bool) : M unit :=
  applyCost 1;;
  b ← pop true;
  a ← pop true;
  applyCost (Z.max (slen a) (slen b));;
  abs ← contents a;
  bbs ← contents b;
  res ← store (fun h => new_slice h (zip_pad (byte_op (if xor then Z.lxor else Z.lor)) abs bbs));
  push res true.

Definition opOr : M unit := doOr false.
Definition opXor : M unit := doOr true.

Definition doEqual : M bool :=
  applyCost 1;;
  b ← pop true;
  a ← pop true;
  applyCost (Z.min (slen a) (slen b));;
  abs ← contents a;
  bbs ← contents b;
  mret (bool_decide (abs = bbs)).

Definition opEqual : M unit := res ← doEqual; pushBool res true.
Definition opEqualVerify : M unit := res ← doEqual; require res ErrVerifyFailed.

(** ** Arithmetic: [numeric.go] *)

Definition op1Add : M unit :=
  applyCost 2;; n ← popInt64 true;
  res ← checked (AddInt64 n 1) ErrRange; pushInt64 res true.

Definition op1Sub : M unit :=
  applyCost 2;; n ← popInt64 true;
  res ← checked (SubInt64 n 1) ErrRange; pushInt64 res true.

Definition op2Mul : M unit :=
  applyCost 2;; n ← popInt64 true;
  res ← checked (MulInt64 n 2) ErrRange; pushInt64 res true.

Definition op2Div : M unit :=
  applyCost 2;; n ← popInt64 true; pushInt64 (Z.shiftr n 1) true.

Definition opNegate : M unit :=
  applyCost 2;; n ← popInt64 true;
  res ← checked (NegateInt64 n) ErrRange; pushInt64 res true.

Definition opAbs : M unit :=
  applyCost 2;; n ← popInt64 true;
  require (negb (n =? MinInt64)) ErrRange;;
  pushInt64 (if n <? 0 then int64 (- n) else n) true.

Definition opNot : M unit := applyCost 2;; n ← popInt64 true; pushBool (n =? 0) true.

Definition op0NotEqual : M unit :=
  applyCost 2;; n ← popInt64 true; pushBool (negb (n =? 0)) true.

Definition opAdd : M unit :=
  applyCost 2;; y ← popInt64 true; x ← popInt64 true;
  res ← checked (AddInt64 x y) ErrRange; pushInt64 res true.

Definition opSub : M unit :=
  applyCost 2;; y ← popInt64 true; x ← popInt64 true;
  res ← checked (SubInt64 x y) ErrRange; pushInt64 res true.

Definition opMul : M unit :=
  applyCost 8;; y ← popInt64 true; x ← popInt64 true;
  res ← checked (MulInt64 x y) ErrRange; pushInt64 res true.

Definition opDiv : M unit :=
  applyCost 8;; y ← popInt64 true; x ← popInt64 true;
  require (negb (y =? 0)) ErrDivZero;;
  res ← checked (DivInt64 x y) ErrRange; pushInt64 res true.

(** The remainder is corrected to the sign of the divisor. *)
Definition opMod : M unit :=
  applyCost 8;; y ← popInt64 true; x ← popInt64 true;
  require (negb (y =? 0)) ErrDivZero;;
  res ← checked (ModInt64 x y) ErrRange;
  let res := if negb (res =? 0) && negb (Bool.eqb (0 <=? x) (0 <=? y))
             then int64 (res + y) else res in
  pushInt64 res true.

Definition opLshift : M unit :=
  applyCost 8;; y ← popInt64 true;
  require (0 <=? y) ErrBadValue;;
  x ← popInt64 true;
  if (x =? 0) || (y =? 0) then pushInt64 x true
  else (res ← checked (LshiftInt64 x y) ErrRange; pushInt64 res true).

Definition opRshift : M unit :=
  applyCost 8;; y ← popInt64 true; x ← popInt64 true;
  require (0 <=? y) ErrBadValue;;
  pushInt64 (Z.shiftr x (uint64 y)) true.

Definition opBoolAnd : M unit :=
  applyCost 2;; b ← pop true; a ← pop true;
  abs ← contents a; bbs ← contents b; pushBool (AsBool abs && AsBool bbs) true.

Definition opBoolOr : M unit :=
  applyCost 2;; b ← pop true; a ← pop true;
  abs ← contents a; bbs ← contents b; pushBool (AsBool abs || AsBool bbs) true.

Inductive cmp := cmpLess | cmpLessEqual | cmpGreater | cmpGreaterEqual | cmpEqual | cmpNotEqual.

Definition compare_ (op : cmp) (x y : Z) : bool :=
  match op with
  | cmpLess => x <? y
  | cmpLessEqual => x <=? y
  | cmpGreater => x >? y
  | cmpGreaterEqual => x >=? y
  | cmpEqual => x =? y
  | cmpNotEqual => negb (x =? y)
  end.

Definition doNumCompare (op : cmp) : M unit :=
  applyCost 2;; y ← popInt64 true; x ← popInt64 true;
  pushBool (compare_ op x y) true.

Definition opNumEqual : M unit := doNumCompare cmpEqual.
Definition opNumEqualVerify : M unit :=
  applyCost 2;; y ← popInt64 true; x ← popInt64 true;
  require (x =? y) ErrVerifyFailed.
Definition opNumNotEqual : M unit := doNumCompare cmpNotEqual.
Definition opLessThan : M unit := doNumCompare cmpLess.
Definition opGreaterThan : M unit := doNumCompare cmpGreater.
Definition opLessThanOrEqual : M unit := doNumCompare cmpLessEqual.
Definition opGreaterThanOrEqual : M unit := doNumCompare cmpGreaterEqual.

Definition opMin : M unit :=
  applyCost 2;; y ← popInt64 true; x ← popInt64 true;
  pushInt64 (if x >? y then y else x) true.

Definition opMax : M unit :=
  applyCost 2;; y ← popInt64 true; x ← popInt64 true;
  pushInt64 (if x <? y then y else x) true.

Definition opWithin : M unit :=
  applyCost 4;; max ← popInt64 true; min ← popInt64 true; x ← popInt64 true;
  pushBool ((x >=? min) && (x <? max)) true.

(** ** Hashes and signatures: [crypto.go] *)

Definition doHash (sum : bytes -> bytes) : M unit :=
  x ← pop false;
  applyCost (Z.max (slen x) 64);;
  bs ← contents x;
  s ← store (fun h => append_slice h emptySlice (sum bs));
  push s false.

Definition opSha256 : M unit := doHash sha256_sum.
Definition opSha3 : M unit := doHash sha3_256_sum.

Definition opCheckSig : M unit :=
  applyCost 1024;;
  pubkeyBytes ← pop true;
  msg ← pop true;
  sig ← pop true;
  require (slen msg =? 32) ErrBadValue;;
  if negb (slen pubkeyBytes =? PublicKeySize) then pushBool false true
  else
    pb ← contents pubkeyBytes; mb ← contents msg; sb ← contents sig;
    pushBool (ed25519_Verify pb mb sb) true.

(** [for i := 0; i < n; i++ { pop(true) }], in the order of popping. *)
Fixpoint popN (n : nat) : M (list slice) :=
  match n with
  | O => mret []
  | S n => s ← pop true; rest ← popN n; mret (s :: rest)
  end.

(** The final loop of [opCheckMultiSig]: each public key is tried on the next
    signature; the result is the list of signatures left. *)
Fixpoint match_sigs (msg : bytes) (sigs pubkeys : list bytes) : list bytes :=
  match sigs, pubkeys with
  | s :: sigs', p :: pubkeys' =>
      if ed25519_Verify p msg s then match_sigs msg sigs' pubkeys'
      else match_sigs msg sigs pubkeys'
  | _, _ => sigs
  end.

Definition opCheckMultiSig : M unit :=
  numPubkeys ← popInt64 true;
  let (pubCost, ok) := MulInt64 numPubkeys 1024 in
  require (negb ((numPubkeys <? 0) || negb ok)) ErrBadValue;;
  applyCost pubCost;;
  numSigs ← popInt64 true;
  require (negb ((numSigs <? 0) || (numPubkeys <? numSigs)
                 || ((0 <? numPubkeys) && (numSigs =? 0)))) ErrBadValue;;
  pubkeyByteses ← popN (Z.to_nat numPubkeys);
  msg ← pop true;
  require (slen msg =? 32) ErrBadValue;;
  sigs ← popN (Z.to_nat numSigs);
  if existsb (fun p => negb (slen p =? PublicKeySize)) pubkeyByteses then pushBool false true
  else
    h ← gets mem;
    let left := match_sigs (sbytes h msg) (map (sbytes h) sigs) (map (sbytes h) pubkeyByteses) in
    pushBool (zlen left =? 0) true.

(** Push a field of the context, [ErrContext] when it is absent. *)
Definition pushField (field : Context -> option slice) (deferred : bool) : M unit :=
  f ← gets (fun vm => field (context vm));
  match f with
  | None => fail ErrContext
  | Some s => push s deferred
  end.

Definition pushIntField (field : Context -> option Z) : M unit :=
  f ← gets (fun vm => field (context vm));
  match f with
  | None => fail ErrContext
  | Some n => pushInt64 (int64 n) true
  end.

Definition opTxSigHash : M unit := applyCost 256;; pushField TxSigHash false.
Definition opBlockHash : M unit := applyCost 1;; pushField BlockHash false.

(** ** Introspection: [introspection.go] *)

Definition opCheckOutput : M unit :=
  applyCost 16;;
  code ← pop true;
  vmVersion ← popInt64 true;
  require (0 <=? vmVersion) ErrBadValue;;
  assetID ← pop true;
  amount ← popInt64 true;
  require (0 <=? amount) ErrBadValue;;
  dat ← pop true;
  index ← popInt64 true;
  require (0 <=? index) ErrBadValue;;
  f ← gets (fun vm => CheckOutput (context vm));
  match f with
  | None => fail ErrContext
  | Some checkOutput =>
      r ← gets (fun vm => checkOutput (mem vm) (uint64 index) dat (uint64 amount) assetID
                            (uint64 vmVersion) code (expansionReserved vm));
      match r with
      | None => panic
      | Some r => ok ← of_result r; pushBool ok true
      end
  end.

Definition opAsset : M unit := applyCost 1;; pushField AssetID true.
Definition opAmount : M unit := applyCost 1;; pushIntField Amount.
Definition opProgram : M unit :=
  applyCost 1;; c ← gets (fun vm => Code (context vm)); push c true.
Definition opMinTime : M unit := applyCost 1;; pushIntField MinTimeMS.

Definition opMaxTime : M unit :=
  applyCost 1;;
  f ← gets (fun vm => MaxTimeMS (context vm));
  match f with
  | None => fail ErrContext
  | Some m =>
      let maxTimeMS := if (m =? 0) || (MaxInt64 <? m) then uint64 MaxInt64 else m in
      pushInt64 (int64 maxTimeMS) true
  end.

Definition opEntryData : M unit := applyCost 1;; pushField EntryData true.
Definition opTxData : M unit := applyCost 1;; pushField TxData true.
Definition opIndex : M unit := applyCost 1;; pushIntField DestPos.
Definition opEntryID : M unit :=
  applyCost 1;; e ← gets (fun vm => EntryID (context vm)); push e true.
Definition opOutputID : M unit := applyCost 1;; pushField SpentOutputID true.
Definition opNonce : M unit := applyCost 1;; pushField AnchorID true.
Definition opNextProgram : M unit := applyCost 1;; pushField NextConsensusProgram true.
Definition opBlockTime : M unit := applyCost 1;; pushIntField BlockTimeMS.

End Opcodes.
