(* ===== verification/VMRun.v ===== *)
(** * Running the virtual machine

    The opcode table of [protocol/vm/ops.go] and the entry points of
    [protocol/vm/vm.go]: [step], [run] and [Verify]. *)

From Stdlib Require Import ZArith Lia String.
From S2P Require Import Prelude Checked GoSlice Crypto VMCode VM.

Section Run.
Context `{Runtime} `{Crypto}.

(** ** The opcode table *)

(** The composite literal of [ops]: opcode, name, implementation. *)
Definition ops_literal : list (Z * string * M unit) := [
  (OP_FALSE, "FALSE"%string, opFalse);
  (OP_PUSHDATA1, "PUSHDATA1"%string, opPushdata);
  (OP_PUSHDATA2, "PUSHDATA2"%string, opPushdata);
  (OP_PUSHDATA4, "PUSHDATA4"%string, opPushdata);
  (OP_1NEGATE, "1NEGATE"%string, op1Negate);
  (OP_NOP, "NOP"%string, opNop);
  (OP_JUMP, "JUMP"%string, opJump);
  (OP_JUMPIF, "JUMPIF"%string, opJumpIf);
  (OP_VERIFY, "VERIFY"%string, opVerify);
  (OP_FAIL, "FAIL"%string, opFail);
  (OP_TOALTSTACK, "TOALTSTACK"%string, opToAltStack);
  (OP_FROMALTSTACK, "FROMALTSTACK"%string, opFromAltStack);
  (OP_2DROP, "2DROP"%string, op2Drop);
  (OP_2DUP, "2DUP"%string, op2Dup);
  (OP_3DUP, "3DUP"%string, op3Dup);
  (OP_2OVER, "2OVER"%string, op2Over);
  (OP_2ROT, "2ROT"%string, op2Rot);
  (OP_2SWAP, "2SWAP"%string, op2Swap);
  (OP_IFDUP, "IFDUP"%string, opIfDup);
  (OP_DEPTH, "DEPTH"%string, opDepth);
  (OP_DROP, "DROP"%string, opDrop);
  (OP_DUP, "DUP"%string, opDup);
  (OP_NIP, "NIP"%string, opNip);
  (OP_OVER, "OVER"%string, opOver);
  (OP_PICK, "PICK"%string, opPick);
  (OP_ROLL, "ROLL"%string, opRoll);
  (OP_ROT, "ROT"%string, opRot);
  (OP_SWAP, "SWAP"%string, opSwap);
  (OP_TUCK, "TUCK"%string, opTuck);
  (OP_CAT, "CAT"%string, opCat);
  (OP_SUBSTR, "SUBSTR"%string, opSubstr);
  (OP_LEFT, "LEFT"%string, opLeft);
  (OP_RIGHT, "RIGHT"%string, opRight);
  (OP_SIZE, "SIZE"%string, opSize);
  (OP_CATPUSHDATA, "CATPUSHDATA"%string, opCatpushdata);
  (OP_INVERT, "INVERT"%string, opInvert);
  (OP_AND, "AND"%string, opAnd);
  (OP_OR, "OR"%string, opOr);
  (OP_XOR, "XOR"%string, opXor);
  (OP_EQUAL, "EQUAL"%string, opEqual);
  (OP_EQUALVERIFY, "EQUALVERIFY"%string, opEqualVerify);
  (OP_1ADD, "1ADD"%string, op1Add);
  (OP_1SUB, "1SUB"%string, op1Sub);
  (OP_2MUL, "2MUL"%string, op2Mul);
  (OP_2DIV, "2DIV"%string, op2Div);
  (OP_NEGATE, "NEGATE"%string, opNegate);
  (OP_ABS, "ABS"%string, opAbs);
  (OP_NOT, "NOT"%string, opNot);
  (OP_0NOTEQUAL, "0NOTEQUAL"%string, op0NotEqual);
  (OP_ADD, "ADD"%string, opAdd);
  (OP_SUB, "SUB"%string, opSub);
  (OP_MUL, "MUL"%string, opMul);
  (OP_DIV, "DIV"%string, opDiv);
  (OP_MOD, "MOD"%string, opMod);
  (OP_LSHIFT, "LSHIFT"%string, opLshift);
  (OP_RSHIFT, "RSHIFT"%string, opRshift);
  (OP_BOOLAND, "BOOLAND"%string, opBoolAnd);
  (OP_BOOLOR, "BOOLOR"%string, opBoolOr);
  (OP_NUMEQUAL, "NUMEQUAL"%string, opNumEqual);
  (OP_NUMEQUALVERIFY, "NUMEQUALVERIFY"%string, opNumEqualVerify);
  (OP_NUMNOTEQUAL, "NUMNOTEQUAL"%string, opNumNotEqual);
  (OP_LESSTHAN, "LESSTHAN"%string, opLessThan);
  (OP_GREATERTHAN, "GREATERTHAN"%string, opGreaterThan);
  (OP_LESSTHANOREQUAL, "LESSTHANOREQUAL"%string, opLessThanOrEqual);
  (OP_GREATERTHANOREQUAL, "GREATERTHANOREQUAL"%string, opGreaterThanOrEqual);
  (OP_MIN, "MIN"%string, opMin);
  (OP_MAX, "MAX"%string, opMax);
  (OP_WITHIN, "WITHIN"%string, opWithin);
  (OP_SHA256, "SHA256"%string, opSha256);
  (OP_SHA3, "SHA3"%string, opSha3);
  (OP_CHECKSIG, "CHECKSIG"%string, opCheckSig);
  (OP_CHECKMULTISIG, "CHECKMULTISIG"%string, opCheckMultiSig);
  (OP_TXSIGHASH, "TXSIGHASH"%string, opTxSigHash);
  (OP_BLOCKHASH, "BLOCKHASH"%string, opBlockHash);
  (OP_CHECKOUTPUT, "CHECKOUTPUT"%string, opCheckOutput);
  (OP_ASSET, "ASSET"%string, opAsset);
  (OP_AMOUNT, "AMOUNT"%string, opAmount);
  (OP_PROGRAM, "PROGRAM"%string, opProgram);
  (OP_MINTIME, "MINTIME"%string, opMinTime);
  (OP_MAXTIME, "MAXTIME"%string, opMaxTime);
  (OP_TXDATA, "TXDATA"%string, opTxData);
  (OP_ENTRYDATA, "ENTRYDATA"%string, opEntryData);
  (OP_INDEX, "INDEX"%string, opIndex);
  (OP_ENTRYID, "ENTRYID"%string, opEntryID);
  (OP_OUTPUTID, "OUTPUTID"%string, opOutputID);
  (OP_NONCE, "NONCE"%string, opNonce);
  (OP_NEXTPROGRAM, "NEXTPROGRAM"%string, opNextProgram);
  (OP_BLOCKTIME, "BLOCKTIME"%string, opBlockTime)
].

(** [init] adds the [DATA_i] opcodes, the small integers and [CHECKPREDICATE],
    and marks every opcode that is still free as an expansion opcode. *)
Definition ops (run_child : M unit) (op : Z) : option (M unit) :=
  if (1 <=? op) && (op <=? 75) then Some opPushdata
  else if (OP_1 <=? op) && (op <=? OP_1 + 15) then Some opPushdata
  else if op =? OP_CHECKPREDICATE then Some (opCheckPredicate run_child)
  else option_map snd (find (fun e => e.1.1 =? op) ops_literal).

(** ** [step], [run] and [Verify] *)

(** [isExpansion[op]] *)
Definition isExpansion (op : Z) : bool :=
  match ops (mret tt) op with Some _ => false | None => true end.

(** [fn] computes the run of a child machine.  The trace output is not
    modelled. *)
Definition step (run_child : M unit) : M unit := fun vm =>
  match ParseOp (sbytes (mem vm) (program vm)) (pc vm) with
  | Fail e => (Fail e, vm)
  | Panic => (Panic, vm)
  | OutOfFuel => (OutOfFuel, vm)
  | Ret inst =>
      (modify (set_nextPC (uint32 (pc vm + Len inst)));;
       match ops run_child (Op inst) with
       | None =>
           if expansionReserved vm then fail ErrDisallowedOpcode
           else modify (fun vm => set_pc (nextPC vm) vm);; applyCost 1
       | Some fn =>
           modify (fun vm => set_data (Data inst) (set_deferredCost 0 vm));;
           fn;;
           d ← gets deferredCost;
           applyCost d;;
           modify (fun vm => set_pc (nextPC vm) vm)
       end) vm
  end.

(** The loop of [run] from the current program counter.  Each iteration, and
    each child machine, uses one unit of fuel. *)
Fixpoint run_loop (fuel : nat) : M unit := fun vm =>
  match fuel with
  | O => (OutOfFuel, vm)
  | S fuel =>
      if pc vm <? uint32 (slen (program vm)) then
        (step (modify (set_pc 0);; run_loop fuel);; run_loop fuel) vm
      else (Ret tt, vm)
  end.

Definition run (fuel : nat) : M unit := modify (set_pc 0);; run_loop fuel.

(** The result of [Verify]: an error as it is, or wrapped with the program and
    its arguments ([wrapErr]). *)
Inductive verify_error :=
| PlainErr (e : vmerr)
| Error (e : vmerr) (Prog : bytes) (Args : list bytes).

Definition wrapErr (e : vmerr) (vm : virtualMachine) (args : list slice) : verify_error :=
  Error e (sbytes (mem vm) (program vm)) (map (sbytes (mem vm)) args).

(** Push the initial arguments; the first failure is returned unwrapped. *)
Fixpoint push_args (args : list slice) : M unit :=
  match args with
  | [] => mret tt
  | a :: args => push a false;; push_args args
  end.

(** The machine [Verify] starts. *)
Definition initVM (h : heap) (c : Context) : virtualMachine :=
  mkVM c (Code c) 0 0 initialRunLimit 0
    (match TxVersion c with Some v => v =? 1 | None => false end)
    [] 0 [] [] h.

(** [Verify], with the store before and after.  A run-time panic anywhere below
    is recovered and reported as [ErrUnexpected].  [None] means that the fuel was
    not enough. *)
Definition Verify (fuel : nat) (h : heap) (c : Context) : option (option verify_error) * heap :=
  if negb (VMVersion c =? 1) then (Some (Some (PlainErr ErrUnsupportedVM)), h)
  else
    match push_args (Arguments c) (initVM h c) with
    | (Fail e, vm) => (Some (Some (PlainErr e)), mem vm)
    | (Panic, vm) => (Some (Some (PlainErr ErrUnexpected)), mem vm)
    | (OutOfFuel, vm) => (None, mem vm)
    | (Ret _, vm) =>
        match run fuel vm with
        | (Ret _, vm) =>
            (Some (if falseResult vm then Some (wrapErr ErrFalseVMResult vm (Arguments c)) else None),
             mem vm)
        | (Fail e, vm) => (Some (Some (wrapErr e vm (Arguments c))), mem vm)
        | (Panic, vm) => (Some (Some (PlainErr ErrUnexpected)), mem vm)
        | (OutOfFuel, vm) => (None, mem vm)
        end
    end.
End Run.
