(* ===== verification/VMExec.v ===== *)
(** * Executing opcodes on a given machine

    Equations for runs that succeed: what each primitive, and a few opcodes, do
    to a machine that can pay for them.  They turn a straight-line program into a
    sequence of rewriting steps.  The file also has concrete contexts
    and machines, on which examples are computed. *)

From Stdlib Require Import ZArith Lia Strings.Byte.
From S2P Require Import Prelude Checked GoSlice Crypto VMCode VM VMRun.

(** ** Concrete instances *)

(** The store at start-up, with [trueBytes] in array 0, and a context that runs
    the program [prog] without arguments and without a transaction. *)
Definition start_heap (prog : bytes) : heap := [[x01]; prog].

Definition code_slice (prog : bytes) : slice := Slice 1 0 (length prog) (length prog).

Definition bare_context (prog : bytes) : Context :=
  mkContext 1 (code_slice prog) [] emptySlice None None None None None None None None None None
    None None None None None None.

(** A machine with the initial run limit, and given stack and store. *)
Definition demo_vm (ds : list slice) (h : heap) : virtualMachine :=
  mkVM (bare_context [x51]) (code_slice [x51]) 0 0 initialRunLimit 0 false [] 0 ds [] h.

(** ** Equations *)

Lemma ltb_ge_false a b : b <= a -> (a <? b) = false.
Proof. intros. apply Z.ltb_ge. lia. Qed.

Lemma bind_fail {A B} (m : M A) (f : A -> M B) vm e vm' :
  m vm = (Fail e, vm') -> (m ≫= f) vm = (Fail e, vm').
Proof. intros E. unfold mbind, M_bind. by rewrite E. Qed.

Lemma bind_ret {A B} (m : M A) (f : A -> M B) vm a vm' :
  m vm = (Ret a, vm') -> (m ≫= f) vm = f a vm'.
Proof. intros E. unfold mbind, M_bind. by rewrite E. Qed.

Lemma applyCost_ret n vm :
  0 <= n <= runLimit vm -> runLimit vm <= MaxInt64 ->
  applyCost n vm = (Ret tt, set_runLimit (runLimit vm - n) vm).
Proof.
  intros ? ?. unfold applyCost. rewrite ltb_ge_false by lia.
  by rewrite int64_id by (unfold_int; lia).
Qed.

Lemma push_ret s vm :
  8 + slen s <= runLimit vm -> runLimit vm <= MaxInt64 ->
  push s false vm =
  (Ret tt, set_dataStack (s :: dataStack vm) (set_runLimit (runLimit vm - (8 + slen s)) vm)).
Proof.
  intros ? ?. unfold push. erewrite bind_ret by (apply applyCost_ret; unfold slen in *; lia). done.
Qed.

(** Reduce the projections of a machine, and no arithmetic. *)
Ltac vmcbn := cbn -[Z.add Z.sub Z.mul int64 uint32 Z.ltb Z.leb ParseOp mbind M_bind
  push pushBool applyCost deferCost pop contents gets].

Ltac vmlia := vmcbn; unfold slen, emptySlice in *; cbn [s_len]; unfold_int; lia.

Ltac run1 := erewrite bind_ret by first
  [ apply applyCost_ret; vmlia
  | reflexivity ]; vmcbn.

Section Exec.
Context `{Runtime} `{Crypto}.

(** An instruction of the table that succeeds and whose deferred cost can be paid. *)
Lemma step_inst c vm inst fn vm1 :
  ParseOp (sbytes (mem vm) (program vm)) (pc vm) = Ret inst -> ops c (Op inst) = Some fn ->
  fn (set_data (Data inst) (set_deferredCost 0 (set_nextPC (uint32 (pc vm + Len inst)) vm)))
    = (Ret tt, vm1) ->
  deferredCost vm1 <= runLimit vm1 ->
  step c vm = (Ret tt, set_pc (nextPC vm1) (set_runLimit (int64 (runLimit vm1 - deferredCost vm1)) vm1)).
Proof.
  intros Hp Ho Hf Hd. unfold step. rewrite Hp. cbv [mbind M_bind modify gets]. rewrite Ho.
  cbv beta iota. rewrite Hf. unfold applyCost. rewrite ltb_ge_false by done. done.
Qed.

(** The same, when it cannot be paid. *)
Lemma step_broke c vm inst fn vm1 :
  ParseOp (sbytes (mem vm) (program vm)) (pc vm) = Ret inst -> ops c (Op inst) = Some fn ->
  fn (set_data (Data inst) (set_deferredCost 0 (set_nextPC (uint32 (pc vm + Len inst)) vm)))
    = (Ret tt, vm1) ->
  runLimit vm1 < deferredCost vm1 -> step c vm = (Fail ErrRunLimitExceeded, vm1).
Proof.
  intros Hp Ho Hf Hd. unfold step. rewrite Hp. cbv [mbind M_bind modify gets]. rewrite Ho.
  cbv beta iota. rewrite Hf. unfold applyCost. by rewrite (proj2 (Z.ltb_lt _ _) Hd).
Qed.

Lemma opFalse_run vm :
  9 <= runLimit vm <= MaxInt64 ->
  opFalse vm = (Ret tt, set_dataStack (emptySlice :: dataStack vm) (set_runLimit (runLimit vm - 9) vm)).
Proof.
  intros Hr. unfold opFalse. run1. unfold pushBool. rewrite push_ret by vmlia.
  vmcbn. by replace (runLimit vm - 1 - (8 + slen emptySlice)) with (runLimit vm - 9) by vmlia.
Qed.

Lemma opPushdata_run vm b :
  10 <= runLimit vm <= MaxInt64 -> data vm = [b] ->
  opPushdata vm =
  (Ret tt, set_dataStack (Slice (length (mem vm)) 0 1 1 :: dataStack vm)
             (set_mem (mem vm ++ [[b]]) (set_runLimit (runLimit vm - 10) vm))).
Proof.
  intros Hr Hd. unfold opPushdata. run1. run1. rewrite Hd.
  erewrite bind_ret by reflexivity. vmcbn. rewrite push_ret by vmlia.
  vmcbn. by replace (runLimit vm - 1 - (8 + slen (Slice (length (mem vm)) 0 1 1)))
    with (runLimit vm - 10) by vmlia.
Qed.

Lemma opDrop_run vm s ds :
  1 <= runLimit vm -> runLimit vm + slen s <= MaxInt64 - 8 -> dataStack vm = s :: ds ->
  opDrop vm = (Ret tt, set_dataStack ds (set_runLimit (runLimit vm + 7 + slen s) vm)).
Proof.
  intros Hr Hm Hd. unfold opDrop. pose proof (Zle_0_nat (s_len s)). unfold slen in *. run1.
  unfold pop, mbind, M_bind. vmcbn. rewrite Hd. vmcbn. unfold slen.
  rewrite int64_id by (unfold_int; lia).
  by replace (runLimit vm - 1 + (8 + Z.of_nat (s_len s))) with (runLimit vm + 7 + Z.of_nat (s_len s)) by lia.
Qed.

Lemma opJump_run vm :
  1 <= runLimit vm <= MaxInt64 ->
  opJump vm = (Ret tt, set_nextPC (le_get (data vm)) (set_runLimit (runLimit vm - 1) vm)).
Proof. intros Hr. unfold opJump. by run1. Qed.

Lemma deferCost_ret n vm :
  - 2 ^ 60 <= deferredCost vm <= 2 ^ 60 -> - 2 ^ 60 <= n <= 2 ^ 60 ->
  deferCost n vm = (Ret tt, set_deferredCost (deferredCost vm + n) vm).
Proof. intros. unfold deferCost, modify. by rewrite int64_id by (unfold_int; lia). Qed.

Lemma opProgram_run vm :
  1 <= runLimit vm <= MaxInt64 -> deferredCost vm = 0 -> slen (Code (context vm)) <= 2 ^ 50 ->
  opProgram vm =
  (Ret tt, set_dataStack (Code (context vm) :: dataStack vm)
     (set_deferredCost (8 + slen (Code (context vm))) (set_runLimit (runLimit vm - 1) vm))).
Proof.
  intros Hr Hd Hc. pose proof (Zle_0_nat (s_len (Code (context vm)))). unfold opProgram. run1. run1.
  unfold push. erewrite bind_ret by (apply deferCost_ret; vmlia). vmcbn. by rewrite Hd.
Qed.

Lemma pop_ret s ds vm :
  dataStack vm = s :: ds -> - 2 ^ 60 <= deferredCost vm <= 2 ^ 60 -> slen s <= 2 ^ 60 ->
  pop true vm = (Ret s, set_deferredCost (deferredCost vm - (8 + slen s)) (set_dataStack ds vm)).
Proof.
  intros Hd ? ?. pose proof (Zle_0_nat (s_len s)). unfold pop. rewrite Hd. vmcbn.
  rewrite int64_id by vmlia. by rewrite Z.add_opp_r.
Qed.

Lemma vm_ext v w :
  context v = context w -> program v = program w -> pc v = pc w -> nextPC v = nextPC w ->
  runLimit v = runLimit w -> deferredCost v = deferredCost w ->
  expansionReserved v = expansionReserved w -> data v = data w -> depth v = depth w ->
  dataStack v = dataStack w -> altStack v = altStack w -> mem v = mem w -> v = w.
Proof. destruct v, w. simpl. by intros -> -> -> -> -> -> -> -> -> -> -> ->. Qed.

Lemma popInt64_ret s ds n vm :
  dataStack vm = s :: ds -> AsInt64 (sbytes (mem vm) s) = Ok n ->
  - 2 ^ 60 <= deferredCost vm <= 2 ^ 60 -> slen s <= 2 ^ 60 ->
  popInt64 true vm =
  (Ret n, set_deferredCost (deferredCost vm - (8 + slen s)) (set_dataStack ds vm)).
Proof.
  intros Hd Hn ? ?. unfold popInt64. erewrite bind_ret by (eapply pop_ret; done).
  erewrite bind_ret by reflexivity. vmcbn. by rewrite Hn.
Qed.

Lemma runPredicate_run run_child vm pred limit e child :
  run_child (childVM vm pred limit 0) = (Fail e, child) ->
  mem child = mem vm -> altStack child = [] -> 0 <= runLimit child <= 2 ^ 50 ->
  0 <= stackCost (dataStack child) <= 2 ^ 50 -> - 2 ^ 50 <= deferredCost vm <= 2 ^ 50 ->
  runPredicate run_child pred limit 0 vm =
  (Ret tt, set_dataStack (emptySlice :: dataStack vm)
     (set_deferredCost (deferredCost vm - runLimit child - stackCost (dataStack child) + 8) vm)).
Proof.
  intros Hrun Hmem Halt Hcr Hcs Hd. unfold runPredicate. do 2 erewrite bind_ret by reflexivity.
  change (Z.to_nat 0) with 0%nat. rewrite Hrun. cbn [fst snd]. rewrite Halt. cbn [stackCost].
  do 2 erewrite bind_ret by reflexivity.
  do 3 (erewrite bind_ret by (apply deferCost_ret; vmlia)).
  unfold pushBool, push, BoolBytes. erewrite bind_ret by (apply deferCost_ret; vmlia).
  unfold stack_push, modify. apply f_equal, vm_ext; vmcbn; try done. change (slen emptySlice) with 0. lia.
Qed.

(** [CHECKPREDICATE] when the child fails and leaves the store alone. *)
Lemma opCheckPredicate_run run_child vm s3 s2 s1 rest limit e child :
  dataStack vm = s3 :: s2 :: s1 :: rest -> deferredCost vm = 0 ->
  AsInt64 (sbytes (mem vm) s3) = Ok limit -> AsInt64 (sbytes (mem vm) s1) = Ok 0 ->
  0 < limit -> 256 + limit <= runLimit vm <= MaxInt64 ->
  slen s3 <= 9 -> slen s2 <= 9 -> slen s1 <= 9 ->
  run_child (mkVM (context vm) s2 0 0 limit 0 false [] (depth vm + 1) [] [] (mem vm)) = (Fail e, child) ->
  mem child = mem vm -> altStack child = [] -> 0 <= runLimit child <= 2 ^ 50 ->
  0 <= stackCost (dataStack child) <= 2 ^ 50 ->
  opCheckPredicate run_child vm =
  (Ret tt, set_dataStack (emptySlice :: rest)
     (set_deferredCost (- 208 - slen s3 - slen s2 - slen s1 - runLimit child
                        - stackCost (dataStack child))
        (set_runLimit (runLimit vm - 256 - limit) vm))).
Proof.
  intros Hst Hd Hl Hn Hpos Hr L3 L2 L1 Hrun Hmem Halt Hcr Hcs.
  pose proof (Zle_0_nat (s_len s1)). pose proof (Zle_0_nat (s_len s2)).
  pose proof (Zle_0_nat (s_len s3)). unfold opCheckPredicate. run1.
  erewrite bind_ret by (apply deferCost_ret; vmlia). 
  erewrite bind_ret by (eapply popInt64_ret; [done|done|vmlia|vmlia]).
  erewrite bind_ret by (eapply pop_ret; [reflexivity|vmlia|vmlia]).
  erewrite bind_ret by (eapply popInt64_ret; [reflexivity|done|vmlia|vmlia]).
  unfold require. rewrite (proj2 (Z.leb_le 0 limit)) by lia. do 2 erewrite bind_ret by reflexivity.
  rewrite (proj2 (Z.leb_le 0 _)) by (apply zlen_nonneg). erewrite bind_ret by reflexivity.
  rewrite (proj2 (Z.eqb_neq limit 0)) by lia. do 2 run1.
  erewrite runPredicate_run; [|exact Hrun|done|done|done|done|vmlia].
  apply f_equal, vm_ext; vmcbn; try done; lia.
Qed.
End Exec.
