(* ===== verification/VMCost.v ===== *)
(** * Cost accounting of the virtual machine

    Every item on the stacks is paid for out of the run limit when it is pushed
    and refunded when it is popped, in part through the deferred cost that
    [step] settles when an instruction has succeeded.  The quantity that never
    grows is therefore the run limit, minus the deferred cost, plus the cost of
    both stacks.

    [Acc] is the invariant that the machine keeps between the primitive
    operations of one instruction; the lemmas [wp_*] are the rules that carry it
    through them. *)

From Stdlib Require Import ZArith Lia.
From S2P Require Import Prelude Checked GoSlice Crypto VMCode VM VMRun.

(** ** Weakest preconditions

    [Q] after a return, [E] after an error, [fuel_ok] when the fuel of the model
    ran out; nothing is required after a panic. *)
Definition wp {A} (fuel_ok : Prop) (m : M A) (Q : A -> virtualMachine -> Prop)
    (E : virtualMachine -> Prop) (vm : virtualMachine) : Prop :=
  match m vm with
  | (Ret a, vm') => Q a vm'
  | (Fail _, vm') => E vm'
  | (Panic, _) => True
  | (OutOfFuel, _) => fuel_ok
  end.

Section Rules.
Context (F : Prop).

Lemma wp_bind {A B} (m : M A) (f : A -> M B) Q E vm :
  wp F m (fun a => wp F (f a) Q E) E vm -> wp F (m ≫= f) Q E vm.
Proof. unfold wp, mbind, M_bind. by destruct (m vm) as [[a|e| |] vm']. Qed.

Lemma wp_ret {A} (a : A) Q E vm : Q a vm -> wp F (mret a) Q E vm.
Proof. done. Qed.
Lemma wp_fail {A} e Q (E : virtualMachine -> Prop) vm : E vm -> wp F (fail (A := A) e) Q E vm.
Proof. done. Qed.
Lemma wp_panic {A} Q E vm : wp F (panic (A := A)) Q E vm.
Proof. done. Qed.
Lemma wp_gets {A} (f : virtualMachine -> A) Q E vm : Q (f vm) vm -> wp F (gets f) Q E vm.
Proof. done. Qed.
Lemma wp_contents s Q E vm :
  (forall bs, zlen bs <= slen s -> Q bs vm) -> wp F (contents s) Q E vm.
Proof.
  intros HQ. apply HQ. unfold zlen, slen, sbytes. rewrite length_take. lia.
Qed.
Lemma wp_modify f Q E vm : Q tt (f vm) -> wp F (modify f) Q E vm.
Proof. done. Qed.
Lemma wp_require (b : bool) e Q (E : virtualMachine -> Prop) vm :
  (b = true -> Q tt vm) -> E vm -> wp F (require b e) Q E vm.
Proof. unfold wp, require. destruct b; simpl; auto. Qed.
Lemma wp_checked r e Q (E : virtualMachine -> Prop) vm :
  (r.2 = true -> Q r.1 vm) -> E vm -> wp F (checked r e) Q E vm.
Proof. unfold wp, checked. destruct (r.2); simpl; auto. Qed.
Lemma wp_result {A} (r : result vmerr A) Q (E : virtualMachine -> Prop) vm :
  (forall a, r = Ok a -> Q a vm) -> E vm -> wp F (of_result r) Q E vm.
Proof. unfold wp. destruct r; simpl; auto. Qed.
Lemma wp_store {A} (f : heap -> A * heap) Q E vm :
  Q (f (mem vm)).1 (set_mem (f (mem vm)).2 vm) -> wp F (store f) Q E vm.
Proof. unfold wp, store. by destruct (f (mem vm)). Qed.
Lemma wp_mono {A} (m : M A) (Q Q' : A -> virtualMachine -> Prop) (E E' : virtualMachine -> Prop) vm :
  wp F m Q E vm -> (forall a vm', Q a vm' -> Q' a vm') -> (forall vm', E vm' -> E' vm') ->
  wp F m Q' E' vm.
Proof. unfold wp. destruct (m vm) as [[a|e| |] vm']; auto. Qed.
End Rules.

(** ** The invariant *)

Definition memCost (vm : virtualMachine) : Z := stackCost (dataStack vm) + stackCost (altStack vm).

Lemma stackCost_nonneg st : 0 <= stackCost st.
Proof. induction st; cbn [stackCost]; unfold slen; lia. Qed.

Lemma stackCost_app a b : stackCost (a ++ b) = stackCost a + stackCost b.
Proof. induction a; cbn [app stackCost]; lia. Qed.

Lemma stackCost_perm a b : a ≡ₚ b -> stackCost a = stackCost b.
Proof. induction 1; cbn [stackCost]; lia. Qed.

Lemma slen_nonneg s : 0 <= slen s.
Proof. unfold slen. lia. Qed.

(** The slices an execution context makes available to the program. *)
Definition ctx_slices (c : Context) : list slice :=
  Code c :: EntryID c :: Arguments c ++
  omap id [BlockHash c; NextConsensusProgram c; AssetID c; EntryData c; TxData c;
           AnchorID c; SpentOutputID c; TxSigHash c].

(** All slices the machine can reach lie inside their arrays. *)
Record wf_env (h : heap) (c : Context) : Prop := {
  wf_true : wf_slice h trueBytes;
  wf_ctx : Forall (wf_slice h) (ctx_slices c);
}.

(** Amounts stay far below the range of [int64]. *)
Definition BIG : Z := 1152921504606846976.

(** [Acc vm0 phi delta vm]: reached from [vm0] inside one instruction, with
    potential at most [phi] and at most [delta] of deferred cost unpaid. *)
Record Acc (vm0 : virtualMachine) (phi delta : Z) (vm : virtualMachine) : Prop := {
  acc_context : context vm = context vm0;
  acc_program : program vm = program vm0;
  acc_pc : pc vm = pc vm0;
  acc_nextPC : nextPC vm = nextPC vm0;
  acc_data : data vm = data vm0;
  acc_expansion : expansionReserved vm = expansionReserved vm0;
  acc_run : 0 <= runLimit vm;
  acc_phi : runLimit vm - deferredCost vm + memCost vm <= phi;
  acc_debt : deferredCost vm <= delta;
  acc_wf : Forall (wf_slice (mem vm)) (dataStack vm ++ altStack vm);
  acc_heap : heap_le (mem vm0) (mem vm);
}.

(** After an error, the run limit and the stacks together exceed neither the
    potential nor the unpaid deferred cost. *)
Definition errpost (vm0 : virtualMachine) (L : Z) (vm : virtualMachine) : Prop :=
  exists phi delta, Acc vm0 phi delta vm /\ phi + delta <= L.

Lemma Acc_weaken vm0 phi delta phi' delta' vm :
  Acc vm0 phi delta vm -> phi <= phi' -> delta <= delta' -> Acc vm0 phi' delta' vm.
Proof. intros [] ??. split; try done; lia. Qed.

Lemma Acc_err vm0 phi delta L vm : Acc vm0 phi delta vm -> phi + delta <= L -> errpost vm0 L vm.
Proof. intros. by exists phi, delta. Qed.

Lemma memCost_nonneg vm : 0 <= memCost vm.
Proof.
  unfold memCost. pose proof (stackCost_nonneg (dataStack vm)).
  pose proof (stackCost_nonneg (altStack vm)). lia.
Qed.

(** Replacing the stacks by stacks that cost no more. *)
Lemma Acc_stacks vm0 phi delta vm ds als :
  Acc vm0 phi delta vm ->
  stackCost ds + stackCost als <= memCost vm ->
  Forall (wf_slice (mem vm)) (ds ++ als) ->
  Acc vm0 phi delta (set_altStack als (set_dataStack ds vm)).
Proof. intros [] Hc Hf. split; try done. unfold memCost in *; simpl. lia. Qed.

Lemma Acc_dataStack vm0 phi delta vm ds :
  Acc vm0 phi delta vm -> stackCost ds <= stackCost (dataStack vm) ->
  Forall (wf_slice (mem vm)) ds ->
  Acc vm0 phi delta (set_dataStack ds vm).
Proof.
  intros [] Hc Hf. split; try done; unfold memCost in *; simpl; [lia|].
  apply Forall_app. split; [done|]. by apply Forall_app in acc_wf0 as [_ ?].
Qed.

(** The store grows. *)
Lemma Acc_mem vm0 phi delta vm h :
  Acc vm0 phi delta vm -> heap_le (mem vm) h -> Acc vm0 phi delta (set_mem h vm).
Proof.
  intros [] Hh. split; try done; simpl; [eauto using wf_slices_mono|by etrans].
Qed.

(** ** Rules of the primitive operations *)

Section Primitives.
Context `{Runtime} (F : Prop) (vm0 : virtualMachine) (phi delta : Z).
Hypothesis Hphi : phi <= BIG.
Hypothesis Hdelta : delta <= BIG.

Ltac acc_start :=
  let Ha := fresh "Ha" in intros Ha; pose proof Ha as [];
  pose proof (memCost_nonneg ltac:(match type of Ha with Acc _ _ _ ?v => exact v end)).

Lemma wp_applyCost n Q (E : virtualMachine -> Prop) vm :
  Acc vm0 phi delta vm -> 0 <= n ->
  (forall vm', Acc vm0 (phi - n) delta vm' -> n <= runLimit vm <= phi + delta ->
     runLimit vm' = runLimit vm - n -> dataStack vm' = dataStack vm ->
     altStack vm' = altStack vm -> mem vm' = mem vm -> deferredCost vm' = deferredCost vm ->
     Q tt vm') ->
  E vm -> wp F (applyCost n) Q E vm.
Proof.
  acc_start. intros Hn HQ HE. unfold wp, applyCost. destruct (Z.ltb_spec (runLimit vm) n); [done|].
  assert (int64 (runLimit vm - n) = runLimit vm - n) as Hi
    by (apply int64_id; unfold_int; unfold BIG in *; lia).
  apply HQ; try done; [|lia]. unfold set_runLimit. rewrite Hi.
  split; try done; unfold memCost in *; simpl; lia.
Qed.

Lemma wp_deferCost n Q E vm :
  Acc vm0 phi delta vm -> - 2 * BIG <= n <= 2 * BIG ->
  (forall vm', Acc vm0 (phi - n) (delta + n) vm' -> runLimit vm' = runLimit vm ->
     dataStack vm' = dataStack vm -> altStack vm' = altStack vm -> mem vm' = mem vm -> Q tt vm') ->
  wp F (deferCost n) Q E vm.
Proof.
  acc_start. intros Hn HQ. unfold wp, deferCost, modify.
  assert (int64 (deferredCost vm + n) = deferredCost vm + n) as Hi
    by (apply int64_id; unfold_int; unfold BIG in *; lia).
  apply HQ; try done. rewrite Hi. split; try done; unfold memCost in *; simpl; lia.
Qed.

Lemma wp_push s (deferred : bool) Q (E : virtualMachine -> Prop) vm :
  Acc vm0 phi delta vm -> wf_slice (mem vm) s -> slen s <= BIG ->
  (forall vm', Acc vm0 phi (if deferred then delta + (8 + slen s) else delta) vm' ->
     mem vm' = mem vm -> dataStack vm' = s :: dataStack vm -> Q tt vm') ->
  (deferred = false -> E vm) -> wp F (push s deferred) Q E vm.
Proof.
  intros Ha Hs Hl HQ HE. pose proof (slen_nonneg s). unfold push. apply wp_bind.
  destruct deferred; [eapply wp_deferCost; [done|unfold BIG in *; lia|]
                     |apply wp_applyCost; [done|lia| |by apply HE]].
  all: intros vm' Ha'; intros; apply wp_modify; apply HQ; simpl; [|done|congruence].
  all: destruct Ha'; split; try done; unfold memCost in *; simpl; try lia.
  all: apply Forall_cons; split; [congruence|done].
Qed.

Lemma wp_pop (deferred : bool) Q (E : virtualMachine -> Prop) vm :
  Acc vm0 phi delta vm ->
  (forall s vm', Acc vm0 phi (if deferred then delta - (8 + slen s) else delta) vm' ->
     wf_slice (mem vm') s -> 0 <= slen s -> 8 + slen s <= phi + delta ->
     dataStack vm = s :: dataStack vm' -> mem vm' = mem vm -> Q s vm') ->
  E vm -> wp F (pop deferred) Q E vm.
Proof.
  acc_start. intros HQ HE. unfold wp, pop. destruct (dataStack vm) as [|s rest] eqn:Es; [done|].
  pose proof (slen_nonneg s). pose proof (stackCost_nonneg rest).
  pose proof (stackCost_nonneg (altStack vm)).
  unfold memCost in *. rewrite Es in *. cbn [stackCost app] in *.
  apply Forall_cons in acc_wf0 as [Hs Hw].
  destruct deferred; apply HQ; try done; try lia; simpl;
    split; try done; simpl; unfold memCost; simpl;
    rewrite ?int64_id by (unfold_int; unfold BIG in *; lia); try lia.
Qed.

Lemma wp_top Q (E : virtualMachine -> Prop) vm :
  Acc vm0 phi delta vm ->
  (forall s rest, dataStack vm = s :: rest -> wf_slice (mem vm) s -> 0 <= slen s ->
     8 + slen s <= phi + delta -> Q s vm) ->
  E vm -> wp F top Q E vm.
Proof.
  acc_start. intros HQ HE. unfold wp, top. destruct (dataStack vm) as [|s rest] eqn:Es; [done|].
  pose proof (slen_nonneg s). pose proof (stackCost_nonneg rest).
  pose proof (stackCost_nonneg (altStack vm)).
  unfold memCost in *. rewrite Es in *. cbn [stackCost app] in *.
  apply Forall_cons in acc_wf0 as [Hs Hw]. eapply HQ; [done|done|done|lia].
Qed.

Lemma stackCost_lookup st (i : nat) s : st !! i = Some s -> 8 + slen s <= stackCost st.
Proof.
  intros Hi. apply list_elem_of_split_length in Hi as (a & b & -> & _).
  rewrite stackCost_app. cbn [stackCost]. pose proof (stackCost_nonneg a).
  pose proof (stackCost_nonneg b). lia.
Qed.

Lemma wp_item i Q E vm :
  Acc vm0 phi delta vm ->
  (forall s, dataStack vm !! i = Some s -> wf_slice (mem vm) s -> 0 <= slen s ->
     8 + slen s <= phi + delta -> Q s vm) ->
  wp F (item i) Q E vm.
Proof.
  acc_start. intros HQ. unfold wp, item. destruct (dataStack vm !! i) as [s|] eqn:Es; [|done].
  pose proof (slen_nonneg s). pose proof (stackCost_lookup _ _ _ Es).
  pose proof (stackCost_nonneg (altStack vm)). unfold memCost in *.
  apply HQ; try done; [|lia]. apply Forall_app in acc_wf0 as [Hw _].
  by eapply Forall_lookup_1 in Hw.
Qed.

Lemma wp_need n Q (E : virtualMachine -> Prop) vm :
  (n <= zlen (dataStack vm) -> Q tt vm) -> E vm -> wp F (need n) Q E vm.
Proof.
  intros HQ HE. unfold need. apply wp_bind, wp_gets, wp_require; [|done].
  intros ?%Z.leb_le. auto.
Qed.

Lemma wp_popInt64 (deferred : bool) Q (E : virtualMachine -> Prop) vm :
  Acc vm0 phi delta vm ->
  (forall n len vm', Acc vm0 phi (if deferred then delta - (8 + len) else delta) vm' ->
     0 <= len -> in_int64 n = true -> mem vm' = mem vm -> Q n vm') ->
  (forall len vm', Acc vm0 phi (if deferred then delta - (8 + len) else delta) vm' ->
     0 <= len -> E vm') ->
  E vm -> wp F (popInt64 deferred) Q E vm.
Proof.
  intros Ha HQ HE HE0. unfold popInt64. apply wp_bind. apply wp_pop; [done| |done].
  intros s vm' Ha' Hs Hl _ _ Hm. apply wp_bind, wp_gets, wp_result; [|by eapply HE].
  intros n Hn%AsInt64_range. by eapply HQ.
Qed.

Lemma Int64Bytes_spec n h :
  wf_slice h trueBytes ->
  heap_le h (Int64Bytes n h).2 /\ wf_slice (Int64Bytes n h).2 (Int64Bytes n h).1 /\
  slen (Int64Bytes n h).1 <= 8.
Proof.
  intros Ht. unfold Int64Bytes. case_match eqn:En; cbn [fst snd].
  - split; [reflexivity|]. split; [|unfold slen; simpl; lia].
    destruct Ht as (a & Ea & _ & _). exists a. simpl. split; [done|lia].
  - pose proof (zlen_int64_bytes n) as Hz. unfold zlen in Hz.
    unfold new_slice. split; [apply alloc_le|]. split; [|unfold slen; simpl; lia].
    apply reslice_wf; [cbn [alloc fst s_len]; rewrite length_le_put; lia|].
    by apply alloc_wf.
Qed.

Lemma wp_pushInt64 n (deferred : bool) Q (E : virtualMachine -> Prop) vm :
  Acc vm0 phi delta vm -> wf_slice (mem vm0) trueBytes ->
  (forall vm', Acc vm0 phi (if deferred then delta + 16 else delta) vm' -> Q tt vm') ->
  (forall vm', deferred = false -> Acc vm0 phi delta vm' -> E vm') ->
  wp F (pushInt64 n deferred) Q E vm.
Proof.
  intros Ha Ht HQ HE. unfold pushInt64. apply wp_bind, wp_store.
  assert (wf_slice (mem vm) trueBytes) as Ht' by (destruct Ha; eauto using wf_slice_mono).
  destruct (Int64Bytes_spec n (mem vm) Ht') as (H1 & H2 & H3).
  assert (Ha' := Acc_mem _ _ _ _ _ Ha H1).
  apply wp_push; [done|done|unfold BIG in *; lia| |intros; by apply HE].
  intros vm' Ha'' _ _. apply HQ. eapply Acc_weaken; [done|lia|]. destruct deferred; lia.
Qed.

Lemma wf_BoolBytes h b : wf_slice h trueBytes -> wf_slice h (BoolBytes b).
Proof.
  intros (a & Ea & H1 & H2). exists a. unfold BoolBytes. destruct b; simpl in *.
  - done.
  - split; [done|lia].
Qed.

Lemma wp_pushBool b (deferred : bool) Q (E : virtualMachine -> Prop) vm :
  Acc vm0 phi delta vm -> wf_slice (mem vm0) trueBytes ->
  (forall vm', Acc vm0 phi (if deferred then delta + 9 else delta) vm' -> Q tt vm') ->
  (deferred = false -> E vm) ->
  wp F (pushBool b deferred) Q E vm.
Proof.
  intros Ha Ht HQ HE. unfold pushBool.
  assert (slen (BoolBytes b) <= 1) by (destruct b; unfold slen; simpl; lia).
  apply wp_push; [done| |unfold BIG in *; lia| |done].
  - apply wf_BoolBytes. destruct Ha; eauto using wf_slice_mono.
  - intros vm' Ha' _ _. apply HQ. eapply Acc_weaken; [done|lia|]. destruct deferred; lia.
Qed.

(** Allocating a copy, and appending. *)
Lemma wp_new bs Q E vm :
  Acc vm0 phi delta vm ->
  (forall s vm', Acc vm0 phi delta vm' -> wf_slice (mem vm') s -> slen s = zlen bs ->
     dataStack vm' = dataStack vm -> heap_le (mem vm) (mem vm') -> Q s vm') ->
  wp F (store (fun h => new_slice h bs)) Q E vm.
Proof.
  intros Ha HQ. apply wp_store, HQ; [|apply alloc_wf; lia|done|done|apply alloc_le].
  apply Acc_mem; [done|apply alloc_le].
Qed.

Lemma wp_append s bs Q E vm :
  Acc vm0 phi delta vm -> wf_slice (mem vm) s ->
  (forall r vm', Acc vm0 phi delta vm' -> wf_slice (mem vm') r -> slen r = slen s + zlen bs ->
     dataStack vm' = dataStack vm -> heap_le (mem vm) (mem vm') -> Q r vm') ->
  wp F (store (fun h => append_slice h s bs)) Q E vm.
Proof.
  intros Ha Hs HQ. apply wp_store, HQ; [|by apply append_wf| |done|by apply append_le].
  - apply Acc_mem; [done|by apply append_le].
  - unfold slen, zlen, append_slice. case_match; simpl; [lia|].
    rewrite length_app, length_sbytes by done. lia.
Qed.
End Primitives.

(** ** Accounting of one instruction *)

(** The slices that an introspection opcode pushes before it has paid for them. *)
Definition introspected (c : Context) : list slice :=
  Code c :: EntryID c ::
  omap id [NextConsensusProgram c; AssetID c; EntryData c; TxData c; AnchorID c; SpentOutputID c].

Definition LIMIT : Z := 288230376151711744.

(** [B] bounds the cost of pushing one of them. *)
Record small (B : Z) (c : Context) : Prop := {
  small_B : 16 <= B <= LIMIT;
  small_introspected : Forall (fun s => 8 + slen s <= B) (introspected c);
  small_slices : Forall (fun s => slen s <= LIMIT) (ctx_slices c);
}.

(** [op_at F B phi c op]: started with potential [phi] and nothing deferred, [op]
    lowers the potential by at least [c] when it returns and leaves at most [B]
    deferred; when it returns an error, the run limit and the stacks exceed
    [phi] by at most [B].  An instruction that changes the next program counter
    costs at least 1. *)
Definition op_at (F : Prop) (B phi c : Z) (op : M unit) : Prop :=
  forall vm,
    wf_env (mem vm) (context vm) -> small B (context vm) ->
    zlen (data vm) <= LIMIT -> Acc vm phi 0 vm -> phi <= LIMIT ->
    wp F op
      (fun _ vm' => exists vm1, Acc vm (phi - c) B vm1 /\
         (vm' = vm1 \/ exists p, 1 <= c /\ 0 <= p /\ vm' = set_nextPC p vm1))
      (errpost vm (phi + B)) vm.

Definition op_ok (F : Prop) (B c : Z) (op : M unit) : Prop := forall phi, op_at F B phi c op.

(** Arithmetic side conditions. *)
Ltac acc_lia := unfold BIG, LIMIT in *; lia.

(** Close a goal about the final state, after a return or after an error. *)
Ltac acc_done :=
  match goal with
  | Ha : Acc ?v0 _ _ ?vm |- errpost ?v0 _ ?vm => apply (Acc_err _ _ _ _ _ Ha); acc_lia
  | Ha : Acc ?v0 _ _ ?vm |- exists vm1, Acc ?v0 _ _ vm1 /\ (?vm = vm1 \/ _) =>
      exists vm; split; [eapply Acc_weaken; [exact Ha|acc_lia|acc_lia]|by left]
  end.

Lemma slen_reslice s lo hi :
  slen (reslice s lo hi) = Z.max 0 (Z.of_nat hi - Z.of_nat lo).
Proof. unfold slen. simpl. lia. Qed.

Lemma AddInt64_val a b :
  in_int64 a = true -> in_int64 b = true -> (AddInt64 a b).2 = true ->
  (AddInt64 a b).1 = a + b.
Proof.
  intros Ha Hb. rewrite (add_exact (CheckedInt := checked_int64)) by done.
  unfold exact. by case_match.
Qed.

(** A slice that was in range stays in range. *)
Ltac wf_tac :=
  solve [eauto with chain | congruence
        | repeat (eapply wf_slice_mono; [eassumption|]); first [eassumption|congruence]
        | eapply wf_slice_mono; [eapply acc_heap; eassumption|]; eauto with chain
        | apply reslice_wf; [unfold slen in *; lia|congruence]
        | apply (wf_BoolBytes _ false); eapply wf_slice_mono;
          [eapply acc_heap; eassumption|eassumption]].

(** One step of symbolic execution. *)
Ltac vm_step :=
  match goal with
  | |- wp _ (mbind _ _) _ _ _ => apply wp_bind
  | |- wp _ (mret _) _ _ _ => apply wp_ret
  | |- wp _ (fail _) _ _ _ => apply wp_fail
  | |- wp _ panic _ _ _ => apply wp_panic
  | |- wp _ (gets _) _ _ _ => apply wp_gets; cbv beta
  | |- wp _ (contents _) _ _ _ => apply wp_contents; intros ? ?
  | |- wp _ (require _ _) _ _ _ =>
      apply wp_require; [let E := fresh "Hreq" in intros E; zbool|]
  | |- wp _ (checked (AddInt64 ?a ?b) _) _ _ _ =>
      apply wp_checked; [let E := fresh "Hadd" in intros E; apply AddInt64_val in E; [|done..]|]
  | |- wp _ (checked _ _) _ _ _ => apply wp_checked; [intros ?|]
  | |- wp _ (of_result _) _ _ _ => apply wp_result; [intros ? ?|]
  | |- wp _ (need _) _ _ _ => apply wp_need; [intros ?|]
  | Ha : Acc ?v0 ?phi ?delta ?vm |- wp ?F (applyCost ?n) _ _ ?vm =>
      apply (wp_applyCost F v0 phi delta ltac:(acc_lia) ltac:(acc_lia) n _ _ vm Ha);
      [try acc_lia|intros ? ? ? ? ? ? ? ?|]
  | Ha : Acc ?v0 ?phi ?delta ?vm |- wp ?F (deferCost ?n) _ _ ?vm =>
      apply (wp_deferCost F v0 phi delta ltac:(acc_lia) ltac:(acc_lia) n _ _ vm Ha);
      [try acc_lia|intros ? ? ? ? ? ?]
  | Ha : Acc ?v0 ?phi ?delta ?vm |- wp ?F (pop ?d) _ _ ?vm =>
      apply (wp_pop F v0 phi delta ltac:(acc_lia) ltac:(acc_lia) d _ _ vm Ha);
      [intros ? ? ? ? ? ? ? ?|]
  | Ha : Acc ?v0 ?phi ?delta ?vm |- wp ?F (popInt64 ?d) _ _ ?vm =>
      apply (wp_popInt64 F v0 phi delta ltac:(acc_lia) ltac:(acc_lia) d _ _ vm Ha);
      [intros ? ? ? ? ? ? ?|intros ? ? ? ?|]
  | Ha : Acc ?v0 ?phi ?delta ?vm |- wp ?F (pushInt64 ?n ?d) _ _ ?vm =>
      apply (wp_pushInt64 F v0 phi delta ltac:(acc_lia) ltac:(acc_lia) n d _ _ vm Ha);
      [by auto with chain|intros ? ?|intros ? ? ?; try discriminate]
  | Ha : Acc ?v0 ?phi ?delta ?vm |- wp ?F (pushBool ?b ?d) _ _ ?vm =>
      apply (wp_pushBool F v0 phi delta ltac:(acc_lia) ltac:(acc_lia) b d _ _ vm Ha);
      [by auto with chain|intros ? ?|intros; try discriminate]
  | Ha : Acc ?v0 ?phi ?delta ?vm |- wp ?F (push ?s ?d) _ _ ?vm =>
      try match s with reslice ?x ?lo ?hi => pose proof (slen_reslice x lo hi) end;
      apply (wp_push F v0 phi delta ltac:(acc_lia) ltac:(acc_lia) s d _ _ vm Ha);
      [try wf_tac|try acc_lia|intros ? ? ? ?|intros; try discriminate]
  | Ha : Acc ?v0 ?phi ?delta ?vm |- wp ?F top _ _ ?vm =>
      apply (wp_top F v0 phi delta _ _ vm Ha); [intros ? ? ? ? ? ?|]
  | Ha : Acc ?v0 ?phi ?delta ?vm |- wp ?F (item ?i) _ _ ?vm =>
      apply (wp_item F v0 phi delta i _ _ vm Ha); [intros ? ? ? ? ?]
  | Ha : Acc ?v0 ?phi ?delta ?vm |- wp ?F (store (fun h => new_slice h ?bs)) _ _ ?vm =>
      apply (wp_new F v0 phi delta bs _ _ vm Ha); [intros ? ? ? ? ? ? ?]
  | Ha : Acc ?v0 ?phi ?delta ?vm |- wp ?F (store (fun h => append_slice h ?s ?bs)) _ _ ?vm =>
      apply (wp_append F v0 phi delta s bs _ _ vm Ha); [wf_tac|intros ? ? ? ? ? ? ?]
  | |- wp _ (if ?b then _ else _) _ _ _ => destruct b eqn:?
  | |- wp _ (match ?x with _ => _ end) _ _ _ => destruct x eqn:?
  end.

Ltac vm_go := repeat (vm_step; try acc_done).

Ltac op_at_start :=
  intros vm [Htrue Hctx] [HB Hintro Hslices] Hdata Ha Hphi;
  pose proof HB; pose proof (acc_run _ _ _ _ Ha).

Ltac op_start := intros phi; op_at_start.
