(* ===== verification/VMOpCost.v ===== *)
(** * Every opcode respects the accounting invariant

    One lemma [op*_ok] per opcode of the table: its minimal cost, and that it
    keeps the invariant of [VMCost] on every branch, errors included. *)

From Stdlib Require Import ZArith Lia.
From S2P Require Import Prelude Checked GoSlice Crypto VMCode VM VMRun VMCost.

(** Lengths of computed byte strings. *)

Lemma zlen_PushdataBytes inp : zlen (PushdataBytes inp) <= 5 + zlen inp.
Proof.
  unfold PushdataBytes. repeat case_match; rewrite ?zlen_cons, ?zlen_app;
    rewrite ?zlen_nil; pose proof (zlen_nonneg inp); try lia;
    unfold zlen; rewrite length_le_put; lia.
Qed.

Lemma length_zip_pad f a b : length (zip_pad f a b) = Nat.max (length a) (length b).
Proof.
  revert b. induction a as [|x a IH]; intros [|y b]; simpl; try done.
  - f_equal. induction b; simpl; auto.
  - rewrite IH. simpl. lia.
  - rewrite IH. done.
Qed.

Section Ops.
Context `{Runtime} `{Crypto} (F : Prop) (B : Z).

Lemma opFalse_ok : op_ok F B 1 opFalse.
Proof. op_start. unfold opFalse. vm_go. Qed.

Lemma opPushdata_ok : op_ok F B 1 opPushdata.
Proof.
  op_start. unfold opPushdata. vm_go.
  match goal with Hd : slen _ = zlen (data ?v), Hv : Acc _ _ _ ?v |- _ =>
    rewrite (acc_data _ _ _ _ Hv) in Hd end. acc_lia.
Qed.

Lemma op1Negate_ok : op_ok F B 1 op1Negate.
Proof. op_start. unfold op1Negate. vm_go. Qed.

Lemma opNop_ok : op_ok F B 1 opNop.
Proof. op_start. unfold opNop. vm_go. Qed.

Lemma opVerify_ok : op_ok F B 1 opVerify.
Proof. op_start. unfold opVerify. vm_go. Qed.

Lemma opFail_ok : op_ok F B 1 opFail.
Proof. op_start. unfold opFail. vm_go. Qed.

(** Setting the next program counter at the end of an instruction. *)
Lemma jump_done vm phi c delta vm1 Q :
  Acc vm (phi - 1) delta vm1 -> delta <= B -> 1 <= c <= 1 ->
  wp F (modify (fun v => set_nextPC (le_get (data v)) v))
    (fun _ vm' => exists vm1, Acc vm (phi - c) B vm1 /\
       (vm' = vm1 \/ exists p, 1 <= c /\ 0 <= p /\ vm' = set_nextPC p vm1)) Q vm1.
Proof.
  intros Ha Hd Hc. apply wp_modify. exists vm1. split; [eapply Acc_weaken; [done|lia..]|].
  right. eexists. split; [lia|]. split; [|done]. pose proof (le_get_bound (data vm1)). lia.
Qed.

Lemma opJump_ok : op_ok F B 1 opJump.
Proof. op_start. unfold opJump. vm_go. eapply jump_done; [done|acc_lia..]. Qed.

Lemma opJumpIf_ok : op_ok F B 1 opJumpIf.
Proof. op_start. unfold opJumpIf. vm_go. eapply jump_done; [done|acc_lia..]. Qed.

(** Rearranging the stacks at the end of an instruction. *)
Lemma stacks_done vm phi phi' c delta f ds als vm1 E :
  Acc vm phi' delta vm1 -> f vm1 = set_altStack als (set_dataStack ds vm1) ->
  phi' <= phi -> delta <= B ->
  stackCost ds + stackCost als <= memCost vm1 -> Forall (wf_slice (mem vm1)) (ds ++ als) ->
  wp F (modify f)
    (fun _ vm' => exists vm1, Acc vm phi B vm1 /\
       (vm' = vm1 \/ exists p, 1 <= c /\ 0 <= p /\ vm' = set_nextPC p vm1)) E vm1.
Proof.
  intros Ha Hf Hp Hd Hs Hw. apply wp_modify.
  exists (set_altStack als (set_dataStack ds vm1)). split; [|by left].
  eapply Acc_weaken; [by apply Acc_stacks|lia..].
Qed.

(** Finish with [stacks_done]; what is left is the cost of the new stacks and
    that their items are well-formed. *)
Ltac stacks_done :=
  eapply stacks_done; [eassumption|reflexivity|acc_lia|acc_lia|
    unfold memCost; cbn [dataStack altStack]|].

Lemma opToAltStack_ok : op_ok F B 2 opToAltStack.
Proof.
  op_start. unfold opToAltStack. vm_go.
  match goal with Hv : Acc _ _ _ ?v |- wp _ (modify _) _ _ ?v => pose proof (acc_wf _ _ _ _ Hv) end.
  destruct (dataStack vm') as [|s0 rest] eqn:Es; [done|]. simplify_eq/=.
  stacks_done; rewrite Es; cbn [stackCost drop]; rewrite drop_0; [lia|].
  rewrite <- Permutation_middle. done.
Qed.

Lemma opFromAltStack_ok : op_ok F B 2 opFromAltStack.
Proof.
  op_start. unfold opFromAltStack. vm_go.
  match goal with Hv : Acc _ _ _ ?v |- wp _ (modify _) _ _ ?v => pose proof (acc_wf _ _ _ _ Hv) end.
  match goal with E : altStack _ = _ |- _ => rename E into Es; rewrite Es in * end.
  stacks_done; rewrite ?Es; cbn [stackCost app]; [lia|].
  by rewrite Permutation_middle.
Qed.

Lemma op2Drop_ok : op_ok F B 2 op2Drop.
Proof. op_start. unfold op2Drop. vm_go. Qed.

(** The loop shared by the [DUP] family and [2OVER]. *)
Lemma push_items_ok k j vm phi c vm1 :
  Acc vm (phi - c) 0 vm1 -> 0 <= c -> phi <= LIMIT -> 16 <= B <= LIMIT ->
  wp F (push_items k j)
    (fun _ vm' => exists vm1, Acc vm (phi - c) B vm1 /\
         (vm' = vm1 \/ exists p, 1 <= c /\ 0 <= p /\ vm' = set_nextPC p vm1))
    (errpost vm (phi + B)) vm1.
Proof.
  intros Ha Hc Hp HB. revert vm1 Ha. induction k as [|k IH]; intros vm1 Ha; cbn [push_items].
  - vm_go.
  - vm_go. by apply IH.
Qed.

Lemma nDup_ok n : (1 <= n)%nat -> op_ok F B (Z.of_nat n) (nDup n).
Proof.
  intros Hn. op_start. unfold nDup. vm_go. apply push_items_ok; [done|acc_lia..].
Qed.

Lemma op2Over_ok : op_ok F B 2 op2Over.
Proof. op_start. unfold op2Over. vm_go. apply push_items_ok; [done|acc_lia..]. Qed.

(** Close the two goals of [stacks_done] when the new stack is a permutation of
    the old one. *)
Ltac by_perm Es :=
  match goal with Hv : Acc _ _ _ ?v |- wp _ (modify _) _ _ ?v => pose proof (acc_wf _ _ _ _ Hv) as Hwf end;
  stacks_done; rewrite Es in *; cbn [stackCost app] in *; [lia|];
  rewrite ?Forall_cons in *; tauto.

Lemma op2Rot_ok : op_ok F B 2 op2Rot.
Proof. op_start. unfold op2Rot. vm_go. by_perm Heql. Qed.

Lemma op2Swap_ok : op_ok F B 2 op2Swap.
Proof. op_start. unfold op2Swap. vm_go. by_perm Heql. Qed.

Lemma opSwap_ok : op_ok F B 1 opSwap.
Proof. op_start. unfold opSwap. vm_go. by_perm Heql. Qed.

Lemma opIfDup_ok : op_ok F B 1 opIfDup.
Proof. op_start. unfold opIfDup. vm_go. Qed.

Lemma opDepth_ok : op_ok F B 1 opDepth.
Proof. op_start. unfold opDepth. vm_go. Qed.

Lemma opDrop_ok : op_ok F B 1 opDrop.
Proof. op_start. unfold opDrop. vm_go. Qed.

Lemma opOver_ok : op_ok F B 1 opOver.
Proof. op_start. unfold opOver. vm_go. Qed.

Lemma opPick_ok : op_ok F B 2 opPick.
Proof. op_start. unfold opPick. vm_go. Qed.

Lemma opNip_ok : op_ok F B 1 opNip.
Proof.
  op_start. unfold opNip. vm_go. apply wp_modify.
  match goal with
  | Hv : Acc _ ?p ?d ?v, E : dataStack ?v = ?s :: ?rest |- wp _ _ _ _ (set_dataStack _ ?v) =>
      pose proof (acc_wf _ _ _ _ Hv) as Hwf; pose proof (acc_phi _ _ _ _ Hv) as Hp;
      unfold memCost in Hp; rewrite E in *; cbn [stackCost app drop] in *; rewrite drop_0;
      assert (Acc vm (p - (8 + slen s)) d (set_dataStack rest v)) as Hn
        by (destruct Hv; split; try done; unfold memCost; simpl; [lia|];
            by apply Forall_cons in Hwf as [_ ?])
  end.
  apply wp_bind.
  match goal with
  | Hv : Acc _ ?p ?d (set_dataStack ?r ?v) |- _ =>
      apply (wp_pop F vm p d ltac:(acc_lia) ltac:(acc_lia) false _ _ _ Hv)
  end.
  - intros s1 vm2 Ha2 Hs1 Hl1 Hb1 Hd2 Hm2. apply wp_modify. eexists. split; [|by left].
    destruct Ha2. split; try done; unfold memCost in *; cbn [dataStack altStack stackCost
      set_dataStack runLimit deferredCost mem app]; try lia.
    apply Forall_cons. split; [|done]. simpl in Hm2. rewrite Hm2. done.
  - acc_done.
Qed.

Lemma rot_ok n vm phi c vm1 :
  Acc vm (phi - c) 0 vm1 -> 0 <= c -> phi <= LIMIT -> 16 <= B <= LIMIT ->
  wp F (rot n)
    (fun _ vm' => exists vm1, Acc vm (phi - c) B vm1 /\
         (vm' = vm1 \/ exists p, 1 <= c /\ 0 <= p /\ vm' = set_nextPC p vm1))
    (errpost vm (phi + B)) vm1.
Proof.
  intros Ha Hc Hp HB. unfold rot. vm_go.
  match goal with E : dataStack vm1 !! _ = Some _ |- _ => rename E into Es end.
  set (i := Z.to_nat (n - 1)) in *.
  assert (dataStack vm1 ≡ₚ s :: take i (dataStack vm1) ++ drop (S i) (dataStack vm1)) as Hperm
    by (rewrite Permutation_middle; rewrite <- (take_drop_middle _ _ _ Es) at 1; done).
  stacks_done.
  - rewrite (stackCost_perm _ _ Hperm) at 1. lia.
  - pose proof (acc_wf _ _ _ _ Ha) as Hw. by rewrite Hperm in Hw.
Qed.

Lemma opRoll_ok : op_ok F B 2 opRoll.
Proof. op_start. unfold opRoll. vm_go. apply rot_ok; [done|acc_lia..]. Qed.

Lemma opRot_ok : op_ok F B 2 opRot.
Proof. op_start. unfold opRot. vm_go. apply rot_ok; [done|acc_lia..]. Qed.

Lemma opTuck_ok : op_ok F B 1 opTuck.
Proof.
  op_start. unfold opTuck. vm_go. apply wp_modify.
  destruct (dataStack vm') as [|x0 [|x1 rest]] eqn:Es; [done..|]. simplify_eq/=.
  match goal with Hv : Acc vm ?p ?d vm' |- _ =>
    pose proof (acc_wf _ _ _ _ Hv) as Hwf; pose proof (acc_phi _ _ _ _ Hv) as Hp;
    unfold memCost in Hp; rewrite Es in *; cbn [stackCost app drop] in *; rewrite drop_0;
    assert (Acc vm (p - (8 + slen s + (8 + slen s0))) d (set_dataStack rest vm')) as Hn
      by (destruct Hv; split; try done; unfold memCost; simpl; [lia|];
          by rewrite !Forall_cons in Hwf; destruct Hwf as (_ & _ & ?))
  end.
  vm_step. vm_step; [|acc_done].
  match goal with Hv : Acc _ _ _ ?v, Hm : mem ?v = _ |- wp _ _ _ _ ?v => rename Hv into Ha2 end.
  apply wp_modify. eexists. split; [|by left].
  destruct Ha2. split; try done; unfold memCost in *; cbn [dataStack altStack stackCost
      set_dataStack runLimit deferredCost mem app] in *; try acc_lia.
  rewrite !Forall_cons in *. simpl in *. split_and!; congruence || done.
Qed.
(** *** [splice.go] *)

Lemma opCat_ok : op_ok F B 4 opCat.
Proof. op_start. unfold opCat. vm_go. Qed.

Lemma opSubstr_ok : op_ok F B 4 opSubstr.
Proof. op_start. unfold opSubstr. vm_go. Qed.

Lemma opLeft_ok : op_ok F B 4 opLeft.
Proof. op_start. unfold opLeft. vm_go. Qed.

Lemma opRight_ok : op_ok F B 4 opRight.
Proof.
  op_start. unfold opRight. vm_go.
  all: change (Z.of_nat (s_len s)) with (slen s) in *; try acc_lia; acc_done.
Qed.

Lemma opSize_ok : op_ok F B 1 opSize.
Proof. op_start. unfold opSize. vm_go. Qed.

Lemma opCatpushdata_ok : op_ok F B 4 opCatpushdata.
Proof.
  op_start. unfold opCatpushdata. vm_go.
  all: pose proof (zlen_PushdataBytes bs); try acc_lia; acc_done.
Qed.

(** *** [bitwise.go] *)

Lemma opInvert_ok : op_ok F B 1 opInvert.
Proof.
  op_start. unfold opInvert. vm_go.
  match goal with Hv : Acc _ _ _ ?v |- wp _ (modify _) _ _ ?v =>
    pose proof (acc_wf _ _ _ _ Hv) as Hwf; assert (Es : dataStack v = s :: rest) by congruence end.
  rewrite Es in Hwf. cbn [app] in Hwf. apply Forall_cons in Hwf as [_ Hwf].
  assert (zlen (map byte_not bs) = zlen bs) by (unfold zlen; by rewrite length_map).
  stacks_done; rewrite Es; cbn [stackCost drop app]; rewrite drop_0; [acc_lia|].
  by apply Forall_cons.
Qed.

Lemma opAnd_ok : op_ok F B 1 opAnd.
Proof.
  op_start. unfold opAnd. vm_go.
  all: assert (zlen (zip_with (byte_op Z.land) bs bs0) <= zlen bs)
    by (unfold zlen; rewrite length_zip_with; lia); try acc_lia; acc_done.
Qed.

Lemma doOr_ok xor : op_ok F B 1 (doOr xor).
Proof.
  op_start. unfold doOr. vm_go.
  all: pose proof (length_zip_pad (byte_op (if xor then Z.lxor else Z.lor)) bs bs0);
    unfold zlen in *; try acc_lia; acc_done.
Qed.

Lemma opEqual_ok : op_ok F B 1 opEqual.
Proof. op_start. unfold opEqual, doEqual. vm_go. Qed.

Lemma opEqualVerify_ok : op_ok F B 1 opEqualVerify.
Proof. op_start. unfold opEqualVerify, doEqual. vm_go. Qed.

(** *** [numeric.go] *)

Lemma op1Add_ok : op_ok F B 2 op1Add.
Proof. op_start. unfold op1Add. vm_go. Qed.

Lemma op1Sub_ok : op_ok F B 2 op1Sub.
Proof. op_start. unfold op1Sub. vm_go. Qed.

Lemma op2Mul_ok : op_ok F B 2 op2Mul.
Proof. op_start. unfold op2Mul. vm_go. Qed.

Lemma op2Div_ok : op_ok F B 2 op2Div.
Proof. op_start. unfold op2Div. vm_go. Qed.

Lemma opNegate_ok : op_ok F B 2 opNegate.
Proof. op_start. unfold opNegate. vm_go. Qed.

Lemma opAbs_ok : op_ok F B 2 opAbs.
Proof. op_start. unfold opAbs. vm_go. Qed.

Lemma opNot_ok : op_ok F B 2 opNot.
Proof. op_start. unfold opNot. vm_go. Qed.

Lemma op0NotEqual_ok : op_ok F B 2 op0NotEqual.
Proof. op_start. unfold op0NotEqual. vm_go. Qed.

Lemma opAdd_ok : op_ok F B 2 opAdd.
Proof. op_start. unfold opAdd. vm_go. Qed.

Lemma opSub_ok : op_ok F B 2 opSub.
Proof. op_start. unfold opSub. vm_go. Qed.

Lemma opMul_ok : op_ok F B 8 opMul.
Proof. op_start. unfold opMul. vm_go. Qed.

Lemma opDiv_ok : op_ok F B 8 opDiv.
Proof. op_start. unfold opDiv. vm_go. Qed.

Lemma opMod_ok : op_ok F B 8 opMod.
Proof. op_start. unfold opMod. vm_go. Qed.

Lemma opLshift_ok : op_ok F B 8 opLshift.
Proof. op_start. unfold opLshift. vm_go. Qed.

Lemma opRshift_ok : op_ok F B 8 opRshift.
Proof. op_start. unfold opRshift. vm_go. Qed.

Lemma opBoolAnd_ok : op_ok F B 2 opBoolAnd.
Proof. op_start. unfold opBoolAnd. vm_go. Qed.

Lemma opBoolOr_ok : op_ok F B 2 opBoolOr.
Proof. op_start. unfold opBoolOr. vm_go. Qed.

Lemma doNumCompare_ok op : op_ok F B 2 (doNumCompare op).
Proof. op_start. unfold doNumCompare. vm_go. Qed.

Lemma opNumEqualVerify_ok : op_ok F B 2 opNumEqualVerify.
Proof. op_start. unfold opNumEqualVerify. vm_go. Qed.

Lemma opMin_ok : op_ok F B 2 opMin.
Proof. op_start. unfold opMin. vm_go. Qed.

Lemma opMax_ok : op_ok F B 2 opMax.
Proof. op_start. unfold opMax. vm_go. Qed.

Lemma opWithin_ok : op_ok F B 4 opWithin.
Proof. op_start. unfold opWithin. vm_go. Qed.

(** *** [crypto.go] *)

(** The digests must be shorter than the bound on deferred costs. *)
Lemma doHash_ok sum : (forall bs, zlen (sum bs) <= LIMIT) -> op_ok F B 64 (doHash sum).
Proof.
  intros Hs. op_start. unfold doHash. vm_go.
  specialize (Hs bs). change (slen emptySlice) with 0 in *. acc_lia.
Qed.

Lemma opCheckSig_ok : op_ok F B 1024 opCheckSig.
Proof. op_start. unfold opCheckSig. vm_go. Qed.

(** Popping several items can only lower the deferred cost. *)
Lemma wp_popN n vm phi delta vm1 Q (E : virtualMachine -> Prop) :
  phi <= BIG -> delta <= BIG -> Acc vm phi delta vm1 ->
  (forall l vm', Acc vm phi delta vm' -> Q l vm') ->
  (forall vm', Acc vm phi delta vm' -> E vm') ->
  wp F (popN n) Q E vm1.
Proof.
  intros Hp Hd. revert vm1 Q. induction n as [|n IH]; intros vm1 Q Ha HQ HE; cbn [popN].
  - apply wp_ret. by apply HQ.
  - vm_step. apply (wp_pop F vm phi delta Hp Hd true _ _ _ Ha); [|by apply HE].
    intros s vm' Ha' _ Hl _ _ _. vm_step. apply IH; [eapply Acc_weaken; [done|lia..]| |done].
    intros l vm2 Ha2. apply wp_ret. by apply HQ.
Qed.

Ltac popN_step :=
  match goal with
  | Ha : Acc ?v0 ?p ?d ?v |- wp _ (popN ?n) _ _ ?v =>
      apply (wp_popN n v0 p d v); [acc_lia|acc_lia|exact Ha|intros ? ? ?|intros ? ?]
  end.

Lemma MulInt64_val a b :
  in_int64 a = true -> in_int64 b = true -> (MulInt64 a b).2 = true -> (MulInt64 a b).1 = a * b.
Proof.
  intros Ha Hb. rewrite (mul_exact (CheckedInt := checked_int64)) by done.
  unfold exact. by case_match.
Qed.

(** A multisignature check costs 1024 per public key, so nothing for none. *)
Lemma opCheckMultiSig_ok : op_ok F B 0 opCheckMultiSig.
Proof.
  op_start. unfold opCheckMultiSig. vm_step. vm_step; try acc_done.
  destruct (MulInt64 n 1024) as [pubCost ok] eqn:Em.
  vm_step. vm_step; [|acc_done].
  assert (pubCost = n * 1024) as ->.
  { pose proof (MulInt64_val n 1024 ltac:(done) ltac:(done)) as Hm. rewrite Em in Hm.
    apply Hm. by destruct ok. }
  repeat first [popN_step|vm_step]; try acc_done.
Qed.

(** *** Fields of the context *)

Lemma pushField_ok vm phi c field (deferred : bool) vm1 :
  wf_env (mem vm) (context vm) -> small B (context vm) ->
  Acc vm (phi - c) 0 vm1 -> 0 <= c -> phi <= LIMIT ->
  (forall s, field (context vm) = Some s -> s ∈ ctx_slices (context vm)) ->
  (forall s, field (context vm) = Some s -> deferred = true -> s ∈ introspected (context vm)) ->
  wp F (pushField field deferred)
    (fun _ vm' => exists vm1, Acc vm (phi - c) B vm1 /\
         (vm' = vm1 \/ exists p, 1 <= c /\ 0 <= p /\ vm' = set_nextPC p vm1))
    (errpost vm (phi + B)) vm1.
Proof.
  intros [Ht Hc] [HB Hi Hs] Ha Hc0 Hp Hin Hin'. unfold pushField.
  vm_step. vm_step. rewrite (acc_context _ _ _ _ Ha).
  destruct (field (context vm)) as [s|]; [|vm_step; acc_done].
  pose proof (proj1 (Forall_forall _ _) Hc s (Hin s eq_refl)) as Hw.
  pose proof (proj1 (Forall_forall _ _) Hs s (Hin s eq_refl)) as Hl. simpl in Hl.
  pose proof (slen_nonneg s).
  apply (wp_push F vm (phi - c) 0 ltac:(acc_lia) ltac:(acc_lia) s deferred _ _ vm1 Ha).
  - eapply wf_slice_mono; [eapply acc_heap; exact Ha|done].
  - acc_lia.
  - intros vm' Ha' _ _. exists vm'. split; [|by left].
    eapply Acc_weaken; [done|lia|]. destruct deferred; [|acc_lia].
    pose proof (proj1 (Forall_forall _ _) Hi s (Hin' s eq_refl eq_refl)). simpl in *. lia.
  - intros _. acc_done.
Qed.

Lemma pushIntField_ok vm phi c field vm1 :
  wf_env (mem vm) (context vm) -> small B (context vm) ->
  Acc vm (phi - c) 0 vm1 -> 0 <= c -> phi <= LIMIT ->
  wp F (pushIntField field)
    (fun _ vm' => exists vm1, Acc vm (phi - c) B vm1 /\
         (vm' = vm1 \/ exists p, 1 <= c /\ 0 <= p /\ vm' = set_nextPC p vm1))
    (errpost vm (phi + B)) vm1.
Proof.
  intros [Htrue Hc] [HB Hi Hs] Ha Hc0 Hp. unfold pushIntField. vm_go.
Qed.

(** A present field is one of the slices of the context. *)
Ltac in_ctx :=
  let s := fresh "s" in let E := fresh "E" in intros s E;
  first [ discriminate 1
        | intros; unfold ctx_slices, introspected; rewrite ?elem_of_cons, ?elem_of_app;
          repeat match goal with |- _ \/ _ => right end;
          apply list_elem_of_omap; eexists; split; [|exact E]; rewrite !elem_of_cons; tauto ].

Ltac field_start :=
  intros phi vm Hwf Hsmall Hdata Ha Hphi; pose proof (small_B _ _ Hsmall);
  pose proof (acc_run _ _ _ _ Ha).

(** The opcodes that push a field. *)
Ltac field_op op :=
  field_start; unfold op; vm_go; apply pushField_ok; [done|done|done|lia|done|in_ctx|in_ctx].

Lemma opTxSigHash_ok : op_ok F B 256 opTxSigHash.
Proof. field_op opTxSigHash. Qed.

Lemma opBlockHash_ok : op_ok F B 1 opBlockHash.
Proof. field_op opBlockHash. Qed.

Lemma opAsset_ok : op_ok F B 1 opAsset.
Proof. field_op opAsset. Qed.

Lemma opEntryData_ok : op_ok F B 1 opEntryData.
Proof. field_op opEntryData. Qed.

Lemma opTxData_ok : op_ok F B 1 opTxData.
Proof. field_op opTxData. Qed.

Lemma opOutputID_ok : op_ok F B 1 opOutputID.
Proof. field_op opOutputID. Qed.

Lemma opNonce_ok : op_ok F B 1 opNonce.
Proof. field_op opNonce. Qed.

Lemma opNextProgram_ok : op_ok F B 1 opNextProgram.
Proof. field_op opNextProgram. Qed.

Lemma opAmount_ok : op_ok F B 1 opAmount.
Proof. field_start. unfold opAmount. vm_go. apply pushIntField_ok; [done|done|done|lia|done]. Qed.

Lemma opMinTime_ok : op_ok F B 1 opMinTime.
Proof. field_start. unfold opMinTime. vm_go. apply pushIntField_ok; [done|done|done|lia|done]. Qed.

Lemma opIndex_ok : op_ok F B 1 opIndex.
Proof. field_start. unfold opIndex. vm_go. apply pushIntField_ok; [done|done|done|lia|done]. Qed.

Lemma opBlockTime_ok : op_ok F B 1 opBlockTime.
Proof. field_start. unfold opBlockTime. vm_go. apply pushIntField_ok; [done|done|done|lia|done]. Qed.

Lemma ctx_slice_facts vm phi delta vm1 s :
  wf_env (mem vm) (context vm) -> small B (context vm) -> Acc vm phi delta vm1 ->
  s ∈ introspected (context vm) -> s ∈ ctx_slices (context vm) ->
  wf_slice (mem vm1) s /\ 0 <= slen s /\ 8 + slen s <= B.
Proof.
  intros [_ Hc] [_ Hi _] Ha H1 H2. split; [|split; [apply slen_nonneg|]].
  - eapply wf_slice_mono; [eapply acc_heap; exact Ha|].
    apply (proj1 (Forall_forall _ _) Hc s H2).
  - apply (proj1 (Forall_forall _ _) Hi s H1).
Qed.

Lemma opProgram_ok : op_ok F B 1 opProgram.
Proof.
  field_start. unfold opProgram. do 2 vm_step; [|acc_done]. do 2 vm_step.
  rewrite (acc_context _ _ _ _ H3).
  destruct (ctx_slice_facts _ _ _ _ (Code (context vm)) Hwf Hsmall H3) as (W & L1 & L2);
    [by left..|]. vm_go.
Qed.

Lemma opEntryID_ok : op_ok F B 1 opEntryID.
Proof.
  field_start. unfold opEntryID. do 2 vm_step; [|acc_done]. do 2 vm_step.
  rewrite (acc_context _ _ _ _ H3).
  destruct (ctx_slice_facts _ _ _ _ (EntryID (context vm)) Hwf Hsmall H3) as (W & L1 & L2);
    [by right; left..|]. vm_go.
Qed.

Lemma opMaxTime_ok : op_ok F B 1 opMaxTime.
Proof. op_start. unfold opMaxTime. vm_go. Qed.

Lemma opCheckOutput_ok : op_ok F B 16 opCheckOutput.
Proof. op_start. unfold opCheckOutput. vm_go. Qed.

(** *** [CHECKPREDICATE] *)

(** A machine between two instructions: everything it reaches is well-formed and
    its run limit and stacks are worth at most [phi]. *)
Record ready (phi : Z) (vm : virtualMachine) : Prop := {
  ready_env : wf_env (mem vm) (context vm);
  ready_small : small B (context vm);
  ready_run : 0 <= runLimit vm;
  ready_phi : runLimit vm + memCost vm <= phi;
  ready_limit : phi <= LIMIT;
  ready_stacks : Forall (wf_slice (mem vm)) (dataStack vm ++ altStack vm);
  ready_program : wf_slice (mem vm) (program vm);
}.

(** A machine that has stopped, on an error or not. *)
Record final (vm0 : virtualMachine) (L : Z) (vm : virtualMachine) : Prop := {
  final_run : 0 <= runLimit vm;
  final_phi : runLimit vm + memCost vm <= L;
  final_heap : heap_le (mem vm0) (mem vm);
  final_stacks : Forall (wf_slice (mem vm)) (dataStack vm ++ altStack vm);
}.

(** What the run of a machine worth [phi] must satisfy, if its program is not
    longer than [K]. *)
Definition run_ok (K : Z) (m : M unit) (phi : Z) : Prop :=
  forall vm, ready phi vm -> slen (program vm) <= K ->
    wp F m (fun _ => final vm phi) (final vm (phi + B)) vm.

Lemma take_drop_cost n st : stackCost (take n st) + stackCost (drop n st) = stackCost st.
Proof. rewrite <- stackCost_app. by rewrite take_drop. Qed.

(** The child of a machine worth at most [p + d] before it paid for the child. *)
Lemma child_ready vm p d v pred limit n :
  wf_env (mem vm) (context vm) -> small B (context vm) ->
  Acc vm p d v -> wf_slice (mem v) pred -> 0 <= limit -> p + d + limit <= LIMIT ->
  ready (limit + stackCost (take n (dataStack v))) (childVM v pred limit n) /\
  limit + stackCost (take n (dataStack v)) <= p + d + limit.
Proof.
  intros [Ht Hc] Hs Ha Hp Hl HL. pose proof (take_drop_cost n (dataStack v)) as Htd.
  pose proof (stackCost_nonneg (drop n (dataStack v))).
  pose proof (stackCost_nonneg (altStack v)).
  pose proof Ha as [Ectx _ _ _ _ _ Hr Hphi Hdebt Hw Hh]. unfold memCost in *.
  split; [|lia]. split; cbn [childVM mem context runLimit program dataStack altStack];
    try lia; try done.
  - rewrite Ectx. split; eauto using wf_slice_mono, wf_slices_mono.
  - by rewrite Ectx.
  - unfold memCost. simpl. lia.
  - rewrite app_nil_r. apply Forall_take. by apply Forall_app in Hw as [? _].
Qed.

(** After the child has stopped, its store and what is left of it belong to the
    parent again. *)
Lemma child_return vm p d v n child :
  Acc vm p d v -> heap_le (mem v) (mem child) ->
  Acc vm (p - stackCost (take n (dataStack v))) d
    (set_mem (mem child) (set_dataStack (drop n (dataStack v)) v)).
Proof.
  intros [? ? ? ? ? ? Hr Hphi Hdebt Hw Hle] Hh. pose proof (take_drop_cost n (dataStack v)).
  split; simpl; try done; try (by etrans); unfold memCost in *; simpl; [lia|].
  apply Forall_app in Hw as [Hd Hal].
  eapply wf_slices_mono; [done|]. apply Forall_app. split; [by apply Forall_drop|done].
Qed.

Lemma runPredicate_ok K run_child pred limit n vm p d v c phi :
  wf_env (mem vm) (context vm) -> small B (context vm) ->
  Acc vm p d v -> wf_slice (mem v) pred -> slen pred <= K ->
  0 <= limit -> d <= - B -> p + limit <= phi - c - B -> phi <= LIMIT ->
  0 <= c + B -> (forall phi', phi' <= p + d + limit -> run_ok K run_child phi') ->
  wp F (runPredicate run_child pred limit n)
    (fun _ vm' => exists vm1, Acc vm (phi - c) B vm1 /\
         (vm' = vm1 \/ exists p, 1 <= c /\ 0 <= p /\ vm' = set_nextPC p vm1))
    (errpost vm (phi + B)) v.
Proof.
  intros Henv Hsmall Ha Hpred HK Hl Hd Hp Hphi Hc Hrun. pose proof (small_B _ _ Hsmall) as HB.
  pose proof (wf_true _ _ Henv) as Htrue.
  assert (0 <= p + d) as Hpos by (destruct Ha; pose proof (memCost_nonneg v); lia).
  unfold runPredicate. vm_step. vm_step; [apply wp_panic|apply wp_ret].
  set (k := Z.to_nat n). vm_step. vm_step.
  destruct (child_ready vm p d v pred limit k Henv Hsmall Ha Hpred Hl ltac:(acc_lia)) as [Hr Hle].
  specialize (Hrun _ Hle _ Hr HK). unfold wp in Hrun.
  assert (Hcost := stackCost_nonneg (take k (dataStack v))).
  destruct (run_child (childVM v pred limit k)) as [o child] eqn:Eo. cbn [fst snd].
  assert (Hfin : match o with Panic => True | OutOfFuel => F
                 | _ => final (childVM v pred limit k)
                          (limit + stackCost (take k (dataStack v)) + B) child end).
  { destruct o; try done. destruct Hrun. split; try done. lia. }
  destruct o; try (vm_step; apply wp_modify; vm_step; done).
  all: destruct Hfin as [F1 F2 F3 F4]; unfold memCost in F2;
    pose proof (stackCost_nonneg (dataStack child)); pose proof (stackCost_nonneg (altStack child));
    pose proof (child_return _ _ _ _ k child Ha F3) as Ha1;
    vm_step; apply wp_modify; cbn [fst snd] in *; fold k; vm_go.
Qed.

(** The net cost of [CHECKPREDICATE] is 64, less what a failed child got for
    items it had pushed but not paid for. *)
Lemma opCheckPredicate_ok K run_child phi :
  phi <= K -> B <= 192 -> (forall phi', phi' <= phi - 256 -> run_ok K run_child phi') ->
  op_at F B phi (64 - B) (opCheckPredicate run_child).
Proof.
  intros HK HB192 Hrun. op_at_start. unfold opCheckPredicate. vm_go.
  all: try (match goal with Hv : Acc _ _ _ ?v |- 0 <= runLimit ?v => apply (acc_run _ _ _ _ Hv) end).
  all: match goal with
       | Hv : Acc ?v0 ?p ?d ?v |- wp _ (runPredicate _ _ ?l _) _ _ ?v =>
           pose proof (acc_run _ _ _ _ Hv);
           apply (runPredicate_ok K run_child _ l _ v0 p d v)
       end; try done; try acc_lia; try wf_tac.
  all: first [eapply acc_run; eassumption|intros phi' Hphi'; apply Hrun; acc_lia].
Qed.
End Ops.

(** One lemma per entry of the opcode table, found by the name of the opcode. *)
Create HintDb opcost discriminated.
#[export] Hint Constants Opaque : opcost.
#[export] Hint Resolve
  opFalse_ok opPushdata_ok op1Negate_ok opNop_ok opVerify_ok opFail_ok opJump_ok
  opJumpIf_ok opToAltStack_ok opFromAltStack_ok op2Drop_ok op2Over_ok op2Rot_ok op2Swap_ok
  opSwap_ok opIfDup_ok opDepth_ok opDrop_ok opOver_ok opPick_ok opNip_ok opRoll_ok
  opRot_ok opTuck_ok opCat_ok opSubstr_ok opLeft_ok opRight_ok opSize_ok opCatpushdata_ok
  opInvert_ok opAnd_ok doOr_ok opEqual_ok opEqualVerify_ok op1Add_ok op1Sub_ok op2Mul_ok
  op2Div_ok opNegate_ok opAbs_ok opNot_ok op0NotEqual_ok opAdd_ok opSub_ok opMul_ok
  opDiv_ok opMod_ok opLshift_ok opRshift_ok opBoolAnd_ok opBoolOr_ok doNumCompare_ok
  opNumEqualVerify_ok opMin_ok opMax_ok opWithin_ok opCheckSig_ok opCheckMultiSig_ok
  opTxSigHash_ok opBlockHash_ok opAsset_ok opEntryData_ok opTxData_ok opOutputID_ok
  opNonce_ok opNextProgram_ok opAmount_ok opMinTime_ok opIndex_ok opBlockTime_ok
  opProgram_ok opEntryID_ok opMaxTime_ok opCheckOutput_ok : opcost.
