(* ===== verification/VMTerm.v ===== *)
(** * Programs of the virtual machine terminate within their run limit

    The fuel of [run_loop] is an artefact of the model.  A run that finishes with some
    fuel has the same outcome, and the same final machine, with any larger amount: the
    order [lef] relates an operation to one that is defined on more machines, and every
    construct of the machine is monotone in it.

    Every instruction other than [CHECKPREDICATE] keeps the potential of the machine
    (its run limit and what is refundable on its stacks) from growing, and every jump
    lowers it.  A run therefore stops before its first [CHECKPREDICATE], or executes
    one, and the model needs no more fuel than a bound computed from the run limit and
    the length of the program.

    [CHECKPREDICATE] refunds what is on the stack of a child that failed, also an item
    of the execution context that the child could not pay for.  It lowers the potential
    too as long as no item costs more than its fee of 64; with a longer item the run
    limit can grow forever ([VMFindings]). *)

From Stdlib Require Import ZArith Lia Strings.Byte.
From S2P Require Import Prelude Checked GoSlice Crypto VMCode VM VMRun VMExec VMCost VMOpCost.

(** ** Fuel does not matter *)

(** [m'] agrees with [m] wherever [m] does not run out of fuel. *)
Definition lef {A} (m m' : M A) : Prop := forall vm, (m vm).1 = OutOfFuel \/ m' vm = m vm.

#[export] Instance lef_preorder {A} : PreOrder (@lef A).
Proof.
  split; [by right|]. intros m1 m2 m3 H12 H23 vm.
  destruct (H12 vm) as [|E]; [by left|]. rewrite <- E. apply H23.
Qed.

Lemma lef_bind {A B} (m m' : M A) (f f' : A -> M B) :
  lef m m' -> (forall a, lef (f a) (f' a)) -> lef (m ≫= f) (m' ≫= f').
Proof.
  intros Hm Hf vm. unfold mbind, M_bind. destruct (Hm vm) as [E|E].
  - left. by destruct (m vm) as [[] ?].
  - rewrite E. destruct (m vm) as [[a|e| |] vm']; auto. apply Hf.
Qed.

Lemma lef_runPredicate c c' pred limit n :
  lef c c' -> lef (runPredicate c pred limit n) (runPredicate c' pred limit n).
Proof.
  intros Hc. unfold runPredicate. apply lef_bind; [reflexivity|]. intros [] vm.
  cbv [mbind M_bind gets modify].
  destruct (Hc (childVM vm pred limit (Z.to_nat n))) as [E|E].
  - left. by rewrite E.
  - right. by rewrite E.
Qed.

Section Fuel.
Context `{Runtime} `{Crypto}.

Lemma lef_opCheckPredicate c c' : lef c c' -> lef (opCheckPredicate c) (opCheckPredicate c').
Proof.
  intros Hc. unfold opCheckPredicate.
  do 10 (apply lef_bind; [reflexivity|intros ?]). by apply lef_runPredicate.
Qed.

Lemma ops_lef c c' op :
  lef c c' ->
  match ops c op, ops c' op with
  | Some fn, Some fn' => lef fn fn'
  | None, None => True
  | _, _ => False
  end.
Proof.
  intros Hc. unfold ops.
  destruct ((1 <=? op) && _); [intros vm; by right|].
  destruct ((OP_1 <=? op) && _); [intros vm; by right|].
  destruct (op =? OP_CHECKPREDICATE); [by apply lef_opCheckPredicate|].
  destruct (option_map _ _); [|done]. intros vm. by right.
Qed.

Lemma lef_step c c' : lef c c' -> lef (step c) (step c').
Proof.
  intros Hc vm. unfold step. destruct (ParseOp _ _) as [inst|e| |]; try by right.
  pose proof (ops_lef c c' (Op inst) Hc) as Hops.
  assert (Hk : lef
    (match ops c (Op inst) with
     | None => if expansionReserved vm then fail ErrDisallowedOpcode
               else modify (fun vm => set_pc (nextPC vm) vm);; applyCost 1
     | Some fn => modify (fun vm => set_data (Data inst) (set_deferredCost 0 vm));; fn;;
         d ← gets deferredCost; applyCost d;; modify (fun vm => set_pc (nextPC vm) vm) end)
    (match ops c' (Op inst) with
     | None => if expansionReserved vm then fail ErrDisallowedOpcode
               else modify (fun vm => set_pc (nextPC vm) vm);; applyCost 1
     | Some fn => modify (fun vm => set_data (Data inst) (set_deferredCost 0 vm));; fn;;
         d ← gets deferredCost; applyCost d;; modify (fun vm => set_pc (nextPC vm) vm) end)).
  { destruct (ops c _), (ops c' _); try done.
    apply lef_bind; [reflexivity|intros _]. apply lef_bind; [done|intros _]. reflexivity. }
  apply Hk.
Qed.

Lemma lef_run_loop fuel : lef (run_loop fuel) (run_loop (S fuel)).
Proof.
  induction fuel as [|fuel IH]; [by left|].
  intros vm. cbn [run_loop]. destruct (pc vm <? _); [|by right].
  apply lef_bind; [|by intros _]. apply lef_step, lef_bind; [reflexivity|by intros _].
Qed.

Lemma lef_run fuel fuel' : (fuel <= fuel')%nat -> lef (run fuel) (run fuel').
Proof.
  intros Hle. apply lef_bind; [reflexivity|intros _].
  induction Hle; [reflexivity|]. etrans; [done|apply lef_run_loop].
Qed.

(** The verdict of [Verify], and the store it leaves behind, do not depend on
    the fuel of the model: once some fuel is enough, any more gives the same
    result. *)
Lemma Verify_fuel_irrelevant h c fuel fuel' verdict :
  (fuel <= fuel')%nat -> (Verify fuel h c).1 = Some verdict -> Verify fuel' h c = Verify fuel h c.
Proof.
  intros Hle. unfold Verify. case_match; [done|].
  destruct (push_args _ _) as [[[]|e| |] vm]; try done.
  destruct (lef_run _ _ Hle vm) as [E|E]; [|by rewrite E].
  destruct (run fuel vm) as [o vm']. simpl in E. by subst o.
Qed.
End Fuel.

Lemma Verify_fuel_irrelevant_witness :
  let prog := [x51; x51; x87] in
  let V f := Verify (H := exact_runtime) (H0 := toy_crypto) f (start_heap prog) (bare_context prog) in
  (V 4%nat).1 = Some None /\ V 9%nat = V 4%nat.
Proof.
  intros prog V. split; [reflexivity|].
  apply (Verify_fuel_irrelevant (H := exact_runtime) (H0 := toy_crypto) _ _ 4 9 None); [lia|reflexivity].
Defined.

(** ** Termination *)

Lemma ParseOp_data prog pc inst :
  ParseOp prog pc = Ret inst -> zlen (Data inst) <= Z.max 1 (zlen prog).
Proof.
  assert (Hs : forall lo hi, zlen (subslice lo hi prog) <= zlen prog)
    by (intros; unfold zlen, subslice; rewrite length_take, length_drop; lia).
  pose proof (zlen_nonneg prog).
  unfold ParseOp. repeat (case_match; try discriminate); intros [= <-]; cbn [Data];
    first [etrans; [apply Hs|lia] | unfold zlen; cbn [length]; lia].
Qed.

Section Term.
Context `{Runtime} `{CryptoLaws}.

(** ** Every entry of the table *)

(** The opcode costs nothing on balance, at least, and leaves a debt of at most [B]. *)
Definition costs (F : Prop) (B phi : Z) (fn : M unit) : Prop :=
  exists c, 0 <= c /\ op_at F B phi c fn.

Lemma costs_ok F B phi c fn : 0 <= c -> op_ok F B c fn -> costs F B phi fn.
Proof. intros ? Ho. exists c. split; [done|apply Ho]. Qed.

Lemma hash_ok F B sum : (forall bs, zlen (sum bs) = 32) -> op_ok F B 64 (doHash sum).
Proof. intros Hs. apply doHash_ok. intros bs. rewrite Hs. unfold LIMIT. lia. Qed.

Ltac table_entry :=
  cbv [snd]; eapply costs_ok;
  [|first [ solve [eauto 2 with opcost nocore]
          | apply nDup_ok; lia
          | apply hash_ok; first [apply sha256_len|apply sha3_256_len] ]]; lia.

Lemma literal_costs F B phi : Forall (fun e => costs F B phi e.2) ops_literal.
Proof. 
  unfold ops_literal, op2Dup, op3Dup, opDup, opOr, opXor, opNumEqual, opNumNotEqual, opLessThan,
    opGreaterThan, opLessThanOrEqual, opGreaterThanOrEqual, opSha256, opSha3.
  repeat (apply Forall_cons; split; [table_entry|]).
  constructor.
Qed.

(** What a machine worth [phi] that is about to execute [op] needs of its child. *)
Definition child_ok (F : Prop) (B K phi : Z) (run_child : M unit) (op : Z) : Prop :=
  op = OP_CHECKPREDICATE ->
  B <= 64 /\ forall phi', phi' <= phi - 256 -> run_ok F B K run_child phi'.

Lemma ops_costs F B K phi run_child op fn :
  ops run_child op = Some fn -> phi <= K -> child_ok F B K phi run_child op ->
  costs F B phi fn.
Proof.
  intros Hop HK Hchild. pose proof (literal_costs F B phi) as Hlit. revert Hop. unfold ops.
  generalize dependent ops_literal. intros literal Hlit.
  case_match; [intros [= <-]; apply (costs_ok _ _ _ 1); [lia|apply opPushdata_ok]|].
  case_match; [intros [= <-]; apply (costs_ok _ _ _ 1); [lia|apply opPushdata_ok]|].
  destruct (Z.eqb_spec op OP_CHECKPREDICATE) as [->|];
    [destruct (Hchild eq_refl) as [HB Hrun]; intros [= <-]; exists (64 - B)|].
  - split; [lia|]. apply (opCheckPredicate_ok _ _ K); [done|lia|done].
  - destruct (find _ literal) as [[[o name] f]|] eqn:Ef; intros [= <-].
    apply find_some in Ef as [Hin _]. rewrite <- list_elem_of_In in Hin.
    by pose proof (proj1 (Forall_forall _ _) Hlit _ Hin).
Qed.

(** ** One instruction *)

Section Step.
Context (B K : Z).
Hypothesis HK : K <= MaxInt32.

(** The machine after one instruction: the potential has not grown, and it is
    smaller unless the program counter has advanced. *)
Record advanced (phi : Z) (vm vm' : virtualMachine) : Prop := {
  adv_program : program vm' = program vm;
  adv_heap : heap_le (mem vm) (mem vm');
  adv_pc : 0 <= pc vm';
  adv_ready : exists phi', ready B phi' vm' /\
    (phi' <= phi /\ pc vm < pc vm' \/ phi' <= phi - 1);
}.

Lemma errpost_final vm0 vm L vm' :
  errpost vm L vm' -> heap_le (mem vm0) (mem vm) -> final vm0 L vm'.
Proof. intros (p & d & [] & Hl) Hh. split; try done; [lia|by etrans]. Qed.

Lemma ready_acc phi vm : ready B phi vm -> deferredCost vm = 0 -> Acc vm phi 0 vm.
Proof. intros [] Hd. split; try done; rewrite ?Hd; lia. Qed.

Lemma ready_set phi vm d p data :
  ready B phi vm -> ready B phi (set_data data (set_deferredCost d (set_nextPC p vm))).
Proof. intros []. by split. Qed.

(** What an instruction leaves behind, once its deferred cost is settled. *)
Lemma settled phi c vm0 vm1 r p :
  ready B phi vm0 -> Acc vm0 (phi - c) B vm1 -> 0 <= c -> 0 <= r -> r + memCost vm1 <= phi - c ->
  ready B (phi - c) (set_pc p (set_runLimit r vm1)).
Proof.
  intros [[Ht Hc] Hs Hr Hp Hl Hst Hpr] [Ec Ep _ _ _ _ _ _ _ Hw Hh] ? ? Hm.
  split; simpl; try done; try lia.
  - rewrite Ec. split; eauto using wf_slice_mono, wf_slices_mono.
  - by rewrite Ec.
  - rewrite Ep. eauto using wf_slice_mono.
Qed.

(** An opcode of the table, with the settlement that follows it. *)
Lemma instr_ok F phi c fn npc dat vm :
  ready B phi vm -> 0 <= c -> op_at F B phi c fn -> pc vm < npc -> 0 <= npc -> zlen dat <= LIMIT ->
  wp F fn
    (fun _ => wp F (d ← gets deferredCost; applyCost d;; modify (fun vm => set_pc (nextPC vm) vm))
       (fun _ => advanced phi vm) (final vm (phi + B)))
    (final vm (phi + B)) (set_data dat (set_deferredCost 0 (set_nextPC npc vm))).
Proof.
  intros Hr Hc Hop Hpc Hnpc Hdat. pose proof (ready_set _ _ 0 npc dat Hr) as Hr0.
  set (vm0 := set_data dat (set_deferredCost 0 (set_nextPC npc vm))) in *.
  pose proof (ready_acc _ _ Hr0 eq_refl) as Ha. pose proof Hr0 as [He Hs _ _ HL _ _].
  pose proof (small_B _ _ Hs).
  eapply wp_mono; [apply (Hop vm0); try done| |].
  2: { intros v Hv. by apply (errpost_final _ vm0). }
  intros [] v (v1 & Ha1 & Hv). assert (Ha1' := Ha1). destruct Ha1' as [_ Ep _ En _ _ _ _ _ _ Hh].
  apply wp_bind, wp_gets, wp_bind.
  assert (exists p, v = set_nextPC p v1 /\ 0 <= p /\ (p = npc \/ 1 <= c)) as (p & -> & Hp & Hj).
  { destruct Hv as [->|(p & ? & ? & ->)]; [|eauto].
    exists npc. split; [|auto]. change npc with (nextPC vm0). rewrite <- En. by destruct v1. }
  unfold wp, applyCost. cbn [runLimit set_nextPC deferredCost].
  destruct (Z.ltb_spec (runLimit v1) (deferredCost v1)) as [Hlt|Hge].
  - destruct Ha1. split; simpl; try done. unfold memCost in *. simpl. lia.
  - pose proof (memCost_nonneg v1) as Hm. assert (Hi := acc_phi _ _ _ _ Ha1).
    rewrite int64_id by (unfold_int; unfold LIMIT in *; destruct Ha1; lia).
    pose proof (settled phi c vm0 v1 (runLimit v1 - deferredCost v1) p Hr0 Ha1 Hc
                  ltac:(lia) ltac:(lia)) as [].
    split; simpl; try done. exists (phi - c). split; [by split|].
    destruct Hj as [->|]; [left|right]; lia.
Qed.

(** An expansion opcode costs 1. *)
Lemma expansion_ok F phi npc vm :
  ready B phi vm -> pc vm < npc -> 0 <= npc ->
  wp F (applyCost 1) (fun _ => advanced phi vm) (final vm (phi + B))
    (set_pc (nextPC (set_nextPC npc vm)) (set_nextPC npc vm)).
Proof.
  intros [] Hlt Hn. pose proof (small_B _ _ ready_small). pose proof (memCost_nonneg vm).
  unfold wp, applyCost. simpl. destruct (Z.ltb_spec (runLimit vm) 1).
  - split; simpl; try done. unfold memCost in *. simpl. lia.
  - rewrite int64_id by (unfold_int; unfold LIMIT in *; lia).
    split; simpl; try done. exists (phi - 1). split; [|lia].
    split; simpl; try done; unfold memCost in *; simpl; lia.
Qed.

Lemma step_ok F phi run_child vm :
  ready B phi vm -> slen (program vm) <= K -> 0 <= pc vm -> phi <= K ->
  (forall inst, ParseOp (sbytes (mem vm) (program vm)) (pc vm) = Ret inst ->
    child_ok F B K phi run_child (Op inst)) ->
  wp F (step run_child) (fun _ => advanced phi vm) (final vm (phi + B)) vm.
Proof.
  intros Hr HKp Hpc Hphi Hrun. pose proof (small_B _ _ (ready_small _ _ _ Hr)).
  assert (Hself : forall p, final vm (phi + B) (set_nextPC p vm) /\ final vm (phi + B) vm).
  { intros p. destruct Hr. split.
    all: split; simpl; try done; unfold memCost in *; simpl; lia. }
  assert (Hl : zlen (sbytes (mem vm) (program vm)) = slen (program vm)).
  { unfold zlen, slen. by rewrite length_sbytes by apply Hr. }
  unfold wp, step. destruct (ParseOp _ _) as [inst|e| |] eqn:Epar; [|apply (Hself 0)|done|].
  2: { by apply ParseOp_no_panic in Epar; [| |lia]. }
  pose proof (ParseOp_data _ _ _ Epar) as Hdata.
  pose proof (Hrun _ eq_refl) as Hchild. apply ParseOp_inv in Epar as (_ & _ & Hlen & Hend & _); [|done]. rewrite Hl in *.
  rewrite uint32_id by (unfold_int; lia). set (npc := pc vm + Len inst) in *.
  change (wp F (modify (set_nextPC npc);; match ops run_child (Op inst) with
     | None => if expansionReserved vm then fail ErrDisallowedOpcode
               else modify (fun vm => set_pc (nextPC vm) vm);; applyCost 1
     | Some fn => modify (fun vm => set_data (Data inst) (set_deferredCost 0 vm));; fn;;
         d ← gets deferredCost; applyCost d;; modify (fun vm => set_pc (nextPC vm) vm) end)
     (fun _ => advanced phi vm) (final vm (phi + B)) vm).
  apply wp_bind, wp_modify. destruct (ops run_child (Op inst)) as [fn|] eqn:Eop.
  - apply (ops_costs F B K phi) in Eop as (c & Hc & Hop); [|done..].
    apply wp_bind, wp_modify, wp_bind.
    apply (instr_ok F phi c fn npc (Data inst) vm); try done; try lia.
    unfold LIMIT. unfold_int. lia.
  - destruct (expansionReserved vm); [apply wp_fail, Hself|].
    apply wp_bind, wp_modify. apply expansion_ok; [done|lia|lia].
Qed.

(** ** The loop *)

(** Fuel that is enough for a machine worth [phi] at program counter [p]. *)
Definition enough (phi p : Z) : Z := phi * (K + 2) + Z.max 0 (K + 1 - p).

Lemma final_mono vm0 vm1 L L' vm :
  final vm1 L vm -> heap_le (mem vm0) (mem vm1) -> L <= L' -> final vm0 L' vm.
Proof. intros [] ? ?. split; try done; [lia|by etrans]. Qed.

Lemma run_loop_ok (fuel : nat) : forall phi vm,
  B <= 64 -> ready B phi vm -> slen (program vm) <= K -> 0 <= pc vm -> phi <= K ->
  enough phi (pc vm) < Z.of_nat fuel ->
  wp False (run_loop fuel) (fun _ => final vm phi) (final vm (phi + B)) vm.
Proof.
  induction fuel as [|fuel IH]; intros phi vm HB Hr HKp Hpc Hphi Hfuel; unfold enough in *.
  all: assert (0 <= phi) by (destruct Hr; pose proof (memCost_nonneg vm); lia).
  { nia. }
  pose proof (slen_nonneg (program vm)). unfold wp. cbn [run_loop].
  rewrite uint32_id by (unfold_int; lia).
  destruct (Z.ltb_spec (pc vm) (slen (program vm))) as [Hin|].
  2: { destruct Hr. split; try done. }
  apply (wp_bind False). eapply wp_mono; [apply step_ok; try done| |done].
  - intros inst _ _. split; [done|]. intros phi' Hle v Hv HKv. apply wp_bind, wp_modify.
    eapply wp_mono; [apply (IH phi')| |]; simpl; try done; try lia; [by destruct Hv| | |].
    + unfold enough. simpl. nia.
    + intros [] v' Hv'. apply (final_mono v _ _ _ _ Hv'); [done|lia].
    + intros v' Hv'. apply (final_mono v _ _ _ _ Hv'); [done|lia].
  - intros [] v [Ep Hh Hpv (phi' & Hr' & Hprog)].
    eapply wp_mono; [apply (IH phi'); try done| |].
    + by rewrite Ep.
    + lia.
    + unfold enough. destruct Hprog; nia.
    + intros [] v' Hv'. apply (final_mono vm _ _ _ _ Hv'); [done|lia].
    + intros v' Hv'. apply (final_mono vm _ _ _ _ Hv'); [done|lia].
Qed.
End Step.

(** ** The arguments *)

Lemma push_args_ok F B phi args vm :
  ready B phi vm -> Forall (wf_slice (mem vm)) args -> Forall (fun s => slen s <= LIMIT) args ->
  wp F (push_args args)
    (fun _ vm' => ready B phi vm' /\ mem vm' = mem vm /\ program vm' = program vm)
    (fun _ => True) vm.
Proof.
  revert vm. induction args as [|a args IH]; intros vm Hr Hw Hl; cbn [push_args]; [by apply wp_ret|].
  apply Forall_cons in Hw as [Ha Hw]. apply Forall_cons in Hl as [Hla Hl].
  pose proof (slen_nonneg a). pose proof (memCost_nonneg vm). pose proof Hr as [].
  unfold push, stack_push. do 2 apply wp_bind. unfold wp at 1, applyCost.
  destruct (Z.ltb_spec (runLimit vm) (8 + slen a)); [done|].
  rewrite int64_id by (unfold_int; unfold LIMIT in *; lia). apply wp_modify. unfold memCost in *.
  eapply wp_mono; [apply IH; simpl; try done| |done].
  - split; simpl; try done; try lia; [|by apply Forall_cons].
    unfold memCost. cbn [dataStack altStack set_dataStack set_runLimit runLimit stackCost]. lia.
  - intros [] v (? & ? & ?). done.
Qed.

Lemma initVM_ready B h c :
  wf_env h c -> small B c -> ready B initialRunLimit (initVM h c).
Proof.
  intros He Hs. split; simpl; try done; unfold initialRunLimit; try (unfold LIMIT; lia).
  destruct He as [_ Hc]. by apply Forall_cons in Hc as [? _].
Qed.

Lemma args_facts (P : slice -> Prop) c : Forall P (ctx_slices c) -> Forall P (Arguments c).
Proof. intros Hc. do 2 apply Forall_cons in Hc as [_ Hc]. by apply Forall_app in Hc as [? _]. Qed.

(** The fuel [Verify] needs for a program of [n] bytes. *)
Definition verify_fuel (n : Z) : nat :=
  Z.to_nat ((initialRunLimit + 1) * (Z.max initialRunLimit n + 2)).

Lemma verify_fuel_enough B c vm fuel :
  ready B initialRunLimit vm -> (verify_fuel (slen (Code c)) <= fuel)%nat ->
  B <= 64 -> slen (Code c) <= MaxInt32 -> program vm = Code c ->
  wp False (run fuel) (fun _ => final vm initialRunLimit)
    (final vm (initialRunLimit + B)) vm.
Proof.
  intros Hr Hf HB Hlen Hp. set (K := Z.max initialRunLimit (slen (Code c))).
  unfold run. apply wp_bind, wp_modify.
  eapply wp_mono; [apply (run_loop_ok B K) with (phi := initialRunLimit)| |]; simpl; try done; try (rewrite ?Hp; unfold K; lia).
  - unfold_int. unfold initialRunLimit, MaxInt32 in *. lia.
  - by destruct Hr.
  - unfold enough. simpl. unfold verify_fuel, initialRunLimit in *. fold K in Hf. lia.
  - intros [] v Hv. apply (final_mono vm _ _ _ _ Hv); [done|lia].
  - intros v Hv. apply (final_mono vm _ _ _ _ Hv); [done|lia].
Qed.

Lemma Verify_total h c fuel :
  wf_env h c -> small 64 c -> slen (Code c) <= MaxInt32 ->
  (verify_fuel (slen (Code c)) <= fuel)%nat ->
  exists verdict, (Verify fuel h c).1 = Some verdict.
Proof.
  intros He Hs Hlen Hf. unfold Verify. case_match; [by eexists|].
  pose proof (push_args_ok False 64 initialRunLimit (Arguments c) (initVM h c)
    (initVM_ready _ _ _ He Hs)) as Hp. unfold wp in Hp.
  destruct (push_args _ _) as [[[]|e| |] vm] eqn:Ea; try by eexists.
  - destruct Hp as (Hr & _ & Ep);
      [apply args_facts, He|apply args_facts, (small_slices _ _ Hs)|].
    pose proof (verify_fuel_enough 64 c vm fuel Hr Hf ltac:(lia) Hlen Ep) as Hv. unfold wp in Hv.
    destruct (run fuel vm) as [[[]|e| |] vm']; first [done|by eexists].
  - destruct Hp; [apply args_facts, He|apply args_facts, (small_slices _ _ Hs)].
Qed.

(** ** Programs of every length, contexts of every size *)

(** No item that fits in memory is longer; nothing else is asked of a context. *)
Definition sized (c : Context) : Prop := Forall (fun s => 8 + slen s <= LIMIT) (ctx_slices c).

(** A context item that costs more to push than [CHECKPREDICATE] does. *)
Definition large_item (c : Context) : Prop := Exists (fun s => 56 < slen s) (introspected c).

Lemma introspected_ctx c s : s ∈ introspected c -> s ∈ ctx_slices c.
Proof.
  unfold introspected, ctx_slices. rewrite !elem_of_cons, elem_of_app, !list_elem_of_omap.
  intros [|[|(o & Ho & E)]]; [tauto..|]. do 3 right. exists o. split; [|done].
  revert Ho. rewrite !elem_of_cons. tauto.
Qed.

Lemma sized_small c : sized c -> small LIMIT c.
Proof.
  unfold sized. intros Hs. split; [unfold LIMIT; lia| |].
  - apply Forall_forall. intros s Hin. apply introspected_ctx in Hin.
    by apply (proj1 (Forall_forall _ _) Hs).
  - eapply Forall_impl; [done|]. simpl. intros. lia.
Qed.

Lemma not_large_small c : sized c -> ~ large_item c -> small 64 c.
Proof.
  intros Hs Hn. destruct (sized_small _ Hs) as [_ _ Hl]. split; [unfold LIMIT; lia| |done].
  apply not_Exists_Forall in Hn; [|intros; apply _].
  eapply Forall_impl; [exact Hn|]. simpl. intros. lia.
Qed.

Lemma large_or_small c : sized c -> large_item c \/ small 64 c.
Proof.
  intros Hs. destruct (decide (large_item c)); [by left|right]. by apply not_large_small.
Qed.

(** The machine is about to execute [CHECKPREDICATE]. *)
Definition at_checkpredicate (vm : virtualMachine) : bool :=
  match ParseOp (sbytes (mem vm) (program vm)) (pc vm) with
  | Ret inst => Op inst =? OP_CHECKPREDICATE
  | _ => false
  end.

(** The machines that [Verify] goes through, at the head of the loop of [run]; the
    flag says whether a [CHECKPREDICATE] is among the instructions executed so far. *)
Inductive reached (h : heap) (c : Context) : bool -> virtualMachine -> Prop :=
| reached_start vm :
    push_args (Arguments c) (initVM h c) = (Ret tt, vm) -> reached h c false (set_pc 0 vm)
| reached_step b vm vm' fuel :
    reached h c b vm -> pc vm < uint32 (slen (program vm)) ->
    step (run fuel) vm = (Ret tt, vm') ->
    reached h c (b || at_checkpredicate vm) vm'.

(** A run that succeeds ends in a machine that is reached. *)
Lemma run_loop_reached h c fuel : forall b vm vm',
  reached h c b vm -> run_loop fuel vm = (Ret tt, vm') -> exists b', reached h c b' vm'.
Proof.
  induction fuel as [|fuel IH]; intros b vm vm' Hr; [done|]. cbn [run_loop].
  destruct (Z.ltb_spec (pc vm) (uint32 (slen (program vm)))); [|intros [= <-]; eauto].
  unfold mbind at 1, M_bind at 1. fold (run fuel).
  destruct (step (run fuel) vm) as [[[]|e| |] v] eqn:E; try done.
  apply IH with (b := b || at_checkpredicate vm). by eapply reached_step.
Qed.

(** A program of more than [MaxInt32] bytes fails at its first instruction. *)
Lemma step_long run_child vm :
  0 <= pc vm -> wf_slice (mem vm) (program vm) -> MaxInt32 < slen (program vm) ->
  (step run_child vm).1 <> Ret tt /\ (step run_child vm).1 <> OutOfFuel.
Proof.
  intros Hpc Hw Hl. unfold step.
  assert (El : zlen (sbytes (mem vm) (program vm)) = slen (program vm)).
  { unfold zlen, slen. by rewrite length_sbytes. }
  destruct (ParseOp _ _) as [inst|e| |] eqn:E; try done.
  - apply ParseOp_inv in E as (? & _); lia.
  - exfalso. revert E. unfold ParseOp. repeat case_match; discriminate.
Qed.

Section Reached.
Context (h : heap) (c : Context).
Hypothesis Henv : wf_env h c.
Hypothesis Hsized : sized c.

(** The bound [K] of the loop, for programs that are not too long. *)
Let K := Z.max initialRunLimit (slen (Code c)).

Lemma start_ready vm :
  push_args (Arguments c) (initVM h c) = (Ret tt, vm) ->
  forall B, small B c -> ready B initialRunLimit vm /\ program vm = Code c.
Proof.
  intros Ea B Hs. pose proof (push_args_ok False B initialRunLimit (Arguments c) (initVM h c)
    (initVM_ready _ _ _ Henv Hs)) as Hp. unfold wp in Hp. rewrite Ea in Hp.
  destruct Hp as (? & _ & ?); [apply args_facts, Henv|apply args_facts, (small_slices _ _ Hs)|done].
Qed.

(** What holds of the machines before the first [CHECKPREDICATE], and of all
    machines if no item is large. *)
Record within (B : Z) (vm : virtualMachine) : Prop := {
  within_ready : ready B (runLimit vm + memCost vm) vm;
  within_limit : runLimit vm + memCost vm <= initialRunLimit;
  within_pc : 0 <= pc vm;
  within_program : program vm = Code c;
}.

Lemma ready_tight B phi vm : ready B phi vm -> ready B (runLimit vm + memCost vm) vm.
Proof. intros []. split; try done; lia. Qed.

(** With any fuel a child that finishes keeps its potential. *)
Lemma run_ok_any (F : Prop) B fuel phi :
  F -> B <= 64 -> phi <= K -> K <= MaxInt32 -> run_ok F B K (run fuel) phi.
Proof.
  intros HF HB Hphi HK vm Hr Hp.
  set (fuel' := Nat.max fuel (S (Z.to_nat (enough K phi 0)))).
  assert (enough K phi 0 < Z.of_nat fuel' /\ (fuel <= fuel')%nat) as [Hf Hle]
    by (unfold fuel'; lia).
  clearbody fuel'.
  assert (Hok : wp False (run fuel') (fun _ => final vm phi) (final vm (phi + B)) vm).
  { apply wp_bind, wp_modify. eapply wp_mono; [apply (run_loop_ok B K HK fuel' phi); try done| |].
    - by destruct Hr.
    - intros [] v []. by split.
    - intros v []. by split. }
  destruct (lef_run fuel fuel' Hle vm) as [E|E]; unfold wp in *.
  - destruct (run fuel vm) as [o ?]. simpl in E. by subst o.
  - rewrite <- E. destruct (run fuel' vm) as [[| | |] ?]; done.
Qed.

(** One instruction, with any fuel for its child. *)
Lemma within_step B vm fuel :
  within B vm -> (at_checkpredicate vm = true -> B <= 64) -> slen (Code c) <= MaxInt32 ->
  wp (at_checkpredicate vm = true) (step (run fuel))
    (fun _ vm' => within B vm' /\
       runLimit vm' + memCost vm' <= runLimit vm + memCost vm /\
       (pc vm' <= pc vm -> runLimit vm' + memCost vm' < runLimit vm + memCost vm))
    (fun _ => True) vm.
Proof.
  intros [Hr Hl Hpc Ep] Hcp Hc.
  assert (HK : K <= MaxInt32) by (unfold K, initialRunLimit; unfold_int; unfold MaxInt32 in *; lia).
  eapply wp_mono; [apply (step_ok B K HK); try done| |done].
  - unfold K. rewrite Ep. lia.
  - unfold K. lia.
  - intros inst Ei Eo.
    assert (Hat : at_checkpredicate vm = true) by (unfold at_checkpredicate; by rewrite Ei, Eo).
    split; [by apply Hcp|]. intros phi' Hp. apply run_ok_any; auto. unfold K. lia.
  - intros [] v [Ep' _ Hpv (phi' & Hr' & Hprog)]. pose proof (ready_phi _ _ _ Hr').
    split_and!; [split|lia|lia]; try done; [by eapply ready_tight|lia|by rewrite Ep'].
Qed.

Lemma start_within B vm :
  small B c -> push_args (Arguments c) (initVM h c) = (Ret tt, vm) -> within B (set_pc 0 vm).
Proof.
  intros Hs Ea. destruct (start_ready vm Ea B Hs) as [Hr Ep]. pose proof (ready_phi _ _ _ Hr).
  split; try done. eapply ready_tight with (phi := initialRunLimit). by destruct Hr.
Qed.

(** The invariant of the machines that are reached. *)
Lemma reached_within B b vm :
  reached h c b vm -> small B c -> (b = true -> B <= 64) -> within B vm.
Proof.
  intros Hr Hs. induction Hr as [vm Ea|b vm vm' fuel Hr IH Hpc Est]; intros HB.
  { by apply start_within. }
  assert (Hw : within B vm) by (apply IH; intros ->; by apply HB).
  destruct (Z.le_gt_cases (slen (Code c)) MaxInt32) as [Hc|Hc].
  - assert (Hcp : at_checkpredicate vm = true -> B <= 64)
      by (intros Ht; apply HB; rewrite Ht; by destruct b).
    pose proof (within_step B vm fuel Hw Hcp Hc) as Hst. unfold wp in Hst. rewrite Est in Hst.
    by destruct Hst.
  - destruct Hw as [Hrd _ Hp Ep]. destruct (step_long (run fuel) vm) as [Hn _]; try done.
    + by destruct Hrd.
    + by rewrite Ep.
    + by rewrite Est in Hn.
Qed.

(** The machine about to execute a [CHECKPREDICATE] after none. *)
Definition reaches_checkpredicate : Prop :=
  exists vm, reached h c false vm /\ pc vm < uint32 (slen (program vm)) /\
    at_checkpredicate vm = true.

Lemma loop_stops (fuel : nat) : forall vm,
  reached h c false vm -> within LIMIT vm -> slen (Code c) <= MaxInt32 ->
  enough K (runLimit vm + memCost vm) (pc vm) < Z.of_nat fuel ->
  (run_loop fuel vm).1 <> OutOfFuel \/ reaches_checkpredicate.
Proof.
  induction fuel as [|fuel IH]; intros vm Hre Hw Hc Hfuel.
  all: assert (0 <= runLimit vm + memCost vm) by
    (pose proof (memCost_nonneg vm); pose proof (ready_run _ _ _ (within_ready _ _ Hw)); lia).
  { unfold enough, K, initialRunLimit in Hfuel. nia. }
  cbn [run_loop]. destruct (Z.ltb_spec (pc vm) (uint32 (slen (program vm)))) as [Hlt|]; [|by left].
  destruct (at_checkpredicate vm) eqn:Eat; [right; by exists vm|].
  unfold mbind at 1, M_bind at 1. fold (run fuel).
  pose proof (within_step LIMIT vm fuel Hw ltac:(congruence) Hc) as Hst. unfold wp in Hst.
  destruct (step (run fuel) vm) as [[[]|e| |] v] eqn:Est; [|by left|by left|congruence].
  destruct Hst as (Hv & Hle & Hj). apply IH; try done.
  - replace false with (false || at_checkpredicate vm) by by rewrite Eat.
    by apply (reached_step h c false vm v fuel).
  - destruct Hv as [Hrv _ Hpv Epv], Hw as [_ _ Hpw Epw].
    pose proof (memCost_nonneg v). pose proof (ready_run _ _ _ Hrv).
    rewrite uint32_id in Hlt by (rewrite Epw; pose proof (slen_nonneg (Code c)); unfold_int; unfold MaxInt32 in *; lia).
    rewrite Epw in Hlt. unfold enough in *. assert (slen (Code c) <= K) by (unfold K; lia).
    destruct (Z.le_gt_cases (pc v) (pc vm)) as [Hb|Hb]; [specialize (Hj Hb)|]; nia.
Qed.

Lemma run_stops vm fuel :
  push_args (Arguments c) (initVM h c) = (Ret tt, vm) ->
  (verify_fuel (slen (Code c)) <= fuel)%nat ->
  (run fuel vm).1 <> OutOfFuel \/ reaches_checkpredicate.
Proof.
  intros Ea Hf. pose proof (start_within LIMIT vm (sized_small _ Hsized) Ea) as Hw.
  change (run fuel vm) with (run_loop fuel (set_pc 0 vm)).
  pose proof (slen_nonneg (Code c)).
  destruct (Z.le_gt_cases (slen (Code c)) MaxInt32) as [Hc|Hc].
  - apply loop_stops; try done; [by constructor|].
    pose proof (within_limit _ _ Hw). unfold verify_fuel, enough, K, initialRunLimit in *. simpl in *. nia.
  - left. destruct fuel as [|fuel]; [unfold verify_fuel, initialRunLimit in Hf; lia|].
    cbn [run_loop]. case_match; [|done]. unfold mbind at 1, M_bind at 1. fold (run fuel).
    destruct Hw as [Hr _ Hp Ep]. destruct (step_long (run fuel) (set_pc 0 vm)) as [Hn Hn']; try done.
    + by destruct Hr.
    + by rewrite Ep.
    + by destruct (step (run fuel) (set_pc 0 vm)) as [[[]|e| |] v].
Qed.

(** The bound of a run that has executed a [CHECKPREDICATE] only if [b]. *)
Lemma bound_exists b :
  b = false \/ ~ large_item c -> exists B, small B c /\ (b = true -> B <= 64).
Proof.
  intros [->|Hn]; [exists LIMIT|exists 64].
  - split; [by apply sized_small|done].
  - split; [by apply not_large_small|lia].
Qed.
End Reached.

(** C5: for every program, its arguments and every execution context, [Verify] returns
    within [verify_fuel] iterations, with a verdict or an error, or the run executes a
    [CHECKPREDICATE] while one of the items that an opcode can push out of the context
    (the program itself, hashes, transaction data) is longer than 56 bytes.  That
    exception is real: a child that fails refunds the item it could not pay for, and
    [Verify_run_limit_grows] shows a program of that kind whose run limit grows for
    ever. *)
Theorem Verify_terminates h c fuel :
  wf_env h c -> sized c -> (verify_fuel (slen (Code c)) <= fuel)%nat ->
  (exists verdict, (Verify fuel h c).1 = Some verdict) \/
  (large_item c /\ reaches_checkpredicate h c).
Proof.
  intros He Hs Hf. destruct (large_or_small _ Hs) as [Hl|Hsm].
  2: { left. apply Verify_total; try done.
       pose proof (small_introspected _ _ Hsm) as Hi. apply Forall_cons in Hi as [Hi _].
       unfold_int. unfold MaxInt32. lia. }
  unfold Verify. case_match; [left; by eexists|].
  pose proof (push_args_ok False LIMIT initialRunLimit (Arguments c) (initVM h c)
    (initVM_ready _ _ _ He (sized_small _ Hs)) (args_facts _ _ (wf_ctx _ _ He))
    (args_facts _ _ (small_slices _ _ (sized_small _ Hs)))) as Hp. unfold wp in Hp.
  destruct (push_args _ _) as [[[]|e| |] vm] eqn:Ea;
    [|by left; eexists|by left; eexists|done].
  destruct (run_stops h c He Hs vm fuel Ea Hf) as [Hn|]; [left|by right].
  destruct (run fuel vm) as [[[]|e| |] vm'];
    [by eexists|by eexists|by eexists|done].
Qed.

(** C6: every machine that [Verify] goes through, to the last one of a run that succeeds,
    satisfies the accounting of the run limit: what is left of the limit and what the two
    stacks are worth add up to at most the initial 10,000 units, so the memory a program
    can hold on its stacks is bounded, and every slice on them lies inside its array.  No
    instruction raises that sum, and one that does not advance the program counter lowers
    it.  Both hold as long as the run has not executed a [CHECKPREDICATE], and throughout
    the run if no item that an opcode can push out of the context (the program among them)
    is longer than 56 bytes; without that, a refund can raise the sum
    ([Verify_run_limit_grows]). *)
Theorem run_within_limit h c b vm :
  wf_env h c -> sized c -> reached h c b vm -> b = false \/ ~ large_item c ->
  (0 <= runLimit vm /\
   runLimit vm + stackCost (dataStack vm) + stackCost (altStack vm) <= initialRunLimit /\
   Forall (wf_slice (mem vm)) (dataStack vm ++ altStack vm)) /\
  (forall fuel vm', pc vm < uint32 (slen (program vm)) -> step (run fuel) vm = (Ret tt, vm') ->
     at_checkpredicate vm = false \/ ~ large_item c ->
     let potential v := runLimit v + stackCost (dataStack v) + stackCost (altStack v) in
     potential vm' <= potential vm /\ (pc vm' <= pc vm -> potential vm' < potential vm)) /\
  (forall fuel vm', run_loop fuel vm = (Ret tt, vm') -> exists b', reached h c b' vm').
Proof.
  intros He Hs Hr Hb.
  split; [|split; [|intros fuel vm'; by apply run_loop_reached with (b := b)]].
  - destruct (bound_exists c Hs b Hb) as (B & HsB & HB).
    destruct (reached_within h c He B b vm Hr HsB HB) as [[] Hl _ _]. unfold memCost in *.
    split_and!; [done|lia|done].
  - intros fuel vm' Hpc Est Hat.
    assert (Hb' : b || at_checkpredicate vm = false \/ ~ large_item c)
      by (destruct Hat as [->|]; [rewrite orb_false_r|]; auto).
    destruct (bound_exists c Hs _ Hb') as (B & HsB & HB).
    assert (Hw : within c B vm) by (apply (reached_within h c He B b vm Hr HsB); intros ->;
      by apply HB).
    destruct (Z.le_gt_cases (slen (Code c)) MaxInt32) as [Hc|Hc].
    + pose proof (within_step c B vm fuel Hw 
        ltac:(intros Ht; apply HB; rewrite Ht; by destruct b) Hc) as Hst.
      unfold wp in Hst. rewrite Est in Hst. unfold memCost in Hst. simpl. lia.
    + destruct Hw as [Hrd _ Hp Ep]. destruct (step_long (run fuel) vm) as [Hn _]; try done.
      * by destruct Hrd.
      * by rewrite Ep.
      * by rewrite Est in Hn.
Qed.
End Term.

(** The program [1 1 EQUAL] in an empty context, and a program of 100 bytes. *)
Lemma bare_env prog : wf_env (start_heap prog) (bare_context prog).
Proof.
  split.
  - exists [x01]. simpl. split; [done|lia].
  - repeat constructor; [exists prog|exists [x01]]; simpl; split; [done|lia|done|lia].
Qed.

Lemma bare_sized prog : zlen prog <= 1000000 -> sized (bare_context prog).
Proof. unfold zlen, sized, LIMIT. intros Hl. repeat constructor; unfold slen; simpl; lia. Qed.

Definition long_prog : bytes := [x51; x51; x87] ++ repeat x61 97.

Lemma Verify_terminates_witness :
  let V := Verify (H := exact_runtime) (H0 := toy_crypto) (verify_fuel 100)
             (start_heap long_prog) (bare_context long_prog) in
  (exists verdict, V.1 = Some verdict) \/
  (large_item (bare_context long_prog) /\
   reaches_checkpredicate (H := exact_runtime) (H0 := toy_crypto)
     (start_heap long_prog) (bare_context long_prog)).
Proof.
  intros V. apply (Verify_terminates (H := exact_runtime) (H1 := toy_crypto_laws)).
  - apply bare_env.
  - apply bare_sized. vm_compute. discriminate.
  - apply le_n.
Defined.

Lemma run_within_limit_witness :
  let vm := (run (H := exact_runtime) (H0 := toy_crypto) 1
               (initVM (start_heap long_prog) (bare_context long_prog))).2 in
  pc vm = 1 /\ dataStack vm <> [] /\
  runLimit vm + stackCost (dataStack vm) + stackCost (altStack vm) <= initialRunLimit.
Proof.
  intros vm. split; [reflexivity|]. split; [discriminate|].
  apply (run_within_limit (H := exact_runtime) (H1 := toy_crypto_laws)
           (start_heap long_prog) (bare_context long_prog) false vm).
  - apply bare_env.
  - apply bare_sized. vm_compute. discriminate.
  - apply (reached_step (H := exact_runtime) (H0 := toy_crypto) _ _ false
             (initVM (start_heap long_prog) (bare_context long_prog)) vm 0).
    + apply (reached_start (H := exact_runtime) (H0 := toy_crypto) _ _
               (initVM (start_heap long_prog) (bare_context long_prog))). reflexivity.
    + vm_compute. reflexivity.
    + vm_compute. reflexivity.
  - left. reflexivity.
Defined.
