(* ===== verification/VMFindings.v ===== *)
(** * Two programs the virtual machine mishandles

    Concrete execution contexts, and two behaviours of [protocol/vm] they show:
    a program whose run limit grows forever, and a program that overwrites the
    package variable [trueBytes] through [append]. *)

From Stdlib Require Import ZArith Lia.
From Stdlib Require Import Strings.Byte.
From S2P Require Import Prelude Checked GoSlice Crypto VMCode VM VMRun VMTerm VMExec.

(** ** A run limit that grows *)

(** [0 DATA_1 0xc4 1 CHECKPREDICATE DROP JUMP:0], followed by a hundred [NOP]s
    that are never reached.  The predicate is the single opcode [PROGRAM], run
    with a limit of 1: it pushes the 111 bytes of the program before it fails to
    pay for them. *)
Definition pump : bytes :=
  [x00; x01; xc4; x51; xc0; x75; x63; x00; x00; x00; x00] ++ replicate 100 x61.

#[local] Arguments pump : simpl never.

Section Pump.
Context `{Runtime} `{Crypto}.

(** The machine at the start of an instruction; arrays 2 and up are scratch. *)
Definition pump_vm (pc np r d : Z) (dat : bytes) (ds : list slice) (h : heap) : virtualMachine :=
  mkVM (bare_context pump) (code_slice pump) pc np r d false dat 0 ds [] h.

Ltac pump_done :=
  apply f_equal, vm_ext; vmcbn; rewrite ?int64_id by vmlia; first [reflexivity | vmlia].

Ltac pump_step tac := erewrite step_inst; [|reflexivity|reflexivity|..]; [|tac|]; [|vmlia]; pump_done.

Lemma pump_1 c h r np d dat :
  1000 <= r <= 2 ^ 60 ->
  step c (pump_vm 0 np r d dat [] ([x01] :: pump :: h)) =
  (Ret tt, pump_vm 1 1 (r - 9) 0 [] [emptySlice] ([x01] :: pump :: h)).
Proof.
  intros Hr. pump_step ltac:(apply opFalse_run; vmlia).
Qed.

Lemma pump_2 c h r np d dat ds :
  900 <= r <= 2 ^ 60 ->
  step c (pump_vm 1 np r d dat ds ([x01] :: pump :: h)) =
  (Ret tt, pump_vm 3 3 (r - 10) 0 [xc4] (Slice (2 + length h) 0 1 1 :: ds)
             ([x01] :: pump :: h ++ [[xc4]])).
Proof.
  intros Hr. pump_step ltac:(apply opPushdata_run; [vmlia|reflexivity]).
Qed.

Lemma pump_3 c h r np d dat ds :
  900 <= r <= 2 ^ 60 ->
  step c (pump_vm 3 np r d dat ds ([x01] :: pump :: h)) =
  (Ret tt, pump_vm 4 4 (r - 10) 0 [x01] (Slice (2 + length h) 0 1 1 :: ds)
             ([x01] :: pump :: h ++ [[x01]])).
Proof.
  intros Hr. pump_step ltac:(apply opPushdata_run; [vmlia|reflexivity]).
Qed.

Lemma pump_5 c h r np d dat :
  0 < r <= 2 ^ 60 ->
  step c (pump_vm 5 np r d dat [emptySlice] ([x01] :: pump :: h)) =
  (Ret tt, pump_vm 6 6 (r + 7) 0 [] [] ([x01] :: pump :: h)).
Proof.
  intros Hr. pump_step ltac:(eapply opDrop_run; [| |reflexivity]; vmlia).
Qed.

Lemma pump_6 c h r np d dat ds :
  0 < r <= 2 ^ 60 ->
  step c (pump_vm 6 np r d dat ds ([x01] :: pump :: h)) =
  (Ret tt, pump_vm 0 0 (r - 1) 0 [x00; x00; x00; x00] ds ([x01] :: pump :: h)).
Proof.
  intros Hr. pump_step ltac:(apply opJump_run; vmlia).
Qed.

(** The child machine stops on the price of the item it has just pushed. *)
Lemma pump_child f h i :
  sbytes h (Slice i 0 1 1) = [xc4] ->
  (modify (set_pc 0);; run_loop (S f))
    (mkVM (bare_context pump) (Slice i 0 1 1) 0 0 1 0 false [] 1 [] [] h) =
  (Fail ErrRunLimitExceeded,
   mkVM (bare_context pump) (Slice i 0 1 1) 0 1 0 119 false [] 1 [code_slice pump] [] h).
Proof.
  intros Hs. erewrite bind_ret by reflexivity. apply bind_fail.
  erewrite step_broke; [|cbn [program set_pc mem pc]; rewrite Hs; reflexivity|reflexivity|..].
  2: { apply opProgram_run; [vmlia|reflexivity|]. by vm_compute. }
  2: { vmcbn. change (slen (code_slice pump)) with 111. lia. }
  apply f_equal, vm_ext; vmcbn; try reflexivity.
Qed.

(** The fourth instruction refunds what the child never paid. *)
Lemma pump_4 f h r np d dat :
  900 <= r <= 2 ^ 60 ->
  step (modify (set_pc 0);; run_loop (S f))
    (pump_vm 4 np r d dat
       [Slice (3 + length h) 0 1 1; Slice (2 + length h) 0 1 1; emptySlice]
       ([x01] :: pump :: h ++ [[xc4]; [x01]])) =
  (Ret tt, pump_vm 5 5 (r + 72) (-329) [] [emptySlice] ([x01] :: pump :: h ++ [[xc4]; [x01]])).
Proof.
  intros Hr. assert (Hs2 : sbytes (h ++ [[xc4]; [x01]]) (Slice (length h) 0 1 1) = [xc4]).
  { unfold sbytes, arr. cbn [s_arr s_off s_len]. by rewrite list_lookup_middle. }
  assert (Hs3 : sbytes (h ++ [[xc4]; [x01]]) (Slice (1 + length h) 0 1 1) = [x01]).
  { unfold sbytes, arr. cbn [s_arr s_off s_len].
    change [[xc4]; [x01]] with ([[xc4]] ++ [[x01]]). rewrite (app_assoc h). rewrite list_lookup_middle; [done|].
    rewrite length_app. simpl. lia. }
  erewrite step_inst; [|reflexivity|reflexivity|..].
  2: { eapply (opCheckPredicate_run _ _ _ _ _ _ 1);
         [reflexivity|reflexivity| |reflexivity|done|vmlia|vmlia|vmlia|vmlia
         |apply pump_child; exact Hs2|..]; [|done|done|done|by vm_compute].
       exact (eq_trans (f_equal AsInt64 Hs3) eq_refl). }
  all: cbn [runLimit dataStack]; change (stackCost [code_slice pump]) with 119.
  - pump_done.
  - vmlia.
Qed.

(** Six instructions later the machine is back at the start, 49 richer. *)
Lemma pump_round f h r np d dat :
  1000 <= r <= 2 ^ 59 ->
  exists h' d' dat',
  run_loop (6 + f) (pump_vm 0 np r d dat [] ([x01] :: pump :: h)) =
  run_loop f (pump_vm 0 0 (r + 49) d' dat' [] ([x01] :: pump :: h')).
Proof.
  intros Hr. exists (h ++ [[xc4]; [x01]]), 0, [x00; x00; x00; x00].
  assert (Hgo : forall g pc np r d dat ds m vm', 0 <= pc < 111 ->
    step (modify (set_pc 0);; run_loop g) (pump_vm pc np r d dat ds m) = (Ret tt, vm') ->
    run_loop (S g) (pump_vm pc np r d dat ds m) = run_loop g vm').
  { intros g pc np' r' d' dat' ds m vm' Hpc Hs. cbn [run_loop]. cbn [VM.pc program pump_vm].
    change (uint32 (slen (code_slice pump))) with 111. rewrite (proj2 (Z.ltb_lt pc 111)) by lia.
    by erewrite bind_ret by exact Hs. }
  cbn [Nat.add].
  erewrite Hgo; [|lia|apply pump_1; lia].
  erewrite Hgo; [|lia|apply pump_2; lia].
  erewrite Hgo; [|lia|apply pump_3; lia].
  rewrite <- app_assoc, length_app. cbn [length app].
  replace (2 + (length h + 1))%nat with (3 + length h)%nat by lia.
  erewrite Hgo; [|lia|apply pump_4; lia].
  erewrite Hgo; [|lia|apply pump_5; lia].
  erewrite Hgo; [|lia|apply pump_6; lia].
  by replace (r - 9 - 10 - 10 + 72 + 7 - 1) with (r + 49) by lia.
Qed.

Lemma pump_runs n : forall h r np d dat,
  1000 <= r -> r + 49 * Z.of_nat n <= 2 ^ 59 ->
  (run_loop (6 * n) (pump_vm 0 np r d dat [] ([x01] :: pump :: h))).1 = OutOfFuel.
Proof.
  induction n as [|n IH]; intros h r np d dat H1 H2; [done|].
  replace (6 * S n)%nat with (6 + 6 * n)%nat by lia.
  destruct (pump_round (6 * n) h r np d dat) as (h' & d' & dat' & ->); [lia|].
  apply IH; lia.
Qed.
End Pump.

(** the run limit does not bound the length of a run.  [CHECKPREDICATE]
    refunds every item on the stack of a child that failed, also the one the
    child pushed and could not pay for; a child that is killed by the price of
    the context item it has pushed thus leaves its parent richer than before.
    The program [pump] gains 49 with each round of its loop: [Verify] has not
    finished after a hundred thousand billion iterations. *)
Lemma Verify_run_limit_grows `{Runtime} `{Crypto} fuel :
  Z.of_nat fuel <= 100000000000000 ->
  (Verify fuel (start_heap pump) (bare_context pump)).1 = None.
Proof.
  intros Hf. set (vm := pump_vm 0 0 10000 0 [] [] ([x01] :: pump :: [])).
  assert (Hrun : (run fuel vm).1 = OutOfFuel).
  { destruct (Z_of_nat_complete 20000000000000 ltac:(lia)) as [n Hn].
    assert (Ho := pump_runs n [] 10000 0 0 [] ltac:(lia) ltac:(lia)).
    destruct (lef_run fuel (6 * n) ltac:(lia) vm) as [|E]; [done|].
    unfold run in E at 1. erewrite bind_ret in E by reflexivity.
    change (set_pc 0 vm) with vm in E. fold vm in Ho. by rewrite E in Ho. }
  unfold Verify. change (push_args _ _) with (Ret tt, vm). cbv iota beta.
  change (negb _) with false. cbv iota. by destruct (run fuel vm) as [[] ?].
Qed.

Lemma Verify_run_limit_grows_witness :
  (Verify (H := exact_runtime) (H0 := toy_crypto) 5000
     (start_heap pump) (bare_context pump)).1 = None.
Proof. apply Verify_run_limit_grows. lia. Defined.

(** ** A constant that changes *)

(** [1 1 EQUAL 0 LEFT DATA_1 0x00 CAT DROP 1 1 EQUAL] *)
Definition clobber : bytes := [x51; x51; x87; x00; x80; x01; x00; x7e; x75; x51; x51; x87].

(** [1 1 EQUAL] *)
Definition truth : bytes := [x51; x51; x87].

(** Run [truth] in a store where it has been loaded last. *)
Definition Verify_truth `{Runtime} `{Crypto} (h : heap) : option (option verify_error) :=
  let code := Slice (length h) 0 3 3 in
  (Verify 4 (h ++ [truth])
     (mkContext 1 code [] emptySlice None None None None None None None None None None
        None None None None None None)).1.

(** [CAT] appends in place.  The prefix of length 0 that [LEFT] cuts off the
    package variable [trueBytes] has spare capacity, so [append] writes the other
    operand into that variable: after the program [clobber] every comparison of
    the process that holds is reported as false, and the program [1 1 EQUAL],
    which was accepted before, is refused. *)
Lemma opCat_clobbers_trueBytes `{Runtime} `{Crypto} :
  let h := (Verify 20 (start_heap clobber) (bare_context clobber)).2 in
  (Verify 20 (start_heap clobber) (bare_context clobber)).1
    = Some (Some (Error ErrFalseVMResult clobber [])) /\
  sbytes (start_heap clobber) trueBytes = [x01] /\ sbytes h trueBytes = [x00] /\
  Verify_truth (start_heap clobber) = Some None /\
  Verify_truth h = Some (Some (Error ErrFalseVMResult truth [])).
Proof. vm_compute. repeat split. Qed.
