(* ===== verification/VMSpec.v ===== *)
(** * What the opcodes compute

    Functional specifications of opcodes on a machine that can pay for them:
    integer arithmetic, splicing, and the verification of multiple signatures. *)

From Stdlib Require Import ZArith Lia Strings.Byte.
From S2P Require Import Prelude Checked GoSlice Crypto VMCode VM VMRun VMCost VMExec VMFindings.

(** ** Integer opcodes *)

(** The machine at the start of an instruction, with [ops] on top of the stack
    and at least [cost] to spend. *)
Record operands (vm : virtualMachine) (cost : Z) (ops rest : list slice) : Prop := {
  operands_stack : dataStack vm = ops ++ rest;
  operands_deferred : deferredCost vm = 0;
  operands_run : cost <= runLimit vm <= 2 ^ 59;
  operands_len : Forall (fun s => slen s <= 2 ^ 50) ops;
}.

(** The operation replaces its operands by the integer [z], or fails with [e]. *)
Definition computes (m : M unit) (vm : virtualMachine) (rest : list slice)
    (r : result vmerr Z) : Prop :=
  match r with
  | Ok z => exists s vm', m vm = (Ret tt, vm') /\ dataStack vm' = s :: rest /\
              sbytes (mem vm') s = int64_bytes z /\ altStack vm' = altStack vm
  | Err e => exists vm', m vm = (Fail e, vm')
  end.

(** [z] if the type [int64] holds it, and [ErrRange] otherwise. *)
Definition in_range (z : Z) : result vmerr Z := if in_int64 z then Ok z else Err ErrRange.

Lemma computes_bind {A} (m : M A) (f : A -> M unit) vm a vm' rest r :
  m vm = (Ret a, vm') -> altStack vm' = altStack vm ->
  computes (f a) vm' rest r -> computes (m ≫= f) vm rest r.
Proof. unfold computes. intros E Ha Hc. erewrite bind_ret by exact E. by rewrite <- Ha. Qed.

Lemma sbytes_Int64Bytes n h : sbytes (Int64Bytes n h).2 (Int64Bytes n h).1 = int64_bytes n.
Proof.
  unfold Int64Bytes. case_match eqn:En; [unfold int64_bytes; by rewrite En|].
  assert (exists t, le_put 8 (uint64 n) = int64_bytes n ++ t) as [t Ht].
  { unfold int64_bytes. rewrite En. destruct (trim_zeros_spec (le_put 8 (uint64 n))) as [k E]. by eexists. }
  unfold new_slice. pose proof (alloc_bytes h (le_put 8 (uint64 n)) (length (le_put 8 (uint64 n)))) as Hb.
  destruct (alloc h _ _) as [s h'] eqn:Ea. cbn [fst snd] in *.
  assert (s_len s = length (le_put 8 (uint64 n))) as Hl by (by injection Ea as <- _).
  rewrite reslice_bytes.
  - rewrite Hb, Ht, Nat.sub_0_r. apply take_app_length.
  - rewrite Hl, Ht, length_app. lia.
Qed.

Section Spec.
Context `{Runtime} `{Crypto}.

(** Pushing an integer with its cost deferred. *)
Lemma computes_pushInt64 n vm rest :
  dataStack vm = rest -> - 2 ^ 60 <= deferredCost vm <= 2 ^ 60 ->
  computes (pushInt64 n true) vm rest (Ok n).
Proof.
  intros Hd Hdc. pose proof (sbytes_Int64Bytes n (mem vm)) as Hs. unfold pushInt64.
  destruct (Int64Bytes n (mem vm)) as [s h] eqn:Ei. cbn [fst snd] in Hs.
  exists s. erewrite bind_ret by (unfold store; rewrite Ei; reflexivity).
  unfold push, deferCost, stack_push, modify, mbind, M_bind. cbn. eexists. split; [done|].
  cbn. by rewrite Hd.
Qed.

Lemma computes_checked r e rest z (f : Z -> M unit) vm :
  r = exact in_int64 z -> e = ErrRange ->
  (in_int64 z = true -> computes (f z) vm rest (Ok z)) ->
  computes (v ← checked r e; f v) vm rest (in_range z).
Proof.
  intros -> -> Hf. unfold checked, exact, in_range. destruct (in_int64 z); [|by eexists].
  cbn [fst snd]. eapply computes_bind; [reflexivity|done|auto].
Qed.

Section Binary.
Context (vm : virtualMachine) (sx sy : slice) (x y : Z) (rest : list slice).
Hypothesis Hops : operands vm 8 [sy; sx] rest.
Hypothesis Hx : AsInt64 (sbytes (mem vm) sx) = Ok x.
Hypothesis Hy : AsInt64 (sbytes (mem vm) sy) = Ok y.

(** After the fee is paid and both operands are popped. *)
Lemma pop_two c (f : Z -> Z -> M unit) r :
  0 <= c <= 8 ->
  (forall v, dataStack v = rest -> altStack v = altStack vm -> mem v = mem vm ->
     - 2 ^ 60 <= deferredCost v <= 2 ^ 60 -> computes (f y x) v rest r) ->
  computes (applyCost c;; y ← popInt64 true; x ← popInt64 true; f y x) vm rest r.
Proof.
  intros Hc Hf. destruct Hops as [Hst Hd Hr Hl]. inversion_clear Hl as [|? ? L1 Hl'].
  inversion_clear Hl' as [|? ? L2 _].
  pose proof (Zle_0_nat (s_len sx)). pose proof (Zle_0_nat (s_len sy)).
  eapply computes_bind; [apply applyCost_ret; unfold_int; lia|done|].
  eapply computes_bind; [eapply popInt64_ret; [exact Hst|exact Hy|vmlia|lia]|done|].
  eapply computes_bind; [eapply popInt64_ret; [reflexivity|exact Hx|vmlia|lia]|done|].
  apply Hf; try done. vmlia.
Qed.

Let Rx : in_int64 x = true := AsInt64_range _ _ Hx.
Let Ry : in_int64 y = true := AsInt64_range _ _ Hy.

(** A checked operation on two operands. *)
Lemma checked_binop c (g : Z -> Z -> Z * bool) z :
  0 <= c <= 8 -> g x y = exact in_int64 z ->
  computes (applyCost c;; y ← popInt64 true; x ← popInt64 true;
            res ← checked (g x y) ErrRange; pushInt64 res true) vm rest (in_range z).
Proof.
  intros Hc Hg. apply pop_two; [done|]. intros v Hv _ _ Hd.
  apply computes_checked; [done|done|]. intros _. by apply computes_pushInt64.
Qed.

Lemma computes_opAdd : computes opAdd vm rest (in_range (x + y)).
Proof. apply (checked_binop 2 AddInt64); [lia|]. by apply (add_exact (CheckedInt := checked_int64)). Qed.

Lemma computes_opSub : computes opSub vm rest (in_range (x - y)).
Proof. apply (checked_binop 2 SubInt64); [lia|]. by apply (sub_exact (CheckedInt := checked_int64)). Qed.

Lemma computes_opMul : computes opMul vm rest (in_range (x * y)).
Proof. apply (checked_binop 8 MulInt64); [lia|]. by apply (mul_exact (CheckedInt := checked_int64)). Qed.

Lemma computes_opDiv :
  computes opDiv vm rest (if y =? 0 then Err ErrDivZero else in_range (Z.quot x y)).
Proof.
  apply pop_two; [lia|]. intros v Hv _ _ Hd. unfold require. destruct (Z.eqb_spec y 0) as [E|E].
  { by eexists. }
  eapply computes_bind; [reflexivity|done|]. apply computes_checked; [|done|].
  - rewrite (div_exact (CheckedInt := checked_int64)) by done. unfold exact_quot.
    by rewrite (proj2 (Z.eqb_neq y 0)).
  - intros _. by apply computes_pushInt64.
Qed.

(** The correction turns the truncated remainder into the one with the sign of
    the divisor. *)
Lemma mod_correction :
  y <> 0 ->
  (if negb (Z.rem x y =? 0) && negb (Bool.eqb (0 <=? x) (0 <=? y))
   then int64 (Z.rem x y + y) else Z.rem x y) = x mod y.
Proof.
  intros Hy0. pose proof (Z.quot_rem' x y). pose proof (Z.rem_bound_abs x y Hy0).
  pose proof (fun H => Z.rem_nonneg x y Hy0 H) as Hs1.
  pose proof (fun H => Z.rem_nonpos x y Hy0 H) as Hs2.
  assert (in_int64 y = true) as Ry' by done. unfold_int.
  set (r := Z.rem x y) in *. set (q := Z.quot x y) in *. clearbody r q.
  assert (Hm : forall r q, x = y * q + r -> (0 <= r < y \/ y < r <= 0) -> r = x mod y)
    by (intros; eapply Z.mod_unique; eauto).
  destruct (Z.eqb_spec r 0) as [E0|E0]; cbn [negb andb].
  - apply (Hm _ q); lia.
  - destruct (Z.leb_spec 0 x), (Z.leb_spec 0 y); cbn [Bool.eqb negb].
    + apply (Hm _ q); lia.
    + rewrite int64_id by (unfold_int; lia). apply (Hm _ (q - 1)); lia.
    + rewrite int64_id by (unfold_int; lia). apply (Hm _ (q - 1)); lia.
    + apply (Hm _ q); lia.
Qed.

Lemma computes_opMod :
  computes opMod vm rest
    (if y =? 0 then Err ErrDivZero
     else if in_int64 (Z.quot x y) then Ok (x mod y) else Err ErrRange).
Proof.
  apply pop_two; [lia|]. intros v Hv _ _ Hd. unfold require. destruct (Z.eqb_spec y 0) as [E|E].
  { by eexists. }
  eapply computes_bind; [reflexivity|done|].
  rewrite (rem_exact (CheckedInt := checked_int64)) by done. unfold exact_rem.
  rewrite (proj2 (Z.eqb_neq y 0)) by done. unfold checked. cbn [orb].
  destruct (in_int64 (Z.quot x y)); cbn [negb fst snd]; [|by eexists].
  eapply computes_bind; [reflexivity|done|]. rewrite mod_correction by done.
  by apply computes_pushInt64.
Qed.

Lemma computes_opMin : computes opMin vm rest (Ok (Z.min x y)).
Proof.
  apply pop_two; [lia|]. intros v Hv _ _ Hd.
  replace (if x >? y then y else x) with (Z.min x y) by (destruct (Z.gtb_spec x y); lia).
  by apply computes_pushInt64.
Qed.

Lemma computes_opMax : computes opMax vm rest (Ok (Z.max x y)).
Proof.
  apply pop_two; [lia|]. intros v Hv _ _ Hd.
  replace (if x <? y then y else x) with (Z.max x y) by (destruct (Z.ltb_spec x y); lia).
  by apply computes_pushInt64.
Qed.
End Binary.

(** The binary integer opcodes compute exact integer arithmetic or report
    [ErrRange]; no result ever wraps around.  Division truncates, and the
    remainder takes the sign of the divisor, which is the floor remainder
    [x mod y]; a zero divisor is [ErrDivZero], and so the only overflow of the
    two is [MinInt64] by [-1]. *)
Lemma binary_ops_exact vm sx sy x y rest :
  operands vm 8 [sy; sx] rest ->
  AsInt64 (sbytes (mem vm) sx) = Ok x -> AsInt64 (sbytes (mem vm) sy) = Ok y ->
  computes opAdd vm rest (in_range (x + y)) /\
  computes opSub vm rest (in_range (x - y)) /\
  computes opMul vm rest (in_range (x * y)) /\
  computes opDiv vm rest (if y =? 0 then Err ErrDivZero else in_range (Z.quot x y)) /\
  computes opMod vm rest
    (if y =? 0 then Err ErrDivZero
     else if in_int64 (Z.quot x y) then Ok (x mod y) else Err ErrRange) /\
  computes opMin vm rest (Ok (Z.min x y)) /\
  computes opMax vm rest (Ok (Z.max x y)).
Proof.
  intros Ho Hx Hy. split_and!; eauto using computes_opAdd, computes_opSub, computes_opMul,
    computes_opDiv, computes_opMod, computes_opMin, computes_opMax.
Qed.

(** ** Splicing *)

(** [CAT] pushes the concatenation of its operands, and every slice of the
    store that does not overlap the spare capacity of the first operand keeps
    its contents.  (Nothing is promised to the others: [append] writes there.) *)
Lemma opCat_spec vm sa sb rest :
  operands vm (4 + slen sa + slen sb) [sb; sa] rest ->
  wf_slice (mem vm) sa -> wf_slice (mem vm) sb ->
  exists s vm', opCat vm = (Ret tt, vm') /\ dataStack vm' = s :: rest /\
    sbytes (mem vm') s = sbytes (mem vm) sa ++ sbytes (mem vm) sb /\
    forall t, wf_slice (mem vm) t -> disjoint_spare sa t ->
      sbytes (mem vm') t = sbytes (mem vm) t.
Proof.
  intros [Hst Hd Hr Hl] Ha Hb. inversion_clear Hl as [|? ? L1 Hl'].
  inversion_clear Hl' as [|? ? L2 _].
  pose proof (Zle_0_nat (s_len sa)). pose proof (Zle_0_nat (s_len sb)).
  pose proof (append_bytes (mem vm) sa (sbytes (mem vm) sb) Ha) as Hbs.
  pose proof (fun t => append_frame (mem vm) sa t (sbytes (mem vm) sb) Ha) as Hframe.
  unfold opCat, slen in *.
  erewrite bind_ret by (apply applyCost_ret; unfold_int; lia).
  erewrite bind_ret by (eapply pop_ret; [exact Hst|vmlia|vmlia]).
  erewrite bind_ret by (eapply pop_ret; [reflexivity|vmlia|vmlia]).
  erewrite bind_ret by (apply applyCost_ret; vmlia).
  erewrite bind_ret by (apply deferCost_ret; vmlia).
  erewrite bind_ret by reflexivity. cbn [mem set_deferredCost set_dataStack set_runLimit].
  destruct (append_slice (mem vm) sa (sbytes (mem vm) sb)) as [s h] eqn:Eapp.
  erewrite bind_ret by (unfold store; cbn; rewrite Eapp; reflexivity).
  exists s. unfold push, deferCost, stack_push, modify, mbind, M_bind. cbn. eexists.
  split; [done|]. cbn. cbn in Hbs, Hframe. auto.
Qed.

(** [SUBSTR] pushes exactly the bytes from [offset] to [offset + size] of its
    operand, and refuses a negative offset or size and a range that leaves the
    string with [ErrBadValue]; no slice expression of it is ever out of range. *)
Lemma opSubstr_spec vm ss so sn size offset rest :
  operands vm (4 + Z.max 0 size) [sn; so; ss] rest ->
  AsInt64 (sbytes (mem vm) sn) = Ok size -> AsInt64 (sbytes (mem vm) so) = Ok offset ->
  wf_slice (mem vm) ss ->
  if (0 <=? size) && (0 <=? offset) && (offset + size <=? slen ss) then
    exists s vm', opSubstr vm = (Ret tt, vm') /\ dataStack vm' = s :: rest /\
      sbytes (mem vm') s = take (Z.to_nat size) (drop (Z.to_nat offset) (sbytes (mem vm) ss))
  else exists vm', opSubstr vm = (Fail ErrBadValue, vm').
Proof.
  intros [Hst Hd Hr Hl] Hn Ho Hw. inversion_clear Hl as [|? ? L1 Hl'].
  inversion_clear Hl' as [|? ? L2 Hl'']. inversion_clear Hl'' as [|? ? L3 _].
  pose proof (Zle_0_nat (s_len ss)). pose proof (Zle_0_nat (s_len so)). pose proof (Zle_0_nat (s_len sn)).
  pose proof (AsInt64_range _ _ Hn) as Rn. pose proof (AsInt64_range _ _ Ho) as Ro.
  unfold opSubstr, require, slen in *.
  erewrite bind_ret by (apply applyCost_ret; unfold_int; lia).
  erewrite bind_ret by (eapply popInt64_ret; [exact Hst|exact Hn|vmlia|vmlia]).
  destruct (Z.leb_spec 0 size) as [Hsz|]; [|by eexists].
  erewrite bind_ret by reflexivity.
  erewrite bind_ret by (apply applyCost_ret; vmlia).
  erewrite bind_ret by (apply deferCost_ret; vmlia).
  erewrite bind_ret by (eapply popInt64_ret; [reflexivity|exact Ho|vmlia|vmlia]).
  destruct (Z.leb_spec 0 offset) as [Hof|]; [|by eexists].
  erewrite bind_ret by reflexivity.
  erewrite bind_ret by (eapply pop_ret; [reflexivity|vmlia|vmlia]).
  rewrite (add_exact (CheckedInt := checked_int64)) by done. unfold checked, exact.
  destruct (Z.leb_spec (offset + size) (Z.of_nat (s_len ss))) as [Hin|Hout]; cbn [andb].
  - assert (in_int64 (offset + size) = true) as Rs by (unfold_int; lia). rewrite Rs. cbn [fst snd].
    erewrite bind_ret by reflexivity. rewrite (proj2 (Z.leb_le _ _) Hin).
    erewrite bind_ret by reflexivity. exists (reslice ss (Z.to_nat offset) (Z.to_nat (offset + size))).
    unfold push, deferCost, stack_push, modify, mbind, M_bind. cbn -[reslice]. eexists. split; [done|].
    split; [done|]. cbn -[reslice]. rewrite reslice_bytes by lia. f_equal. lia.
  - destruct (in_int64 (offset + size)); cbn [fst snd]; [|by eexists].
    erewrite bind_ret by reflexivity. rewrite (proj2 (Z.leb_gt _ _) Hout). by eexists.
Qed.

(** ** Multiple signatures *)

(** Every signature verifies under its own public key, in the order of the keys. *)
Definition signed_by (msg : bytes) (sigs keys : list bytes) : Prop :=
  exists sel, sel `sublist_of` keys /\
    Forall2 (fun s p => ed25519_Verify p msg s = true) sigs sel.

Lemma signed_by_skip msg s sigs p keys :
  ed25519_Verify p msg s = false ->
  signed_by msg (s :: sigs) (p :: keys) -> signed_by msg (s :: sigs) keys.
Proof.
  intros Hv (sel & Hs & Hf). apply Forall2_cons_inv_l in Hf as (q & sel' & Hq & Hf & ->).
  apply sublist_cons_r in Hs as [Hs|(l & [= <- <-] & Hs)].
  - exists (q :: sel'). split; [done|by constructor].
  - congruence.
Qed.

Lemma signed_by_take msg s sigs p keys :
  signed_by msg (s :: sigs) (p :: keys) -> signed_by msg sigs keys.
Proof.
  intros (sel & Hs & Hf). apply Forall2_cons_inv_l in Hf as (q & sel' & Hq & Hf & ->).
  exists sel'. split; [|done]. apply sublist_cons_r in Hs as [Hs|(l & [= <- <-] & Hs)]; [|done].
  etrans; [|done]. by apply sublist_cons.
Qed.

(** The greedy loop finds an assignment whenever there is one. *)
Lemma match_sigs_signed msg keys : forall sigs,
  match_sigs msg sigs keys = [] <-> signed_by msg sigs keys.
Proof.
  induction keys as [|p keys IH]; intros [|s sigs]; cbn [match_sigs].
  - split; [|done]. exists []. by split.
  - split; [done|]. intros (sel & ->%sublist_nil_r & Hf). inversion Hf.
  - split; [|done]. exists []. split; [apply sublist_nil_l|constructor].
  - destruct (ed25519_Verify p msg s) eqn:Hv; rewrite IH; split.
    + intros (sel & Hs & Hf). exists (p :: sel). split; [by apply sublist_skip|by constructor].
    + apply signed_by_take.
    + intros (sel & Hs & Hf). exists sel. split; [by apply sublist_cons|done].
    + by apply signed_by_skip.
Qed.

(** Popping [n] items with their refund deferred. *)
Lemma popN_ret ss : forall rest vm,
  dataStack vm = ss ++ rest -> - 2 ^ 58 <= deferredCost vm - stackCost ss ->
  deferredCost vm <= 2 ^ 58 ->
  popN (length ss) vm =
  (Ret ss, set_deferredCost (deferredCost vm - stackCost ss) (set_dataStack rest vm)).
Proof.
  induction ss as [|s ss IH]; intros rest vm Hst Hlo Hhi; cbn [popN length stackCost] in *.
  - unfold mret, M_ret. f_equal. simpl in Hst. subst rest. apply vm_ext; vmcbn; try done. lia.
  - pose proof (Zle_0_nat (s_len s)). pose proof (stackCost_nonneg ss). unfold slen in *.
    erewrite bind_ret by (eapply pop_ret; [exact Hst|unfold slen; lia|unfold slen; lia]).
    erewrite bind_ret by (apply (IH rest); [reflexivity|vmlia|vmlia]).
    unfold mret, M_ret. f_equal. apply vm_ext; vmcbn; try done. unfold slen. lia.
Qed.

(** [CHECKMULTISIG] accepts exactly when the signatures can be assigned to
    distinct public keys, in the order both were given, so that each verifies:
    the loop never backtracks, and needs not to. *)
Lemma opCheckMultiSig_spec vm sn sm pubs smsg sigs rest :
  dataStack vm = sn :: sm :: pubs ++ smsg :: sigs ++ rest -> deferredCost vm = 0 ->
  stackCost (dataStack vm) <= 2 ^ 50 -> 1024 * zlen pubs <= runLimit vm <= 2 ^ 59 ->
  AsInt64 (sbytes (mem vm) sn) = Ok (zlen pubs) -> AsInt64 (sbytes (mem vm) sm) = Ok (zlen sigs) ->
  1 <= zlen sigs <= zlen pubs -> slen smsg = 32 -> Forall (fun p => slen p = 32) pubs ->
  exists b vm', opCheckMultiSig vm = (Ret tt, vm') /\ dataStack vm' = BoolBytes b :: rest /\
    (b = true <-> signed_by (sbytes (mem vm) smsg) (map (sbytes (mem vm)) sigs)
                    (map (sbytes (mem vm)) pubs)).
Proof.
  intros Hst Hd Hcost Hr Hn Hm Hrange Hmsg Hpubs. rewrite Hst in Hcost.
  cbn [stackCost] in Hcost. rewrite !stackCost_app in Hcost. cbn [stackCost] in Hcost.
  rewrite stackCost_app in Hcost.
  pose proof (stackCost_nonneg pubs). pose proof (stackCost_nonneg sigs).
  pose proof (stackCost_nonneg rest). pose proof (slen_nonneg sn). pose proof (slen_nonneg sm).
  unfold opCheckMultiSig.
  erewrite bind_ret by (eapply popInt64_ret; [exact Hst|exact Hn|lia|lia]).
  rewrite (mul_exact (CheckedInt := checked_int64)) by (unfold_int; lia).
  unfold exact. assert (in_int64 (zlen pubs * 1024) = true) as -> by (unfold_int; lia).
  unfold require. rewrite (ltb_ge_false (zlen pubs) 0) by lia. cbn [orb negb].
  erewrite bind_ret by reflexivity. erewrite bind_ret by (apply applyCost_ret; vmlia).
  erewrite bind_ret by (eapply popInt64_ret; [reflexivity|exact Hm|vmcbn; lia|lia]).
  rewrite (ltb_ge_false (zlen sigs) 0), (ltb_ge_false (zlen pubs) (zlen sigs)) by lia.
  rewrite (proj2 (Z.eqb_neq (zlen sigs) 0)), andb_false_r by lia. cbn [orb negb].
  erewrite bind_ret by reflexivity. unfold zlen in *. rewrite !Nat2Z.id.
  erewrite bind_ret by (eapply popN_ret; [reflexivity|vmcbn; lia|vmcbn; lia]).
  erewrite bind_ret by (eapply pop_ret; [reflexivity|vmcbn; lia|lia]).
  rewrite (proj2 (Z.eqb_eq (slen smsg) 32)) by done. erewrite bind_ret by reflexivity.
  erewrite bind_ret by (eapply popN_ret; [reflexivity|vmcbn; lia|vmcbn; lia]).
  assert (existsb (fun p => negb (slen p =? PublicKeySize)) pubs = false) as ->.
  { clear -Hpubs. induction Hpubs as [|p ps Hp _ IHp]; [done|]. cbn [existsb]. by rewrite Hp. }
  erewrite bind_ret by reflexivity. cbn [mem set_deferredCost set_dataStack set_runLimit].
  eexists _, _. split; [reflexivity|]. split; [reflexivity|].
  rewrite <- match_sigs_signed. rewrite Z.eqb_eq.
  destruct (match_sigs _ _ _); cbn [length]; split; try done; lia.
Qed.
End Spec.

(** ** Examples *)

(** Arrays 1 to 4 hold the integers -7 and 2 and two byte strings. *)
Definition demo_heap : heap := [[x01]; int64_bytes (-7); [x02]; [x61; x62; x63]; [x64]].
Definition demo (i : nat) : slice := Slice i 0 (length (arr demo_heap i)) (length (arr demo_heap i)).

Ltac demo_operands := split; [reflexivity|reflexivity|vm_compute; by split|repeat constructor; by vm_compute].

Lemma demo_wf i a : demo_heap !! i = Some a -> wf_slice demo_heap (demo i).
Proof. intros E. exists a. unfold demo, arr. simpl s_arr. rewrite E. simpl. split; [done|lia]. Qed.

Lemma binary_ops_exact_witness :
  computes opMod (demo_vm [demo 2; demo 1] demo_heap) [] (Ok 1) /\
  computes opDiv (demo_vm [demo 2; demo 1] demo_heap) [] (Ok (-3)).
Proof.
  destruct (binary_ops_exact (demo_vm [demo 2; demo 1] demo_heap) (demo 1) (demo 2) (-7) 2 [])
    as (_ & _ & _ & Hdiv & Hmod & _); [demo_operands|reflexivity|reflexivity|].
  split; [exact Hmod|exact Hdiv].
Defined.

(** One signature, two keys; the second key signed. *)
Definition multisig_heap : heap :=
  [[x01]; [x02]; [x01]; replicate 32 x00; replicate 32 x01; replicate 32 x02; replicate 32 x01].

Definition multisig_slice (i : nat) : slice :=
  Slice i 0 (length (arr multisig_heap i)) (length (arr multisig_heap i)).

Lemma opCheckMultiSig_spec_witness :
  exists vm', opCheckMultiSig (H0 := toy_crypto) (demo_vm (map multisig_slice [1; 2; 3; 4; 5; 6]%nat) multisig_heap)
    = (Ret tt, vm') /\ dataStack vm' = [trueBytes].
Proof.
  destruct (opCheckMultiSig_spec (H0 := toy_crypto)
    (demo_vm (map multisig_slice [1; 2; 3; 4; 5; 6]%nat) multisig_heap)
    (multisig_slice 1) (multisig_slice 2) [multisig_slice 3; multisig_slice 4] (multisig_slice 5)
    [multisig_slice 6] []) as (b & vm' & E1 & E2 & E3);
    [reflexivity|reflexivity|by vm_compute|vm_compute; by split|reflexivity|reflexivity
    |vm_compute; by split|reflexivity|repeat constructor|].
  exists vm'. split; [exact E1|]. rewrite E2.
  assert (b = true) as ->; [|done]. apply E3. exists [replicate 32 x01]. split.
  - apply sublist_cons. reflexivity.
  - repeat constructor.
Defined.
