(* ===== verification/VMUtil.v ===== *)
(** * Standard programs: [protocol/vmutil]

    The program builder ([builder.go]) and the multisignature programs of
    [script.go]: their construction, their parsers, and that the parsers invert
    the constructions. *)

From Stdlib Require Import ZArith Lia Strings.Byte.
From S2P Require Import Prelude Checked GoSlice Crypto VMCode VM.

(** Errors of the package, and errors of [vm] it passes on; messages are not
    modelled. *)
Inductive uerr := VmErr (e : vmerr) | UErrBadValue | ErrMultisigFormat.

(** ** [builder.go] *)

Record Builder := mkBuilder { Program : bytes }.

Definition NewBuilder : Builder := mkBuilder [].
Definition AddInt64 (b : Builder) (n : Z) : Builder := mkBuilder (Program b ++ PushdataInt64 n).
Definition AddData (b : Builder) (d : bytes) : Builder := mkBuilder (Program b ++ PushdataBytes d).
Definition AddRawBytes (b : Builder) (d : bytes) : Builder := mkBuilder (Program b ++ d).
Definition AddOp (b : Builder) (op : Z) : Builder := mkBuilder (Program b ++ [byte_of_Z op]).

(** ** [script.go] *)

Definition IsUnspendable (prog : bytes) : bool :=
  (0 <? zlen prog) && (at_ prog 0 =? OP_FAIL).

Definition checkMultiSigParams (nrequired npubkeys : Z) : result uerr unit :=
  if nrequired <? 0 then Err UErrBadValue
  else if npubkeys <? 0 then Err UErrBadValue
  else if npubkeys <? nrequired then Err UErrBadValue
  else if (nrequired =? 0) && (0 <? npubkeys) then Err UErrBadValue
  else Ok tt.

Definition BlockMultiSigProgram (pubkeys : list bytes) (nrequired : Z) : result uerr bytes :=
  checkMultiSigParams nrequired (zlen pubkeys);;
  let builder := AddOp NewBuilder OP_BLOCKHASH in
  let builder := foldl AddData builder pubkeys in
  let builder := AddOp (AddInt64 (AddInt64 builder nrequired) (zlen pubkeys)) OP_CHECKMULTISIG in
  mret (Program builder).

Definition P2SPMultiSigProgram (pubkeys : list bytes) (nrequired : Z) : result uerr bytes :=
  checkMultiSigParams nrequired (zlen pubkeys);;
  let builder := AddOp (AddOp NewBuilder OP_DUP) OP_TOALTSTACK in
  let builder := AddOp builder OP_SHA3 in
  let builder := foldl AddData builder pubkeys in
  let builder := AddInt64 builder nrequired in
  let builder := AddInt64 builder (zlen pubkeys) in
  let builder := AddOp (AddOp builder OP_CHECKMULTISIG) OP_VERIFY in
  let builder := AddOp builder OP_FROMALTSTACK in
  let builder := AddOp (AddInt64 builder 0) OP_CHECKPREDICATE in
  mret (Program builder).

(** A call of a function of [vm] whose error is returned as it is, or replaced. *)
Definition vm_result {A} (r : result vmerr A) : result uerr A :=
  match r with Ok a => Ok a | Err e => Err (VmErr e) end.
Definition or_err {A} (e : uerr) (r : result vmerr A) : result uerr A :=
  match r with Ok a => Ok a | Err _ => Err e end.

(** The instructions of a program; the parser of a program that is too long for
    an index can panic, and its fuel is always enough. *)
Definition instructions (prog : bytes) : result uerr (list Instruction) :=
  match ParseProgram prog with
  | Ret insts => Ok insts
  | Fail e => Err (VmErr e)
  | Panic | OutOfFuel => Err (VmErr ErrUnexpected)
  end.

(** [pops[len(pops)-i].Data] and [.Op], for an index in range. *)
Definition from_end (pops : list Instruction) (i : nat) : Instruction :=
  nth (length pops - i) pops (mkInst 0 0 []).

(** The loop over the public keys: [return nil, 0, err] inside it returns the
    error of the last call that succeeded, which is nil. *)
Fixpoint collect_keys (acc : list bytes) (pops : list Instruction) (nrequired : Z) :
    list bytes * Z :=
  match pops with
  | [] => (acc, nrequired)
  | p :: pops =>
      if negb (zlen (Data p) =? PublicKeySize) then ([], 0)
      else collect_keys (acc ++ [Data p]) pops nrequired
  end.

Definition ParseBlockMultiSigProgram (script : bytes) : result uerr (list bytes * Z) :=
  pops ← instructions script;
  if zlen pops <? 4 then Err (VmErr ErrShortProgram)
  else if negb (Op (from_end pops 1) =? OP_CHECKMULTISIG) then Err ErrMultisigFormat
  else
    npubkeys ← or_err ErrMultisigFormat (AsInt64 (Data (from_end pops 2)));
    if negb (npubkeys =? zlen pops - 4) then Err (VmErr ErrShortProgram)
    else
      nrequired ← or_err ErrMultisigFormat (AsInt64 (Data (from_end pops 3)));
      checkMultiSigParams nrequired npubkeys;;
      let firstPubkeyIndex := zlen pops - 3 - npubkeys in
      mret (collect_keys []
              (subslice firstPubkeyIndex (firstPubkeyIndex + npubkeys) pops) nrequired).

Definition ParseP2SPMultiSigProgram (program : bytes) : result uerr (list bytes * Z) :=
  pops ← instructions program;
  if zlen pops <? 11 then Err (VmErr ErrShortProgram)
  else
    npubkeys ← vm_result (AsInt64 (Data (from_end pops 6)));
    if zlen pops - 10 <? npubkeys then Err (VmErr ErrShortProgram)
    else
      nrequired ← vm_result (AsInt64 (Data (from_end pops 7)));
      checkMultiSigParams nrequired npubkeys;;
      let firstPubkeyIndex := zlen pops - 7 - npubkeys in
      mret (collect_keys []
              (subslice firstPubkeyIndex (firstPubkeyIndex + npubkeys) pops) nrequired).

(** ** The programs as sequences of encoded instructions *)

Lemma Program_AddDatas keys b :
  Program (foldl AddData b keys) = Program b ++ concat (map PushdataBytes keys).
Proof.
  revert b. induction keys as [|k keys IH]; intros b; simpl; [by rewrite app_nil_r|].
  rewrite IH. simpl. by rewrite app_assoc.
Qed.

(** The parameters [checkMultiSigParams] accepts. *)
Lemma checkMultiSigParams_ok n m :
  checkMultiSigParams n m = Ok tt <-> (1 <= n <= m \/ n = 0 /\ m = 0).
Proof.
  unfold checkMultiSigParams.
  destruct (Z.ltb_spec n 0); [split; [done|lia]|].
  destruct (Z.ltb_spec m 0); [split; [done|lia]|].
  destruct (Z.ltb_spec m n); [split; [done|lia]|].
  destruct (Z.eqb_spec n 0), (Z.ltb_spec 0 m); simpl; split; try done; lia.
Qed.

Lemma encodes_op op :
  bool_decide (op ∈ [OP_BLOCKHASH; OP_CHECKMULTISIG; OP_DUP; OP_TOALTSTACK; OP_SHA3; OP_VERIFY;
                     OP_FROMALTSTACK; OP_CHECKPREDICATE]) = true ->
  encodes [byte_of_Z op] (mkInst op 1 []).
Proof.
  intros Hop%bool_decide_eq_true. rewrite !elem_of_cons in Hop.
  destruct_or!; try subst; try (by inversion Hop); apply encodes_plain;
    unfold OP_BLOCKHASH, OP_CHECKMULTISIG, OP_DUP, OP_TOALTSTACK, OP_SHA3, OP_VERIFY,
      OP_FROMALTSTACK, OP_CHECKPREDICATE, OP_JUMP, OP_JUMPIF; lia.
Qed.

Lemma keys_encoded keys :
  Forall (fun k => zlen k = PublicKeySize) keys ->
  exists insts, Forall2 encodes (map PushdataBytes keys) insts /\ map Data insts = keys.
Proof.
  induction 1 as [|k keys Hk _ (insts & HF & Hm)]; [by exists []|].
  destruct (PushdataBytes_encodes k) as [op He].
  { rewrite Hk. unfold PublicKeySize. unfold_int. lia. }
  exists (mkInst op (zlen (PushdataBytes k)) k :: insts). simpl. by rewrite Hm; split; [constructor|].
Qed.

Lemma collect_keys_all insts keys acc n :
  map Data insts = keys -> Forall (fun k => zlen k = PublicKeySize) keys ->
  collect_keys acc insts n = (acc ++ keys, n).
Proof.
  intros <-. revert acc. induction insts as [|i insts IH]; intros acc HF; simpl.
  - by rewrite app_nil_r.
  - apply Forall_cons in HF as [Hi HF]. rewrite Hi. simpl. rewrite IH by done. by rewrite <- app_assoc.
Qed.

Lemma ParseProgram_parts codes insts :
  Forall2 encodes codes insts -> zlen (concat codes) <= MaxInt32 ->
  instructions (concat codes) = Ok insts.
Proof. intros HF Hl. unfold instructions. by rewrite (ParseProgram_encoded _ _ HF Hl). Qed.

(** An element counted from the end. *)
Lemma from_end_app a b i : (1 <= i <= length b)%nat -> from_end (a ++ b) i = from_end b i.
Proof.
  intros Hi. unfold from_end. rewrite length_app, app_nth2 by lia. f_equal. lia.
Qed.

Lemma keys_count keys insts pre suf :
  Forall2 encodes (map PushdataBytes keys) insts ->
  zlen (pre ++ concat (map PushdataBytes keys) ++ suf) <= MaxInt32 ->
  in_int64 (zlen keys) = true.
Proof.
  intros HF Hl. apply encodes_codes_length in HF. rewrite length_map in HF.
  unfold zlen in *. rewrite !length_app in Hl. unfold_int. lia.
Qed.

(** The loop over the public keys of a parsed program. *)
Lemma keys_between keys ki head tail lo hi n :
  map Data ki = keys -> Forall (fun k => zlen k = PublicKeySize) keys ->
  lo = zlen head -> hi = zlen head + zlen keys ->
  collect_keys [] (subslice lo hi (head ++ ki ++ tail)) n = (keys, n).
Proof.
  intros Hki Hk -> ->. rewrite subslice_app; [|done|].
  - by rewrite (collect_keys_all _ keys).
  - rewrite <- Hki. unfold zlen. by rewrite length_map.
Qed.

(** Match encoded instructions with their parts. *)
Ltac encoded :=
  repeat first [assumption | apply Forall2_app | apply Forall2_cons; split | exact (List.Forall2_nil _)
               | apply encodes_op; reflexivity].

(** ** Round trips *)

(** a block multisignature program is parsed back into the keys and the
    quorum it was built from. *)
Lemma BlockMultiSig_roundtrip keys n prog :
  Forall (fun k => zlen k = PublicKeySize) keys -> in_int64 n = true ->
  BlockMultiSigProgram keys n = Ok prog -> zlen prog <= MaxInt32 ->
  ParseBlockMultiSigProgram prog = Ok (keys, n).
Proof.
  intros Hkeys Hn. unfold BlockMultiSigProgram.
  destruct (checkMultiSigParams n (zlen keys)) as [[]|] eqn:Hp; [|done].
  cbn [mbind result_bind]. intros [= <-]. cbn [Program AddOp AddInt64]. rewrite Program_AddDatas.
  cbn [Program AddOp NewBuilder]. rewrite app_nil_l, <- !app_assoc. intros Hl.
  destruct (keys_encoded keys Hkeys) as (ki & HF & Hki).
  pose proof (keys_count _ _ [byte_of_Z OP_BLOCKHASH] _ HF Hl) as Hm.
  destruct (PushdataInt64_encodes n Hn) as (o1 & d1 & E1 & D1).
  destruct (PushdataInt64_encodes _ Hm) as (o2 & d2 & E2 & D2).
  set (i1 := mkInst o1 _ d1) in *. set (i2 := mkInst o2 _ d2) in *.
  set (tail := [i1; i2; mkInst OP_CHECKMULTISIG 1 []]).
  set (insts := [mkInst OP_BLOCKHASH 1 []] ++ ki ++ tail).
  pose proof (ParseProgram_parts ([[byte_of_Z OP_BLOCKHASH]] ++ map PushdataBytes keys ++
    [PushdataInt64 n; PushdataInt64 (zlen keys); [byte_of_Z OP_CHECKMULTISIG]]) insts) as Hi.
  rewrite !concat_app in Hi. cbn [concat] in Hi. rewrite !app_nil_r in Hi.
  unfold ParseBlockMultiSigProgram.
  rewrite Hi; [|encoded|done].
  cbn [mbind result_bind].
  assert (zlen insts = 4 + zlen keys) as Hlen.
  { unfold insts. rewrite !zlen_app. rewrite <- Hki. unfold zlen. rewrite length_map. simpl. lia. }
  pose proof (zlen_nonneg keys).
  rewrite Hlen. rewrite (proj2 (Z.ltb_ge _ _)) by lia.
  assert (Htl : forall i, (1 <= i <= 3)%nat -> from_end insts i = from_end tail i).
  { intros i Hi'. unfold insts. rewrite app_assoc. apply from_end_app. simpl. lia. }
  rewrite !Htl by lia. unfold from_end. cbn [length tail nth Nat.sub Op Data i1 i2].
  rewrite Z.eqb_refl, D2, D1. cbn [or_err negb mbind result_bind].
  replace (4 + zlen keys - 4) with (zlen keys) by lia. rewrite Z.eqb_refl, Hp. cbn [negb].
  unfold insts. by rewrite (keys_between keys ki) by (try done; unfold zlen; simpl; lia).
Qed.

(** A pay-to-signature-program is parsed back into the keys and the quorum it
    was built from, also when other instructions were put in front of it. *)
Lemma P2SPMultiSig_roundtrip codes pre keys n prog :
  Forall2 encodes codes pre ->
  Forall (fun k => zlen k = PublicKeySize) keys -> keys <> [] -> in_int64 n = true ->
  P2SPMultiSigProgram keys n = Ok prog -> zlen (concat codes ++ prog) <= MaxInt32 ->
  ParseP2SPMultiSigProgram (concat codes ++ prog) = Ok (keys, n).
Proof.
  intros Hpre Hkeys Hne Hn. unfold P2SPMultiSigProgram.
  destruct (checkMultiSigParams n (zlen keys)) as [[]|] eqn:Hp; [|done].
  cbn [mbind result_bind]. intros [= <-]. cbn [Program AddOp AddInt64]. rewrite Program_AddDatas.
  cbn [Program AddOp NewBuilder]. rewrite app_nil_l, <- !app_assoc. intros Hl.
  destruct (keys_encoded keys Hkeys) as (ki & HF & Hki).
  assert (Hm : in_int64 (zlen keys) = true).
  { rewrite !app_assoc, <- (app_assoc _ (concat (map _ _))) in Hl. rewrite <- !app_assoc in Hl.
    rewrite 3!app_assoc in Hl. exact (keys_count _ _ _ _ HF Hl). }
  destruct (PushdataInt64_encodes n Hn) as (o1 & d1 & E1 & D1).
  destruct (PushdataInt64_encodes _ Hm) as (o2 & d2 & E2 & D2).
  destruct (PushdataInt64_encodes 0 eq_refl) as (o3 & d3 & E3 & _).
  set (i1 := mkInst o1 _ d1) in *. set (i2 := mkInst o2 _ d2) in *. set (i3 := mkInst o3 _ d3) in *.
  set (plain op := mkInst op 1 []).
  set (head := pre ++ [plain OP_DUP; plain OP_TOALTSTACK; plain OP_SHA3]).
  set (tail := [i1; i2; plain OP_CHECKMULTISIG; plain OP_VERIFY; plain OP_FROMALTSTACK; i3;
                plain OP_CHECKPREDICATE]).
  pose proof (ParseProgram_parts ((codes ++
    [[byte_of_Z OP_DUP]; [byte_of_Z OP_TOALTSTACK]; [byte_of_Z OP_SHA3]]) ++
    map PushdataBytes keys ++
    [PushdataInt64 n; PushdataInt64 (zlen keys); [byte_of_Z OP_CHECKMULTISIG]; [byte_of_Z OP_VERIFY];
     [byte_of_Z OP_FROMALTSTACK]; PushdataInt64 0; [byte_of_Z OP_CHECKPREDICATE]])
    (head ++ ki ++ tail)) as Hi.
  rewrite !concat_app in Hi. cbn [concat] in Hi. rewrite !app_nil_r, <- !app_assoc in Hi.
  unfold ParseP2SPMultiSigProgram.
  rewrite Hi; [|unfold head; rewrite <- app_assoc; encoded|done].
  cbn [mbind result_bind].
  assert (Hlen : zlen (head ++ ki ++ tail) = zlen pre + 10 + zlen keys).
  { unfold head. rewrite !zlen_app, <- Hki. unfold zlen. rewrite length_map. simpl. lia. }
  assert (1 <= zlen keys) by (destruct keys; [done|unfold zlen; simpl; lia]).
  pose proof (zlen_nonneg pre). rewrite Hlen. rewrite (proj2 (Z.ltb_ge _ 11)) by lia.
  assert (Htl : forall i, (1 <= i <= 7)%nat -> from_end (head ++ ki ++ tail) i = from_end tail i).
  { intros i Hi'. rewrite app_assoc. apply from_end_app. simpl. lia. }
  rewrite !Htl by lia. unfold from_end. cbn [length tail nth Nat.sub Op Data i1 i2].
  rewrite D2, D1. cbn [vm_result mbind result_bind]. rewrite (proj2 (Z.ltb_ge _ (zlen keys))) by lia.
  rewrite Hp. cbn [mbind result_bind].
  rewrite (keys_between keys ki); [done|done|done| |]; unfold head; rewrite ?zlen_app; unfold zlen; simpl; lia.
Qed.

(** ** Examples *)

Definition key_a : bytes := replicate 32 x61.
Definition key_b : bytes := replicate 32 x62.

Lemma BlockMultiSig_roundtrip_witness :
  exists prog, BlockMultiSigProgram [key_a; key_b] 2 = Ok prog /\
    ParseBlockMultiSigProgram prog = Ok ([key_a; key_b], 2).
Proof.
  eexists. split; [reflexivity|].
  apply BlockMultiSig_roundtrip; [repeat constructor|reflexivity|reflexivity|by vm_compute].
Defined.

(** A program with one key of 31 bytes. *)
Definition short_key_program : bytes :=
  byte_of_Z OP_BLOCKHASH :: PushdataBytes (replicate 31 x61) ++ PushdataInt64 1 ++ PushdataInt64 1
  ++ [byte_of_Z OP_CHECKMULTISIG].

(** the parser of block programs reports success for a program with a key of
    the wrong length, with no keys and a quorum of 0: the error it returns from
    inside the loop over the keys is the nil error of the last successful call. *)
Lemma ParseBlockMultiSig_swallows_bad_key :
  ParseBlockMultiSigProgram short_key_program = Ok ([], 0).
Proof. vm_compute. reflexivity. Qed.
