(* ===== verification/Encoding.v ===== *)
(** * Encoding of data primitives: [encoding/blockchain/blockchain.go]

    Variable-length integers, byte strings, lists of byte strings and extensible
    strings, written to an arbitrary [io.Writer] and read back from a [Reader].

    Of the standard library, [binary.PutUvarint] and [binary.ReadUvarint] are
    modelled as of Go 1.8; a [Reader] is the list of its unread bytes. *)

From Stdlib Require Import ZArith Lia Strings.Byte.
From S2P Require Import Prelude.

(** The errors of this package, of [io] and of [encoding/binary], that of a writer,
    and those of the packages that read messages with this one. *)
Inductive serr :=
| EOF | ErrUnexpectedEOF | overflow | ErrRange | WriteError
| Unsupported | errBadAssetID | TrailingGarbage.

#[export] Instance serr_eq_dec : EqDecision serr.
Proof. solve_decision. Defined.

(** ** Reading *)

Definition Reader := bytes.
Definition NewReader (b : bytes) : Reader := b.
Definition Len (r : Reader) : Z := zlen r.

(** A method of a reader: it may have consumed input also when it fails. *)
Definition R (A : Type) : Type := Reader -> result serr A * Reader.

#[export] Instance R_ret : MRet R := fun A a r => (Ok a, r).
#[export] Instance R_bind : MBind R := fun A B f m r =>
  match m r with
  | (Ok a, r') => f a r'
  | (Err e, r') => (Err e, r')
  end.

Definition rfail {A} (e : serr) : R A := fun r => (Err e, r).

Definition ReadByte : R byte := fun r =>
  match r with
  | [] => (Err EOF, r)
  | b :: r => (Ok b, r)
  end.

(** [Read] into a buffer of [n] bytes: the bytes copied, and [io.EOF] when the
    input is exhausted. *)
Definition Read (n : nat) (r : Reader) : (bytes * option serr) * Reader :=
  let r' := drop n r in
  ((take n r, if zlen r' =? 0 then Some EOF else None), r').

(** [binary.ReadUvarint]: [x], [s] and [i] are the variables of its loop, which
    reads one byte per iteration. *)
Fixpoint ReadUvarint_loop (x s i : Z) (r : Reader) : result serr Z * Reader :=
  match r with
  | [] => (Err EOF, [])
  | b :: r =>
      let b := Z_of_byte b in
      if b <? 0x80 then
        if (9 <? i) || ((i =? 9) && (1 <? b)) then (Err overflow, r)
        else (Ok (Z.lor x (uint64 (Z.shiftl b s))), r)
      else ReadUvarint_loop (Z.lor x (uint64 (Z.shiftl (Z.land b 0x7f) s))) (s + 7) (i + 1) r
  end.

Definition ReadUvarint : R Z := ReadUvarint_loop 0 0 0.

Definition ReadVarint31 : R Z :=
  val ← ReadUvarint;
  if MaxInt32 <? val then rfail ErrRange else mret (uint32 val).

Definition ReadVarint63 : R Z :=
  val ← ReadUvarint;
  if MaxInt64 <? val then rfail ErrRange else mret val.

Definition ReadVarstr31 : R bytes :=
  l ← ReadVarint31;
  if l =? 0 then mret []
  else fun r =>
    if zlen r <? l then (Err ErrUnexpectedEOF, r)
    else (Ok (take (Z.to_nat l) r), drop (Z.to_nat l) r).

(** The loop of [ReadVarstrList]: the strings read so far, the count that is left
    and the error that ended it. *)
Fixpoint ReadVarstrs (nelts : nat) (acc : list bytes) (r : Reader) :
    (list bytes * nat * option serr) * Reader :=
  match nelts with
  | O => ((acc, O, None), r)
  | S nelts =>
      match ReadVarstr31 r with
      | (Ok s, r) => ReadVarstrs nelts (acc ++ [s]) r
      | (Err e, r) => ((acc ++ [[]], nelts, Some e), r)
      end
  end.

(** Both results of the function are kept: a partial list and an error. *)
Definition ReadVarstrList (r : Reader) : (list bytes * option serr) * Reader :=
  match ReadVarint31 r with
  | (Err e, r) => (([], Some e), r)
  | (Ok nelts, r) =>
      if nelts =? 0 then (([], None), r)
      else
        let '((result, nleft, err), r) := ReadVarstrs (Z.to_nat nelts) [] r in
        ((result, if (length result <? nleft)%nat then Some ErrUnexpectedEOF else err), r)
  end.

(** [f] reads from the extensible string; the rest of the string is returned. *)
Definition ReadExtensibleString {A} (f : R A) : R (A * bytes) := fun r =>
  match ReadVarstr31 r with
  | (Err e, r) => (Err e, r)
  | (Ok s, r) =>
      match f (NewReader s) with
      | (Ok a, sr) => (Ok (a, sr), r)
      | (Err e, _) => (Err e, r)
      end
  end.

(** ** Writing *)

(** [io.Writer]: the number of bytes written and an error. *)
Class Writer (W : Type) := Write : W -> bytes -> (Z * option serr) * W.

(** [bytes.Buffer] *)
Definition Buffer := bytes.
#[export] Instance Buffer_writer : Writer Buffer := fun w bs => ((zlen bs, None), w ++ bs).

(** [binary.PutUvarint]; every iteration shifts seven bits out. *)
Fixpoint PutUvarint (fuel : nat) (x : Z) : bytes :=
  match fuel with
  | O => []
  | S fuel =>
      if 0x80 <=? x then byte_of_Z (Z.lor (x mod 256) 0x80) :: PutUvarint fuel (Z.shiftr x 7)
      else [byte_of_Z x]
  end.

(** The bytes of a [uint64]; ten iterations are enough for any. *)
Definition uvarint (x : Z) : bytes := PutUvarint 10 x.

Section Writing.
Context {W : Type} `{Writer W}.

Definition WriteVarint31 (w : W) (val : Z) : (Z * option serr) * W :=
  if MaxInt32 <? val then ((0, Some ErrRange), w) else Write w (uvarint val).

Definition WriteVarint63 (w : W) (val : Z) : (Z * option serr) * W :=
  if MaxInt64 <? val then ((0, Some ErrRange), w) else Write w (uvarint val).

Definition WriteVarstr31 (w : W) (str : bytes) : (Z * option serr) * W :=
  let '((n, err), w) := WriteVarint31 w (zlen str) in
  match err with
  | Some e => ((n, Some e), w)
  | None =>
      let '((n2, err), w) := Write w str in
      ((n + n2, err), w)
  end.

Fixpoint WriteVarstrs (w : W) (n : Z) (l : list bytes) : (Z * option serr) * W :=
  match l with
  | [] => ((n, None), w)
  | s :: l =>
      let '((n2, err), w) := WriteVarstr31 w s in
      match err with
      | Some e => ((n + n2, Some e), w)
      | None => WriteVarstrs w (n + n2) l
      end
  end.

Definition WriteVarstrList (w : W) (l : list bytes) : (Z * option serr) * W :=
  let '((n, err), w) := WriteVarint31 w (zlen l) in
  match err with
  | Some e => ((n, Some e), w)
  | None => WriteVarstrs w n l
  end.

(** [f] writes to a buffer from the pool, which is empty. *)
Definition WriteExtensibleString (w : W) (suffix : bytes)
    (f : Buffer -> option serr * Buffer) : (Z * option serr) * W :=
  let '(err, buf) := f [] in
  match err with
  | Some e => ((0, Some e), w)
  | None => WriteVarstr31 w (if 0 <? zlen suffix then (Write buf suffix).2 else buf)
  end.
End Writing.

(** ** Variable-length integers *)

Lemma uint64_shift a s : 0 <= a -> 0 <= s -> a * 2 ^ s < 2 ^ 64 -> uint64 (Z.shiftl a s) = a * 2 ^ s.
Proof.
  intros. rewrite Z.shiftl_mul_pow2 by lia. apply uint64_id.
  unfold_int. pose proof (Z.pow_nonneg 2 s). nia.
Qed.

(** Seven bits placed above the bits already read. *)
Lemma lor_disjoint x a s : 0 <= x < 2 ^ s -> 0 <= s -> 0 <= a -> Z.lor x (a * 2 ^ s) = x + a * 2 ^ s.
Proof.
  intros Hx Hs Ha. rewrite <- Z.shiftl_mul_pow2 by lia.
  assert (Z.land x (Z.shiftl a s) = 0) as E; [|rewrite <- Z.add_lor_land, E; lia].
  apply Z.bits_inj'. intros n Hn. rewrite Z.land_spec, Z.bits_0.
  destruct (Z.lt_ge_cases n s); [rewrite Z.shiftl_spec_low by lia; apply andb_false_r|].
  destruct (Z.eq_dec x 0) as [->|]; [by rewrite Z.bits_0|].
  rewrite (Z.bits_above_log2 x); [done|lia|]. apply Z.log2_lt_pow2; [lia|].
  eapply Z.lt_le_trans; [apply Hx|apply Z.pow_le_mono_r; lia].
Qed.

(** The byte of a group that is not the last: its top bit is set. *)
Lemma continued_byte v :
  0 <= v -> 0x80 <= Z_of_byte (byte_of_Z (Z.lor (v mod 256) 0x80)) /\
  Z.land (Z_of_byte (byte_of_Z (Z.lor (v mod 256) 0x80))) 0x7f = v mod 128.
Proof.
  intros Hv. replace (v mod 128) with ((v mod 256) mod 128)
    by (symmetry; apply Znumtheory.Zmod_div_mod; [lia|lia|by exists 2]).
  pose proof (Z.mod_pos_bound v 256 ltac:(lia)) as Hk. generalize dependent (v mod 256). clear.
  intros k Hk.
  assert (Hall : Forall (fun k => 0x80 <= Z_of_byte (byte_of_Z (Z.lor k 0x80)) /\
    Z.land (Z_of_byte (byte_of_Z (Z.lor k 0x80))) 0x7f = k mod 128) (seqZ 0 256)).
  { apply (bool_decide_eq_true _). vm_compute. reflexivity. }
  rewrite Forall_forall in Hall. apply Hall, elem_of_seqZ. lia.
Qed.

(** No more than nine groups precede the last one. *)
Lemma group_count v i :
  0 <= i -> (i = 0 \/ 1 <= v) -> v * 2 ^ (7 * i) < 2 ^ 64 ->
  (9 <? i) || ((i =? 9) && (1 <? v)) = false.
Proof.
  intros Hi Hv Hm. destruct (Z.ltb_spec 9 i) as [H9|H9]; cbn [orb].
  - pose proof (Z.pow_le_mono_r 2 70 (7 * i) ltac:(lia) ltac:(lia)).
    change (2 ^ 70) with (64 * 2 ^ 64) in *. nia.
  - destruct (Z.eqb_spec i 9) as [->|]; [|done]. change (2 ^ (7 * 9)) with (2 ^ 63) in Hm.
    destruct (Z.ltb_spec 1 v); [|done]. lia.
Qed.

Lemma ReadUvarint_put fuel : forall v x i rest,
  0 <= i -> 0 <= v -> (i = 0 \/ 1 <= v) -> v * 2 ^ (7 * i) < 2 ^ 64 -> 0 <= x < 2 ^ (7 * i) ->
  v < 2 ^ (7 * (1 + Z.of_nat fuel)) ->
  ReadUvarint_loop x (7 * i) i (PutUvarint (S fuel) v ++ rest) = (Ok (x + v * 2 ^ (7 * i)), rest).
Proof.
  induction fuel as [|fuel IH]; intros v x i rest Hi Hv Hiv Hmax Hx Hf;
    change (PutUvarint (S ?n) v) with
      (if 0x80 <=? v then byte_of_Z (Z.lor (v mod 256) 0x80) :: PutUvarint n (Z.shiftr v 7)
       else [byte_of_Z v]);
    (destruct (Z.leb_spec 0x80 v) as [Hbig|Hsmall];
     [|cbn [app ReadUvarint_loop]; rewrite Z_of_byte_small by lia;
       rewrite (proj2 (Z.ltb_lt v 0x80)), group_count, uint64_shift, lor_disjoint by lia; done]).
  { change (2 ^ (7 * (1 + Z.of_nat 0))) with 128 in Hf. lia. }
  destruct (continued_byte v Hv) as [Hb1 Hb2]. cbn [app ReadUvarint_loop].
  rewrite (proj2 (Z.ltb_ge _ 0x80)), Hb2 by lia.
  pose proof (Z.mod_pos_bound v 128 ltac:(lia)). pose proof (Z.div_mod v 128 ltac:(lia)) as Hdm.
  pose proof (Z.pow_pos_nonneg 2 (7 * i) ltac:(lia) ltac:(lia)) as HP.
  rewrite uint64_shift, lor_disjoint by (try lia; nia).
  rewrite Z.shiftr_div_pow2 by lia. change (2 ^ 7) with 128.
  assert (Hp : 2 ^ (7 * (i + 1)) = 128 * 2 ^ (7 * i)).
  { rewrite Z.mul_add_distr_l, Z.pow_add_r by lia. change (2 ^ (7 * 1)) with 128. lia. }
  replace (7 * i + 7) with (7 * (i + 1)) by lia.
  rewrite IH; rewrite ?Hp; try lia; try nia.
  - do 2 f_equal. nia.
  - replace (7 * (1 + Z.of_nat (S fuel))) with (7 * (1 + Z.of_nat fuel) + 7) in Hf by lia.
    rewrite Z.pow_add_r in Hf by lia. change (2 ^ 7) with 128 in Hf.
    apply Z.div_lt_upper_bound; lia.
Qed.

Lemma ReadUvarint_uvarint v rest :
  0 <= v < 2 ^ 64 -> ReadUvarint (uvarint v ++ rest) = (Ok v, rest).
Proof.
  intros Hv. unfold ReadUvarint, uvarint.
  change (ReadUvarint_loop 0 0 0) with (ReadUvarint_loop 0 (7 * 0) 0).
  rewrite ReadUvarint_put; [|lia..]. by rewrite Z.mul_1_r.
Qed.

Lemma length_PutUvarint fuel : forall v,
  0 <= v < 2 ^ (7 * (1 + Z.of_nat fuel)) ->
  (1 <= length (PutUvarint (S fuel) v) <= S fuel)%nat.
Proof.
  induction fuel as [|fuel IH]; intros v Hv;
    change (PutUvarint (S ?n) v) with
      (if 0x80 <=? v then byte_of_Z (Z.lor (v mod 256) 0x80) :: PutUvarint n (Z.shiftr v 7)
       else [byte_of_Z v]);
    (destruct (Z.leb_spec 0x80 v) as [Hbig|Hsmall]; [|simpl; lia]).
  - change (2 ^ (7 * (1 + Z.of_nat 0))) with 128 in Hv. lia.
  - cbn [length]. specialize (IH (Z.shiftr v 7)).
    rewrite Z.shiftr_div_pow2 in * by lia.
    replace (7 * (1 + Z.of_nat (S fuel))) with (7 * (1 + Z.of_nat fuel) + 7) in Hv by lia.
    rewrite Z.pow_add_r in Hv by lia. change (2 ^ 7) with 128 in *.
    assert (0 <= v / 128 < 2 ^ (7 * (1 + Z.of_nat fuel))).
    { split; [apply Z.div_pos; lia|apply Z.div_lt_upper_bound; lia]. }
    specialize (IH ltac:(done)). lia.
Qed.

(** More fuel does not change an encoding that is complete. *)
Lemma PutUvarint_fuel fuel : forall v,
  0 <= v < 2 ^ (7 * (1 + Z.of_nat fuel)) -> PutUvarint (S (S fuel)) v = PutUvarint (S fuel) v.
Proof.
  induction fuel as [|fuel IH]; intros v Hv;
    change (PutUvarint (S ?n) v) with
      (if 0x80 <=? v then byte_of_Z (Z.lor (v mod 256) 0x80) :: PutUvarint n (Z.shiftr v 7)
       else [byte_of_Z v]);
    (destruct (Z.leb_spec 0x80 v) as [Hbig|Hsmall]; [|done]).
  - change (2 ^ (7 * (1 + Z.of_nat 0))) with 128 in Hv. lia.
  - f_equal. apply IH. rewrite Z.shiftr_div_pow2 by lia.
    replace (7 * (1 + Z.of_nat (S fuel))) with (7 * (1 + Z.of_nat fuel) + 7) in Hv by lia.
    rewrite Z.pow_add_r in Hv by lia. change (2 ^ 7) with 128 in *.
    split; [apply Z.div_pos; lia|apply Z.div_lt_upper_bound; lia].
Qed.

(** The encoding of a 63-bit value fits the nine bytes of the pooled buffer. *)
Lemma length_uvarint v : 0 <= v <= MaxInt64 -> 1 <= zlen (uvarint v) <= 9.
Proof.
  unfold_int. intros Hv. unfold uvarint, zlen. rewrite PutUvarint_fuel by (cbn; lia).
  pose proof (length_PutUvarint 8 v ltac:(cbn; lia)). lia.
Qed.

(** Every value up to [MaxInt64] is written in at most nine bytes, the size
    of the buffer the code uses, and read back unchanged, leaving the rest of the
    input; a larger one is refused with [ErrRange] and nothing is written. *)
Lemma varint63_roundtrip (w : Buffer) v rest :
  0 <= v < 2 ^ 64 ->
  if v <=? MaxInt64 then
    exists enc, WriteVarint63 w v = ((zlen enc, None), w ++ enc) /\ 1 <= zlen enc <= 9 /\
      ReadVarint63 (enc ++ rest) = (Ok v, rest)
  else WriteVarint63 w v = ((0, Some ErrRange), w) /\
       ReadVarint63 (uvarint v ++ rest) = (Err ErrRange, rest).
Proof.
  intros Hv. unfold WriteVarint63, ReadVarint63, mbind, R_bind.
  destruct (Z.leb_spec v MaxInt64) as [Hle|Hgt].
  - rewrite (proj2 (Z.ltb_ge _ _)) by lia. exists (uvarint v). split; [done|].
    split; [apply length_uvarint; lia|]. rewrite ReadUvarint_uvarint by done.
    by rewrite (proj2 (Z.ltb_ge _ _)) by lia.
  - rewrite (proj2 (Z.ltb_lt _ _)) by lia. split; [done|].
    rewrite ReadUvarint_uvarint by done. by rewrite (proj2 (Z.ltb_lt _ _)) by lia.
Qed.

(** ** Byte strings *)

Lemma ReadVarint31_uvarint n rest :
  0 <= n <= MaxInt32 -> ReadVarint31 (uvarint n ++ rest) = (Ok n, rest).
Proof.
  intros Hn. unfold ReadVarint31, mbind, R_bind.
  rewrite ReadUvarint_uvarint by (unfold_int; lia). rewrite (proj2 (Z.ltb_ge _ _)) by lia.
  unfold mret, R_ret. by rewrite uint32_id by (unfold_int; lia).
Qed.

(** The encoding of a string. *)
Definition varstr (s : bytes) : bytes := uvarint (zlen s) ++ s.

Lemma WriteVarstr31_buffer (w : Buffer) s :
  zlen s <= MaxInt32 -> WriteVarstr31 w s = ((zlen (varstr s), None), w ++ varstr s).
Proof.
  intros Hs. unfold WriteVarstr31, WriteVarint31, varstr, Write, Buffer_writer.
  rewrite (proj2 (Z.ltb_ge _ _)) by lia. by rewrite zlen_app, app_assoc.
Qed.

Lemma ReadVarstr31_varstr s rest :
  zlen s <= MaxInt32 -> ReadVarstr31 (varstr s ++ rest) = (Ok s, rest).
Proof.
  intros Hs. pose proof (zlen_nonneg s). unfold ReadVarstr31, varstr, mbind, R_bind.
  rewrite <- app_assoc, ReadVarint31_uvarint by lia.
  destruct (Z.eqb_spec (zlen s) 0) as [E|E]; unfold zlen in *.
  - by destruct s; [|simpl in E; lia].
  - rewrite (proj2 (Z.ltb_ge _ _)) by (rewrite length_app; lia).
    by rewrite Nat2Z.id, take_app_length, drop_app_length.
Qed.

Lemma WriteVarstrs_buffer l : forall (w : Buffer) n,
  Forall (fun s => zlen s <= MaxInt32) l ->
  WriteVarstrs w n l = ((n + zlen (concat (map varstr l)), None), w ++ concat (map varstr l)).
Proof.
  induction l as [|s l IH]; intros w n HF; simpl.
  - by rewrite zlen_nil, Z.add_0_r, app_nil_r.
  - apply Forall_cons in HF as [Hs HF]. rewrite WriteVarstr31_buffer by done.
    rewrite IH by done. rewrite zlen_app, <- app_assoc.
    by replace (n + zlen (varstr s) + _) with (n + (zlen (varstr s) + zlen (concat (map varstr l)))) by lia.
Qed.

Lemma ReadVarstrs_varstrs l : forall acc rest,
  Forall (fun s => zlen s <= MaxInt32) l ->
  ReadVarstrs (length l) acc (concat (map varstr l) ++ rest) = ((acc ++ l, O, None), rest).
Proof.
  induction l as [|s l IH]; intros acc rest HF; cbn [ReadVarstrs length map concat app].
  - by rewrite app_nil_r.
  - apply Forall_cons in HF as [Hs HF]. rewrite <- app_assoc, ReadVarstr31_varstr by done.
    rewrite IH by done. by rewrite <- app_assoc.
Qed.

(** A list of byte strings is read back as it was written, and the count
    returned by the writer is the number of bytes it has written. *)
Lemma varstrlist_roundtrip (w : Buffer) l rest :
  zlen l <= MaxInt32 -> Forall (fun s => zlen s <= MaxInt32) l ->
  exists enc, WriteVarstrList w l = ((zlen enc, None), w ++ enc) /\
    ReadVarstrList (enc ++ rest) = ((l, None), rest).
Proof.
  intros Hl HF. pose proof (zlen_nonneg l). exists (uvarint (zlen l) ++ concat (map varstr l)). split.
  - unfold WriteVarstrList, WriteVarint31, Write, Buffer_writer. rewrite (proj2 (Z.ltb_ge _ _)) by lia.
    rewrite WriteVarstrs_buffer by done. by rewrite zlen_app, app_assoc.
  - unfold ReadVarstrList. rewrite <- app_assoc, ReadVarint31_uvarint by lia.
    destruct (Z.eqb_spec (zlen l) 0) as [E|E]; unfold zlen in *.
    + by destruct l; [|simpl in E; lia].
    + rewrite Nat2Z.id, ReadVarstrs_varstrs by done. done.
Qed.

(** An extensible string keeps its suffix: a reader that consumes exactly what
    was written gets the value back, and bytes that an older reader does not know
    are returned to it as the suffix. *)
Lemma extensible_roundtrip {A} (f : Buffer -> option serr * Buffer) (g : R A) body suffix a
    (w : Buffer) rest :
  f [] = (None, body) -> g (body ++ suffix) = (Ok a, suffix) ->
  zlen (body ++ suffix) <= MaxInt32 ->
  exists enc, WriteExtensibleString w suffix f = ((zlen enc, None), w ++ enc) /\
    ReadExtensibleString g (enc ++ rest) = (Ok (a, suffix), rest).
Proof.
  intros Hf Hg Hl. exists (varstr (body ++ suffix)). split.
  - unfold WriteExtensibleString. rewrite Hf.
    replace (if 0 <? zlen suffix then (Write body suffix).2 else body) with (body ++ suffix).
    + by apply WriteVarstr31_buffer.
    + destruct (Z.ltb_spec 0 (zlen suffix)); [done|]. unfold zlen in *.
      destruct suffix; [by rewrite app_nil_r|simpl in *; lia].
  - unfold ReadExtensibleString. rewrite ReadVarstr31_varstr by done. unfold NewReader. by rewrite Hg.
Qed.
