(* ===== verification/Bc.v ===== *)
(** * Blockchain entries: [protocol/bc]

    Hashes ([hash.go], [asset.go]), the messages of [bc.proto], the entries of a
    transaction and their serialization for hashing ([entry.go] and one file per
    entry type), and transactions ([tx.go]).

    A pointer is an [option]; the fields of an entry that its constructor leaves
    out are nil.  SHA3-256 is the parameter [sha3_256_sum]; a hash object from the
    pool of [crypto/sha3pool] is the list of bytes written to it. *)

From Stdlib Require Import ZArith Lia Strings.Byte String.
From stdpp Require Import gmap.
From S2P Require Import Prelude Crypto Encoding.

(** ** Hashes: [hash.go] *)

Record Hash := mkHash { V0 : Z; V1 : Z; V2 : Z; V3 : Z }.

#[export] Instance Hash_eq_dec : EqDecision Hash.
Proof. solve_decision. Defined.
#[export] Instance Hash_countable : Countable Hash.
Proof.
  refine (inj_countable' (fun h => (V0 h, V1 h, V2 h, V3 h))
            (fun '(a, b, c, d) => mkHash a b c d) _).
  by intros [].
Defined.

(** The fields are 64-bit words. *)
Definition wf_hash (h : Hash) : Prop :=
  in_uint64 (V0 h) = true /\ in_uint64 (V1 h) = true /\ in_uint64 (V2 h) = true /\ in_uint64 (V3 h) = true.

Definition zeroHash : Hash := mkHash 0 0 0 0.

Definition NewHash (b32 : bytes) : Hash :=
  mkHash (be_get (subslice 0 8 b32)) (be_get (subslice 8 16 b32))
         (be_get (subslice 16 24 b32)) (be_get (subslice 24 32 b32)).

Definition Byte32 (h : Hash) : bytes :=
  be_put 8 (V0 h) ++ be_put 8 (V1 h) ++ be_put 8 (V2 h) ++ be_put 8 (V3 h).

Definition Bytes (h : Hash) : bytes := Byte32 h.

(** [IsZero] on a pointer. *)
Definition IsZero (h : option Hash) : bool :=
  match h with None => true | Some h => bool_decide (h = zeroHash) end.

(** [hash.ReadFrom(h)] on a hash object that has absorbed [bs], and [Sum256]. *)
Definition sum_hash `{Crypto} (bs : bytes) : Hash := NewHash (sha3_256_sum bs).

Definition EmptyStringHash `{Crypto} : Hash := sum_hash [].

(** Two different strings, one of each set, with the same digest.  The sets are
    the strings that a computation hashes, so a collision is one that it exhibits. *)
Definition collision `{Crypto} (P Q : bytes -> Prop) : Prop :=
  exists x y, P x /\ Q y /\ x <> y /\ sum_hash x = sum_hash y.

Lemma collision_mono `{Crypto} (P P' Q Q' : bytes -> Prop) :
  (forall x, P x -> P' x) -> (forall x, Q x -> Q' x) -> collision P Q -> collision P' Q'.
Proof. intros HP HQ (x & y & Hx & Hy & Hne & E). exists x, y. auto. Qed.

(** *** The words of a hash and its bytes *)

Lemma length_Byte32 h : length (Byte32 h) = 32%nat.
Proof. unfold Byte32. by rewrite !length_app, !length_be_put. Qed.

Lemma be_get_word z : in_uint64 z = true -> be_get (be_put 8 z) = z.
Proof.
  intros Hz. rewrite be_get_put. change (256 ^ Z.of_nat 8) with 18446744073709551616.
  apply Z.mod_small. unfold_int. lia.
Qed.

Lemma NewHash_Byte32 h : wf_hash h -> NewHash (Byte32 h) = h.
Proof.
  intros (H0 & H1 & H2 & H3). destruct h as [a b c d]. cbn [V0 V1 V2 V3] in *.
  unfold NewHash, Byte32. cbn [V0 V1 V2 V3].
  assert (Hz : forall z, zlen (be_put 8 z) = 8) by (intros; unfold zlen; by rewrite length_be_put).
  rewrite subslice_head by (rewrite Hz; lia).
  rewrite (subslice_app (be_put 8 a) (be_put 8 b)) by (rewrite ?Hz; lia).
  rewrite !(app_assoc (be_put 8 a)).
  rewrite (subslice_app (be_put 8 a ++ be_put 8 b) (be_put 8 c)) by (rewrite ?zlen_app, ?Hz; lia).
  rewrite (app_assoc (be_put 8 a ++ be_put 8 b)).
  rewrite subslice_tail by (rewrite ?zlen_app, ?Hz; lia).
  by rewrite !be_get_word.
Qed.


Lemma Bytes_inj a b : wf_hash a -> wf_hash b -> Bytes a = Bytes b -> a = b.
Proof. intros Ha Hb E. rewrite <- (NewHash_Byte32 a Ha), <- (NewHash_Byte32 b Hb). by f_equal. Qed.

Lemma wf_NewHash bs : wf_hash (NewHash bs).
Proof.
  assert (Hw : forall lo, in_uint64 (be_get (subslice lo (lo + 8) bs)) = true).
  { intros lo. unfold be_get. pose proof (le_get_bound (rev (subslice lo (lo + 8) bs))) as Hb.
    assert (length (rev (subslice lo (lo + 8) bs)) <= 8)%nat as Hl.
    { rewrite length_rev. unfold subslice. rewrite length_take. lia. }
    pose proof (Z.pow_le_mono_r 256 (Z.of_nat (length (rev (subslice lo (lo + 8) bs)))) 8
                  ltac:(lia) ltac:(lia)).
    change (256 ^ 8) with 18446744073709551616 in *. unfold_int. lia. }
  split_and!; [apply (Hw 0)|apply (Hw 8)|apply (Hw 16)|apply (Hw 24)].
Qed.

(** ** Messages: [bc.proto] *)

(** [AssetID] has the fields and the methods of [Hash] ([asset.go]). *)
Definition AssetID := Hash.

Record Program := mkProgram { VmVersion : Z; Code : bytes }.

Record AssetAmount := mkAssetAmount { AssetId : option AssetID; Amount : Z }.

Record AssetDefinition := mkAssetDefinition {
  InitialBlockId : option Hash;
  IssuanceProgram : option Program;
  def_Data : option Hash;
}.

Record ValueSource := mkValueSource {
  src_Ref : option Hash;
  src_Value : option AssetAmount;
  src_Position : Z;
}.

Record ValueDestination := mkValueDestination {
  dest_Ref : option Hash;
  dest_Value : option AssetAmount;
  dest_Position : Z;
}.

Record BlockHeader := mkBlockHeader {
  bh_Version : Z;
  Height : Z;
  PreviousBlockId : option Hash;
  TimestampMs : Z;
  TransactionsRoot : option Hash;
  AssetsRoot : option Hash;
  NextConsensusProgram : bytes;
  bh_ExtHash : option Hash;
  bh_WitnessArguments : list bytes;
}.

Record TxHeader := mkTxHeader {
  tx_Version : Z;
  ResultIds : list (option Hash);
  tx_Data : option Hash;
  tx_MinTimeMs : Z;
  tx_MaxTimeMs : Z;
  tx_ExtHash : option Hash;
}.

Record Mux := mkMux {
  Sources : list (option ValueSource);
  mux_Program : option Program;
  mux_ExtHash : option Hash;
  WitnessDestinations : list (option ValueDestination);
  mux_WitnessArguments : list bytes;
}.

Record Nonce := mkNonce {
  nonce_Program : option Program;
  TimeRangeId : option Hash;
  nonce_ExtHash : option Hash;
  nonce_WitnessArguments : list bytes;
  nonce_WitnessAnchoredId : option Hash;
}.

Record Output := mkOutput {
  out_Source : option ValueSource;
  ControlProgram : option Program;
  out_Data : option Hash;
  out_ExtHash : option Hash;
  out_Ordinal : Z;
}.

Record Retirement := mkRetirement {
  ret_Source : option ValueSource;
  ret_Data : option Hash;
  ret_ExtHash : option Hash;
  ret_Ordinal : Z;
}.

Record TimeRange := mkTimeRange { MinTimeMs : Z; MaxTimeMs : Z; tr_ExtHash : option Hash }.

Record Issuance := mkIssuance {
  AnchorId : option Hash;
  iss_Value : option AssetAmount;
  iss_Data : option Hash;
  iss_ExtHash : option Hash;
  iss_WitnessDestination : option ValueDestination;
  WitnessAssetDefinition : option AssetDefinition;
  iss_WitnessArguments : list bytes;
  iss_WitnessAnchoredId : option Hash;
  iss_Ordinal : Z;
}.

Record Spend := mkSpend {
  SpentOutputId : option Hash;
  sp_Data : option Hash;
  sp_ExtHash : option Hash;
  sp_WitnessDestination : option ValueDestination;
  sp_WitnessArguments : list bytes;
  sp_WitnessAnchoredId : option Hash;
  sp_Ordinal : Z;
}.

(** The constructors and setters of the entry files. *)
Definition NewMux sources program := mkMux sources program None [] [].
Definition NewNonce p trID := mkNonce p trID None [] None.
Definition NewOutput source controlProgram data ordinal :=
  mkOutput source controlProgram data None ordinal.
Definition NewRetirement source data ordinal := mkRetirement source data None ordinal.
Definition NewTimeRange minTimeMS maxTimeMS := mkTimeRange minTimeMS maxTimeMS None.
Definition NewIssuance anchorID value data ordinal :=
  mkIssuance anchorID value data None None None [] None ordinal.
Definition NewSpend spentOutputID data ordinal := mkSpend spentOutputID data None None [] None ordinal.
Definition NewTxHeader version resultIDs data minTimeMS maxTimeMS :=
  mkTxHeader version resultIDs data minTimeMS maxTimeMS None.
Definition NewBlockHeader version height previousBlockID timestampMS transactionsRoot assetsRoot
    nextConsensusProgram :=
  mkBlockHeader version height previousBlockID timestampMS transactionsRoot assetsRoot
    nextConsensusProgram None [].

Definition Spend_SetDestination (s : Spend) (id : option Hash) (val : option AssetAmount) (pos : Z) :=
  mkSpend (SpentOutputId s) (sp_Data s) (sp_ExtHash s) (Some (mkValueDestination id val pos))
    (sp_WitnessArguments s) (sp_WitnessAnchoredId s) (sp_Ordinal s).
Definition Spend_SetAnchored (s : Spend) (id : option Hash) :=
  mkSpend (SpentOutputId s) (sp_Data s) (sp_ExtHash s) (sp_WitnessDestination s)
    (sp_WitnessArguments s) id (sp_Ordinal s).
Definition Nonce_SetAnchored (n : Nonce) (id : option Hash) :=
  mkNonce (nonce_Program n) (TimeRangeId n) (nonce_ExtHash n) (nonce_WitnessArguments n) id.
Definition Issuance_SetDestination (i : Issuance) (id : option Hash) (val : option AssetAmount) (pos : Z) :=
  mkIssuance (AnchorId i) (iss_Value i) (iss_Data i) (iss_ExtHash i)
    (Some (mkValueDestination id val pos)) (WitnessAssetDefinition i) (iss_WitnessArguments i)
    (iss_WitnessAnchoredId i) (iss_Ordinal i).

(** [AssetAmount.Equal]: the error when a pointer is nil. *)
Inductive eqerr := EmptyAssetAmount | EmptyAssetID.
Definition AssetAmount_Equal (a other : option AssetAmount) : result eqerr bool :=
  match a, other with
  | Some a, Some other =>
      match AssetId a, AssetId other with
      | Some i, Some j => Ok ((Amount a =? Amount other) && bool_decide (i = j))
      | _, _ => Err EmptyAssetID
      end
  | _, _ => Err EmptyAssetAmount
  end.

(** ** Entries: [entry.go] *)

Inductive Entry :=
| EBlockHeader (bh : BlockHeader)
| ETxHeader (h : TxHeader)
| EMux (m : Mux)
| ENonce (n : Nonce)
| EOutput (o : Output)
| ERetirement (r : Retirement)
| ETimeRange (tr : TimeRange)
| EIssuance (iss : Issuance)
| ESpend (s : Spend).

Definition typ (e : Entry) : string :=
  match e with
  | EBlockHeader _ => "blockheader"
  | ETxHeader _ => "txheader"
  | EMux _ => "mux1"
  | ENonce _ => "nonce1"
  | EOutput _ => "output1"
  | ERetirement _ => "retirement1"
  | ETimeRange _ => "timerange1"
  | EIssuance _ => "issuance1"
  | ESpend _ => "spend1"
  end.

(** A value passed to [writeForHash] as an [interface{}]: the cases of its type
    switch, then those of the reflection on the remaining kinds. *)
Inductive hval :=
| HByte (b : byte)
| HUint64 (n : Z)
| HBytes (bs : bytes)
| HBytesList (l : list bytes)
| HHashPtr (h : option Hash)
| HHash (h : Hash)
| HPtr (v : option hval)
| HSlice (l : list hval)
| HStruct (fields : list hval).

(** [writeForHash] to a hash object or buffer, which never fails to write. *)
Fixpoint writeForHash (w : Buffer) (c : hval) : option serr * Buffer :=
  let fix write_all (w : Buffer) (l : list hval) : option serr * Buffer :=
    match l with
    | [] => (None, w)
    | c :: l =>
        match writeForHash w c with
        | (None, w) => write_all w l
        | (Some e, w) => (Some e, w)
        end
    end in
  match c with
  | HByte b => (None, w ++ [b])
  | HUint64 n => let '((_, err), w) := WriteVarint63 w n in (err, w)
  | HBytes bs => let '((_, err), w) := WriteVarstr31 w bs in (err, w)
  | HBytesList l => let '((_, err), w) := WriteVarstrList w l in (err, w)
  | HHashPtr None => (None, w ++ replicate 32 x00)
  | HHashPtr (Some h) => (None, w ++ Bytes h)
  | HHash h => (None, w ++ Bytes h)
  | HPtr None => (None, w)
  | HPtr (Some v) => writeForHash w v
  | HSlice l =>
      match WriteVarint31 w (zlen l) with
      | ((_, Some e), w) => (Some e, w)
      | ((_, None), w) => write_all w l
      end
  | HStruct fields => write_all w fields
  end.

(** The messages as values for hashing: the fields in the order of the struct. *)
Definition hval_Program (p : Program) : hval := HStruct [HUint64 (VmVersion p); HBytes (Code p)].
Definition hval_AssetAmount (a : AssetAmount) : hval := HStruct [HHashPtr (AssetId a); HUint64 (Amount a)].
Definition hval_AssetDefinition (d : AssetDefinition) : hval :=
  HStruct [HHashPtr (InitialBlockId d); HPtr (hval_Program <$> IssuanceProgram d); HHashPtr (def_Data d)].
Definition hval_ValueSource (s : ValueSource) : hval :=
  HStruct [HHashPtr (src_Ref s); HPtr (hval_AssetAmount <$> src_Value s); HUint64 (src_Position s)].

(** The arguments of the calls of [mustWriteForHash] in the method
    [writeForHash] of each entry. *)
Definition body_fields (e : Entry) : list hval :=
  match e with
  | EBlockHeader bh =>
      [HUint64 (bh_Version bh); HUint64 (Height bh); HHashPtr (PreviousBlockId bh);
       HUint64 (TimestampMs bh); HHashPtr (TransactionsRoot bh); HHashPtr (AssetsRoot bh);
       HBytes (NextConsensusProgram bh); HHashPtr (bh_ExtHash bh)]
  | ETxHeader h =>
      [HUint64 (tx_Version h); HSlice (map HHashPtr (ResultIds h)); HHashPtr (tx_Data h);
       HUint64 (tx_MinTimeMs h); HUint64 (tx_MaxTimeMs h); HHashPtr (tx_ExtHash h)]
  | EMux m =>
      [HSlice (map (fun s => HPtr (hval_ValueSource <$> s)) (Sources m));
       HPtr (hval_Program <$> mux_Program m); HHashPtr (mux_ExtHash m)]
  | ENonce n =>
      [HPtr (hval_Program <$> nonce_Program n); HHashPtr (TimeRangeId n); HHashPtr (nonce_ExtHash n)]
  | EOutput o =>
      [HPtr (hval_ValueSource <$> out_Source o); HPtr (hval_Program <$> ControlProgram o);
       HHashPtr (out_Data o); HHashPtr (out_ExtHash o)]
  | ERetirement r =>
      [HPtr (hval_ValueSource <$> ret_Source r); HHashPtr (ret_Data r); HHashPtr (ret_ExtHash r)]
  | ETimeRange tr => [HUint64 (MinTimeMs tr); HUint64 (MaxTimeMs tr); HHashPtr (tr_ExtHash tr)]
  | EIssuance i =>
      [HHashPtr (AnchorId i); HPtr (hval_AssetAmount <$> iss_Value i); HHashPtr (iss_Data i);
       HHashPtr (iss_ExtHash i)]
  | ESpend s => [HHashPtr (SpentOutputId s); HHashPtr (sp_Data s); HHashPtr (sp_ExtHash s)]
  end.

(** One [mustWriteForHash] after the other; an error makes it panic. *)
Fixpoint mustWriteForHash (w : Buffer) (l : list hval) : option Buffer :=
  match l with
  | [] => Some w
  | c :: l => match writeForHash w c with (None, w) => mustWriteForHash w l | (Some _, _) => None end
  end.

(** The method [writeForHash] of an entry: its body, or a panic. *)
Definition entry_body (e : Entry) : option bytes := mustWriteForHash [] (body_fields e).

Definition string_bytes (s : string) : bytes := list_byte_of_string s.

(** [EntryID] of an entry, nil included; [None] is a panic. *)
Definition EntryID `{Crypto} (e : option Entry) : option Hash :=
  match e with
  | None => Some zeroHash
  | Some e =>
      body ← entry_body e;
      Some (sum_hash (string_bytes "entryid:" ++ string_bytes (typ e) ++ string_bytes ":"
                      ++ sha3_256_sum body))
  end.

(** [ComputeAssetID]: errors of [writeForHash] are ignored, so the hash is of
    whatever has been written. *)
Definition AssetDefinition_ComputeAssetID `{Crypto} (ad : AssetDefinition) : AssetID :=
  sum_hash (writeForHash [] (hval_AssetDefinition ad)).2.

Definition ComputeAssetID `{Crypto} (prog : bytes) (initialBlockID : option Hash) (vmVersion : Z)
    (data : option Hash) : AssetID :=
  AssetDefinition_ComputeAssetID
    (mkAssetDefinition initialBlockID (Some (mkProgram vmVersion prog)) data).

(** ** Transactions: [tx.go], and blocks *)

(** The entries are keyed by their identifiers; an entry may be a nil interface. *)
Record Tx := mkTx {
  Header : TxHeader;
  tx_ID : Hash;
  Entries : gmap Hash (option Entry);
  InputIDs : list Hash;
  NonceIDs : list Hash;
  SpentOutputIDs : list Hash;
}.

(** [SigHash] panics when the index is out of range. *)
Definition SigHash `{Crypto} (tx : Tx) (n : nat) : option Hash :=
  id ← InputIDs tx !! n; Some (sum_hash (Bytes id ++ Bytes (tx_ID tx))).

Inductive txerr := ErrEntryType | ErrMissingEntry.

(** The accessors share everything but the type assertion. *)
Definition get_entry {A} (as_ : Entry -> option A) (tx : Tx) (id : Hash) : result txerr A :=
  match Entries tx !! id with
  | None | Some None => Err ErrMissingEntry
  | Some (Some e) => match as_ e with Some a => Ok a | None => Err ErrEntryType end
  end.

Definition as_TimeRange e := match e with ETimeRange tr => Some tr | _ => None end.
Definition as_Output e := match e with EOutput o => Some o | _ => None end.
Definition as_Spend e := match e with ESpend s => Some s | _ => None end.
Definition as_Issuance e := match e with EIssuance i => Some i | _ => None end.
Definition as_Nonce e := match e with ENonce n => Some n | _ => None end.

Definition Tx_TimeRange := get_entry as_TimeRange.
Definition Tx_Output := get_entry as_Output.
Definition Tx_Spend := get_entry as_Spend.
Definition Tx_Issuance := get_entry as_Issuance.
Definition Tx_Nonce := get_entry as_Nonce.

Record Block := mkBlock {
  BlockHdr : BlockHeader;
  block_ID : Hash;
  Transactions : list Tx;
}.
