(* ===== verification/EntryHash.v ===== *)
(** * What an entry identifier commits to: [EntryID] of [protocol/bc/entry.go]

    The bytes that [writeForHash] writes for a value determine the value, except
    that a nil hash pointer is written as the zero hash.  So an entry identifier
    determines the type of the entry and the fields that are hashed. *)

From Stdlib Require Import ZArith Lia Strings.Byte.
From stdpp Require Import gmap strings.
From S2P Require Import Prelude Crypto Encoding Bc.

Section HvalInd.
Context (P : hval -> Prop).
Context (HB : forall b, P (HByte b)) (HU : forall n, P (HUint64 n)) (HBs : forall bs, P (HBytes bs))
  (HL : forall l, P (HBytesList l)) (HP : forall h, P (HHashPtr h)) (HH : forall h, P (HHash h))
  (HN : P (HPtr None)) (HS : forall v, P v -> P (HPtr (Some v)))
  (Hl : forall l, Forall P l -> P (HSlice l)) (Hs : forall l, Forall P l -> P (HStruct l)).

(** Induction on values for hashing, through the lists. *)
Fixpoint hval_rect_list (v : hval) : P v :=
  let fix go (l : list hval) : Forall P l :=
    match l with [] => Forall_nil_2 _ | v :: l => Forall_cons_2 _ _ _ (hval_rect_list v) (go l) end in
  match v with
  | HByte b => HB b
  | HUint64 n => HU n
  | HBytes bs => HBs bs
  | HBytesList l => HL l
  | HHashPtr h => HP h
  | HHash h => HH h
  | HPtr None => HN
  | HPtr (Some v) => HS v (hval_rect_list v)
  | HSlice l => Hl l (go l)
  | HStruct l => Hs l (go l)
  end.
End HvalInd.

(** The bytes of a value. *)
Fixpoint enc (c : hval) : bytes :=
  match c with
  | HByte b => [b]
  | HUint64 n => uvarint n
  | HBytes bs => varstr bs
  | HBytesList l => uvarint (zlen l) ++ concat (map varstr l)
  | HHashPtr None => replicate 32 x00
  | HHashPtr (Some h) | HHash h => Bytes h
  | HPtr None => []
  | HPtr (Some v) => enc v
  | HSlice l => uvarint (zlen l) ++ concat (map enc l)
  | HStruct l => concat (map enc l)
  end.

Definition all (P : hval -> Prop) (l : list hval) : Prop := foldr (fun c Q => P c /\ Q) True l.

Lemma all_Forall P l : all P l <-> Forall P l.
Proof. induction l; simpl; [by split|]. rewrite Forall_cons. tauto. Qed.

(** The integers fit in 63 bits, and the lengths in 31. *)
Fixpoint fits (c : hval) : Prop :=
  match c with
  | HUint64 n => n <= MaxInt64
  | HBytes bs => zlen bs <= MaxInt32
  | HBytesList l => zlen l <= MaxInt32 /\ Forall (fun s => zlen s <= MaxInt32) l
  | HPtr (Some v) => fits v
  | HSlice l => zlen l <= MaxInt32 /\ all fits l
  | HStruct l => all fits l
  | _ => True
  end.

(** The values have their types. *)
Fixpoint typed (c : hval) : Prop :=
  match c with
  | HUint64 n => 0 <= n
  | HHashPtr (Some h) | HHash h => wf_hash h
  | HPtr (Some v) => typed v
  | HSlice l | HStruct l => all typed l
  | _ => True
  end.

(** The fields of a sequence of writes. *)
Fixpoint write_all (w : Buffer) (l : list hval) : option serr * Buffer :=
  match l with
  | [] => (None, w)
  | c :: l => match writeForHash w c with (None, w) => write_all w l | (Some e, w) => (Some e, w) end
  end.

Definition writes (c : hval) : Prop :=
  forall w w', writeForHash w c = (None, w') -> fits c /\ w' = w ++ enc c.

Lemma write_all_writes l : Forall writes l -> forall w w',
  write_all w l = (None, w') -> all fits l /\ w' = w ++ concat (map enc l).
Proof.
  induction 1 as [|c l Hc HF IH]; intros w w' E; simpl in *; [injection E as <-; by rewrite app_nil_r|].
  destruct (writeForHash w c) as [[e|] w1] eqn:Ec; [done|].
  apply Hc in Ec as [Hf ->]. apply IH in E as [Ha ->]. by rewrite app_assoc.
Qed.

Lemma WriteVarstr31_inv (w w' : Buffer) n s :
  WriteVarstr31 w s = ((n, None), w') -> zlen s <= MaxInt32 /\ w' = w ++ varstr s.
Proof.
  intros E. destruct (Z.le_gt_cases (zlen s) MaxInt32) as [Hs|Hs].
  - rewrite WriteVarstr31_buffer in E by done. by injection E as _ <-.
  - unfold WriteVarstr31, WriteVarint31 in E. by rewrite (proj2 (Z.ltb_lt _ _)) in E by lia.
Qed.

Lemma WriteVarstrs_inv l : forall (w w' : Buffer) n m,
  WriteVarstrs w n l = ((m, None), w') ->
  Forall (fun s => zlen s <= MaxInt32) l /\ w' = w ++ concat (map varstr l).
Proof.
  induction l as [|s l IH]; intros w w' n m E; simpl in *; [injection E as _ <-; by rewrite app_nil_r|].
  destruct (WriteVarstr31 w s) as [[k [e|]] w1] eqn:Es; [done|].
  apply WriteVarstr31_inv in Es as [Hs ->]. apply IH in E as [HF ->]. rewrite <- app_assoc.
  split; [by constructor|done].
Qed.

Lemma WriteVarint31_inv (w w' : Buffer) n v :
  WriteVarint31 w v = ((n, None), w') -> v <= MaxInt32 /\ w' = w ++ uvarint v.
Proof.
  unfold WriteVarint31, Write, Buffer_writer. destruct (Z.ltb_spec MaxInt32 v); [done|].
  intros [= _ <-]. by split.
Qed.

(** A successful [writeForHash] appends the bytes of the value. *)
Lemma writeForHash_writes c : writes c.
Proof.
  induction c as [b|n|bs|l|[h|]|h| |v IH|l IH|l IH] using hval_rect_list; intros w w' E; cbn [writeForHash] in E.
  - by injection E as <-.
  - unfold WriteVarint63, Write, Buffer_writer in E. destruct (Z.ltb_spec MaxInt64 n); [done|]. by injection E as <-.
  - destruct (WriteVarstr31 w bs) as [[k err] w1] eqn:Es. injection E as -> ->. by apply WriteVarstr31_inv in Es.
  - destruct (WriteVarstrList w l) as [[k err] w1] eqn:Es. injection E as -> ->.
    unfold WriteVarstrList in Es. destruct (WriteVarint31 w (zlen l)) as [[k' [e|]] w2] eqn:El; [done|].
    apply WriteVarint31_inv in El as [Hl ->]. apply WriteVarstrs_inv in Es as [HF ->].
    simpl. by rewrite app_assoc.
  - by injection E as <-.
  - by injection E as <-.
  - by injection E as <-.
  - injection E as <-. simpl. by rewrite app_nil_r.
  - by apply IH.
  - destruct (WriteVarint31 w (zlen l)) as [[k [e|]] w1] eqn:El; [done|].
    apply WriteVarint31_inv in El as [Hl ->]. change (write_all (w ++ uvarint (zlen l)) l = (None, w')) in E.
    apply write_all_writes in E as [Ha ->]; [|done]. simpl. by rewrite app_assoc.
  - change (write_all w l = (None, w')) in E. by apply write_all_writes in E.
Qed.

Lemma mustWrite_inv l : forall w w',
  mustWriteForHash w l = Some w' -> Forall fits l /\ w' = w ++ concat (map enc l).
Proof.
  induction l as [|c l IH]; intros w w' E; simpl in *; [injection E as <-; by rewrite app_nil_r|].
  destruct (writeForHash w c) as [[e|] w1] eqn:Ec; [done|].
  apply writeForHash_writes in Ec as [Hf ->]. apply IH in E as [HF ->]. rewrite <- app_assoc. auto.
Qed.

(** ** The bytes determine the value *)

(** A nil hash pointer counts as the zero hash. *)
Fixpoint canon (c : hval) : hval :=
  match c with
  | HHashPtr h => HHash (default zeroHash h)
  | HPtr (Some v) => HPtr (Some (canon v))
  | HSlice l => HSlice (map canon l)
  | HStruct l => HStruct (map canon l)
  | c => c
  end.

(** Values of the same type, with nil pointers to messages at the same places. *)
Inductive alike : hval -> hval -> Prop :=
| alike_byte b b' : alike (HByte b) (HByte b')
| alike_int n n' : alike (HUint64 n) (HUint64 n')
| alike_bytes s s' : alike (HBytes s) (HBytes s')
| alike_bytes_list l l' : alike (HBytesList l) (HBytesList l')
| alike_hash_ptr h h' : alike (HHashPtr h) (HHashPtr h')
| alike_hash h h' : alike (HHash h) (HHash h')
| alike_nil : alike (HPtr None) (HPtr None)
| alike_ptr v v' : alike v v' -> alike (HPtr (Some v)) (HPtr (Some v'))
| alike_slice l l' : (forall x y, x ∈ l -> y ∈ l' -> alike x y) -> alike (HSlice l) (HSlice l')
| alike_struct l l' : Forall2 alike l l' -> alike (HStruct l) (HStruct l').

Definition decodes (c : hval) : Prop := forall c' r r',
  alike c c' -> fits c -> fits c' -> typed c -> typed c' ->
  enc c ++ r = enc c' ++ r' -> canon c = canon c' /\ r = r'.

Lemma uvarint_inj a b r r' :
  0 <= a <= MaxInt64 -> 0 <= b <= MaxInt64 -> uvarint a ++ r = uvarint b ++ r' -> a = b /\ r = r'.
Proof.
  unfold_int. intros Ha Hb E. pose proof (ReadUvarint_uvarint a r ltac:(lia)) as H1.
  rewrite E, ReadUvarint_uvarint in H1 by lia. by injection H1 as -> ->.
Qed.

Lemma varstr_inj s s' r r' :
  zlen s <= MaxInt32 -> zlen s' <= MaxInt32 -> varstr s ++ r = varstr s' ++ r' -> s = s' /\ r = r'.
Proof.
  intros Hs Hs' E. pose proof (ReadVarstr31_varstr s r Hs) as H1.
  rewrite E, ReadVarstr31_varstr in H1 by done. by injection H1 as -> ->.
Qed.

Lemma varstrs_inj l : forall l' r r',
  length l = length l' -> Forall (fun s => zlen s <= MaxInt32) l -> Forall (fun s => zlen s <= MaxInt32) l' ->
  concat (map varstr l) ++ r = concat (map varstr l') ++ r' -> l = l' /\ r = r'.
Proof.
  induction l as [|s l IH]; intros [|s' l'] r r' Hl HF HF' E; simpl in *; try done.
  apply Forall_cons in HF as [Hs HF]. apply Forall_cons in HF' as [Hs' HF']. rewrite <- !app_assoc in E.
  apply varstr_inj in E as [-> E]; [|done..]. apply IH in E as [-> ->]; [done|lia|done..].
Qed.

Lemma Bytes_zero : Bytes zeroHash = replicate 32 x00.
Proof. done. Qed.

Lemma hash_inj a b r r' :
  wf_hash a -> wf_hash b -> Bytes a ++ r = Bytes b ++ r' -> a = b /\ r = r'.
Proof.
  intros Ha Hb E. apply app_inj_1 in E as [E ->]; [|by rewrite !length_Byte32]. by split; [apply Bytes_inj|].
Qed.

Lemma decodes_list l : Forall decodes l -> forall l' r r',
  length l = length l' -> (forall i x y, l !! i = Some x -> l' !! i = Some y -> alike x y) ->
  all fits l -> all fits l' -> all typed l -> all typed l' ->
  concat (map enc l) ++ r = concat (map enc l') ++ r' -> map canon l = map canon l' /\ r = r'.
Proof.
  induction 1 as [|c l Hc HF IH]; intros [|c' l'] r r' Hl Ha F F' T T' E; simpl in *; try done.
  rewrite <- !app_assoc in E. apply Hc in E as [-> E]; [|by apply (Ha 0%nat)|tauto..].
  apply IH in E as [-> ->]; [done|lia| |tauto..]. intros i. apply (Ha (S i)).
Qed.

Lemma ptr_hash (h : option Hash) :
  enc (HHashPtr h) = Bytes (default zeroHash h) /\ (typed (HHashPtr h) -> wf_hash (default zeroHash h)).
Proof. destruct h; simpl; [done|]. split; [by rewrite Bytes_zero|done]. Qed.

Lemma enc_decodes c : decodes c.
Proof.
  induction c as [b|n|bs|l|h|h| |v IH|l IH|l IH] using hval_rect_list;
    intros c' r r' Ha F F' T T' E; inversion Ha; subst; cbn [enc fits typed canon] in *.
  - by injection E as -> ->.
  - apply uvarint_inj in E as [-> ->]; [done|lia..].
  - apply varstr_inj in E as [-> ->]; done.
  - rewrite <- !app_assoc in E. destruct F as [Hl F], F' as [Hl' F'].
    pose proof (zlen_nonneg l). pose proof (zlen_nonneg l').
    apply uvarint_inj in E as [Ez E]; [|unfold_int; lia..].
    apply varstrs_inj in E as [-> ->]; [done|unfold zlen in *; lia|done..].
  - change (enc (HHashPtr h) ++ r = enc (HHashPtr h') ++ r') in E.
    destruct (ptr_hash h) as [E1 W1], (ptr_hash h') as [E2 W2]. rewrite E1, E2 in E.
    apply hash_inj in E as [-> ->]; [done|by apply W1|by apply W2].
  - apply hash_inj in E as [-> ->]; done.
  - done.
  - match goal with Hv : alike v _ |- _ => apply (IH _ _ _ Hv) in E as [-> ->]; done end.
  - rewrite <- !app_assoc in E. destruct F as [Hl F], F' as [Hl' F'].
    pose proof (zlen_nonneg l). pose proof (zlen_nonneg l').
    apply uvarint_inj in E as [Ez E]; [|unfold_int; lia..].
    apply (decodes_list _ IH) in E as [-> ->]; [done|unfold zlen in *; lia| |done..].
    intros i x y Hx Hy. eauto using list_elem_of_lookup_2.
  - match goal with HF : Forall2 alike l _ |- _ => rename HF into HF2 end.
    apply (decodes_list _ IH) in E as [-> ->]; [done|by eapply Forall2_length| |done..].
    intros i x y Hx Hy. by eapply Forall2_lookup_lr.
Qed.

(** ** Entries *)

Definition complete_source (s : option ValueSource) : Prop := exists s', s = Some s' /\ is_Some (src_Value s').

(** The messages that are hashed are there. *)
Definition complete (e : Entry) : Prop :=
  match e with
  | EMux m => Forall complete_source (Sources m) /\ is_Some (mux_Program m)
  | ENonce n => is_Some (nonce_Program n)
  | EOutput o => complete_source (out_Source o) /\ is_Some (ControlProgram o)
  | ERetirement r => complete_source (ret_Source r)
  | EIssuance i => is_Some (iss_Value i)
  | _ => True
  end.

Lemma alike_source s s' :
  complete_source s -> complete_source s' ->
  alike (HPtr (hval_ValueSource <$> s)) (HPtr (hval_ValueSource <$> s')).
Proof.
  intros (x & -> & v & Ev) (y & -> & v' & Ev'). unfold hval_ValueSource. simpl. rewrite Ev, Ev'. simpl.
  repeat constructor.
Qed.

Lemma alike_program p p' :
  is_Some p -> is_Some p' -> alike (HPtr (hval_Program <$> p)) (HPtr (hval_Program <$> p')).
Proof. intros [x ->] [y ->]. repeat constructor. Qed.

Lemma complete_alike e e' :
  typ e = typ e' -> complete e -> complete e' -> Forall2 alike (body_fields e) (body_fields e').
Proof.
  destruct e, e'; try discriminate 1; intros _ C C'; simpl in *;
    repeat match goal with H : _ /\ _ |- _ => destruct H end;
    repeat first [apply Forall2_nil_2|apply Forall2_cons_2]; try constructor;
    auto using alike_program, alike_source.
  - intros x y (h1 & -> & _)%list_elem_of_fmap (h2 & -> & _)%list_elem_of_fmap. constructor.
  - intros x y (s & -> & Hs)%list_elem_of_fmap (s' & -> & Hs')%list_elem_of_fmap.
    repeat match goal with HF : Forall complete_source _ |- _ => rewrite Forall_forall in HF end.
    auto using alike_source.
  - destruct C as [v ->], C' as [v' ->]. repeat constructor.
Qed.

Section Identifiers.
Context `{CryptoLaws}.

(** The two strings that are hashed for an entry. *)
Definition id_string (e : Entry) (body : bytes) : bytes :=
  string_bytes "entryid:" ++ string_bytes (typ e) ++ string_bytes ":" ++ sha3_256_sum body.

Definition entry_hashes (e : Entry) (x : bytes) : Prop :=
  exists body, entry_body e = Some body /\ (x = body \/ x = id_string e body).

Lemma id_string_inj e e' b b' :
  id_string e b = id_string e' b' -> typ e = typ e' /\ sha3_256_sum b = sha3_256_sum b'.
Proof.
  unfold id_string. intros E. apply app_inv_head in E. rewrite !app_assoc in E.
  apply app_inj_2 in E as [E1 E2].
  - split; [|done]. destruct e, e'; vm_compute in E1; try discriminate E1; reflexivity.
  - pose proof (sha3_256_len b). pose proof (sha3_256_len b'). unfold zlen in *. lia.
Qed.

Lemma EntryID_string e id :
  EntryID (Some e) = Some id -> exists b, entry_body e = Some b /\ sum_hash (id_string e b) = id.
Proof. unfold EntryID. destruct (entry_body e) as [b|]; [|done]. intros [= <-]. by exists b. Qed.

(** An entry identifier commits to the entry.  Two entries with the same
    identifier have the same type and the same hashed fields (a nil hash pointer
    counts as the zero hash), unless two of the strings that are hashed for them are
    a collision of SHA3-256. *)
Lemma EntryID_binding e e' id :
  EntryID (Some e) = Some id -> EntryID (Some e') = Some id ->
  Forall typed (body_fields e) -> Forall typed (body_fields e') -> complete e -> complete e' ->
  typ e = typ e' /\ map canon (body_fields e) = map canon (body_fields e') \/
  collision (entry_hashes e) (entry_hashes e').
Proof.
  intros (b & Eb & E)%EntryID_string (b' & Eb' & E')%EntryID_string T T' C C'.
  destruct (decide (id_string e b = id_string e' b')) as [Es|Ne].
  2:{ right. exists (id_string e b), (id_string e' b'). rewrite E, E'. unfold entry_hashes. eauto 10. }
  apply id_string_inj in Es as [Et Eh]. destruct (decide (b = b')) as [->|Ne].
  2:{ right. exists b, b'. unfold sum_hash, entry_hashes. rewrite Eh. eauto 10. }
  left. split; [done|]. apply mustWrite_inv in Eb as [F ->]. apply mustWrite_inv in Eb' as [F' Eq].
  pose proof (enc_decodes (HStruct (body_fields e)) (HStruct (body_fields e')) [] []) as Hd.
  rewrite <- all_Forall in F, F', T, T'.
  destruct Hd as [Hc _]; [constructor; by apply complete_alike|done..| |by injection Hc].
  simpl. rewrite !app_nil_r. exact Eq.
Qed.
End Identifiers.

(** Two spends that differ only in their witnesses. *)
Lemma EntryID_binding_witness :
  let s := NewSpend (Some (mkHash 1 2 3 4)) None 0 in
  let s' := Spend_SetDestination (NewSpend (Some (mkHash 1 2 3 4)) (Some zeroHash) 1) (Some zeroHash) None 7 in
  typ (ESpend s) = typ (ESpend s') /\
  map canon (body_fields (ESpend s)) = map canon (body_fields (ESpend s')) \/
  collision (H := toy_crypto) (entry_hashes (H := toy_crypto) (ESpend s)) (entry_hashes (H := toy_crypto) (ESpend s')).
Proof.
  intros s s'.
  apply (EntryID_binding (H0 := toy_crypto_laws) (ESpend s) (ESpend s')
           (default zeroHash (EntryID (H := toy_crypto) (Some (ESpend s)))));
    [vm_compute; reflexivity|vm_compute; reflexivity|repeat constructor|repeat constructor|exact I|exact I].
Defined.
