(* ===== verification/Legacy.v ===== *)
(** * The serialized forms of transactions and blocks: [protocol/bc/legacy]

    The data of [transaction.go], [txinput.go], [txoutput.go], [spend.go],
    [issuance.go], [output_commitment.go], [block_header.go] and [block.go], how they
    are written to a buffer and read back.  The mapping to entries is in [LegacyMap].

    A write to a buffer appends to it; it can stop with an error when a value is out
    of range, and panic when an asset identifier is missing. *)

From Stdlib Require Import ZArith Lia Strings.Byte.
From stdpp Require Import gmap.
From S2P Require Import Prelude Crypto Encoding Bc.

(** ** Writing *)

Inductive wres := Wrote (w : Buffer) | WFail (e : serr) (w : Buffer) | WPanic.

Definition Wr : Type := Buffer -> wres.

(** [if err := a(w); err != nil { return err }; return b(w)] *)
Definition wseq (a b : Wr) : Wr := fun w =>
  match a w with Wrote w => b w | r => r end.

Declare Scope wr_scope.
Delimit Scope wr_scope with wr.
Notation "a +++ b" := (wseq a b) (at level 60, right associativity) : wr_scope.
Open Scope wr_scope.

Definition wnop : Wr := Wrote.

Definition of_write (f : Buffer -> (Z * option serr) * Buffer) : Wr := fun w =>
  match f w with ((_, None), w) => Wrote w | ((_, Some e), w) => WFail e w end.

Definition wraw (bs : bytes) : Wr := of_write (fun w => Write w bs).
Definition wvarint31 (n : Z) : Wr := of_write (fun w => WriteVarint31 w n).
Definition wvarint63 (n : Z) : Wr := of_write (fun w => WriteVarint63 w n).
Definition wvarstr (s : bytes) : Wr := of_write (fun w => WriteVarstr31 w s).
Definition wvarstrs (l : list bytes) : Wr := of_write (fun w => WriteVarstrList w l).
Definition whash (h : Hash) : Wr := wraw (Bytes h).

(** [WriteExtensibleString] with a function that can panic. *)
Definition wext (suffix : bytes) (f : Wr) : Wr := fun w =>
  match f [] with
  | WPanic => WPanic
  | Wrote b => of_write (fun w => WriteExtensibleString w suffix (fun _ => (None, b))) w
  | WFail e b => of_write (fun w => WriteExtensibleString w suffix (fun _ => (Some e, b))) w
  end.

Fixpoint wlist {A} (f : A -> Wr) (l : list A) : Wr :=
  match l with [] => wnop | x :: l => f x +++ wlist f l end.

(** ** Reading *)

(** [io.ReadFull] with a buffer of [n] bytes: one [Read] fills it or ends the input. *)
Definition ReadFull (n : nat) : R bytes := fun r =>
  let '((bs, _), r') := Read n r in
  if (length bs =? n)%nat then (Ok bs, r')
  else ((if (length bs =? 0)%nat then Err EOF else Err ErrUnexpectedEOF), r').

Definition Hash_ReadFrom : R Hash := bs ← ReadFull 32; mret (NewHash bs).

Definition ReadStrings : R (list bytes) := fun r =>
  match ReadVarstrList r with ((l, None), r) => (Ok l, r) | ((_, Some e), r) => (Err e, r) end.

(** [for ; n > 0; n-- { ... }] *)
Fixpoint read_n {A} (f : R A) (n : nat) : R (list A) :=
  match n with
  | O => mret []
  | S n => x ← f; l ← read_n f n; mret (x :: l)
  end.

Definition rensure (ok : bool) (e : serr) : R unit := if ok then mret tt else rfail e.

(** ** Asset amounts: [asset.go] *)

Definition AssetAmount_WriteTo (a : AssetAmount) : Wr :=
  match AssetId a with
  | None => fun _ => WPanic
  | Some id => whash id +++ wvarint63 (Amount a)
  end.

Definition AssetAmount_ReadFrom : R AssetAmount :=
  id ← Hash_ReadFrom; n ← ReadVarint63; mret (mkAssetAmount (Some id) n).

Definition zeroAmount : AssetAmount := mkAssetAmount None 0.

(** ** Output commitments: [output_commitment.go] *)

Record OutputCommitment := mkOC {
  oc_AssetAmount : AssetAmount;
  oc_VMVersion : Z;
  oc_ControlProgram : bytes;
}.

Definition zeroOC : OutputCommitment := mkOC zeroAmount 0 [].

Definition wsuffix (suffix : bytes) : Wr := if 0 <? zlen suffix then wraw suffix else wnop.

Definition OutputCommitment_writeContents (oc : OutputCommitment) (suffix : bytes) (assetVersion : Z) : Wr :=
  (if assetVersion =? 1 then
     AssetAmount_WriteTo (oc_AssetAmount oc) +++ wvarint63 (oc_VMVersion oc) +++ wvarstr (oc_ControlProgram oc)
   else wnop) +++ wsuffix suffix.

Definition OutputCommitment_writeExtensibleString (oc : OutputCommitment) (suffix : bytes) (assetVersion : Z) : Wr :=
  wext suffix (OutputCommitment_writeContents oc suffix assetVersion).

Definition OutputCommitment_readFrom (assetVersion : Z) : R (OutputCommitment * bytes) :=
  ReadExtensibleString
    (if assetVersion =? 1 then
       a ← AssetAmount_ReadFrom;
       v ← ReadVarint63;
       rensure (v =? 1) Unsupported;;
       p ← ReadVarstr31;
       mret (mkOC a v p)
     else mret zeroOC).

(** ** Spends: [spend.go] *)

Record SpendCommitment := mkSC {
  sc_AssetAmount : AssetAmount;
  SourceID : Hash;
  SourcePosition : Z;
  sc_VMVersion : Z;
  sc_ControlProgram : bytes;
  RefDataHash : Hash;
}.

Definition SpendCommitment_writeContents (sc : SpendCommitment) (suffix : bytes) (assetVersion : Z) : Wr :=
  (if assetVersion =? 1 then
     whash (SourceID sc) +++ AssetAmount_WriteTo (sc_AssetAmount sc) +++ wvarint63 (SourcePosition sc) +++
     wvarint63 (sc_VMVersion sc) +++ wvarstr (sc_ControlProgram sc) +++ whash (RefDataHash sc)
   else wnop) +++ wsuffix suffix.

Definition SpendCommitment_writeExtensibleString (sc : SpendCommitment) (suffix : bytes) (assetVersion : Z) : Wr :=
  wext suffix (SpendCommitment_writeContents sc suffix assetVersion).

Definition zeroSC : SpendCommitment := mkSC zeroAmount zeroHash 0 0 [] zeroHash.

Definition SpendCommitment_readFrom (assetVersion : Z) : R (SpendCommitment * bytes) :=
  ReadExtensibleString
    (if assetVersion =? 1 then
       src ← Hash_ReadFrom;
       a ← AssetAmount_ReadFrom;
       pos ← ReadVarint63;
       v ← ReadVarint63;
       rensure (v =? 1) Unsupported;;
       p ← ReadVarstr31;
       h ← Hash_ReadFrom;
       mret (mkSC a src pos v p h)
     else mret zeroSC).

(** [Hash]: the errors of the write are ignored. *)
Definition SpendCommitment_Hash `{Crypto} (sc : SpendCommitment) (suffix : bytes) (assetVersion : Z) : option Hash :=
  match SpendCommitment_writeExtensibleString sc suffix assetVersion [] with
  | Wrote w | WFail _ w => Some (sum_hash w)
  | WPanic => None
  end.

Record SpendInput := mkSpendInput {
  si_SpendCommitment : SpendCommitment;
  SpendCommitmentSuffix : bytes;
  si_Arguments : list bytes;
}.

(** ** Issuances: [issuance.go], [issuance_witness.go] *)

Record IssuanceInput := mkIssuanceInput {
  ii_Nonce : bytes;
  ii_Amount : Z;
  InitialBlock : Hash;
  ii_AssetDefinition : bytes;
  ii_VMVersion : Z;
  ii_IssuanceProgram : bytes;
  ii_Arguments : list bytes;
}.

(** ** Inputs: [txinput.go] *)

Inductive TypedInput := IsIssuance (ii : IssuanceInput) | IsSpend (si : SpendInput).

Record TxInput := mkTxInput {
  ti_AssetVersion : Z;
  ti_ReferenceData : bytes;
  ti_TypedInput : option TypedInput;
  ti_CommitmentSuffix : bytes;
  ti_WitnessSuffix : bytes;
}.

(** The bits of the serialization flags. *)
Definition SerWitness : Z := 1.
Definition SerPrevout : Z := 2.
Definition SerMetadata : Z := 4.
Definition serRequired : Z := 7.

Definition has_flag (serflags flag : Z) : bool := negb (Z.land serflags flag =? 0).

Section Inputs.
Context `{Crypto}.

Definition hashData (data : bytes) : Hash := sum_hash data.

Definition AssetDefinitionHash (ii : IssuanceInput) : Hash := sum_hash (ii_AssetDefinition ii).

Definition IssuanceInput_AssetID (ii : IssuanceInput) : AssetID :=
  ComputeAssetID (ii_IssuanceProgram ii) (Some (InitialBlock ii)) (ii_VMVersion ii)
    (Some (AssetDefinitionHash ii)).

(** [TxInput.AssetAmount]; a missing typed input makes the type assertion panic. *)
Definition TxInput_AssetAmount (t : TxInput) : option AssetAmount :=
  match ti_TypedInput t with
  | Some (IsIssuance ii) => Some (mkAssetAmount (Some (IssuanceInput_AssetID ii)) (ii_Amount ii))
  | Some (IsSpend si) => Some (sc_AssetAmount (si_SpendCommitment si))
  | None => None
  end.

Definition TxInput_AssetID (t : TxInput) : option AssetID :=
  match ti_TypedInput t with
  | Some (IsIssuance ii) => Some (IssuanceInput_AssetID ii)
  | Some (IsSpend si) => AssetId (sc_AssetAmount (si_SpendCommitment si))
  | None => None
  end.

Definition TxInput_Amount (t : TxInput) : option Z :=
  match ti_TypedInput t with
  | Some (IsIssuance ii) => Some (ii_Amount ii)
  | Some (IsSpend si) => Some (Amount (sc_AssetAmount (si_SpendCommitment si)))
  | None => None
  end.

(** A slice that is nil is the empty list. *)
Definition TxInput_ControlProgram (t : TxInput) : bytes :=
  match ti_TypedInput t with
  | Some (IsSpend si) => sc_ControlProgram (si_SpendCommitment si)
  | _ => []
  end.

Definition TxInput_IssuanceProgram (t : TxInput) : bytes :=
  match ti_TypedInput t with Some (IsIssuance ii) => ii_IssuanceProgram ii | _ => [] end.

Definition TxInput_Arguments (t : TxInput) : list bytes :=
  match ti_TypedInput t with
  | Some (IsIssuance ii) => ii_Arguments ii
  | Some (IsSpend si) => si_Arguments si
  | None => []
  end.

Definition SetArguments (t : TxInput) (args : list bytes) : TxInput :=
  mkTxInput (ti_AssetVersion t) (ti_ReferenceData t)
    (match ti_TypedInput t with
     | Some (IsIssuance ii) =>
         Some (IsIssuance (mkIssuanceInput (ii_Nonce ii) (ii_Amount ii) (InitialBlock ii) (ii_AssetDefinition ii)
                             (ii_VMVersion ii) (ii_IssuanceProgram ii) args))
     | Some (IsSpend si) => Some (IsSpend (mkSpendInput (si_SpendCommitment si) (SpendCommitmentSuffix si) args))
     | None => None
     end)
    (ti_CommitmentSuffix t) (ti_WitnessSuffix t).

Definition NewSpendInput (arguments : list bytes) (sourceID : Hash) (assetID : AssetID) (amount sourcePos : Z)
    (controlProgram : bytes) (outRefDataHash : Hash) (referenceData : bytes) : TxInput :=
  mkTxInput 1 referenceData
    (Some (IsSpend (mkSpendInput
       (mkSC (mkAssetAmount (Some assetID) amount) sourceID sourcePos 1 controlProgram outRefDataHash) [] arguments)))
    [] [].

Definition NewIssuanceInput (nonce : bytes) (amount : Z) (referenceData : bytes) (initialBlock : Hash)
    (issuanceProgram : bytes) (arguments : list bytes) (assetDefinition : bytes) : TxInput :=
  mkTxInput 1 referenceData
    (Some (IsIssuance (mkIssuanceInput nonce amount initialBlock assetDefinition 1 issuanceProgram arguments)))
    [] [].

Definition WriteInputCommitment (t : TxInput) (serflags : Z) : Wr :=
  if negb (ti_AssetVersion t =? 1) then wnop
  else
    match ti_TypedInput t with
    | Some (IsIssuance inp) =>
        wraw [x00] +++ wvarstr (ii_Nonce inp) +++ whash (IssuanceInput_AssetID inp) +++
        wvarint63 (ii_Amount inp)
    | Some (IsSpend inp) =>
        wraw [x01] +++
        (if has_flag serflags SerPrevout then
           SpendCommitment_writeExtensibleString (si_SpendCommitment inp) (SpendCommitmentSuffix inp)
             (ti_AssetVersion t)
         else
           match SpendCommitment_Hash (si_SpendCommitment inp) (SpendCommitmentSuffix inp) (ti_AssetVersion t) with
           | Some h => whash h
           | None => fun _ => WPanic
           end)
    | None => wnop
    end.

Definition writeInputWitness (t : TxInput) : Wr :=
  if negb (ti_AssetVersion t =? 1) then wnop
  else
    match ti_TypedInput t with
    | Some (IsIssuance inp) =>
        whash (InitialBlock inp) +++ wvarstr (ii_AssetDefinition inp) +++ wvarint63 (ii_VMVersion inp) +++
        wvarstr (ii_IssuanceProgram inp) +++ wvarstrs (ii_Arguments inp)
    | Some (IsSpend inp) => wvarstrs (si_Arguments inp)
    | None => wnop
    end.

Definition TxInput_writeTo (t : TxInput) (serflags : Z) : Wr :=
  wvarint63 (ti_AssetVersion t) +++
  wext (ti_CommitmentSuffix t) (WriteInputCommitment t serflags) +++
  wvarstr (ti_ReferenceData t) +++
  (if has_flag serflags SerWitness then wext (ti_WitnessSuffix t) (writeInputWitness t) else wnop).

(** What the commitment says of the input: nothing, an issuance with its asset, or a
    spend. *)
Inductive input_commitment :=
| NoInput
| IssuanceCommitment (nonce : bytes) (assetID : AssetID) (amount : Z)
| SpendOf (sc : SpendCommitment) (suffix : bytes).

Definition read_commitment (assetVersion : Z) : R input_commitment :=
  if negb (assetVersion =? 1) then mret NoInput
  else
    icType ← ReadFull 1;
    if bool_decide (icType = [x00]) then
      nonce ← ReadVarstr31;
      assetID ← Hash_ReadFrom;
      amount ← ReadVarint63;
      mret (IssuanceCommitment nonce assetID amount)
    else if bool_decide (icType = [x01]) then
      p ← SpendCommitment_readFrom 1;
      mret (SpendOf p.1 p.2)
    else rfail Unsupported.

Definition read_witness (assetVersion : Z) (ic : input_commitment) : R (option TypedInput) :=
  if negb (assetVersion =? 1) then mret None
  else
    match ic with
    | IssuanceCommitment nonce assetID amount =>
        ib ← Hash_ReadFrom;
        def ← ReadVarstr31;
        v ← ReadVarint63;
        prog ← ReadVarstr31;
        rensure (bool_decide (IssuanceInput_AssetID (mkIssuanceInput nonce amount ib def v prog []) = assetID))
          errBadAssetID;;
        args ← ReadStrings;
        mret (Some (IsIssuance (mkIssuanceInput nonce amount ib def v prog args)))
    | SpendOf sc suffix => args ← ReadStrings; mret (Some (IsSpend (mkSpendInput sc suffix args)))
    | NoInput => ReadStrings;; mret None
    end.

Definition TxInput_readFrom : R TxInput :=
  v ← ReadVarint63;
  c ← ReadExtensibleString (read_commitment v);
  ref ← ReadVarstr31;
  w ← ReadExtensibleString (read_witness v c.1);
  mret (mkTxInput v ref w.1 c.2 w.2).
End Inputs.

(** ** Outputs: [txoutput.go] *)

Record TxOutput := mkTxOutput {
  to_AssetVersion : Z;
  to_OutputCommitment : OutputCommitment;
  to_CommitmentSuffix : bytes;
  to_WitnessSuffix : bytes;
  to_ReferenceData : bytes;
}.

Section Transactions.
Context `{Crypto}.

Definition writeFastHash (d : bytes) : Wr :=
  if zlen d =? 0 then wvarstr [] else wvarstr (sha3_256_sum d).

Definition writeRefData (data : bytes) (serflags : Z) : Wr :=
  if has_flag serflags SerMetadata then wvarstr data else writeFastHash data.

Definition WriteCommitment (o : TxOutput) : Wr :=
  OutputCommitment_writeExtensibleString (to_OutputCommitment o) (to_CommitmentSuffix o) (to_AssetVersion o).

Definition NewTxOutput (assetID : AssetID) (amount : Z) (controlProgram referenceData : bytes) : TxOutput :=
  mkTxOutput 1 (mkOC (mkAssetAmount (Some assetID) amount) 1 controlProgram) [] [] referenceData.

(** As for spends, the errors of the write are ignored. *)
Definition OutputCommitment_Hash (oc : OutputCommitment) (suffix : bytes) (assetVersion : Z) : option Hash :=
  match OutputCommitment_writeExtensibleString oc suffix assetVersion [] with
  | Wrote w | WFail _ w => Some (sum_hash w)
  | WPanic => None
  end.

Definition CommitmentHash (o : TxOutput) : option Hash :=
  OutputCommitment_Hash (to_OutputCommitment o) (to_CommitmentSuffix o) (to_AssetVersion o).

Definition TxOutput_writeTo (o : TxOutput) (serflags : Z) : Wr :=
  wvarint63 (to_AssetVersion o) +++ WriteCommitment o +++ writeRefData (to_ReferenceData o) serflags +++
  wvarstr [].

(** The witness of an output is read and dropped. *)
Definition TxOutput_readFrom : R TxOutput :=
  v ← ReadVarint63;
  c ← OutputCommitment_readFrom v;
  ref ← ReadVarstr31;
  ReadVarstr31;;
  mret (mkTxOutput v c.1 c.2 [] ref).

(** ** Transactions: [transaction.go] *)

Record TxData := mkTxData {
  td_Version : Z;
  Inputs : list TxInput;
  Outputs : list TxOutput;
  MinTime : Z;
  MaxTime : Z;
  CommonFieldsSuffix : bytes;
  CommonWitnessSuffix : bytes;
  td_ReferenceData : bytes;
}.

(** [HasIssuance]: an input without a typed input panics when it is asked. *)
Fixpoint has_issuance (ins : list TxInput) : option bool :=
  match ins with
  | [] => Some false
  | inp :: ins =>
      match ti_TypedInput inp with
      | None => None
      | Some (IsIssuance _) => Some true
      | Some (IsSpend _) => has_issuance ins
      end
  end.

Definition HasIssuance (tx : TxData) : option bool := has_issuance (Inputs tx).

Definition TxData_writeTo (tx : TxData) (serflags : Z) : Wr :=
  wraw [byte_of_Z serflags] +++
  wvarint63 (td_Version tx) +++
  wext (CommonFieldsSuffix tx) (wvarint63 (MinTime tx) +++ wvarint63 (MaxTime tx)) +++
  wext (CommonWitnessSuffix tx) wnop +++
  wvarint31 (zlen (Inputs tx)) +++
  wlist (fun ti => TxInput_writeTo ti serflags) (Inputs tx) +++
  wvarint31 (zlen (Outputs tx)) +++
  wlist (fun o => TxOutput_writeTo o serflags) (Outputs tx) +++
  writeRefData (td_ReferenceData tx) serflags.

Definition TxData_readFrom : R TxData :=
  flags ← ReadFull 1;
  rensure (bool_decide (flags = [byte_of_Z serRequired])) Unsupported;;
  v ← ReadVarint63;
  times ← ReadExtensibleString (min ← ReadVarint63; max ← ReadVarint63; mret (min, max));
  cw ← ReadExtensibleString (mret tt);
  n ← ReadVarint31;
  ins ← read_n TxInput_readFrom (Z.to_nat n);
  n ← ReadVarint31;
  outs ← read_n TxOutput_readFrom (Z.to_nat n);
  ref ← ReadVarstr31;
  mret (mkTxData v ins outs times.1.1 times.1.2 times.2 cw.2 ref).

(** [WriteTo] to a buffer: the error it returns is that of the underlying writer, so
    an error of [writeTo] itself is dropped. *)
Definition TxData_WriteTo (tx : TxData) : Wr := fun w =>
  match TxData_writeTo tx serRequired w with WFail _ w => Wrote w | r => r end.

(** ** Hexadecimal text *)

Definition hex_digit (n : Z) : byte :=
  byte_of_Z (if n <? 10 then n + 48 else n + 87).

Definition hex_encode (bs : bytes) : bytes :=
  flat_map (fun b => [hex_digit (Z.shiftr (Z_of_byte b) 4); hex_digit (Z.land (Z_of_byte b) 15)]) bs.

Definition from_hex (b : byte) : option Z :=
  let c := Z_of_byte b in
  if (48 <=? c) && (c <=? 57) then Some (c - 48)
  else if (97 <=? c) && (c <=? 102) then Some (c - 87)
  else if (65 <=? c) && (c <=? 70) then Some (c - 55)
  else None.

(** [hex.Decode]: an odd length or another character is an error. *)
Fixpoint hex_decode (bs : bytes) : option bytes :=
  match bs with
  | [] => Some []
  | [_] => None
  | a :: b :: bs =>
      x ← from_hex a; y ← from_hex b; r ← hex_decode bs;
      Some (byte_of_Z (Z.lor (Z.shiftl x 4) y) :: r)
  end.

(** [MarshalText] ignores what [WriteTo] returns; [None] is a panic. *)
Definition TxData_MarshalText (tx : TxData) : option bytes :=
  match TxData_WriteTo tx [] with Wrote w | WFail _ w => Some (hex_encode w) | WPanic => None end.

(** Read a message and nothing after it. *)
Definition read_all {A} (f : R A) (bs : bytes) : result serr A :=
  match f (NewReader bs) with
  | (Err e, _) => Err e
  | (Ok a, r) => if 0 <? Len r then Err TrailingGarbage else Ok a
  end.

Definition TxData_UnmarshalText (p : bytes) : result serr TxData :=
  match hex_decode p with None => Err Unsupported | Some b => read_all TxData_readFrom b end.

(** ** Block headers: [block_header.go], [block_commitment.go], [block_witness.go] *)

Record LBlockHeader := mkLBlockHeader {
  lb_Version : Z;
  lb_Height : Z;
  PreviousBlockHash : Hash;
  TimestampMS : Z;
  TransactionsMerkleRoot : Hash;
  AssetsMerkleRoot : Hash;
  ConsensusProgram : bytes;
  lb_CommitmentSuffix : bytes;
  Witness : list bytes;
  lb_WitnessSuffix : bytes;
}.

Definition SerBlockWitness : Z := 1.
Definition SerBlockTransactions : Z := 2.
Definition SerBlockSigHash : Z := 0.
Definition SerBlockHeader : Z := SerBlockWitness.
Definition SerBlockFull : Z := Z.lor SerBlockWitness SerBlockTransactions.

Definition BlockCommitment_writeTo (bh : LBlockHeader) : Wr :=
  whash (TransactionsMerkleRoot bh) +++ whash (AssetsMerkleRoot bh) +++ wvarstr (ConsensusProgram bh).

Definition BlockCommitment_readFrom : R (Hash * Hash * bytes) :=
  t ← Hash_ReadFrom; a ← Hash_ReadFrom; p ← ReadVarstr31; mret (t, a, p).

Definition BlockWitness_writeTo (bh : LBlockHeader) : Wr := wvarstrs (Witness bh).

Definition BlockHeader_writeTo (bh : LBlockHeader) (serflags : Z) : Wr :=
  wraw [byte_of_Z serflags] +++
  wvarint63 (lb_Version bh) +++ wvarint63 (lb_Height bh) +++ whash (PreviousBlockHash bh) +++
  wvarint63 (TimestampMS bh) +++
  wext (lb_CommitmentSuffix bh) (BlockCommitment_writeTo bh) +++
  (if has_flag serflags SerBlockWitness then wext (lb_WitnessSuffix bh) (BlockWitness_writeTo bh) else wnop).

(** An error of [io.ReadFull] is ignored: the flags are then zero. *)
Definition read_flags : R Z := fun r =>
  match ReadFull 1 r with
  | (Ok [b], r) => (Ok (Z_of_byte b), r)
  | (_, r) => (Ok 0, r)
  end.

Definition BlockHeader_readFrom : R (Z * LBlockHeader) :=
  flags ← read_flags;
  rensure ((flags =? SerBlockSigHash) || (flags =? SerBlockHeader) || (flags =? SerBlockFull)) Unsupported;;
  v ← ReadVarint63;
  h ← ReadVarint63;
  prev ← Hash_ReadFrom;
  ts ← ReadVarint63;
  c ← ReadExtensibleString BlockCommitment_readFrom;
  w ← (if has_flag flags SerBlockWitness then ReadExtensibleString ReadStrings else mret ([], []));
  mret (flags, mkLBlockHeader v h prev ts c.1.1.1 c.1.1.2 c.1.2 c.2 w.1 w.2).

(** Drop the error of a write and go on. *)
Definition wignore (a : Wr) : Wr := fun w => match a w with WFail _ w => Wrote w | r => r end.

Definition BlockHeader_WriteTo (bh : LBlockHeader) : Wr := wignore (BlockHeader_writeTo bh SerBlockHeader).

Definition BlockHeader_Value (bh : LBlockHeader) : option bytes :=
  match BlockHeader_WriteTo bh [] with Wrote w | WFail _ w => Some w | WPanic => None end.

Definition BlockHeader_MarshalText (bh : LBlockHeader) : option bytes := hex_encode <$> BlockHeader_Value bh.

(** What follows a header is not looked at. *)
Definition BlockHeader_Scan (buf : bytes) : result serr LBlockHeader :=
  match BlockHeader_readFrom (NewReader buf) with (Ok (_, bh), _) => Ok bh | (Err e, _) => Err e end.

Definition BlockHeader_UnmarshalText (text : bytes) : result serr LBlockHeader :=
  match hex_decode text with None => Err Unsupported | Some b => BlockHeader_Scan b end.

(** ** Blocks: [block.go] *)

(** The transactions are their data; [NewTx] adds the mapped form. *)
Record LBlock := mkLBlock { lb_Header : LBlockHeader; lb_Transactions : list TxData }.

Definition Block_writeTo (b : LBlock) (serflags : Z) : Wr :=
  wignore (BlockHeader_writeTo (lb_Header b) serflags) +++
  (if has_flag serflags SerBlockTransactions then
     wignore (wvarint31 (zlen (lb_Transactions b))) +++ wlist TxData_WriteTo (lb_Transactions b)
   else wnop).

Definition Block_WriteTo (b : LBlock) : Wr := Block_writeTo b SerBlockFull.

Definition Block_readFrom : R LBlock :=
  fh ← BlockHeader_readFrom;
  txs ← (if has_flag fh.1 SerBlockTransactions
         then n ← ReadVarint31; read_n TxData_readFrom (Z.to_nat n) else mret []);
  mret (mkLBlock fh.2 txs).

Definition Block_Value (b : LBlock) : option bytes :=
  match Block_WriteTo b [] with Wrote w | WFail _ w => Some w | WPanic => None end.

Definition Block_MarshalText (b : LBlock) : option bytes :=
  match Block_WriteTo b [] with Wrote w | WFail _ w => Some (hex_encode w) | WPanic => None end.

Definition Block_UnmarshalText (text : bytes) : result serr LBlock :=
  match hex_decode text with None => Err Unsupported | Some b => read_all Block_readFrom b end.

Definition Block_Scan (buf : bytes) : result serr LBlock := read_all Block_readFrom buf.
End Transactions.
