(* ===== verification/LegacyRoundtrip.v ===== *)
(** * Round trips of the serialized forms

    [codec wr rd a]: what [wr] writes, [rd] reads back as [a], whatever follows.  There
    is one rule per primitive of [encoding/blockchain] and one per way of combining
    them; a message is then a sequence of rules.  An upper bound on a length or on an
    integer never has to be assumed: a write that succeeds has checked it. *)

From Stdlib Require Import ZArith Lia Strings.Byte.
From stdpp Require Import gmap.
From S2P Require Import Prelude Crypto Encoding Bc EntryHash Legacy.

(** ** Codecs *)

(** A write appends the same bytes to any buffer. *)
Definition framed (wr : Wr) : Prop := forall w,
  wr w = match wr [] with Wrote e => Wrote (w ++ e) | WFail x e => WFail x (w ++ e) | WPanic => WPanic end.

Definition codec {A} (wr : Wr) (rd : R A) (a : A) : Prop :=
  framed wr /\ forall enc, wr [] = Wrote enc -> forall rest, rd (enc ++ rest) = (Ok a, rest).

Lemma framed_seq a b : framed a -> framed b -> framed (a +++ b).
Proof.
  intros Ha Hb w. unfold wseq. rewrite (Ha w). destruct (a []) as [e|x e|]; try done.
  rewrite (Hb (w ++ e)), (Hb e). destruct (b []); by rewrite ?app_assoc.
Qed.

Lemma framed_nop : framed wnop.
Proof. intros w. unfold wnop. by rewrite app_nil_r. Qed.

Lemma framed_panic : framed (fun _ => WPanic).
Proof. by intros w. Qed.

(** A write that does not read the buffer. *)
Lemma framed_const (f : Buffer -> (Z * option serr) * Buffer) e bs :
  (forall w, (f w).1.2 = e /\ (f w).2 = w ++ bs) -> framed (of_write f).
Proof.
  intros Hf w. unfold of_write. destruct (Hf w) as [E1 E2], (Hf []) as [E3 E4].
  destruct (f w) as [[n o] b], (f []) as [[n' o'] b']. simpl in *. rewrite E1, E2, E3, E4. by destruct e.
Qed.

Lemma framed_raw bs : framed (wraw bs).
Proof. by apply (framed_const _ None bs). Qed.

Lemma framed_varint63 n : framed (wvarint63 n).
Proof.
  unfold wvarint63, WriteVarint63. destruct (MaxInt64 <? n).
  - apply (framed_const _ (Some ErrRange) []). intros w. simpl. by rewrite app_nil_r.
  - by apply (framed_const _ None (uvarint n)).
Qed.

Lemma framed_varint31 n : framed (wvarint31 n).
Proof.
  unfold wvarint31, WriteVarint31. destruct (MaxInt32 <? n).
  - apply (framed_const _ (Some ErrRange) []). intros w. simpl. by rewrite app_nil_r.
  - by apply (framed_const _ None (uvarint n)).
Qed.

Lemma framed_varstr s : framed (wvarstr s).
Proof.
  unfold wvarstr, WriteVarstr31, WriteVarint31. destruct (MaxInt32 <? zlen s).
  - apply (framed_const _ (Some ErrRange) []). intros w. simpl. by rewrite app_nil_r.
  - apply (framed_const _ None (varstr s)). intros w. simpl. unfold varstr. by rewrite app_assoc.
Qed.

Lemma WriteVarstrs_framed l : forall n, exists e bs, forall w : Buffer,
  (WriteVarstrs w n l).1.2 = e /\ (WriteVarstrs w n l).2 = w ++ bs.
Proof.
  induction l as [|s l IH]; intros n; simpl.
  { exists None, []. intros w. by rewrite app_nil_r. }
  destruct (Z.le_gt_cases (zlen s) MaxInt32) as [Hs|Hs].
  - destruct (IH (n + zlen (varstr s))) as (e & bs & He). exists e, (varstr s ++ bs). intros w.
    rewrite WriteVarstr31_buffer by done. rewrite app_assoc. apply He.
  - exists (Some ErrRange), []. intros w. unfold WriteVarstr31, WriteVarint31.
    rewrite (proj2 (Z.ltb_lt _ _)) by lia. simpl. by rewrite app_nil_r.
Qed.

Lemma framed_varstrs l : framed (wvarstrs l).
Proof.
  unfold wvarstrs, WriteVarstrList, WriteVarint31, Write, Buffer_writer. destruct (MaxInt32 <? zlen l).
  - apply (framed_const _ (Some ErrRange) []). intros w. simpl. by rewrite app_nil_r.
  - destruct (WriteVarstrs_framed l (zlen (uvarint (zlen l)))) as (e & bs & He).
    apply (framed_const _ e (uvarint (zlen l) ++ bs)). intros w. rewrite app_assoc. apply He.
Qed.

Lemma framed_ext suffix f : framed (wext suffix f).
Proof.
  unfold wext. destruct (f []) as [b|e b|]; [|by intros w; simpl; rewrite ?app_nil_r|by intros w].
  exact (framed_varstr (if 0 <? zlen suffix then (Write b suffix).2 else b)).
Qed.

Lemma framed_list {A} (f : A -> Wr) l : (forall x, framed (f x)) -> framed (wlist f l).
Proof. intros Hf. induction l; simpl; [apply framed_nop|by apply framed_seq]. Qed.

Create HintDb framed.
#[export] Hint Resolve framed_seq framed_nop framed_panic framed_raw framed_varint63 framed_varint31
  framed_varstr framed_varstrs framed_ext framed_list : framed.

(** *** Rules *)

Lemma codec_seq {A B} wa (ra : R A) a wb (rb : A -> R B) b :
  codec wa ra a -> codec wb (rb a) b -> codec (wa +++ wb) (x ← ra; rb x) b.
Proof.
  intros [Fa Ha] [Fb Hb]. split; [by apply framed_seq|]. intros enc E rest. unfold wseq in E.
  destruct (wa []) as [e|x e|] eqn:Ea; try done. rewrite (Fb e) in E.
  destruct (wb []) as [e'|x e'|] eqn:Eb; try done. injection E as <-.
  unfold mbind, R_bind. rewrite <- app_assoc, (Ha e eq_refl). by apply Hb.
Qed.

Lemma codec_map {A B} wr (rd : R A) a (k : A -> R B) b :
  codec wr rd a -> (forall r, k a r = (Ok b, r)) -> codec wr (x ← rd; k x) b.
Proof.
  intros [F H] Hk. split; [done|]. intros enc E rest. unfold mbind, R_bind. by rewrite (H enc E).
Qed.

Lemma codec_ret {A} (a : A) : codec wnop (mret a) a.
Proof. split; [apply framed_nop|]. by intros enc [= <-] rest. Qed.

Lemma codec_nop_r {A} wr (rd : R A) a : codec wr rd a -> codec (wr +++ wnop) rd a.
Proof.
  intros [F H]. split; [auto with framed|]. intros enc E. apply H. unfold wseq in E. by destruct (wr []).
Qed.

Lemma codec_ensure {A} wr ok e (rd : R A) a : ok = true -> codec wr rd a -> codec wr (rensure ok e;; rd) a.
Proof. by intros ->. Qed.

Lemma codec_raw bs : codec (wraw bs) (ReadFull (length bs)) bs.
Proof.
  split; [apply framed_raw|]. intros enc [= <-] rest. simpl. unfold ReadFull, Read.
  by rewrite take_app_length, drop_app_length, Nat.eqb_refl.
Qed.

Lemma codec_varint63 n : 0 <= n -> codec (wvarint63 n) ReadVarint63 n.
Proof.
  intros Hn. split; [apply framed_varint63|]. intros enc E rest.
  unfold wvarint63, of_write, WriteVarint63 in E. destruct (Z.ltb_spec MaxInt64 n); [done|].
  injection E as <-. unfold ReadVarint63, mbind, R_bind. simpl.
  rewrite ReadUvarint_uvarint by (unfold_int; lia). by rewrite (proj2 (Z.ltb_ge _ _)) by lia.
Qed.

Lemma codec_varint31 n : 0 <= n -> codec (wvarint31 n) ReadVarint31 n.
Proof.
  intros Hn. split; [apply framed_varint31|]. intros enc E rest.
  unfold wvarint31, of_write, WriteVarint31 in E. destruct (Z.ltb_spec MaxInt32 n); [done|].
  injection E as <-. apply ReadVarint31_uvarint. lia.
Qed.

Lemma codec_varstr s : codec (wvarstr s) ReadVarstr31 s.
Proof.
  split; [apply framed_varstr|]. intros enc E rest. unfold wvarstr, of_write in E.
  destruct (WriteVarstr31 ([] : Buffer) s) as [[n [e|]] w] eqn:Ew; [done|]. injection E as <-.
  apply WriteVarstr31_inv in Ew as [Hs ->]. by apply ReadVarstr31_varstr.
Qed.

Lemma codec_hash h : wf_hash h -> codec (whash h) Hash_ReadFrom h.
Proof.
  intros Hh. unfold whash, Hash_ReadFrom. eapply codec_map.
  - pose proof (codec_raw (Bytes h)) as Hc. unfold Bytes in *. by rewrite length_Byte32 in Hc.
  - intros r. unfold Bytes. by rewrite NewHash_Byte32.
Qed.

Lemma codec_strings l : codec (wvarstrs l) ReadStrings l.
Proof.
  split; [apply framed_varstrs|]. intros enc E rest. unfold wvarstrs, of_write, WriteVarstrList in E.
  destruct (WriteVarint31 ([] : Buffer) (zlen l)) as [[k [e|]] w1] eqn:El; [done|].
  apply WriteVarint31_inv in El as [Hl ->].
  destruct (WriteVarstrs ([] ++ uvarint (zlen l) : Buffer) k l) as [[k' [e|]] w2] eqn:Es; [done|].
  apply WriteVarstrs_inv in Es as [HF ->]. injection E as <-. simpl.
  pose proof (zlen_nonneg l). unfold ReadStrings, ReadVarstrList.
  rewrite <- app_assoc, ReadVarint31_uvarint by lia.
  destruct (Z.eqb_spec (zlen l) 0) as [Ez|Ez]; unfold zlen in *; [by destruct l; [|simpl in Ez; lia]|].
  by rewrite Nat2Z.id, ReadVarstrs_varstrs.
Qed.

Lemma codec_ext {A} suffix f (g : R A) a :
  codec f g a -> codec (wext suffix f) (ReadExtensibleString g) (a, suffix).
Proof.
  intros [F H]. split; [apply framed_ext|]. intros enc E rest. unfold wext in E.
  destruct (f []) as [b|e b|] eqn:Ef; try done. unfold WriteExtensibleString in E.
  replace (if 0 <? zlen suffix then (Write b suffix).2 else b) with (b ++ suffix) in E.
  2:{ destruct (Z.ltb_spec 0 (zlen suffix)); [done|]. unfold zlen in *.
      destruct suffix; [by rewrite app_nil_r|simpl in *; lia]. }
  unfold ReadExtensibleString. destruct (codec_varstr (b ++ suffix)) as [_ Hv].
  rewrite (Hv enc E). unfold NewReader. by rewrite (H b eq_refl).
Qed.

Lemma codec_list {A} (f : A -> Wr) (g : R A) l :
  (forall x, x ∈ l -> codec (f x) g x) -> codec (wlist f l) (read_n g (length l)) l.
Proof.
  induction l as [|x l IH]; intros Hl; [apply codec_ret|]. cbn [wlist read_n length].
  apply (codec_seq _ _ x); [apply Hl; left|]. eapply codec_map; [apply IH; intros; apply Hl; by right|done].
Qed.

#[export] Hint Resolve codec_varint63 codec_varint31 codec_varstr codec_hash codec_strings codec_ret : framed.

(** ** Messages that can be read back

    What a reader can return: integers are not negative, hashes are hashes, an asset
    version other than 1 has no contents, and the version of the virtual machine is 1.
    The suffixes of output and spend commitments have to be empty: see
    [wext_wsuffix]. *)

Definition canon_amount (a : AssetAmount) : Prop :=
  exists id n, a = mkAssetAmount (Some id) n /\ wf_hash id /\ 0 <= n.

Definition canon_oc (v : Z) (oc : OutputCommitment) : Prop :=
  if v =? 1 then canon_amount (oc_AssetAmount oc) /\ oc_VMVersion oc = 1 else oc = zeroOC.

Definition canon_sc (sc : SpendCommitment) : Prop :=
  canon_amount (sc_AssetAmount sc) /\ wf_hash (SourceID sc) /\ 0 <= SourcePosition sc /\
  sc_VMVersion sc = 1 /\ wf_hash (RefDataHash sc).

Definition canon_input (t : TxInput) : Prop :=
  0 <= ti_AssetVersion t /\
  if ti_AssetVersion t =? 1 then
    match ti_TypedInput t with
    | Some (IsIssuance ii) => 0 <= ii_Amount ii /\ wf_hash (InitialBlock ii) /\ 0 <= ii_VMVersion ii
    | Some (IsSpend si) => canon_sc (si_SpendCommitment si) /\ SpendCommitmentSuffix si = []
    | None => False
    end
  else ti_TypedInput t = None.

Definition canon_output (o : TxOutput) : Prop :=
  0 <= to_AssetVersion o /\ canon_oc (to_AssetVersion o) (to_OutputCommitment o) /\
  to_CommitmentSuffix o = [] /\ to_WitnessSuffix o = [].

Definition canon_tx (tx : TxData) : Prop :=
  0 <= td_Version tx /\ 0 <= MinTime tx /\ 0 <= MaxTime tx /\
  Forall canon_input (Inputs tx) /\ Forall canon_output (Outputs tx).

Definition canon_header (bh : LBlockHeader) : Prop :=
  0 <= lb_Version bh /\ 0 <= lb_Height bh /\ wf_hash (PreviousBlockHash bh) /\ 0 <= TimestampMS bh /\
  wf_hash (TransactionsMerkleRoot bh) /\ wf_hash (AssetsMerkleRoot bh).

Definition canon_block (b : LBlock) : Prop :=
  canon_header (lb_Header b) /\ Forall canon_tx (lb_Transactions b).

(** ** The codecs of the messages *)

Lemma codec_amount a : canon_amount a -> codec (AssetAmount_WriteTo a) AssetAmount_ReadFrom a.
Proof.
  intros (id & n & -> & Hid & Hn). unfold AssetAmount_WriteTo, AssetAmount_ReadFrom. simpl.
  eapply codec_seq; [by apply codec_hash|]. eapply codec_map; [by apply codec_varint63|done].
Qed.

(** The suffix is written by [writeContents] and once more by [WriteExtensibleString]. *)
Lemma wext_wsuffix suffix f w : wext suffix (f +++ wsuffix suffix) w = wext (suffix ++ suffix) f w.
Proof.
  unfold wext, wseq, wsuffix. destruct (f []) as [b|e b|]; [|done|done]. unfold WriteExtensibleString.
  destruct suffix as [|x suffix]; [done|]. unfold wraw, of_write. simpl. by rewrite <- app_assoc.
Qed.

Lemma codec_eqv {A} wr wr' (rd : R A) a : (forall w, wr w = wr' w) -> codec wr' rd a -> codec wr rd a.
Proof.
  intros E [F H]. split; [intros w; rewrite !E; apply F|]. intros enc. rewrite E. apply H.
Qed.

Lemma codec_oc v oc suffix :
  canon_oc v oc ->
  codec (OutputCommitment_writeExtensibleString oc suffix v) (OutputCommitment_readFrom v)
    (oc, suffix ++ suffix).
Proof.
  intros Hc. unfold canon_oc in Hc. eapply codec_eqv; [apply wext_wsuffix|]. apply codec_ext.
  destruct (v =? 1); [|subst oc; apply codec_ret]. destruct Hc as [Ha Hv].
  eapply codec_seq; [by apply codec_amount|]. eapply codec_seq; [apply codec_varint63; lia|].
  apply codec_ensure; [by rewrite Hv|]. eapply codec_map; [apply codec_varstr|]. intros r. by destruct oc.
Qed.

Lemma codec_sc sc suffix :
  canon_sc sc ->
  codec (SpendCommitment_writeExtensibleString sc suffix 1) (SpendCommitment_readFrom 1)
    (sc, suffix ++ suffix).
Proof.
  intros (Ha & Hs & Hp & Hv & Hr). eapply codec_eqv; [apply wext_wsuffix|]. apply codec_ext. simpl.
  eapply codec_seq; [by apply codec_hash|]. eapply codec_seq; [by apply codec_amount|].
  eapply codec_seq; [by apply codec_varint63|]. eapply codec_seq; [apply codec_varint63; lia|].
  apply codec_ensure; [by rewrite Hv|]. eapply codec_seq; [apply codec_varstr|].
  eapply codec_map; [by apply codec_hash|]. intros r. by destruct sc.
Qed.

Section Messages.
Context `{Crypto}.

Definition commitment_of (t : TxInput) : input_commitment :=
  match ti_TypedInput t with
  | Some (IsIssuance ii) => IssuanceCommitment (ii_Nonce ii) (IssuanceInput_AssetID ii) (ii_Amount ii)
  | Some (IsSpend si) => SpendOf (si_SpendCommitment si) (SpendCommitmentSuffix si)
  | None => NoInput
  end.

Lemma wf_AssetID ii : wf_hash (IssuanceInput_AssetID ii).
Proof. apply wf_NewHash. Qed.

Lemma codec_commitment t :
  canon_input t ->
  codec (WriteInputCommitment t serRequired) (read_commitment (ti_AssetVersion t)) (commitment_of t).
Proof.
  intros [Hv Hc]. unfold WriteInputCommitment, read_commitment, commitment_of.
  destruct (Z.eqb_spec (ti_AssetVersion t) 1) as [E|E]; simpl in *; [|rewrite Hc; apply codec_ret].
  destruct (ti_TypedInput t) as [[ii|si]|]; [| |done].
  - destruct Hc as (Ha & _). apply (codec_seq _ _ _ _ _ _ (codec_raw [x00])). simpl.
    eapply codec_seq; [apply codec_varstr|]. eapply codec_seq; [apply codec_hash, wf_AssetID|].
    eapply codec_map; [by apply codec_varint63|done].
  - destruct Hc as [Hsc Es]. apply (codec_seq _ _ _ _ _ _ (codec_raw [x01])). simpl.
    rewrite E. eapply codec_map; [by apply codec_sc|]. intros r. simpl. by rewrite Es.
Qed.

Lemma codec_witness t :
  canon_input t ->
  codec (writeInputWitness t) (read_witness (ti_AssetVersion t) (commitment_of t)) (ti_TypedInput t).
Proof.
  intros [Hv Hc]. unfold writeInputWitness, read_witness, commitment_of.
  destruct (Z.eqb_spec (ti_AssetVersion t) 1) as [E|E]; simpl in *; [|rewrite Hc; apply codec_ret].
  destruct (ti_TypedInput t) as [[ii|si]|]; [| |done].
  - destruct Hc as (_ & Hb & Hvm). eapply codec_seq; [by apply codec_hash|].
    eapply codec_seq; [apply codec_varstr|]. eapply codec_seq; [by apply codec_varint63|].
    eapply codec_seq; [apply codec_varstr|]. apply codec_ensure; [by apply bool_decide_eq_true|].
    eapply codec_map; [apply codec_strings|]. intros r. by destruct ii.
  - eapply codec_map; [apply codec_strings|]. intros r. by destruct si.
Qed.

Lemma codec_input t : canon_input t -> codec (TxInput_writeTo t serRequired) TxInput_readFrom t.
Proof.
  intros Hc. pose proof Hc as [Hv _]. unfold TxInput_writeTo, TxInput_readFrom. simpl.
  eapply codec_seq; [by apply codec_varint63|]. eapply codec_seq; [by apply codec_ext, codec_commitment|].
  eapply codec_seq; [apply codec_varstr|]. eapply codec_map; [by apply codec_ext, codec_witness|].
  intros r. by destruct t.
Qed.

Lemma codec_output o : canon_output o -> codec (TxOutput_writeTo o serRequired) TxOutput_readFrom o.
Proof.
  intros (Hv & Hc & Hs & Hw). unfold TxOutput_writeTo, TxOutput_readFrom, WriteCommitment, writeRefData. simpl.
  eapply codec_seq; [by apply codec_varint63|]. eapply codec_seq; [by apply codec_oc|].
  eapply codec_seq; [apply codec_varstr|]. eapply codec_map; [apply codec_varstr|].
  intros r. simpl. rewrite Hs. destruct o. simpl in *. by subst.
Qed.

Lemma codec_tx tx : canon_tx tx -> codec (TxData_writeTo tx serRequired) TxData_readFrom tx.
Proof.
  intros (Hv & Hmin & Hmax & Hin & Hout). rewrite Forall_forall in Hin; rewrite Forall_forall in Hout.
  unfold TxData_writeTo, TxData_readFrom, writeRefData. simpl (has_flag _ _). cbv iota.
  apply (codec_seq _ _ _ _ _ _ (codec_raw [byte_of_Z serRequired])). apply codec_ensure; [done|].
  eapply codec_seq; [by apply codec_varint63|].
  eapply codec_seq; [apply codec_ext; eapply codec_seq; [by apply codec_varint63|];
                     eapply codec_map; [by apply codec_varint63|done]|].
  eapply codec_seq; [apply codec_ext, codec_ret|].
  eapply codec_seq; [apply codec_varint31, zlen_nonneg|]. unfold zlen. rewrite Nat2Z.id.
  eapply codec_seq; [apply codec_list; auto using codec_input|].
  eapply codec_seq; [apply codec_varint31; lia|]. rewrite Nat2Z.id.
  eapply codec_seq; [apply codec_list; auto using codec_output|].
  eapply codec_map; [apply codec_varstr|]. intros r. by destruct tx.
Qed.

Lemma codec_header bh :
  canon_header bh -> codec (BlockHeader_writeTo bh SerBlockFull) BlockHeader_readFrom (SerBlockFull, bh).
Proof.
  intros (Hv & Hh & Hp & Ht & Hr & Ha). unfold BlockHeader_writeTo, BlockHeader_readFrom.
  apply (codec_seq (wraw [byte_of_Z SerBlockFull]) read_flags SerBlockFull).
  { split; [apply framed_raw|]. by intros enc [= <-] rest. }
  apply codec_ensure; [done|]. simpl (has_flag _ _). cbv iota.
  eapply codec_seq; [by apply codec_varint63|]. eapply codec_seq; [by apply codec_varint63|].
  eapply codec_seq; [by apply codec_hash|]. eapply codec_seq; [by apply codec_varint63|].
  eapply codec_seq; [apply codec_ext; eapply codec_seq; [by apply codec_hash|];
                     eapply codec_seq; [by apply codec_hash|]; eapply codec_map; [apply codec_varstr|done]|].
  eapply codec_map; [apply codec_ext, codec_strings|]. intros r. by destruct bh.
Qed.

(** ** Text *)

Lemma from_hex_digit n : 0 <= n < 16 -> from_hex (hex_digit n) = Some n.
Proof.
  intros Hn. replace n with (Z.of_nat (Z.to_nat n)) by lia.
  assert (Hk : (Z.to_nat n < 16)%nat) by lia. generalize dependent (Z.to_nat n). intros k Hk.
  do 16 (destruct k as [|k]; [reflexivity|]). lia.
Qed.

Lemma byte_nibbles b : byte_of_Z (Z.lor (Z.shiftl (Z.shiftr (Z_of_byte b) 4) 4) (Z.land (Z_of_byte b) 15)) = b.
Proof.
  rewrite <- (byte_of_Z_of_byte b) at 3. f_equal. change 15 with (Z.ones 4).
  apply Z.bits_inj'. intros i Hi. rewrite Z.lor_spec, Z.shiftl_spec, Z.land_spec by lia.
  destruct (Z.ltb_spec i 4).
  - rewrite Z.testbit_neg_r, Z.ones_spec_low by lia. by rewrite andb_true_r.
  - rewrite Z.shiftr_spec, Z.ones_spec_high by lia. rewrite andb_false_r, orb_false_r. f_equal. lia.
Qed.

Lemma hex_roundtrip bs : hex_decode (hex_encode bs) = Some bs.
Proof.
  induction bs as [|b bs IH]; [done|]. pose proof (Z_of_byte_range b) as Hb.
  change (hex_encode (b :: bs)) with
    (hex_digit (Z.shiftr (Z_of_byte b) 4) :: hex_digit (Z.land (Z_of_byte b) 15) :: hex_encode bs).
  cbn [hex_decode].
  rewrite (from_hex_digit (Z.shiftr _ 4)). 2:{ rewrite Z.shiftr_div_pow2 by lia. change (2 ^ 4) with 16.
    split; [apply Z.div_pos|apply Z.div_lt_upper_bound]; lia. }
  rewrite from_hex_digit. 2:{ change 15 with (Z.ones 4). rewrite Z.land_ones by lia. apply Z.mod_pos_bound. lia. }
  rewrite IH. cbn -[Z.lor Z.land Z.shiftl Z.shiftr byte_of_Z Z_of_byte]. by rewrite byte_nibbles.
Qed.

Lemma read_all_codec {A} wr (rd : R A) a enc : codec wr rd a -> wr [] = Wrote enc -> read_all rd enc = Ok a.
Proof.
  intros [_ Hc] E. unfold read_all, NewReader. rewrite <- (app_nil_r enc), (Hc enc E). done.
Qed.

(** ** Blocks *)

(** The writes of a block ignore errors; where there is none, they write the message. *)
Lemma wignore_ok wr enc : wr [] = Wrote enc -> wignore wr [] = Wrote enc.
Proof. intros E. unfold wignore. by rewrite E. Qed.

Lemma framed_ignore wr : framed wr -> framed (wignore wr).
Proof. intros F w. unfold wignore. rewrite (F w). by destruct (wr []). Qed.

Lemma codec_ignore {A} wr (rd : R A) a enc : codec wr rd a -> wr [] = Wrote enc -> codec (wignore wr) rd a.
Proof.
  intros [F Hc] E. split; [by apply framed_ignore|]. intros enc'. rewrite (wignore_ok _ _ E).
  intros [= <-]. by apply Hc.
Qed.

(** No write of the block reports an error. *)
Definition writable_block (b : LBlock) : Prop :=
  (exists enc, BlockHeader_writeTo (lb_Header b) SerBlockFull [] = Wrote enc) /\
  zlen (lb_Transactions b) <= MaxInt32 /\
  Forall (fun tx => exists enc, TxData_writeTo tx serRequired [] = Wrote enc) (lb_Transactions b).

Lemma codec_block b : canon_block b -> writable_block b -> codec (Block_WriteTo b) Block_readFrom b.
Proof.
  intros [Hh Htx] ([enc Eh] & Hn & Hw). rewrite Forall_forall in Htx; rewrite Forall_forall in Hw.
  unfold Block_WriteTo, Block_writeTo, Block_readFrom. change (has_flag SerBlockFull SerBlockTransactions) with true.
  cbv iota. eapply codec_seq; [eapply codec_ignore; [by apply codec_header|exact Eh]|].
  change (has_flag (SerBlockFull, lb_Header b).1 SerBlockTransactions) with true. cbv iota.
  apply codec_map with (a := lb_Transactions b); [|intros r; by destruct b].
  apply codec_seq with (a := zlen (lb_Transactions b)).
  - eapply codec_ignore; [apply codec_varint31, zlen_nonneg|].
    unfold wvarint31, of_write, WriteVarint31. by rewrite (proj2 (Z.ltb_ge _ _)) by done.
  - unfold zlen. rewrite Nat2Z.id. apply codec_list. intros tx Htx'. destruct (Hw tx Htx') as [e E].
    eapply codec_ignore; [by apply codec_tx, Htx|exact E].
Qed.

Lemma seq_ok a b e e' : a [] = Wrote e -> framed b -> b [] = Wrote e' -> (a +++ b) [] = Wrote (e ++ e').
Proof. intros Ea F Eb. unfold wseq. by rewrite Ea, (F e), Eb. Qed.

Lemma wlist_ok {A} (f : A -> Wr) l :
  Forall (fun x => framed (f x) /\ exists e, f x [] = Wrote e) l ->
  framed (wlist f l) /\ exists e, wlist f l [] = Wrote e.
Proof.
  induction 1 as [|x l [F [e E]] _ [Fl [e' IH]]]; [split; [apply framed_nop|by exists []]|]. split; [by apply framed_seq|].
  exists (e ++ e'). by apply seq_ok.
Qed.

Lemma Block_WriteTo_ok b : canon_block b -> writable_block b -> exists enc, Block_WriteTo b [] = Wrote enc.
Proof.
  intros [Hh Htx] ([e Eh] & Hn & Hw). unfold Block_WriteTo, Block_writeTo.
  change (has_flag SerBlockFull SerBlockTransactions) with true. cbv iota.
  destruct (wlist_ok TxData_WriteTo (lb_Transactions b)) as [F [e' E]].
  { rewrite Forall_forall in Htx; rewrite Forall_forall in Hw. apply Forall_forall. intros tx Hin.
    destruct (Hw tx Hin) as [e' E]. split; [|by exists e'; apply wignore_ok].
    by apply framed_ignore, codec_tx, Htx. }
  eexists. apply seq_ok; [by apply wignore_ok|by apply framed_seq; [apply framed_ignore, framed_varint31|]|].
  apply seq_ok; [|done|done]. apply wignore_ok. unfold wvarint31, of_write, WriteVarint31.
  by rewrite (proj2 (Z.ltb_ge _ _)) by done.
Qed.

(** A transaction that the writer accepts is read back as it was, whatever
    follows it in the stream and leaving that in place; in the same way its text form
    reads back as the transaction. *)
Lemma TxData_roundtrip tx enc :
  canon_tx tx -> TxData_writeTo tx serRequired [] = Wrote enc ->
  (forall rest, TxData_readFrom (enc ++ rest) = (Ok tx, rest)) /\
  exists text, TxData_MarshalText tx = Some text /\ TxData_UnmarshalText text = Ok tx.
Proof.
  intros Hc E. pose proof (codec_tx tx Hc) as Htx. split; [by apply Htx|].
  exists (hex_encode enc). unfold TxData_MarshalText, TxData_WriteTo, TxData_UnmarshalText. rewrite E. split; [done|].
  rewrite hex_roundtrip. by eapply read_all_codec.
Qed.

(** C40: A block whose writes report no error is read back as it was: from the stream,
    whatever follows it and leaving that in place, from its text form and from the database.
    The block is of the kind that [canon_block] describes: its numbers are not negative and
    its hashes are hashes; an input or output of asset version 1 has a commitment of VM
    version 1, one of another version has none; and the suffixes of the commitments, and of
    the witnesses of outputs, are empty.  (With a suffix this fails: see
    [output_suffix_doubled].) *)
Theorem Block_roundtrip b :
  canon_block b -> writable_block b ->
  exists enc text,
    Block_WriteTo b [] = Wrote enc /\ (forall rest, Block_readFrom (enc ++ rest) = (Ok b, rest)) /\
    Block_Scan enc = Ok b /\ Block_MarshalText b = Some text /\ Block_UnmarshalText text = Ok b.
Proof.
  intros Hc Hf. destruct (Block_WriteTo_ok b Hc Hf) as [enc E]. pose proof (codec_block b Hc Hf) as Hb.
  assert (Er : read_all Block_readFrom enc = Ok b) by (by eapply read_all_codec).
  exists enc, (hex_encode enc). unfold Block_MarshalText, Block_UnmarshalText. rewrite E, hex_roundtrip.
  repeat split; [|done|done]. by apply Hb.
Qed.

(** The suffix of an output commitment is written twice: reading back what was
    written gives the commitment with its suffix doubled. *)
Lemma output_suffix_doubled v oc suffix enc rest :
  canon_oc v oc -> OutputCommitment_writeExtensibleString oc suffix v [] = Wrote enc ->
  OutputCommitment_readFrom v (enc ++ rest) = (Ok (oc, suffix ++ suffix), rest).
Proof. intros Hc E. by apply (codec_oc v oc suffix Hc). Qed.

(** [WriteTo] reports only the errors of the underlying writer: a transaction whose
    version does not fit in 63 bits is cut off after its first byte without an error,
    and its text form cannot be read. *)
Lemma WriteTo_drops_error tx :
  MaxInt64 < td_Version tx ->
  TxData_writeTo tx serRequired [] = WFail ErrRange [x07] /\
  TxData_WriteTo tx [] = Wrote [x07] /\
  exists text e, TxData_MarshalText tx = Some text /\ TxData_UnmarshalText text = Err e.
Proof.
  intros Hv. assert (E : TxData_writeTo tx serRequired [] = WFail ErrRange [x07]).
  { unfold TxData_writeTo, wseq, wvarint63, of_write, WriteVarint63. by rewrite (proj2 (Z.ltb_lt _ _)). }
  unfold TxData_MarshalText, TxData_WriteTo. rewrite E. repeat split.
  eexists _, EOF. split; [done|]. reflexivity.
Qed.
End Messages.

(** ** Witnesses *)

Definition sample_hash : Hash := NewHash (replicate 32 x2a).

Definition sample_tx : TxData :=
  mkTxData 1
    [mkTxInput 1 [x01] (Some (IsIssuance (mkIssuanceInput [x09] 5 sample_hash [x44] 1 [x51] [[x07]; []]))) [] [];
     mkTxInput 1 [] (Some (IsSpend (mkSpendInput
       (mkSC (mkAssetAmount (Some sample_hash) 7) sample_hash 2 1 [x51] sample_hash) [] [[x08]]))) [x03] [x04];
     mkTxInput 9 [x02] None [x05; x06] []]
    [mkTxOutput 1 (mkOC (mkAssetAmount (Some sample_hash) 7) 1 [x51]) [] [] [x0a];
     mkTxOutput 3 zeroOC [] [] []]
    10 20 [x0b] [] [x0c; x0d].

Lemma canon_sample_amount : canon_amount (mkAssetAmount (Some sample_hash) 7).
Proof. exists sample_hash, 7. repeat split; try lia; apply wf_NewHash. Qed.

Lemma canon_sample_tx : canon_tx sample_tx.
Proof.
  pose proof canon_sample_amount. pose proof (wf_NewHash (replicate 32 x2a)) as Hh. fold sample_hash in Hh.
  unfold canon_tx. simpl. repeat split; try lia.
  - repeat (apply Forall_cons; split); [| | |by apply Forall_nil]; unfold canon_input, canon_sc; simpl; repeat split;
      solve [lia | done | apply Hh].
  - repeat (apply Forall_cons; split); [| |by apply Forall_nil]; unfold canon_output, canon_oc; simpl; repeat split;
      solve [lia | done].
Qed.

Lemma TxData_roundtrip_witness :
  exists text, @TxData_MarshalText toy_crypto sample_tx = Some text /\
               @TxData_UnmarshalText toy_crypto text = Ok sample_tx.
Proof.
  destruct (@TxData_writeTo toy_crypto sample_tx serRequired []) as [enc| |] eqn:E; [|vm_compute in E; discriminate..].
  exact (proj2 (@TxData_roundtrip toy_crypto sample_tx enc canon_sample_tx E)).
Defined.

Definition sample_block : LBlock :=
  mkLBlock (mkLBlockHeader 1 2 sample_hash 3 sample_hash sample_hash [x51] [x01] [[x02]] [x03]) [sample_tx].

Lemma canon_sample_block : canon_block sample_block.
Proof.
  pose proof (wf_NewHash (replicate 32 x2a)) as Hh. fold sample_hash in Hh.
  split; [unfold canon_header; simpl; repeat split; solve [lia | apply Hh]|].
  apply Forall_cons. split; [apply canon_sample_tx|by apply Forall_nil].
Qed.

Lemma Block_roundtrip_witness :
  exists enc, @Block_WriteTo toy_crypto sample_block [] = Wrote enc /\
              @Block_Scan toy_crypto enc = Ok sample_block.
Proof.
  destruct (@Block_roundtrip toy_crypto sample_block canon_sample_block) as (enc & text & H1 & _ & H2 & _).
  - split; [eexists; vm_compute; reflexivity|]. split; [vm_compute; discriminate|].
    apply Forall_cons. split; [eexists; vm_compute; reflexivity|by apply Forall_nil].
  - by exists enc.
Defined.

Lemma output_suffix_doubled_witness :
  exists enc, OutputCommitment_writeExtensibleString (mkOC (mkAssetAmount (Some sample_hash) 7) 1 [x51]) [x0a; x0b] 1 []
              = Wrote enc /\
    OutputCommitment_readFrom 1 (enc ++ [x00]) =
      (Ok (mkOC (mkAssetAmount (Some sample_hash) 7) 1 [x51], [x0a; x0b; x0a; x0b]), [x00]).
Proof.
  eexists. split; [vm_compute; reflexivity|].
  apply (output_suffix_doubled 1 (mkOC (mkAssetAmount (Some sample_hash) 7) 1 [x51]) [x0a; x0b]).
  - split; [apply canon_sample_amount|done].
  - vm_compute. reflexivity.
Defined.

Lemma WriteTo_drops_error_witness :
  @TxData_WriteTo toy_crypto (mkTxData (2 ^ 63) [] [] 0 0 [] [] []) [] = Wrote [x07].
Proof.
  apply (@WriteTo_drops_error toy_crypto (mkTxData (2 ^ 63) [] [] 0 0 [] [] [])). vm_compute. reflexivity.
Defined.
