(* ===== verification/LegacyMap.v ===== *)
(** * From inputs and outputs to entries: [protocol/bc/legacy/map.go]

    [mapTx] builds the entries of a transaction and registers them in a map from
    identifiers to pointers.  The entries change after they are registered, when the
    entries they lead to are known, and two inputs can give entries with one
    identifier, of which the map then has the later; so the model has a store of
    entries, and the map has addresses of it.

    [None] is a panic: of [EntryID], of a type assertion, or of an index. *)

From Stdlib Require Import ZArith Lia Strings.Byte.
From stdpp Require Import gmap.
From S2P Require Import Prelude Crypto VMCode VMUtil Encoding Bc Legacy.

(** ** The store *)

Record mstate := mkMS { objs : list Entry; entryMap : gmap Hash nat }.

Definition MM (A : Type) : Type := mstate -> option (A * mstate).

#[export] Instance MM_ret : MRet MM := fun _ a s => Some (a, s).
#[export] Instance MM_bind : MBind MM := fun _ _ k m s => match m s with Some (a, s) => k a s | None => None end.

Definition mm_panic {A} : MM A := fun _ => None.
Definition mm_lift {A} (o : option A) : MM A := fun s => a ← o; Some (a, s).

(** [obj.field = ...] through a pointer. *)
Definition update (p : nat) (f : Entry -> Entry) : MM unit := fun s =>
  Some (tt, mkMS (alter f p (objs s)) (entryMap s)).

Definition deref_obj (p : nat) : MM Entry := fun s => e ← objs s !! p; Some (e, s).

(** ** [mapTx] *)

Section Map.
Context `{Crypto}.

(** The address of the entry and its identifier. *)
Definition addEntry (e : Entry) : MM (nat * Hash) := fun s =>
  id ← EntryID (Some e);
  Some ((length (objs s), id), mkMS (objs s ++ [e]) (<[id := length (objs s)]> (entryMap s))).

(** What the first loop leaves. *)
Record spends_acc := mkSA {
  firstSpend : option (nat * Hash);
  spends : list nat;
  sa_muxSources : list (option ValueSource);
}.

Definition prevout (sc : SpendCommitment) : Output :=
  NewOutput (Some (mkValueSource (Some (SourceID sc)) (Some (sc_AssetAmount sc)) (SourcePosition sc)))
    (Some (Bc.mkProgram (sc_VMVersion sc) (sc_ControlProgram sc))) (Some (RefDataHash sc)) 0.

Definition map_spend (i : nat) (inp : TxInput) (oldSp : SpendInput) (acc : spends_acc) : MM spends_acc :=
  let sc := si_SpendCommitment oldSp in
  out ← addEntry (EOutput (prevout sc));
  let sp := NewSpend (Some out.2) (Some (hashData (ti_ReferenceData inp))) (Z.of_nat i) in
  let sp := mkSpend (SpentOutputId sp) (sp_Data sp) (sp_ExtHash sp) (sp_WitnessDestination sp)
              (si_Arguments oldSp) (sp_WitnessAnchoredId sp) (sp_Ordinal sp) in
  a ← addEntry (ESpend sp);
  mret (mkSA (match firstSpend acc with None => Some a | f => f end) (spends acc ++ [a.1])
          (<[i := Some (mkValueSource (Some a.2) (Some (sc_AssetAmount sc)) 0)]> (sa_muxSources acc))).

Fixpoint map_spends (i : nat) (ins : list TxInput) (acc : spends_acc) : MM spends_acc :=
  match ins with
  | [] => mret acc
  | inp :: ins =>
      acc ← (match ti_TypedInput inp with
             | Some (IsSpend oldSp) => map_spend i inp oldSp acc
             | _ => mret acc
             end);
      map_spends (S i) ins acc
  end.

Definition nonce_program (nonce : bytes) (assetID : AssetID) : bytes :=
  let builder := NewBuilder in
  let builder := AddOp (AddData builder nonce) OP_DROP in
  let builder := AddOp (AddData (AddOp builder OP_ASSET) (Bytes assetID)) OP_EQUAL in
  VMUtil.Program builder.

(** [anchor.SetAnchored(&issID)] on the nonce or the first spend. *)
Definition set_anchored (id : Hash) (e : Entry) : Entry :=
  match e with
  | ENonce n => ENonce (Nonce_SetAnchored n (Some id))
  | ESpend s => ESpend (Spend_SetAnchored s (Some id))
  | e => e
  end.

(** The anchor of an issuance: its address, if there is one, and its identifier. *)
Definition map_anchor (tx : TxData) (oldIss : IssuanceInput) (first : option (nat * Hash)) : MM (option nat * Hash) :=
  if 0 <? zlen (ii_Nonce oldIss) then
    tr ← addEntry (ETimeRange (NewTimeRange (MinTime tx) (MaxTime tx)));
    let assetID := IssuanceInput_AssetID oldIss in
    a ← addEntry (ENonce (NewNonce (Some (Bc.mkProgram 1 (nonce_program (ii_Nonce oldIss) assetID))) (Some tr.2)));
    mret (Some a.1, a.2)
  else
    mret (match first with Some (p, id) => (Some p, id) | None => (None, zeroHash) end).

Definition new_issuance (i : nat) (inp : TxInput) (oldIss : IssuanceInput) (anchorID : Hash) : Issuance :=
  let val := mkAssetAmount (Some (IssuanceInput_AssetID oldIss)) (ii_Amount oldIss) in
  let iss := NewIssuance (Some anchorID) (Some val) (Some (hashData (ti_ReferenceData inp))) (Z.of_nat i) in
  mkIssuance (AnchorId iss) (iss_Value iss) (iss_Data iss) (iss_ExtHash iss) (iss_WitnessDestination iss)
    (Some (mkAssetDefinition (Some (InitialBlock oldIss))
             (Some (Bc.mkProgram (ii_VMVersion oldIss) (ii_IssuanceProgram oldIss)))
             (Some (hashData (ii_AssetDefinition oldIss)))))
    (ii_Arguments oldIss) (iss_WitnessAnchoredId iss) (iss_Ordinal iss).

Definition map_issuance (tx : TxData) (first : option (nat * Hash)) (i : nat) (inp : TxInput)
    (oldIss : IssuanceInput) (acc : list nat * list (option ValueSource)) :
    MM (list nat * list (option ValueSource)) :=
  anchor ← map_anchor tx oldIss first;
  let iss := new_issuance i inp oldIss anchor.2 in
  a ← addEntry (EIssuance iss);
  (match anchor.1 with Some p => update p (set_anchored a.2) | None => mret tt end);;
  mret (acc.1 ++ [a.1], <[i := Some (mkValueSource (Some a.2) (iss_Value iss) 0)]> acc.2).

Fixpoint map_issuances (tx : TxData) (first : option (nat * Hash)) (i : nat) (ins : list TxInput)
    (acc : list nat * list (option ValueSource)) : MM (list nat * list (option ValueSource)) :=
  match ins with
  | [] => mret acc
  | inp :: ins =>
      acc ← (match ti_TypedInput inp with
             | Some (IsIssuance oldIss) => map_issuance tx first i inp oldIss acc
             | _ => mret acc
             end);
      map_issuances tx first (S i) ins acc
  end.

(** [entryMap[id].( *bc.Output)]: the type assertion panics. *)
Definition lookup_output (id : Hash) : MM Output := fun s =>
  p ← entryMap s !! id; e ← objs s !! p; o ← as_Output e; Some (o, s).

Definition set_spend_dest (muxID : Hash) (v : option AssetAmount) (e : Entry) : Entry :=
  match e with ESpend s => ESpend (Spend_SetDestination s (Some muxID) v (sp_Ordinal s)) | e => e end.

Definition set_issuance_dest (muxID : Hash) (e : Entry) : Entry :=
  match e with
  | EIssuance i => EIssuance (Issuance_SetDestination i (Some muxID) (iss_Value i) (iss_Ordinal i))
  | e => e
  end.

Fixpoint map_spend_dests (muxID : Hash) (sps : list nat) : MM unit :=
  match sps with
  | [] => mret tt
  | p :: sps =>
      e ← deref_obj p;
      sp ← mm_lift (as_Spend e);
      oid ← mm_lift (SpentOutputId sp);
      spentOutput ← lookup_output oid;
      src ← mm_lift (out_Source spentOutput);
      update p (set_spend_dest muxID (src_Value src));;
      map_spend_dests muxID sps
  end.

Fixpoint map_issuance_dests (muxID : Hash) (isss : list nat) : MM unit :=
  match isss with
  | [] => mret tt
  | p :: isss => update p (set_issuance_dest muxID);; map_issuance_dests muxID isss
  end.

Definition result_entry (muxID : Hash) (i : nat) (out : TxOutput) : Entry :=
  let oc := to_OutputCommitment out in
  let src := mkValueSource (Some muxID) (Some (oc_AssetAmount oc)) (Z.of_nat i) in
  let refdatahash := hashData (to_ReferenceData out) in
  if IsUnspendable (oc_ControlProgram oc) then ERetirement (NewRetirement (Some src) (Some refdatahash) (Z.of_nat i))
  else EOutput (NewOutput (Some src) (Some (Bc.mkProgram (oc_VMVersion oc) (oc_ControlProgram oc)))
                  (Some refdatahash) (Z.of_nat i)).

Definition append_dest (d : ValueDestination) (e : Entry) : Entry :=
  match e with
  | EMux m => EMux (mkMux (Sources m) (mux_Program m) (mux_ExtHash m) (WitnessDestinations m ++ [Some d])
                      (mux_WitnessArguments m))
  | e => e
  end.

Fixpoint map_outputs (mux : nat) (muxID : Hash) (i : nat) (outs : list TxOutput) (resultIDs : list (option Hash)) :
    MM (list (option Hash)) :=
  match outs with
  | [] => mret resultIDs
  | out :: outs =>
      a ← addEntry (result_entry muxID i out);
      update mux (append_dest (mkValueDestination (Some a.2) (Some (oc_AssetAmount (to_OutputCommitment out))) 0));;
      map_outputs mux muxID (S i) outs (resultIDs ++ [Some a.2])
  end.

Definition true_program : Bc.Program := Bc.mkProgram 1 [byte_of_Z OP_TRUE].

Definition mapTx_body (tx : TxData) : MM (Hash * TxHeader) :=
  sa ← map_spends 0 (Inputs tx) (mkSA None [] (replicate (length (Inputs tx)) None));
  ia ← map_issuances tx (firstSpend sa) 0 (Inputs tx) ([], sa_muxSources sa);
  mux ← addEntry (EMux (NewMux ia.2 (Some true_program)));
  map_spend_dests mux.2 (spends sa);;
  map_issuance_dests mux.2 ia.1;;
  resultIDs ← map_outputs mux.1 mux.2 0 (Outputs tx) [];
  let h := NewTxHeader (td_Version tx) resultIDs (Some (hashData (td_ReferenceData tx))) (MinTime tx) (MaxTime tx) in
  a ← addEntry (ETxHeader h);
  mret (a.2, h).

Definition empty_store : mstate := mkMS [] ∅.

(** The map of the entries, as its pointers are followed. *)
Definition entries_of (s : mstate) : gmap Hash (option Entry) := (fun p => objs s !! p) <$> entryMap s.

Definition mapTx (tx : TxData) : option (Hash * TxHeader * gmap Hash (option Entry)) :=
  r ← mapTx_body tx empty_store;
  Some (r.1.1, r.1.2, entries_of r.2).
End Map.

(** ** [MapTx] *)

(** The order in which a [range] over a map goes is not specified. *)
Class MapRange := { range {A} (m : gmap Hash A) : list (Hash * A) }.

Class MapRangeLaws `{MapRange} : Prop := {
  range_permutation {A} (m : gmap Hash A) : range m ≡ₚ map_to_list m;
}.

#[export] Instance sorted_range : MapRange := {| range A m := map_to_list m |}.
#[export] Instance sorted_range_laws : @MapRangeLaws sorted_range.
Proof. by split. Qed.

Record map_acc := mkMA {
  ma_InputIDs : list Hash;
  nonceIDs : gmap Hash bool;
  spentOutputIDs : gmap Hash bool;
}.

(** [if ord >= len { continue }; tx.InputIDs[ord] = id] *)
Definition set_input (ord : Z) (id : Hash) (ids : list Hash) : list Hash :=
  if zlen ids <=? ord then ids else <[Z.to_nat ord := id]> ids.

Definition visit_entry (entries : gmap Hash (option Entry)) (acc : map_acc) (p : Hash * option Entry) :
    option map_acc :=
  match p.2 with
  | Some (EIssuance e) =>
      aid ← AnchorId e;
      match entries !! aid with
      | None => Some acc
      | Some anchor =>
          let nonces := match anchor with Some (ENonce _) => <[aid := true]> (nonceIDs acc) | _ => nonceIDs acc end in
          Some (mkMA (set_input (iss_Ordinal e) p.1 (ma_InputIDs acc)) nonces (spentOutputIDs acc))
      end
  | Some (ESpend e) =>
      oid ← SpentOutputId e;
      Some (mkMA (set_input (sp_Ordinal e) p.1 (ma_InputIDs acc)) (nonceIDs acc) (<[oid := true]> (spentOutputIDs acc)))
  | _ => Some acc
  end.

Fixpoint visit_entries (entries : gmap Hash (option Entry)) (acc : map_acc) (l : list (Hash * option Entry)) :
    option map_acc :=
  match l with
  | [] => Some acc
  | p :: l => acc ← visit_entry entries acc p; visit_entries entries acc l
  end.

Section MapTx.
Context `{Crypto} `{MapRange}.

Definition MapTx (oldTx : TxData) : option Bc.Tx :=
  '(txid, header, entries) ← mapTx oldTx;
  acc ← visit_entries entries (mkMA (replicate (length (Inputs oldTx)) zeroHash) ∅ ∅) (range entries);
  Some (Bc.mkTx header txid entries (ma_InputIDs acc) (range (nonceIDs acc)).*1 (range (spentOutputIDs acc)).*1).

(** ** Transactions with their entries: [transaction.go] *)

Record LTx := mkLTx { lt_TxData : TxData; lt_Tx : Bc.Tx }.

Definition NewTx (data : TxData) : option LTx := tx ← MapTx data; Some (mkLTx data tx).

Definition Tx_UnmarshalText (p : bytes) : option (result serr LTx) :=
  match TxData_UnmarshalText p with
  | Err e => Some (Err e)
  | Ok data => tx ← NewTx data; Some (Ok tx)
  end.

Definition set_witness_arguments (args : list bytes) (e : Entry) : Entry :=
  match e with
  | EIssuance e =>
      EIssuance (mkIssuance (AnchorId e) (iss_Value e) (iss_Data e) (iss_ExtHash e) (iss_WitnessDestination e)
                   (WitnessAssetDefinition e) args (iss_WitnessAnchoredId e) (iss_Ordinal e))
  | ESpend e =>
      ESpend (mkSpend (SpentOutputId e) (sp_Data e) (sp_ExtHash e) (sp_WitnessDestination e) args
                (sp_WitnessAnchoredId e) (sp_Ordinal e))
  | e => e
  end.

Definition SetInputArguments (tx : LTx) (n : nat) (args : list bytes) : option LTx :=
  let data := lt_TxData tx in
  inp ← Inputs data !! n;
  let data := mkTxData (td_Version data) (<[n := SetArguments inp args]> (Inputs data)) (Outputs data) (MinTime data)
                (MaxTime data) (CommonFieldsSuffix data) (CommonWitnessSuffix data) (td_ReferenceData data) in
  let t := lt_Tx tx in
  id ← InputIDs t !! n;
  Some (mkLTx data (Bc.mkTx (Header t) (tx_ID t) (alter (fmap (set_witness_arguments args)) id (Entries t))
                      (InputIDs t) (NonceIDs t) (SpentOutputIDs t))).

Definition IssuanceHash (tx : LTx) (n : nat) : option Hash := InputIDs (lt_Tx tx) !! n.

Definition OutputID (tx : LTx) (outputIndex : nat) : option (option Hash) :=
  ResultIds (Header (lt_Tx tx)) !! outputIndex.

(** [ComputeOutputID]: a panic of [EntryID] becomes the error. *)
Definition ComputeOutputID (sc : SpendCommitment) : option Hash := EntryID (Some (EOutput (prevout sc))).

Definition SpentOutputID (t : TxInput) : option Hash :=
  match ti_TypedInput t with
  | Some (IsSpend si) => ComputeOutputID (si_SpendCommitment si)
  | _ => Some zeroHash
  end.

(** ** Blocks *)

Definition mapBlockHeader (old : LBlockHeader) : option (Hash * BlockHeader) :=
  let bh := NewBlockHeader (lb_Version old) (lb_Height old) (Some (PreviousBlockHash old)) (TimestampMS old)
              (Some (TransactionsMerkleRoot old)) (Some (AssetsMerkleRoot old)) (ConsensusProgram old) in
  let bh := mkBlockHeader (bh_Version bh) (Height bh) (PreviousBlockId bh) (TimestampMs bh) (TransactionsRoot bh)
              (AssetsRoot bh) (NextConsensusProgram bh) (bh_ExtHash bh) (Witness old) in
  bhID ← EntryID (Some (EBlockHeader bh));
  Some (bhID, bh).

Definition BlockHeader_Hash (bh : LBlockHeader) : option Hash := fst <$> mapBlockHeader bh.

(** The transactions of a block carry their entries; a block is mapped with them. *)
Definition MapBlock (old : LBlockHeader * list LTx) : option Block :=
  '(id, bh) ← mapBlockHeader old.1;
  Some (mkBlock bh id (map lt_Tx old.2)).

(** The reader of a block in full: each transaction is mapped as soon as it is read;
    [None] is a panic of the mapping. *)
Fixpoint read_txs (n : nat) (r : Reader) : option (result serr (list LTx) * Reader) :=
  match n with
  | O => Some (Ok [], r)
  | S n =>
      match TxData_readFrom r with
      | (Err e, r) => Some (Err e, r)
      | (Ok data, r) =>
          tx ← NewTx data;
          match read_txs n r with
          | Some (Ok txs, r) => Some (Ok (tx :: txs), r)
          | o => o
          end
      end
  end.

Definition read_block (r : Reader) : option (result serr (LBlockHeader * list LTx) * Reader) :=
  match BlockHeader_readFrom r with
  | (Err e, r) => Some (Err e, r)
  | (Ok (flags, h), r) =>
      if has_flag flags SerBlockTransactions then
        match ReadVarint31 r with
        | (Err e, r) => Some (Err e, r)
        | (Ok n, r) =>
            match read_txs (Z.to_nat n) r with
            | Some (Ok txs, r) => Some (Ok (h, txs), r)
            | Some (Err e, r) => Some (Err e, r)
            | None => None
            end
        end
      else Some (Ok (h, []), r)
  end.

Lemma read_txs_data n : forall r datas r' txs,
  read_n TxData_readFrom n r = (Ok datas, r') -> mapM NewTx datas = Some txs -> read_txs n r = Some (Ok txs, r').
Proof.
  induction n as [|n IH]; intros r datas r' txs E Em.
  { injection E as <- <-. injection Em as <-. done. }
  cbn [read_n read_txs] in *. unfold mbind, R_bind in E.
  destruct (TxData_readFrom r) as [[data|e] r1]; [|done].
  destruct (read_n TxData_readFrom n r1) as [[l|e] r2] eqn:El; [|done]. injection E as <- <-.
  cbn [mapM] in Em. destruct (NewTx data) as [tx|]; [|done]. simpl in Em.
  destruct (mapM NewTx l) as [l'|] eqn:El'; [|done]. injection Em as <-.
  cbn [mbind option_bind]. by rewrite (IH _ _ _ _ El El').
Qed.

(** Reading in full is reading the data, then mapping it. *)
Lemma read_block_data r b r' txs :
  Block_readFrom r = (Ok b, r') -> mapM NewTx (lb_Transactions b) = Some txs ->
  read_block r = Some (Ok (lb_Header b, txs), r').
Proof.
  unfold Block_readFrom, read_block, mbind, R_bind. destruct (BlockHeader_readFrom r) as [[[flags h]|e] r1]; [|done].
  simpl. destruct (has_flag flags SerBlockTransactions).
  - destruct (ReadVarint31 r1) as [[n|e] r2]; [|done].
    destruct (read_n TxData_readFrom (Z.to_nat n) r2) as [[l|e] r3] eqn:El; [|done]. intros [= <- <-] Em.
    by rewrite (read_txs_data _ _ _ _ _ El Em).
  - intros [= <- <-] [= <-]. done.
Qed.
End MapTx.
