(* ===== verification/Merkle.v ===== *)
(** * Merkle roots of transaction lists: [protocol/bc/merkle.go]

    The recursion splits a list at the largest power of two below its length; the
    fuel is the length of the list, since both halves are shorter. *)

From Stdlib Require Import ZArith Lia Strings.Byte.
From S2P Require Import Prelude Crypto Encoding Bc.

Definition leafPrefix : bytes := [x00].
Definition interiorPrefix : bytes := [x01].

(** [uint(math.Log2(float64(n)))] for an [n] that is not a power of two: the
    rounding of the floating-point logarithm cannot reach the next integer for
    any [n] below [2^47], and a slice of pointers is never that long. *)
Definition float_log2 (n : Z) : Z := Z.log2 n.

Definition prevPowerOfTwo (n : Z) : Z :=
  if Z.land n (n - 1) =? 0 then Z.quot n 2 else Z.shiftl 1 (float_log2 n).

Section Merkle.
Context `{Crypto}.

Definition merkle_leaf (id : Hash) : Hash := sum_hash (leafPrefix ++ Bytes id).
Definition merkle_interior (l r : Hash) : Hash := sum_hash (interiorPrefix ++ Bytes l ++ Bytes r).

(** [MerkleRoot] reads only the identifiers of the transactions.  [None] means
    that the fuel was not enough; the Go function never returns an error. *)
Fixpoint merkle_root (fuel : nat) (ids : list Hash) : option Hash :=
  match fuel with
  | O => None
  | S fuel =>
      match ids with
      | [] => Some EmptyStringHash
      | [id] => Some (merkle_leaf id)
      | _ =>
          let k := Z.to_nat (prevPowerOfTwo (zlen ids)) in
          left ← merkle_root fuel (take k ids);
          right ← merkle_root fuel (drop k ids);
          Some (merkle_interior left right)
      end
  end.

Definition MerkleRoot (transactions : list Tx) : option Hash :=
  merkle_root (S (length transactions)) (map tx_ID transactions).
End Merkle.

(** ** The split *)

Lemma log2_bounds n : 0 < n -> 2 ^ Z.log2 n <= n < 2 * 2 ^ Z.log2 n.
Proof.
  intros Hn. pose proof (Z.log2_spec n Hn). pose proof (Z.log2_nonneg n).
  rewrite Z.pow_succ_r in * by lia. lia.
Qed.

(** [n & (n-1)] clears the lowest bit that is set. *)
Lemma land_pred_0 n : 0 < n -> (Z.land n (n - 1) = 0 <-> n = 2 ^ Z.log2 n).
Proof.
  intros Hn. pose proof (log2_bounds n Hn) as Hb. pose proof (Z.log2_nonneg n) as Hl. split.
  - intros E. destruct (Z.eq_dec n (2 ^ Z.log2 n)) as [|Hne]; [done|].
    assert (Ht : Z.testbit (Z.land n (n - 1)) (Z.log2 n) = true).
    { rewrite Z.land_spec, (Z.bit_log2 n) by lia. cbn [andb].
      replace (Z.log2 n) with (Z.log2 (n - 1)) at 1; [apply Z.bit_log2; lia|].
      apply Z.log2_unique; [lia|]. rewrite Z.pow_succ_r by lia. lia. }
    by rewrite E, Z.bits_0 in Ht.
  - intros E. replace (n - 1) with (Z.ones (Z.log2 n)) by (rewrite Z.ones_equiv; lia).
    rewrite Z.land_ones, E by lia. rewrite Z.log2_pow2 by lia. apply Z.mod_same. lia.
Qed.

(** The split point is a power of two [k] with [k < n <= 2k], as the comment on
    [prevPowerOfTwo] promises. *)
Lemma prevPowerOfTwo_spec n :
  2 <= n -> exists e, 0 <= e /\ prevPowerOfTwo n = 2 ^ e /\ prevPowerOfTwo n < n <= 2 * prevPowerOfTwo n.
Proof.
  intros Hn. pose proof (log2_bounds n ltac:(lia)) as Hb. pose proof (Z.log2_nonneg n).
  unfold prevPowerOfTwo, float_log2. destruct (Z.eqb_spec (Z.land n (n - 1)) 0) as [E|E].
  - apply land_pred_0 in E; [|lia]. assert (1 <= Z.log2 n) by (apply Z.log2_le_pow2; lia).
    assert (Hp : 2 ^ Z.log2 n = 2 * 2 ^ (Z.log2 n - 1)).
    { rewrite <- Z.pow_succ_r by lia. f_equal. lia. }
    exists (Z.log2 n - 1). rewrite Z.quot_div_nonneg by lia.
    assert (n / 2 = 2 ^ (Z.log2 n - 1)) as ->; [|lia].
    rewrite E, Hp at 1. rewrite Z.mul_comm. by rewrite Z.div_mul by lia.
  - exists (Z.log2 n). rewrite Z.shiftl_1_l. split; [lia|]. split; [done|].
    assert (n <> 2 ^ Z.log2 n) by (intros En; apply E, land_pred_0; lia). lia.
Qed.

Section Properties.
Context `{Crypto}.

Lemma split_lengths {A} (ids : list A) :
  (2 <= length ids)%nat ->
  let k := Z.to_nat (prevPowerOfTwo (zlen ids)) in
  (1 <= length (take k ids) < length ids)%nat /\ (1 <= length (drop k ids) < length ids)%nat.
Proof.
  intros Hl. unfold zlen. destruct (prevPowerOfTwo_spec (Z.of_nat (length ids))) as (e & He & Ek & Hk); [lia|].
  assert (0 < prevPowerOfTwo (Z.of_nat (length ids))) by (rewrite Ek; apply Z.pow_pos_nonneg; lia).
  rewrite length_take, length_drop. lia.
Qed.

(** Fuel above the length of the list is enough, and any such fuel gives the same root. *)
Lemma merkle_root_total fuel : forall ids,
  (length ids < fuel)%nat ->
  exists h, forall fuel', (length ids < fuel')%nat -> merkle_root fuel' ids = Some h.
Proof.
  induction fuel as [|fuel IH]; intros ids Hf; [lia|].
  destruct ids as [|a [|b ids]].
  - exists EmptyStringHash. intros [|f'] Hf'; [simpl in Hf'; lia|done].
  - exists (merkle_leaf a). intros [|f'] Hf'; [simpl in Hf'; lia|done].
  - set (l := a :: b :: ids) in *. pose proof (split_lengths l ltac:(simpl; lia)) as [H1 H2].
    set (k := Z.to_nat (prevPowerOfTwo (zlen l))) in *.
    destruct (IH (take k l) ltac:(lia)) as [hl Hl]. destruct (IH (drop k l) ltac:(lia)) as [hr Hr].
    exists (merkle_interior hl hr). intros [|f'] Hf'; [lia|].
    change (merkle_root (S f') l) with
      (left ← merkle_root f' (take k l); right ← merkle_root f' (drop k l);
       Some (merkle_interior left right)).
    rewrite Hl, Hr by lia. done.
Qed.

(** The root of a list of identifiers, with enough fuel. *)
Definition root_of (ids : list Hash) (h : Hash) : Prop := merkle_root (S (length ids)) ids = Some h.

Lemma root_of_fuel ids h fuel :
  (length ids < fuel)%nat -> merkle_root fuel ids = Some h -> root_of ids h.
Proof.
  intros Hf E. destruct (merkle_root_total fuel ids Hf) as [h' Hh].
  unfold root_of. rewrite Hh in E by done. rewrite Hh by lia. done.
Qed.

Lemma root_of_cases ids h :
  root_of ids h ->
  ids = [] /\ h = EmptyStringHash \/
  (exists id, ids = [id] /\ h = merkle_leaf id) \/
  exists e l r hl hr, 0 <= e /\ 2 ^ e < zlen ids <= 2 * 2 ^ e /\ zlen l = 2 ^ e /\
    ids = l ++ r /\ (length l < length ids)%nat /\ (length r < length ids)%nat /\
    root_of l hl /\ root_of r hr /\ h = merkle_interior hl hr.
Proof.
  intros Hr. destruct ids as [|a [|b ids]]; [left|right; left|right; right].
  - by injection Hr as <-.
  - exists a. by injection Hr as <-.
  - set (l := a :: b :: ids) in *. pose proof (split_lengths l ltac:(simpl; lia)) as [H1 H2].
    destruct (prevPowerOfTwo_spec (zlen l)) as (e & He & Ek & Hk); [unfold zlen; simpl; lia|].
    set (k := Z.to_nat (prevPowerOfTwo (zlen l))) in *.
    destruct (merkle_root_total (length l) (take k l) ltac:(lia)) as [hl Hl].
    destruct (merkle_root_total (length l) (drop k l) ltac:(lia)) as [hr Hr'].
    exists e, (take k l), (drop k l), hl, hr. rewrite <- Ek. split_and!; try done; try lia.
    + unfold zlen. rewrite length_take. unfold k, zlen in *. lia.
    + by rewrite take_drop.
    + apply Hl. lia.
    + apply Hr'. lia.
    + unfold root_of in Hr. change (merkle_root (S (length l)) l) with
        (left ← merkle_root (length l) (take k l); right ← merkle_root (length l) (drop k l);
         Some (merkle_interior left right)) in Hr.
      rewrite Hl, Hr' in Hr by lia. by injection Hr as <-.
Qed.

(** [MerkleRoot] terminates with a root for every list of transactions, and
    the tree has the specified shape: an empty list has the hash of the empty
    string, one transaction is a leaf, and [n] transactions are split into the
    first [k] and the rest, where [k] is the power of two with [k < n <= 2k]. *)
Lemma MerkleRoot_shape txs :
  exists h, MerkleRoot txs = Some h /\
    match txs with
    | [] => h = EmptyStringHash
    | [tx] => h = merkle_leaf (tx_ID tx)
    | _ => exists e l r hl hr, 0 <= e /\ txs = l ++ r /\ zlen l = 2 ^ e /\
             2 ^ e < zlen txs <= 2 * 2 ^ e /\
             MerkleRoot l = Some hl /\ MerkleRoot r = Some hr /\ h = merkle_interior hl hr
    end.
Proof.
  destruct (merkle_root_total (S (length txs)) (map tx_ID txs)) as [h Hh]; [rewrite length_map; lia|].
  assert (Hm : MerkleRoot txs = Some h) by (apply Hh; rewrite length_map; lia).
  exists h. split; [done|]. assert (Hr : root_of (map tx_ID txs) h) by (apply Hh; lia).
  apply root_of_cases in Hr as [[E ->]|[(id & E & ->)|(e & l & r & hl & hr & He & Hb & Hk & E & Hl1 & Hl2 & Hl & Hr & ->)]].
  - by destruct txs.
  - destruct txs as [|t [|]]; try done. by injection E as <-.
  - assert (Hcut : exists tl tr, txs = tl ++ tr /\ l = map tx_ID tl /\ r = map tx_ID tr).
    { exists (take (length l) txs), (drop (length l) txs). rewrite take_drop. split; [done|].
      rewrite <- firstn_map, <- skipn_map, E.
      by rewrite firstn_app, skipn_app, firstn_all, skipn_all, Nat.sub_diag, app_nil_r. }
    destruct Hcut as (tl & tr & -> & -> & ->).
    assert (2 <= length (tl ++ tr))%nat.
    { unfold zlen in Hb. rewrite length_map in Hb. pose proof (Z.pow_pos_nonneg 2 e). lia. }
    unfold zlen, root_of in *. rewrite !length_map in *.
    destruct (tl ++ tr) as [|t [|t' ts]] eqn:Et; [simpl in *; lia..|]. rewrite <- Et in *.
    by exists e, tl, tr, hl, hr.
Qed.

(** ** Binding *)

Definition halves (l r : list Hash) : Prop :=
  exists e, 0 <= e /\ zlen l = 2 ^ e /\ 2 ^ e < zlen (l ++ r) <= 2 * 2 ^ e.

(** The strings that are hashed to compute the root of a list. *)
Inductive hashes : list Hash -> bytes -> Prop :=
| hashes_empty : hashes [] []
| hashes_leaf id : hashes [id] (leafPrefix ++ Bytes id)
| hashes_node l r hl hr :
    halves l r -> root_of l hl -> root_of r hr -> hashes (l ++ r) (interiorPrefix ++ Bytes hl ++ Bytes hr)
| hashes_left l r x : halves l r -> hashes l x -> hashes (l ++ r) x
| hashes_right l r x : halves l r -> hashes r x -> hashes (l ++ r) x.

Lemma interior_inj a b c d :
  interiorPrefix ++ Bytes a ++ Bytes b = interiorPrefix ++ Bytes c ++ Bytes d ->
  wf_hash a -> wf_hash b -> wf_hash c -> wf_hash d -> a = c /\ b = d.
Proof.
  intros Eq Ha Hb Hc Hd. apply app_inv_head in Eq.
  apply app_inj_1 in Eq as [E1 E2]; [|by rewrite !length_Byte32]. eauto using Bytes_inj.
Qed.

(** The string that is hashed last determines the root. *)
Lemma root_of_last ids h :
  root_of ids h ->
  exists x, hashes ids x /\ h = sum_hash x /\
    (ids = [] /\ x = [] \/ (exists id, ids = [id] /\ x = leafPrefix ++ Bytes id) \/
     exists l r hl hr, ids = l ++ r /\ halves l r /\ (length l < length ids)%nat /\
       (length r < length ids)%nat /\ root_of l hl /\ root_of r hr /\
       x = interiorPrefix ++ Bytes hl ++ Bytes hr).
Proof.
  intros [[-> ->]|[(id & -> & ->)|(e & l & r & hl & hr & He & Hb & Hk & -> & Hl1 & Hl2 & Hl & Hr & ->)]]%root_of_cases.
  - exists []. split_and!; [constructor|done|by left].
  - eexists. split_and!; [constructor|done|right; left; eauto].
  - assert (halves l r) by (by exists e). eexists. split_and!; [by apply hashes_node|done|].
    right; right. by exists l, r, hl, hr.
Qed.

Lemma wf_root ids h : root_of ids h -> wf_hash h.
Proof.
  intros Hr. apply root_of_cases in Hr as [[_ ->]|[(id & _ & ->)|(?&?&?&?&?&?&?&?&?&?&?&?&?& ->)]];
    apply wf_NewHash.
Qed.

Lemma root_of_binding n : forall ids ids' h,
  (length ids < n)%nat -> Forall wf_hash ids -> Forall wf_hash ids' ->
  root_of ids h -> root_of ids' h -> ids = ids' \/ collision (hashes ids) (hashes ids').
Proof.
  induction n as [|n IH]; intros ids ids' h Hn Hw Hw' H1 H2; [lia|].
  apply root_of_last in H1 as (x & Hx & E1 & C1). apply root_of_last in H2 as (y & Hy & E2 & C2).
  destruct (decide (x = y)) as [Eq|Ne]; [|right; exists x, y; by rewrite <- E1].
  destruct C1 as [[-> ->]|[(a & -> & ->)|(l & r & hl & hr & -> & Hh & Hl1 & Hl2 & Rl & Rr & ->)]];
    destruct C2 as [[-> ->]|[(b & -> & ->)|(l' & r' & hl' & hr' & -> & Hh' & _ & _ & Rl' & Rr' & ->)]];
    try (by left); try done.
  - left. apply app_inv_head in Eq. apply Forall_cons in Hw as [Ha _]. apply Forall_cons in Hw' as [Hb _].
    by rewrite (Bytes_inj a b Ha Hb Eq).
  - apply Forall_app in Hw as [Wl Wr]. apply Forall_app in Hw' as [Wl' Wr'].
    apply interior_inj in Eq as [-> ->]; [|eauto using wf_root..].
    destruct (IH l l' hl' ltac:(lia) Wl Wl' Rl Rl') as [->|C];
      [|right; eapply collision_mono; [..|exact C]; intros; by apply hashes_left].
    destruct (IH r r' hr' ltac:(lia) Wr Wr' Rr Rr') as [->|C]; [by left|].
    right. eapply collision_mono; [..|exact C]; intros; by apply hashes_right.
Qed.

(** A Merkle root commits to the list of transactions: two lists with the same
    root have the same transaction identifiers in the same order, unless two of the
    strings that are hashed to compute the two roots are a collision of SHA3-256. *)
Lemma MerkleRoot_binding txs txs' h :
  Forall wf_hash (map tx_ID txs) -> Forall wf_hash (map tx_ID txs') ->
  MerkleRoot txs = Some h -> MerkleRoot txs' = Some h ->
  map tx_ID txs = map tx_ID txs' \/ collision (hashes (map tx_ID txs)) (hashes (map tx_ID txs')).
Proof.
  intros Hw Hw' H1 H2. eapply (root_of_binding (S (length (map tx_ID txs)))); [lia|done|done| |];
    eapply root_of_fuel; [|exact H1| |exact H2]; rewrite length_map; lia.
Qed.
End Properties.

(** A transaction that is only its identifier. *)
Definition bare_tx (id : Hash) : Tx := mkTx (NewTxHeader 1 [] None 0 0) id ∅ [] [] [].

(** The digest of [toy_crypto] forgets what follows the first 32 bytes, and the
    theorem finds the collision from two lists with the same root. *)
Lemma MerkleRoot_binding_witness :
  let txs := [bare_tx (mkHash 1 0 0 0); bare_tx (mkHash 2 0 0 0)] in
  let txs' := [bare_tx (mkHash 1 0 0 0); bare_tx (mkHash 3 0 0 0)] in
  MerkleRoot txs (H := toy_crypto) = MerkleRoot txs' (H := toy_crypto) /\
  collision (H := toy_crypto) (hashes (H := toy_crypto) (map tx_ID txs)) (hashes (H := toy_crypto) (map tx_ID txs')).
Proof.
  intros txs txs'. split; [vm_compute; reflexivity|].
  destruct (MerkleRoot_binding (H := toy_crypto) txs txs'
              (default zeroHash (MerkleRoot txs (H := toy_crypto)))) as [E|E];
    [repeat constructor|repeat constructor|vm_compute; reflexivity|vm_compute; reflexivity
    |discriminate E|exact E].
Defined.
