(* ===== verification/StateTree.v ===== *)
(** * What the state snapshot needs from its tree

    [protocol/state] uses a [*patricia.Tree] through five operations.  The class
    [StateTree] lists them, and [StateTreeLaws] what they promise: the tree stands
    for a finite set of byte strings of one length, never panics on them, and its
    root hash is determined by the set. *)

From stdpp Require Import gmap.
From S2P Require Import Prelude Bc.

(** [None] is a panic; [Insert] may also return an error. *)
Class StateTree (T : Type) := {
  tree_err : Type;
  tree_empty : T;
  tree_Contains : T -> bytes -> option bool;
  tree_Insert : T -> bytes -> option (result tree_err T);
  tree_Delete : T -> bytes -> option T;
  tree_RootHash : T -> T * Hash;
}.

Class StateTreeLaws (T : Type) `{StateTree T} := {
  tree_rep : nat -> T -> gset bytes -> Prop;
  tree_rep_empty len : tree_rep len tree_empty ∅;
  tree_rep_Contains len t s item :
    tree_rep len t s -> length item = len -> tree_Contains t item = Some (bool_decide (item ∈ s));
  tree_rep_Insert len t s item :
    tree_rep len t s -> length item = len ->
    exists t', tree_Insert t item = Some (Ok t') /\ tree_rep len t' ({[item]} ∪ s);
  tree_rep_Delete len t s item :
    tree_rep len t s -> length item = len ->
    exists t', tree_Delete t item = Some t' /\ tree_rep len t' (s ∖ {[item]});
  tree_rep_RootHash len t s :
    tree_rep len t s -> tree_rep len (tree_RootHash t).1 s;
  tree_RootHash_canonical len t t' s :
    tree_rep len t s -> tree_rep len t' s -> (tree_RootHash t).2 = (tree_RootHash t').2;
}.
