(* ===== verification/Patricia.v ===== *)
(** * Patricia trees: [protocol/patricia/patricia.go]

    A set of byte strings as a radix tree over their bits, with cached Merkle
    hashes.  A node of the source is a leaf (no children, hash always set) or a
    branch (two children, hash set once it has been computed); the type [node]
    has these two cases, and the places where the source would follow a child
    pointer of a leaf are panics ([None]), like index expressions out of range. *)

From Stdlib Require Import ZArith Lia Strings.Byte.
From stdpp Require Import gmap.
From S2P Require Import Prelude Crypto Encoding Bc StateTree.

Definition leafPrefix : bytes := [x00].
Definition interiorPrefix : bytes := [x01].

(** Keys are strings of bits; the source holds a bit in a [uint8]. *)
Notation key := (list bool).

Inductive node :=
| Leaf (k : key) (h : Hash)
| Branch (k : key) (h : option Hash) (c0 c1 : node).

Definition nkey (n : node) : key := match n with Leaf k _ => k | Branch k _ _ _ => k end.

Record Tree := mkTree { root : option node }.

(** ** Keys *)

(** The bits of a byte, most significant first. *)
Definition byte_bits (b : byte) : list bool :=
  map (fun i => Z.testbit (Z_of_byte b) i) [7; 6; 5; 4; 3; 2; 1; 0].

Definition bitKey (byteKey : bytes) : key := concat (map byte_bits byteKey).

(** One byte of [byteKey]: [b |= bit << (7-j)] for eight bits. *)
Definition bits_byte (bits : list bool) : byte :=
  byte_of_Z (foldl (fun b (jbit : nat * bool) =>
    Z.lor b (Z.shiftl (Z.b2z jbit.2) (7 - Z.of_nat jbit.1))) 0 (imap pair bits)).

Fixpoint byteKey_loop (n : nat) (k : key) : bytes :=
  match n with
  | O => []
  | S n => bits_byte (take 8 k) :: byteKey_loop n (drop 8 k)
  end.

Definition byteKey (k : key) : bytes := byteKey_loop (length k / 8) k.

Fixpoint commonPrefixLen (a b : key) : nat :=
  match a, b with
  | x :: a, y :: b => if Bool.eqb x y then S (commonPrefixLen a b) else O
  | _, _ => O
  end.

(** [bytes.HasPrefix(k, p)] *)
Fixpoint HasPrefix (k p : key) : bool :=
  match p, k with
  | [], _ => true
  | x :: p, y :: k => Bool.eqb x y && HasPrefix k p
  | _ :: _, [] => false
  end.

Definition key_eqb (a b : key) : bool := bool_decide (a = b).

(** ** Hashes *)

Section Patricia.
Context `{Crypto}.

Definition leaf_hash (item : bytes) : Hash := sum_hash (leafPrefix ++ item).
Definition interior_hash (l r : Hash) : Hash := sum_hash (interiorPrefix ++ Bytes l ++ Bytes r).

(** [calcHash], which fills in the missing hashes of a subtree; the cached hash of
    the node is returned with it. *)
Fixpoint calcHash (n : node) : node * Hash :=
  match n with
  | Leaf _ h => (n, h)
  | Branch _ (Some h) _ _ => (n, h)
  | Branch k None c0 c1 =>
      let '(c0, h0) := calcHash c0 in
      let '(c1, h1) := calcHash c1 in
      let h := interior_hash h0 h1 in
      (Branch k (Some h) c0 c1, h)
  end.

Definition node_Hash (n : node) : Hash := (calcHash n).2.

(** [RootHash] returns the tree with its hashes cached. *)
Definition RootHash (t : Tree) : Tree * Hash :=
  match root t with
  | None => (t, zeroHash)
  | Some n => let '(n, h) := calcHash n in (mkTree (Some n), h)
  end.

(** ** Lookup *)

(** [Some None] is the nil node; [None] is a panic: the child of a leaf. *)
Fixpoint lookup (n : node) (k : key) : option (option node) :=
  if key_eqb (nkey n) k then
    match n with Leaf _ _ => Some (Some n) | Branch _ _ _ _ => Some None end
  else if negb (HasPrefix k (nkey n)) then Some None
  else
    match n with
    | Leaf _ _ => None
    | Branch p _ c0 c1 =>
        match nth_error k (length p) with
        | Some bit => lookup (if bit then c1 else c0) k
        | None => None
        end
    end.

Definition Contains (t : Tree) (item : bytes) : option bool :=
  match root t with
  | None => Some false
  | Some n =>
      r ← lookup n (bitKey item);
      Some (match r with
            | Some n => bool_decide (node_Hash n = leaf_hash item)
            | None => false
            end)
  end.

(** ** Insertion *)

(** The error "key provided is a prefix to other keys". *)
Inductive patricia_err := ErrPrefix.

Fixpoint insert (n : node) (k : key) (h : Hash) : option (result patricia_err node) :=
  if key_eqb (nkey n) k then
    match n with
    | Branch _ _ _ _ => Some (Err ErrPrefix)
    | Leaf p _ => Some (Ok (Leaf p h))
    end
  else if HasPrefix k (nkey n) then
    match n with
    | Leaf _ _ => Some (Err ErrPrefix)
    | Branch p _ c0 c1 =>
        match nth_error k (length p) with
        | None => None
        | Some bit =>
            r ← insert (if bit then c1 else c0) k h;
            Some (match r with
                  | Err e => Err e
                  | Ok child =>
                      Ok (if bit then Branch p None c0 child else Branch p None child c1)
                  end)
        end
    end
  else
    let common := commonPrefixLen (nkey n) k in
    match nth_error k common with
    | None => None
    | Some bit =>
        let leaf := Leaf k h in
        Some (Ok (if bit then Branch (take common k) None n leaf
                  else Branch (take common k) None leaf n))
    end.

(** On an error the root is the old one. *)
Definition Insert (t : Tree) (item : bytes) : option (result patricia_err Tree) :=
  match root t with
  | None => Some (Ok (mkTree (Some (Leaf (bitKey item) (leaf_hash item)))))
  | Some n =>
      r ← insert n (bitKey item) (leaf_hash item);
      Some (match r with Ok n => Ok (mkTree (Some n)) | Err e => Err e end)
  end.
End Patricia.

(** ** Deletion *)

(** [Some None] is the nil node the source returns; [None] is a panic. *)
Fixpoint delete (n : node) (k : key) : option (option node) :=
  if key_eqb k (nkey n) then
    match n with Branch _ _ _ _ => Some (Some n) | Leaf _ _ => Some None end
  else if negb (HasPrefix k (nkey n)) then Some (Some n)
  else
    match n with
    | Leaf _ _ => None
    | Branch p _ c0 c1 =>
        match nth_error k (length p) with
        | None => None
        | Some bit =>
            newChild ← delete (if bit then c1 else c0) k;
            Some (Some
              (match newChild with
               | None => if bit then c0 else c1
               | Some child =>
                   let p := take (length p) (nkey child) in
                   if bit then Branch p None c0 child else Branch p None child c1
               end))
        end
    end.

Definition Delete (t : Tree) (item : bytes) : option Tree :=
  match root t with
  | None => Some t
  | Some n => r ← delete n (bitKey item); Some (mkTree r)
  end.

(** ** Walking *)

(** The callback is a closure over some state; its first error stops the walk. *)
Fixpoint walk {St Er} (walkFn : bytes -> St -> option Er * St) (n : node) (s : St) : option Er * St :=
  match n with
  | Leaf k _ => walkFn (byteKey k) s
  | Branch _ _ c0 c1 =>
      match walk walkFn c0 s with
      | (Some e, s) => (Some e, s)
      | (None, s) => walk walkFn c1 s
      end
  end.

Definition Walk {St Er} (t : Tree) (walkFn : bytes -> St -> option Er * St) (s : St) : option Er * St :=
  match root t with None => (None, s) | Some n => walk walkFn n s end.

(** ** Keys and their bytes *)

Lemma bits_byte_bits b : bits_byte (byte_bits b) = b.
Proof. destruct b; vm_compute; reflexivity. Qed.

Lemma length_byte_bits b : length (byte_bits b) = 8%nat.
Proof. done. Qed.

Lemma length_bitKey item : length (bitKey item) = (8 * length item)%nat.
Proof.
  unfold bitKey. induction item as [|b item IH]; cbn [map concat length]; [done|].
  rewrite length_app, IH, length_byte_bits. lia.
Qed.

(** [byteKey] is the inverse of [bitKey], as its comment says. *)
Lemma byteKey_bitKey item : byteKey (bitKey item) = item.
Proof.
  unfold byteKey. rewrite length_bitKey.
  replace (8 * length item / 8)%nat with (length item) by (rewrite Nat.mul_comm, Nat.div_mul; lia).
  unfold bitKey. induction item as [|b item IH]; [done|]. cbn [length byteKey_loop map concat].
  rewrite take_app_length' by done. rewrite drop_app_length' by done. by rewrite bits_byte_bits, IH.
Qed.

#[export] Instance bitKey_inj : Inj (=) (=) bitKey.
Proof. intros a b E. by rewrite <- (byteKey_bitKey a), E, byteKey_bitKey. Qed.

Lemma HasPrefix_spec k p : HasPrefix k p = true <-> p `prefix_of` k.
Proof.
  revert k. induction p as [|x p IH]; intros [|y k]; simpl.
  - split; [intros _; apply prefix_nil|done].
  - split; [intros _; apply prefix_nil|done].
  - split; [done|]. by intros ?%prefix_nil_not.
  - rewrite andb_true_iff, eqb_true_iff, IH. split.
    + intros [-> Hp]. by apply prefix_cons.
    + intros Hp. by split; [apply prefix_cons_inv_1 in Hp|apply prefix_cons_inv_2 in Hp].
Qed.

Lemma HasPrefix_false k p : HasPrefix k p = false <-> ~ p `prefix_of` k.
Proof. rewrite <- HasPrefix_spec. by destruct (HasPrefix k p). Qed.

Lemma key_eqb_spec a b : key_eqb a b = true <-> a = b.
Proof. apply bool_decide_eq_true. Qed.

Lemma key_eqb_false a b : key_eqb a b = false <-> a <> b.
Proof. apply bool_decide_eq_false. Qed.

Lemma commonPrefixLen_spec a b :
  exists p a' b', a = p ++ a' /\ b = p ++ b' /\ length p = commonPrefixLen a b /\
    match a', b' with x :: _, y :: _ => x <> y | _, _ => True end.
Proof.
  revert b. induction a as [|x a IH]; intros [|y b]; simpl; try by (exists [], [], []).
  - by exists [], [], (y :: b).
  - by exists [], (x :: a), [].
  - destruct (Bool.eqb x y) eqn:E.
    + apply eqb_prop in E as ->. destruct (IH b) as (p & a' & b' & -> & -> & L & D).
      exists (y :: p), a', b'. simpl. by rewrite L.
    + apply eqb_false_iff in E. by exists [], (x :: a), (y :: b).
Qed.

(** ** The set a tree stands for, and its invariant *)

Fixpoint keys (n : node) : list key :=
  match n with
  | Leaf k _ => [k]
  | Branch _ _ c0 c1 => keys c0 ++ keys c1
  end.

(** The bit after the key of a branch selects the child. *)
Fixpoint wf_node (n : node) : Prop :=
  match n with
  | Leaf _ _ => True
  | Branch p _ c0 c1 =>
      p ++ [false] `prefix_of` nkey c0 /\ p ++ [true] `prefix_of` nkey c1 /\ wf_node c0 /\ wf_node c1
  end.

(** [k] is in the tree or incomparable with everything in it. *)
Definition compatible (k : key) (n : node) : Prop :=
  forall k', k' ∈ keys n -> (k' `prefix_of` k \/ k `prefix_of` k') -> k' = k.

Definition child (b : bool) (c0 c1 : node) : node := if b then c1 else c0.

Lemma keys_prefix n k : wf_node n -> k ∈ keys n -> nkey n `prefix_of` k.
Proof.
  induction n as [p h|p h c0 IH0 c1 IH1]; simpl; intros Hw Hk.
  - apply list_elem_of_singleton in Hk as ->. done.
  - destruct Hw as (P0 & P1 & W0 & W1). apply elem_of_app in Hk as [Hk|Hk].
    + etrans; [|by apply IH0]. etrans; [|exact P0]. by exists [false].
    + etrans; [|by apply IH1]. etrans; [|exact P1]. by exists [true].
Qed.

Lemma keys_child_prefix p h c0 c1 b k :
  wf_node (Branch p h c0 c1) -> k ∈ keys (child b c0 c1) -> p ++ [b] `prefix_of` k.
Proof.
  intros (P0 & P1 & W0 & W1) Hk. destruct b; simpl in Hk.
  - etrans; [exact P1|by apply keys_prefix].
  - etrans; [exact P0|by apply keys_prefix].
Qed.

Lemma keys_nonempty n : exists k, k ∈ keys n.
Proof.
  induction n as [p h|p h c0 [k Hk] c1 _]; simpl; [exists p; by apply list_elem_of_singleton|].
  exists k. apply elem_of_app. by left.
Qed.

Lemma elem_of_branch p h c0 c1 b k :
  k ∈ keys (Branch p h c0 c1) <-> k ∈ keys (child b c0 c1) \/ k ∈ keys (child (negb b) c0 c1).
Proof. simpl. rewrite elem_of_app. destruct b; simpl; tauto. Qed.

(** A key below a branch: its next bit, and where it can be. *)
Lemma prefix_split (p k : key) :
  p `prefix_of` k -> p <> k -> exists b, nth_error k (length p) = Some b /\ p ++ [b] `prefix_of` k.
Proof.
  intros [[|b r] ->] Hne; [by rewrite app_nil_r in Hne|]. exists b.
  rewrite nth_error_app2, Nat.sub_diag by lia. split; [done|].
  exists r. by rewrite <- app_assoc.
Qed.

Lemma prefix_bit (p : key) b b' k : p ++ [b] `prefix_of` k -> p ++ [b'] `prefix_of` k -> b = b'.
Proof.
  intros [r ->] [r' E]. rewrite <- !app_assoc in E. apply app_inv_head in E. by injection E.
Qed.

Lemma branch_child p h c0 c1 b k :
  wf_node (Branch p h c0 c1) -> p ++ [b] `prefix_of` k ->
  (k ∈ keys (Branch p h c0 c1) <-> k ∈ keys (child b c0 c1)).
Proof.
  intros Hw Hb. rewrite (elem_of_branch _ _ _ _ b). split; [|by left]. intros [Hk|Hk]; [done|].
  eapply keys_child_prefix in Hk; [|done]. pose proof (prefix_bit _ _ _ _ Hb Hk). by destruct b.
Qed.

Lemma compatible_child p h c0 c1 b k :
  compatible k (Branch p h c0 c1) -> compatible k (child b c0 c1).
Proof. intros Hc k' Hk'. apply Hc. apply (elem_of_branch _ _ _ _ b). by left. Qed.

(** No key of a compatible set is a branch point. *)
Lemma compatible_branch p h c0 c1 k :
  wf_node (Branch p h c0 c1) -> compatible k (Branch p h c0 c1) -> p <> k.
Proof.
  intros Hw Hc ->. destruct (keys_nonempty c0) as [k' Hk'].
  pose proof (keys_child_prefix _ _ _ _ false k' Hw Hk') as Hp.
  assert (k' = k) as ->.
  { apply Hc; [apply (elem_of_branch _ _ _ _ false); by left|]. right.
    etrans; [|exact Hp]. by exists [false]. }
  apply prefix_length in Hp. rewrite length_app in Hp. simpl in Hp. lia.
Qed.

(** What follows from [k] extending the key of a node. *)
Lemma compatible_leaf p h k : compatible k (Leaf p h) -> p `prefix_of` k -> p = k.
Proof. intros Hc Hp. apply Hc; [by apply list_elem_of_singleton|by left]. Qed.

Ltac step_into p k :=
  let b := fresh "b" in
  let Hn := fresh "Hnth" in
  let Hb := fresh "Hbit" in
  let Hpre := fresh in
  match goal with
  | Hp : p `prefix_of` k, Hne : p <> k |- _ => destruct (prefix_split p k Hp Hne) as (b & Hn & Hb)
  end; rewrite Hn.

Lemma lookup_spec n k :
  wf_node n -> compatible k n ->
  (k ∉ keys n /\ lookup n k = Some None) \/
  (k ∈ keys n /\ exists h, lookup n k = Some (Some (Leaf k h))).
Proof.
  induction n as [p h|p h c0 IH0 c1 IH1]; intros Hw Hc; cbn [lookup nkey].
  - destruct (key_eqb p k) eqn:E.
    + apply key_eqb_spec in E as ->. right. split; [by apply list_elem_of_singleton|by exists h].
    + apply key_eqb_false in E. left. split; [simpl; by rewrite list_elem_of_singleton|].
      destruct (HasPrefix k p) eqn:Hp; [|done]. apply HasPrefix_spec in Hp.
      by apply (compatible_leaf _ _ _ Hc) in Hp.
  - pose proof (compatible_branch _ _ _ _ _ Hw Hc) as Hne.
    rewrite (proj2 (key_eqb_false p k) Hne).
    destruct (HasPrefix k p) eqn:Hp; cbn [negb].
    + apply HasPrefix_spec in Hp. step_into p k. rewrite (branch_child _ _ _ _ b) by done.
      pose proof (compatible_child _ _ _ _ b _ Hc) as Hcb. destruct Hw as (_ & _ & W0 & W1).
      destruct b; [apply IH1|apply IH0]; done.
    + left. apply HasPrefix_false in Hp. split; [|done]. intros Hk. apply Hp.
      by apply (keys_prefix (Branch p h c0 c1)).
Qed.

(** A branch with one child replaced by a node whose key is still below it. *)
Lemma wf_replace p h c0 c1 (b : bool) n' :
  wf_node (Branch p h c0 c1) -> wf_node n' -> p ++ [b] `prefix_of` nkey n' ->
  wf_node (if b then Branch p None c0 n' else Branch p None n' c1).
Proof. intros (P0 & P1 & W0 & W1) Hw Hp. by destruct b. Qed.

Lemma keys_replace p h c0 c1 (b : bool) n' k' :
  k' ∈ keys (if b then Branch p h c0 n' else Branch p h n' c1) <->
  k' ∈ keys n' \/ k' ∈ keys (child (negb b) c0 c1).
Proof. destruct b; simpl; rewrite elem_of_app; tauto. Qed.

Lemma prefix_take (q p k : key) : q `prefix_of` p -> p `prefix_of` k -> take (length q) k = q.
Proof. intros [r ->] [r' ->]. by rewrite <- app_assoc, take_app_length. Qed.

(** A new branch above two incomparable keys. *)
Lemma split_spec n k h :
  wf_node n -> compatible k n -> ~ nkey n `prefix_of` k ->
  let common := commonPrefixLen (nkey n) k in
  exists b, nth_error k common = Some b /\
    let n' := if b then Branch (take common k) None n (Leaf k h)
              else Branch (take common k) None (Leaf k h) n in
    wf_node n' /\ (forall k', k' ∈ keys n' <-> k' = k \/ k' ∈ keys n) /\
    (forall q, q `prefix_of` nkey n -> q `prefix_of` k -> q `prefix_of` nkey n').
Proof.
  intros Hw Hc Hnp. destruct (commonPrefixLen_spec (nkey n) k) as (p & a' & b' & Ea & Eb & L & D).
  destruct a' as [|x a']; [exfalso; apply Hnp; rewrite Ea, Eb, app_nil_r; by exists b'|].
  destruct b' as [|y b'].
  { exfalso. rewrite app_nil_r in Eb. destruct (keys_nonempty n) as [k' Hk'].
    pose proof (keys_prefix _ _ Hw Hk') as Hp'. assert (k' = k) as ->.
    { apply Hc; [done|]. right. etrans; [|exact Hp']. rewrite Ea, Eb. by exists (x :: a'). }
    apply Hnp, Hp'. }
  cbv zeta. rewrite <- L. exists y. rewrite Eb at 1. rewrite nth_error_app2, Nat.sub_diag by lia.
  split; [done|]. assert (take (length p) k = p) as -> by (rewrite Eb; apply take_app_length).
  assert (Hk : p ++ [y] `prefix_of` k) by (rewrite Eb; exists b'; by rewrite <- app_assoc).
  assert (Hn : p ++ [negb y] `prefix_of` nkey n).
  { rewrite Ea. exists a'. rewrite <- app_assoc. simpl. do 2 f_equal. by destruct x, y. }
  split_and!.
  - destruct y; simpl; auto.
  - intros k'. destruct y; simpl; set_solver.
  - intros q [r Er] [r' Er']. assert (q `prefix_of` p) as Hq; [|by destruct y].
    destruct (prefix_weak_total q p k) as [?|Hpq]; [by exists r'|by exists (y :: b')|done|].
    destruct Hpq as [[|z t] ->]; [by rewrite app_nil_r|]. exfalso.
    rewrite Er, <- app_assoc in Ea. apply app_inv_head in Ea.
    rewrite Er', <- app_assoc in Eb. apply app_inv_head in Eb.
    injection Ea as Ez _. injection Eb as Ez' _. congruence.
Qed.

Lemma insert_spec n k h :
  wf_node n -> compatible k n ->
  exists n', insert n k h = Some (Ok n') /\ wf_node n' /\
    (forall k', k' ∈ keys n' <-> k' = k \/ k' ∈ keys n) /\
    (forall q, q `prefix_of` nkey n -> q `prefix_of` k -> q `prefix_of` nkey n').
Proof.
  induction n as [p h0|p h0 c0 IH0 c1 IH1]; intros Hw Hc; cbn [insert].
  - destruct (key_eqb (nkey (Leaf p h0)) k) eqn:E.
    + apply key_eqb_spec in E. simpl in E. subst p. eexists. split; [done|]. split; [done|].
      split; [|done]. intros k'. simpl. rewrite list_elem_of_singleton. tauto.
    + destruct (HasPrefix k (nkey (Leaf p h0))) eqn:Hp.
      * apply HasPrefix_spec in Hp. apply key_eqb_false in E. by apply (compatible_leaf _ _ _ Hc) in Hp.
      * apply HasPrefix_false in Hp. destruct (split_spec _ k h Hw Hc Hp) as (b & -> & Hb). by eexists.
  - pose proof (compatible_branch _ _ _ _ _ Hw Hc) as Hne. cbn [nkey].
    rewrite (proj2 (key_eqb_false p k) Hne). destruct (HasPrefix k p) eqn:Hp.
    + apply HasPrefix_spec in Hp. step_into p k.
      pose proof (compatible_child _ _ _ _ b _ Hc) as Hcb. pose proof Hw as (P0 & P1 & W0 & W1).
      assert (exists n', insert (child b c0 c1) k h = Some (Ok n') /\ wf_node n' /\
        (forall k', k' ∈ keys n' <-> k' = k \/ k' ∈ keys (child b c0 c1)) /\
        (forall q, q `prefix_of` nkey (child b c0 c1) -> q `prefix_of` k -> q `prefix_of` nkey n'))
        as (n' & E & Wn & Kn & Qn) by (destruct b; auto).
      unfold child in E. rewrite E. cbn [mbind option_bind]. eexists. split; [done|].
      assert (Hpn : p ++ [b] `prefix_of` nkey n') by (apply Qn; [by destruct b|done]).
      split; [by apply (wf_replace p h0)|]. split.
      * intros k'. rewrite keys_replace, (elem_of_branch _ _ _ _ b), Kn. tauto.
      * intros q Hq _. by destruct b.
    + apply HasPrefix_false in Hp. destruct (split_spec _ k h Hw Hc Hp) as (b & Hb & Hs).
      cbn [nkey] in Hb. rewrite Hb. by eexists.
Qed.

Lemma delete_spec n k :
  wf_node n -> compatible k n ->
  exists r, delete n k = Some r /\
    match r with
    | None => forall k', k' ∈ keys n <-> k' = k
    | Some n' => wf_node n' /\ (forall k', k' ∈ keys n' <-> k' <> k /\ k' ∈ keys n) /\
                 nkey n `prefix_of` nkey n'
    end.
Proof.
  induction n as [p h|p h c0 IH0 c1 IH1]; intros Hw Hc; cbn [delete nkey].
  - destruct (key_eqb k p) eqn:E.
    + apply key_eqb_spec in E as <-. exists None. split; [done|]. intros k'. apply list_elem_of_singleton.
    + apply key_eqb_false in E. destruct (HasPrefix k p) eqn:Hp; cbn [negb].
      * apply HasPrefix_spec in Hp. by apply (compatible_leaf _ _ _ Hc) in Hp.
      * eexists. split; [done|]. split; [done|]. split; [|done]. intros k'. simpl.
        rewrite list_elem_of_singleton. split; [intros ->; auto|tauto].
  - pose proof (compatible_branch _ _ _ _ _ Hw Hc) as Hne.
    rewrite (proj2 (key_eqb_false k p)) by congruence.
    destruct (HasPrefix k p) eqn:Hp; cbn [negb].
    + apply HasPrefix_spec in Hp. step_into p k.
      pose proof (compatible_child _ _ _ _ b _ Hc) as Hcb. pose proof Hw as (P0 & P1 & W0 & W1).
      assert (exists r, delete (child b c0 c1) k = Some r /\
        match r with
        | None => forall k', k' ∈ keys (child b c0 c1) <-> k' = k
        | Some n' => wf_node n' /\ (forall k', k' ∈ keys n' <-> k' <> k /\ k' ∈ keys (child b c0 c1)) /\
                     nkey (child b c0 c1) `prefix_of` nkey n'
        end) as (r & E & Hr) by (destruct b; auto).
      unfold child in E. rewrite E. cbn [mbind option_bind]. eexists. split; [done|].
      assert (Hother : forall k', k' ∈ keys (child (negb b) c0 c1) -> k' <> k).
      { intros k' Hk' ->. apply (keys_child_prefix _ h _ _ _ _ Hw) in Hk'.
        pose proof (prefix_bit _ _ _ _ Hbit Hk'). by destruct b. }
      destruct r as [n'|].
      * destruct Hr as (Wn & Kn & Qn).
        assert (Hpn : p ++ [b] `prefix_of` nkey n') by (etrans; [|exact Qn]; by destruct b).
        rewrite (prefix_take p (p ++ [b])) by (try done; by exists [b]).
        split; [by apply (wf_replace p h)|]. split.
        -- intros k'. rewrite keys_replace, (elem_of_branch _ _ _ _ b), Kn. naive_solver.
        -- by destruct b.
      * replace (if b then c0 else c1) with (child (negb b) c0 c1) by (by destruct b).
        split; [by destruct b|]. split.
        -- intros k'. rewrite (elem_of_branch _ _ _ _ b), Hr. naive_solver.
        -- destruct b; (etrans; [|first [exact P0|exact P1]]); by eexists.
    + apply HasPrefix_false in Hp. eexists. split; [done|]. split; [done|]. split; [|done].
      intros k'. split; [|tauto]. intros Hk'. split; [|done]. intros ->. apply Hp.
      by apply (keys_prefix (Branch p h c0 c1)).
Qed.

(** ** Hashes *)

Section Hashes.
Context `{Crypto}.

(** The Merkle hash of a tree, computed from its leaves. *)
Fixpoint merkle_hash (n : node) : Hash :=
  match n with
  | Leaf k _ => leaf_hash (byteKey k)
  | Branch _ _ c0 c1 => interior_hash (merkle_hash c0) (merkle_hash c1)
  end.

(** Cached hashes are right. *)
Fixpoint cached (n : node) : Prop :=
  match n with
  | Leaf k h => h = leaf_hash (byteKey k)
  | Branch _ h c0 c1 =>
      (forall h', h = Some h' -> h' = interior_hash (merkle_hash c0) (merkle_hash c1)) /\
      cached c0 /\ cached c1
  end.

Lemma calcHash_spec n :
  cached n -> (calcHash n).2 = merkle_hash n /\ cached (calcHash n).1 /\
  keys (calcHash n).1 = keys n /\ nkey (calcHash n).1 = nkey n /\
  merkle_hash (calcHash n).1 = merkle_hash n /\ (wf_node n -> wf_node (calcHash n).1).
Proof.
  induction n as [k h|k [h|] c0 IH0 c1 IH1]; cbn [calcHash cached].
  - intros ->. done.
  - intros (Hh & H0 & H1). split; [exact (Hh h eq_refl)|]. by split_and!.
  - intros (_ & H0 & H1). destruct (IH0 H0) as (A0 & B0 & C0 & D0 & E0 & F0).
    destruct (IH1 H1) as (A1 & B1 & C1 & D1 & E1 & F1).
    destruct (calcHash c0) as [c0' h0], (calcHash c1) as [c1' h1]. cbn [fst snd] in *. subst h0 h1.
    cbn [merkle_hash cached keys nkey wf_node]. rewrite C0, C1, D0, D1, E0, E1.
    split_and!; try done; [by intros h' [= <-]|]. intros (P0 & P1 & W0 & W1). auto.
Qed.

Lemma lookup_cached n k : cached n -> forall k' h,
  lookup n k = Some (Some (Leaf k' h)) -> h = leaf_hash (byteKey k').
Proof.
  induction n as [p h0|p h0 c0 IH0 c1 IH1]; cbn [lookup nkey cached]; intros Hn k' h Hl.
  - destruct (key_eqb p k); [by injection Hl as <- <-|]. by destruct (HasPrefix k p).
  - destruct (key_eqb p k); [done|]. destruct (HasPrefix k p); [|done].
    destruct Hn as (_ & H0 & H1). destruct (nth_error k _) as [[]|]; eauto; done.
Qed.

Lemma insert_cached n k h :
  cached n -> h = leaf_hash (byteKey k) -> forall n', insert n k h = Some (Ok n') -> cached n'.
Proof.
  intros Hn ->. induction n as [p h0|p h0 c0 IH0 c1 IH1]; cbn [insert];
    intros n' Hi; cbn [nkey] in Hi.
  - destruct (key_eqb p k) eqn:E.
    + apply key_eqb_spec in E as ->. by injection Hi as <-.
    + destruct (HasPrefix k p); [done|]. destruct (nth_error k _) as [[]|]; [..|done];
        injection Hi as <-; by split_and!.
  - destruct (key_eqb p k); [done|]. destruct Hn as (Hh & H0 & H1).
    destruct (HasPrefix k p); (destruct (nth_error k _) as [[]|]; [..|done]);
      try (injection Hi as <-; by split_and!).
    + destruct (insert c1 k _) as [[c|]|] eqn:Ec; try done. injection Hi as <-. split_and!; auto. done.
    + destruct (insert c0 k _) as [[c|]|] eqn:Ec; try done. injection Hi as <-. split_and!; auto. done.
Qed.

Lemma delete_cached n k : cached n -> forall n', delete n k = Some (Some n') -> cached n'.
Proof.
  induction n as [p h0|p h0 c0 IH0 c1 IH1]; cbn [delete nkey]; intros Hn n' Hd.
  - destruct (key_eqb k p); [done|]. destruct (HasPrefix k p); [done|]. by injection Hd as <-.
  - destruct (key_eqb k p); [by injection Hd as <-|].
    destruct (HasPrefix k p); cbn [negb] in Hd; [|by injection Hd as <-].
    destruct Hn as (Hh & H0 & H1). destruct (nth_error k _) as [[]|]; [..|done].
    + destruct (delete c1 k) as [[c|]|] eqn:Ec; try done; injection Hd as <-; [|done].
      split_and!; auto. done.
    + destruct (delete c0 k) as [[c|]|] eqn:Ec; try done; injection Hd as <-; [|done].
      split_and!; auto. done.
Qed.

(** ** Canonical form *)

(** Every branch separates two keys. *)
Lemma branch_witness p h c0 c1 b :
  wf_node (Branch p h c0 c1) ->
  exists k, k ∈ keys (Branch p h c0 c1) /\ p ++ [b] `prefix_of` k.
Proof.
  intros Hw. destruct (keys_nonempty (child b c0 c1)) as [k Hk]. exists k.
  split; [apply (elem_of_branch _ _ _ _ b); by left|by eapply keys_child_prefix].
Qed.

(** The key of a branch is the longest common prefix of its keys. *)
Lemma branch_key_longest p h c0 c1 q :
  wf_node (Branch p h c0 c1) -> (forall k, k ∈ keys (Branch p h c0 c1) -> q `prefix_of` k) ->
  q `prefix_of` p.
Proof.
  intros Hw Hq. destruct (branch_witness _ _ _ _ false Hw) as (k0 & K0 & P0).
  destruct (branch_witness _ _ _ _ true Hw) as (k1 & K1 & P1).
  apply Hq in K0, K1. assert (p `prefix_of` k0) by (etrans; [|exact P0]; by eexists).
  destruct (prefix_weak_total q p k0) as [?|Hpq]; [done..|].
  destruct Hpq as [[|z t] ->]; [by rewrite app_nil_r|]. exfalso.
  assert (p ++ [z] `prefix_of` p ++ z :: t) as Hz by (exists t; by rewrite <- app_assoc).
  assert (z = false) by (eapply (prefix_bit p z false k0); [by etrans|done]).
  assert (z = true) by (eapply (prefix_bit p z true k1); [by etrans|done]). congruence.
Qed.

Lemma merkle_hash_canonical a : forall b,
  wf_node a -> wf_node b -> (forall k, k ∈ keys a <-> k ∈ keys b) -> merkle_hash a = merkle_hash b.
Proof.
  assert (Hleaf : forall k p h c0 c1, wf_node (Branch p h c0 c1) ->
    (forall k', k' ∈ keys (Branch p h c0 c1) -> k' = k) -> False).
  { intros k p h c0 c1 Hw Hk. destruct (branch_witness _ _ _ _ false Hw) as (k0 & K0 & P0).
    destruct (branch_witness _ _ _ _ true Hw) as (k1 & K1 & P1).
    apply Hk in K0 as ->. apply Hk in K1 as ->. by pose proof (prefix_bit _ _ _ _ P0 P1). }
  induction a as [k h|p h a0 IH0 a1 IH1]; intros [k' h'|p' h' b0 b1] Wa Wb Hk.
  - simpl in *. by rewrite (proj1 (list_elem_of_singleton _ _) (proj1 (Hk k) (list_elem_of_here _ _))).
  - exfalso. eapply (Hleaf k); [exact Wb|]. intros k' Hk'. apply Hk in Hk'. by apply list_elem_of_singleton.
  - exfalso. eapply (Hleaf k'); [exact Wa|]. intros k Hk'. apply Hk in Hk'. by apply list_elem_of_singleton.
  - assert (p = p') as <-.
    { apply (anti_symm prefix).
      - apply (branch_key_longest _ _ _ _ _ Wb). intros k Hk'. apply Hk in Hk'.
        by apply (keys_prefix _ _ Wa).
      - apply (branch_key_longest _ _ _ _ _ Wa). intros k Hk'. apply Hk in Hk'.
        by apply (keys_prefix _ _ Wb). }
    assert (Hb : forall b k, k ∈ keys (child b a0 a1) <-> k ∈ keys (child b b0 b1)).
    { intros b k. split; intros Hk'.
      - pose proof (keys_child_prefix _ _ _ _ _ _ Wa Hk') as Hp. rewrite <- branch_child by done.
        apply Hk. apply (elem_of_branch _ _ _ _ b). by left.
      - pose proof (keys_child_prefix _ _ _ _ _ _ Wb Hk') as Hp. rewrite <- branch_child by done.
        apply Hk. apply (elem_of_branch _ _ _ _ b). by left. }
    destruct Wa as (_ & _ & Wa0 & Wa1), Wb as (_ & _ & Wb0 & Wb1). simpl. f_equal.
    + apply IH0; [done..|]. apply (Hb false).
    + apply IH1; [done..|]. apply (Hb true).
Qed.
End Hashes.

(** ** The tree as a set of items *)

Section Items.
Context `{Crypto}.

(** [t] holds exactly the items of [s], which all have length [len]. *)
Definition rep (len : nat) (t : Tree) (s : gset bytes) : Prop :=
  (forall item, item ∈ s -> length item = len) /\
  match root t with
  | None => s = ∅
  | Some n => wf_node n /\ cached n /\ forall k, k ∈ keys n <-> exists item, item ∈ s /\ k = bitKey item
  end.

Lemma rep_compatible len t s n item :
  rep len t s -> root t = Some n -> length item = len -> compatible (bitKey item) n.
Proof.
  intros [Hl Hr] Er Hi k Hk Hp. rewrite Er in Hr. destruct Hr as (_ & _ & Hkeys).
  apply Hkeys in Hk as (i & His & ->). apply Hl in His.
  assert (length (bitKey i) = length (bitKey item)) as Hlen by (rewrite !length_bitKey; lia).
  destruct Hp as [[r E]|[r E]]; rewrite E, length_app in Hlen;
    (assert (r = []) as -> by (destruct r; [done|simpl in Hlen; lia])); by rewrite E, app_nil_r.
Qed.

Lemma rep_keys len t s n item :
  rep len t s -> root t = Some n -> (bitKey item ∈ keys n <-> item ∈ s).
Proof.
  intros [_ Hr] Er. rewrite Er in Hr. destruct Hr as (_ & _ & ->). split.
  - by intros (i & Hi & ->%(inj bitKey)).
  - intros. by exists item.
Qed.

Lemma Contains_rep len t s item :
  rep len t s -> length item = len -> Contains t item = Some (bool_decide (item ∈ s)).
Proof.
  intros Hr Hi. unfold Contains. destruct (root t) as [n|] eqn:Er.
  - pose proof (rep_compatible _ _ _ _ _ Hr Er Hi) as Hc. pose proof (rep_keys _ _ _ _ item Hr Er) as Hk.
    destruct Hr as [_ Hw]. rewrite Er in Hw. destruct Hw as (Hw & Hca & _).
    destruct (lookup_spec n (bitKey item) Hw Hc) as [[Hn ->]|[Hin [h Hl]]]; [|rewrite Hl]; cbn [mbind option_bind].
    + rewrite bool_decide_eq_false_2; [done|]. by rewrite <- Hk.
    + rewrite (bool_decide_eq_true_2 (item ∈ s)) by (by apply Hk). f_equal.
      apply bool_decide_eq_true_2. apply lookup_cached in Hl; [|done].
      unfold node_Hash. simpl. by rewrite Hl, byteKey_bitKey.
  - destruct Hr as [_ Hs]. rewrite Er in Hs. subst s. by rewrite bool_decide_eq_false_2.
Qed.

Lemma Insert_rep len t s item :
  rep len t s -> length item = len ->
  exists t', Insert t item = Some (Ok t') /\ rep len t' ({[item]} ∪ s).
Proof.
  intros Hr Hi. unfold Insert. destruct (root t) as [n|] eqn:Er.
  - pose proof (rep_compatible _ _ _ _ _ Hr Er Hi) as Hc. destruct Hr as [Hl Hw].
    rewrite Er in Hw. destruct Hw as (Hw & Hca & Hk).
    destruct (insert_spec n (bitKey item) (leaf_hash item) Hw Hc) as (n' & E & Wn & Kn & _).
    pose proof (insert_cached n (bitKey item) (leaf_hash item) Hca
      ltac:(by rewrite byteKey_bitKey) n' E) as Cn.
    rewrite E. eexists. split; [done|]. split; [set_solver|]. simpl. split_and!; try done.
    intros k. rewrite Kn, Hk. set_solver.
  - eexists. split; [done|]. destruct Hr as [Hl Hs]. rewrite Er in Hs. subst s.
    split; [set_solver|]. simpl. rewrite byteKey_bitKey. split_and!; try done.
    intros k. rewrite list_elem_of_singleton. set_solver.
Qed.

Lemma Delete_rep len t s item :
  rep len t s -> length item = len ->
  exists t', Delete t item = Some t' /\ rep len t' (s ∖ {[item]}).
Proof.
  intros Hr Hi. unfold Delete. destruct (root t) as [n|] eqn:Er.
  - pose proof (rep_compatible _ _ _ _ _ Hr Er Hi) as Hc. pose proof (fun i => rep_keys _ _ _ _ i Hr Er) as Hin.
    destruct Hr as [Hl Hw]. rewrite Er in Hw. destruct Hw as (Hw & Hca & Hk).
    destruct (delete_spec n (bitKey item) Hw Hc) as ([n'|] & E & Hd); rewrite E; eexists;
      (split; [done|]); (split; [set_solver|]); cbn [root].
    + destruct Hd as (Wn & Kn & _). split_and!; [done|by eapply delete_cached|].
      intros k. rewrite Kn, Hk. split.
      * intros (Hne & i & His & ->). exists i. split; [|done]. set_solver.
      * intros (i & His & ->). split; [|set_solver]. intros E'%(inj bitKey). set_solver.
    + apply set_eq. intros i. rewrite elem_of_difference, elem_of_singleton, <- (Hin i), Hd. split.
      * intros [E' Hne]. apply (inj bitKey) in E'. done.
      * by intros ?%elem_of_empty.
  - eexists. split; [done|]. destruct Hr as [Hl Hs]. rewrite Er in Hs. subst s.
    split; [set_solver|]. rewrite Er. set_solver.
Qed.

Lemma RootHash_rep len t s : rep len t s -> rep len (RootHash t).1 s.
Proof.
  intros Hr. unfold RootHash. destruct (root t) as [n|] eqn:Er; [|done].
  destruct Hr as [Hl Hw]. rewrite Er in Hw. destruct Hw as (Hw & Hca & Hk).
  destruct (calcHash_spec n Hca) as (_ & Cn & Kn & _ & _ & Wn).
  destruct (calcHash n) as [n' h]. simpl in *. split; [done|]. simpl. rewrite Kn. auto.
Qed.

Lemma RootHash_value len t s :
  rep len t s -> (RootHash t).2 = match root t with None => zeroHash | Some n => merkle_hash n end.
Proof.
  intros [_ Hw]. unfold RootHash. destruct (root t) as [n|]; [|done].
  destruct Hw as (_ & Hca & _). destruct (calcHash_spec n Hca) as (E & _).
  by destruct (calcHash n).
Qed.

Lemma RootHash_eq len t t' s : rep len t s -> rep len t' s -> (RootHash t).2 = (RootHash t').2.
Proof.
  intros H1 H2. rewrite (RootHash_value _ _ _ H1), (RootHash_value _ _ _ H2).
  destruct H1 as [_ H1], H2 as [_ H2]. destruct (root t) as [n|], (root t') as [n'|]; try done.
  - destruct H1 as (W1 & _ & K1), H2 as (W2 & _ & K2). apply merkle_hash_canonical; [done..|].
    intros k. by rewrite K1, K2.
  - destruct H1 as (_ & _ & K1). subst s. destruct (keys_nonempty n) as [k Hk]. set_solver.
  - destruct H2 as (_ & _ & K2). subst s. destruct (keys_nonempty n') as [k Hk]. set_solver.
Qed.

#[export] Instance Tree_state : StateTree Tree := {|
  tree_err := patricia_err;
  tree_empty := mkTree None;
  tree_Contains := Contains;
  tree_Insert := Insert;
  tree_Delete := Delete;
  tree_RootHash := RootHash;
|}.

#[export] Instance Tree_laws : StateTreeLaws Tree.
Proof.
  refine {| tree_rep := rep |}; [by intros len; split; [set_solver|]
    |exact Contains_rep|exact Insert_rep|exact Delete_rep|exact RootHash_rep|exact RootHash_eq].
Defined.
End Items.

(** ** Histories of a tree *)

Inductive tree_op := OpInsert (item : bytes) | OpDelete (item : bytes).

Definition op_item (o : tree_op) : bytes := match o with OpInsert i => i | OpDelete i => i end.

(** The set after an operation. *)
Definition apply_set (s : gset bytes) (o : tree_op) : gset bytes :=
  match o with OpInsert i => {[i]} ∪ s | OpDelete i => s ∖ {[i]} end.

Section Histories.
Context `{Crypto}.

(** The tree after an operation; [None] is a panic or an error. *)
Definition apply_op (t : Tree) (o : tree_op) : option Tree :=
  match o with
  | OpInsert i => match Insert t i with Some (Ok t) => Some t | _ => None end
  | OpDelete i => Delete t i
  end.

Definition history (ops : list tree_op) : option Tree :=
  foldl (fun t o => t ≫= fun t => apply_op t o) (Some (mkTree None)) ops.

Lemma history_rep len ops :
  Forall (fun o => length (op_item o) = len) ops ->
  exists t, history ops = Some t /\ rep len t (foldl apply_set ∅ ops).
Proof.
  unfold history.
  assert (Hgen : forall t s, rep len t s -> Forall (fun o => length (op_item o) = len) ops ->
    exists t', foldl (fun t o => t ≫= fun t => apply_op t o) (Some t) ops = Some t' /\
      rep len t' (foldl apply_set s ops)).
  { induction ops as [|o ops IH]; intros t s Hr HF; simpl; [by exists t|].
    apply Forall_cons in HF as [Ho HF]. destruct o as [i|i]; simpl in *.
    - destruct (Insert_rep _ _ _ _ Hr Ho) as (t' & -> & Hr'). auto.
    - destruct (Delete_rep _ _ _ _ Hr Ho) as (t' & -> & Hr'). auto. }
  apply Hgen. split; [set_solver|done].
Qed.

(** C32: a tree that starts empty and sees any sequence of insertions and
    deletions of items of one length neither panics nor returns an error, and
    [Contains] answers as the set that saw the same sequence. *)
Theorem patricia_refines_set len ops :
  Forall (fun o => length (op_item o) = len) ops ->
  exists t, history ops = Some t /\
    forall item, length item = len ->
      Contains t item = Some (bool_decide (item ∈ foldl apply_set ∅ ops)).
Proof.
  intros HF. destruct (history_rep len ops HF) as (t & E & Hr). exists t. split; [done|].
  intros item Hi. by apply (Contains_rep len).
Qed.

(** the root hash is a function of the set of items: two histories that end in
    the same set have the same root, whatever their order, and whatever was
    inserted and deleted on the way. *)
Lemma patricia_root_history_independent len ops ops' t t' :
  Forall (fun o => length (op_item o) = len) ops -> Forall (fun o => length (op_item o) = len) ops' ->
  foldl apply_set ∅ ops = foldl apply_set ∅ ops' ->
  history ops = Some t -> history ops' = Some t' -> (RootHash t).2 = (RootHash t').2.
Proof.
  intros HF HF' Es E E'. destruct (history_rep len ops HF) as (u & Eu & Hr).
  destruct (history_rep len ops' HF') as (u' & Eu' & Hr'). rewrite <- Es in Hr'.
  simplify_eq. by apply (RootHash_eq len _ _ (foldl apply_set ∅ ops)).
Qed.

(** ** Commitment *)

(** The strings that are hashed in a tree. *)
Fixpoint hashed (n : node) : list bytes :=
  match n with
  | Leaf k _ => [leafPrefix ++ byteKey k]
  | Branch _ _ c0 c1 =>
      (interiorPrefix ++ Bytes (merkle_hash c0) ++ Bytes (merkle_hash c1)) :: hashed c0 ++ hashed c1
  end.

Definition tree_hashes (t : Tree) (x : bytes) : Prop :=
  match root t with Some n => x ∈ hashed n | None => False end.

Lemma merkle_hash_wf n : wf_hash (merkle_hash n).
Proof. destruct n; apply wf_NewHash. Qed.

Lemma merkle_hash_last n : exists x, x ∈ hashed n /\ merkle_hash n = sum_hash x.
Proof. destruct n; eexists; (split; [apply list_elem_of_here|done]). Qed.

Lemma hashed_collision (P Q : list bytes) x y :
  x ∈ P -> y ∈ Q -> x <> y -> sum_hash x = sum_hash y -> collision (.∈ P) (.∈ Q).
Proof. intros. by exists x, y. Qed.

Lemma merkle_hash_binding a : forall b,
  (forall k, k ∈ keys a \/ k ∈ keys b -> exists item, k = bitKey item) ->
  merkle_hash a = merkle_hash b ->
  (forall k, k ∈ keys a <-> k ∈ keys b) \/ collision (.∈ hashed a) (.∈ hashed b).
Proof.
  induction a as [k h|p h a0 IH0 a1 IH1]; intros [k' h'|p' h' b0 b1] Hk E; cbn [merkle_hash keys] in *.
  - destruct (Hk k) as [i ->]; [set_solver|]. destruct (Hk k') as [i' ->]; [set_solver|].
    destruct (decide (i = i')) as [->|Ne]; [by left|].
    right. eapply hashed_collision; [apply list_elem_of_here|apply list_elem_of_here| |exact E].
    rewrite !byteKey_bitKey. by intros ?%app_inv_head.
  - right. by eapply hashed_collision; [apply list_elem_of_here|apply list_elem_of_here| |exact E].
  - right. by eapply hashed_collision; [apply list_elem_of_here|apply list_elem_of_here| |exact E].
  - destruct (decide (interiorPrefix ++ Bytes (merkle_hash a0) ++ Bytes (merkle_hash a1)
               = interiorPrefix ++ Bytes (merkle_hash b0) ++ Bytes (merkle_hash b1))) as [Eq|Ne];
      [|right; by eapply hashed_collision; [apply list_elem_of_here|apply list_elem_of_here| |exact E]].
    apply app_inv_head, app_inj_1 in Eq as [E0 E1]; [|by rewrite !length_Byte32].
    apply Bytes_inj in E0, E1; [|apply merkle_hash_wf..].
    destruct (IH0 b0) as [K0|C]; [intros k Hk'; apply Hk; set_solver|done| |
      right; eapply collision_mono; [..|exact C]; simpl; set_solver].
    destruct (IH1 b1) as [K1|C]; [intros k Hk'; apply Hk; set_solver|done| |
      right; eapply collision_mono; [..|exact C]; simpl; set_solver].
    left. intros k. by rewrite !elem_of_app, K0, K1.
Qed.

(** C37: the root hash commits to the set: two trees with the same root hold the
    same items, unless two of the strings that are hashed in the trees are a
    collision of SHA3-256, or one of them has a digest that is all zero, which is
    the root of the empty tree. *)
Theorem patricia_root_binding len t t' s s' :
  rep len t s -> rep len t' s' -> (RootHash t).2 = (RootHash t').2 ->
  s = s' \/ collision (tree_hashes t) (tree_hashes t') \/
  exists x, (tree_hashes t x \/ tree_hashes t' x) /\ sum_hash x = zeroHash.
Proof.
  intros H1 H2. rewrite (RootHash_value _ _ _ H1), (RootHash_value _ _ _ H2). unfold tree_hashes.
  destruct H1 as [_ H1], H2 as [_ H2]. destruct (root t) as [n|], (root t') as [n'|]; intros E.
  - destruct H1 as (_ & _ & K1), H2 as (_ & _ & K2).
    destruct (merkle_hash_binding n n') as [Hk|]; [|done| |by auto].
    + intros k [Hk|Hk]; [apply K1 in Hk|apply K2 in Hk]; destruct Hk as (i & _ & ->); by exists i.
    + left. apply set_eq. intros i.
      assert (Hi : (exists i', i' ∈ s /\ bitKey i = bitKey i') <-> exists i', i' ∈ s' /\ bitKey i = bitKey i')
        by (by rewrite <- K1, <- K2).
      split; intros Hin; [destruct (proj1 Hi) as (j & Hj & ->%(inj bitKey))|
                          destruct (proj2 Hi) as (j & Hj & ->%(inj bitKey))]; eauto.
  - right; right. destruct (merkle_hash_last n) as (x & Hx & Ex). exists x. rewrite <- Ex. auto.
  - right; right. destruct (merkle_hash_last n') as (x & Hx & Ex). exists x. rewrite <- Ex. auto.
  - left. congruence.
Qed.

(** ** Walking *)

Lemma walk_collect n acc :
  walk (fun i l => (@None Empty_set, l ++ [i])) n acc = (None, acc ++ map byteKey (keys n)).
Proof.
  revert acc. induction n as [k h|k h c0 IH0 c1 IH1]; intros acc; simpl; [done|].
  rewrite IH0, IH1, map_app. by rewrite app_assoc.
Qed.

Lemma keys_nodup n : wf_node n -> NoDup (keys n).
Proof.
  induction n as [k h|k h c0 IH0 c1 IH1]; intros Hw; simpl; [apply NoDup_singleton|].
  apply NoDup_app. split_and!; [apply IH0, Hw| |apply IH1, Hw]. intros x H0 H1.
  pose proof (keys_child_prefix k h c0 c1 false x Hw H0) as P0.
  pose proof (keys_child_prefix k h c0 c1 true x Hw H1) as P1. by pose proof (prefix_bit _ _ _ _ P0 P1).
Qed.

(** [Walk] calls its function once for each item of the tree and for nothing
    else, and passes the item as it was given to [Insert]. *)
Lemma Walk_visits_items len t s :
  rep len t s ->
  exists l, Walk t (fun i l => (@None Empty_set, l ++ [i])) [] = (None, l) /\
    NoDup l /\ list_to_set l = s.
Proof.
  intros [_ Hr]. unfold Walk. destruct (root t) as [n|].
  - destruct Hr as (Hw & _ & Hk). rewrite walk_collect. eexists. split; [done|].
    assert (Hid : keys n = map bitKey (map byteKey (keys n))).
    { rewrite map_map. rewrite <- (map_id (keys n)) at 1. apply map_ext_in. intros k Hin.
      apply list_elem_of_In, Hk in Hin as (i & _ & ->). by rewrite byteKey_bitKey. }
    split.
    + pose proof (keys_nodup n Hw) as Hnd. rewrite Hid in Hnd. by apply NoDup_fmap_1 in Hnd.
    + apply set_eq. intros i. rewrite elem_of_list_to_set. split.
      * intros Hi. apply list_elem_of_fmap in Hi as (k & -> & Hin). apply Hk in Hin as (j & Hj & ->).
        by rewrite byteKey_bitKey.
      * intros Hi. apply list_elem_of_fmap. exists (bitKey i). rewrite byteKey_bitKey. split; [done|].
        apply Hk. by exists i.
  - exists []. split; [done|]. split; [constructor|]. by subst s.
Qed.
End Histories.

(** ** Examples *)

Definition ops_ab : list tree_op := [OpInsert [x61]; OpInsert [x62]].
Definition ops_ba : list tree_op := [OpInsert [x62]; OpInsert [x63]; OpInsert [x61]; OpDelete [x63]].

Lemma patricia_refines_set_witness :
  exists t, history (H := toy_crypto) ops_ba = Some t /\
    Contains (H := toy_crypto) t [x61] = Some true /\ Contains (H := toy_crypto) t [x63] = Some false.
Proof.
  destruct (patricia_refines_set (H := toy_crypto) 1 ops_ba) as (t & E & Hc); [repeat constructor|].
  exists t. split; [exact E|]. rewrite !Hc by reflexivity. split; vm_compute; reflexivity.
Defined.

Lemma patricia_root_history_independent_witness :
  exists t t', history (H := toy_crypto) ops_ab = Some t /\ history (H := toy_crypto) ops_ba = Some t' /\
    (RootHash (H := toy_crypto) t).2 = (RootHash (H := toy_crypto) t').2.
Proof.
  destruct (history_rep (H := toy_crypto) 1 ops_ab) as (t & E & _); [repeat constructor|].
  destruct (history_rep (H := toy_crypto) 1 ops_ba) as (t' & E' & _); [repeat constructor|].
  exists t, t'. split; [exact E|]. split; [exact E'|].
  apply (patricia_root_history_independent (H := toy_crypto) 1 ops_ab ops_ba t t');
    [repeat constructor|repeat constructor|vm_compute; reflexivity|exact E|exact E'].
Defined.

(** A tree with one item. *)
Definition tree_a : Tree := mkTree (Some (Leaf (bitKey [x61]) (leaf_hash (H := toy_crypto) [x61]))).

Lemma tree_a_rep : rep (H := toy_crypto) 1 tree_a {[ [x61] ]}.
Proof.
  split; [set_solver|]. split; [done|]. split; [vm_compute; reflexivity|].
  intros k. simpl. rewrite list_elem_of_singleton. set_solver.
Qed.

Lemma patricia_root_binding_witness :
  ({[ [x61] ]} : gset bytes) = {[ [x61] ]} \/
  collision (H := toy_crypto) (tree_hashes (H := toy_crypto) tree_a) (tree_hashes (H := toy_crypto) tree_a) \/
  exists x, (tree_hashes (H := toy_crypto) tree_a x \/ tree_hashes (H := toy_crypto) tree_a x) /\
    sum_hash (H := toy_crypto) x = zeroHash.
Proof. apply (patricia_root_binding (H := toy_crypto) 1 tree_a tree_a _ _ tree_a_rep tree_a_rep eq_refl). Defined.

(** the documentation of [Insert] says that it is an error to insert a prefix of
    an element.  When the prefix ends inside the key of a node, the code indexes
    past the end of the new key instead and panics; so do [Contains] and [Delete]
    on an extension of an element, where they follow a child pointer of a leaf. *)
Lemma patricia_prefix_panics :
  Insert (H := toy_crypto) tree_a [] = None /\
  Contains (H := toy_crypto) tree_a [x61; x62] = None /\
  Delete tree_a [x61; x62] = None /\
  Insert (H := toy_crypto) tree_a [x61; x62] = Some (Err ErrPrefix).
Proof. vm_compute. by split_and!. Qed.
