(* ===== verification/Snapshot.v ===== *)
(** * State snapshots: [protocol/state/snapshot.go]

    A snapshot is the set of unspent output identifiers, held in a tree, and the
    nonces that have not expired.  The operations update it in place, also when
    they fail half way; the model returns the snapshot after the call next to the
    error.  The tree is used through the interface [StateTree]. *)

From Stdlib Require Import ZArith Lia.
From stdpp Require Import gmap.
From S2P Require Import Prelude Crypto Encoding Bc StateTree Patricia.

(** The errors of [ApplyTx]; messages are not modelled. *)
Inductive apply_err :=
| ConflictingNonce (n : Hash)
| ApplyingNonce (e : txerr)
| InvalidPrevout (id : Hash)
| TreeError.

Section Snapshot.
Context {T : Type} `{StateTree T}.

Record Snapshot := mkSnapshot { snap_Tree : T; Nonces : gmap Hash Z }.

(** Run in a snapshot: a result with the snapshot after the call, or a panic. *)
Definition SM (A : Type) : Type := Snapshot -> option (result apply_err A * Snapshot).

#[export] Instance SM_ret : MRet SM := fun A a s => Some (Ok a, s).
#[export] Instance SM_bind : MBind SM := fun A B f m s =>
  match m s with
  | Some (Ok a, s) => f a s
  | Some (Err e, s) => Some (Err e, s)
  | None => None
  end.

Definition sfail {A} (e : apply_err) : SM A := fun s => Some (Err e, s).
Definition spanic {A} : SM A := fun _ => None.

Fixpoint for_each {A} (f : A -> SM unit) (l : list A) : SM unit :=
  match l with
  | [] => mret tt
  | a :: l => f a;; for_each f l
  end.

(** Deleting from a map while ranging over it leaves the other keys. *)
Definition PruneNonces (timestampMS : Z) (s : Snapshot) : Snapshot :=
  mkSnapshot (snap_Tree s) (filter (fun '(_, expiryMS) => (timestampMS >? expiryMS) = false) (Nonces s)).

(** The tree is persistent, and the map is copied. *)
Definition Copy (original : Snapshot) : Snapshot := mkSnapshot (snap_Tree original) (Nonces original).

Definition Empty : Snapshot := mkSnapshot tree_empty ∅.

Definition of_tx {A} (r : result txerr A) : SM A :=
  match r with Ok a => mret a | Err e => sfail (ApplyingNonce e) end.

Definition set_nonce (n : Hash) (expiryMS : Z) : SM unit := fun s =>
  Some (Ok tt, mkSnapshot (snap_Tree s) (<[n := expiryMS]> (Nonces s))).

Definition add_nonce (tx : Tx) (n : Hash) : SM unit := fun s =>
  match Nonces s !! n with
  | Some _ => Some (Err (ConflictingNonce n), s)
  | None =>
      (nonce ← of_tx (Tx_Nonce tx n);
       match TimeRangeId nonce with
       | None => spanic
       | Some trID =>
           tr ← of_tx (Tx_TimeRange tx trID);
           set_nonce n (MaxTimeMs tr)
       end) s
  end.

Definition spend_prevout (prevout : Hash) : SM unit := fun s =>
  match tree_Contains (snap_Tree s) (Bytes prevout) with
  | None => None
  | Some false => Some (Err (InvalidPrevout prevout), s)
  | Some true =>
      match tree_Delete (snap_Tree s) (Bytes prevout) with
      | None => None
      | Some t => Some (Ok tt, mkSnapshot t (Nonces s))
      end
  end.

(** A missing entry is the nil interface, which is not an output. *)
Definition is_output (tx : Tx) (id : Hash) : bool :=
  match Entries tx !! id with Some (Some (EOutput _)) => true | _ => false end.

Definition add_result (tx : Tx) (id : option Hash) : SM unit := fun s =>
  match id with
  | None => None
  | Some id =>
      if is_output tx id then
        match tree_Insert (snap_Tree s) (Bytes id) with
        | None => None
        | Some (Err _) => Some (Err TreeError, s)
        | Some (Ok t) => Some (Ok tt, mkSnapshot t (Nonces s))
        end
      else Some (Ok tt, s)
  end.

Definition ApplyTx (tx : Tx) : SM unit :=
  for_each (add_nonce tx) (NonceIDs tx);;
  for_each spend_prevout (SpentOutputIDs tx);;
  for_each (add_result tx) (ResultIds (Header tx)).

Definition ApplyBlock (block : Block) : SM unit := fun s =>
  for_each ApplyTx (Transactions block) (PruneNonces (TimestampMs (BlockHdr block)) s).
End Snapshot.

(** ** What applying a transaction means *)

(** The expiry of a nonce of the transaction, when its entries are there. *)
Definition nonce_expiry (tx : Tx) (n : Hash) : option Z :=
  match Tx_Nonce tx n with
  | Ok nonce =>
      match TimeRangeId nonce with
      | Some trID => match Tx_TimeRange tx trID with Ok tr => Some (MaxTimeMs tr) | Err _ => None end
      | None => None
      end
  | Err _ => None
  end.

(** The pointers that [ApplyTx] follows without a check. *)
Definition no_nil (tx : Tx) : Prop :=
  (forall n nonce, n ∈ NonceIDs tx -> Tx_Nonce tx n = Ok nonce -> TimeRangeId nonce <> None) /\
  (forall id, id ∈ ResultIds (Header tx) -> id <> None).

(** The identifiers of the outputs among the results, as bytes. *)
Definition outputs (tx : Tx) : list bytes :=
  omap (fun id => match id with
                  | Some id => if is_output tx id then Some (Bytes id) else None
                  | None => None
                  end) (ResultIds (Header tx)).

Definition spent (tx : Tx) : list bytes := map Bytes (SpentOutputIDs tx).

(** A transaction applies to unspent outputs [u] and nonces [ns]: its nonces are
    new, and it spends distinct outputs that exist. *)
Definition tx_applies (tx : Tx) (u : gset bytes) (ns : gmap Hash Z) : Prop :=
  NoDup (NonceIDs tx) /\
  (forall n, n ∈ NonceIDs tx -> ns !! n = None /\ is_Some (nonce_expiry tx n)) /\
  NoDup (spent tx) /\ (forall o, o ∈ spent tx -> o ∈ u).

Definition tx_utxo (tx : Tx) (u : gset bytes) : gset bytes :=
  (u ∖ list_to_set (spent tx)) ∪ list_to_set (outputs tx).

Fixpoint add_nonces (tx : Tx) (l : list Hash) (ns : gmap Hash Z) : gmap Hash Z :=
  match l with
  | [] => ns
  | n :: l => add_nonces tx l (<[n := default 0 (nonce_expiry tx n)]> ns)
  end.

Definition tx_nonces (tx : Tx) (ns : gmap Hash Z) : gmap Hash Z := add_nonces tx (NonceIDs tx) ns.

(** ** The loops of [ApplyTx] *)

Section Apply.
Context {T : Type} `{StateTreeLaws T}.

Notation Snap := (Snapshot (T := T)).

(** [s] holds the unspent outputs [u]. *)
Definition holds (s : Snap) (u : gset bytes) : Prop := tree_rep 32 (snap_Tree s) u.

Lemma length_Bytes id : length (Bytes id) = 32%nat.
Proof. apply length_Byte32. Qed.

Lemma nonces_loop tx l : forall s : Snap,
  (forall n nonce, n ∈ l -> Tx_Nonce tx n = Ok nonce -> TimeRangeId nonce <> None) ->
  exists r s', for_each (add_nonce tx) l s = Some (r, s') /\ snap_Tree s' = snap_Tree s /\
    (r = Ok tt <-> NoDup l /\ forall n, n ∈ l -> Nonces s !! n = None /\ is_Some (nonce_expiry tx n)) /\
    (r = Ok tt -> Nonces s' = add_nonces tx l (Nonces s)).
Proof.
  induction l as [|n l IH]; intros s Hnil; simpl.
  { eexists _, s. split; [done|]. split; [done|]. split; [|done].
    split; [|done]. intros _. split; [constructor|set_solver]. }
  unfold mbind, SM_bind, add_nonce at 1. destruct (Nonces s !! n) as [x|] eqn:En.
  { eexists _, s. split; [done|]. split; [done|]. split; [|done].
    split; [done|]. intros [_ Hall]. destruct (Hall n) as [? _]; [set_solver|congruence]. }
  assert (Hne : forall e, nonce_expiry tx n = None ->
    (@Err apply_err unit e = Ok tt <-> NoDup (n :: l) /\
      forall m, m ∈ n :: l -> Nonces s !! m = None /\ is_Some (nonce_expiry tx m))).
  { intros e E. split; [done|]. intros [_ Hall]. destruct (Hall n) as [_ [y Hy]]; [set_solver|congruence]. }
  unfold nonce_expiry in Hne at 1. unfold mbind, SM_bind.
  destruct (Tx_Nonce tx n) as [nonce|e] eqn:Etx; simpl.
  2: { eexists _, s. split; [done|]. split; [done|]. split; [by apply Hne|done]. }
  destruct (TimeRangeId nonce) as [trID|] eqn:Etr; [|exfalso; exact (Hnil n nonce (list_elem_of_here _ _) Etx Etr)].
  destruct (Tx_TimeRange tx trID) as [tr|e] eqn:Erange; simpl.
  2: { eexists _, s. split; [done|]. split; [done|]. split; [by apply Hne|done]. }
  assert (Ex : nonce_expiry tx n = Some (MaxTimeMs tr)) by (unfold nonce_expiry; by rewrite Etx, Etr, Erange).
  destruct (IH (mkSnapshot (snap_Tree s) (<[n := MaxTimeMs tr]> (Nonces s)))) as (r & s' & E & Ht & Hiff & Hok).
  { intros m nonce' Hm. apply Hnil. set_solver. }
  exists r, s'. split; [done|]. split; [done|]. simpl in *. split.
  - rewrite Hiff, NoDup_cons. split.
    + intros [Hnd Hall]. split.
      * split; [|done]. intros Hin. destruct (Hall n Hin) as [Hl _]. by rewrite lookup_insert_eq in Hl.
      * intros m [->|Hm]%elem_of_cons; [rewrite Ex; by eauto|].
        destruct (Hall m Hm) as [Hl ?]. split; [|done]. destruct (decide (m = n)) as [->|Hmn].
        -- by rewrite lookup_insert_eq in Hl.
        -- by rewrite lookup_insert_ne in Hl.
    + intros [[Hnin Hnd] Hall]. split; [done|]. intros m Hm. destruct (Hall m) as [? ?]; [set_solver|].
      split; [|done]. rewrite lookup_insert_ne; [done|]. by intros ->.
  - intros Hr. rewrite Hok by done. by rewrite Ex.
Qed.

Lemma spend_loop l : forall (s : Snap) u,
  holds s u ->
  exists r s', for_each spend_prevout l s = Some (r, s') /\ Nonces s' = Nonces s /\
    (r = Ok tt <-> NoDup (map Bytes l) /\ forall o, o ∈ map Bytes l -> o ∈ u) /\
    (r = Ok tt -> holds s' (u ∖ list_to_set (map Bytes l))).
Proof.
  induction l as [|id l IH]; intros s u Hs; simpl.
  { eexists _, s. split; [done|]. split; [done|]. split.
    - split; [|done]. intros _. split; [constructor|set_solver].
    - intros _. by replace (u ∖ ∅) with u by set_solver. }
  unfold mbind, SM_bind, spend_prevout at 1.
  rewrite (tree_rep_Contains 32 _ u) by (try done; apply length_Bytes).
  destruct (decide (Bytes id ∈ u)) as [Hin|Hout].
  - rewrite bool_decide_eq_true_2 by done.
    destruct (tree_rep_Delete 32 _ u (Bytes id) Hs (length_Bytes id)) as (t' & -> & Ht').
    destruct (IH (mkSnapshot t' (Nonces s)) _ Ht') as (r & s' & E & Hn & Hiff & Hok).
    exists r, s'. split; [done|]. split; [done|]. split.
    + rewrite Hiff, NoDup_cons. split.
      * intros [Hnd Hall]. split; [split; [|done]|].
        -- intros Hx%Hall. by apply elem_of_difference in Hx as [_ []%not_elem_of_singleton].
        -- intros o [->|Ho]%elem_of_cons; [done|]. by apply Hall, elem_of_difference in Ho as [? _].
      * intros [[Hx Hnd] Hall]. split; [done|]. intros o Ho. apply elem_of_difference.
        split; [apply Hall; by right|]. by intros ->%elem_of_singleton.
    + intros Hr. replace (u ∖ ({[Bytes id]} ∪ list_to_set (map Bytes l)))
        with ((u ∖ {[Bytes id]}) ∖ list_to_set (map Bytes l)) by set_solver. auto.
  - rewrite bool_decide_eq_false_2 by done. eexists _, s. split; [done|]. split; [done|].
    split; [|done]. split; [done|]. intros [_ Hall]. exfalso. apply Hout, Hall. set_solver.
Qed.

Lemma results_loop tx l : forall (s : Snap) u,
  holds s u -> (forall id, id ∈ l -> id <> None) ->
  exists s', for_each (add_result tx) l s = Some (Ok tt, s') /\ Nonces s' = Nonces s /\
    holds s' (u ∪ list_to_set (omap (fun id => match id with
                  | Some id => if is_output tx id then Some (Bytes id) else None
                  | None => None
                  end) l)).
Proof.
  induction l as [|id l IH]; intros s u Hs Hnil; simpl.
  { exists s. split; [done|]. split; [done|]. by replace (u ∪ ∅) with u by set_solver. }
  destruct id as [id|]; [|exfalso; apply (Hnil None); [set_solver|done]].
  unfold mbind, SM_bind, add_result at 1. destruct (is_output tx id).
  - destruct (tree_rep_Insert 32 _ u (Bytes id) Hs (length_Bytes id)) as (t' & -> & Ht').
    destruct (IH (mkSnapshot t' (Nonces s)) _ Ht') as (s' & E & Hn & Hh); [set_solver|].
    exists s'. split; [done|]. split; [done|]. simpl.
    by replace (u ∪ _) with (({[Bytes id]} ∪ u) ∪ list_to_set (omap (fun id => match id with
                  | Some id => if is_output tx id then Some (Bytes id) else None
                  | None => None
                  end) l)) by set_solver.
  - destruct (IH s u Hs) as (s' & E & Hn & Hh); [set_solver|]. by exists s'.
Qed.

(** [ApplyTx] as a whole. *)
Lemma ApplyTx_applies tx (s : Snap) u :
  holds s u -> no_nil tx ->
  exists r s', ApplyTx tx s = Some (r, s') /\
    (r = Ok tt <-> tx_applies tx u (Nonces s)) /\
    (r = Ok tt -> holds s' (tx_utxo tx u) /\ Nonces s' = tx_nonces tx (Nonces s)).
Proof.
  intros Hs [Hn1 Hn2]. unfold ApplyTx, tx_applies, mbind, SM_bind.
  destruct (nonces_loop tx (NonceIDs tx) s Hn1) as (r1 & s1 & -> & T1 & I1 & O1).
  destruct r1 as [[]|e1].
  2: { eexists _, s1. split; [done|]. split; [|done]. split; [done|]. intros (? & ? & _).
       by discriminate (proj2 I1). }
  assert (Hs1 : holds s1 u) by (unfold holds; by rewrite T1).
  destruct (spend_loop (SpentOutputIDs tx) s1 u Hs1) as (r2 & s2 & -> & N2 & I2 & O2).
  destruct r2 as [[]|e2].
  2: { eexists _, s2. split; [done|]. split; [|done]. split; [done|]. intros (_ & _ & ? & ?).
       by discriminate (proj2 I2). }
  destruct (results_loop tx (ResultIds (Header tx)) s2 _ (O2 eq_refl) Hn2) as (s3 & -> & N3 & H3).
  eexists _, s3. split; [done|]. destruct (proj1 I1 eq_refl), (proj1 I2 eq_refl).
  split; [done|]. intros _. split; [done|]. rewrite N3, N2. by apply O1.
Qed.

(** [ApplyTx] implements the ledger: it succeeds exactly when the nonces of the
    transaction are new and backed by their entries, and the outputs it spends are
    distinct and unspent; the unspent outputs are then the old ones without those
    it spends, and with its own, and the nonces are remembered until the end of
    their time range.  In particular an output cannot be spent twice. *)
Lemma ApplyTx_refines tx (s : Snap) u :
  holds s u -> no_nil tx ->
  exists r s', ApplyTx tx s = Some (r, s') /\
    (r = Ok tt <-> tx_applies tx u (Nonces s)) /\
    (r = Ok tt -> holds s' (tx_utxo tx u) /\ Nonces s' = tx_nonces tx (Nonces s) /\
       forall o, o ∈ spent tx -> o ∈ u /\ (o ∉ outputs tx -> o ∉ tx_utxo tx u)).
Proof.
  intros Hs Hn. destruct (ApplyTx_applies tx s u Hs Hn) as (r & s' & E & Hiff & Hok).
  exists r, s'. split; [done|]. split; [done|]. intros Hr. destruct (Hok Hr) as [Hh Hns].
  split; [done|]. split; [done|]. apply Hiff in Hr as (_ & _ & _ & Hu).
  intros o Ho. split; [auto|]. unfold tx_utxo. set_solver.
Qed.

(** The transactions of a block, one after the other. *)
Fixpoint block_applies (txs : list Tx) (u : gset bytes) (ns : gmap Hash Z) : Prop :=
  match txs with
  | [] => True
  | tx :: txs => tx_applies tx u ns /\ block_applies txs (tx_utxo tx u) (tx_nonces tx ns)
  end.

Definition block_utxo (txs : list Tx) (u : gset bytes) : gset bytes :=
  foldl (fun u tx => tx_utxo tx u) u txs.
Definition block_nonces (txs : list Tx) (ns : gmap Hash Z) : gmap Hash Z :=
  foldl (fun ns tx => tx_nonces tx ns) ns txs.

Lemma apply_txs txs : forall (s : Snap) u,
  holds s u -> Forall no_nil txs ->
  exists r s', for_each ApplyTx txs s = Some (r, s') /\
    (r = Ok tt <-> block_applies txs u (Nonces s)) /\
    (r = Ok tt -> holds s' (block_utxo txs u) /\ Nonces s' = block_nonces txs (Nonces s)).
Proof.
  induction txs as [|tx txs IH]; intros s u Hs Hn; simpl.
  { by eexists _, s. }
  apply Forall_cons in Hn as [Hn1 Hn]. unfold mbind, SM_bind.
  destruct (ApplyTx_applies tx s u Hs Hn1) as (r & s1 & -> & Hiff & Hok). destruct r as [[]|e].
  - destruct (Hok eq_refl) as [H1 N1]. destruct (IH s1 _ H1 Hn) as (r & s2 & -> & Hiff2 & Hok2).
    rewrite N1 in *. exists r, s2. split; [done|]. split; [|done]. rewrite Hiff2.
    split; [|by intros [_ ?]]. intros ?. split; [by apply Hiff|done].
  - eexists _, s1. split; [done|]. split; [|done]. split; [done|]. intros [Ht _].
    by discriminate (proj2 Hiff Ht).
Qed.

Lemma ApplyBlock_applies b (s : Snap) u :
  holds s u -> Forall no_nil (Transactions b) ->
  let ns := filter (fun '(_, expiryMS) => TimestampMs (BlockHdr b) <= expiryMS) (Nonces s) in
  exists r s', ApplyBlock b s = Some (r, s') /\
    (r = Ok tt <-> block_applies (Transactions b) u ns) /\
    (r = Ok tt -> holds s' (block_utxo (Transactions b) u) /\
                  Nonces s' = block_nonces (Transactions b) ns).
Proof.
  intros Hs Hn ns. unfold ApplyBlock.
  assert (Hp : Nonces (PruneNonces (TimestampMs (BlockHdr b)) s) = ns).
  { apply map_filter_ext. intros i x _. rewrite Z.gtb_ltb, Z.ltb_ge. done. }
  rewrite <- Hp. by apply apply_txs.
Qed.

(** C7: [ApplyBlock] first forgets the nonces that have expired before the block's
    timestamp, and then applies the transactions in order; it succeeds exactly
    when each applies to the state its predecessors leave. *)
Theorem ApplyBlock_refines b (s : Snap) u :
  holds s u -> Forall no_nil (Transactions b) ->
  let ns := filter (fun '(_, expiryMS) => TimestampMs (BlockHdr b) <= expiryMS) (Nonces s) in
  exists r s', ApplyBlock b s = Some (r, s') /\
    (r = Ok tt <-> block_applies (Transactions b) u ns) /\
    (r = Ok tt -> holds s' (block_utxo (Transactions b) u) /\
                  Nonces s' = block_nonces (Transactions b) ns).
Proof. apply ApplyBlock_applies. Qed.

End Apply.

(** ** Examples, with the Patricia tree *)

#[local] Existing Instance toy_crypto.

Definition id1 : Hash := mkHash 1 0 0 0.
Definition id2 : Hash := mkHash 2 0 0 0.

(** A snapshot with one unspent output, and a transaction that replaces it. *)
Definition demo_snapshot : Snapshot (T := Tree) :=
  mkSnapshot (mkTree (Some (Leaf (bitKey (Bytes id1)) (leaf_hash (Bytes id1))))) ∅.

Definition demo_tx : Tx :=
  mkTx (NewTxHeader 1 [Some id2] None 0 0) zeroHash
    {[ id2 := Some (EOutput (NewOutput None None None 0)) ]} [] [] [id1].

Lemma demo_holds : holds demo_snapshot {[ Bytes id1 ]}.
Proof.
  destruct (Insert_rep 32 (mkTree None) ∅ (Bytes id1)) as (t & E & Hr).
  - split; [set_solver|done].
  - apply length_Byte32.
  - injection E as <-. by replace ({[Bytes id1]} ∪ ∅) with ({[Bytes id1]} : gset bytes) in Hr by set_solver.
Qed.

Lemma demo_no_nil : no_nil demo_tx.
Proof. split; simpl; [set_solver|]. intros id ->%list_elem_of_singleton. done. Qed.

Lemma demo_applies : tx_applies demo_tx {[ Bytes id1 ]} ∅.
Proof. split_and!; simpl; [constructor|set_solver|apply NoDup_singleton|set_solver]. Qed.

Lemma ApplyTx_refines_witness :
  exists s', ApplyTx demo_tx demo_snapshot = Some (Ok tt, s') /\
    holds s' (tx_utxo demo_tx {[ Bytes id1 ]}).
Proof.
  destruct (ApplyTx_refines demo_tx demo_snapshot {[ Bytes id1 ]} demo_holds demo_no_nil)
    as (r & s' & E & Hiff & Hok).
  assert (r = Ok tt) as -> by (apply Hiff; exact demo_applies).
  exists s'. split; [exact E|]. apply Hok. reflexivity.
Defined.

Definition demo_block : Block := mkBlock (NewBlockHeader 1 2 None 5 None None []) zeroHash [demo_tx].

Lemma ApplyBlock_refines_witness :
  exists s', ApplyBlock demo_block demo_snapshot = Some (Ok tt, s') /\
    holds s' (block_utxo [demo_tx] {[ Bytes id1 ]}).
Proof.
  destruct (ApplyBlock_refines demo_block demo_snapshot {[ Bytes id1 ]} demo_holds)
    as (r & s' & E & Hiff & Hok); [repeat constructor; apply demo_no_nil|].
  assert (r = Ok tt) as -> by (apply Hiff; split; [exact demo_applies|exact I]).
  exists s'. split; [exact E|]. apply Hok. reflexivity.
Defined.

(** the comment in [ApplyTx] says that new outputs must not yet be present, but
    nothing checks it: a transaction whose output is unspent already is applied
    without an error, and leaves the state as it was. *)
Lemma ApplyTx_accepts_existing_output :
  let tx := mkTx (NewTxHeader 1 [Some id1] None 0 0) zeroHash
              {[ id1 := Some (EOutput (NewOutput None None None 0)) ]} [] [] [] in
  tree_Contains (snap_Tree demo_snapshot) (Bytes id1) = Some true /\
  ApplyTx tx demo_snapshot = Some (Ok tt, demo_snapshot).
Proof. split; vm_compute; reflexivity. Qed.
