(* ===== verification/TxContext.v ===== *)
(** * Execution contexts: [protocol/validation/vmcontext.go]

    How a block or an entry of a transaction is presented to the virtual machine.
    A [vmctx] is a [vm.Context] with the byte strings themselves; [load] places
    each of them in an array of its own and gives the machine's slices.  Following
    a nil pointer, or a type assertion that fails, is a panic ([None]). *)

From Stdlib Require Import ZArith Lia Strings.Byte.
From stdpp Require Import gmap.
From S2P Require Import Prelude Checked GoSlice Crypto VMCode.
From S2P Require VM VMRun.
From S2P Require Import VMCost VMTerm.
From S2P Require Import Encoding Bc.

(** An entry of a map or a slice that may be missing, or nil. *)
Definition ojoin {A} (o : option (option A)) : option A := match o with Some x => x | None => None end.

(** [entries[id]], with the flag that tells whether the key is there. *)
Definition entry_at (entries : gmap Hash (option Entry)) (id : Hash) : option (option Entry) :=
  entries !! id.

Record vmctx := mkVmctx {
  c_VMVersion : Z;
  c_Code : bytes;
  c_Arguments : list bytes;
  c_EntryID : bytes;
  c_TxVersion : option Z;
  c_BlockHash : option bytes;
  c_BlockTimeMS : option Z;
  c_NextConsensusProgram : option bytes;
  c_NumResults : option Z;
  c_AssetID : option bytes;
  c_Amount : option Z;
  c_MinTimeMS : option Z;
  c_MaxTimeMS : option Z;
  c_EntryData : option bytes;
  c_TxData : option bytes;
  c_DestPos : option Z;
  c_AnchorID : option bytes;
  c_SpentOutputID : option bytes;
  c_TxSigHash : option bytes;
  c_CheckOutput : option (Z -> bytes -> Z -> bytes -> Z -> bytes -> bool -> option (result vmerr bool));
}.

(** ** Blocks *)

Definition newBlockVMContext (block : Block) (prog : bytes) (args : list bytes) : vmctx :=
  mkVmctx 1 prog args [] None (Some (Bytes (block_ID block))) (Some (TimestampMs (BlockHdr block)))
    (Some (NextConsensusProgram (BlockHdr block))) None None None None None None None None None None
    None None.

(** ** [checkOutput] *)

Section Context.
Context `{Crypto}.

Section CheckOutput.
Context (entries : gmap Hash (option Entry)).
Context (index : Z) (data : bytes) (amount : Z) (assetID : bytes) (vmVersion : Z) (code : bytes)
  (expansion : bool).

(** The conjunction is evaluated from left to right. *)
Definition check (prog : option Program) (value : option AssetAmount) (dataHash : option Hash) :
    option bool :=
  p ← prog;
  if negb (VmVersion p =? vmVersion) then Some false
  else if negb (bool_decide (Code p = code)) then Some false
  else
    v ← value;
    a ← AssetId v;
    if negb (bool_decide (Bytes a = assetID)) then Some false
    else if negb (Amount v =? amount) then Some false
    else if zlen data =? 0 then Some true
    else d ← dataHash; Some (bool_decide (Bytes d = data)).

Definition checkEntry (e : option Entry) : option (result vmerr bool) :=
  match e with
  | Some (EOutput o) =>
      src ← out_Source o; b ← check (ControlProgram o) (src_Value src) (out_Data o); Some (Ok b)
  | Some (ERetirement r) =>
      src ← ret_Source r;
      b ← check (Some (mkProgram 0 (if expansion then code else []))) (src_Value src) (ret_Data r);
      Some (Ok b)
  | _ => Some (Err ErrContext)
  end.

Definition checkMux (m : Mux) : option (result vmerr bool) :=
  if zlen (WitnessDestinations m) <=? index then Some (Err ErrBadValue)
  else
    d ← ojoin (nth_error (WitnessDestinations m) (Z.to_nat index));
    eID ← dest_Ref d;
    match entry_at entries eID with
    | None => Some (Err VMCode.ErrMissingEntry)
    | Some e => checkEntry e
    end.

(** The destination of an issuance or a spend. *)
Definition checkDest (wd : option ValueDestination) : option (result vmerr bool) :=
  d ← wd;
  r ← dest_Ref d;
  match entry_at entries r with
  | None => Some (Err VMCode.ErrMissingEntry)
  | Some (Some (EMux m)) => checkMux m
  | Some e => if negb (index =? 0) then Some (Err ErrBadValue) else checkEntry e
  end.

Definition checkOutput (entry : Entry) : option (result vmerr bool) :=
  match entry with
  | EMux m => checkMux m
  | EIssuance i => checkDest (iss_WitnessDestination i)
  | ESpend s => checkDest (sp_WitnessDestination s)
  | _ => Some (Err ErrContext)
  end.
End CheckOutput.

(** ** Transactions *)

(** The fields that depend on the type of the entry: asset, amount, data, position,
    anchor, spent output. *)
Record entry_fields := mkEntryFields {
  f_assetID : option bytes;
  f_amount : option Z;
  f_entryData : option bytes;
  f_destPos : option Z;
  f_anchorID : option bytes;
  f_spentOutputID : option bytes;
}.

Definition entryFields (tx : Tx) (entry : Entry) : option entry_fields :=
  match entry with
  | ENonce n =>
      id ← nonce_WitnessAnchoredId n;
      match ojoin (entry_at (Entries tx) id) with
      | Some (EIssuance iss) =>
          v ← iss_Value iss; a ← AssetId v;
          Some (mkEntryFields (Some (Bytes a)) (Some (Amount v)) None None None None)
      | _ => Some (mkEntryFields None None None None None None)
      end
  | EIssuance e =>
      v ← iss_Value e; a ← AssetId v; wd ← iss_WitnessDestination e; d ← iss_Data e; an ← AnchorId e;
      Some (mkEntryFields (Some (Bytes a)) (Some (Amount v)) (Some (Bytes d)) (Some (dest_Position wd))
              (Some (Bytes an)) None)
  | ESpend e =>
      id ← SpentOutputId e;
      match ojoin (entry_at (Entries tx) id) with
      | Some (EOutput o) =>
          src ← out_Source o; v ← src_Value src; a ← AssetId v; wd ← sp_WitnessDestination e;
          d ← sp_Data e;
          Some (mkEntryFields (Some (Bytes a)) (Some (Amount v)) (Some (Bytes d))
                  (Some (dest_Position wd)) None (Some (Bytes id)))
      | _ => None
      end
  | EOutput e => d ← out_Data e; Some (mkEntryFields None None (Some (Bytes d)) None None None)
  | ERetirement e => d ← ret_Data e; Some (mkEntryFields None None (Some (Bytes d)) None None None)
  | _ => Some (mkEntryFields None None None None None None)
  end.

Definition NewTxVMContext (tx : Tx) (entry : Entry) (prog : option Program) (args : list bytes) :
    option vmctx :=
  txData ← tx_Data (Header tx);
  entryID ← EntryID (Some entry);
  f ← entryFields tx entry;
  p ← prog;
  Some (mkVmctx (VmVersion p) (Code p) args (Bytes entryID) (Some (tx_Version (Header tx)))
          None None None (Some (zlen (ResultIds (Header tx)))) (f_assetID f) (f_amount f)
          (Some (tx_MinTimeMs (Header tx))) (Some (tx_MaxTimeMs (Header tx))) (f_entryData f)
          (Some (Bytes txData)) (f_destPos f) (f_anchorID f) (f_spentOutputID f)
          (Some (Bytes (sum_hash (Bytes entryID ++ Bytes (tx_ID tx)))))
          (Some (fun index data amount assetID vmVersion code expansion =>
                   checkOutput (Entries tx) index data amount assetID vmVersion code expansion entry))).

(** ** Loading a context *)

Fixpoint new_slices (h : heap) (l : list bytes) : list slice * heap :=
  match l with
  | [] => ([], h)
  | bs :: l =>
      let '(s, h) := new_slice h bs in
      let '(ss, h) := new_slices h l in
      (s :: ss, h)
  end.

Definition new_opt (h : heap) (o : option bytes) : option slice * heap :=
  match o with None => (None, h) | Some bs => let '(s, h) := new_slice h bs in (Some s, h) end.

(** Array 0 is the package variable [trueBytes]. *)
Definition load (c : vmctx) : heap * VM.Context :=
  let h := [[x01]] in
  let '(code, h) := new_slice h (c_Code c) in
  let '(args, h) := new_slices h (c_Arguments c) in
  let '(entryID, h) := new_slice h (c_EntryID c) in
  let '(blockHash, h) := new_opt h (c_BlockHash c) in
  let '(nextProg, h) := new_opt h (c_NextConsensusProgram c) in
  let '(assetID, h) := new_opt h (c_AssetID c) in
  let '(entryData, h) := new_opt h (c_EntryData c) in
  let '(txData, h) := new_opt h (c_TxData c) in
  let '(anchorID, h) := new_opt h (c_AnchorID c) in
  let '(spentOutputID, h) := new_opt h (c_SpentOutputID c) in
  let '(txSigHash, h) := new_opt h (c_TxSigHash c) in
  (h, VM.mkContext (c_VMVersion c) code args entryID (c_TxVersion c) blockHash (c_BlockTimeMS c)
        nextProg (c_NumResults c) assetID (c_Amount c) (c_MinTimeMS c) (c_MaxTimeMS c) entryData txData
        (c_DestPos c) anchorID spentOutputID txSigHash
        ((fun f h index data amount asset vmVersion code expansion =>
            f index (sbytes h data) amount (sbytes h asset) vmVersion (sbytes h code) expansion)
         <$> c_CheckOutput c)).
End Context.

(** ** A loaded context is well-formed *)

(** [h'] extends [h] and [s] is a fresh copy of [bs] in it. *)
Lemma new_slice_spec h bs s h' :
  new_slice h bs = (s, h') -> heap_le h h' /\ wf_slice h' s /\ sbytes h' s = bs /\ s_len s = length bs.
Proof.
  unfold new_slice. intros E. assert (s = (alloc h bs (length bs)).1) as -> by (by rewrite E).
  assert (h' = (alloc h bs (length bs)).2) as -> by (by rewrite E).
  split_and!; [apply alloc_le|apply alloc_wf; lia|apply alloc_bytes|done].
Qed.

Lemma new_slices_spec l : forall h ss h',
  new_slices h l = (ss, h') -> heap_le h h' /\ Forall (wf_slice h') ss /\ map s_len ss = map length l.
Proof.
  induction l as [|bs l IH]; intros h ss h' E; cbn [new_slices] in E; [by injection E as <- <-|].
  destruct (new_slice h bs) as [s h1] eqn:E1. destruct (new_slices h1 l) as [ss' h2] eqn:E2.
  injection E as <- <-. apply new_slice_spec in E1 as (L1 & W1 & _ & N1).
  apply IH in E2 as (L2 & W2 & N2). split_and!; [by etrans| |simpl; by f_equal].
  apply Forall_cons. eauto using wf_slice_mono.
Qed.

Lemma new_opt_spec h o r h' :
  new_opt h o = (r, h') ->
  heap_le h h' /\ forall s, r = Some s -> wf_slice h' s /\ exists bs, o = Some bs /\ s_len s = length bs.
Proof.
  destruct o as [bs|]; cbn [new_opt]; [|by intros [= <- <-]].
  destruct (new_slice h bs) as [s h1] eqn:E1. intros [= <- <-].
  apply new_slice_spec in E1 as (L1 & W1 & _ & N1). split; [done|]. intros s' [= <-]. eauto.
Qed.

(** The byte strings of a context that an opcode can push before paying, and the
    other ones. *)
Definition pushed (c : vmctx) : list bytes :=
  c_Code c :: c_EntryID c ::
  omap id [c_NextConsensusProgram c; c_AssetID c; c_EntryData c; c_TxData c; c_AnchorID c; c_SpentOutputID c].
Definition paid (c : vmctx) : list bytes := c_Arguments c ++ omap id [c_BlockHash c; c_TxSigHash c].

(** Follow the stores a slice has lived through. *)
Ltac back := first [eassumption | eapply wf_slice_mono; [eassumption|]; back].

Ltac backs := first [eassumption | eapply wf_slices_mono; [eassumption|]; backs].

(** What is known of a slice that comes from an optional field. *)
Ltac use_opt Hs :=
  match type of Hs with
  | ?o = Some _ =>
      match goal with
      | HH : forall s, o = Some s -> @?P s |- _ => destruct (HH _ Hs) as (? & ? & ? & ?)
      end
  end.

Ltac ctx_cbn :=
  unfold ctx_slices, introspected;
  cbn [VM.Code VM.EntryID VM.Arguments VM.BlockHash VM.NextConsensusProgram VM.AssetID VM.EntryData
       VM.TxData VM.AnchorID VM.SpentOutputID VM.TxSigHash].

Lemma Forall_opt {A} (P : A -> Prop) (o : option A) l :
  (forall a, o = Some a -> P a) -> Forall P (omap id l) -> Forall P (omap id (o :: l)).
Proof. intros Ho Hl. destruct o as [a|]; simpl; [constructor; auto|done]. Qed.

Lemma slices_len (P : Z -> Prop) ss (l : list bytes) :
  map s_len ss = map length l -> Forall (fun bs => P (zlen bs)) l -> Forall (fun s => P (slen s)) ss.
Proof.
  revert l. induction ss as [|s ss IH]; intros [|bs l] E; try done. injection E as E1 E2.
  intros [H1 H2]%Forall_cons. constructor; [|by eapply IH]. unfold slen, zlen in *. by rewrite E1.
Qed.

Lemma load_env c h ctx :
  load c = (h, ctx) -> wf_env h ctx.
Proof.
  unfold load. intros E.
  repeat match type of E with
  | context [let '(_, _) := ?x in _] => destruct x as [? ?] eqn:?
  end.
  injection E as <- <-.
  repeat match goal with
  | H : new_slice _ _ = _ |- _ => apply new_slice_spec in H as (? & ? & _ & _)
  | H : new_slices _ _ = _ |- _ => apply new_slices_spec in H as (? & ? & _)
  | H : new_opt _ _ = _ |- _ => apply new_opt_spec in H as (? & ?)
  end.
  split.
  - assert (wf_slice [[x01]] VM.trueBytes) by (exists [x01]; simpl; split; [done|lia]). back.
  - ctx_cbn.
    constructor; [back|]. constructor; [back|]. apply Forall_app. split.
    + backs.
    + repeat (apply Forall_opt;
        [intros ? Hs; use_opt Hs; back|]). constructor.
Qed.

Lemma in_opt {A} (P : A -> Prop) (l : list (option A)) b x :
  Forall P (omap id l) -> b = Some x -> b ∈ l -> P x.
Proof.
  intros HF -> Hin. rewrite Forall_forall in HF. apply HF, list_elem_of_omap. by exists (Some x).
Qed.

Ltac opt_len Hp :=
  match goal with
  | Hb : ?b = Some ?x, Hl : s_len ?s = length ?x |- context [slen ?s] =>
      pose proof (in_opt _ _ b x Hp Hb
        ltac:(repeat first [apply list_elem_of_here|apply list_elem_of_further])); unfold slen, zlen, LIMIT in *; lia
  end.

Lemma load_small c h ctx :
  load c = (h, ctx) -> Forall (fun bs => zlen bs <= 56) (pushed c) ->
  Forall (fun bs => zlen bs <= LIMIT) (paid c) -> small 64 ctx /\ slen (VM.Code ctx) = zlen (c_Code c).
Proof.
  unfold load. intros E Hp Hq.
  repeat match type of E with
  | context [let '(_, _) := ?x in _] => destruct x as [? ?] eqn:?
  end.
  injection E as <- <-.
  repeat match goal with
  | H : new_slice _ _ = _ |- _ => apply new_slice_spec in H as (_ & _ & _ & ?)
  | H : new_slices _ _ = _ |- _ => apply new_slices_spec in H as (_ & _ & ?)
  | H : new_opt _ _ = _ |- _ => apply new_opt_spec in H as (_ & ?)
  end.
  apply Forall_cons in Hp as [P1 Hp]. apply Forall_cons in Hp as [P2 Hp].
  apply Forall_app in Hq as [Q1 Hq].
  unfold slen. split; [|by unfold zlen; f_equal]. split; [unfold LIMIT; lia| |].
  - ctx_cbn. do 2 (constructor; [unfold slen, zlen in *; lia|]).
    repeat (apply Forall_opt; [intros ? Hs; use_opt Hs; opt_len Hp|]). constructor.
  - ctx_cbn. do 2 (constructor; [unfold slen, zlen, LIMIT in *; lia|]).
    apply Forall_app. split; [by eapply (slices_len (fun z => z <= LIMIT))|].
    repeat (apply Forall_opt; [intros ? Hs; use_opt Hs; first [opt_len Hp|opt_len Hq]|]). constructor.
Qed.

Lemma zlen_Bytes h : zlen (Bytes h) = 32.
Proof. unfold zlen, Bytes. by rewrite length_Byte32. Qed.

Lemma entryFields_len `{Crypto} tx entry f :
  entryFields tx entry = Some f ->
  Forall (fun bs => zlen bs = 32) (omap id [f_assetID f; f_entryData f; f_anchorID f; f_spentOutputID f]).
Proof.
  destruct entry; simpl; intros E; repeat (case_match; simplify_option_eq); repeat constructor;
    apply zlen_Bytes.
Qed.

Lemma NewTxVMContext_strings `{CryptoLaws} tx entry prog args c :
  NewTxVMContext tx entry (Some prog) args = Some c -> zlen (Code prog) <= 56 ->
  Forall (fun a => zlen a <= LIMIT) args ->
  Forall (fun bs => zlen bs <= 56) (pushed c) /\ Forall (fun bs => zlen bs <= LIMIT) (paid c) /\
  c_Code c = Code prog.
Proof.
  unfold NewTxVMContext. intros E Hl Ha.
  destruct (tx_Data (Header tx)) as [d|]; [|done]. cbn [mbind option_bind] in E.
  destruct (EntryID (Some entry)) as [eid|]; [|done]. cbn [mbind option_bind] in E.
  destruct (entryFields tx entry) as [f|] eqn:Ef; [|done]. cbn [mbind option_bind] in E.
  injection E as <-. apply entryFields_len in Ef.
  unfold pushed, paid.
  cbn [c_Code c_EntryID c_NextConsensusProgram c_AssetID c_EntryData c_TxData c_AnchorID c_SpentOutputID
       c_Arguments c_BlockHash c_TxSigHash].
  pose proof (zlen_Bytes eid). pose proof (zlen_Bytes d).
  split; [|split; [|done]].
  - do 2 (constructor; [lia|]).
    repeat (apply Forall_opt; [intros x Hx; first
      [ assert (zlen x = 32) by (apply (in_opt _ _ _ x Ef Hx);
          repeat first [apply list_elem_of_here|apply list_elem_of_further]); lia
      | injection Hx as <-; lia | discriminate ]|]). constructor.
  - apply Forall_app. split; [done|]. repeat (apply Forall_opt; [intros x Hx; first
      [injection Hx as <-; rewrite zlen_Bytes; unfold LIMIT; lia | discriminate]|]). constructor.
Qed.

(** A program of at most 56 bytes that a transaction presents to the virtual
    machine always ends: the context [NewTxVMContext] builds is one for which the
    run limit bounds the run, since all it offers besides the program are hashes.
    The bound is tight in the sense of [VMFindings]. *)
Lemma tx_program_terminates `{Runtime} `{CryptoLaws} tx entry prog args c fuel :
  NewTxVMContext tx entry (Some prog) args = Some c ->
  zlen (Code prog) <= 56 -> Forall (fun a => zlen a <= LIMIT) args ->
  (verify_fuel (zlen (Code prog)) <= fuel)%nat ->
  exists verdict, (VMRun.Verify fuel (load c).1 (load c).2).1 = Some verdict.
Proof.
  intros Hc Hlen Hargs Hf. destruct (load c) as [h ctx] eqn:El.
  destruct (NewTxVMContext_strings _ _ _ _ _ Hc Hlen Hargs) as (Hp & Hq & Hcode).
  destruct (load_small _ _ _ El Hp Hq) as [Hs Hcl]. rewrite Hcode in Hcl.
  cbn [fst snd]. apply Verify_total; [by eapply load_env|done|rewrite Hcl; unfold_int; lia|by rewrite Hcl].
Qed.

(** ** Example: a spend that is always allowed *)

Definition demo_prevout : Hash := mkHash 7 0 0 0.
Definition demo_value : AssetAmount := mkAssetAmount (Some (mkHash 9 0 0 0)) 5.
Definition demo_prog : Program := mkProgram 1 [x51].

Definition demo_spend : Spend :=
  Spend_SetDestination (NewSpend (Some demo_prevout) (Some zeroHash) 0) (Some (mkHash 8 0 0 0)) (Some demo_value) 0.

Definition demo_spend_tx : Tx :=
  mkTx (NewTxHeader 1 [] (Some zeroHash) 0 0) (mkHash 3 0 0 0)
    {[ demo_prevout :=
       Some (EOutput (NewOutput (Some (mkValueSource None (Some demo_value) 0)) (Some demo_prog) (Some zeroHash) 0)) ]}
    [] [] [].

Lemma tx_program_terminates_witness :
  exists c verdict,
    NewTxVMContext (H := toy_crypto) demo_spend_tx (ESpend demo_spend) (Some demo_prog) [] = Some c /\
    (VMRun.Verify (H := exact_runtime) (H0 := toy_crypto) (verify_fuel 1) (load c).1 (load c).2).1
      = Some verdict.
Proof.
  eexists. destruct (tx_program_terminates (H := exact_runtime) (H1 := toy_crypto_laws)
    demo_spend_tx (ESpend demo_spend) demo_prog [] _ (verify_fuel 1) eq_refl) as [v Hv];
    [done|constructor|apply le_n|]. exists v. split; [reflexivity|exact Hv].
Defined.
