(* ===== verification/Validation.v ===== *)
(** * Validation of transactions and blocks: [protocol/validation/validation.go]

    [checkValid] walks the graph of the entries of a transaction from its header
    and memoizes its results in a cache that all calls share.  The model threads
    the cache; a call returns, returns an error, panics (a nil pointer that is
    followed, an entry that cannot be hashed), or runs out of fuel.

    The virtual machine is used through the interface [Verifier]. *)

From Stdlib Require Import ZArith Lia Strings.Byte.
From stdpp Require Import gmap.
From S2P Require Import Prelude Checked GoSlice Crypto VMCode.
From S2P Require VM VMRun.
From S2P Require Import Encoding Bc Merkle TxContext.

(** ** Errors

    Wrapping and details are not modelled. *)
Inductive verr :=
| errBadTimeRange | errEmptyResults | errMismatchedAssetID | errMismatchedBlock
| errMismatchedMerkleRoot | errMismatchedPosition | errMismatchedReference | errMismatchedValue
| errMisorderedBlockHeight | errMisorderedBlockTime | errMissingField | errNoPrevBlock | errNoSource
| errNonemptyExtHash | errOverflow | errPosition | errTxVersion | errUnbalanced
| errUntimelyTransaction | errVersionRegression | errWrongBlockchain | errZeroTime
| errUnexpectedType
| BcErr (e : txerr)
| EqualErr (e : eqerr)
| VMError (e : VMRun.verify_error).

(** ** The virtual machine, as the validator sees it *)

(** [vm.Verify]: nil or an error; [None] when the fuel of the model is not enough. *)
Class Verifier := vm_Verify : vmctx -> option (option VMRun.verify_error).

(** The machine of [protocol/vm] on a loaded context. *)
Definition machine `{Runtime} `{Crypto} (fuel : nat) : Verifier :=
  fun c => (VMRun.Verify fuel (load c).1 (load c).2).1.

(** ** The monad of the validator *)

Inductive vout (A : Type) := VRet (a : A) | VErr (e : verr) | VPanic | VFuel.
Arguments VRet {A} a.
Arguments VErr {A} e.
Arguments VPanic {A}.
Arguments VFuel {A}.

Notation cache := (gmap Hash (option verr)).

Definition V (A : Type) : Type := cache -> vout A * cache.

#[export] Instance V_ret : MRet V := fun A a c => (VRet a, c).
#[export] Instance V_bind : MBind V := fun A B f m c =>
  match m c with
  | (VRet a, c) => f a c
  | (VErr e, c) => (VErr e, c)
  | (VPanic, c) => (VPanic, c)
  | (VFuel, c) => (VFuel, c)
  end.

Definition verr_ {A} (e : verr) : V A := fun c => (VErr e, c).

(** [if !ok { return e }] *)
Definition ensure (ok : bool) (e : verr) : V unit := if ok then mret tt else verr_ e.

(** Follow a pointer. *)
Definition deref {A} (p : option A) : V A := fun c =>
  match p with Some a => (VRet a, c) | None => (VPanic, c) end.

Definition of_bc {A} (r : result txerr A) : V A :=
  match r with Ok a => mret a | Err e => verr_ (BcErr e) end.

Definition of_out {A} (o : vout A) : V A := fun c => (o, c).

(** [for i, x := range l { f(i, x) }] *)
Fixpoint range {A} (f : nat -> A -> V unit) (i : nat) (l : list A) : V unit :=
  match l with
  | [] => mret tt
  | x :: l => f i x;; range f (S i) l
  end.

Record validationState := mkVS {
  blockchainID : Hash;
  vs_tx : Tx;
  entryID : Hash;
  sourcePos : Z;
  destPos : Z;
}.

Definition set_entryID id vs := mkVS (blockchainID vs) (vs_tx vs) id (sourcePos vs) (destPos vs).
Definition set_sourcePos p vs := mkVS (blockchainID vs) (vs_tx vs) (entryID vs) p (destPos vs).
Definition set_destPos p vs := mkVS (blockchainID vs) (vs_tx vs) (entryID vs) (sourcePos vs) p.

(** [tx.Entries[id]]: a key that is not there gives the nil interface. *)
Definition entry_of (vs : validationState) (id : Hash) : option Entry :=
  ojoin (entry_at (Entries (vs_tx vs)) id).

(** [tx.Version == 1 && ExtHash != nil && !ExtHash.IsZero()] *)
Definition checkExtHash (vs : validationState) (h : option Hash) : V unit :=
  ensure (negb ((tx_Version (Header (vs_tx vs)) =? 1) && negb (IsZero h))) errNonemptyExtHash.

(** ** The balance of a mux *)

(** [parity[*a.AssetId]] of a map, 0 when the key is missing. *)
Definition add_source (parity : gmap AssetID Z) (src : option ValueSource) : V (gmap AssetID Z) :=
  s ← deref src; v ← deref (src_Value s); a ← deref (AssetId v);
  match AddInt64 (default 0 (parity !! a)) (int64 (Amount v)) with
  | (sum, true) => mret (<[a := sum]> parity)
  | (_, false) => verr_ errOverflow
  end.

Definition sub_dest (parity : gmap AssetID Z) (dest : option ValueDestination) : V (gmap AssetID Z) :=
  d ← deref dest; v ← deref (dest_Value d); a ← deref (AssetId v);
  match parity !! a with
  | None => verr_ errNoSource
  | Some sum =>
      match SubInt64 sum (int64 (Amount v)) with
      | (diff, true) => mret (<[a := diff]> parity)
      | (_, false) => verr_ errOverflow
      end
  end.

Fixpoint fold_V {A B} (f : B -> A -> V B) (b : B) (l : list A) : V B :=
  match l with
  | [] => mret b
  | x :: l => b ← f b x; fold_V f b l
  end.

(** The order of the iteration over the map does not matter for the verdict. *)
Definition checkBalance (m : Mux) : V unit :=
  parity ← fold_V add_source ∅ (Sources m);
  parity ← fold_V sub_dest parity (WitnessDestinations m);
  ensure (bool_decide (map_Forall (fun _ amount => amount = 0) parity)) errUnbalanced.

(** ** Entries *)

Section Check.
Context `{Crypto} `{Verifier}.

(** [vm.Verify(NewTxVMContext(tx, e, prog, args))] *)
Definition verify (tx : Tx) (e : Entry) (prog : option Program) (args : list bytes) : V unit := fun c =>
  match NewTxVMContext tx e prog args with
  | None => (VPanic, c)
  | Some ctx =>
      match vm_Verify ctx with
      | None => (VFuel, c)
      | Some None => (VRet tt, c)
      | Some (Some err) => (VErr (VMError err), c)
      end
  end.

(** The element at a position of a slice that is known to be long enough. *)
Definition at_pos {A} (l : list (option A)) (pos : Z) : option A := ojoin (l !! Z.to_nat pos).

(** The destination that a value source names: the switch of [checkValidSrc]. *)
Definition source_dest (e : Entry) (pos : Z) : V (option ValueDestination) :=
  match e with
  | EIssuance i => ensure (pos =? 0) errPosition;; mret (iss_WitnessDestination i)
  | ESpend s => ensure (pos =? 0) errPosition;; mret (sp_WitnessDestination s)
  | EMux m =>
      ensure (pos <? zlen (WitnessDestinations m)) errPosition;; mret (at_pos (WitnessDestinations m) pos)
  | _ => verr_ (BcErr ErrEntryType)
  end.

(** The source that a value destination names: the switch of [checkValidDest]. *)
Definition dest_source (e : Entry) (pos : Z) : V (option ValueSource) :=
  match e with
  | EOutput o => ensure (pos =? 0) errPosition;; mret (out_Source o)
  | ERetirement r => ensure (pos =? 0) errPosition;; mret (ret_Source r)
  | EMux m => ensure (pos <? zlen (Sources m)) errPosition;; mret (at_pos (Sources m) pos)
  | _ => verr_ (BcErr ErrEntryType)
  end.

(** The end that both share.  The message of the first error is formatted with
    [ref.Bytes()], which follows [ref] even when it is nil. *)
Definition checkOpposite (ref : option Hash) (pos : Z) (value : option AssetAmount)
    (entryID : Hash) (pos' : Z) (value' : option AssetAmount) : V unit :=
  (if bool_decide (ref = Some entryID) then mret tt else deref ref;; verr_ errMismatchedReference);;
  ensure (pos =? pos') errMismatchedPosition;;
  match AssetAmount_Equal value value' with
  | Err _ => verr_ errMissingField
  | Ok eq => ensure eq errMismatchedValue
  end.

Definition or_err {A} (p : option A) (e : verr) : V A :=
  match p with Some a => mret a | None => verr_ e end.

Definition checkValidDest (vs : validationState) (vd : option ValueDestination) : V unit :=
  d ← or_err vd errMissingField;
  r ← or_err (dest_Ref d) errMissingField;
  ensure (bool_decide (is_Some (dest_Value d ≫= AssetId))) errMissingField;;
  oe ← or_err (entry_at (Entries (vs_tx vs)) r) (BcErr ErrMissingEntry);
  e ← or_err oe (BcErr ErrEntryType);
  osrc ← dest_source e (dest_Position d);
  src ← deref osrc;
  checkOpposite (src_Ref src) (src_Position src) (src_Value src)
    (entryID vs) (destPos vs) (dest_Value d).

(** The recursive calls of [checkValid] go through [checkValid_]. *)
Section Rec.
Context (checkValid_ : validationState -> option Entry -> V unit).

Definition checkValidSrc (vs : validationState) (src : option ValueSource) : V unit :=
  s ← or_err src errMissingField;
  r ← or_err (src_Ref s) errMissingField;
  ensure (bool_decide (is_Some (src_Value s ≫= AssetId))) errMissingField;;
  oe ← or_err (entry_at (Entries (vs_tx vs)) r) (BcErr ErrMissingEntry);
  checkValid_ (set_entryID r vs) oe;;
  e ← or_err oe (BcErr ErrEntryType);
  odest ← source_dest e (src_Position s);
  dest ← deref odest;
  checkOpposite (dest_Ref dest) (dest_Position dest) (dest_Value dest)
    (entryID vs) (sourcePos vs) (src_Value s).

Definition checkTxHeader (vs : validationState) (h : TxHeader) : V unit :=
  ensure (negb ((0 <? tx_MaxTimeMs h) && (tx_MaxTimeMs h <? tx_MinTimeMs h))) errBadTimeRange;;
  range (fun _ resID => id ← deref resID; checkValid_ (set_entryID id vs) (entry_of vs id)) 0 (ResultIds h);;
  ensure (negb ((tx_Version h =? 1) && (zlen (ResultIds h) =? 0))) errEmptyResults;;
  ensure (negb ((tx_Version h =? 1) && negb (IsZero (tx_ExtHash h)))) errNonemptyExtHash.

Definition checkMuxEntry (vs : validationState) (m : Mux) : V unit :=
  verify (vs_tx vs) (EMux m) (mux_Program m) (mux_WitnessArguments m);;
  range (fun i src => checkValidSrc (set_sourcePos (Z.of_nat i) vs) src) 0 (Sources m);;
  range (fun i dest => checkValidDest (set_destPos (Z.of_nat i) vs) dest) 0 (WitnessDestinations m);;
  checkBalance m;;
  checkExtHash vs (mux_ExtHash m).

Definition checkNonce (vs : validationState) (n : Nonce) : V unit :=
  verify (vs_tx vs) (ENonce n) (nonce_Program n) (nonce_WitnessArguments n);;
  id ← deref (TimeRangeId n);
  tr ← of_bc (Tx_TimeRange (vs_tx vs) id);
  checkValid_ (set_entryID id vs) (Some (ETimeRange tr));;
  ensure (negb ((MinTimeMs tr =? 0) || (MaxTimeMs tr =? 0))) errZeroTime;;
  checkExtHash vs (nonce_ExtHash n).

Definition checkTimeRange (vs : validationState) (tr : TimeRange) : V unit :=
  ensure (MinTimeMs tr <=? tx_MinTimeMs (Header (vs_tx vs))) errBadTimeRange;;
  ensure (negb ((0 <? MaxTimeMs tr) && (MaxTimeMs tr <? tx_MaxTimeMs (Header (vs_tx vs))))) errBadTimeRange;;
  checkExtHash vs (tr_ExtHash tr).

(** The entry that an anchor is anchored to. *)
Definition anchored_of (anchor : option Entry) : V (option Hash) :=
  match anchor with
  | Some (ENonce a) => mret (nonce_WitnessAnchoredId a)
  | Some (ESpend a) => mret (sp_WitnessAnchoredId a)
  | Some (EIssuance a) => mret (iss_WitnessAnchoredId a)
  | _ => verr_ (BcErr ErrEntryType)
  end.

Definition checkIssuance (vs : validationState) (i : Issuance) : V unit :=
  def ← deref (WitnessAssetDefinition i);
  ibid ← deref (InitialBlockId def);
  ensure (bool_decide (ibid = blockchainID vs)) errWrongBlockchain;;
  v ← deref (iss_Value i);
  asset ← deref (AssetId v);
  ensure (bool_decide (AssetDefinition_ComputeAssetID def = asset)) errMismatchedAssetID;;
  aid ← deref (AnchorId i);
  anchor ← or_err (entry_at (Entries (vs_tx vs)) aid) (BcErr ErrMissingEntry);
  verify (vs_tx vs) (EIssuance i) (IssuanceProgram def) (iss_WitnessArguments i);;
  oanchored ← anchored_of anchor;
  anchored ← deref oanchored;
  ensure (bool_decide (anchored = entryID vs)) errMismatchedReference;;
  checkValid_ (set_entryID aid vs) anchor;;
  checkValidDest (set_destPos 0 vs) (iss_WitnessDestination i);;
  checkExtHash vs (iss_ExtHash i).

Definition checkSpend (vs : validationState) (s : Spend) : V unit :=
  id ← or_err (SpentOutputId s) errMissingField;
  spentOutput ← of_bc (Tx_Output (vs_tx vs) id);
  verify (vs_tx vs) (ESpend s) (ControlProgram spentOutput) (sp_WitnessArguments s);;
  src ← deref (out_Source spentOutput);
  wd ← deref (sp_WitnessDestination s);
  match AssetAmount_Equal (src_Value src) (dest_Value wd) with
  | Err e => verr_ (EqualErr e)
  | Ok eq => ensure eq errMismatchedValue
  end;;
  checkValidDest (set_destPos 0 vs) (sp_WitnessDestination s);;
  checkExtHash vs (sp_ExtHash s).

(** The switch of [checkValid] on the type of the entry. *)
Definition checkEntryBody (vs : validationState) (e : option Entry) : V unit :=
  match e with
  | Some (ETxHeader h) => checkTxHeader vs h
  | Some (EMux m) => checkMuxEntry vs m
  | Some (ENonce n) => checkNonce vs n
  | Some (EOutput o) =>
      checkValidSrc (set_sourcePos 0 vs) (out_Source o);; checkExtHash vs (out_ExtHash o)
  | Some (ERetirement r) =>
      checkValidSrc (set_sourcePos 0 vs) (ret_Source r);; checkExtHash vs (ret_ExtHash r)
  | Some (ETimeRange tr) => checkTimeRange vs tr
  | Some (EIssuance i) => checkIssuance vs i
  | Some (ESpend s) => checkSpend vs s
  | Some (EBlockHeader _) | None => verr_ errUnexpectedType
  end.
End Rec.

(** The deferred function stores the result; after a panic, or without enough
    fuel, nobody looks at the cache again. *)
Definition memoize (id : Hash) (m : V unit) : V unit := fun c =>
  match m c with
  | (VRet _, c) => (VRet tt, <[id := None]> c)
  | (VErr e, c) => (VErr e, <[id := Some e]> c)
  | r => r
  end.

Fixpoint checkValid (fuel : nat) (vs : validationState) (e : option Entry) : V unit := fun c =>
  match fuel with
  | O => (VFuel, c)
  | S fuel =>
      match EntryID e with
      | None => (VPanic, c)
      | Some id =>
          match c !! id with
          | Some None => (VRet tt, c)
          | Some (Some err) => (VErr err, c)
          | None => memoize id (checkEntryBody (checkValid fuel) vs e) c
          end
      end
  end.

Definition ValidateTx (fuel : nat) (tx : Tx) (initialBlockID : Hash) : vout unit :=
  (checkValid fuel (mkVS initialBlockID tx (tx_ID tx) 0 0) (Some (ETxHeader (Header tx))) ∅).1.

(** ** Blocks *)

Definition ValidateBlockSig (b : Block) (prog : bytes) : vout unit :=
  match vm_Verify (newBlockVMContext b prog (bh_WitnessArguments (BlockHdr b))) with
  | None => VFuel
  | Some None => VRet tt
  | Some (Some e) => VErr (VMError e)
  end.

Definition checkValidBlockHeader (bh : BlockHeader) : V unit :=
  ensure (negb ((bh_Version bh =? 1) && negb (IsZero (bh_ExtHash bh)))) errNonemptyExtHash.

Definition validateBlockAgainstPrev (b prev : Block) : V unit :=
  let bh := BlockHdr b in
  let ph := BlockHdr prev in
  ensure (bh_Version ph <=? bh_Version bh) errVersionRegression;;
  ensure (Height bh =? uint64 (Height ph + 1)) errMisorderedBlockHeight;;
  id ← deref (PreviousBlockId bh);
  ensure (bool_decide (block_ID prev = id)) errMismatchedBlock;;
  ensure (TimestampMs ph <? TimestampMs bh) errMisorderedBlockTime.

(** The part of [ValidateBlock] for one transaction. *)
Definition validateBlockTx (b : Block) (validateTx : Tx -> vout unit) (tx : Tx) : V unit :=
  let bh := BlockHdr b in
  let h := Header tx in
  ensure (negb ((bh_Version bh =? 1) && negb (tx_Version h =? 1))) errTxVersion;;
  ensure (negb ((0 <? tx_MaxTimeMs h) && (tx_MaxTimeMs h <? TimestampMs bh))) errUntimelyTransaction;;
  ensure (negb ((0 <? tx_MinTimeMs h) && (0 <? TimestampMs bh) && (TimestampMs bh <? tx_MinTimeMs h)))
    errUntimelyTransaction;;
  of_out (validateTx tx).

(** The initial block identifier is an argument of the code that it does not use.
    [validateTx] keeps its own cache. *)
Definition ValidateBlock (b : Block) (prev : option Block) (validateTx : Tx -> vout unit) : vout unit :=
  (((if 1 <? Height (BlockHdr b)
    then p ← or_err prev errNoPrevBlock; validateBlockAgainstPrev b p else mret tt);;
   checkValidBlockHeader (BlockHdr b);;
   range (fun _ tx => validateBlockTx b validateTx tx) 0 (Transactions b);;
   txRoot ← of_out (match MerkleRoot (Transactions b) with Some r => VRet r | None => VFuel end);
   root ← deref (TransactionsRoot (BlockHdr b));
   ensure (bool_decide (txRoot = root)) errMismatchedMerkleRoot : V unit) ∅).1.
End Check.
