(* ===== verification/ValidSpec.v ===== *)
(** * What the validator decides

    [valid] says when an entry of a transaction is valid, without a cache and
    without an order of evaluation: the rules of its type hold at the entry, and
    at every entry it depends on.  [ValidateTx] decides it, for transactions whose
    entries are keyed by their identifiers and depend on each other without
    cycles; identifiers are hashes, so the ones that are built from inputs and
    outputs are of this form. *)

From Stdlib Require Import ZArith Lia Strings.Byte.
From stdpp Require Import gmap.
From S2P Require Import Prelude Checked GoSlice Crypto VMCode.
From S2P Require VM VMRun.
From S2P Require Import Encoding Bc Merkle TxContext Validation.

(** ** The entries that an entry depends on *)

Definition source_ref (src : option ValueSource) : option Hash := src ≫= src_Ref.

Definition refs (e : Entry) : list Hash :=
  match e with
  | ETxHeader h => omap id (ResultIds h)
  | EMux m => omap source_ref (Sources m)
  | ENonce n => option_list (TimeRangeId n)
  | EOutput o => option_list (source_ref (out_Source o))
  | ERetirement r => option_list (source_ref (ret_Source r))
  | EIssuance i => option_list (AnchorId i)
  | _ => []
  end.

(** ** The value that flows through a mux *)

Definition value_of (v : option AssetAmount) (a : AssetID) : Z :=
  match v with
  | Some v => if bool_decide (AssetId v = Some a) then Amount v else 0
  | None => 0
  end.

Definition source_value (a : AssetID) (src : option ValueSource) : Z := value_of (src ≫= src_Value) a.
Definition dest_value (a : AssetID) (d : option ValueDestination) : Z := value_of (d ≫= dest_Value) a.

Definition sumZ (l : list Z) : Z := foldr Z.add 0 l.

Definition sources_total (m : Mux) (a : AssetID) : Z := sumZ (map (source_value a) (Sources m)).
Definition dests_total (m : Mux) (a : AssetID) : Z := sumZ (map (dest_value a) (WitnessDestinations m)).

(** The assets that come out come in, in the same amounts, and no total is too large. *)
Record balanced (m : Mux) : Prop := {
  bal_conserved a : sources_total m a = dests_total m a;
  bal_bounded a : sources_total m a <= MaxInt64;
  bal_sourced d a :
    Some d ∈ WitnessDestinations m -> (dest_Value d ≫= AssetId) = Some a ->
    exists s, Some s ∈ Sources m /\ (src_Value s ≫= AssetId) = Some a;
}.

(** ** The rules *)

Section Rules.
Context `{Crypto} `{Verifier}.
Context (bid : Hash) (tx : Tx).

(** [tx.Entries] has the entry [e] at [id]. *)
Definition has (id : Hash) (e : Entry) : Prop := Entries tx !! id = Some (Some e).

(** The entry, or the header. *)
Definition known (id : Hash) (e : Entry) : Prop :=
  has id e \/ id = tx_ID tx /\ e = ETxHeader (Header tx).

Definition runs (e : Entry) (prog : option Program) (args : list bytes) : Prop :=
  exists c, NewTxVMContext tx e prog args = Some c /\ vm_Verify c = Some None.

Definition ext_ok (h : option Hash) : Prop := tx_Version (Header tx) = 1 -> IsZero h = true.

Definition same_value (v v' : option AssetAmount) : Prop := AssetAmount_Equal v v' = Ok true.

(** The destination number [pos] of an entry, and its source number [pos]. *)
Definition nth_dest (e : Entry) (pos : Z) : option ValueDestination :=
  match e with
  | EIssuance i => if pos =? 0 then iss_WitnessDestination i else None
  | ESpend s => if pos =? 0 then sp_WitnessDestination s else None
  | EMux m => if pos <? zlen (WitnessDestinations m) then at_pos (WitnessDestinations m) pos else None
  | _ => None
  end.

Definition nth_source (e : Entry) (pos : Z) : option ValueSource :=
  match e with
  | EOutput o => if pos =? 0 then out_Source o else None
  | ERetirement r => if pos =? 0 then ret_Source r else None
  | EMux m => if pos <? zlen (Sources m) then at_pos (Sources m) pos else None
  | _ => None
  end.

(** The source number [pos] of the entry [id] is [src]: the entry that it names
    has a destination that names it back, with the same value. *)
Definition source_ok (id : Hash) (pos : Z) (src : option ValueSource) : Prop :=
  exists s r e d, src = Some s /\ src_Ref s = Some r /\ is_Some (src_Value s ≫= AssetId) /\ has r e /\
    nth_dest e (src_Position s) = Some d /\
    dest_Ref d = Some id /\ dest_Position d = pos /\ same_value (dest_Value d) (src_Value s).

Definition dest_ok (id : Hash) (pos : Z) (dest : option ValueDestination) : Prop :=
  exists d r e s, dest = Some d /\ dest_Ref d = Some r /\ is_Some (dest_Value d ≫= AssetId) /\ has r e /\
    nth_source e (dest_Position d) = Some s /\
    src_Ref s = Some id /\ src_Position s = pos /\ same_value (src_Value s) (dest_Value d).

Definition anchors (e : Entry) (id : Hash) : Prop :=
  match e with
  | ENonce a => nonce_WitnessAnchoredId a = Some id
  | ESpend a => sp_WitnessAnchoredId a = Some id
  | EIssuance a => iss_WitnessAnchoredId a = Some id
  | _ => False
  end.

Definition issuance_ok (id : Hash) (i : Issuance) : Prop :=
  exists def aid anchor,
    WitnessAssetDefinition i = Some def /\ InitialBlockId def = Some bid /\
    (iss_Value i ≫= AssetId) = Some (AssetDefinition_ComputeAssetID def) /\
    AnchorId i = Some aid /\ has aid anchor /\ anchors anchor id /\
    runs (EIssuance i) (IssuanceProgram def) (iss_WitnessArguments i) /\
    dest_ok id 0 (iss_WitnessDestination i) /\ ext_ok (iss_ExtHash i).

Definition spend_ok (id : Hash) (s : Spend) : Prop :=
  exists oid o src wd,
    SpentOutputId s = Some oid /\ has oid (EOutput o) /\
    runs (ESpend s) (ControlProgram o) (sp_WitnessArguments s) /\
    out_Source o = Some src /\ sp_WitnessDestination s = Some wd /\
    same_value (src_Value src) (dest_Value wd) /\
    dest_ok id 0 (sp_WitnessDestination s) /\ ext_ok (sp_ExtHash s).

Definition rules (id : Hash) (e : Entry) : Prop :=
  match e with
  | ETxHeader h =>
      (0 < tx_MaxTimeMs h -> tx_MinTimeMs h <= tx_MaxTimeMs h) /\ None ∉ ResultIds h /\
      (tx_Version h = 1 -> ResultIds h <> [] /\ IsZero (tx_ExtHash h) = true)
  | EMux m =>
      runs (EMux m) (mux_Program m) (mux_WitnessArguments m) /\
      (forall i src, Sources m !! i = Some src -> source_ok id (Z.of_nat i) src) /\
      (forall i d, WitnessDestinations m !! i = Some d -> dest_ok id (Z.of_nat i) d) /\
      balanced m /\ ext_ok (mux_ExtHash m)
  | ENonce n =>
      runs (ENonce n) (nonce_Program n) (nonce_WitnessArguments n) /\
      (exists trID tr, TimeRangeId n = Some trID /\ has trID (ETimeRange tr) /\
         MinTimeMs tr <> 0 /\ MaxTimeMs tr <> 0) /\
      ext_ok (nonce_ExtHash n)
  | EOutput o => source_ok id 0 (out_Source o) /\ ext_ok (out_ExtHash o)
  | ERetirement r => source_ok id 0 (ret_Source r) /\ ext_ok (ret_ExtHash r)
  | ETimeRange tr =>
      MinTimeMs tr <= tx_MinTimeMs (Header tx) /\
      (0 < MaxTimeMs tr -> tx_MaxTimeMs (Header tx) <= MaxTimeMs tr) /\ ext_ok (tr_ExtHash tr)
  | EIssuance i => issuance_ok id i
  | ESpend s => spend_ok id s
  | EBlockHeader _ => False
  end.

Inductive valid : Hash -> Entry -> Prop :=
| valid_intro id e :
    rules id e -> (forall r, r ∈ refs e -> exists e', has r e' /\ valid r e') -> valid id e.

Definition valid_tx : Prop := valid (tx_ID tx) (ETxHeader (Header tx)).

(** ** Well-formed transactions *)

(** The entries are keyed by their identifiers, and so is the header. *)
Record well_keyed : Prop := {
  keyed id oe : Entries tx !! id = Some oe -> id <> zeroHash /\ exists e, oe = Some e /\ EntryID (Some e) = Some id;
  keyed_header : tx_ID tx <> zeroHash /\ EntryID (Some (ETxHeader (Header tx))) = Some (tx_ID tx);
  keyed_once e : has (tx_ID tx) e -> e = ETxHeader (Header tx);
}.

(** The entries that validation visits. *)
Inductive reachable : Hash -> Entry -> Prop :=
| reach_header : reachable (tx_ID tx) (ETxHeader (Header tx))
| reach_ref id e r e' : reachable id e -> r ∈ refs e -> has r e' -> reachable r e'.

(** Amounts are unsigned 64-bit integers. *)
Definition amount_ok (v : option AssetAmount) : Prop :=
  match v with Some v => in_uint64 (Amount v) = true | None => True end.

Record wf_amounts (m : Mux) : Prop := {
  wf_sources s : Some s ∈ Sources m -> amount_ok (src_Value s);
  wf_dests d : Some d ∈ WitnessDestinations m -> amount_ok (dest_Value d);
}.

(** Every entry that is visited is above the ones it depends on. *)
Definition ranked (rank : Hash -> nat) : Prop :=
  forall id e r, reachable id e -> r ∈ refs e -> (rank r < rank id)%nat.

(** The program that validation runs for an entry, with its arguments. *)
Definition program_of (e : Entry) : option (option Program * list bytes) :=
  match e with
  | EMux m => Some (mux_Program m, mux_WitnessArguments m)
  | ENonce x => Some (nonce_Program x, nonce_WitnessArguments x)
  | EIssuance i =>
      def ← WitnessAssetDefinition i; Some (IssuanceProgram def, iss_WitnessArguments i)
  | ESpend s =>
      oid ← SpentOutputId s;
      match Entries tx !! oid with
      | Some (Some (EOutput o)) => Some (ControlProgram o, sp_WitnessArguments s)
      | _ => None
      end
  | _ => None
  end.

(** The virtual machine answers on the programs that are run. *)
Definition answers : Prop :=
  forall id e prog args c, reachable id e -> program_of e = Some (prog, args) ->
    NewTxVMContext tx e prog args = Some c -> vm_Verify c <> None.

End Rules.
