(* ===== verification/ValidLogic.v ===== *)
(** * The validator decides validity

    A program logic for the monad of the validator: [decides m Q] says that [m]
    returns when [Q] holds of a result, returns that result, and fails otherwise,
    as long as the cache only has valid entries.  One rule per combinator, then
    one lemma per function of [validation.go]. *)

From Stdlib Require Import ZArith Lia Strings.Byte.
From stdpp Require Import gmap.
From S2P Require Import Prelude Checked GoSlice Crypto VMCode.
From S2P Require VM VMRun.
From S2P Require Import Encoding Bc EntryHash Merkle TxContext Validation ValidSpec.

(** ** The amounts in an entry that can be hashed *)

Lemma fits_source s v : fits (hval_ValueSource s) -> src_Value s = Some v -> Amount v <= MaxInt64.
Proof. unfold hval_ValueSource. simpl. intros (_ & Hv & _) E. rewrite E in Hv. simpl in Hv. tauto. Qed.

(** The sources of an entry that has an identifier have amounts of 63 bits. *)
Lemma hashed_source `{Crypto} e id pos s v :
  EntryID (Some e) = Some id -> nth_source e pos = Some s -> src_Value s = Some v ->
  Amount v <= MaxInt64.
Proof.
  intros Eid Es Ev. simpl in Eid. destruct (entry_body e) as [b|] eqn:Eb; [|done].
  apply mustWrite_inv in Eb as [Eb _]. apply (fits_source s v); [|done].
  destruct e; simpl in Es; try done.
  - destruct (pos <? zlen (Sources m)); [|done]. apply Forall_cons in Eb as [Eb _].
    unfold at_pos, ojoin in Es. case_match eqn:El; [|done]. subst.
    cbn [fits] in Eb. rewrite all_Forall, Forall_forall in Eb.
    apply (proj2 Eb (HPtr (Some (hval_ValueSource s)))).
    apply list_elem_of_fmap. exists (Some s). split; [done|]. by eapply list_elem_of_lookup_2.
  - destruct (pos =? 0); [|done]. apply Forall_cons in Eb as [Eb _]. by rewrite Es in Eb.
  - destruct (pos =? 0); [|done]. apply Forall_cons in Eb as [Eb _]. by rewrite Es in Eb.
Qed.

(** ** The logic *)

Section Logic.
Context (sound : cache -> Prop).

Definition decides {A} (m : V A) (Q : A -> Prop) : Prop :=
  forall c, sound c ->
  match m c with
  | (VRet a, c) => sound c /\ Q a
  | (VErr _, _) | (VPanic, _) => forall a, ~ Q a
  | (VFuel, _) => False
  end.

Lemma decides_iff {A} (m : V A) (Q Q' : A -> Prop) :
  decides m Q -> (forall a, Q a <-> Q' a) -> decides m Q'.
Proof. intros Hm HQ c Hc. specialize (Hm c Hc). destruct (m c) as [[a|e| |] c']; naive_solver. Qed.

Lemma decides_bind {A B} (m : V A) (f : A -> V B) Q (Q2 : A -> B -> Prop) :
  decides m Q -> (forall a a', Q a -> Q a' -> a = a') -> (forall a, Q a -> decides (f a) (Q2 a)) ->
  decides (m ≫= f) (fun b => exists a, Q a /\ Q2 a b).
Proof.
  intros Hm Hu Hf c Hc. specialize (Hm c Hc). unfold mbind, V_bind.
  destruct (m c) as [[a|e| |] c']; [|naive_solver..].
  destruct Hm as [Hc' HQ]. specialize (Hf a HQ c' Hc').
  destruct (f a c') as [[b|e| |] c'']; [naive_solver| | |done].
  - intros b (a' & Ha' & Hb). apply (Hf b). by rewrite (Hu a a').
  - intros b (a' & Ha' & Hb). apply (Hf b). by rewrite (Hu a a').
Qed.

Lemma decides_ret {A} (a : A) : decides (mret a) (fun x => x = a).
Proof. intros c Hc. done. Qed.

Lemma decides_err {A} e : decides (verr_ e : V A) (fun _ => False).
Proof. intros c Hc. naive_solver. Qed.

Lemma decides_seq {B} (m : V unit) (k : V B) (P : Prop) Q :
  decides m (fun _ => P) -> (P -> decides k Q) -> decides (m;; k) (fun b => P /\ Q b).
Proof.
  intros Hm Hk. apply (decides_iff _ (fun b => exists a : unit, P /\ Q b)).
  - apply (decides_bind _ _ (fun _ => P) (fun _ => Q)); [done|by intros [] []|auto].
  - intros b. naive_solver.
Qed.

Lemma decides_ensure b e (P : Prop) : (b = true <-> P) -> decides (ensure b e) (fun _ => P).
Proof. intros HP c Hc. destruct b; simpl; naive_solver. Qed.

(** A pointer that is followed, or checked against nil. *)
Lemma decides_deref {A} (o : option A) : decides (deref o) (fun a => o = Some a).
Proof. intros c Hc. destruct o; simpl; naive_solver. Qed.

Lemma decides_or_err {A} (o : option A) e : decides (or_err o e) (fun a => o = Some a).
Proof. intros c Hc. destruct o; simpl; naive_solver. Qed.

Lemma decides_option {A B} (o : option A) (m : V A) (f : A -> V B) (Q : A -> B -> Prop) :
  decides m (fun a => o = Some a) -> (forall a, o = Some a -> decides (f a) (Q a)) ->
  decides (m ≫= f) (fun b => exists a, o = Some a /\ Q a b).
Proof. intros Hm Hf. apply (decides_bind _ _ _ Q Hm); [congruence|auto]. Qed.

Lemma decides_range {A} (f : nat -> A -> V unit) (P : nat -> A -> Prop) l : forall i0,
  (forall i x, l !! i = Some x -> decides (f (i0 + i)%nat x) (fun _ => P (i0 + i)%nat x)) ->
  decides (range f i0 l) (fun _ => forall i x, l !! i = Some x -> P (i0 + i)%nat x).
Proof.
  induction l as [|x l IH]; intros i0 Hf; cbn [range].
  - apply (decides_iff _ (fun x => x = tt)); [apply decides_ret|]. intros a. destruct a. by split.
  - eapply decides_iff.
    + apply decides_seq with (P := P i0 x); [specialize (Hf 0%nat x eq_refl); by rewrite Nat.add_0_r in Hf|].
      intros _. apply (IH (S i0)). intros i y Hy. specialize (Hf (S i) y Hy).
      by replace (S i0 + i)%nat with (i0 + S i)%nat by lia.
    + intros u. cbn beta. split.
      * intros [H0 HS] [|i] y Hy; [injection Hy as <-; by rewrite Nat.add_0_r|].
        replace (i0 + S i)%nat with (S i0 + i)%nat by lia. by apply HS.
      * intros HA. split; [specialize (HA 0%nat x eq_refl); by rewrite Nat.add_0_r in HA|].
        intros i y Hy. replace (S i0 + i)%nat with (i0 + S i)%nat by lia. by apply (HA (S i)).
Qed.

(** A computation that leaves the cache alone. *)
Lemma decides_run {A} (m : V A) (Q : A -> Prop) :
  (forall c, (m c).2 = c) ->
  (match (m ∅).1 with VRet a => Q a | VErr _ | VPanic => forall a, ~ Q a | VFuel => False end) ->
  (forall c, (m c).1 = (m ∅).1) -> decides m Q.
Proof.
  intros H2 HQ H1 c Hc. specialize (H1 c). specialize (H2 c). rewrite <- H1 in HQ.
  destruct (m c) as [[a|e| |] c']; simpl in *; subst; auto.
Qed.
End Logic.

(** ** The balance *)

Notation parity := (gmap AssetID Z).

(** The state of the loops as a function of the list of assets and signed amounts. *)
Definition upd (p : parity) (az : AssetID * Z) : parity := <[az.1 := default 0 (p !! az.1) + az.2]> p.

Definition tot (a : AssetID) (l : list (AssetID * Z)) : Z :=
  sumZ (map (fun az => if bool_decide (az.1 = a) then az.2 else 0) l).

Definition src_pair (s : option ValueSource) (az : AssetID * Z) : Prop :=
  exists s' v, s = Some s' /\ src_Value s' = Some v /\ AssetId v = Some az.1 /\ Amount v = az.2 /\
    0 <= az.2 <= MaxInt64.

Definition dest_pair (d : option ValueDestination) (az : AssetID * Z) : Prop :=
  exists d' v, d = Some d' /\ dest_Value d' = Some v /\ AssetId v = Some az.1 /\ Amount v = - az.2 /\
    - MaxInt64 <= az.2 <= 0.

Definition ranges (p : parity) : Prop := forall a, in_int64 (default 0 (p !! a)) = true.

Lemma tot_cons a az l : tot a (az :: l) = (if bool_decide (az.1 = a) then az.2 else 0) + tot a l.
Proof. done. Qed.

Lemma upd_total p az a :
  default 0 (upd p az !! a) = default 0 (p !! a) + (if bool_decide (az.1 = a) then az.2 else 0).
Proof.
  unfold upd. case_bool_decide as Ha; [subst; by rewrite lookup_insert_eq|].
  rewrite lookup_insert_ne by done. lia.
Qed.

Lemma foldl_total l a : forall p, default 0 (foldl upd p l !! a) = default 0 (p !! a) + tot a l.
Proof.
  induction l as [|az l IH]; intros p; [unfold tot; simpl; lia|].
  simpl foldl. rewrite IH, upd_total, tot_cons. lia.
Qed.

Lemma foldl_keys l a : forall p, is_Some (foldl upd p l !! a) <-> is_Some (p !! a) \/ a ∈ l.*1.
Proof.
  induction l as [|az l IH]; intros p; simpl; [rewrite elem_of_nil; tauto|].
  rewrite IH, elem_of_cons. unfold upd. destruct (decide (az.1 = a)) as [<-|Hne].
  - rewrite lookup_insert_eq. split; [auto|left; eauto].
  - rewrite lookup_insert_ne by done. naive_solver.
Qed.

Lemma tot_sign (sgn : Z) a l : Forall (fun az : AssetID * Z => 0 <= sgn * az.2) l -> 0 <= sgn * tot a l.
Proof.
  induction 1 as [|az l Hz HF IH]; [unfold tot; simpl; lia|]. rewrite tot_cons. case_bool_decide; lia.
Qed.

Lemma add_source_upd p s az c :
  src_pair s az -> ranges p ->
  add_source p s c =
    if in_int64 (default 0 (p !! az.1) + az.2) then (VRet (upd p az), c) else (VErr errOverflow, c).
Proof.
  intros (s' & v & -> & Ev & Ea & Em & Hr) Hp. unfold add_source, mbind, V_bind, deref.
  rewrite Ev, Ea, Em. rewrite int64_id by (unfold_int; lia).
  rewrite add_exact by (done || (unfold_int; lia)). unfold exact, upd.
  by destruct (in_int64 (default 0 (p !! az.1) + az.2)).
Qed.

Lemma sub_dest_upd p d az c :
  dest_pair d az -> ranges p -> is_Some (p !! az.1) ->
  sub_dest p d c =
    if in_int64 (default 0 (p !! az.1) + az.2) then (VRet (upd p az), c) else (VErr errOverflow, c).
Proof.
  intros (d' & v & -> & Ev & Ea & Em & Hr) Hp [z Hz]. unfold sub_dest, mbind, V_bind, deref.
  specialize (Hp az.1). rewrite Ev, Ea, Hz, Em in *. simpl in Hp. rewrite int64_id by (unfold_int; lia).
  rewrite sub_exact by (done || (unfold_int; lia)). unfold exact, upd. rewrite Hz. simpl.
  replace (z - - az.2) with (z + az.2) by lia. by destruct (in_int64 (z + az.2)).
Qed.

Lemma sub_dest_none p d az c :
  dest_pair d az -> p !! az.1 = None -> sub_dest p d c = (VErr errNoSource, c).
Proof.
  intros (d' & v & -> & Ev & Ea & _) Hz. unfold sub_dest, mbind, V_bind, deref. by rewrite Ev, Ea, Hz.
Qed.

Section Balance.
Context (sound : cache -> Prop).

Lemma decides_sources l : forall ps p,
  Forall2 src_pair l ps -> ranges p ->
  decides sound (fold_V add_source p l)
    (fun p' => p' = foldl upd p ps /\ forall a, default 0 (p' !! a) <= MaxInt64).
Proof.
  induction l as [|s l IH]; intros ps p HF Hp.
  { apply Forall2_nil_inv_l in HF as ->. apply (decides_iff _ _ (fun p' => p' = p)); [apply decides_ret|].
    intros p'. split; [|tauto]. intros ->. split; [done|]. intros a. specialize (Hp a).
    unfold_int. lia. }
  apply Forall2_cons_inv_l in HF as (az & ps' & Hs & HF & ->). intros c Hc.
  cbn [fold_V]. unfold mbind, V_bind. rewrite (add_source_upd _ _ _ _ Hs Hp).
  assert (0 <= az.2) as Hz by (destruct Hs as (?&?&?&?&?&?&?&?); lia).
  assert (forall a, 0 <= tot a ps') as Hnn.
  { intros a. rewrite <- (Z.mul_1_l (tot a ps')). apply tot_sign. clear -HF.
    induction HF as [|? ? ? ? (?&?&?&?&?&?&?&?)]; constructor; [lia|done]. }
  destruct (in_int64 (default 0 (p !! az.1) + az.2)) eqn:Ei.
  - apply (IH ps' (upd p az) HF); [|done]. intros a. rewrite upd_total. case_bool_decide as E; [by subst|].
    rewrite Z.add_0_r. apply Hp.
  - intros p' [-> Hb]. specialize (Hb az.1). rewrite foldl_total, tot_cons in Hb.
    rewrite bool_decide_eq_true_2 in Hb by done. specialize (Hnn az.1). specialize (Hp az.1).
    unfold_int. lia.
Qed.

Lemma decides_dests l : forall ps p,
  Forall2 dest_pair l ps -> ranges p ->
  decides sound (fold_V sub_dest p l)
    (fun p' => p' = foldl upd p ps /\ (forall a, a ∈ ps.*1 -> is_Some (p !! a)) /\
               forall a, MinInt64 <= default 0 (p' !! a)).
Proof.
  induction l as [|d l IH]; intros ps p HF Hp.
  { apply Forall2_nil_inv_l in HF as ->. apply (decides_iff _ _ (fun p' => p' = p)); [apply decides_ret|].
    intros p'. split; [|tauto]. intros ->. split; [done|]. split; [intros a Ha; inversion Ha|].
    intros a. specialize (Hp a). unfold_int. lia. }
  apply Forall2_cons_inv_l in HF as (az & ps' & Hs & HF & ->). intros c Hc.
  cbn [fold_V]. unfold mbind, V_bind. destruct (p !! az.1) as [z|] eqn:Ez.
  2:{ rewrite (sub_dest_none _ _ _ _ Hs Ez). intros p' (_ & Hk & _).
      destruct (Hk az.1) as [? Hk']; [apply list_elem_of_here|congruence]. }
  rewrite (sub_dest_upd _ _ _ _ Hs Hp ltac:(eauto)).
  assert (az.2 <= 0) as Hz by (destruct Hs as (?&?&?&?&?&?&?&?); lia).
  assert (forall a, tot a ps' <= 0) as Hnn.
  { intros a. assert (0 <= -1 * tot a ps'); [|lia]. apply tot_sign. clear -HF.
    induction HF as [|? ? ? ? (?&?&?&?&?&?&?&?)]; constructor; [lia|done]. }
  destruct (in_int64 (default 0 (p !! az.1) + az.2)) eqn:Ei.
  - eapply (decides_iff _ _ _ _ (IH ps' (upd p az) HF _)); [|done].
    intros p'. simpl foldl. split; intros (-> & Hk & Hm); (split_and!; [done| |done]).
    + intros a [->|Ha]%elem_of_cons; [eauto|]. specialize (Hk a Ha). unfold upd in Hk.
      destruct (decide (az.1 = a)) as [<-|Hne]; [eauto|]. by rewrite lookup_insert_ne in Hk.
    + intros a Ha. unfold upd. destruct (decide (az.1 = a)) as [<-|Hne]; [rewrite lookup_insert_eq; eauto|].
      rewrite lookup_insert_ne by done. apply Hk. by apply list_elem_of_further.
  - intros p' (-> & _ & Hb). specialize (Hb az.1). rewrite foldl_total, tot_cons in Hb.
    rewrite bool_decide_eq_true_2 in Hb by done. specialize (Hnn az.1). specialize (Hp az.1).
    unfold_int. lia.
    Unshelve. intros a. rewrite upd_total. case_bool_decide as E; [by subst|]. rewrite Z.add_0_r. apply Hp.
Qed.

Context (m : Mux) (ps qs : list (AssetID * Z)).
Context (Hps : Forall2 src_pair (Sources m) ps) (Hqs : Forall2 dest_pair (WitnessDestinations m) qs).

Lemma sources_tot a : sources_total m a = tot a ps.
Proof using Hps.
  unfold sources_total. induction Hps as [|s az l l' (s' & v & -> & Ev & Ea & Em & _) HF IH]; [done|].
  rewrite tot_cons. simpl. rewrite IH by done. f_equal. unfold source_value, value_of. simpl.
  rewrite Ev, Ea. repeat case_bool_decide; congruence.
Qed.

Lemma dests_tot a : dests_total m a = - tot a qs.
Proof using Hqs.
  unfold dests_total. induction Hqs as [|d az l l' (d' & v & -> & Ev & Ea & Em & _) HF IH]; [done|].
  rewrite tot_cons. simpl. rewrite IH by done. unfold dest_value, value_of. simpl.
  rewrite Ev, Ea. case_bool_decide as E1; case_bool_decide as E2; try congruence; lia.
Qed.

Lemma sources_assets a : a ∈ ps.*1 <-> exists s, Some s ∈ Sources m /\ (src_Value s ≫= AssetId) = Some a.
Proof using Hps.
  induction Hps as [|s az l l' (s' & v & -> & Ev & Ea & Em & _) HF IH].
  { split; [intros Hin; inversion Hin|intros (s & Hs & _); inversion Hs]. }
  simpl. rewrite elem_of_cons, IH by done. split.
  - intros [->|(s & Hin & E)]; [|exists s; split; [by apply list_elem_of_further|done]].
    exists s'. split; [by apply list_elem_of_here|]. by rewrite Ev.
  - intros (s & Hin & E). apply elem_of_cons in Hin as [[= ->]|Hin]; [left|eauto].
    rewrite Ev in E. simpl in E. congruence.
Qed.

Lemma dests_assets a :
  a ∈ qs.*1 <-> exists d, Some d ∈ WitnessDestinations m /\ (dest_Value d ≫= AssetId) = Some a.
Proof using Hqs.
  induction Hqs as [|d az l l' (d' & v & -> & Ev & Ea & Em & _) HF IH].
  { split; [intros Hin; inversion Hin|intros (d & Hd & _); inversion Hd]. }
  simpl. rewrite elem_of_cons, IH by done. split.
  - intros [->|(d & Hin & E)]; [|exists d; split; [by apply list_elem_of_further|done]].
    exists d'. split; [by apply list_elem_of_here|]. by rewrite Ev.
  - intros (d & Hin & E). apply elem_of_cons in Hin as [[= ->]|Hin]; [left|eauto].
    rewrite Ev in E. simpl in E. congruence.
Qed.

(** The final state of the loops is zero everywhere exactly when sources and
    destinations agree. *)
Lemma zero_parity :
  map_Forall (fun _ amount => amount = 0) (foldl upd (foldl upd ∅ ps) qs) <->
  forall a, sources_total m a = dests_total m a.
Proof using Hps Hqs.
  assert (Ht : forall a, default 0 (foldl upd (foldl upd ∅ ps) qs !! a) =
                         sources_total m a - dests_total m a).
  { intros a. rewrite !foldl_total, sources_tot, dests_tot, lookup_empty. simpl. lia. }
  split.
  - intros Hz a. specialize (Ht a). destruct (foldl upd (foldl upd ∅ ps) qs !! a) as [z|] eqn:E; simpl in Ht; [|lia].
    apply Hz in E. simpl in E. lia.
  - intros Hb a z E. specialize (Ht a). rewrite E in Ht. simpl in Ht. specialize (Hb a). lia.
Qed.

Definition all_zero (p : parity) : Prop := map_Forall (fun _ amount => amount = 0) p.

Lemma decides_tail p :
  ranges p ->
  decides sound (p' ← fold_V sub_dest p (WitnessDestinations m); ensure (bool_decide (all_zero p')) errUnbalanced)
    (fun _ => exists p', (p' = foldl upd p qs /\ (forall a, a ∈ qs.*1 -> is_Some (p !! a)) /\
                         forall a, MinInt64 <= default 0 (p' !! a)) /\ all_zero p').
Proof using Hqs.
  intros Hp. eapply decides_bind; [by apply decides_dests|by intros ? ? [-> _] [-> _]|].
  intros p' _. apply decides_ensure, bool_decide_eq_true.
Qed.

Lemma ranges_sources : (forall a, default 0 (foldl upd ∅ ps !! a) <= MaxInt64) -> ranges (foldl upd ∅ ps).
Proof using Hps.
  intros Hb a. specialize (Hb a). rewrite foldl_total, lookup_empty in *. simpl in *.
  pose proof (tot_sign 1 a ps) as Hs. rewrite Z.mul_1_l in Hs. unfold_int. enough (0 <= tot a ps) by lia.
  apply Hs. clear -Hps. induction Hps as [|? ? ? ? (?&?&?&?&?&?&?&?)]; constructor; [lia|auto].
Qed.

Lemma decides_balance : decides sound (checkBalance m) (fun _ => balanced m).
Proof using Hps Hqs.
  assert (Hr0 : ranges ∅) by (intros a; by rewrite lookup_empty).
  eapply decides_iff.
  - eapply decides_bind; [by apply decides_sources|by intros ? ? [-> _] [-> _]|].
    intros p1 [E1 Hb]. apply decides_tail. rewrite E1 in *. by apply ranges_sources.
  - intros u. split.
    + intros (p1 & [-> Hb] & p2 & (-> & Hk & _) & Hz). split; [by apply zero_parity| |].
      * intros a. specialize (Hb a). rewrite foldl_total, lookup_empty in Hb. by rewrite sources_tot.
      * intros d a Hd Ea. apply sources_assets. destruct (Hk a) as [z Hin]; [apply dests_assets; eauto|].
        pose proof (proj1 (foldl_keys ps a ∅) ltac:(eauto)) as [[? E]|Hin']; [by rewrite lookup_empty in E|done].
    + intros [Hc Hb Hs]. eexists. split; [split; [done|]|].
      { intros a. rewrite foldl_total, lookup_empty. simpl. rewrite <- sources_tot. apply Hb. }
      eexists. split; [split; [done|split]|].
      * intros a (d & Hd & Ea)%dests_assets. apply foldl_keys. right. apply sources_assets. eauto.
      * intros a. rewrite !foldl_total, lookup_empty. simpl.
        specialize (Hc a). rewrite sources_tot, dests_tot in Hc. unfold_int. lia.
      * by apply zero_parity.
Qed.
End Balance.
