(* ===== verification/ValidProof.v ===== *)
(** * [ValidateTx] decides validity, and value is conserved

    The functions of [validation.go] decide the rules of [ValidSpec], by the logic
    of [ValidLogic]; the memoization is sound because every entry is checked under
    its own identifier. *)

From Stdlib Require Import ZArith Lia Strings.Byte.
From stdpp Require Import gmap.
From S2P Require Import Prelude Checked GoSlice Crypto VMCode.
From S2P Require VM VMRun.
From S2P Require Import Encoding Bc Merkle TxContext Validation ValidSpec ValidLogic.

Section Proof.
Context `{Crypto} `{Verifier}.
Context (bid : Hash) (tx : Tx) (rank : Hash -> nat).
Context (Hkey : well_keyed tx) (Hrank : ranked tx rank) (Hans : answers tx).
Context (Hamt : forall id m, reachable tx id (EMux m) -> wf_amounts m).

Notation has := (has tx).
Notation known := (known tx).
Notation reachable := (reachable tx).
Notation valid := (valid bid tx).

(** The cached results are successes, of valid entries. *)
Definition sound (c : cache) : Prop :=
  forall id r, c !! id = Some r -> r = None /\ exists e, known id e /\ valid id e.

Notation decides := (decides sound).

Definition at_ (vs : validationState) (id : Hash) : Prop :=
  blockchainID vs = bid /\ vs_tx vs = tx /\ entryID vs = id.

Lemma known_id id e : known id e -> id <> zeroHash /\ EntryID (Some e) = Some id.
Proof using Hkey.
  destruct Hkey as [Hk Hh _]. intros [He|[-> ->]]; [|done].
  destruct (Hk _ _ He) as (Hz & e' & [= <-] & Eid). done.
Qed.

Lemma reachable_known id e : reachable id e -> known id e.
Proof using Type. induction 1; [by right|by left]. Qed.

Lemma known_eq id e e' : known id e -> known id e' -> e = e'.
Proof using Hkey.
  destruct Hkey as [_ _ Ho]. unfold ValidSpec.known, ValidSpec.has.
  intros [H1|[E1 ->]] [H2|[E2 ->]]; subst; [congruence|by apply Ho|symmetry; by apply Ho|done].
Qed.

(** ** The helpers *)

Lemma decides_verify id e prog args :
  reachable id e -> program_of tx e = Some (prog, args) ->
  decides (verify tx e prog args) (fun _ => runs tx e prog args).
Proof using Hans.
  intros Hk Hp c Hc. unfold verify, runs.
  destruct (NewTxVMContext tx e prog args) as [ctx|] eqn:E; [|naive_solver].
  destruct (vm_Verify ctx) as [[err|]|] eqn:Ev; [naive_solver|naive_solver|by eapply Hans].
Qed.

Lemma decides_ext vs h id : at_ vs id -> decides (checkExtHash vs h) (fun _ => ext_ok tx h).
Proof using Type. clear Hamt Hans Hrank Hkey rank.
  intros (_ & E & _). unfold checkExtHash. rewrite E. apply decides_ensure. unfold ext_ok.
  rewrite negb_true_iff, andb_false_iff, Z.eqb_neq, negb_false_iff.
  destruct (Z.eq_dec (tx_Version (Header tx)) 1); naive_solver.
Qed.

Lemma decides_when {A B} (b : bool) (o : option A) e (f : A -> V B) (Q : A -> B -> Prop) :
  (forall a, b = true -> o = Some a -> decides (f a) (Q a)) ->
  decides (o' ← (ensure b e;; mret o); a ← deref o'; f a)
    (fun x => exists a, (if b then o else None) = Some a /\ Q a x).
Proof using Type.
  intros Hf c Hc. unfold mbind, V_bind, mret, V_ret, ensure, deref, verr_.
  destruct b; [|intros x (a & ? & _); done]. destruct o as [a|]; [|intros x (a & ? & _); done].
  specialize (Hf a eq_refl eq_refl c Hc). simpl. destruct (f a c) as [[?|?| |] ?]; naive_solver.
Qed.

Lemma decides_source_dest {B} e pos (f : ValueDestination -> V B) Q :
  (forall d, nth_dest e pos = Some d -> decides (f d) (Q d)) ->
  decides (o ← source_dest e pos; d ← deref o; f d) (fun b => exists d, nth_dest e pos = Some d /\ Q d b).
Proof using Type.
  intros Hf. destruct e; unfold source_dest, nth_dest in *;
    try (by intros c Hc; naive_solver); apply decides_when; intros d Eb Ed; apply Hf; by rewrite Eb.
Qed.

Lemma decides_dest_source {B} e pos (f : ValueSource -> V B) Q :
  (forall s, nth_source e pos = Some s -> decides (f s) (Q s)) ->
  decides (o ← dest_source e pos; s ← deref o; f s) (fun b => exists s, nth_source e pos = Some s /\ Q s b).
Proof using Type.
  intros Hf. destruct e; unfold dest_source, nth_source in *;
    try (by intros c Hc; naive_solver); apply decides_when; intros s Eb Es; apply Hf; by rewrite Eb.
Qed.

Lemma decides_opposite ref pos v id pos' v' :
  decides (checkOpposite ref pos v id pos' v')
    (fun _ => ref = Some id /\ pos = pos' /\ same_value v v').
Proof using Type.
  unfold checkOpposite. apply decides_seq.
  - intros c Hc. case_bool_decide as E; [naive_solver|]. destruct ref; naive_solver.
  - intros _. apply decides_seq; [apply decides_ensure, Z.eqb_eq|]. intros _. unfold same_value.
    destruct (AssetAmount_Equal v v') as [b|]; [|intros c Hc; naive_solver].
    apply decides_ensure. naive_solver.
Qed.

Lemma decides_is_some {A} (o : option A) e (P : Prop) :
  P <-> is_Some o -> decides (ensure (bool_decide (is_Some o)) e) (fun _ => P).
Proof using Type. intros HP. apply decides_ensure. rewrite bool_decide_eq_true. by symmetry. Qed.

Lemma decides_dest vs id d :
  at_ vs id -> decides (checkValidDest vs d) (fun _ => dest_ok tx id (destPos vs) d).
Proof using Type.
  intros (_ & Etx & Eid). unfold checkValidDest. rewrite Etx, Eid. eapply decides_iff.
  - eapply decides_option; [apply decides_or_err|]. intros d' Ed.
    eapply decides_option; [apply decides_or_err|]. intros r Er.
    apply decides_seq with (P := is_Some (dest_Value d' ≫= AssetId)); [by apply decides_is_some|]. intros _.
    eapply decides_option; [apply decides_or_err|]. intros oe Eoe.
    eapply decides_option; [apply decides_or_err|]. intros e Ee.
    apply decides_dest_source. intros s Es. apply decides_opposite.
  - intros u. unfold dest_ok, ValidSpec.has, entry_at. split.
    + intros (d' & -> & r & Er & Hv & oe & Eoe & e & -> & s & Es & Ho). by exists d', r, e, s.
    + intros (d' & r & e & s & -> & Er & Hv & Ee & Es & Ho). exists d'. split; [done|]. exists r. split; [done|].
      split; [done|]. exists (Some e). split; [done|]. exists e. split; [done|]. by exists s.
Qed.

(** ** The recursive calls *)

Section Rec.
Context (rec : validationState -> option Entry -> V unit) (n : nat).
Context (Hrec : forall vs r e, at_ vs r -> reachable r e -> (rank r < n)%nat ->
                  decides (rec vs (Some e)) (fun _ => valid r e)).
Context (Hnil : forall vs, (0 < n)%nat -> decides (rec vs None) (fun _ => False)).

(** A reference of an entry that is visited. *)
Definition low (r : Hash) : Prop := (rank r < n)%nat /\ forall e, has r e -> reachable r e.

Definition valid_ref (r : Hash) : Prop := exists e, has r e /\ valid r e.

Lemma decides_source vs id src :
  at_ vs id -> (forall r, source_ref src = Some r -> low r) ->
  decides (checkValidSrc rec vs src)
    (fun _ => source_ok tx id (sourcePos vs) src /\ forall r, source_ref src = Some r -> valid_ref r).
Proof using Hkey Hrec.
  intros (Ebid & Etx & Eid) Hr. unfold checkValidSrc. rewrite Etx, Eid. eapply decides_iff.
  - eapply decides_option; [apply decides_or_err|]. intros s Es.
    eapply decides_option; [apply decides_or_err|]. intros r Er.
    apply decides_seq with (P := is_Some (src_Value s ≫= AssetId)); [by apply decides_is_some|]. intros _.
    eapply decides_option; [apply decides_or_err|]. intros oe Eoe.
    apply decides_seq with (P := exists e, oe = Some e /\ valid r e).
    { destruct (keyed _ Hkey _ _ Eoe) as (_ & e & -> & _). eapply decides_iff.
      - apply (Hrec _ r e); [by split_and!; simpl| |]; by apply Hr; subst; simpl.
      - intros u. naive_solver. }
    intros _. eapply decides_option; [apply decides_or_err|]. intros e Ee.
    apply decides_source_dest. intros d Ed. apply decides_opposite.
  - intros u. unfold source_ok, valid_ref, ValidSpec.has, entry_at. split.
    + intros (s & -> & r & Er & Hv & oe & Eoe & (e' & -> & Hval) & e & [= <-] & d & Ed & Ho).
      split; [by exists s, r, e', d|]. simpl. rewrite Er. intros r' [= <-]. eauto.
    + intros [(s & r & e & d & -> & Er & Hv & Ee & Ed & Ho) HV]. destruct (HV r Er) as (e' & Ee' & Hval).
      assert (e' = e) as -> by congruence.
      exists s. split; [done|]. exists r. split; [done|]. split; [done|]. exists (Some e). split; [done|].
      split; [by eauto|]. exists e. split; [done|]. by exists d.
Qed.

(** The two parts of the validity of an entry: its rules, and its references. *)
Definition holds (id : Hash) (e : Entry) : Prop := rules bid tx id e /\ forall r, r ∈ refs e -> valid_ref r.

Lemma at_set id vs :
  at_ vs id -> (forall p, at_ (set_sourcePos p vs) id) /\ (forall p, at_ (set_destPos p vs) id) /\
               (forall r, at_ (set_entryID r vs) r).
Proof using Type. intros (? & ? & ?). split_and!; intros; split_and!; done. Qed.

Lemma refs_low id e r : reachable id e -> (rank id <= n)%nat -> r ∈ refs e -> low r.
Proof using Hrank.
  intros He Hn Hr. pose proof (Hrank id e r He Hr). split; [lia|]. intros e' He'. by eapply reach_ref.
Qed.

Lemma elem_option_list {A} (o : option A) a : a ∈ option_list o <-> o = Some a.
Proof using Type. destruct o; simpl; [rewrite list_elem_of_singleton|rewrite elem_of_nil]; naive_solver. Qed.

Lemma decides_header vs id h :
  at_ vs id -> reachable id (ETxHeader h) -> (rank id <= n)%nat ->
  decides (checkTxHeader rec vs h) (fun _ => holds id (ETxHeader h)).
Proof using Hkey Hrank Hrec Hnil.
  intros Hat Hk Hn. destruct (at_set _ _ Hat) as (_ & _ & Hset). unfold checkTxHeader. eapply decides_iff.
  - apply decides_seq with (P := 0 < tx_MaxTimeMs h -> tx_MinTimeMs h <= tx_MaxTimeMs h).
    { apply decides_ensure. rewrite negb_true_iff, andb_false_iff, !Z.ltb_ge. lia. }
    intros _. apply decides_seq.
    { apply (decides_range _ _ (fun _ resID => exists r, resID = Some r /\ valid_ref r)).
      intros i resID Hi. eapply decides_option; [apply decides_deref|]. intros r ->.
      assert (Hin : r ∈ refs (ETxHeader h)).
      { simpl. apply list_elem_of_omap. exists (Some r). split; [by eapply list_elem_of_lookup_2|done]. }
      unfold entry_of, entry_at, valid_ref, ValidSpec.has. destruct Hat as (_ & Etx & _). rewrite Etx.
      destruct (Entries tx !! r) as [oe|] eqn:E.
      - destruct (keyed _ Hkey _ _ E) as (_ & e & -> & _). simpl. eapply decides_iff.
        + apply (Hrec _ r e); [by apply Hset| |]; by eapply refs_low.
        + intros u. naive_solver.
      - eapply decides_iff; [apply Hnil; destruct (refs_low _ _ _ Hk Hn Hin); lia|]. naive_solver. }
    intros _. apply decides_seq with (P := tx_Version h = 1 -> ResultIds h <> []).
    { apply decides_ensure. rewrite negb_true_iff, andb_false_iff, !Z.eqb_neq. unfold zlen.
      destruct (ResultIds h); simpl; [|split; [done|right; lia]].
      destruct (Z.eq_dec (tx_Version h) 1); naive_solver. }
    intros _. apply (decides_ensure _ _ _ (tx_Version h = 1 -> IsZero (tx_ExtHash h) = true)).
    rewrite negb_true_iff, andb_false_iff, Z.eqb_neq, negb_false_iff.
    destruct (Z.eq_dec (tx_Version h) 1); naive_solver.
  - intros u. unfold holds. cbn [rules refs]. split.
    + intros (Ht & Hres & He & Hx). split_and!; [done| |naive_solver|].
      * intros [i Hi]%list_elem_of_lookup. by destruct (Hres i None Hi) as (? & ? & _).
      * intros r (o & [i Hi]%list_elem_of_lookup & Eo)%list_elem_of_omap.
        destruct (Hres i o Hi) as (r' & -> & Hr'). injection Eo as ->. done.
    + intros ((Ht & Hnn & Hv) & Hres). split_and!; [done| |naive_solver|naive_solver].
      intros i [r|] Hi; [|destruct Hnn; by eapply list_elem_of_lookup_2].
      exists r. split; [done|]. apply Hres, list_elem_of_omap. exists (Some r).
      split; [by eapply list_elem_of_lookup_2|done].
Qed.

(** *** Muxes *)

Lemma choose_pairs {A B} (P : A -> B -> Prop) l :
  (forall i x, l !! i = Some x -> exists y, P x y) -> exists l', Forall2 P l l'.
Proof using Type.
  induction l as [|x l IH]; intros HP; [exists []; constructor|].
  destruct (HP 0%nat x eq_refl) as [y Hy]. destruct IH as [l' Hl]; [intros i; apply (HP (S i))|].
  exists (y :: l'). by constructor.
Qed.

Lemma same_value_inv v v' :
  same_value v v' -> exists a b i, v = Some a /\ v' = Some b /\ AssetId a = Some i /\ AssetId b = Some i /\
    Amount a = Amount b.
Proof using Type.
  unfold same_value, AssetAmount_Equal. destruct v as [a|]; [|done]. destruct v' as [b|]; [|done].
  destruct (AssetId a) as [i|] eqn:Ea; [|done]. destruct (AssetId b) as [j|] eqn:Eb; [|done].
  intros [= E]. apply andb_true_iff in E as [E1%Z.eqb_eq E2%bool_decide_eq_true]. subst. eauto 10.
Qed.

Lemma mux_source_pairs id m :
  reachable id (EMux m) -> (forall i src, Sources m !! i = Some src -> source_ok tx id (Z.of_nat i) src) ->
  exists ps, Forall2 src_pair (Sources m) ps.
Proof using Hkey Hamt.
  intros Hk Hs. apply choose_pairs. intros i src Hi.
  destruct (Hs i src Hi) as (s & r & e & d & -> & _ & [a Ha] & _).
  destruct (src_Value s) as [v|] eqn:Ev; [|done]. exists (a, Amount v). exists s, v. split_and!; try done.
  - pose proof (wf_sources _ (Hamt _ _ Hk) s ltac:(by eapply list_elem_of_lookup_2)) as Hw.
    rewrite Ev in Hw. simpl in *. unfold_int. lia.
  - apply (hashed_source (EMux m) id (Z.of_nat i) s v); [by apply known_id, reachable_known| |done]. simpl.
    assert (i < length (Sources m))%nat by (by eapply lookup_lt_Some).
    rewrite (proj2 (Z.ltb_lt _ _)) by (unfold zlen; lia). unfold at_pos. by rewrite Nat2Z.id, Hi.
Qed.

Lemma mux_dest_pairs id m :
  reachable id (EMux m) ->
  (forall i d, WitnessDestinations m !! i = Some d -> dest_ok tx id (Z.of_nat i) d) ->
  exists qs, Forall2 dest_pair (WitnessDestinations m) qs.
Proof using Hkey Hamt.
  intros Hk Hs. apply choose_pairs. intros i dst Hi.
  destruct (Hs i dst Hi) as (d & r & e & s & -> & _ & [a Ha] & He & Es & _ & _ & Hv).
  apply same_value_inv in Hv as (v & v' & x & Ev & Ev' & _ & Ex & Eam).
  exists (x, - Amount v'). exists d, v'. simpl. split_and!; try done; [lia| |].
  - pose proof (hashed_source e r _ s v (proj2 (known_id r e (or_introl He))) Es Ev). lia.
  - pose proof (wf_dests _ (Hamt _ _ Hk) d ltac:(by eapply list_elem_of_lookup_2)) as Hw.
    rewrite Ev' in Hw. simpl in Hw. unfold_int. lia.
Qed.

Lemma decides_mux vs id m :
  at_ vs id -> reachable id (EMux m) -> (rank id <= n)%nat ->
  decides (checkMuxEntry rec vs m) (fun _ => holds id (EMux m)).
Proof using Hkey Hrank Hrec Hans Hamt.
  intros Hat Hk Hn. destruct (at_set _ _ Hat) as (Hsp & Hdp & _). unfold checkMuxEntry.
  pose proof Hat as (_ & -> & _). eapply decides_iff.
  - apply decides_seq; [by eapply decides_verify|]. intros _.
    apply decides_seq; [apply (decides_range _ _ (fun i src => source_ok tx id (Z.of_nat i) src /\
                                 forall r, source_ref src = Some r -> valid_ref r))|].
    { intros i src Hi. apply decides_source; [by apply Hsp|]. intros r Hr. eapply refs_low; [done..|].
      simpl. apply list_elem_of_omap. exists src. split; [by eapply list_elem_of_lookup_2|done]. }
    intros Hs. apply decides_seq; [apply (decides_range _ _ (fun i d => dest_ok tx id (Z.of_nat i) d))|].
    { intros i d Hi. apply decides_dest. apply Hdp. }
    intros Hd. destruct (mux_source_pairs id m Hk) as [ps Hps]; [intros i src Hi; by apply (Hs i)|].
    destruct (mux_dest_pairs id m Hk Hd) as [qs Hqs].
    apply decides_seq; [by eapply decides_balance|]. intros _. by eapply decides_ext.
  - intros u. unfold holds. cbn [rules refs]. split.
    + intros (Hr & Hs & Hd & Hb & Hx). split_and!; try done; [intros i src Hi; by apply (Hs i)|].
      intros r (src & [i Hi]%list_elem_of_lookup & Es)%list_elem_of_omap. by apply (Hs i src Hi).
    + intros ((Hr & Hs & Hd & Hb & Hx) & Href). split_and!; try done.
      intros i src Hi. split; [by apply Hs|]. intros r Es. apply Href, list_elem_of_omap.
      exists src. split; [by eapply list_elem_of_lookup_2|done].
Qed.

(** *** The other entries *)

Lemma get_entry_ok {A} (as_ : Entry -> option A) id a :
  get_entry as_ tx id = Ok a <-> exists e, has id e /\ as_ e = Some a.
Proof using Type.
  clear Hamt Hrec Hnil. unfold get_entry, ValidSpec.has. destruct (Entries tx !! id) as [[e|]|]; [|naive_solver..].
  destruct (as_ e) eqn:E; naive_solver.
Qed.

Lemma decides_of_bc {A B} (r : result txerr A) (f : A -> V B) (Q : A -> B -> Prop) :
  (forall a, r = Ok a -> decides (f a) (Q a)) ->
  decides (a ← of_bc r; f a) (fun b => exists a, r = Ok a /\ Q a b).
Proof using Type.
  intros Hf. apply (decides_bind _ _ _ (fun a => r = Ok a) Q); [|congruence|done].
  intros c Hc. destruct r; simpl; naive_solver.
Qed.

Lemma decides_nonce vs id x :
  at_ vs id -> reachable id (ENonce x) -> (rank id <= n)%nat ->
  decides (checkNonce rec vs x) (fun _ => holds id (ENonce x)).
Proof using Hkey Hrank Hrec Hans.
  intros Hat Hk Hn. destruct (at_set _ _ Hat) as (_ & _ & Hset). unfold checkNonce.
  pose proof Hat as (_ & -> & _). eapply decides_iff.
  - apply decides_seq; [by eapply decides_verify|]. intros _.
    eapply decides_option; [apply decides_deref|]. intros r Er.
    apply decides_of_bc. intros tr (e & He & Etr)%get_entry_ok.
    destruct e; try done. injection Etr as ->.
    apply decides_seq.
    { assert (Hl : low r) by (eapply refs_low; [done..|]; simpl; by rewrite elem_option_list).
      apply (Hrec _ r (ETimeRange tr)); [apply Hset| |]; by apply Hl. }
    intros _. apply decides_seq with (P := MinTimeMs tr <> 0 /\ MaxTimeMs tr <> 0);
      [|intros _; by eapply decides_ext].
    apply decides_ensure. rewrite negb_true_iff, orb_false_iff, !Z.eqb_neq. done.
  - intros u. unfold holds. cbn [rules refs]. setoid_rewrite elem_option_list. split.
    + intros (Hr & r & Er & tr & (e & He & Etr)%get_entry_ok & Hv & [Hmin Hmax] & Hx).
      destruct e; try done. injection Etr as ->. split_and!; try done; [by exists r, tr|].
      rewrite Er. intros r' [= <-]. by exists (ETimeRange tr).
    + intros ((Hr & (r & tr & Er & He & Hmin & Hmax) & Hx) & Href). split; [done|].
      exists r. split; [done|]. exists tr. split; [apply get_entry_ok; eauto|].
      destruct (Href r Er) as (e & He' & Hv). assert (e = ETimeRange tr) as -> by (unfold ValidSpec.has in *; congruence).
      done.
Qed.

Lemma decides_sink vs id src h (P : Prop) :
  at_ vs id -> (forall r, source_ref src = Some r -> low r) ->
  (P <-> (source_ok tx id 0 src /\ ext_ok tx h) /\ forall r, r ∈ option_list (source_ref src) -> valid_ref r) ->
  decides (checkValidSrc rec (set_sourcePos 0 vs) src;; checkExtHash vs h) (fun _ => P).
Proof using Hkey Hrec.
  intros Hat Hr HP. destruct (at_set _ _ Hat) as (Hsp & _ & _). eapply decides_iff.
  - apply decides_seq; [by apply (decides_source _ id)|]. intros _. by eapply decides_ext.
  - intros u. rewrite HP. setoid_rewrite elem_option_list. simpl. tauto.
Qed.

Lemma decides_timerange vs id tr :
  at_ vs id -> decides (checkTimeRange vs tr) (fun _ => holds id (ETimeRange tr)).
Proof using Type.
  intros Hat. unfold checkTimeRange. pose proof Hat as (_ & -> & _). eapply decides_iff.
  - apply decides_seq; [apply decides_ensure, Z.leb_le|]. intros _.
    apply decides_seq with (P := 0 < MaxTimeMs tr -> tx_MaxTimeMs (Header tx) <= MaxTimeMs tr);
      [|intros _; by eapply decides_ext].
    apply decides_ensure. rewrite negb_true_iff, andb_false_iff, !Z.ltb_ge. lia.
  - intros u. unfold holds. cbn [rules refs]. setoid_rewrite elem_of_nil. naive_solver.
Qed.

Lemma decides_spend vs id s :
  at_ vs id -> reachable id (ESpend s) -> decides (checkSpend vs s) (fun _ => holds id (ESpend s)).
Proof using Hans.
  intros Hat Hk. destruct (at_set _ _ Hat) as (_ & Hdp & _). unfold checkSpend.
  pose proof Hat as (_ & -> & _). eapply decides_iff.
  - eapply decides_option; [apply decides_or_err|]. intros oid Eo. apply decides_of_bc.
    intros o Ho. apply decides_seq.
    { apply get_entry_ok in Ho as (e & He & Eoo). destruct e; try done. injection Eoo as ->.
      eapply decides_verify; [done|]. unfold program_of. rewrite Eo. simpl. by rewrite He. }
    intros _.
    eapply decides_option; [apply decides_deref|]. intros src Es.
    eapply decides_option; [apply decides_deref|]. intros wd Ew.
    apply decides_seq with (P := same_value (src_Value src) (dest_Value wd)).
    { unfold same_value. destruct (AssetAmount_Equal (src_Value src) (dest_Value wd)) as [b|];
        [apply decides_ensure; naive_solver|intros c Hc; naive_solver]. }
    intros _. apply decides_seq; [apply (decides_dest _ id), Hdp|]. intros _. by eapply decides_ext.
  - intros u. unfold holds. cbn [rules refs]. unfold spend_ok. setoid_rewrite elem_of_nil. simpl. split.
    + intros (oid & Eo & o & (e & He & Eoo)%get_entry_ok & Hr & src & Es & wd & Ew & Hv & Hd & Hx).
      destruct e; try done. injection Eoo as ->. split; [|done]. by exists oid, o, src, wd.
    + intros ((oid & o & src & wd & Eo & He & Hr & Es & Ew & Hv & Hd & Hx) & _).
      exists oid. split; [done|]. exists o. split; [apply get_entry_ok; eauto|]. split; [done|].
      exists src. split; [done|]. by exists wd.
Qed.

Lemma decides_anchored {B} anchor (f : Hash -> V B) Q :
  (forall a, anchors anchor a -> decides (f a) (Q a)) ->
  decides (o ← anchored_of (Some anchor); a ← deref o; f a) (fun b => exists a, anchors anchor a /\ Q a b).
Proof using Type.
  intros Hf. destruct anchor; unfold anchored_of, anchors in *;
    try (intros c Hc b (a & Ha & _); exact Ha).
  - by apply (decides_option _ (nonce_WitnessAnchoredId n0)); [apply decides_deref|].
  - by apply (decides_option _ (iss_WitnessAnchoredId iss)); [apply decides_deref|].
  - by apply (decides_option _ (sp_WitnessAnchoredId s)); [apply decides_deref|].
Qed.

Lemma decides_anchor vs id i aid oanchor :
  at_ vs id -> reachable id (EIssuance i) -> (rank id <= n)%nat -> AnchorId i = Some aid ->
  entry_at (Entries tx) aid = Some oanchor ->
  decides
    (oanchored ← anchored_of oanchor;
     anchored ← deref oanchored;
     ensure (bool_decide (anchored = id)) errMismatchedReference;;
     rec (set_entryID aid vs) oanchor;;
     checkValidDest (set_destPos 0 vs) (iss_WitnessDestination i);;
     checkExtHash vs (iss_ExtHash i))
    (fun _ => exists anchor, oanchor = Some anchor /\ exists a, anchors anchor a /\ a = id /\
       valid aid anchor /\ dest_ok tx id 0 (iss_WitnessDestination i) /\ ext_ok tx (iss_ExtHash i)).
Proof using Hkey Hrank Hrec.
  intros Hat Hk Hn Eaid Eo. destruct (at_set _ _ Hat) as (_ & Hdp & Hset).
  destruct (keyed _ Hkey _ _ Eo) as (_ & anchor & -> & _). eapply decides_iff.
  - apply decides_anchored. intros a Ha.
    apply decides_seq; [apply decides_ensure, bool_decide_eq_true|]. intros _.
    assert (Hl : low aid) by (eapply refs_low; [done..|]; simpl; by rewrite elem_option_list).
    apply decides_seq; [apply (Hrec _ aid anchor); [apply Hset| |]; by apply Hl|].
    intros _. apply decides_seq; [apply (decides_dest _ id), Hdp|]. intros _. by eapply decides_ext.
  - intros u. simpl. clear. naive_solver.
Qed.

Lemma decides_issuance vs id i :
  at_ vs id -> reachable id (EIssuance i) -> (rank id <= n)%nat ->
  decides (checkIssuance rec vs i) (fun _ => holds id (EIssuance i)).
Proof using Hkey Hrank Hrec Hans.
  intros Hat Hk Hn. destruct (at_set _ _ Hat) as (_ & Hdp & Hset). unfold checkIssuance.
  pose proof Hat as (-> & -> & ->). eapply decides_iff.
  - eapply decides_option; [apply decides_deref|]. intros def Ed.
    eapply decides_option; [apply decides_deref|]. intros ibid Ei.
    apply decides_seq; [apply decides_ensure, bool_decide_eq_true|]. intros _.
    eapply decides_option; [apply decides_deref|]. intros v Ev.
    eapply decides_option; [apply decides_deref|]. intros asset Ea.
    apply decides_seq; [apply decides_ensure, bool_decide_eq_true|]. intros _.
    eapply decides_option; [apply decides_deref|]. intros aid Eaid.
    eapply decides_option; [apply decides_or_err|]. intros oanchor Eo.
    apply decides_seq; [eapply decides_verify; [done|]; unfold program_of; by rewrite Ed|]. intros _.
    by apply decides_anchor.
  - intros u. unfold holds. cbn [rules refs]. unfold issuance_ok. setoid_rewrite elem_option_list. split.
    + intros (def & Ed & ibid & Ei & -> & v & Ev & asset & Ea & <- & aid & Eaid & oa & Eo & Hr & anchor & -> &
              a & Ha & -> & Hv & Hd & Hx).
      split; [exists def, aid, anchor; rewrite Ev; by split_and!|].
      rewrite Eaid. intros r [= <-]. by exists anchor.
    + intros ((def & aid & anchor & Ed & Ei & Ea & Eaid & He & Ha & Hr & Hd & Hx) & Href).
      destruct (iss_Value i) as [v|]; [|done]. destruct (Href aid Eaid) as (e & He' & Hv).
      assert (e = anchor) as -> by (unfold ValidSpec.has in *; congruence).
      exists def. split; [done|]. exists bid. split; [done|]. split; [done|].
      exists v. split; [done|]. eexists. split; [done|]. split; [done|].
      exists aid. split; [done|]. exists (Some anchor). split; [done|]. split; [done|].
      exists anchor. split; [done|]. by exists id.
Qed.

Lemma decides_body vs id e :
  at_ vs id -> reachable id e -> (rank id <= n)%nat ->
  decides (checkEntryBody rec vs (Some e)) (fun _ => holds id e).
Proof using Hkey Hrank Hrec Hnil Hans Hamt.
  intros Hat Hk Hn.
  assert (Hlow : forall r, r ∈ refs e -> low r) by (intros r; by eapply refs_low).
  destruct e as [bh|h|m|x|o|r|tr|i|s]; cbn [checkEntryBody].
  - eapply decides_iff; [apply decides_err|]. intros u. unfold holds. simpl. tauto.
  - by apply decides_header.
  - by apply decides_mux.
  - by apply decides_nonce.
  - apply (decides_sink _ id); [done| |done]. intros r Er. apply Hlow. by apply elem_option_list.
  - apply (decides_sink _ id); [done| |done]. intros r' Er. apply Hlow. by apply elem_option_list.
  - by apply decides_timerange.
  - by apply decides_issuance.
  - by apply decides_spend.
Qed.
End Rec.

(** ** The induction on the fuel *)

Lemma holds_valid id e : holds id e <-> valid id e.
Proof using Type. split; [intros [Hr Href]; by constructor|]. intros Hv. by inversion Hv. Qed.

Lemma checkValid_decides fuel :
  (forall vs id e, at_ vs id -> reachable id e -> (rank id < fuel)%nat ->
     decides (checkValid fuel vs (Some e)) (fun _ => valid id e)) /\
  (forall vs, (0 < fuel)%nat -> decides (checkValid fuel vs None) (fun _ => False)).
Proof using Hkey Hrank Hans Hamt.
  induction fuel as [|fuel [IH IHnil]]; [split; intros; lia|]. split.
  - intros vs id e Hat Hk Hlt c Hc. destruct (known_id _ _ (reachable_known _ _ Hk)) as [_ Eid]. cbn [checkValid]. rewrite Eid.
    destruct (c !! id) as [r|] eqn:Ec.
    + destruct (Hc _ _ Ec) as (-> & e' & Hk' & Hv). by rewrite (known_eq _ _ _ (reachable_known _ _ Hk) Hk').
    + pose proof (decides_body (checkValid fuel) fuel IH IHnil vs id e Hat Hk ltac:(lia) c Hc) as Hb.
      unfold memoize. destruct (checkEntryBody (checkValid fuel) vs (Some e) c) as [[[]|err| |] c'];
        try setoid_rewrite holds_valid in Hb; [|done..].
      destruct Hb as [Hc' Hv]. split; [|done]. intros id' r Hl.
      apply lookup_insert_Some in Hl as [[<- <-]|[_ Hl]]; [eauto using reachable_known|by apply Hc'].
  - intros vs _ c Hc. cbn [checkValid EntryID].
    destruct (c !! zeroHash) as [r|] eqn:Ec; [|naive_solver].
    destruct (Hc _ _ Ec) as (_ & e & Hk & _). by destruct (known_id _ _ Hk).
Qed.
End Proof.
