(* ===== verification/ValidTheorems.v ===== *)
(** * Theorems about [ValidateTx] and [ValidateBlock]

    Validation terminates and decides the rules; value is conserved in every mux
    of a valid transaction; a block is accepted exactly under the conditions of
    the protocol; and the error path that panics. *)

From Stdlib Require Import ZArith Lia Strings.Byte.
From stdpp Require Import gmap.
From S2P Require Import Prelude Checked GoSlice Crypto VMCode.
From S2P Require VM VMRun VMExec.
From S2P Require Import Encoding Bc Merkle TxContext Validation ValidSpec ValidLogic ValidProof.

(** ** Checking the hypotheses on a given transaction *)

Definition on_entries (f : Hash -> Entry -> bool) (tx : Tx) : bool :=
  forallb (fun p => match p.2 with Some e => f p.1 e | None => false end) (map_to_list (Entries tx)).

Lemma on_entries_lookup f tx id oe :
  on_entries f tx = true -> Entries tx !! id = Some oe -> exists e, oe = Some e /\ f id e = true.
Proof.
  unfold on_entries. rewrite forallb_forall. intros Hf Hl.
  specialize (Hf (id, oe) ltac:(by apply list_elem_of_In, elem_of_map_to_list)). simpl in Hf.
  destruct oe as [e|]; [eauto|done].
Qed.

Section Checks.
Context `{Crypto} `{Verifier}.
Context (rank : Hash -> nat).

Definition check_entry (tx : Tx) (id : Hash) (e : Entry) : bool :=
  bool_decide (id <> zeroHash) && bool_decide (EntryID (Some e) = Some id) &&
  forallb (fun r => (rank r <? rank id)%nat) (refs e) &&
  match program_of tx e with
  | None => true
  | Some (prog, args) =>
      match NewTxVMContext tx e prog args with
      | None => true
      | Some c => match vm_Verify c with None => false | Some _ => true end
      end
  end &&
  match e with
  | EMux m =>
      forallb (fun s => match s ≫= src_Value with Some v => in_uint64 (Amount v) | None => true end) (Sources m) &&
      forallb (fun d => match d ≫= dest_Value with Some v => in_uint64 (Amount v) | None => true end)
        (WitnessDestinations m)
  | _ => true
  end.

(** Decidable forms of the hypotheses about a transaction. *)
Definition check_tx (tx : Tx) : bool :=
  check_entry tx (tx_ID tx) (ETxHeader (Header tx)) &&
  bool_decide (Entries tx !! tx_ID tx = None) && on_entries (check_entry tx) tx.

Lemma check_tx_known tx id e : check_tx tx = true -> known tx id e -> check_entry tx id e = true.
Proof.
  unfold check_tx. rewrite !andb_true_iff. intros [[Hh _] Hf] [He|[-> ->]]; [|done].
  destruct (on_entries_lookup _ _ _ _ Hf He) as (e' & [= <-] & Hc). done.
Qed.

Lemma check_entry_inv tx id e :
  check_entry tx id e = true ->
  id <> zeroHash /\ EntryID (Some e) = Some id /\ (forall r, r ∈ refs e -> (rank r < rank id)%nat) /\
  (forall prog args c, program_of tx e = Some (prog, args) -> NewTxVMContext tx e prog args = Some c ->
     vm_Verify c <> None) /\
  (forall m, e = EMux m -> wf_amounts m).
Proof.
  unfold check_entry. rewrite !andb_true_iff, !bool_decide_eq_true.
  intros ((((Hz & Hid) & Hr) & Hp) & Ha). split_and!; [done|done| | |].
  - intros r Hin. rewrite forallb_forall in Hr. apply Nat.ltb_lt, Hr. by apply list_elem_of_In.
  - intros prog args c E Ec. rewrite E, Ec in Hp. by destruct (vm_Verify c).
  - intros m ->. apply andb_true_iff in Ha as [Hs Hd]. rewrite forallb_forall in Hs, Hd. split.
    + intros s Hin%list_elem_of_In. specialize (Hs _ Hin). simpl in Hs. unfold amount_ok.
      by destruct (src_Value s).
    + intros d Hin%list_elem_of_In. specialize (Hd _ Hin). simpl in Hd. unfold amount_ok.
      by destruct (dest_Value d).
Qed.

Lemma check_tx_ok tx :
  check_tx tx = true ->
  well_keyed tx /\ ranked tx rank /\ answers tx /\ forall id m, reachable tx id (EMux m) -> wf_amounts m.
Proof.
  intros Hc. pose proof (fun id e Hk => check_entry_inv tx id e (check_tx_known tx id e Hc Hk)) as HK.
  unfold check_tx in Hc. rewrite !andb_true_iff, bool_decide_eq_true in Hc. destruct Hc as [[_ Hno] Hf].
  split_and!.
  - split.
    + intros id oe Hl. destruct (on_entries_lookup _ _ _ _ Hf Hl) as (e & -> & _).
      destruct (HK id e (or_introl Hl)) as (? & ? & _). eauto.
    + by destruct (HK (tx_ID tx) _ (or_intror (conj eq_refl eq_refl))) as (? & ? & _).
    + intros e He. unfold has in He. congruence.
  - intros id e r Hk%reachable_known. by apply HK.
  - intros id e prog args c Hk%reachable_known. by apply (HK id e Hk).
  - intros id m Hk%reachable_known. by apply (HK id (EMux m) Hk).
Qed.
End Checks.

(** ** A transaction that splits an output *)

Section Example.
#[local] Existing Instance toy_crypto.

Definition ex_asset : AssetID := mkHash 9 0 0 0.
Definition ex_bid : Hash := mkHash 5 5 5 5.
Definition ex_amount (n : Z) : option AssetAmount := Some (mkAssetAmount (Some ex_asset) n).
Definition ex_prog : option Program := Some (mkProgram 1 [x51]).
Definition ex_id (e : Entry) : Hash := default zeroHash (EntryID (Some e)).

(** The output that is spent, the spend, the mux, a new output and a retirement. *)
Definition ex_prevout : Entry :=
  EOutput (NewOutput (Some (mkValueSource (Some (mkHash 1 2 3 4)) (ex_amount 10) 0)) ex_prog (Some zeroHash) 0).
Definition ex_spend0 : Spend := NewSpend (Some (ex_id ex_prevout)) (Some zeroHash) 0.
Definition ex_mux0 : Mux :=
  NewMux [Some (mkValueSource (Some (ex_id (ESpend ex_spend0))) (ex_amount 10) 0)] ex_prog.
Definition ex_mux_id : Hash := ex_id (EMux ex_mux0).
Definition ex_output : Entry :=
  EOutput (NewOutput (Some (mkValueSource (Some ex_mux_id) (ex_amount 4) 0)) ex_prog (Some zeroHash) 0).
Definition ex_retirement : Entry :=
  ERetirement (NewRetirement (Some (mkValueSource (Some ex_mux_id) (ex_amount 6) 1)) (Some zeroHash) 1).
Definition ex_spend : Entry := ESpend (Spend_SetDestination ex_spend0 (Some ex_mux_id) (ex_amount 10) 0).

Definition ex_mux (n : Z) : Mux :=
  mkMux (Sources ex_mux0) ex_prog None
    [Some (mkValueDestination (Some (ex_id ex_output)) (ex_amount n) 0);
     Some (mkValueDestination (Some (ex_id ex_retirement)) (ex_amount 6) 0)] [].
Definition ex_header : TxHeader :=
  NewTxHeader 1 [Some (ex_id ex_output); Some (ex_id ex_retirement)] (Some zeroHash) 0 0.

(** With [n = 4] the amounts agree. *)
Definition ex_tx (n : Z) : Tx :=
  mkTx ex_header (ex_id (ETxHeader ex_header))
    (list_to_map (map (fun e => (ex_id e, Some e)) [ex_prevout; ex_spend; EMux (ex_mux n); ex_output; ex_retirement]))
    [ex_id ex_spend] [] [ex_id ex_prevout].

Definition ex_rank (id : Hash) : nat :=
  if bool_decide (id = ex_id (ETxHeader ex_header)) then 3
  else if bool_decide (id = ex_id ex_output \/ id = ex_id ex_retirement) then 2
  else if bool_decide (id = ex_mux_id \/ id = ex_id ex_prevout) then 1 else 0.
End Example.

(** ** Transactions *)

Lemma ValidateTx_verdict `{Crypto} `{Verifier} bid tx rank fuel :
  well_keyed tx -> ranked tx rank -> answers tx ->
  (forall id m, reachable tx id (EMux m) -> wf_amounts m) -> (rank (tx_ID tx) < fuel)%nat ->
  match ValidateTx fuel tx bid with
  | VRet _ => valid_tx bid tx
  | VErr _ | VPanic => ~ valid_tx bid tx
  | VFuel => False
  end.
Proof.
  intros Hkey Hrank Hans Hamt Hf.
  destruct (checkValid_decides bid tx rank Hkey Hrank Hans Hamt fuel) as [Hd _].
  specialize (Hd (mkVS bid tx (tx_ID tx) 0 0) (tx_ID tx) (ETxHeader (Header tx)) ltac:(done) ltac:(constructor) Hf ∅).
  unfold ValidateTx, valid_tx.
  destruct (checkValid fuel _ _ ∅) as [[[]|e| |] c]; simpl; specialize (Hd ltac:(by intros ? ?)); try done.
  - by destruct Hd.
  - by apply (Hd tt).
  - by apply (Hd tt).
Qed.

(** C1: [ValidateTx] decides validity.  When the entries of a transaction are keyed
    by their identifiers, those that validation visits depend on each other without
    cycles ([rank] bounds the depth) and the virtual machine answers, validation ends, it accepts exactly
    the transactions in which every entry that is reachable from the header
    satisfies the rules of its type, and the memoization does not change that. *)
Theorem ValidateTx_decides `{Crypto} `{Verifier} bid tx rank fuel :
  well_keyed tx -> ranked tx rank -> answers tx ->
  (forall id m, reachable tx id (EMux m) -> wf_amounts m) -> (rank (tx_ID tx) < fuel)%nat ->
  match ValidateTx fuel tx bid with
  | VRet _ => valid_tx bid tx
  | VErr _ | VPanic => ~ valid_tx bid tx
  | VFuel => False
  end.
Proof. apply ValidateTx_verdict. Qed.

Definition ex_machine : Verifier := machine (H := exact_runtime) (H0 := toy_crypto) 20.

Lemma ValidateTx_decides_witness :
  ValidateTx (H := toy_crypto) (H0 := ex_machine) 4 (ex_tx 4) ex_bid = VRet tt /\
  valid_tx (H := toy_crypto) (H0 := ex_machine) ex_bid (ex_tx 4).
Proof.
  split; [vm_compute; reflexivity|].
  destruct (check_tx_ok (H := toy_crypto) (H0 := ex_machine) ex_rank (ex_tx 4) ltac:(vm_compute; reflexivity))
    as (H1 & H2 & H3 & H4).
  exact (ValidateTx_decides (H := toy_crypto) (H0 := ex_machine) ex_bid (ex_tx 4) ex_rank 4 H1 H2 H3 H4
           ltac:(apply Nat.ltb_lt; vm_compute; reflexivity)).
Defined.

Lemma valid_reachable `{Crypto} `{Verifier} bid tx id e :
  valid_tx bid tx -> reachable tx id e -> valid bid tx id e.
Proof.
  intros Hv. induction 1 as [|id e r e' _ IH Hr He]; [done|].
  inversion IH as [? ? _ Href]; subst. destruct (Href r Hr) as (e'' & He'' & Hv'').
  unfold has in *. assert (e'' = e') as <- by congruence. done.
Qed.

(** C2: Value is conserved.  In a transaction that [ValidateTx] accepts, every mux
    that the results depend on has, for each asset, destinations that add up to
    exactly its sources, as integers: the 64-bit sums of the code do not wrap. *)
Theorem ValidateTx_conserves_value `{Crypto} `{Verifier} bid tx rank fuel id m a :
  well_keyed tx -> ranked tx rank -> answers tx ->
  (forall id m, reachable tx id (EMux m) -> wf_amounts m) -> (rank (tx_ID tx) < fuel)%nat ->
  ValidateTx fuel tx bid = VRet tt -> reachable tx id (EMux m) ->
  sources_total m a = dests_total m a.
Proof.
  intros Hkey Hrank Hans Hamt Hf Ev Hr.
  pose proof (ValidateTx_verdict bid tx rank fuel Hkey Hrank Hans Hamt Hf) as Hv. rewrite Ev in Hv.
  pose proof (valid_reachable _ _ id (EMux m) Hv Hr) as Hm.
  inversion Hm as [? ? Hru _]; subst. destruct Hru as (_ & _ & _ & [Hb _ _] & _). apply Hb.
Qed.

Lemma ex_mux_reachable : reachable (ex_tx 4) ex_mux_id (EMux (ex_mux 4)).
Proof.
  apply (reach_ref _ (ex_id ex_output) ex_output).
  - apply (reach_ref _ (tx_ID (ex_tx 4)) (ETxHeader ex_header)); [apply reach_header| |];
      [apply list_elem_of_here|vm_compute; reflexivity].
  - apply list_elem_of_here.
  - vm_compute. reflexivity.
Qed.

Lemma ValidateTx_conserves_value_witness :
  sources_total (ex_mux 4) ex_asset = 10 /\
  sources_total (ex_mux 4) ex_asset = dests_total (ex_mux 4) ex_asset.
Proof.
  split; [vm_compute; reflexivity|].
  destruct (check_tx_ok (H := toy_crypto) (H0 := ex_machine) ex_rank (ex_tx 4) ltac:(vm_compute; reflexivity))
    as (H1 & H2 & H3 & H4).
  exact (ValidateTx_conserves_value (H := toy_crypto) (H0 := ex_machine) ex_bid (ex_tx 4) ex_rank 4
           ex_mux_id (ex_mux 4) ex_asset H1 H2 H3 H4 ltac:(apply Nat.ltb_lt; vm_compute; reflexivity)
           ltac:(vm_compute; reflexivity) ex_mux_reachable).
Defined.

(** ** Blocks *)

Section Blocks.
Context `{Crypto}.

(** How a block follows its predecessor. *)
Definition follows (b p : Block) : Prop :=
  bh_Version (BlockHdr p) <= bh_Version (BlockHdr b) /\
  Height (BlockHdr b) = uint64 (Height (BlockHdr p) + 1) /\
  PreviousBlockId (BlockHdr b) = Some (block_ID p) /\
  TimestampMs (BlockHdr p) < TimestampMs (BlockHdr b).

(** A transaction can be in a block: the versions fit and the block's time is in
    the transaction's range. *)
Definition fits_block (b : Block) (tx : Tx) : Prop :=
  (bh_Version (BlockHdr b) = 1 -> tx_Version (Header tx) = 1) /\
  (0 < tx_MaxTimeMs (Header tx) -> TimestampMs (BlockHdr b) <= tx_MaxTimeMs (Header tx)) /\
  (0 < tx_MinTimeMs (Header tx) -> 0 < TimestampMs (BlockHdr b) ->
   tx_MinTimeMs (Header tx) <= TimestampMs (BlockHdr b)).

Definition valid_block (b : Block) (prev : option Block) (ok : Tx -> Prop) : Prop :=
  (1 < Height (BlockHdr b) -> exists p, prev = Some p /\ follows b p) /\
  (bh_Version (BlockHdr b) = 1 -> IsZero (bh_ExtHash (BlockHdr b)) = true) /\
  (forall tx, tx ∈ Transactions b -> fits_block b tx /\ ok tx) /\
  TransactionsRoot (BlockHdr b) = MerkleRoot (Transactions b).

#[local] Notation decides := (decides (fun _ => True)).

Lemma decides_prev b p : decides (validateBlockAgainstPrev b p) (fun _ => follows b p).
Proof.
  unfold validateBlockAgainstPrev, follows. eapply decides_iff.
  - apply decides_seq; [apply decides_ensure, Z.leb_le|]. intros _.
    apply decides_seq; [apply decides_ensure, Z.eqb_eq|]. intros _.
    eapply decides_option; [apply decides_deref|]. intros id Eid.
    apply decides_seq; [apply decides_ensure, bool_decide_eq_true|]. intros _.
    apply decides_ensure, Z.ltb_lt.
  - intros u. cbn beta. split; [intros (? & ? & id & ? & <- & ?); done|].
    intros (? & ? & ? & ?). split_and!; [done..|]. by exists (block_ID p).
Qed.

Lemma decides_out (o : vout unit) : o <> VFuel -> decides (of_out o) (fun _ => o = VRet tt).
Proof. intros Hf c Hc. unfold of_out. destruct o as [[]|e| |]; by auto. Qed.

Lemma decides_block_tx b validateTx tx :
  validateTx tx <> VFuel ->
  decides (validateBlockTx b validateTx tx) (fun _ => fits_block b tx /\ validateTx tx = VRet tt).
Proof.
  intros Hf. unfold validateBlockTx, fits_block. eapply decides_iff.
  - apply decides_seq with (P := bh_Version (BlockHdr b) = 1 -> tx_Version (Header tx) = 1).
    { apply decides_ensure. rewrite negb_true_iff, andb_false_iff, Z.eqb_neq, negb_false_iff, Z.eqb_eq. lia. }
    intros _. apply decides_seq with
      (P := 0 < tx_MaxTimeMs (Header tx) -> TimestampMs (BlockHdr b) <= tx_MaxTimeMs (Header tx)).
    { apply decides_ensure. rewrite negb_true_iff, andb_false_iff, !Z.ltb_ge. lia. }
    intros _. apply decides_seq with
      (P := 0 < tx_MinTimeMs (Header tx) -> 0 < TimestampMs (BlockHdr b) ->
            tx_MinTimeMs (Header tx) <= TimestampMs (BlockHdr b)).
    { apply decides_ensure. rewrite negb_true_iff, !andb_false_iff, !Z.ltb_ge. lia. }
    intros _. by apply decides_out.
  - intros u. cbn beta. tauto.
Qed.

Lemma MerkleRoot_some txs : exists h, MerkleRoot txs = Some h.
Proof.
  destruct (merkle_root_total (S (length txs)) (map tx_ID txs)) as [h Hh]; [rewrite length_map; lia|].
  exists h. apply Hh. rewrite length_map. lia.
Qed.

(** C38: [ValidateBlock] accepts a block exactly when it follows its predecessor
    (unless it is the initial block), has no extension at version 1, every
    transaction fits the block and is accepted by [validateTx], and the header has
    the Merkle root of the transactions. *)
Theorem ValidateBlock_decides b prev validateTx :
  (forall tx, tx ∈ Transactions b -> validateTx tx <> VFuel) ->
  match ValidateBlock b prev validateTx with
  | VRet _ => valid_block b prev (fun tx => validateTx tx = VRet tt)
  | VErr _ | VPanic => ~ valid_block b prev (fun tx => validateTx tx = VRet tt)
  | VFuel => False
  end.
Proof.
  intros Hf. destruct (MerkleRoot_some (Transactions b)) as [root Hroot].
  set (P := valid_block b prev (fun tx => validateTx tx = VRet tt)).
  enough (Hd : forall m, ValidateBlock b prev validateTx = (m ∅).1 -> decides m (fun _ : unit => P) ->
                 match ValidateBlock b prev validateTx with
                 | VRet _ => P | VErr _ | VPanic => ~ P | VFuel => False end).
  { apply (Hd _ eq_refl). rewrite Hroot. eapply decides_iff.
    - apply decides_seq with
        (P := 1 < Height (BlockHdr b) -> exists p, prev = Some p /\ follows b p).
      { destruct (Z.ltb_spec 1 (Height (BlockHdr b))).
        - eapply decides_iff; [eapply decides_option; [apply decides_or_err|intros p _; apply decides_prev]|].
          intros u. cbn beta. naive_solver.
        - intros c Hc. simpl. split; [done|]. lia. }
      intros _. apply decides_seq with
        (P := bh_Version (BlockHdr b) = 1 -> IsZero (bh_ExtHash (BlockHdr b)) = true).
      { apply decides_ensure. rewrite negb_true_iff, andb_false_iff, Z.eqb_neq, negb_false_iff.
        destruct (Z.eq_dec (bh_Version (BlockHdr b)) 1); naive_solver. }
      intros _. apply decides_seq;
        [apply (decides_range _ _ (fun _ tx => fits_block b tx /\ validateTx tx = VRet tt))|].
      { intros i tx Hi. apply decides_block_tx. apply Hf. by eapply list_elem_of_lookup_2. }
      intros _. eapply (decides_bind _ (of_out (VRet root)) _ (fun r => r = root)); [by intros c Hc|congruence|].
      intros r Er. eapply decides_option; [apply decides_deref|]. intros r' Er'.
      apply decides_ensure, bool_decide_eq_true.
    - intros u. cbn beta. unfold P, valid_block. rewrite Hroot. split.
      + intros (Hp & Hx & Htx & r & -> & r' & Er & ->). split_and!; [done|done| |done].
        intros tx [i Hi]%list_elem_of_lookup. by apply (Htx i).
      + intros (Hp & Hx & Htx & Er). split_and!; [done|done| |].
        * intros i tx Hi. apply Htx. by eapply list_elem_of_lookup_2.
        * exists root. split; [done|]. by exists root. }
  intros m -> Hm. specialize (Hm ∅ I). destruct (m ∅) as [[[]|e| |] c]; simpl; [by destruct Hm|by apply (Hm tt)..|done].
Qed.
End Blocks.

(** *** Example: a block with one transaction *)

Definition ex_prev : Block :=
  mkBlock (NewBlockHeader 1 1 (Some zeroHash) 100 (Some zeroHash) (Some zeroHash) []) (mkHash 6 6 6 6) [].

Definition ex_block : Block :=
  mkBlock (NewBlockHeader 1 2 (Some (block_ID ex_prev)) 200
             (MerkleRoot (H := toy_crypto) [ex_tx 4]) (Some zeroHash) []) (mkHash 7 7 7 7) [ex_tx 4].

Definition ex_validateTx (tx : Tx) : vout unit := ValidateTx (H := toy_crypto) (H0 := ex_machine) 4 tx ex_bid.

Lemma ValidateBlock_decides_witness :
  valid_block (H := toy_crypto) ex_block (Some ex_prev) (fun tx => ex_validateTx tx = VRet tt).
Proof.
  refine (ValidateBlock_decides (H := toy_crypto) ex_block (Some ex_prev) ex_validateTx _).
  intros tx Htx. apply elem_of_cons in Htx as [->|Htx]; [by vm_compute|inversion Htx].
Defined.

(** ** A panic in an error path *)

Section Panic.
#[local] Existing Instance toy_crypto.

(** An output without a source reference, a spend whose destination is that
    output, and an output that claims the spend as its source. *)
Definition bad_sink : Entry :=
  EOutput (NewOutput (Some (mkValueSource None (ex_amount 10) 0)) ex_prog (Some zeroHash) 0).
Definition bad_spend : Entry :=
  ESpend (Spend_SetDestination ex_spend0 (Some (ex_id bad_sink)) (ex_amount 10) 0).
Definition bad_output : Entry :=
  EOutput (NewOutput (Some (mkValueSource (Some (ex_id bad_spend)) (ex_amount 10) 0)) ex_prog (Some zeroHash) 1).
Definition bad_header : TxHeader := NewTxHeader 1 [Some (ex_id bad_output)] (Some zeroHash) 0 0.
Definition bad_tx : Tx :=
  mkTx bad_header (ex_id (ETxHeader bad_header))
    (list_to_map (map (fun e => (ex_id e, Some e)) [ex_prevout; bad_spend; bad_sink; bad_output]))
    [ex_id bad_spend] [] [ex_id ex_prevout].
End Panic.

(** When the source that a destination names has no reference, [checkValidDest]
    does not return its error [errMismatchedReference]: the message of the error is
    formatted with [src.Ref.Bytes()], and following the nil pointer panics.  There is
    a transaction, keyed by the identifiers of its entries and without cycles, on
    which [ValidateTx] panics for this reason. *)
Lemma checkValidDest_panics_on_nil_ref :
  (forall (vs : validationState) d r e s c,
     dest_Ref d = Some r -> is_Some (dest_Value d ≫= AssetId) -> has (vs_tx vs) r e ->
     nth_source e (dest_Position d) = Some s -> src_Ref s = None ->
     checkValidDest vs (Some d) c = (VPanic, c)) /\
  exists tx rank, check_tx (H := toy_crypto) (H0 := ex_machine) rank tx = true /\
    ValidateTx (H := toy_crypto) (H0 := ex_machine) 4 tx ex_bid = VPanic.
Proof.
  split.
  - intros vs d r e s c Er Hv He Es En. unfold checkValidDest, mbind, V_bind, or_err, entry_at.
    unfold mret, V_ret. cbn beta iota. rewrite Er. cbn beta iota. rewrite (bool_decide_eq_true_2 _ Hv), He. cbn.
    destruct e; try done; simpl in Es |- *;
      match type of Es with (if ?b then _ else _) = _ => destruct b end; try done; simpl;
      rewrite Es; simpl; unfold checkOpposite; by rewrite En.
  - exists bad_tx, (fun id =>
      if bool_decide (id = ex_id (ETxHeader bad_header)) then 2%nat
      else if bool_decide (id = ex_id bad_output \/ id = ex_id ex_prevout)
      then 1%nat else 0%nat). split; vm_compute; reflexivity.
Qed.
