(* ===== verification/LegacyProof.v ===== *)
(** * The entries that [mapTx] builds

    The map holds every entry under its identifier, although entries change after
    they are registered: only witnesses do.  Each entry leads only to entries of a
    lower kind, spent outputs apart, which are not visited.  The mux has the values of
    the inputs as sources and those of the outputs as destinations. *)

From Stdlib Require Import ZArith Lia Strings.Byte.
From stdpp Require Import gmap strings.
From S2P Require Import Prelude GoSlice Crypto VMCode VMUtil.
From S2P Require VM VMRun.
From S2P Require Import Encoding Bc EntryHash Merkle TxContext Validation ValidSpec Legacy LegacyMap.

(** ** What does not change: everything but the witnesses *)

Definition strip (e : Entry) : Entry :=
  match e with
  | EMux m => EMux (NewMux (Sources m) (mux_Program m))
  | ENonce n => ENonce (NewNonce (nonce_Program n) (TimeRangeId n))
  | EIssuance i => EIssuance (NewIssuance (AnchorId i) (iss_Value i) (iss_Data i) 0)
  | ESpend s => ESpend (NewSpend (SpentOutputId s) (sp_Data s) 0)
  | e => e
  end.

(** No entry of a mapped transaction has an extension. *)
Definition plain (e : Entry) : Prop :=
  match e with
  | EMux m => mux_ExtHash m = None
  | ENonce n => nonce_ExtHash n = None
  | EIssuance i => iss_ExtHash i = None
  | ESpend s => sp_ExtHash s = None
  | _ => True
  end.

Definition typ_rank (e : Entry) : nat :=
  match e with
  | ETxHeader _ => 5
  | EOutput _ | ERetirement _ => 4
  | EMux _ => 3
  | EIssuance _ => 2
  | ENonce _ => 1
  | _ => 0
  end.

Lemma typ_rank_strip e e' : strip e = strip e' -> typ_rank e = typ_rank e'.
Proof. by destruct e, e'; intros [=]. Qed.

Lemma refs_strip e e' : strip e = strip e' -> refs e = refs e'.
Proof. destruct e, e'; intros [=]; simpl; by subst; f_equal. Qed.

Lemma typ_strip e e' : strip e = strip e' -> typ e = typ e'.
Proof. by destruct e, e'; intros [=]. Qed.

Lemma typ_rank_typ e e' : typ e = typ e' -> typ_rank e = typ_rank e'.
Proof. by destruct e, e'. Qed.

Lemma body_fields_strip e : plain e -> body_fields (strip e) = body_fields e.
Proof. destruct e; simpl; try done; by intros ->. Qed.

(** A change of witnesses. *)
Definition witness_only (f : Entry -> Entry) : Prop :=
  forall e, plain e -> plain (f e) /\ strip (f e) = strip e.

Create HintDb mapping.

Lemma witness_set_anchored id : witness_only (set_anchored id).
Proof. by intros []. Qed.
Lemma witness_set_spend_dest id v : witness_only (set_spend_dest id v).
Proof. by intros []. Qed.
Lemma witness_set_issuance_dest id : witness_only (set_issuance_dest id).
Proof. by intros []. Qed.
Lemma witness_append_dest d : witness_only (append_dest d).
Proof. by intros []. Qed.
#[export] Hint Resolve witness_set_anchored witness_set_spend_dest witness_set_issuance_dest witness_append_dest : mapping.

(** ** The invariant of the store *)

Section Store.
Context `{Crypto}.

Lemma EntryID_strip e e' : plain e -> plain e' -> strip e = strip e' -> EntryID (Some e) = EntryID (Some e').
Proof.
  intros He He' E. unfold EntryID, entry_body. rewrite (typ_strip _ _ E).
  by rewrite <- (body_fields_strip e He), <- (body_fields_strip e' He'), E.
Qed.

(** The reference [r] is the zero hash, or leads to an entry of a kind below [k]. *)
Definition points (os : list Entry) (k : nat) (r : Hash) : Prop :=
  r = zeroHash \/ exists e, e ∈ os /\ EntryID (Some e) = Some r /\ (typ_rank e < k)%nat.

Definition linked (os : list Entry) (e : Entry) : Prop := forall r, r ∈ refs e -> points os (typ_rank e) r.

(** Before the mux there are spent outputs and the entries of the inputs; after it,
    the results, whose source is the mux. *)
Definition is_result (muxID : Hash) (e : Entry) : Prop :=
  match e with
  | EOutput o => source_ref (out_Source o) = Some muxID
  | ERetirement r => source_ref (ret_Source r) = Some muxID
  | _ => False
  end.

Definition role (mux : option (nat * Hash)) (p : nat) (e : Entry) : Prop :=
  match mux with
  | Some (q, muxID) => (q < p)%nat /\ is_result muxID e \/ p = q /\ typ_rank e = 3%nat \/
                       (p < q)%nat /\ match e with EOutput _ => True | e => (typ_rank e < 3)%nat end
  | None => match e with EOutput _ => True | e => (typ_rank e < 3)%nat end
  end.

(** A spent output leads to another transaction. *)
Definition is_prevout (mux : option (nat * Hash)) (p : nat) (e : Entry) : Prop :=
  (exists o, e = EOutput o) /\ match mux with Some (q, _) => (p < q)%nat | None => True end.

Definition entry_ok (mux : option (nat * Hash)) (os : list Entry) (p : nat) (e : Entry) : Prop :=
  plain e /\ role mux p e /\ (is_prevout mux p e \/ linked os e).

Record store_ok (mux : option (nat * Hash)) (s : mstate) : Prop := {
  so_keyed id p : entryMap s !! id = Some p -> exists e, objs s !! p = Some e /\ EntryID (Some e) = Some id;
  so_entry p e : objs s !! p = Some e -> entry_ok mux (objs s) p e;
  so_total p e : objs s !! p = Some e -> exists id, EntryID (Some e) = Some id /\ is_Some (entryMap s !! id);
}.

(** The entries of [s] are still there, but for their witnesses. *)
Definition ext (os os' : list Entry) : Prop :=
  forall p e, os !! p = Some e -> exists e', os' !! p = Some e' /\ plain e' /\ strip e' = strip e.

Lemma points_ext os os' k r :
  Forall plain os -> ext os os' -> points os k r -> points os' k r.
Proof.
  intros Hp Hx [->|(e & [p Hin]%list_elem_of_lookup & Eid & Hk)]; [by left|right].
  destruct (Hx p e Hin) as (e' & He' & Hpl & Es). exists e'. split; [by eapply list_elem_of_lookup_2|].
  rewrite (typ_rank_strip _ _ Es). split; [|done]. rewrite <- Eid. symmetry. apply EntryID_strip; [|done|done].
  rewrite Forall_forall in Hp. apply Hp. by eapply list_elem_of_lookup_2.
Qed.

Lemma points_mono os k k' r : (k <= k')%nat -> points os k r -> points os k' r.
Proof. intros Hk [->|(e & ? & ? & ?)]; [by left|right]. exists e. split_and!; [done|done|lia]. Qed.

Lemma linked_ext os os' e e' :
  Forall plain os -> ext os os' -> strip e' = strip e -> linked os e -> linked os' e'.
Proof.
  intros Hp Hx Es Hl r Hr. rewrite (typ_rank_strip _ _ Es). rewrite (refs_strip _ _ Es) in Hr.
  eapply points_ext; [done..|]. by apply Hl.
Qed.

Lemma store_plain mux s : store_ok mux s -> Forall plain (objs s).
Proof. intros [_ He _]. apply Forall_forall. intros e [p Hp]%list_elem_of_lookup. by apply (He p). Qed.

Lemma role_strip mux p e e' : strip e' = strip e -> role mux p e -> role mux p e'.
Proof.
  intros Es. destruct mux as [[q muxID]|]; destruct e, e'; simpl in *; intros; try discriminate Es; try done;
    injection Es as ?; subst; done.
Qed.

Lemma is_prevout_strip mux p e e' : strip e' = strip e -> is_prevout mux p e -> is_prevout mux p e'.
Proof. intros Es [[o ->] Hq]. destruct e'; try discriminate Es. split; [eauto|done]. Qed.

Lemma entry_ok_ext mux os os' p e e' :
  Forall plain os -> ext os os' -> plain e' -> strip e' = strip e -> entry_ok mux os p e -> entry_ok mux os' p e'.
Proof.
  intros Hp Hx He' Es (_ & Hr & Hl). split_and!; [done|by eapply role_strip|].
  destruct Hl as [Hl|Hl]; [left; by eapply is_prevout_strip|right; by eapply linked_ext].
Qed.

Lemma ext_refl os : Forall plain os -> ext os os.
Proof.
  intros Hp p e He. exists e. rewrite Forall_forall in Hp. split_and!; [done| |done].
  apply Hp. by eapply list_elem_of_lookup_2.
Qed.

Lemma ext_trans os os' os'' : ext os os' -> ext os' os'' -> ext os os''.
Proof.
  intros H1 H2 p e He. destruct (H1 p e He) as (e' & He' & _ & Es). destruct (H2 p e' He') as (e'' & ? & ? & Es').
  exists e''. split_and!; [done|done|by rewrite Es'].
Qed.

Lemma ext_snoc os e : Forall plain os -> ext os (os ++ [e]).
Proof.
  intros Hp p e' He'. destruct (ext_refl os Hp p e' He') as (x & Hx & ? & ?). exists x.
  split_and!; [by apply lookup_app_l_Some|done|done].
Qed.

(** *** Steps *)

(** The store is still in order, and no entry is lost. *)
Definition grows (mux : option (nat * Hash)) (s s' : mstate) : Prop := store_ok mux s' /\ ext (objs s) (objs s').

Lemma grows_refl mux s : store_ok mux s -> grows mux s s.
Proof. intros Hs. split; [done|]. by eapply ext_refl, store_plain. Qed.

Lemma grows_trans mux s s' s'' : grows mux s s' -> grows mux s' s'' -> grows mux s s''.
Proof. intros [_ H1] [Hs H2]. split; [done|by eapply ext_trans]. Qed.

Lemma addEntry_inv e s a s' :
  addEntry e s = Some (a, s') ->
  a.1 = length (objs s) /\ EntryID (Some e) = Some a.2 /\ objs s' = objs s ++ [e] /\
  entryMap s' = <[a.2 := length (objs s)]> (entryMap s).
Proof. unfold addEntry. destruct (EntryID (Some e)) as [id|]; [|done]. by intros [= <- <-]. Qed.

(** [mux'] is [mux], or this entry if it is the mux. *)
Lemma addEntry_store mux mux' e s a s' :
  store_ok mux s -> addEntry e s = Some (a, s') -> plain e ->
  (forall p x, objs s !! p = Some x -> entry_ok mux (objs s) p x -> entry_ok mux' (objs s) p x) ->
  role mux' (length (objs s)) e -> is_prevout mux' (length (objs s)) e \/ linked (objs s) e ->
  grows mux' s s' /\ points (objs s') (S (typ_rank e)) a.2.
Proof.
  intros Hs (_ & Eid & Eo & Em)%addEntry_inv Hpl Hmux Hr Hl. pose proof (store_plain _ _ Hs) as Hp.
  pose proof (ext_snoc (objs s) e Hp) as Hx. rewrite <- Eo in Hx. split; [split; [|done]|].
  - split.
    + rewrite Em, Eo. intros id p Hl'. apply lookup_insert_Some in Hl' as [[<- <-]|[_ Hl']].
      * exists e. split; [|done]. by apply list_lookup_middle.
      * destruct (so_keyed _ _ Hs id p Hl') as (x & Hx' & Ex). exists x. split; [by apply lookup_app_l_Some|done].
    + rewrite Eo. intros p x [Hpx|[Hge Hpx]]%lookup_app_Some.
      * destruct (Hx p x Hpx) as (x' & Hx' & Hpl' & Es'). rewrite Eo in Hx.
        apply (entry_ok_ext mux' (objs s) _ p x x); [exact Hp|exact Hx| |done|apply Hmux; [done|by apply (so_entry _ _ Hs)]].
        rewrite Forall_forall in Hp. apply Hp. by eapply list_elem_of_lookup_2.
      * apply list_lookup_singleton_Some in Hpx as [E <-]. replace p with (length (objs s)) by lia.
        rewrite Eo in Hx. split_and!; [done|done|]. destruct Hl; [by left|right]. by eapply linked_ext.
    + rewrite Em, Eo. intros p x [Hpx|[_ Hpx]]%lookup_app_Some.
      * destruct (so_total _ _ Hs p x Hpx) as (id & Ei & Hid). exists id. split; [done|].
        destruct (decide (id = a.2)) as [->|]; [by rewrite lookup_insert_eq|by rewrite lookup_insert_ne].
      * apply list_lookup_singleton_Some in Hpx as [_ <-]. exists a.2. by rewrite lookup_insert_eq.
  - right. exists e. rewrite Eo. split_and!; [set_solver|done|lia].
Qed.

Lemma addEntry_ok mux e s a s' :
  store_ok mux s -> addEntry e s = Some (a, s') -> plain e -> role mux (length (objs s)) e ->
  is_prevout mux (length (objs s)) e \/ linked (objs s) e ->
  grows mux s s' /\ points (objs s') (S (typ_rank e)) a.2.
Proof. intros. by eapply addEntry_store. Qed.

Lemma update_ok mux p f s r :
  store_ok mux s -> witness_only f -> update p f s = Some r -> grows mux s r.2.
Proof.
  intros Hs Hf [= <-]. pose proof (store_plain _ _ Hs) as Hp. simpl.
  assert (Hx : ext (objs s) (alter f p (objs s))).
  { intros q e He. rewrite Forall_forall in Hp.
    destruct (decide (p = q)) as [<-|Hne].
    - exists (f e). rewrite list_lookup_alter_eq, He. split; [done|].
      apply Hf, Hp. by eapply list_elem_of_lookup_2.
    - exists e. rewrite list_lookup_alter_ne by done. split_and!; [done| |done]. apply Hp. by eapply list_elem_of_lookup_2. }
  assert (Hback : forall q e', alter f p (objs s) !! q = Some e' ->
            exists e, objs s !! q = Some e /\ plain e' /\ strip e' = strip e).
  { intros q e' He'. destruct (objs s !! q) as [e|] eqn:He.
    - destruct (Hx q e He) as (e'' & He'' & Hpl & Es). assert (e'' = e') as -> by congruence. eauto.
    - apply lookup_ge_None in He. apply lookup_lt_Some in He'. rewrite length_alter in He'. lia. }
  split; [|done]. split; simpl.
  - intros id q Hq. destruct (so_keyed _ _ Hs id q Hq) as (e & He & Eid). destruct (Hx q e He) as (e' & He' & Hpl & Es).
    exists e'. split; [done|]. rewrite <- Eid. symmetry. apply EntryID_strip; [|done|done].
    rewrite Forall_forall in Hp. apply Hp. by eapply list_elem_of_lookup_2.
  - intros q e' (e & He & Hpl & Es)%Hback. eapply entry_ok_ext; [exact Hp|done|done|exact Es|]. by apply (so_entry _ _ Hs).
  - intros q e' (e & He & Hpl & Es)%Hback. destruct (so_total _ _ Hs q e He) as (id & Ei & Hid). exists id.
    split; [|done]. rewrite <- Ei. apply EntryID_strip; [done| |done].
    rewrite Forall_forall in Hp. apply Hp. by eapply list_elem_of_lookup_2.
Qed.

Lemma bind_inv {A B} (m : MM A) (k : A -> MM B) s r :
  (m ≫= k) s = Some r -> exists a s', m s = Some (a, s') /\ k a s' = Some r.
Proof. unfold mbind, MM_bind. destruct (m s) as [[a s']|]; [|done]. eauto. Qed.

(** ** The loops *)

Ltac step H a s :=
  apply bind_inv in H as (a & s & ?E & H).

(** The sources of the mux so far lead to entries of inputs, and the first spend is
    one. *)
Definition sources_ok (os : list Entry) (ms : list (option ValueSource)) : Prop :=
  forall src r, src ∈ ms -> source_ref src = Some r -> points os 3 r.

Definition first_ok (os : list Entry) (f : option (nat * Hash)) : Prop :=
  match f with Some (_, id) => points os 1 id | None => True end.

Lemma sources_ext os os' ms : Forall plain os -> ext os os' -> sources_ok os ms -> sources_ok os' ms.
Proof. intros Hp Hx Hs src r Hin Er. eapply points_ext; [done..|]. by eapply Hs. Qed.

Lemma first_ext os os' f : Forall plain os -> ext os os' -> first_ok os f -> first_ok os' f.
Proof. destruct f as [[q id]|]; [|done]. apply points_ext. Qed.

Lemma sources_insert os ms i src :
  sources_ok os ms -> (forall r, source_ref src = Some r -> points os 3 r) -> sources_ok os (<[i := src]> ms).
Proof.
  intros Hs Hsrc x r [j Hj]%list_elem_of_lookup Er. apply list_lookup_insert_Some in Hj as [(_ & <- & _)|[_ Hj]].
  - by apply Hsrc.
  - eapply Hs; [by eapply list_elem_of_lookup_2|done].
Qed.

Lemma linked_nil os e : refs e = [] -> linked os e.
Proof. intros E r Hr. rewrite E in Hr. by apply elem_of_nil in Hr. Qed.

Lemma map_spend_ok i inp si acc s acc' s' :
  map_spend i inp si acc s = Some (acc', s') -> store_ok None s ->
  sources_ok (objs s) (sa_muxSources acc) -> first_ok (objs s) (firstSpend acc) ->
  grows None s s' /\ sources_ok (objs s') (sa_muxSources acc') /\ first_ok (objs s') (firstSpend acc').
Proof.
  unfold map_spend. intros E Hs Hms Hf. step E out s1. step E a s2. injection E as <- <-.
  destruct (addEntry_ok None _ _ _ _ Hs E0) as [G1 _]; [done..|left; split; [by eexists|done]|].
  destruct (addEntry_ok None _ _ _ _ (proj1 G1) E1) as [G2 Ha]; [done|simpl; lia|by right; apply linked_nil|].
  pose proof (grows_trans _ _ _ _ G1 G2) as G. pose proof (store_plain _ _ Hs) as Hp.
  split; [done|]. destruct G as [_ Hx]. simpl in *. split.
  - apply sources_insert; [by eapply sources_ext|]. intros r [= <-]. eapply points_mono; [|done]. lia.
  - destruct (firstSpend acc) as [[q id]|]; [by eapply points_ext|]. by destruct a.
Qed.

Lemma map_spends_ok ins : forall i acc s acc' s',
  map_spends i ins acc s = Some (acc', s') -> store_ok None s ->
  sources_ok (objs s) (sa_muxSources acc) -> first_ok (objs s) (firstSpend acc) ->
  grows None s s' /\ sources_ok (objs s') (sa_muxSources acc') /\ first_ok (objs s') (firstSpend acc').
Proof.
  induction ins as [|inp ins IH]; intros i acc s acc' s' E Hs Hms Hf.
  { injection E as <- <-. split; [by apply grows_refl|done]. }
  cbn [map_spends] in E. step E acc1 s1.
  assert (G : grows None s s1 /\ sources_ok (objs s1) (sa_muxSources acc1) /\ first_ok (objs s1) (firstSpend acc1)).
  { destruct (ti_TypedInput inp) as [[ii|si]|]; [injection E0 as <- <-| |injection E0 as <- <-];
      [split; [by apply grows_refl|done]|by eapply map_spend_ok|split; [by apply grows_refl|done]]. }
  destruct G as (G & Hms1 & Hf1). destruct (IH _ _ _ _ _ E (proj1 G) Hms1 Hf1) as (G' & ?).
  split; [by eapply grows_trans|done].
Qed.

Lemma linked_ref os e r : refs e = [r] -> points os (typ_rank e) r -> linked os e.
Proof. intros E Hr r' Hin. rewrite E in Hin. by apply list_elem_of_singleton in Hin as ->. Qed.

Lemma map_anchor_ok tx ii first s a s' :
  map_anchor tx ii first s = Some (a, s') -> store_ok None s -> first_ok (objs s) first ->
  grows None s s' /\ points (objs s') 2 a.2.
Proof.
  unfold map_anchor. intros E Hs Hf. destruct (0 <? zlen (ii_Nonce ii)).
  - step E tr s1. step E n s2. injection E as <- <-.
    destruct (addEntry_ok None _ _ _ _ Hs E0) as [G1 Htr]; [done|simpl; lia|by right; apply linked_nil|].
    destruct (addEntry_ok None _ _ _ _ (proj1 G1) E1) as [G2 Hn]; [done|simpl; lia| |].
    { right. eapply linked_ref; [done|]. exact Htr. }
    split; [by eapply grows_trans|done].
  - injection E as <- <-. split; [by apply grows_refl|]. destruct first as [[q id]|]; [|by left].
    eapply points_mono; [|exact Hf]. lia.
Qed.

Lemma map_issuance_ok tx first i inp ii acc s acc' s' :
  map_issuance tx first i inp ii acc s = Some (acc', s') -> store_ok None s ->
  sources_ok (objs s) acc.2 -> first_ok (objs s) first ->
  grows None s s' /\ sources_ok (objs s') acc'.2 /\ first_ok (objs s') first.
Proof.
  unfold map_issuance. intros E Hs Hms Hf. step E anchor s1. step E a s2. step E u s3. injection E as <- <-.
  destruct (map_anchor_ok _ _ _ _ _ _ E0 Hs Hf) as [G1 Ha].
  destruct (addEntry_ok None _ _ _ _ (proj1 G1) E1) as [G2 Hi]; [done|simpl; lia| |].
  { right. eapply linked_ref; [done|]. exact Ha. }
  assert (G3 : grows None s2 s3).
  { destruct anchor.1 as [p|]; [|injection E2 as <- <-; by apply grows_refl, G2].
    apply (update_ok None p _ _ _ (proj1 G2)) in E2; auto with mapping. }
  pose proof (grows_trans _ _ _ _ (grows_trans _ _ _ _ G1 G2) G3) as G. pose proof (store_plain _ _ Hs) as Hp.
  split; [done|]. destruct G as [_ Hx]. split; [|by eapply first_ext].
  apply sources_insert; [by eapply sources_ext|]. intros r [= <-].
  eapply points_ext; [by eapply store_plain, G2|apply G3|]. exact Hi.
Qed.

Lemma map_issuances_ok tx first ins : forall i acc s acc' s',
  map_issuances tx first i ins acc s = Some (acc', s') -> store_ok None s ->
  sources_ok (objs s) acc.2 -> first_ok (objs s) first ->
  grows None s s' /\ sources_ok (objs s') acc'.2 /\ first_ok (objs s') first.
Proof.
  induction ins as [|inp ins IH]; intros i acc s acc' s' E Hs Hms Hf.
  { injection E as <- <-. split; [by apply grows_refl|done]. }
  cbn [map_issuances] in E. step E acc1 s1.
  assert (G : grows None s s1 /\ sources_ok (objs s1) acc1.2 /\ first_ok (objs s1) first).
  { destruct (ti_TypedInput inp) as [[ii|si]|]; [|injection E0 as <- <-|injection E0 as <- <-];
      [by eapply map_issuance_ok|split; [by apply grows_refl|done]..]. }
  destruct G as (G & Hms1 & Hf1). destruct (IH _ _ _ _ _ E (proj1 G) Hms1 Hf1) as (G' & ?).
  split; [by eapply grows_trans|done].
Qed.

(** The mux; from here on it is known. *)
Lemma add_mux_ok ms s a s' :
  store_ok None s -> sources_ok (objs s) ms -> addEntry (EMux (NewMux ms (Some true_program))) s = Some (a, s') ->
  grows (Some a) s s' /\ points (objs s') 4 a.2 /\
  objs s' !! a.1 = Some (EMux (NewMux ms (Some true_program))).
Proof.
  intros Hs Hms E. pose proof (addEntry_inv _ _ _ _ E) as (Ea & _ & Eo & _). destruct a as [q muxID]. simpl in *. subst q.
  destruct (addEntry_store None (Some (length (objs s), muxID)) _ _ _ _ Hs E) as [G Hp]; [done| | | |].
  - intros p x Hpx%lookup_lt_Some (Hpl & Hr & Hl). split_and!; [done| |].
    + right. right. split; [done|exact Hr].
    + destruct Hl as [[Ho _]|Hl]; [left; by split|by right].
  - right. by left.
  - right. intros r (src & Hin & Er)%list_elem_of_omap. by eapply Hms.
  - split_and!; [done|exact Hp|]. rewrite Eo. by apply list_lookup_middle.
Qed.

(** An update that leaves the mux alone. *)
Lemma update_mux p f s r q m :
  update p f s = Some r -> (forall m, f (EMux m) = EMux m) -> objs s !! q = Some (EMux m) ->
  objs r.2 !! q = Some (EMux m).
Proof.
  intros [= <-] Hf Hq. simpl. destruct (decide (p = q)) as [<-|Hne].
  - by rewrite list_lookup_alter_eq, Hq; simpl; rewrite Hf.
  - by rewrite list_lookup_alter_ne.
Qed.

Lemma map_spend_dests_ok mux id l : forall s r q m,
  map_spend_dests id l s = Some r -> store_ok mux s -> objs s !! q = Some (EMux m) ->
  grows mux s r.2 /\ objs r.2 !! q = Some (EMux m).
Proof.
  induction l as [|p l IH]; intros s r q m E Hs Hq; [injection E as <-; split; [by apply grows_refl|done]|].
  cbn [map_spend_dests] in E.
  step E e s1. step E sp s2. step E oid s3. step E out s4. step E src s5. step E u s6.
  assert (s5 = s) as ->.
  { unfold deref_obj, mm_lift, lookup_output in *.
    repeat match goal with E : (_ ≫= _) = Some _ |- _ => apply bind_Some in E as (? & _ & E) end. congruence. }
  pose proof (update_ok mux _ _ _ _ Hs (witness_set_spend_dest _ _) E5) as G.
  pose proof (update_mux _ _ _ _ _ _ E5 ltac:(done) Hq) as Hq'.
  destruct (IH _ _ _ _ E (proj1 G) Hq') as [G' ?]. split; [by eapply grows_trans|done].
Qed.

Lemma map_issuance_dests_ok mux id l : forall s r q m,
  map_issuance_dests id l s = Some r -> store_ok mux s -> objs s !! q = Some (EMux m) ->
  grows mux s r.2 /\ objs r.2 !! q = Some (EMux m).
Proof.
  induction l as [|p l IH]; intros s r q m E Hs Hq; [injection E as <-; split; [by apply grows_refl|done]|].
  cbn [map_issuance_dests] in E. step E u s1.
  pose proof (update_ok mux _ _ _ _ Hs (witness_set_issuance_dest _) E0) as G.
  pose proof (update_mux _ _ _ _ _ _ E0 ltac:(done) Hq) as Hq'.
  destruct (IH _ _ _ _ E (proj1 G) Hq') as [G' ?]. split; [by eapply grows_trans|done].
Qed.

(** The results so far lead to outputs and retirements, registered after the mux. *)
Definition results_ok (q : nat) (s : mstate) (res : list (option Hash)) : Prop :=
  forall r, Some r ∈ res -> points (objs s) 5 r /\ exists p, entryMap s !! r = Some p /\ (q < p)%nat.

Lemma results_ext q s s' res :
  Forall plain (objs s) -> ext (objs s) (objs s') ->
  (forall id p, entryMap s !! id = Some p -> (q < p)%nat -> exists p', entryMap s' !! id = Some p' /\ (q < p')%nat) ->
  results_ok q s res -> results_ok q s' res.
Proof.
  intros Hp Hx He Hr r Hin. destruct (Hr r Hin) as [Hpt (p & Ep & Hq)]. split; [by eapply points_ext|by eapply He].
Qed.

Definition dest_values (m : Mux) : list (option AssetAmount) :=
  map (fun d => d ≫= dest_Value) (WitnessDestinations m).

Definition output_amount (o : TxOutput) : AssetAmount := oc_AssetAmount (to_OutputCommitment o).

Lemma result_entry_facts muxID i out :
  plain (result_entry muxID i out) /\ is_result muxID (result_entry muxID i out) /\
  refs (result_entry muxID i out) = [muxID] /\ typ_rank (result_entry muxID i out) = 4%nat.
Proof. unfold result_entry. by destruct (IsUnspendable _). Qed.

Lemma add_result_ok q muxID i out s a s' res :
  addEntry (result_entry muxID i out) s = Some (a, s') -> store_ok (Some (q, muxID)) s ->
  points (objs s) 4 muxID -> (q < length (objs s))%nat -> results_ok q s res ->
  grows (Some (q, muxID)) s s' /\ results_ok q s' (res ++ [Some a.2]).
Proof.
  intros E Hs Hmux Hq Hres. destruct (result_entry_facts muxID i out) as (Hpl & His & Hrefs & Hrank).
  destruct (addEntry_ok _ _ _ _ _ Hs E Hpl) as [G Hpt]; [by left|by right; eapply linked_ref; rewrite ?Hrank|].
  split; [done|]. pose proof (addEntry_inv _ _ _ _ E) as (Ea & _ & _ & Em).
  intros r [Hin|Hin]%elem_of_app.
  - eapply results_ext; [by eapply store_plain|apply G| |exact Hres|done]. rewrite Em. intros id p Hp Hlt.
    destruct (decide (id = a.2)) as [->|]; [|by rewrite lookup_insert_ne; eauto].
    rewrite lookup_insert_eq. eauto.
  - apply list_elem_of_singleton in Hin as [= ->]. rewrite Hrank in Hpt. split; [done|].
    exists (length (objs s)). by rewrite Em, lookup_insert_eq.
Qed.

Lemma append_dest_mux q d s u s' m :
  update q (append_dest d) s = Some (u, s') -> objs s !! q = Some (EMux m) ->
  exists m', objs s' !! q = Some (EMux m') /\ Sources m' = Sources m /\ dest_values m' = dest_values m ++ [dest_Value d].
Proof.
  intros [= <- <-] Hq. simpl. rewrite list_lookup_alter_eq, Hq. eexists. split; [done|]. split; [done|].
  unfold dest_values. simpl. by rewrite map_app.
Qed.

Lemma map_outputs_ok q muxID outs : forall i res s res' s' m,
  map_outputs q muxID i outs res s = Some (res', s') -> store_ok (Some (q, muxID)) s ->
  points (objs s) 4 muxID -> objs s !! q = Some (EMux m) -> results_ok q s res ->
  grows (Some (q, muxID)) s s' /\ results_ok q s' res' /\ length res' = (length res + length outs)%nat /\
  exists m', objs s' !! q = Some (EMux m') /\ Sources m' = Sources m /\
             dest_values m' = dest_values m ++ map (fun o => Some (output_amount o)) outs.
Proof.
  induction outs as [|out outs IH]; intros i res s res' s' m E Hs Hmux Hq Hres.
  { injection E as <- <-. split_and!; [by apply grows_refl|done|simpl; lia|]. exists m. by rewrite app_nil_r. }
  cbn [map_outputs] in E. step E a s1. step E u s2.
  destruct (add_result_ok _ _ _ _ _ _ _ res E0 Hs Hmux ltac:(by eapply lookup_lt_Some) Hres) as [G1 Hres1].
  pose proof (update_ok _ _ _ _ _ (proj1 G1) (witness_append_dest _) E1) as G2. simpl in G2.
  pose proof (addEntry_inv _ _ _ _ E0) as (_ & _ & Eo & _).
  assert (Hq1 : objs s1 !! q = Some (EMux m)) by (rewrite Eo; by apply lookup_app_l_Some).
  destruct (append_dest_mux _ _ _ _ _ _ E1 Hq1) as (m2 & Hq2 & ES2 & ED2).
  pose proof (grows_trans _ _ _ _ G1 G2) as G.
  assert (Hmux2 : points (objs s2) 4 muxID) by (eapply points_ext; [by eapply store_plain|apply G|done]).
  assert (Hres2 : results_ok q s2 (res ++ [Some a.2])).
  { eapply results_ext; [eapply store_plain, G1|apply G2| |exact Hres1]. injection E1 as _ <-. eauto. }
  destruct (IH _ _ _ _ _ _ E (proj1 G) Hmux2 Hq2 Hres2) as (G' & Hres' & Hlen & m' & Hq' & ES' & ED').
  split_and!; [by eapply grows_trans|done| |].
  - rewrite length_app in Hlen. simpl in *. lia.
  - exists m'. split; [done|]. split; [by rewrite ES'|]. by rewrite ED', ED2, <- app_assoc.
Qed.

(** ** The values of the mux sources *)

Definition source_values (ms : list (option ValueSource)) : list (option AssetAmount) :=
  map (fun s => s ≫= src_Value) ms.

(** [fills f i ins ms ms']: the inputs [ins], from index [i] on, whose value [f] knows
    have put it in the place with their index; the other places are as they were. *)
Definition fills (f : TxInput -> option AssetAmount) (i : nat) (ins : list TxInput)
    (ms ms' : list (option ValueSource)) : Prop :=
  length ms' = length ms /\
  forall j, source_values ms' !! j =
    match (if decide (i <= j)%nat then ins !! (j - i)%nat else None) ≫= f with
    | Some v => Some (Some v)
    | None => source_values ms !! j
    end.

Lemma fills_nil f i ms : fills f i [] ms ms.
Proof. split; [done|]. intros j. by destruct (decide (i <= j)%nat). Qed.

(** What one input does, then the others. *)
Lemma fills_cons f i inp ins ms ms1 ms' :
  (i < length ms)%nat ->
  match f inp with
  | Some v => exists src, ms1 = <[i := Some src]> ms /\ src_Value src = Some v
  | None => ms1 = ms
  end ->
  fills f (S i) ins ms1 ms' -> fills f i (inp :: ins) ms ms'.
Proof.
  intros Hi H1 [Hl Hf]. split.
  { rewrite Hl. destruct (f inp); [destruct H1 as (src & -> & _); by rewrite length_insert|by subst]. }
  intros j. rewrite Hf. destruct (decide (i = j)) as [<-|Hne].
  - rewrite decide_False by lia. rewrite decide_True by lia. rewrite Nat.sub_diag. simpl.
    destruct (f inp) as [v|]; [|by subst]. destruct H1 as (src & -> & Ev). unfold source_values.
    rewrite list_lookup_fmap, list_lookup_insert_eq by done. simpl. by rewrite Ev.
  - assert (E : source_values ms1 !! j = source_values ms !! j).
    { destruct (f inp) as [v|]; [|by subst]. destruct H1 as (src & -> & _). unfold source_values.
      by rewrite !list_lookup_fmap, list_lookup_insert_ne. }
    rewrite E. destruct (decide (S i <= j)%nat).
    + rewrite decide_True by lia. by replace (j - i)%nat with (S (j - S i)) by lia.
    + by rewrite decide_False by lia.
Qed.

Definition spend_amount (inp : TxInput) : option AssetAmount :=
  match ti_TypedInput inp with Some (IsSpend si) => Some (sc_AssetAmount (si_SpendCommitment si)) | _ => None end.

Definition issuance_amount (inp : TxInput) : option AssetAmount :=
  match ti_TypedInput inp with
  | Some (IsIssuance ii) => Some (mkAssetAmount (Some (IssuanceInput_AssetID ii)) (ii_Amount ii))
  | _ => None
  end.

Lemma map_spends_fills ins : forall i acc s acc' s',
  map_spends i ins acc s = Some (acc', s') -> (i + length ins <= length (sa_muxSources acc))%nat ->
  fills spend_amount i ins (sa_muxSources acc) (sa_muxSources acc').
Proof.
  induction ins as [|inp ins IH]; intros i acc s acc' s' E Hi; [injection E as <- <-; apply fills_nil|].
  cbn [map_spends length] in *. step E acc1 s1.
  assert (H1 : match spend_amount inp with
               | Some v => exists src, sa_muxSources acc1 = <[i := Some src]> (sa_muxSources acc) /\ src_Value src = Some v
               | None => sa_muxSources acc1 = sa_muxSources acc
               end).
  { unfold spend_amount. destruct (ti_TypedInput inp) as [[ii|si]|]; [by injection E0 as <- <-| |by injection E0 as <- <-].
    unfold map_spend in E0. step E0 out s2. step E0 a s3. injection E0 as <- <-. eauto. }
  eapply fills_cons; [lia|exact H1|]. eapply IH; [done|].
  destruct (spend_amount inp); [destruct H1 as (src & -> & _); rewrite length_insert|rewrite H1]; lia.
Qed.

Lemma map_issuances_fills tx first ins : forall i acc s acc' s',
  map_issuances tx first i ins acc s = Some (acc', s') -> (i + length ins <= length acc.2)%nat ->
  fills issuance_amount i ins acc.2 acc'.2.
Proof.
  induction ins as [|inp ins IH]; intros i acc s acc' s' E Hi; [injection E as <- <-; apply fills_nil|].
  cbn [map_issuances length] in *. step E acc1 s1.
  assert (H1 : match issuance_amount inp with
               | Some v => exists src, acc1.2 = <[i := Some src]> acc.2 /\ src_Value src = Some v
               | None => acc1.2 = acc.2
               end).
  { unfold issuance_amount. destruct (ti_TypedInput inp) as [[ii|si]|]; [|by injection E0 as <- <-..].
    unfold map_issuance in E0. step E0 an s2. step E0 a s3. step E0 u s4. injection E0 as <- <-. eexists. by split. }
  eapply fills_cons; [lia|exact H1|]. eapply IH; [done|].
  destruct (issuance_amount inp); [destruct H1 as (src & -> & _); rewrite length_insert|rewrite H1]; lia.
Qed.

Lemma filled_sources ins ms ms' :
  fills spend_amount 0 ins (replicate (length ins) None) ms -> fills issuance_amount 0 ins ms ms' ->
  source_values ms' = map TxInput_AssetAmount ins.
Proof.
  intros [L1 F1] [L2 F2]. apply list_eq. intros j. rewrite F2, F1, decide_True by lia. rewrite Nat.sub_0_r.
  unfold source_values. rewrite !list_lookup_fmap. destruct (ins !! j) as [inp|] eqn:Ej; simpl.
  - unfold issuance_amount, spend_amount, TxInput_AssetAmount.
    destruct (ti_TypedInput inp) as [[ii|si]|]; [done|done|].
    rewrite lookup_replicate_2 by (by eapply lookup_lt_Some). done.
  - rewrite lookup_ge_None_2; [done|]. rewrite length_replicate. by apply lookup_ge_None.
Qed.

(** ** The whole of [mapTx] *)

Record mapped (tx : TxData) (hid : Hash) (h : TxHeader) (s : mstate) (q : nat) (muxID : Hash) (m : Mux)
    (s0 : mstate) : Prop := {
  mp_store : store_ok (Some (q, muxID)) s0;
  mp_objs : objs s = objs s0 ++ [ETxHeader h];
  mp_map : entryMap s = <[hid := length (objs s0)]> (entryMap s0);
  mp_header : EntryID (Some (ETxHeader h)) = Some hid;
  mp_version : tx_Version h = td_Version tx;
  mp_results : results_ok q s0 (ResultIds h);
  mp_nresults : length (ResultIds h) = length (Outputs tx);
  mp_mux : objs s0 !! q = Some (EMux m);
  mp_muxID : EntryID (Some (EMux m)) = Some muxID;
  mp_sources : source_values (Sources m) = map TxInput_AssetAmount (Inputs tx);
  mp_dests : dest_values m = map (fun o => Some (output_amount o)) (Outputs tx);
}.

Lemma empty_store_ok : store_ok None empty_store.
Proof. split; intros ? ?; by rewrite ?lookup_empty, ?lookup_nil. Qed.

Lemma mapTx_body_mapped tx hid h s :
  mapTx_body tx empty_store = Some ((hid, h), s) -> exists q muxID m s0, mapped tx hid h s q muxID m s0.
Proof.
  unfold mapTx_body. intros E. step E sa s1. step E ia s2. step E mux s3. step E u s4. step E u' s5.
  step E res s6. step E a s7. injection E as <- <- <-.
  destruct (map_spends_ok _ _ _ _ _ _ E0 empty_store_ok) as (G1 & Hms1 & Hf1).
  { intros src r [-> _]%elem_of_replicate. done. }
  { done. }
  destruct (map_issuances_ok _ _ _ _ _ _ _ _ E1 (proj1 G1) Hms1 Hf1) as (G2 & Hms2 & _).
  pose proof (map_spends_fills _ _ _ _ _ _ E0 ltac:(simpl; by rewrite length_replicate)) as F1.
  pose proof (map_issuances_fills _ _ _ _ _ _ _ _ E1 ltac:(simpl; by rewrite (proj1 F1); simpl; rewrite length_replicate)) as F2.
  destruct (add_mux_ok _ _ _ _ (proj1 G2) Hms2 E2) as (G3 & Hmux & Hq). destruct mux as [q muxID]. simpl in *.
  destruct (map_spend_dests_ok (Some (q, muxID)) _ _ _ _ _ _ E3 (proj1 G3) Hq) as [G4 Hq4].
  destruct (map_issuance_dests_ok (Some (q, muxID)) _ _ _ _ _ _ E4 (proj1 G4) Hq4) as [G5 Hq5]. simpl in *.
  pose proof (grows_trans _ _ _ _ G4 G5) as G45.
  assert (Hmux5 : points (objs s5) 4 muxID) by (eapply points_ext; [eapply store_plain, G3|apply G45|done]).
  destruct (map_outputs_ok _ _ _ _ _ _ _ _ _ E5 (proj1 G5) Hmux5 Hq5) as (G6 & Hres & Hlen & m & Hm & ES & ED).
  { intros r Hr. by apply elem_of_nil in Hr. }
  pose proof (addEntry_inv _ _ _ _ E6) as (_ & Eh & Eo & Em). pose proof (addEntry_inv _ _ _ _ E2) as (_ & Emux & _). simpl in Emux.
  exists q, muxID, m, s6. split; try done; [by apply G6| |].
  - rewrite <- Emux. apply EntryID_strip; [|done|].
    + destruct (so_entry _ _ (proj1 G6) _ _ Hm) as [Hpl _]. exact Hpl.
    + destruct (grows_trans _ _ _ _ G45 G6) as [_ Hx]. destruct (Hx q _ Hq) as (e' & He' & _ & Es).
      assert (e' = EMux m) as -> by congruence. done.
  - rewrite ES. by eapply filled_sources.
Qed.
End Store.

(** ** Without a failure of the hash function *)

Section NoClash.
Context `{Crypto}.
Context (data : TxData) (hid : Hash) (h : TxHeader) (s : mstate) (q : nat) (muxID : Hash) (m : Mux) (s0 : mstate).
Context (M : mapped data hid h s q muxID m s0).
Context (Htyp : forall e e' id, e ∈ objs s -> e' ∈ objs s -> EntryID (Some e) = Some id -> EntryID (Some e') = Some id ->
                  typ e = typ e').
Context (Hzero : forall e, e ∈ objs s -> EntryID (Some e) <> Some zeroHash).
Context (tx : Tx) (Etx : Entries tx = entries_of s) (Ehdr : Header tx = h) (Eid : tx_ID tx = hid).

Lemma stored_entry id oe :
  entries_of s !! id = Some oe ->
  exists p e, entryMap s !! id = Some p /\ objs s !! p = Some e /\ oe = Some e /\ EntryID (Some e) = Some id.
Proof using M.
  unfold entries_of. rewrite lookup_fmap. destruct (entryMap s !! id) as [p|] eqn:Ep; [|done]. intros [= <-].
  exists p. rewrite (mp_map _ _ _ _ _ _ _ _ M) in Ep. rewrite (mp_objs _ _ _ _ _ _ _ _ M).
  apply lookup_insert_Some in Ep as [[<- <-]|[_ Ep]].
  - exists (ETxHeader h). rewrite list_lookup_middle by done. split_and!; try done. apply (mp_header _ _ _ _ _ _ _ _ M).
  - destruct (so_keyed _ _ (mp_store _ _ _ _ _ _ _ _ M) _ _ Ep) as (e & He & Ee).
    exists e. rewrite (lookup_app_l_Some _ _ _ _ He). done.
Qed.

Lemma has_stored id e :
  has tx id e -> exists p, entryMap s !! id = Some p /\ objs s !! p = Some e /\ EntryID (Some e) = Some id.
Proof using M Etx.
  unfold has. rewrite Etx. intros (p & e' & Ep & He & [= <-] & Ei)%stored_entry. eauto.
Qed.

Lemma header_stored : has tx hid (ETxHeader h).
Proof using M Etx.
  unfold has. rewrite Etx. unfold entries_of. rewrite lookup_fmap, (mp_map _ _ _ _ _ _ _ _ M), lookup_insert_eq. simpl.
  rewrite (mp_objs _ _ _ _ _ _ _ _ M). by rewrite list_lookup_middle.
Qed.

Lemma mapped_well_keyed : well_keyed tx.
Proof using M Hzero Etx Ehdr Eid.
  split.
  - rewrite Etx. intros id oe (p & e & _ & He & -> & Ei)%stored_entry. split; [|eauto]. intros ->.
    eapply Hzero; [by eapply list_elem_of_lookup_2|done].
  - rewrite Ehdr, Eid. pose proof (mp_header _ _ _ _ _ _ _ _ M) as Hh. split; [|done]. intros E.
    destruct (Hzero (ETxHeader h)); [rewrite (mp_objs _ _ _ _ _ _ _ _ M); apply elem_of_app; right; apply list_elem_of_here|by rewrite Hh, E].
  - rewrite Eid, Ehdr. intros e He. pose proof header_stored as Hh. unfold has in *. rewrite Hh in He. by injection He.
Qed.

(** The kind of the entry that is registered under an identifier. *)
Definition id_rank (id : Hash) : nat :=
  match entries_of s !! id with Some (Some e) => typ_rank e | _ => 0%nat end.

Lemma has_rank id e : has tx id e -> id_rank id = typ_rank e.
Proof using Etx. unfold has, id_rank. rewrite Etx. by intros ->. Qed.

Lemma points_rank k r : points (objs s) k r -> (0 < k)%nat -> (id_rank r < k)%nat.
Proof using M Htyp Hzero.
  intros Hp Hk. unfold id_rank. destruct (entries_of s !! r) as [oe|] eqn:E; [|done].
  apply stored_entry in E as (p & e & _ & He & -> & Ei). apply list_elem_of_lookup_2 in He.
  destruct Hp as [->|(e' & He' & Ei' & Hlt)]; [by destruct (Hzero e He)|].
  by rewrite (typ_rank_typ e e') by (by eapply Htyp).
Qed.

Lemma objs_ext : Forall plain (objs s0) /\ ext (objs s0) (objs s).
Proof using M.
  pose proof (store_plain _ _ (mp_store _ _ _ _ _ _ _ _ M)) as Hp. split; [done|].
  rewrite (mp_objs _ _ _ _ _ _ _ _ M). by apply ext_snoc.
Qed.

Lemma header_linked : linked (objs s) (ETxHeader h).
Proof using M.
  intros r (o & Hin & Eo)%list_elem_of_omap. destruct o as [r'|]; [|done]. injection Eo as ->.
  destruct objs_ext as [Hp Hx]. eapply points_ext; [done..|]. by apply (mp_results _ _ _ _ _ _ _ _ M).
Qed.

(** A stored entry is the header, or has its role. *)
Lemma stored_role p e :
  objs s !! p = Some e -> e = ETxHeader h /\ p = length (objs s0) \/
  objs s0 !! p = Some e /\ entry_ok (Some (q, muxID)) (objs s) p e.
Proof using M.
  rewrite (mp_objs _ _ _ _ _ _ _ _ M) at 1. intros [Hp|[Hge Hp]]%lookup_app_Some.
  - right. split; [done|]. destruct objs_ext as [Hpl Hx]. pose proof (so_entry _ _ (mp_store _ _ _ _ _ _ _ _ M) _ _ Hp) as Hok.
    eapply entry_ok_ext; [done|done|apply Hok|done|done].
  - left. apply list_lookup_singleton_Some in Hp as [? <-]. split; [done|lia].
Qed.

(** The entry of a result comes after the mux. *)
Lemma result_after r p : Some r ∈ ResultIds h -> entryMap s !! r = Some p -> (q < p)%nat.
Proof using M.
  intros Hr Ep. destruct (mp_results _ _ _ _ _ _ _ _ M r Hr) as [_ (p' & Ep' & Hlt)].
  rewrite (mp_map _ _ _ _ _ _ _ _ M) in Ep. apply lookup_insert_Some in Ep as [[_ <-]|[_ Ep]].
  - by eapply lookup_lt_Some, (mp_mux _ _ _ _ _ _ _ _ M).
  - rewrite Ep' in Ep. by injection Ep as ->.
Qed.

Lemma reachable_linked id e : reachable tx id e -> has tx id e /\ linked (objs s) e.
Proof using M Htyp Hzero Etx Ehdr Eid.
  induction 1 as [|id e r e' _ [He Hl] Hr He']; [rewrite Eid, Ehdr; auto using header_stored, header_linked|].
  split; [done|]. destruct (has_stored _ _ He') as (p & Ep & Hp & Ei).
  destruct (stored_role p e' Hp) as [[-> _]|[_ (_ & _ & [Hprev|?])]]; [apply header_linked| |done].
  exfalso. destruct Hprev as [[o ->] Hlt].
  assert (Hrank : (id_rank r < typ_rank e)%nat).
  { apply points_rank; [by apply Hl|]. destruct e; simpl in *; try lia; by apply elem_of_nil in Hr. }
  rewrite (has_rank _ _ He') in Hrank. simpl in Hrank.
  destruct e as [|h'| | | | | | |]; simpl in Hrank; try lia.
  destruct (has_stored _ _ He) as (p' & _ & Hp' & _).
  destruct (stored_role p' _ Hp') as [[[= ->] _]|[_ (_ & Hrole & _)]].
  - apply list_elem_of_omap in Hr as ([r'|] & Hin & [= ->]). pose proof (result_after r p Hin Ep). lia.
  - destruct Hrole as [[_ []]|[[_ ?]|[_ ?]]]; simpl in *; lia.
Qed.

Lemma mapped_ranked : ranked tx id_rank.
Proof using M Htyp Hzero Etx Ehdr Eid.
  intros id e r Hre Hr. destruct (reachable_linked id e Hre) as [He Hl]. rewrite (has_rank _ _ He).
  apply points_rank; [by apply Hl|]. destruct e; simpl in *; try lia; by apply elem_of_nil in Hr.
Qed.

Lemma header_rank : id_rank (tx_ID tx) = 5%nat.
Proof using M Etx Eid. rewrite Eid. by rewrite (has_rank _ _ header_stored). Qed.

(** There is one mux. *)
Lemma only_mux p m' : objs s !! p = Some (EMux m') -> p = q /\ m' = m.
Proof using M.
  intros Hp. destruct (stored_role p _ Hp) as [[? _]|[He (_ & Hrole & _)]]; [done|].
  assert (p = q) as ->.
  { destruct Hrole as [[_ []]|[[? _]|[_ Hr]]]; [done|]. simpl in Hr. lia. }
  split; [done|]. rewrite (mp_mux _ _ _ _ _ _ _ _ M) in He. by injection He.
Qed.

Lemma mux_stored : has tx muxID (EMux m).
Proof using M Htyp Etx Eid.
  assert (Hq : EMux m ∈ objs s).
  { rewrite (mp_objs _ _ _ _ _ _ _ _ M). apply elem_of_app. left.
    by eapply list_elem_of_lookup_2, (mp_mux _ _ _ _ _ _ _ _ M). }
  destruct (so_total _ _ (mp_store _ _ _ _ _ _ _ _ M) _ _ (mp_mux _ _ _ _ _ _ _ _ M)) as (id & Ei & [p Hp]).
  pose proof (mp_muxID _ _ _ _ _ _ _ _ M) as Emux. rewrite Emux in Ei. injection Ei as <-.
  assert (Hin : is_Some (entries_of s !! muxID)).
  { unfold entries_of. rewrite lookup_fmap, (mp_map _ _ _ _ _ _ _ _ M). apply fmap_is_Some.
    destruct (decide (hid = muxID)) as [->|]; [by rewrite lookup_insert_eq|by rewrite lookup_insert_ne, Hp]. }
  destruct Hin as [oe Eoe]. unfold has. rewrite Etx, Eoe.
  apply stored_entry in Eoe as (p' & e & _ & He & -> & Ee).
  pose proof (Htyp e (EMux m) muxID ltac:(by eapply list_elem_of_lookup_2) Hq Ee Emux) as Et.
  destruct e as [| |m'| | | | | |]; try discriminate Et. by destruct (only_mux _ _ He) as [_ ->].
Qed.

(** A result leads to the mux. *)
Lemma mux_reachable r e : Some r ∈ ResultIds h -> has tx r e -> reachable tx muxID (EMux m).
Proof using M Htyp Hzero Etx Ehdr Eid.
  intros Hr He. assert (Hrefs : r ∈ refs (ETxHeader h)) by (apply list_elem_of_omap; by exists (Some r)).
  assert (Hre : reachable tx r e).
  { apply (reach_ref _ hid (ETxHeader h)); [|done|done]. rewrite <- Eid, <- Ehdr. constructor. }
  destruct (has_stored _ _ He) as (p & Ep & Hp & Ei). pose proof (result_after r p Hr Ep) as Hlt.
  destruct (stored_role p e Hp) as [[-> _]|[_ (_ & Hrole & _)]].
  - pose proof (points_rank 5 r (header_linked r Hrefs) ltac:(lia)) as Hk. rewrite (has_rank _ _ He) in Hk. simpl in Hk. lia.
  - apply (reach_ref _ r e); [done| |apply mux_stored].
    destruct Hrole as [[_ His]|[[? _]|[? _]]]; [|lia|lia].
    destruct e; try done; simpl in *; rewrite His; apply list_elem_of_here.
Qed.

Lemma mapped_reachable_mux id m' : reachable tx id (EMux m') -> m' = m.
Proof using M Htyp Hzero Etx Ehdr Eid.
  intros [He _]%reachable_linked. destruct (has_stored _ _ He) as (p & _ & Hp & _). by apply (only_mux p).
Qed.
End NoClash.
