(* ===== verification/LegacyTheorems.v ===== *)
(** * Theorems about [MapTx]

    The entries of a mapped transaction are as the validator expects them, so that
    validation of the transaction ends and decides, and the value of the inputs is
    that of the outputs; and that one output can be spent twice in one transaction. *)

From Stdlib Require Import ZArith Lia Strings.Byte.
From stdpp Require Import gmap strings.
From S2P Require Import Prelude GoSlice Crypto VMCode.
From S2P Require VM VMRun VMExec.
From S2P Require Import Encoding Bc EntryHash Merkle StateTree Patricia Snapshot TxContext Validation.
From S2P Require Import ValidSpec ValidLogic ValidProof ValidTheorems.
From S2P Require Import Legacy LegacyMap LegacyProof.

(** ** Failures of the hash function *)

Section HashFailure.
Context `{CryptoLaws}.

(** The strings that are hashed for the entries. *)
Definition hashed (os : list Entry) (x : bytes) : Prop := exists e, e ∈ os /\ entry_hashes e x.

(** Building the entries of [data] exhibits a collision of SHA3-256, or a string whose
    digest is zero. *)
Definition hash_failure (data : TxData) : Prop :=
  exists r s, mapTx_body data empty_store = Some (r, s) /\
    (collision (hashed (objs s)) (hashed (objs s)) \/ exists e, e ∈ objs s /\ EntryID (Some e) = Some zeroHash).

Lemma typ_or_collision e e' id :
  EntryID (Some e) = Some id -> EntryID (Some e') = Some id ->
  typ e = typ e' \/ collision (entry_hashes e) (entry_hashes e').
Proof.
  intros (b & Eb & E)%EntryID_string (b' & Eb' & E')%EntryID_string.
  destruct (decide (id_string e b = id_string e' b')) as [Es|Ne]; [left; by apply id_string_inj in Es as [? _]|right].
  exists (id_string e b), (id_string e' b'). rewrite E, E'. unfold entry_hashes. eauto 10.
Qed.

Lemma typs_or_collision (os : list Entry) :
  (forall e e' id, e ∈ os -> e' ∈ os -> EntryID (Some e) = Some id -> EntryID (Some e') = Some id -> typ e = typ e') \/
  collision (hashed os) (hashed os).
Proof.
  destruct (decide (Exists (fun e => Exists (fun e' =>
    is_Some (EntryID (Some e)) /\ EntryID (Some e) = EntryID (Some e') /\ typ e <> typ e') os) os)) as [Hex|Hno].
  - right. apply Exists_exists in Hex as (e & He & (e' & He' & [id Ei] & Eq & Ht)%Exists_exists).
    destruct (typ_or_collision e e' id Ei ltac:(by rewrite <- Eq)) as [?|Hc]; [done|].
    eapply collision_mono; [..|exact Hc]; intros x Hx; unfold hashed; eauto.
  - left. intros e e' id He He' Ei Ei'. destruct (decide (typ e = typ e')) as [|Ht]; [done|]. destruct Hno.
    apply Exists_exists. exists e. split; [done|]. apply Exists_exists. exists e'. split; [done|].
    rewrite Ei, Ei'. eauto.
Qed.

Lemma zero_or_not (os : list Entry) :
  (forall e, e ∈ os -> EntryID (Some e) <> Some zeroHash) \/ exists e, e ∈ os /\ EntryID (Some e) = Some zeroHash.
Proof.
  destruct (decide (Exists (fun e => EntryID (Some e) = Some zeroHash) os)) as [Hex|Hno].
  - right. by apply Exists_exists in Hex.
  - left. intros e He Ez. apply Hno, Exists_exists. eauto.
Qed.
End HashFailure.

(** ** The value of a transaction *)

Section Theorems.
Context `{CryptoLaws} `{MapRange} `{Verifier}.

Definition inputs_total (data : TxData) (a : AssetID) : Z :=
  sumZ (map (fun inp => value_of (TxInput_AssetAmount inp) a) (Inputs data)).

Definition outputs_total (data : TxData) (a : AssetID) : Z :=
  sumZ (map (fun o => value_of (Some (output_amount o)) a) (Outputs data)).

(** The amounts are 64-bit integers. *)
Definition amounts_ok (data : TxData) : Prop :=
  (forall inp, inp ∈ Inputs data -> amount_ok (TxInput_AssetAmount inp)) /\
  (forall o, o ∈ Outputs data -> amount_ok (Some (output_amount o))).

Lemma mapped_amounts data hid h s q muxID m s0 :
  mapped data hid h s q muxID m s0 -> amounts_ok data -> wf_amounts m.
Proof.
  intros M [Hin Hout]. split.
  - intros src [i Hi]%list_elem_of_lookup.
    assert (Hv : source_values (Sources m) !! i = Some (src_Value src)).
    { unfold source_values. by rewrite list_lookup_fmap, Hi. }
    rewrite (mp_sources _ _ _ _ _ _ _ _ M) in Hv. apply list_lookup_fmap_Some in Hv as (inp & -> & Hinp).
    apply Hin. by eapply list_elem_of_lookup_2.
  - intros d [i Hi]%list_elem_of_lookup.
    assert (Hv : dest_values m !! i = Some (dest_Value d)).
    { unfold dest_values. by rewrite list_lookup_fmap, Hi. }
    rewrite (mp_dests _ _ _ _ _ _ _ _ M) in Hv. apply list_lookup_fmap_Some in Hv as (o & -> & Ho).
    apply Hout. by eapply list_elem_of_lookup_2.
Qed.

Lemma mapped_totals data hid h s q muxID m s0 a :
  mapped data hid h s q muxID m s0 -> sources_total m a = inputs_total data a /\ dests_total m a = outputs_total data a.
Proof.
  intros M. unfold sources_total, dests_total, inputs_total, outputs_total. split; f_equal.
  - transitivity (map (fun v => value_of v a) (source_values (Sources m))).
    + unfold source_values. by rewrite map_map.
    + by rewrite (mp_sources _ _ _ _ _ _ _ _ M), map_map.
  - transitivity (map (fun v => value_of v a) (dest_values m)).
    + unfold dest_values. by rewrite map_map.
    + by rewrite (mp_dests _ _ _ _ _ _ _ _ M), map_map.
Qed.

(** What [MapTx] returns, or the hash function has failed. *)
Lemma MapTx_cases data tx :
  MapTx data = Some tx ->
  hash_failure data \/
  exists hid h s q muxID m s0,
    mapped data hid h s q muxID m s0 /\ Entries tx = entries_of s /\ Header tx = h /\ tx_ID tx = hid /\
    (forall e e' id, e ∈ objs s -> e' ∈ objs s -> EntryID (Some e) = Some id -> EntryID (Some e') = Some id ->
       typ e = typ e') /\
    (forall e, e ∈ objs s -> EntryID (Some e) <> Some zeroHash).
Proof.
  unfold MapTx, mapTx. intros E. destruct (mapTx_body data empty_store) as [[[hid h] s]|] eqn:Eb; [|done].
  simpl in E. apply bind_Some in E as (acc & _ & [= <-]).
  destruct (typs_or_collision (objs s)) as [Ht|Hc]; [|left; eexists _, _; eauto].
  destruct (zero_or_not (objs s)) as [Hz|Hz]; [right|left; eexists _, _; eauto].
  destruct (mapTx_body_mapped _ _ _ _ Eb) as (q & muxID & m & s0 & M). exists hid, h, s, q, muxID, m, s0. done.
Qed.

Lemma mapped_validates data hid h s q muxID m s0 tx bid fuel :
  mapped data hid h s q muxID m s0 -> Entries tx = entries_of s -> Header tx = h -> tx_ID tx = hid ->
  (forall e e' id, e ∈ objs s -> e' ∈ objs s -> EntryID (Some e) = Some id -> EntryID (Some e') = Some id -> typ e = typ e') ->
  (forall e, e ∈ objs s -> EntryID (Some e) <> Some zeroHash) ->
  amounts_ok data -> answers tx -> (5 < fuel)%nat ->
  match ValidateTx fuel tx bid with
  | VRet _ => valid_tx bid tx
  | VErr _ | VPanic => ~ valid_tx bid tx
  | VFuel => False
  end.
Proof.
  intros M Ee Eh Ei Ht Hz Ha Hans Hf. apply (ValidateTx_verdict bid tx (id_rank s)).
  - by eapply mapped_well_keyed.
  - by eapply mapped_ranked.
  - done.
  - intros id m' Hr. rewrite (mapped_reachable_mux _ _ _ _ _ _ _ _ M Ht Hz tx Ee Eh Ei id m' Hr). by eapply mapped_amounts.
  - by rewrite (header_rank _ _ _ _ _ _ _ _ M tx Ee Ei).
Qed.

(** C4: The transactions that [MapTx] makes from inputs and outputs are as the
    validator needs them: six levels of recursion are enough, and [ValidateTx] accepts
    exactly those that follow the rules.  The alternative is a failure of SHA3-256 on
    the strings that are hashed for this transaction. *)
Theorem MapTx_validates data tx bid fuel :
  MapTx data = Some tx -> amounts_ok data -> answers tx -> (5 < fuel)%nat ->
  match ValidateTx fuel tx bid with
  | VRet _ => valid_tx bid tx
  | VErr _ | VPanic => ~ valid_tx bid tx
  | VFuel => False
  end \/ hash_failure data.
Proof.
  intros Em Ha Hans Hf. destruct (MapTx_cases _ _ Em) as [?|(hid & h & s & q & muxID & m & s0 & M & ? & ? & ? & ? & ?)];
    [by right|left]. by eapply mapped_validates.
Qed.

(** C3: An accepted transaction that has version 1 or has outputs moves value and makes
    none: for each asset, the amounts of the inputs of the transaction data add up to those
    of its outputs, as integers, or SHA3-256 has failed on this transaction.  The amounts
    are 64-bit numbers, and the machine answers on the programs that are run.  (In another
    version a transaction may have no outputs; validation then looks at no input.) *)
Theorem accepted_inputs_equal_outputs data tx bid fuel a :
  MapTx data = Some tx -> amounts_ok data -> answers tx -> (5 < fuel)%nat ->
  td_Version data = 1 \/ Outputs data <> [] -> ValidateTx fuel tx bid = VRet tt ->
  inputs_total data a = outputs_total data a \/ hash_failure data.
Proof.
  intros Em Ha Hans Hf Hv Ev. destruct (MapTx_cases _ _ Em) as [?|(hid & h & s & q & muxID & m & s0 & M & Ee & Eh & Ei & Ht & Hz)];
    [by right|left].
  pose proof (mapped_validates _ _ _ _ _ _ _ _ _ bid fuel M Ee Eh Ei Ht Hz Ha Hans Hf) as Hval. rewrite Ev in Hval.
  assert (Hres : exists r, Some r ∈ ResultIds h).
  { pose proof (mp_nresults _ _ _ _ _ _ _ _ M) as Hn. pose proof (mp_version _ _ _ _ _ _ _ _ M) as Hver.
    inversion Hval as [? ? Hru _]; subst. destruct Hru as (_ & Hnn & Hr1). destruct (ResultIds (Header tx)) as [|[r|] l] eqn:Er.
    - destruct Hv as [Hv|Hv]; [by destruct (proj1 (Hr1 ltac:(by rewrite Hver)))|].
      by destruct (Outputs data).
    - exists r. apply list_elem_of_here.
    - destruct Hnn. apply list_elem_of_here. }
  destruct Hres as [r Hr].
  assert (He : exists e, has tx r e).
  { inversion Hval as [? ? _ Href]; subst. destruct (Href r) as (e & He & _); [|eauto].
    apply list_elem_of_omap. by exists (Some r). }
  destruct He as [e He].
  pose proof (mux_reachable _ _ _ _ _ _ _ _ M Ht Hz tx Ee Eh Ei r e Hr He) as Hm.
  pose proof (valid_reachable _ _ muxID (EMux m) Hval Hm) as Hvm.
  inversion Hvm as [? ? Hru _]; subst. destruct Hru as (_ & _ & _ & [Hb _ _] & _).
  destruct (mapped_totals _ _ _ _ _ _ _ _ a M) as [<- <-]. apply Hb.
Qed.
End Theorems.

(** ** Examples *)

(** Whether the machine answers on all programs, as a test. *)
Definition check_answers `{Crypto} `{Verifier} (tx : Tx) : bool :=
  on_entries (fun _ e =>
    match program_of tx e with
    | None => true
    | Some (prog, args) =>
        match NewTxVMContext tx e prog args with
        | None => true
        | Some c => match vm_Verify c with None => false | Some _ => true end
        end
    end) tx.

Lemma check_answers_ok `{Crypto} `{Verifier} tx : check_answers tx = true -> answers tx.
Proof.
  intros Hc id e prog args c Hr Ep Ec. apply reachable_known in Hr as [He|[_ ->]]; [|done].
  destruct (on_entries_lookup _ _ _ _ Hc He) as (e' & [= <-] & Hf). rewrite Ep, Ec in Hf. by destruct (vm_Verify c).
Qed.

(** *** A transaction with two spends, an issuance and a retirement *)

Definition poly_machine : Verifier := machine (H := exact_runtime) (H0 := poly_crypto) 20.

Definition moves (ref : bytes) (total : Z) : TxData :=
  mkTxData 1
    [NewSpendInput [] (mkHash 1 2 3 4) ex_asset 10 0 [x51] zeroHash [x01];
     NewSpendInput [] (mkHash 1 2 3 4) ex_asset 10 0 [x51] zeroHash ref]
    [NewTxOutput ex_asset (total - 3) [x51] []; NewTxOutput ex_asset 3 [x6a] []] 0 0 [] [] [].

(** An issuance that the first spend anchors. *)
Definition issues : TxData :=
  mkTxData 1
    [NewIssuanceInput [] 7 [] ex_bid [x51] [] [];
     NewSpendInput [] (mkHash 1 2 3 4) ex_asset 10 0 [x51] zeroHash [x01]]
    [NewTxOutput (@IssuanceInput_AssetID poly_crypto (mkIssuanceInput [] 7 ex_bid [] 1 [x51] [])) 7 [x51] [];
     NewTxOutput ex_asset 10 [x6a] []] 0 0 [] [] [].

Definition mapped_tx (data : TxData) : Tx :=
  default (ex_tx 0) (@MapTx poly_crypto sorted_range data).

(** What the examples compute, in one run. *)
Definition check_mapped (data : TxData) : bool :=
  match @MapTx poly_crypto sorted_range data with
  | None => false
  | Some tx =>
      @check_answers poly_crypto poly_machine tx &&
      match @ValidateTx poly_crypto poly_machine 6 tx ex_bid with VRet _ => true | _ => false end
  end.

Lemma check_mapped_ok data :
  check_mapped data = true ->
  @MapTx poly_crypto sorted_range data = Some (mapped_tx data) /\
  @answers poly_crypto poly_machine (mapped_tx data) /\
  @ValidateTx poly_crypto poly_machine 6 (mapped_tx data) ex_bid = VRet tt.
Proof.
  unfold check_mapped, mapped_tx. destruct (MapTx data) as [tx|]; [|done]. intros [Ha Hv]%andb_true_iff.
  split_and!; [done|by apply check_answers_ok|]. simpl. by destruct (ValidateTx 6 tx ex_bid) as [[]| | |].
Qed.

Lemma issues_facts : check_mapped issues = true /\ @amounts_ok poly_crypto issues.
Proof.
  split; [vm_compute; reflexivity|].
  split; intros x Hx; repeat (apply elem_of_cons in Hx as [->|Hx]; [vm_compute; reflexivity|]); by apply elem_of_nil in Hx.
Qed.

Lemma MapTx_validates_witness :
  @valid_tx poly_crypto poly_machine ex_bid (mapped_tx issues) \/ @hash_failure poly_crypto issues.
Proof.
  destruct issues_facts as [Hc Ha]. destruct (check_mapped_ok _ Hc) as (E & Hans & Ev).
  pose proof (@MapTx_validates poly_crypto poly_crypto_laws sorted_range poly_machine issues (mapped_tx issues) ex_bid 6
                E Ha Hans (le_n 6)) as Hv.
  rewrite Ev in Hv. exact Hv.
Defined.

Lemma accepted_inputs_equal_outputs_witness :
  @inputs_total poly_crypto issues ex_asset = 10 /\
  (@inputs_total poly_crypto issues ex_asset = outputs_total issues ex_asset \/ @hash_failure poly_crypto issues).
Proof.
  split; [vm_compute; reflexivity|]. destruct issues_facts as [Hc Ha]. destruct (check_mapped_ok _ Hc) as (E & Hans & Ev).
  exact (@accepted_inputs_equal_outputs poly_crypto poly_crypto_laws sorted_range poly_machine issues (mapped_tx issues)
           ex_bid 6 ex_asset E Ha Hans (le_n 6) (or_introl eq_refl) Ev).
Defined.

(** *** One output, spent twice *)

(** The identifier of the output that both inputs of [moves] name. *)
Definition spent_id : Hash :=
  default zeroHash (@SpentOutputID poly_crypto (NewSpendInput [] (mkHash 1 2 3 4) ex_asset 10 0 [x51] zeroHash [x01])).

Definition one_output : Snapshot (T := Tree) :=
  mkSnapshot (mkTree (Some (Leaf (bitKey (Bytes spent_id)) (@leaf_hash poly_crypto (Bytes spent_id))))) ∅.

(** Two inputs can spend one output.  When their reference data differ they give
    two spend entries; validation counts the value of both, and the list of spent
    outputs, which is built from a map, has the output once.  So a transaction that
    turns one unspent output of 10 units into 20 units is valid, and the state with
    that one output accepts it. *)
Lemma output_spent_twice :
  let data := moves [x02] 20 in
  exists tx s',
    @MapTx poly_crypto sorted_range data = Some tx /\
    Forall (fun inp => @SpentOutputID poly_crypto inp = Some spent_id) (Inputs data) /\
    @inputs_total poly_crypto data ex_asset = 20 /\ outputs_total data ex_asset = 20 /\
    @ValidateTx poly_crypto poly_machine 6 tx ex_bid = VRet tt /\ SpentOutputIDs tx = [spent_id] /\
    @ApplyTx Tree (@Tree_state poly_crypto) tx one_output = Some (Ok tt, s').
Proof.
  intros data. destruct (check_mapped_ok data ltac:(vm_compute; reflexivity)) as (E & _ & Ev).
  exists (mapped_tx data).
  assert (Hs : exists s', @ApplyTx Tree (@Tree_state poly_crypto) (mapped_tx data) one_output = Some (Ok tt, s')).
  { eexists. vm_compute. reflexivity. }
  destruct Hs as [s' Hs]. exists s'. split; [done|]. split; [repeat constructor; vm_compute; reflexivity|].
  split; [vm_compute; reflexivity|]. split; [vm_compute; reflexivity|]. split; [done|].
  split; [vm_compute; reflexivity|done].
Qed.
