(* ===== verification/Chain.v ===== *)
(** * The chain: [protocol/protocol.go], [block.go], [tx.go], [recover.go]

    A chain keeps the latest block and state snapshot, a height that processes can wait
    for, a cache of validation results, and a queue of one snapshot on its way to the
    store.  The store and the LRU cache of [groupcache] are interfaces here; the
    in-memory store of [prottest/memstore] is an instance of the first.

    An operation takes the chain and returns an outcome with the chain after it.  Blocks
    are [LBlockHeader * list LTx]. *)

From Stdlib Require Import ZArith Lia Strings.Byte.
From stdpp Require Import gmap.
From S2P Require Import Prelude GoSlice Crypto VMCode VMUtil.
From S2P Require VM VMRun.
From S2P Require Import Encoding Bc Legacy LegacyMap Merkle StateTree Snapshot TxContext Validation.

(** ** The cache of validation results *)

(** [lru.Cache] of groupcache: a nil error is [None]. *)
Class LRU (C : Type) := {
  lru_New : C;
  lru_Get : C -> Hash -> option (option verr) * C;
  lru_Add : C -> Hash -> option verr -> C;
}.

(** What is found was added last under its key; a lookup only marks it as used. *)
Class LRULaws (C : Type) `{LRU C} : Prop := {
  lru_new_find k : (lru_Get lru_New k).1 = None;
  lru_get_find c k k' : (lru_Get (lru_Get c k).2 k').1 = (lru_Get c k').1;
  lru_add_same c k v : (lru_Get (lru_Add c k v) k).1 = Some v;
  lru_add_other c k v k' v' :
    k' <> k -> (lru_Get (lru_Add c k v) k').1 = Some v' -> (lru_Get c k').1 = Some v';
}.

(** [maxCachedValidatedTxs] *)
Definition maxCachedValidatedTxs : nat := 1000.

(** A list with the most recent entry first. *)
Notation lru_list := (list (Hash * option verr)).

Definition list_find_key (k : Hash) (c : lru_list) : option (option verr) :=
  snd <$> head (filter (fun p => p.1 = k) c).

Definition move_front (k : Hash) (v : option verr) (c : lru_list) : lru_list :=
  (k, v) :: filter (fun p => p.1 <> k) c.

#[export] Instance lru_list_lru : LRU lru_list := {|
  lru_New := [];
  lru_Get c k := match list_find_key k c with
                 | Some v => (Some v, move_front k v c)
                 | None => (None, c)
                 end;
  lru_Add c k v := take maxCachedValidatedTxs (move_front k v c);
|}.

(** ** The store *)

Definition ChainBlock : Type := LBlockHeader * list LTx.

Class Store (T S : Type) `{StateTree T} := {
  store_err : Type;
  st_Height : S -> result store_err Z;
  st_GetBlock : S -> Z -> result store_err ChainBlock;
  st_LatestSnapshot : S -> result store_err (option (Snapshot (T := T)) * Z) * S;
  st_SaveBlock : S -> ChainBlock -> option (result store_err unit * S);
  st_FinalizeBlock : S -> Z -> result store_err unit * S;
  st_SaveSnapshot : S -> Z -> Snapshot (T := T) -> result store_err unit * S;
  (** the store after the owner of a block that was saved has changed it *)
  st_block_changed : S -> ChainBlock -> S;
}.

(** *** [prottest/memstore] *)

Section MemStore.
Context {T : Type} `{StateTree T} `{Crypto}.

Record MemStore := mkMemStore {
  Blocks : gmap Z ChainBlock;
  ms_State : option (Snapshot (T := T));
  StateHeight : Z;
}.

Definition NewMemStore : MemStore := mkMemStore ∅ None 0.

Inductive memstore_err := AlreadyHave (height : Z) | NoBlock (height : Z).

Definition mem_Height (m : MemStore) : result memstore_err Z := Ok (Z.of_nat (size (Blocks m))).

(** Computing the hash of a block can panic. *)
Definition mem_SaveBlock (m : MemStore) (b : ChainBlock) : option (result memstore_err unit * MemStore) :=
  let height := lb_Height b.1 in
  let save := (Ok tt, mkMemStore (<[height := b]> (Blocks m)) (ms_State m) (StateHeight m)) in
  match Blocks m !! height with
  | None => Some save
  | Some existing =>
      h ← BlockHeader_Hash existing.1;
      h' ← BlockHeader_Hash b.1;
      Some (if bool_decide (h = h') then save else (Err (AlreadyHave height), m))
  end.

Definition mem_SaveSnapshot (m : MemStore) (height : Z) (snapshot : Snapshot) : result memstore_err unit * MemStore :=
  (Ok tt, mkMemStore (Blocks m) (Some (Copy snapshot)) height).

Definition mem_GetBlock (m : MemStore) (height : Z) : result memstore_err ChainBlock :=
  match Blocks m !! height with Some b => Ok b | None => Err (NoBlock height) end.

Definition mem_LatestSnapshot (m : MemStore) : result memstore_err (option Snapshot * Z) * MemStore :=
  let state := default Empty (ms_State m) in
  (Ok (Some (Copy state), StateHeight m), mkMemStore (Blocks m) (Some state) (StateHeight m)).

Definition mem_FinalizeBlock (m : MemStore) (height : Z) : result memstore_err unit * MemStore := (Ok tt, m).

(** The map has pointers to the blocks that were saved. *)
Definition mem_block_changed (m : MemStore) (b : ChainBlock) : MemStore :=
  mkMemStore (alter (fun _ => b) (lb_Height b.1) (Blocks m)) (ms_State m) (StateHeight m).

#[export] Instance MemStore_store : Store T MemStore := {|
  store_err := memstore_err;
  st_Height := mem_Height;
  st_GetBlock := mem_GetBlock;
  st_LatestSnapshot := mem_LatestSnapshot;
  st_SaveBlock := mem_SaveBlock;
  st_FinalizeBlock := mem_FinalizeBlock;
  st_SaveSnapshot := mem_SaveSnapshot;
  st_block_changed := mem_block_changed;
|}.
End MemStore.

(** ** The chain *)

(** Times are nanoseconds; the zero [time.Time] is the first of January of year 1. *)
Definition zeroTime : Z := -62135596800 * 1000000000.

(** [saveSnapshotFrequency], one hour *)
Definition saveSnapshotFrequency : Z := 3600 * 1000000000.

Definition maxBlockTxs : Z := 10000.

(** [BlockHeader.Time] *)
Definition block_Time (bh : LBlockHeader) : Z := int64 (uint64 (TimestampMS bh * 1000000)).

(** [bc.DurationMillis]: division truncates. *)
Definition DurationMillis (d : Z) : Z := uint64 (Z.quot d 1000000).

Section Chain.
Context {T : Type} `{StateTree T} `{Crypto} `{Verifier}.
Context {S : Type} `{!Store T S} {C : Type} `{LRU C}.
(** The depth of recursion allowed to [validation.ValidateTx]. *)
Context (fuel : nat).

Inductive cerr :=
| ErrBadTx
| ErrBadBlock
| ErrBadStateRoot
| ErrTheDistantFuture
| ErrTimestamp
| ErrGenesisCommit
| ErrMultiSig (e : uerr)
| ErrApply (e : apply_err)
| ErrRoot
| ErrStore (e : store_err).

Inductive cout (A : Type) := CRet (a : A) | CErr (e : cerr) | CPanic | CFuel.
Arguments CRet {A} a.
Arguments CErr {A} e.
Arguments CPanic {A}.
Arguments CFuel {A}.

Record Chain := mkChain {
  InitialBlockHash : Hash;
  MaxIssuanceWindow : Z;
  ch_height : Z;
  ch_block : option ChainBlock;
  ch_snapshot : option (Snapshot (T := T));
  ch_store : S;
  lastQueuedSnapshot : Z;
  pendingSnapshots : option (Z * Snapshot (T := T));
  prevalidated : C;
  (** the heights that goroutines of [BlockWaiter] wait for, and those that were reached *)
  waiting : list Z;
  released : list Z;
}.

Definition set_store (st : S) (c : Chain) : Chain :=
  mkChain (InitialBlockHash c) (MaxIssuanceWindow c) (ch_height c) (ch_block c) (ch_snapshot c) st
    (lastQueuedSnapshot c) (pendingSnapshots c) (prevalidated c) (waiting c) (released c).
Definition set_cache (p : C) (c : Chain) : Chain :=
  mkChain (InitialBlockHash c) (MaxIssuanceWindow c) (ch_height c) (ch_block c) (ch_snapshot c) (ch_store c)
    (lastQueuedSnapshot c) (pendingSnapshots c) p (waiting c) (released c).
Definition set_block (b : option ChainBlock) (s : option Snapshot) (c : Chain) : Chain :=
  mkChain (InitialBlockHash c) (MaxIssuanceWindow c) (ch_height c) b s (ch_store c)
    (lastQueuedSnapshot c) (pendingSnapshots c) (prevalidated c) (waiting c) (released c).
Definition set_queue (t : Z) (p : option (Z * Snapshot)) (c : Chain) : Chain :=
  mkChain (InitialBlockHash c) (MaxIssuanceWindow c) (ch_height c) (ch_block c) (ch_snapshot c) (ch_store c)
    t p (prevalidated c) (waiting c) (released c).

(** [c.state.height = h; c.state.cond.Broadcast()]: the waiting goroutines look at the
    height again, and those that waited for no more than it go on. *)
Definition broadcast (h : Z) (c : Chain) : Chain :=
  mkChain (InitialBlockHash c) (MaxIssuanceWindow c) h (ch_block c) (ch_snapshot c) (ch_store c)
    (lastQueuedSnapshot c) (pendingSnapshots c) (prevalidated c)
    (filter (fun w => h < w) (waiting c)) (released c ++ filter (fun w => w <= h) (waiting c)).

(** *** A state, error and panic monad *)

Definition CM (A : Type) : Type := Chain -> cout A * Chain.

#[export] Instance CM_ret : MRet CM := fun _ a c => (CRet a, c).
#[export] Instance CM_bind : MBind CM := fun _ _ k m c =>
  match m c with
  | (CRet a, c) => k a c
  | (CErr e, c) => (CErr e, c)
  | (CPanic, c) => (CPanic, c)
  | (CFuel, c) => (CFuel, c)
  end.

Definition cfail {A} (e : cerr) : CM A := fun c => (CErr e, c).
Definition cpanic {A} : CM A := fun c => (CPanic, c).
Definition cfuel {A} : CM A := fun c => (CFuel, c).
Definition of_fuel {A} (o : option A) : CM A := match o with Some a => mret a | None => cfuel end.
Definition cget : CM Chain := fun c => (CRet c, c).
Definition cmodify (f : Chain -> Chain) : CM unit := fun c => (CRet tt, f c).
(** A nil pointer that is followed, or a hash that cannot be computed. *)
Definition or_panic {A} (o : option A) : CM A := match o with Some a => mret a | None => cpanic end.
Definition of_store {A} (r : result store_err A) : CM A :=
  match r with Ok a => mret a | Err e => cfail (ErrStore e) end.
(** [errors.Sub(root, err)] *)
Definition sub_err {A} (e : cerr) (o : vout A) : CM A :=
  match o with VRet a => mret a | VErr _ => cfail e | VPanic => cpanic | VFuel => cfuel end.

(** *** [protocol.go] *)

Definition NewChain (initialBlockHash : Hash) (st : S) : result store_err Chain :=
  match st_Height st with
  | Err e => Err e
  | Ok h => Ok (mkChain initialBlockHash 0 h None None st zeroTime None lru_New [] [])
  end.

(** The goroutine that saves a queued snapshot; an error is only logged. *)
Definition save_pending (c : Chain) : Chain :=
  match pendingSnapshots c with
  | None => c
  | Some (h, s) => set_queue (lastQueuedSnapshot c) None (set_store (st_SaveSnapshot (ch_store c) h s).2 c)
  end.

Definition chain_Height (c : Chain) : Z := ch_height c.
Definition chain_State (c : Chain) : option ChainBlock * option Snapshot := (ch_block c, ch_snapshot c).

Definition setState (b : option ChainBlock) (s : option Snapshot) (c : Chain) : Chain :=
  let c := set_block b s c in
  match b with
  | Some b => if ch_height c <? lb_Height b.1 then broadcast (lb_Height b.1) c else c
  | None => c
  end.

Definition setHeight (h : Z) (c : Chain) : Chain :=
  if h <=? ch_height c then c else broadcast h c.

(** The goroutine of [BlockWaiter]: it goes on at once or waits. *)
Definition BlockWaiter (height : Z) (c : Chain) : Chain :=
  if ch_height c <? height then
    mkChain (InitialBlockHash c) (MaxIssuanceWindow c) (ch_height c) (ch_block c) (ch_snapshot c) (ch_store c)
      (lastQueuedSnapshot c) (pendingSnapshots c) (prevalidated c) (height :: waiting c) (released c)
  else
    mkChain (InitialBlockHash c) (MaxIssuanceWindow c) (ch_height c) (ch_block c) (ch_snapshot c) (ch_store c)
      (lastQueuedSnapshot c) (pendingSnapshots c) (prevalidated c) (waiting c) (released c ++ [height]).

Definition BlockSoonWaiter (height : Z) : CM unit := fun c =>
  if uint64 (ch_height c + 3) <? height then (CErr ErrTheDistantFuture, c) else (CRet tt, BlockWaiter height c).

(** *** [tx.go] *)

Definition checkIssuanceWindow (c : Chain) (tx : Tx) : bool :=
  (MaxIssuanceWindow c =? 0) ||
  forallb (fun entryID =>
    match Tx_Issuance tx entryID with
    | Ok _ => negb (uint64 (tx_MinTimeMs (Header tx) + DurationMillis (MaxIssuanceWindow c)) <? tx_MaxTimeMs (Header tx))
    | Err _ => true
    end) (InputIDs tx).

Definition cache_lookup (txID : Hash) : CM (option (option verr)) := fun c =>
  let '(v, p) := lru_Get (prevalidated c) txID in (CRet v, set_cache p c).

Definition cache_add (txID : Hash) (e : option verr) : CM unit :=
  cmodify (fun c => set_cache (lru_Add (prevalidated c) txID e) c).

Definition chain_ValidateTx (tx : Tx) : CM unit :=
  c ← cget;
  if negb (checkIssuanceWindow c tx) then cfail ErrBadTx
  else
    cached ← cache_lookup (tx_ID tx);
    match cached with
    | Some None => mret tt
    | Some (Some _) => cfail ErrBadTx
    | None =>
        match ValidateTx fuel tx (InitialBlockHash c) with
        | VRet _ => cache_add (tx_ID tx) None
        | VErr e => cache_add (tx_ID tx) (Some e);; cfail ErrBadTx
        | VPanic => cpanic
        | VFuel => cfuel
        end
    end.

(** *** [block.go] *)

Definition chain_GetBlock (height : Z) : CM ChainBlock := c ← cget; of_store (st_GetBlock (ch_store c) height).

(** The parts of [validation.ValidateBlock] before and after its loop. *)
Definition block_prechecks (b : Block) (prev : option Block) : vout unit :=
  (((if 1 <? Height (BlockHdr b)
     then p ← or_err prev errNoPrevBlock; validateBlockAgainstPrev b p else mret tt);;
    checkValidBlockHeader (BlockHdr b) : V unit) ∅).1.

Definition block_root_check (b : Block) : vout unit :=
  ((txRoot ← of_out (match MerkleRoot (Transactions b) with Some r => VRet r | None => VFuel end);
    root ← deref (TransactionsRoot (BlockHdr b));
    ensure (bool_decide (txRoot = root)) errMismatchedMerkleRoot : V unit) ∅).1.

Definition block_tx_check (b : Block) (tx : Tx) : vout unit := (validateBlockTx b (fun _ => VRet tt) tx ∅).1.

(** [errors.Sub(ErrBadBlock, err)] on the error of a call. *)
Definition bad_block {A} (m : CM A) : CM A := fun c =>
  match m c with (CErr _, c) => (CErr ErrBadBlock, c) | r => r end.

Fixpoint validate_txs (b : Block) (txs : list Tx) : CM unit :=
  match txs with
  | [] => mret tt
  | tx :: txs => sub_err ErrBadBlock (block_tx_check b tx);; bad_block (chain_ValidateTx tx);; validate_txs b txs
  end.

(** [validation.ValidateBlock] with [c.ValidateTx], which uses and fills the cache. *)
Definition validate_block (b : Block) (prev : option Block) : CM unit :=
  sub_err ErrBadBlock (block_prechecks b prev);;
  validate_txs b (Transactions b);;
  sub_err ErrBadBlock (block_root_check b).

(** [legacy.MapBlock] of a pointer. *)
Definition map_prev (prev : option ChainBlock) : CM (option Block) :=
  match prev with None => mret None | Some p => b ← or_panic (MapBlock p); mret (Some b) end.

Definition chain_ValidateBlock (block : ChainBlock) (prev : option ChainBlock) : CM unit :=
  blockEnts ← or_panic (MapBlock block);
  prevEnts ← map_prev prev;
  validate_block blockEnts prevEnts;;
  if 1 <? lb_Height block.1 then
    p ← or_panic prevEnts;
    sub_err ErrBadBlock (ValidateBlockSig blockEnts (NextConsensusProgram (BlockHdr p)))
  else mret tt.

Definition ValidateBlockForSig (block : ChainBlock) : CM unit :=
  prev ← (if 1 <? lb_Height block.1 then b ← chain_GetBlock (lb_Height block.1 - 1); mret (Some b) else mret None);
  blockEnts ← or_panic (MapBlock block);
  prevEnts ← map_prev prev;
  validate_block blockEnts prevEnts.

(** The root hash, which leaves hashes in the nodes of the tree. *)
Definition snapshot_root (s : Snapshot) : Hash * Snapshot :=
  let '(t, h) := tree_RootHash (snap_Tree s) in (h, mkSnapshot t (Nonces s)).

Definition apply_block (b : Block) (s : Snapshot) : CM Snapshot :=
  match ApplyBlock b s with
  | None => cpanic
  | Some (Err e, _) => cfail (ErrApply e)
  | Some (Ok _, s) => mret s
  end.

Definition ApplyValidBlock (block : ChainBlock) : CM Snapshot :=
  c ← cget;
  s ← or_panic (ch_snapshot c);
  blockEnts ← or_panic (MapBlock block);
  s ← apply_block blockEnts (Copy s);
  let '(root, s) := snapshot_root s in
  if bool_decide (AssetsMerkleRoot block.1 = root) then mret s else cfail ErrBadStateRoot.

(** [queueSnapshot] does not wait: with a snapshot in the channel, the new one is
    skipped. *)
Definition queueSnapshot (height timestamp : Z) (s : Snapshot) (c : Chain) : Chain :=
  match pendingSnapshots c with
  | None => set_queue timestamp (Some (height, s)) c
  | Some _ => c
  end.

Definition save_block (block : ChainBlock) : CM unit := fun c =>
  match st_SaveBlock (ch_store c) block with
  | None => (CPanic, c)
  | Some (Err e, st) => (CErr (ErrStore e), set_store st c)
  | Some (Ok _, st) => (CRet tt, set_store st c)
  end.

Definition finalize_block (height : Z) : CM unit := fun c =>
  match st_FinalizeBlock (ch_store c) height with
  | (Err e, st) => (CErr (ErrStore e), set_store st c)
  | (Ok _, st) => (CRet tt, set_store st c)
  end.

Definition CommitAppliedBlock (block : ChainBlock) (snapshot : Snapshot) : CM unit :=
  save_block block;;
  cmodify (fun c => if lastQueuedSnapshot c + saveSnapshotFrequency <? block_Time block.1
                    then queueSnapshot (lb_Height block.1) (block_Time block.1) snapshot c else c);;
  finalize_block (lb_Height block.1);;
  cmodify (setState (Some block) (Some snapshot)).

Definition NewInitialBlock (pubkeys : list bytes) (nSigs timestamp : Z) : CM ChainBlock :=
  script ← (match BlockMultiSigProgram pubkeys nSigs with Ok p => mret p | Err e => cfail (ErrMultiSig e) end : CM bytes);
  root ← of_fuel (MerkleRoot []);
  mret (mkLBlockHeader 1 1 zeroHash timestamp root zeroHash script [] [] [], []).

(** One transaction of the pool: it is left out when it is not valid, not timely or does
    not apply.  The snapshot is the one that [ApplyTx] leaves, in any case. *)
Definition pool_tx (timestampMS : Z) (acc : list LTx * Snapshot) (tx : LTx) : CM (list LTx * Snapshot) := fun c =>
  let h := Header (lt_Tx tx) in
  match chain_ValidateTx (lt_Tx tx) c with
  | (CErr _, c) => (CRet acc, c)
  | (CPanic, c) => (CPanic, c)
  | (CFuel, c) => (CFuel, c)
  | (CRet _, c) =>
      if (0 <? tx_MinTimeMs h) && (timestampMS <? tx_MinTimeMs h) then (CRet acc, c)
      else if (0 <? tx_MaxTimeMs h) && (tx_MaxTimeMs h <? timestampMS) then (CRet acc, c)
      else
        match ApplyTx (lt_Tx tx) acc.2 with
        | None => (CPanic, c)
        | Some (Err _, s) => (CRet (acc.1, s), c)
        | Some (Ok _, s) => (CRet (acc.1 ++ [tx], s), c)
        end
  end.

Fixpoint pool_txs (timestampMS : Z) (acc : list LTx * Snapshot) (txs : list LTx) : CM (list LTx * Snapshot) :=
  match txs with
  | [] => mret acc
  | tx :: txs =>
      if maxBlockTxs <=? zlen acc.1 then mret acc
      else acc ← pool_tx timestampMS acc tx; pool_txs timestampMS acc txs
  end.

Definition set_roots (txRoot assetsRoot : Hash) (bh : LBlockHeader) : LBlockHeader :=
  mkLBlockHeader (lb_Version bh) (lb_Height bh) (PreviousBlockHash bh) (TimestampMS bh) txRoot assetsRoot
    (ConsensusProgram bh) (lb_CommitmentSuffix bh) (Witness bh) (lb_WitnessSuffix bh).

(** Without a previous block the initial block is committed first, and then filled. *)
Definition commit_genesis (b : ChainBlock) : CM unit := fun c =>
  match CommitAppliedBlock b Empty c with
  | (CErr _, c) => (CErr ErrGenesisCommit, c)
  | r => r
  end.

(** An error of [NewInitialBlock] is dropped, and the block is then nil. *)
Definition initial_block (now : Z) : CM ChainBlock := fun c =>
  match NewInitialBlock [] 0 now c with
  | (CErr _, c) => (CPanic, c)
  | r => r
  end.

Definition genesis_header (now : Z) : CM LBlockHeader :=
  b ← initial_block now;
  commit_genesis b;;
  mret b.1.

Definition next_header (prev : ChainBlock) (now : Z) : CM LBlockHeader :=
  if now <? TimestampMS prev.1 then cfail ErrTimestamp
  else
    h ← or_panic (BlockHeader_Hash prev.1);
    mret (mkLBlockHeader 1 (uint64 (lb_Height prev.1 + 1)) h now zeroHash zeroHash (ConsensusProgram prev.1) [] [] []).

(** The snapshot that the code starts from is that of the chain; its own argument is
    not used.  The chain has a pointer to the initial block, and so may the store: it is
    filled there too. *)
Definition GenerateBlock (prev : option ChainBlock) (now : Z) (txs : list LTx) : CM (ChainBlock * Snapshot) :=
  bh ← match prev with None => genesis_header now | Some prev => next_header prev now end;
  c ← cget;
  s ← or_panic (ch_snapshot c);
  acc ← pool_txs now ([], PruneNonces now (Copy s)) txs;
  txRoot ← of_fuel (MerkleRoot (map lt_Tx acc.1));
  let '(root, s) := snapshot_root acc.2 in
  let b := (set_roots txRoot root bh, acc.1) in
  cmodify (fun c => match prev with
                    | None => set_store (st_block_changed (ch_store c) b) (set_block (Some b) (ch_snapshot c) c)
                    | Some _ => c
                    end);;
  mret (b, s).

(** *** [recover.go] *)

Definition latest_snapshot : CM (option Snapshot * Z) := fun c =>
  match st_LatestSnapshot (ch_store c) with
  | (Ok r, st) => (CRet r, set_store st c)
  | (Err e, st) => (CErr (ErrStore e), set_store st c)
  end.

(** [for h := ...; h <= height; h++], for [n] blocks *)
Fixpoint replay_blocks (n : nat) (h : Z) (acc : option ChainBlock * Snapshot) : CM (option ChainBlock * Snapshot) :=
  match n with
  | O => mret acc
  | Datatypes.S n =>
      b ← chain_GetBlock h;
      blockEnts ← or_panic (MapBlock b);
      s ← apply_block blockEnts acc.2;
      let '(root, s) := snapshot_root s in
      if bool_decide (AssetsMerkleRoot b.1 = root) then replay_blocks n (h + 1) (Some b, s) else cfail ErrRoot
  end.

Definition Recover : CM (option ChainBlock * Snapshot) :=
  p ← latest_snapshot;
  let snapshotHeight := p.2 in
  b ← (if 0 <? snapshotHeight then
         b ← chain_GetBlock snapshotHeight;
         cmodify (fun c => set_queue (block_Time b.1) (pendingSnapshots c) c);;
         mret (Some b)
       else mret None);
  let snapshot := default Empty p.1 in
  c ← cget;
  height ← of_store (st_Height (ch_store c));
  acc ← replay_blocks (Z.to_nat (height - snapshotHeight)) (snapshotHeight + 1) (b, snapshot);
  match acc.1 with
  | Some b => CommitAppliedBlock b acc.2
  | None => mret tt
  end;;
  mret acc.
End Chain.
Arguments CRet {_ _ _ _ _} a.
Arguments CErr {_ _ _ _ _} e.
Arguments CPanic {_ _ _ _ _}.
Arguments CFuel {_ _ _ _ _}.
