(* ===== verification/ChainProof.v ===== *)
(** * The chain keeps its promises

    The goroutines that wait for a height, the cache of validation results, and
    recovery: after any history of commits, saved snapshots and crashes, [Recover]
    brings back the state that the saved blocks lead to. *)

From Stdlib Require Import ZArith Lia Strings.Byte.
From stdpp Require Import gmap.
From S2P Require Import Prelude GoSlice Crypto VMCode VMUtil.
From S2P Require VM VMRun.
From S2P Require Import Encoding Bc Legacy LegacyMap Merkle StateTree Snapshot TxContext Validation Chain.

(** ** Waiting for a height *)

Section Waiting.
Context {T : Type} `{StateTree T} `{Crypto}.
Context {S : Type} `{!Store T S} {C : Type} `{LRU C}.

Notation Chain := (Chain (T := T) (S := S) (C := C)).

(** What can happen to the height of a chain and to those who wait for it. *)
Inductive event :=
| EvSetHeight (h : Z)
| EvCommit (b : ChainBlock) (s : Snapshot (T := T))
| EvWait (h : Z).

Definition run_event (c : Chain) (ev : event) : Chain :=
  match ev with
  | EvSetHeight h => setHeight h c
  | EvCommit b s => (CommitAppliedBlock b s c).2
  | EvWait h => BlockWaiter h c
  end.

Definition run_events (c : Chain) (evs : list event) : Chain := foldl run_event c evs.

(** The heights asked for. *)
Definition asked (evs : list event) : list Z := omap (fun ev => match ev with EvWait h => Some h | _ => None end) evs.

Record waiters_ok (ws : list Z) (c : Chain) : Prop := {
  wk_waiting w : w ∈ waiting c -> ch_height c < w;
  wk_released w : w ∈ released c -> w <= ch_height c;
  wk_asked w : w ∈ ws <-> w ∈ waiting c \/ w ∈ released c;
}.

(** An operation that leaves the height and the waiters alone. *)
Definition same_waiters (c c' : Chain) : Prop :=
  ch_height c' = ch_height c /\ waiting c' = waiting c /\ released c' = released c.

Lemma same_waiters_ok ws c c' : same_waiters c c' -> waiters_ok ws c -> waiters_ok ws c'.
Proof. intros (E1 & E2 & E3) [W R A]. split; rewrite ?E1, ?E2, ?E3; auto. Qed.

Ltac unchanged := eapply same_waiters_ok; [|eassumption]; unfold same_waiters; split_and!; reflexivity.

Lemma broadcast_ok ws h c : ch_height c <= h -> waiters_ok ws c -> waiters_ok ws (broadcast h c).
Proof.
  intros Hh [W R A]. split; simpl.
  - intros w [Hw _]%list_elem_of_filter. done.
  - intros w [Hw|[Hw _]%list_elem_of_filter]%elem_of_app; [|done]. specialize (R w Hw). lia.
  - intros w. rewrite A, elem_of_app, !list_elem_of_filter. destruct (Z.lt_ge_cases h w); naive_solver lia.
Qed.

Lemma setHeight_ok ws h c : waiters_ok ws c -> waiters_ok ws (setHeight h c).
Proof. intros Hc. unfold setHeight. destruct (Z.leb_spec h (ch_height c)); [done|]. apply broadcast_ok; [lia|done]. Qed.

Lemma setState_ok ws b s c : waiters_ok ws c -> waiters_ok ws (setState b s c).
Proof.
  intros Hc. unfold setState.
  assert (Hc' : waiters_ok ws (set_block b s c)) by unchanged.
  destruct b as [b|]; [|done]. destruct (Z.ltb_spec (ch_height (set_block (Some b) s c)) (lb_Height b.1)); [|done].
  apply broadcast_ok; [lia|done].
Qed.

Lemma CommitAppliedBlock_waiters ws b s c : waiters_ok ws c -> waiters_ok ws (CommitAppliedBlock b s c).2.
Proof.
  intros Hc. unfold CommitAppliedBlock, mbind, CM_bind, save_block.
  destruct (st_SaveBlock (ch_store c) b) as [[[[]|e] st]|]; [|unchanged|done].
  unfold cmodify, finalize_block, queueSnapshot.
  assert (Hc' : waiters_ok ws (set_store st c)) by unchanged.
  set (c1 := if _ <? _ then _ else _).
  assert (Hc1 : waiters_ok ws c1).
  { unfold c1. destruct (_ <? _); [|done]. destruct (pendingSnapshots (set_store st c)); [done|unchanged]. }
  destruct (st_FinalizeBlock (ch_store c1) (lb_Height b.1)) as [[[]|e] st']; [|unchanged].
  apply setState_ok. unchanged.
Qed.

Lemma BlockWaiter_ok ws h c : waiters_ok ws c -> waiters_ok (ws ++ [h]) (BlockWaiter h c).
Proof.
  intros [W R A]. unfold BlockWaiter. destruct (Z.ltb_spec (ch_height c) h); split; simpl; auto.
  - intros w [->|Hw]%elem_of_cons; auto.
  - intros w. rewrite elem_of_app, list_elem_of_singleton, elem_of_cons, A. tauto.
  - intros w [Hw|Hw]%elem_of_app; [auto|]. by apply list_elem_of_singleton in Hw as ->.
  - intros w. rewrite !elem_of_app, list_elem_of_singleton, A. tauto.
Qed.

Lemma run_events_ok evs : forall ws c, waiters_ok ws c -> waiters_ok (ws ++ asked evs) (run_events c evs).
Proof.
  induction evs as [|ev evs IH]; intros ws c Hc; [by simpl; rewrite app_nil_r|].
  destruct ev as [h|b s|h]; simpl.
  - by apply IH, setHeight_ok.
  - by apply IH, CommitAppliedBlock_waiters.
  - rewrite cons_middle, app_assoc. by apply IH, BlockWaiter_ok.
Qed.

(** No goroutine of [BlockWaiter] waits too long or goes on too early: after any
    interleaving of commits, height updates (old and repeated ones included) and calls
    of [BlockWaiter], the calls that have returned are exactly those for a height that
    the chain has reached. *)
Lemma waiters_released_when_reached (c : Chain) evs w :
  waiting c = [] -> released c = [] -> w ∈ asked evs ->
  (w ∈ released (run_events c evs) <-> w <= ch_height (run_events c evs)).
Proof.
  intros Ew Er Hw. destruct (run_events_ok evs [] c) as [W R A].
  { split; rewrite ?Ew, ?Er; intros; set_solver. }
  split; [by apply R|]. intros Hle. apply (A w) in Hw as [Hwait|?]; [|done]. specialize (W w Hwait). lia.
Qed.
End Waiting.

(** ** What a store promises *)

(** A store has blocks by height and the latest snapshot (an empty one at first) with
    its height.  Operations can fail, and then change nothing; saving a block whose
    header can be hashed does not panic. *)
Class StoreLaws (T S : Type) `{StateTree T} `{Crypto} `{!Store T S} := {
  view_blocks : S -> gmap Z ChainBlock;
  view_snapshot : S -> Snapshot (T := T) * Z;
  law_get st h b : st_GetBlock st h = Ok b -> view_blocks st !! h = Some b;
  law_height st h n :
    st_Height st = Ok h -> (forall k, is_Some (view_blocks st !! k) <-> 1 <= k <= n) -> 0 <= n -> h = n;
  law_latest st r st' :
    st_LatestSnapshot st = (r, st') ->
    view_blocks st' = view_blocks st /\ view_snapshot st' = view_snapshot st /\
    forall p, r = Ok p -> (default Empty p.1, p.2) = view_snapshot st;
  law_save st b :
    is_Some (BlockHeader_Hash b.1) ->
    (forall b', view_blocks st !! lb_Height b.1 = Some b' -> is_Some (BlockHeader_Hash b'.1)) ->
    exists r st', st_SaveBlock st b = Some (r, st') /\ view_snapshot st' = view_snapshot st /\
      view_blocks st' = match r with Ok _ => <[lb_Height b.1 := b]> (view_blocks st) | Err _ => view_blocks st end;
  law_finalize st h r st' :
    st_FinalizeBlock st h = (r, st') -> view_blocks st' = view_blocks st /\ view_snapshot st' = view_snapshot st;
  law_save_snapshot st h s r st' :
    st_SaveSnapshot st h s = (r, st') ->
    view_blocks st' = view_blocks st /\
    view_snapshot st' = match r with Ok _ => (s, h) | Err _ => view_snapshot st end;
}.

(** The in-memory store keeps them. *)
Section MemStoreLaws.
Context {T : Type} `{StateTree T} `{Crypto}.

Lemma size_contiguous (m : gmap Z ChainBlock) n :
  (forall k, is_Some (m !! k) <-> 1 <= k <= n) -> 0 <= n -> Z.of_nat (size m) = n.
Proof.
  intros Hm Hn. rewrite <- size_dom.
  assert (E : dom m = list_to_set (seqZ 1 n)).
  { apply set_eq. intros k. rewrite elem_of_dom, elem_of_list_to_set, elem_of_seqZ, Hm. lia. }
  rewrite E, size_list_to_set by apply NoDup_seqZ. rewrite length_seqZ. lia.
Qed.

Lemma Copy_id (s : Snapshot (T := T)) : Copy s = s.
Proof. by destruct s. Qed.

#[export] Program Instance MemStore_laws : StoreLaws T (MemStore (T := T)) := {|
  view_blocks := Blocks;
  view_snapshot m := (default Empty (ms_State m), StateHeight m);
|}.
Next Obligation. intros st h b. simpl. unfold mem_GetBlock. by destruct (Blocks st !! h) as [x|]; [intros [= ->]|]. Qed.
Next Obligation. intros st h n [= <-] Hk Hn. by apply size_contiguous. Qed.
Next Obligation.
  intros st r st' [= <- <-]. simpl. split_and!; [done|done|]. intros p [= <-]. simpl. by rewrite Copy_id.
Qed.
Next Obligation.
  intros st b [h Eh] Hb. simpl. unfold mem_SaveBlock. destruct (Blocks st !! lb_Height b.1) as [b'|]; [|by eexists _, _].
  destruct (Hb b' eq_refl) as [h' Eh']. rewrite Eh, Eh'. simpl. destruct (bool_decide (h' = h)); by eexists _, _.
Qed.
Next Obligation. by intros st h r st' [= <- <-]. Qed.
Next Obligation. intros st h s r st' [= <- <-]. simpl. by rewrite Copy_id. Qed.
End MemStoreLaws.

(** ** The state that blocks lead to *)

Definition live_nonces (blk : Block) (ns : gmap Hash Z) : gmap Hash Z :=
  filter (fun '(_, expiryMS) => TimestampMs (BlockHdr blk) <= expiryMS) ns.

Section Replay.
Context {T : Type} `{StateTreeLaws T} `{Crypto}.

(** [replays bs u ns]: the blocks [bs], from the initial one on, apply one after the
    other with the roots that their headers state, and lead to the unspent outputs [u]
    and the nonces [ns]. *)
Inductive replays : list ChainBlock -> gset bytes -> gmap Hash Z -> Prop :=
| replays_nil : replays [] ∅ ∅
| replays_snoc bs b blk u ns (t : T) :
    replays bs u ns -> lb_Height b.1 = Z.of_nat (length bs) + 1 -> MapBlock b = Some blk ->
    Forall no_nil (Transactions blk) -> block_applies (Transactions blk) u (live_nonces blk ns) ->
    tree_rep 32 t (block_utxo (Transactions blk) u) -> AssetsMerkleRoot b.1 = (tree_RootHash t).2 ->
    replays (bs ++ [b]) (block_utxo (Transactions blk) u) (block_nonces (Transactions blk) (live_nonces blk ns)).

Lemma replays_inv bs b u' ns' :
  replays (bs ++ [b]) u' ns' ->
  exists blk u ns t, replays bs u ns /\ lb_Height b.1 = Z.of_nat (length bs) + 1 /\ MapBlock b = Some blk /\
    Forall no_nil (Transactions blk) /\ block_applies (Transactions blk) u (live_nonces blk ns) /\
    u' = block_utxo (Transactions blk) u /\ ns' = block_nonces (Transactions blk) (live_nonces blk ns) /\
    tree_rep 32 t u' /\ AssetsMerkleRoot b.1 = (tree_RootHash t).2.
Proof.
  intros Hr. inversion Hr as [E|bs0 b0 blk u ns t Hbs Hh Hm Hn Ha Ht Hroot E]; [by destruct bs|].
  apply app_inj_tail in E as [-> ->]. by exists blk, u, ns, t.
Qed.

Lemma replays_det bs : forall u ns u' ns', replays bs u ns -> replays bs u' ns' -> u = u' /\ ns = ns'.
Proof.
  induction bs as [|b bs IH] using rev_ind; intros u ns u' ns' R R'.
  - inversion R as [|? ? ? ? ? ? _ _ _ _ _ _ _ E]; [|by destruct bs].
    inversion R' as [|? ? ? ? ? ? _ _ _ _ _ _ _ E]; [done|by destruct bs].
  - apply replays_inv in R as (blk & u1 & ns1 & t & R1 & _ & M1 & _ & _ & -> & -> & _).
    apply replays_inv in R' as (blk' & u2 & ns2 & t' & R2 & _ & M2 & _ & _ & -> & -> & _).
    assert (blk' = blk) as -> by congruence. by destruct (IH _ _ _ _ R1 R2) as [-> ->].
Qed.

Lemma replays_take bs k : forall u ns, replays bs u ns -> exists u' ns', replays (take k bs) u' ns'.
Proof.
  induction bs as [|b bs IH] using rev_ind; intros u ns Hr; [rewrite take_nil; eauto|].
  destruct (decide (k <= length bs)%nat).
  - rewrite take_app_le by done. apply replays_inv in Hr as (? & ? & ? & ? & Hr & _). by eapply IH.
  - rewrite take_ge by (rewrite length_app; simpl; lia). eauto.
Qed.

(** The heights of the blocks are their positions. *)
Lemma replays_height bs u ns i b : replays bs u ns -> bs !! i = Some b -> lb_Height b.1 = Z.of_nat i + 1 /\ is_Some (MapBlock b).
Proof.
  intros Hr. induction Hr as [|bs b0 blk u ns t _ IH Hh Hm]; [by rewrite lookup_nil|].
  intros [Hb|[Hi Hb]]%lookup_app_Some; [auto|]. apply list_lookup_singleton_Some in Hb as [E <-].
  unfold ChainBlock in *. split; [lia|eauto].
Qed.

(** The snapshot [s] is the state after [bs]. *)
Definition represents (s : Snapshot (T := T)) (bs : list ChainBlock) : Prop :=
  exists u, replays bs u (Nonces s) /\ holds s u.

Lemma represents_empty : represents Empty [].
Proof. exists ∅. split; [constructor|]. apply tree_rep_empty. Qed.

Lemma snapshot_root_holds (s : Snapshot (T := T)) u t :
  holds s u -> tree_rep 32 t u ->
  (snapshot_root s).1 = (tree_RootHash t).2 /\ holds (snapshot_root s).2 u /\ Nonces (snapshot_root s).2 = Nonces s.
Proof.
  intros Hs Ht. unfold snapshot_root, holds in *. pose proof (tree_rep_RootHash _ _ _ Hs) as Hs'.
  pose proof (tree_RootHash_canonical _ _ _ _ Hs Ht) as E. destruct (tree_RootHash (snap_Tree s)) as [t' h]. done.
Qed.

(** Applying the next block. *)
Lemma represents_next s bs b u ns :
  represents s bs -> replays (bs ++ [b]) u ns ->
  exists blk s', MapBlock b = Some blk /\ ApplyBlock blk s = Some (Ok tt, s') /\
    AssetsMerkleRoot b.1 = (snapshot_root s').1 /\ represents (snapshot_root s').2 (bs ++ [b]).
Proof.
  intros (u0 & R0 & Hs) Hr. pose proof Hr as (blk & u1 & ns1 & t & R1 & Hh & Hm & Hn & Ha & -> & -> & Ht & Hroot)%replays_inv.
  destruct (replays_det _ _ _ _ _ R0 R1) as [<- <-].
  destruct (ApplyBlock_applies blk s u0 Hs Hn) as (r & s' & E & Hiff & Hok). apply Hiff in Ha as ->.
  destruct (Hok eq_refl) as [Hs' Hns]. destruct (snapshot_root_holds s' _ t Hs' Ht) as (E1 & E2 & E3).
  exists blk, s'. split_and!; [done|done|by rewrite E1|]. eexists. split; [|exact E2]. rewrite E3, Hns. exact Hr.
Qed.

(** A block that applies with the right root extends the history. *)
Lemma represents_extend s bs b blk s' :
  represents s bs -> lb_Height b.1 = Z.of_nat (length bs) + 1 -> MapBlock b = Some blk ->
  Forall no_nil (Transactions blk) -> ApplyBlock blk s = Some (Ok tt, s') -> AssetsMerkleRoot b.1 = (snapshot_root s').1 ->
  represents (snapshot_root s').2 (bs ++ [b]).
Proof.
  intros (u & R & Hs) Hh Hm Hn Happ Hroot. destruct (ApplyBlock_applies blk s u Hs Hn) as (r & s1 & E & Hiff & Hok).
  rewrite Happ in E. injection E as <- <-. destruct (Hok eq_refl) as [Hs' Hns].
  destruct (snapshot_root_holds s' _ (snap_Tree s') Hs' Hs') as (E1 & E2 & E3).
  eexists. split; [|exact E2]. rewrite E3, Hns. 
  by apply (replays_snoc bs b blk u (Nonces s) (snap_Tree s')); [..|apply Hiff|exact Hs'|rewrite Hroot, E1].
Qed.
End Replay.

(** ** Recovery *)

Section Recovery.
Context {T : Type} `{StateTreeLaws T} `{Crypto}.
Context {S : Type} `{!Store T S} `{!StoreLaws T S} {C : Type} `{LRU C}.

Notation Chain := (Chain (T := T) (S := S) (C := C)).

(** The store has the blocks [bs], and a snapshot of the state after some of them. *)
Definition has_blocks (m : gmap Z ChainBlock) (bs : list ChainBlock) : Prop :=
  forall k, m !! k = if decide (1 <= k) then bs !! Z.to_nat (k - 1) else None.

Definition snapshot_ok (bs : list ChainBlock) (p : Snapshot (T := T) * Z) : Prop :=
  0 <= p.2 <= Z.of_nat (length bs) /\ represents p.1 (take (Z.to_nat p.2) bs).

Record store_inv (st : S) (bs : list ChainBlock) : Prop := {
  si_blocks : has_blocks (view_blocks st) bs;
  si_snapshot : snapshot_ok bs (view_snapshot st);
}.

Record chain_inv (c : Chain) (bs : list ChainBlock) : Prop := {
  ci_store : store_inv (ch_store c) bs;
  ci_pending h s : pendingSnapshots c = Some (h, s) -> snapshot_ok bs (s, h);
}.

Lemma snapshot_ok_app bs b p : snapshot_ok bs p -> snapshot_ok (bs ++ [b]) p.
Proof.
  intros [Hp Hr]. split; [rewrite length_app; simpl; lia|]. by rewrite take_app_le by lia.
Qed.

Lemma has_blocks_height st bs h :
  has_blocks (view_blocks st) bs -> st_Height st = Ok h -> h = Z.of_nat (length bs).
Proof.
  intros Hb E. eapply law_height; [exact E| |lia]. intros k. rewrite Hb. destruct (decide (1 <= k)).
  - rewrite lookup_lt_is_Some. lia.
  - split; [intros [? ?]; done|lia].
Qed.

Lemma MapBlock_hash b : is_Some (MapBlock b) -> is_Some (BlockHeader_Hash b.1).
Proof.
  intros [blk E]. unfold MapBlock in E. unfold BlockHeader_Hash. destruct (mapBlockHeader b.1) as [[id bh]|]; [|done].
  by eexists.
Qed.

(** *** Replaying blocks *)

(** The outcome of a replay that leads to the state after [bs], with the block [ob]; only
    the store can make it fail. *)
Definition replayed (c : Chain) (bs : list ChainBlock) (ob : option ChainBlock)
    (x : cout (option ChainBlock * Snapshot (T := T)) * Chain) : Prop :=
  match x with
  | (CRet (ob', s'), c') => c' = c /\ represents s' bs /\ ob' = ob
  | (CErr e, c') => c' = c /\ exists e', e = ErrStore e'
  | _ => False
  end.

Lemma replay_blocks_ok bs u ns n : forall k ob s (c : Chain),
  replays (T := T) bs u ns -> has_blocks (view_blocks (ch_store c)) bs -> (k + n = length bs)%nat ->
  represents s (take k bs) ->
  replayed c bs (match n with O => ob | _ => last bs end) (replay_blocks n (Z.of_nat k + 1) (ob, s) c).
Proof.
  induction n as [|n IH]; intros k ob s c Hr Hb Hk Hs.
  { simpl. split_and!; [done| |done]. by rewrite take_ge in Hs by lia. }
  cbn [replay_blocks]. unfold mbind, CM_bind, chain_GetBlock, mbind, CM_bind. simpl.
  destruct (st_GetBlock (ch_store c) (Z.of_nat k + 1)) as [b|e] eqn:Eb; simpl; [|eauto].
  apply law_get in Eb. rewrite Hb, decide_True in Eb by lia. replace (Z.to_nat (Z.of_nat k + 1 - 1)) with k in Eb by lia.
  pose proof (take_S_r _ _ _ Eb) as Et. destruct (replays_take bs (Datatypes.S k) _ _ Hr) as (u' & ns' & Hr').
  rewrite Et in Hr'. destruct (represents_next _ _ _ _ _ Hs Hr') as (blk & s' & Em & Ea & Eroot & Hs').
  rewrite Em. simpl. unfold apply_block. rewrite Ea. simpl.
  destruct (snapshot_root s') as [root s2]. simpl in *. rewrite bool_decide_eq_true_2 by done.
  replace (Z.of_nat k + 1 + 1) with (Z.of_nat (Datatypes.S k) + 1) by lia.
  specialize (IH (Datatypes.S k) (Some b) s2 c Hr Hb ltac:(lia) ltac:(by rewrite Et)).
  replace (last bs) with (match n with O => Some b | _ => last bs end); [exact IH|].
  destruct n; [|done]. rewrite last_lookup, <- Hk. by replace (pred (k + 1)) with k by lia.
Qed.

(** *** Committing a block *)

(** [b] is a new block after [bs], or the last of them. *)
Definition extends (bs : list ChainBlock) (b : ChainBlock) (bs' : list ChainBlock) : Prop :=
  bs' = bs ++ [b] \/ bs' = bs /\ last bs = Some b.

Lemma extends_snapshot bs b bs' p : extends bs b bs' -> snapshot_ok bs p -> snapshot_ok bs' p.
Proof. intros [->|[-> _]]; [apply snapshot_ok_app|done]. Qed.

Lemma extends_blocks m bs b bs' :
  extends bs b bs' -> lb_Height b.1 = Z.of_nat (length bs') -> has_blocks m bs -> has_blocks (<[lb_Height b.1 := b]> m) bs'.
Proof.
  intros He Hh Hb k. destruct (decide (k = lb_Height b.1)) as [->|Hne].
  - rewrite lookup_insert_eq. destruct He as [->|[-> Hl]].
    + rewrite Hh, length_app. simpl. rewrite decide_True by lia. symmetry. apply list_lookup_middle. lia.
    + rewrite last_lookup in Hl. rewrite decide_True; [by rewrite <- Hl, Hh; f_equal; lia|].
      apply lookup_lt_Some in Hl. lia.
  - rewrite lookup_insert_ne, Hb by done. destruct (decide (1 <= k)); [|done]. destruct He as [->|[-> _]]; [|done].
    rewrite length_app in Hh. simpl in Hh. destruct (decide (Z.to_nat (k - 1) < length bs)%nat).
    + by rewrite lookup_app_l.
    + rewrite (lookup_ge_None_2 bs) by lia. symmetry. apply lookup_ge_None_2. rewrite length_app. simpl. lia.
Qed.

Lemma save_block_ok bs b bs' (c : Chain) :
  chain_inv c bs -> extends bs b bs' -> lb_Height b.1 = Z.of_nat (length bs') -> is_Some (MapBlock b) ->
  (forall b', b' ∈ bs -> is_Some (MapBlock b')) ->
  match save_block b c with
  | (CRet _, c') => chain_inv c' bs' /\ c' = set_store (ch_store c') c
  | (CErr e, c') => chain_inv c' bs /\ exists e', e = ErrStore e'
  | _ => False
  end.
Proof.
  intros [[Hb Hs] Hp] He Hh Hm Hbs. unfold save_block.
  destruct (law_save (ch_store c) b) as (r & st' & E & Esnap & Eblocks).
  { by apply MapBlock_hash. }
  { intros b' Eb'. apply MapBlock_hash, Hbs. rewrite Hb in Eb'. destruct (decide (1 <= lb_Height b.1)); [|done].
    by eapply list_elem_of_lookup_2. }
  rewrite E. destruct r as [[]|e]; simpl.
  - split; [|done]. split; simpl; [split|]; rewrite ?Esnap, ?Eblocks.
    + by eapply extends_blocks.
    + by eapply extends_snapshot.
    + intros h s Eh. by eapply extends_snapshot, Hp.
  - split; [|eauto]. split; [split|done]; simpl; by rewrite ?Esnap, ?Eblocks.
Qed.

Lemma chain_inv_same (c c' : Chain) bs :
  chain_inv c bs -> view_blocks (ch_store c') = view_blocks (ch_store c) ->
  view_snapshot (ch_store c') = view_snapshot (ch_store c) -> pendingSnapshots c' = pendingSnapshots c -> chain_inv c' bs.
Proof. intros [[Hb Hs] Hp] E1 E2 E3. split; [split|]; rewrite ?E1, ?E2, ?E3; done. Qed.

Lemma queueSnapshot_ok (c : Chain) bs t s :
  chain_inv c bs -> represents s bs -> chain_inv (queueSnapshot (Z.of_nat (length bs)) t s c) bs.
Proof.
  intros Hc Hs. unfold queueSnapshot. destruct (pendingSnapshots c); [done|]. destruct Hc as [Hst _]. split; [done|].
  intros h s' [= <- <-]. split; simpl; [lia|]. by rewrite Nat2Z.id, firstn_all.
Qed.

Lemma setState_same ob os (c : Chain) :
  ch_store (setState ob os c) = ch_store c /\ pendingSnapshots (setState ob os c) = pendingSnapshots c /\
  ch_snapshot (setState ob os c) = os /\ ch_block (setState ob os c) = ob.
Proof. unfold setState. destruct ob as [b|]; [|done]. by destruct (_ <? _). Qed.

Lemma CommitAppliedBlock_ok bs b bs' s (c : Chain) :
  chain_inv c bs -> extends bs b bs' -> lb_Height b.1 = Z.of_nat (length bs') -> is_Some (MapBlock b) ->
  (forall b', b' ∈ bs -> is_Some (MapBlock b')) -> represents s bs' ->
  match CommitAppliedBlock b s c with
  | (CRet _, c') => chain_inv c' bs' /\ ch_snapshot c' = Some s /\ ch_block c' = Some b
  | (CErr e, c') => (chain_inv c' bs \/ chain_inv c' bs') /\ exists e', e = ErrStore e'
  | _ => False
  end.
Proof.
  intros Hc He Hh Hm Hbs Hs. unfold CommitAppliedBlock, mbind, CM_bind.
  pose proof (save_block_ok bs b bs' c Hc He Hh Hm Hbs) as Hsave.
  destruct (save_block b c) as [[[]|e| |] c1]; [|destruct Hsave; auto|done|done]. destruct Hsave as [Hc1 _].
  unfold cmodify. set (c2 := if _ <? _ then _ else c1).
  assert (Hc2 : chain_inv c2 bs').
  { unfold c2. destruct (_ <? _); [|done]. rewrite Hh. by apply queueSnapshot_ok. }
  unfold finalize_block. destruct (st_FinalizeBlock (ch_store c2) (lb_Height b.1)) as [r st] eqn:Ef.
  apply law_finalize in Ef as [E1 E2].
  assert (Hc3 : chain_inv (set_store st c2) bs') by (by eapply chain_inv_same).
  destruct r as [[]|e]; [|eauto]. destruct (setState_same (Some b) (Some s) (set_store st c2)) as (Es & Ep & Esn & Eb).
  split; [|done]. eapply chain_inv_same; [exact Hc3|by rewrite Es..|done].
Qed.

(** *** [Recover] *)

Lemma replays_mapped bs u ns b : replays (T := T) bs u ns -> b ∈ bs -> is_Some (MapBlock b).
Proof. intros Hr [i Hi]%list_elem_of_lookup. by eapply replays_height. Qed.

Lemma replays_last bs u ns b : replays (T := T) bs u ns -> last bs = Some b -> lb_Height b.1 = Z.of_nat (length bs).
Proof.
  intros Hr Hl. rewrite last_lookup in Hl. destruct (replays_height _ _ _ _ _ Hr Hl) as [-> _].
  apply lookup_lt_Some in Hl. lia.
Qed.

(** What [Recover] has to bring back. *)
Definition recovered (os : option (Snapshot (T := T))) (bs : list ChainBlock) (x : cout (option ChainBlock * Snapshot (T := T)) * Chain) : Prop :=
  match x with
  | (CRet (ob, s), c') =>
      ob = last bs /\ represents s bs /\ chain_inv c' bs /\ (bs <> [] -> ch_snapshot c' = Some s /\ ch_block c' = ob) /\
      (bs = [] -> ch_snapshot c' = os)
  | (CErr e, c') => chain_inv c' bs /\ exists e', e = ErrStore e'
  | _ => False
  end.

Lemma recover_commit bs u ns ob s (c : Chain) :
  replays (T := T) bs u ns -> chain_inv c bs -> represents s bs -> ob = last bs ->
  recovered (ch_snapshot c) bs ((match ob with Some b => CommitAppliedBlock b s | None => mret tt end ;; mret (ob, s)) c).
Proof.
  intros Hr Hc Hs ->. unfold mbind, CM_bind. destruct (last bs) as [b|] eqn:El.
  - pose proof (CommitAppliedBlock_ok bs b bs s c Hc (or_intror (conj eq_refl El)) (replays_last _ _ _ _ Hr El)) as Hcm.
    assert (Hb : b ∈ bs) by (rewrite last_lookup in El; by eapply list_elem_of_lookup_2).
    specialize (Hcm (replays_mapped _ _ _ _ Hr Hb) (fun b' => replays_mapped _ _ _ b' Hr) Hs).
    destruct (CommitAppliedBlock b s c) as [[[]|e| |] c']; [|destruct Hcm as [[]]; by split|done|done].
    destruct Hcm as (? & ? & ?). split_and!; try done. by intros ->.
  - apply last_None in El as ->. by split_and!.
Qed.

Lemma recover_finish bs u ns ob (c : Chain) x :
  replays (T := T) bs u ns -> chain_inv c bs -> replayed c bs ob x -> ob = last bs ->
  recovered (ch_snapshot c) bs
    (match x with
     | (CRet a, c) => (match a.1 with Some b => CommitAppliedBlock b a.2 | None => mret tt end ;; mret a) c
     | (CErr e, c) => (CErr e, c)
     | (CPanic, c) => (CPanic, c)
     | (CFuel, c) => (CFuel, c)
     end).
Proof.
  intros Hr Hc Hx Hob. destruct x as [[[ob' s]|e| |] c']; [|by destruct Hx as [-> ?]|done|done].
  destruct Hx as (-> & Hs & ->). by apply (recover_commit bs u ns ob s c Hr Hc Hs).
Qed.

Lemma Recover_ok bs u ns (c : Chain) :
  replays (T := T) bs u ns -> store_inv (ch_store c) bs -> pendingSnapshots c = None ->
  recovered (ch_snapshot c) bs (Recover c).
Proof.
  intros Hr [Hb Hs] Hp. unfold Recover, latest_snapshot, mbind, CM_bind.
  destruct (st_LatestSnapshot (ch_store c)) as [r st] eqn:El. apply law_latest in El as (E1 & E2 & E3).
  assert (Hc1 : chain_inv (set_store st c) bs).
  { split; [split|]; simpl; rewrite ?E1, ?E2, ?Hp; done. }
  destruct r as [[os k]|e]; [|by split; eauto]. specialize (E3 _ eq_refl). simpl in *. rewrite <- E3 in Hs. destruct Hs as [Hk Hs].
  simpl in Hk, Hs.
  set (get := if 0 <? k then _ else _).
  assert (Hget : match get (set_store st c) with
                 | (CRet ob, c') => chain_inv c' bs /\ ch_snapshot c' = ch_snapshot c /\ ob = last (take (Z.to_nat k) bs)
                 | (CErr e, c') => chain_inv c' bs /\ exists e', e = ErrStore e'
                 | _ => False
                 end).
  { unfold get. destruct (Z.ltb_spec 0 k) as [Hpos|]; [|by replace k with 0 by lia].
    unfold chain_GetBlock, cget, mbind, CM_bind. simpl. destruct (st_GetBlock st k) as [b|e] eqn:Eb; [|by split; eauto].
    simpl. split; [by eapply chain_inv_same|]. split; [done|]. apply law_get in Eb. rewrite E1, Hb, decide_True in Eb by lia.
    rewrite last_lookup, length_take, lookup_take_lt by lia.
    etransitivity; [symmetry; exact Eb|]. f_equal. lia. }
  destruct (get (set_store st c)) as [[ob|e| |] c2]; [|done..]. destruct Hget as (Hc2 & <- & ->).
  unfold cget. simpl. pose proof Hc2 as [[Hb2 _] _].
  destruct (st_Height (ch_store c2)) as [h|e] eqn:Eh; [|by split; eauto]. simpl.
  apply (has_blocks_height _ bs) in Eh as ->; [|done].
  pose proof (replay_blocks_ok bs u ns (length bs - Z.to_nat k) (Z.to_nat k) (last (take (Z.to_nat k) bs)) _ c2 Hr Hb2
                ltac:(lia) Hs) as Hrep.
  replace (Z.to_nat (Z.of_nat (length bs) - k)) with (length bs - Z.to_nat k)%nat by lia.
  replace (Z.of_nat (Z.to_nat k) + 1) with (k + 1) in Hrep by lia.
  refine (recover_finish bs u ns _ c2 _ Hr Hc2 Hrep _).
  destruct (length bs - Z.to_nat k)%nat eqn:En; [|done]. by rewrite take_ge by lia.
Qed.

(** *** Histories *)

(** The chain and the blocks that it has saved.  A process crashes between operations,
    or after [SaveBlock] in the middle of a commit; it goes on with a new chain on the
    same store, which it recovers.  What is in memory is lost. *)
Inductive history (ih : Hash) : Chain -> list ChainBlock -> Prop :=
| hist_new st c :
    view_blocks st = ∅ -> view_snapshot st = (Empty, 0) -> NewChain ih st = Ok c -> history ih c []
| hist_initial c b blk c' :
    history ih c [] -> lb_Height b.1 = 1 -> b.2 = [] -> MapBlock b = Some blk ->
    AssetsMerkleRoot b.1 = (tree_RootHash (tree_empty : T)).2 -> CommitAppliedBlock b Empty c = (CRet tt, c') ->
    history ih c' [b]
| hist_commit c bs b blk s c1 c2 :
    history ih c bs -> lb_Height b.1 = Z.of_nat (length bs) + 1 -> MapBlock b = Some blk ->
    Forall no_nil (Transactions blk) -> ApplyValidBlock b c = (CRet s, c1) ->
    CommitAppliedBlock b s c1 = (CRet tt, c2) -> history ih c2 (bs ++ [b])
| hist_flush c bs : history ih c bs -> history ih (save_pending c) bs
| hist_crash c bs c0 r c' :
    history ih c bs -> NewChain ih (ch_store c) = Ok c0 -> Recover c0 = (CRet r, c') -> history ih c' bs
| hist_crash_commit c bs b blk s c1 c2 c0 r c' :
    history ih c bs -> lb_Height b.1 = Z.of_nat (length bs) + 1 -> MapBlock b = Some blk ->
    Forall no_nil (Transactions blk) -> ApplyValidBlock b c = (CRet s, c1) -> save_block b c1 = (CRet tt, c2) ->
    NewChain ih (ch_store c2) = Ok c0 -> Recover c0 = (CRet r, c') -> history ih c' (bs ++ [b]).

(** The invariant: the store can be recovered, and the state in memory is current. *)
Record history_ok (c : Chain) (bs : list ChainBlock) : Prop := {
  ho_chain : chain_inv c bs;
  ho_replays : exists u ns, replays (T := T) bs u ns;
  ho_current s : ch_snapshot c = Some s -> represents s bs;
}.

Lemma ApplyValidBlock_ok (c : Chain) bs b blk s c1 :
  history_ok c bs -> lb_Height b.1 = Z.of_nat (length bs) + 1 -> MapBlock b = Some blk ->
  Forall no_nil (Transactions blk) -> ApplyValidBlock b c = (CRet s, c1) -> c1 = c /\ represents s (bs ++ [b]).
Proof.
  intros [_ _ Hcur] Hh Hm Hn. unfold ApplyValidBlock, mbind, CM_bind. simpl.
  destruct (ch_snapshot c) as [s0|] eqn:Es; [|done]. simpl. rewrite Hm. simpl. rewrite Copy_id. unfold apply_block.
  destruct (ApplyBlock blk s0) as [[[[]|e] s1]|] eqn:Ea; [|done|done]. simpl.
  pose proof (represents_extend s0 bs b blk s1 (Hcur _ eq_refl) Hh Hm Hn Ea) as Hext.
  destruct (snapshot_root s1) as [root s2]. simpl in *. destruct (bool_decide _) eqn:Eb; [|done].
  apply bool_decide_eq_true in Eb. intros [= <- <-]. split; [done|by apply Hext].
Qed.

Lemma history_ok_mapped c bs b : history_ok c bs -> b ∈ bs -> is_Some (MapBlock b).
Proof. intros [_ (u & ns & Hr) _]. by eapply replays_mapped. Qed.

Lemma represents_replays s bs : represents (T := T) s bs -> exists u ns, replays (T := T) bs u ns.
Proof. intros (u & Hr & _). eauto. Qed.

Lemma commit_history (c : Chain) bs b s c' :
  chain_inv c bs -> (forall b', b' ∈ bs -> is_Some (MapBlock b')) -> lb_Height b.1 = Z.of_nat (length bs) + 1 ->
  is_Some (MapBlock b) -> represents s (bs ++ [b]) -> CommitAppliedBlock b s c = (CRet tt, c') ->
  history_ok c' (bs ++ [b]).
Proof.
  intros Hc Hbs Hh Hm Hs E.
  pose proof (CommitAppliedBlock_ok bs b (bs ++ [b]) s c Hc (or_introl eq_refl)
                ltac:(rewrite length_app; simpl; lia) Hm Hbs Hs) as Hcm.
  rewrite E in Hcm. destruct Hcm as (Hc' & Es & _). split; [done|by eapply represents_replays|].
  intros s' Es'. rewrite Es in Es'. by injection Es' as <-.
Qed.

Lemma NewChain_inv ih st (c : Chain) : NewChain ih st = Ok c -> ch_store c = st /\ pendingSnapshots c = None /\ ch_snapshot c = None.
Proof. unfold NewChain. destruct (st_Height st); [|done]. by intros [= <-]. Qed.

Lemma recover_history ih st bs (c0 : Chain) r c' :
  store_inv st bs -> (exists u ns, replays (T := T) bs u ns) -> NewChain ih st = Ok c0 -> Recover c0 = (CRet r, c') ->
  history_ok c' bs.
Proof.
  intros Hst (u & ns & Hr) (<- & Hp & Hn)%NewChain_inv E. pose proof (Recover_ok bs u ns c0 Hr Hst Hp) as Hrec.
  rewrite E in Hrec. destruct r as [ob s]. destruct Hrec as (-> & Hs & Hc & Hcur & Hnil).
  split; [done|eauto|]. intros s' Es'. destruct (decide (bs = [])) as [->|Hne].
  - rewrite Hnil, Hn in Es' by done. done.
  - destruct (Hcur Hne) as [Es _]. rewrite Es in Es'. by injection Es' as <-.
Qed.

Lemma initial_represents b blk :
  lb_Height b.1 = 1 -> b.2 = [] -> MapBlock b = Some blk -> AssetsMerkleRoot b.1 = (tree_RootHash (tree_empty : T)).2 ->
  represents (T := T) Empty [b].
Proof.
  intros Hh Hb Hm Hroot. assert (Etx : Transactions blk = []).
  { unfold MapBlock in Hm. destruct (mapBlockHeader b.1) as [[id bh]|]; [|done]. injection Hm as <-. simpl. by rewrite Hb. }
  exists ∅. split; [|apply tree_rep_empty].
  pose proof (replays_snoc [] b blk ∅ ∅ tree_empty replays_nil) as Hr. rewrite Etx in Hr.
  apply Hr; [done|done|by apply Forall_nil|done|apply tree_rep_empty|done].
Qed.

Lemma save_pending_ok (c : Chain) bs : chain_inv c bs -> chain_inv (save_pending c) bs.
Proof.
  intros Hc. unfold save_pending. destruct (pendingSnapshots c) as [[h s]|] eqn:Ep; [|done].
  destruct (st_SaveSnapshot (ch_store c) h s) as [r st] eqn:Es. apply law_save_snapshot in Es as [E1 E2].
  destruct Hc as [[Hb Hs] Hp]. split; [split|done]; simpl; rewrite ?E1, ?E2; [done|]. destruct r; [by apply Hp|done].
Qed.

Lemma history_invariant ih c bs : history ih c bs -> history_ok c bs.
Proof.
  induction 1 as [st c Eb Es En|c b blk c' _ IH Hh Hb Hm Hroot E|c bs b blk s c1 c2 _ IH Hh Hm Hn Ea E|c bs _ IH|
                  c bs c0 r c' _ IH En Er|c bs b blk s c1 c2 c0 r c' _ IH Hh Hm Hn Ea E En Er].
  - apply NewChain_inv in En as (<- & Hp & Hn). split; [|by eexists _, _; constructor|by rewrite Hn].
    split; [split|by rewrite Hp]; [intros k; rewrite Eb, lookup_empty, lookup_nil; by case_decide|].
    rewrite Es. split; [done|]. apply represents_empty.
  - eapply (commit_history c []); [apply IH|by intros b' Hb'; apply elem_of_nil in Hb'|by rewrite Hh|by eauto| |exact E].
    by eapply initial_represents.
  - destruct (ApplyValidBlock_ok _ _ _ _ _ _ IH Hh Hm Hn Ea) as [-> Hs].
    eapply commit_history; [apply IH|intros; by eapply history_ok_mapped|done|by eauto|done|done].
  - destruct IH as [Hc Hr Hcur]. split; [by apply save_pending_ok|done|].
    intros s. unfold save_pending. destruct (pendingSnapshots c) as [[h s']|]; exact (Hcur s).
  - eapply recover_history; [apply IH|apply IH|done|done].
  - destruct (ApplyValidBlock_ok _ _ _ _ _ _ IH Hh Hm Hn Ea) as [-> Hs].
    pose proof (save_block_ok bs b (bs ++ [b]) c (ho_chain _ _ IH) (or_introl eq_refl)
                  ltac:(rewrite length_app; simpl; lia) ltac:(by eauto) (fun b' => history_ok_mapped c bs b' IH)) as Hsv.
    rewrite E in Hsv. destruct Hsv as [Hc2 _].
    eapply recover_history; [apply Hc2|by eapply represents_replays|done|done].
Qed.

(** C8: Crash recovery.  After any history of initial and further commits, snapshots
    saved in the background, crashes between operations or in the middle of a commit,
    and recoveries, the saved blocks apply in order and lead to one state; a new chain
    on the store recovers exactly that state and the last block, unless the store fails;
    and before the crash the state in memory was the same. *)
Theorem Recover_restores_state ih c bs c0 :
  history ih c bs -> NewChain ih (ch_store c) = Ok c0 ->
  exists u ns, replays (T := T) bs u ns /\
    (forall s, ch_snapshot c = Some s -> holds s u /\ Nonces s = ns) /\
    match Recover c0 with
    | (CRet (b, s), c') => b = last bs /\ holds s u /\ Nonces s = ns /\ (bs <> [] -> ch_snapshot c' = Some s)
    | (CErr e, _) => exists e', e = ErrStore e'
    | _ => False
    end.
Proof.
  intros Hh En. destruct (history_invariant _ _ _ Hh) as [[Hst _] (u & ns & Hr) Hcur].
  apply NewChain_inv in En as (Es & Hp & _). rewrite <- Es in Hst.
  assert (Hrep : forall s, represents (T := T) s bs -> holds s u /\ Nonces s = ns).
  { intros s (u' & Hr' & Hs). by destruct (replays_det _ _ _ _ _ Hr Hr') as [-> ->]. }
  exists u, ns. split; [done|]. split; [auto|]. pose proof (Recover_ok bs u ns c0 Hr Hst Hp) as Hrec.
  destruct (Recover c0) as [[[b s]|e| |] c']; [|by destruct Hrec|done|done].
  destruct Hrec as (-> & Hs & _ & Hne & _). destruct (Hrep s Hs). split_and!; try done. intros Hbs. by apply Hne.
Qed.
End Recovery.
