(* ===== verification/ChainTheorems.v ===== *)
(** * Generating blocks, and the cache of validation results

    A generated block applies to the state it was made from, when no transaction of the
    pool fails half way; what happens when one does; and what the cache of validation
    results does to transactions that differ in their witnesses. *)

From Stdlib Require Import ZArith Lia Strings.Byte.
From stdpp Require Import gmap.
From S2P Require Import Prelude GoSlice Crypto VMCode VMUtil.
From S2P Require VM VMRun VMExec.
From S2P Require Import Encoding Bc Legacy LegacyMap Merkle StateTree Patricia Snapshot TxContext Validation.
From S2P Require Import ValidTheorems LegacyTheorems Chain ChainProof.

Lemma forallb_pointwise {A} (f g : A -> bool) l : (forall x, f x = g x) -> forallb f l = forallb g l.
Proof. intros E. induction l as [|x l IH]; simpl; [done|]. by rewrite E, IH. Qed.

(** ** The cache *)

Section Cache.
Context {T : Type} `{StateTree T} `{Crypto} `{Verifier}.
Context {S : Type} `{!Store T S} {C : Type} `{LRULaws C}.
Context (fuel : nat).

Notation Chain := (Chain (T := T) (S := S) (C := C)).

(** Validation changes the cache alone. *)
Lemma chain_ValidateTx_cache tx (c : Chain) : exists p, (chain_ValidateTx fuel tx c).2 = set_cache p c.
Proof.
  assert (E : c = set_cache (prevalidated c) c) by (by destruct c).
  unfold chain_ValidateTx, mbind, CM_bind. simpl. destruct (negb (checkIssuanceWindow c tx)); [by eexists|].
  unfold cache_lookup. destruct (lru_Get (prevalidated c) (tx_ID tx)) as [[[e|]|] p]; simpl; [by eexists..|].
  destruct (ValidateTx fuel tx (InitialBlockHash c)); by eexists.
Qed.

(** Two transactions with one identifier, and the same issuances. *)
Lemma cached_verdict tx tx' (c : Chain) :
  tx_ID tx' = tx_ID tx -> (forall c : Chain, checkIssuanceWindow c tx' = checkIssuanceWindow c tx) ->
  match chain_ValidateTx fuel tx c with
  | (CRet _, c1) => exists c2, chain_ValidateTx fuel tx' c1 = (CRet tt, c2)
  | (CErr e, c1) => exists c2, chain_ValidateTx fuel tx' c1 = (CErr e, c2)
  | _ => True
  end.
Proof.
  intros Eid Ew. unfold chain_ValidateTx, mbind, CM_bind, cache_lookup, cfail. simpl.
  destruct (checkIssuanceWindow c tx) eqn:Ec; simpl; [|exists c; by rewrite Ew, Ec].
  assert (Hw : forall p, checkIssuanceWindow (set_cache p c) tx' = true) by (intros p; by rewrite Ew).
  assert (Hw2 : forall p p', checkIssuanceWindow (set_cache p' (set_cache p c)) tx' = true) by (intros p p'; by rewrite Ew).
  pose proof (lru_get_find (prevalidated c) (tx_ID tx) (tx_ID tx)) as Hg.
  destruct (lru_Get (prevalidated c) (tx_ID tx)) as [[v|] p] eqn:El; simpl in Hg.
  - assert (Hv : forall r, v = r -> exists p', lru_Get p (tx_ID tx) = (Some r, p')).
    { intros r <-. destruct (lru_Get p (tx_ID tx)) as [x p']. simpl in Hg. subst. eauto. }
    destruct (Hv v eq_refl) as [p' Ep']. destruct v as [e|]; simpl; rewrite Hw; simpl; rewrite Eid, Ep'; eauto.
  - pose proof (fun r => lru_add_same p (tx_ID tx) r) as Ha.
    destruct (ValidateTx fuel tx (InitialBlockHash c)) as [[]|e| |]; [..|done|done]; simpl; rewrite Hw2; simpl; rewrite Eid.
    + specialize (Ha None). destruct (lru_Get (lru_Add p (tx_ID tx) None) (tx_ID tx)) as [x p']. simpl in Ha. subst. eexists. reflexivity.
    + specialize (Ha (Some e)). destruct (lru_Get (lru_Add p (tx_ID tx) (Some e)) (tx_ID tx)) as [x p']. simpl in Ha. subst. eexists. reflexivity.
Qed.

Lemma SetInputArguments_window tx n args tx' (c : Chain) :
  SetInputArguments tx n args = Some tx' ->
  tx_ID (lt_Tx tx') = tx_ID (lt_Tx tx) /\ checkIssuanceWindow c (lt_Tx tx') = checkIssuanceWindow c (lt_Tx tx).
Proof.
  unfold SetInputArguments. intros E. apply bind_Some in E as (inp & _ & E). apply bind_Some in E as (id & _ & [= <-]).
  split; [done|]. unfold checkIssuanceWindow. simpl. f_equal.
  apply forallb_pointwise. intros e. unfold Tx_Issuance, get_entry. simpl. destruct (decide (id = e)) as [->|]; [|by rewrite lookup_alter_ne].
  rewrite lookup_alter_eq. by destruct (Entries (lt_Tx tx) !! e) as [[[]|]|].
Qed.

(** The cache knows a transaction by its identifier, which does not cover the
    witnesses: after a transaction was validated, the same transaction with any other
    arguments gets the same answer, without a run of its programs.  So one with invalid
    signatures is accepted after a valid one, and a valid one is rejected after an
    invalid one. *)
Lemma verdict_ignores_arguments tx n args tx' (c : Chain) :
  SetInputArguments tx n args = Some tx' ->
  match chain_ValidateTx fuel (lt_Tx tx) c with
  | (CRet _, c1) => exists c2, chain_ValidateTx fuel (lt_Tx tx') c1 = (CRet tt, c2)
  | (CErr e, c1) => exists c2, chain_ValidateTx fuel (lt_Tx tx') c1 = (CErr e, c2)
  | _ => True
  end.
Proof.
  intros Es. apply cached_verdict; [by apply (SetInputArguments_window _ _ _ _ c Es)|].
  intros c'. by apply (SetInputArguments_window _ _ _ _ c' Es).
Qed.
End Cache.

(** ** Generated blocks *)

Section Generate.
Context {T : Type} `{StateTreeLaws T} `{Crypto} `{Verifier}.
Context {S : Type} `{!Store T S} {C : Type} `{LRU C}.
Context (fuel : nat).

Notation Chain := (Chain (T := T) (S := S) (C := C)).
Notation Snap := (Snapshot (T := T)).

(** When the transaction does not apply, [ApplyTx] leaves the snapshot as it was. *)
Definition atomic (tx : Tx) : Prop :=
  forall (s : Snap) u e s', holds s u -> ApplyTx tx s = Some (Err e, s') -> s' = s.

(** A transaction without nonces that spends at most one output is of this kind. *)
Lemma simple_atomic tx : no_nil tx -> NonceIDs tx = [] -> (length (SpentOutputIDs tx) <= 1)%nat -> atomic tx.
Proof.
  intros [_ Hres] Hn Hl s u e s' Hs. unfold ApplyTx. rewrite Hn. unfold mbind, SM_bind. simpl.
  destruct (spend_loop (SpentOutputIDs tx) s u Hs) as (r & s1 & E & _ & _ & Hok). rewrite E.
  destruct r as [[]|e1].
  - destruct (results_loop tx (ResultIds (Header tx)) s1 _ (Hok eq_refl) Hres) as (s2 & -> & _). done.
  - intros [= _ <-]. destruct (SpentOutputIDs tx) as [|o [|o' l]]; [done| |simpl in Hl; lia].
    cbn [for_each] in E. unfold mbind, SM_bind, spend_prevout in E.
    destruct (tree_Contains (snap_Tree s) (Bytes o)) as [[]|]; [|by injection E|done].
    by destruct (tree_Delete (snap_Tree s) (Bytes o)).
Qed.

Lemma for_each_snoc {A} (f : A -> SM (T := T) unit) l x s s1 :
  for_each f l s = Some (Ok tt, s1) -> for_each f (l ++ [x]) s = (f x;; mret tt) s1.
Proof.
  revert s. induction l as [|y l IH]; intros s E; [injection E as <-; done|].
  cbn [for_each app] in *. unfold mbind, SM_bind in *. destruct (f y s) as [[[[]|e] s2]|]; [|done..]. by apply IH.
Qed.

Definition timely (now : Z) (tx : Tx) : Prop :=
  (0 < tx_MinTimeMs (Header tx) -> tx_MinTimeMs (Header tx) <= now) /\
  (0 < tx_MaxTimeMs (Header tx) -> now <= tx_MaxTimeMs (Header tx)).

(** The transactions taken so far apply to [s0] and lead to the snapshot. *)
Record taken (now : Z) (pool : list LTx) (s0 : Snap) (acc : list LTx * Snap) : Prop := {
  tk_applied : for_each ApplyTx (map lt_Tx acc.1) s0 = Some (Ok tt, acc.2);
  tk_pool tx : tx ∈ acc.1 -> tx ∈ pool /\ timely now (lt_Tx tx);
  tk_holds : exists u, holds acc.2 u;
}.

Lemma pool_tx_ok now pool s0 acc tx (c : Chain) acc' c' :
  taken now pool s0 acc -> tx ∈ pool -> atomic (lt_Tx tx) -> no_nil (lt_Tx tx) -> pool_tx fuel now acc tx c = (CRet acc', c') ->
  taken now pool s0 acc' /\ exists p, c' = set_cache p c.
Proof.
  intros Ha Hin Hat Hnil. unfold pool_tx. destruct (tk_holds _ _ _ _ Ha) as [u Hu]. destruct (chain_ValidateTx_cache fuel (lt_Tx tx) c) as [p Ep].
  destruct (chain_ValidateTx fuel (lt_Tx tx) c) as [[[]|e| |] c1]; simpl in Ep; subst c1; [|by intros [= <- <-]; eauto|done|done].
  destruct ((0 <? tx_MinTimeMs _) && _) eqn:Emin; [by intros [= <- <-]; eauto|].
  destruct ((0 <? tx_MaxTimeMs _) && _) eqn:Emax; [by intros [= <- <-]; eauto|].
  destruct (ApplyTx (lt_Tx tx) acc.2) as [[[[]|e] s']|] eqn:Ea; [| |done]; intros [= <- <-]; (split; [|eauto]).
  - destruct Ha as [Ha Hp _]. destruct (ApplyTx_applies _ _ _ Hu Hnil) as (r & s1 & E & _ & Hok). rewrite Ea in E.
    injection E as <- <-. split; simpl; [| |eexists; by apply Hok].
    + rewrite map_app. simpl. rewrite (for_each_snoc _ _ _ _ _ Ha). unfold mbind, SM_bind. by rewrite Ea.
    + intros tx' [?|Hx]%elem_of_app; [auto|]. apply list_elem_of_singleton in Hx as ->. split; [done|].
      apply andb_false_iff in Emin. apply andb_false_iff in Emax. rewrite !Z.ltb_ge in Emin. rewrite !Z.ltb_ge in Emax.
      unfold timely. lia.
  - apply (Hat _ _ _ _ Hu) in Ea as ->. by destruct acc.
Qed.

Lemma pool_txs_ok now pool s0 txs : forall acc (c : Chain) acc' c',
  taken now pool s0 acc -> (forall tx, tx ∈ txs -> tx ∈ pool /\ atomic (lt_Tx tx) /\ no_nil (lt_Tx tx)) ->
  pool_txs fuel now acc txs c = (CRet acc', c') -> taken now pool s0 acc' /\ exists p, c' = set_cache p c.
Proof.
  induction txs as [|tx txs IH]; intros acc c acc' c' Ha Htx E.
  { injection E as <- <-. split; [done|]. exists (prevalidated c). by destruct c. }
  cbn [pool_txs] in E. destruct (maxBlockTxs <=? zlen acc.1).
  { injection E as <- <-. split; [done|]. exists (prevalidated c). by destruct c. }
  unfold mbind, CM_bind in E. destruct (pool_tx fuel now acc tx c) as [[acc1|e| |] c1] eqn:E1; [|done..].
  destruct (Htx tx (list_elem_of_here _ _)) as (Hp & Hat & Hnil).
  destruct (pool_tx_ok _ _ _ _ _ _ _ _ Ha Hp Hat Hnil E1) as [Ha1 [p ->]].
  destruct (IH _ _ _ _ Ha1 ltac:(intros; apply Htx; by right) E) as [? [p' ->]]. split; [done|]. by exists p'.
Qed.

Lemma MapBlock_fields b blk :
  MapBlock b = Some blk -> Transactions blk = map lt_Tx b.2 /\ TimestampMs (BlockHdr blk) = TimestampMS b.1.
Proof.
  unfold MapBlock, mapBlockHeader. intros E. apply bind_Some in E as ([id bh] & E & [= <-]).
  by apply bind_Some in E as (id' & _ & [= <- <-]).
Qed.

Lemma ApplyValidBlock_generated (c : Chain) b blk s s1 :
  ch_snapshot c = Some s -> MapBlock b = Some blk ->
  for_each ApplyTx (map lt_Tx b.2) (PruneNonces (TimestampMS b.1) s) = Some (Ok tt, s1) ->
  AssetsMerkleRoot b.1 = (snapshot_root s1).1 -> ApplyValidBlock b c = (CRet (snapshot_root s1).2, c).
Proof.
  intros Es Em Ea Er. unfold ApplyValidBlock, mbind, CM_bind. simpl. rewrite Es. simpl. rewrite Em. simpl.
  unfold apply_block, ApplyBlock. destruct (MapBlock_fields _ _ Em) as [-> ->]. rewrite Copy_id, Ea. simpl.
  destruct (snapshot_root s1) as [root s2]. simpl in *. by rewrite bool_decide_eq_true_2.
Qed.

(** C39: A generated block applies.  When no transaction of the pool fails half way, the
    block that [GenerateBlock] makes has transactions of the pool that are timely, in
    order and with their Merkle root; applied to the state of the chain it gives the
    snapshot that was returned with it, with the root that its header states. *)
Theorem generated_block_applies prev now txs (c : Chain) s u b s' c' :
  ch_snapshot c = Some s -> holds s u -> (forall tx, tx ∈ txs -> atomic (lt_Tx tx) /\ no_nil (lt_Tx tx)) ->
  GenerateBlock fuel (Some prev) now txs c = (CRet (b, s'), c') -> is_Some (MapBlock b) ->
  ApplyValidBlock b c' = (CRet s', c') /\
  MerkleRoot (map lt_Tx b.2) = Some (TransactionsMerkleRoot b.1) /\
  (forall tx, tx ∈ b.2 -> tx ∈ txs /\ timely now (lt_Tx tx)) /\
  lb_Height b.1 = uint64 (lb_Height prev.1 + 1) /\ BlockHeader_Hash prev.1 = Some (PreviousBlockHash b.1).
Proof.
  intros Es Hu Htx E [blk Em]. unfold GenerateBlock, next_header, mbind, CM_bind in E.
  destruct (now <? TimestampMS prev.1); [done|]. destruct (BlockHeader_Hash prev.1) as [h|]; [|done].
  simpl in E. rewrite Es in E. simpl in E. rewrite Copy_id in E.
  destruct (pool_txs fuel now ([], PruneNonces now s) txs c) as [[acc|e| |] c1] eqn:Ep; [|done..].
  assert (Ht0 : taken now txs (PruneNonces now s) ([], PruneNonces now s)).
  { split; [done|intros tx Hx; by apply elem_of_nil in Hx|by exists u]. }
  destruct (pool_txs_ok now txs (PruneNonces now s) txs _ _ _ _ Ht0 ltac:(intros tx Hin; split; [done|by apply Htx]) Ep)
    as [[Ha Hp _] [p ->]].
  destruct (MerkleRoot (map lt_Tx acc.1)) as [root|] eqn:Er; [|done]. simpl in E.
  destruct (snapshot_root acc.2) as [aroot s2] eqn:Esr. injection E as <- <- <-.
  split_and!; [|done|done|done|done].
  pose proof (ApplyValidBlock_generated (set_cache p c) _ blk s acc.2 Es Em Ha) as Happ. simpl in Happ.
  rewrite Esr in Happ. by apply Happ.
Qed.
End Generate.

(** ** The list is an LRU cache *)

Lemma head_filter_take {A} (P : A -> Prop) `{forall x, Decision (P x)} n l x :
  head (filter P (take n l)) = Some x -> head (filter P l) = Some x.
Proof.
  revert n. induction l as [|y l IH]; intros [|n]; simpl; try done.
  rewrite !filter_cons. destruct (decide (P y)); [done|apply IH].
Qed.

Lemma find_key_other k k' (c : lru_list) :
  k' <> k -> list_find_key k' (filter (fun p => p.1 <> k) c) = list_find_key k' c.
Proof.
  intros Hne. unfold list_find_key. induction c as [|[x v] c IH]; [done|]. destruct (decide (x = k)) as [->|Hx].
  - rewrite filter_cons_False by (simpl; tauto). by rewrite (filter_cons_False _ (k, v)) by (simpl; congruence).
  - rewrite filter_cons_True by done. rewrite !filter_cons. simpl. by destruct (decide (x = k')).
Qed.

Lemma find_key_front k v (c : lru_list) k' :
  list_find_key k' (move_front k v c) = if decide (k = k') then Some v else list_find_key k' c.
Proof.
  unfold move_front. unfold list_find_key at 1. rewrite filter_cons. simpl. destruct (decide (k = k')); [done|].
  apply find_key_other. congruence.
Qed.

Lemma lru_list_find (c : lru_list) k : (lru_Get c k).1 = list_find_key k c.
Proof. simpl. by destruct (list_find_key k c). Qed.

#[export] Instance lru_list_laws : LRULaws lru_list.
Proof.
  split.
  - done.
  - intros c k k'. rewrite !lru_list_find. simpl. destruct (list_find_key k c) as [v|] eqn:E; [|done]. simpl.
    rewrite find_key_front. by destruct (decide (k = k')) as [<-|].
  - intros c k v. rewrite lru_list_find. simpl. unfold list_find_key. cbn [take move_front maxCachedValidatedTxs].
    rewrite filter_cons. simpl. by rewrite decide_True.
  - intros c k v k' v' Hne. rewrite !lru_list_find. simpl. unfold list_find_key at 1.
    rewrite filter_cons_False by (simpl; congruence). intros E. rewrite <- (find_key_other k) by done.
    apply fmap_Some in E as (x & Ex%head_filter_take & ->). unfold list_find_key. by rewrite Ex.
Qed.

(** ** Examples *)

(** A chain whose state is [s], after an initial block. *)
Definition first_block : ChainBlock := (mkLBlockHeader 1 1 zeroHash 100 zeroHash zeroHash [] [] [] [], []).

Definition demo_chain (s : Snapshot (T := Tree)) : Chain (T := Tree) (S := MemStore (T := Tree)) (C := lru_list) :=
  mkChain ex_bid 0 1 (Some first_block) (Some s) NewMemStore zeroTime None lru_New [] [].

#[local] Existing Instances poly_crypto poly_machine.

Definition ltx (data : TxData) : LTx := mkLTx data (mapped_tx data).

(** *** Arguments *)

(** An output that asks for the argument 7. *)
Definition locked (arg : bytes) : TxData :=
  mkTxData 1 [NewSpendInput [arg] (mkHash 1 2 3 4) ex_asset 10 0 [x57; x87] zeroHash [x01]]
    [NewTxOutput ex_asset 10 [x51] []] 0 0 [] [] [].

Definition unlocked (arg : bytes) : LTx :=
  default (ltx (locked [])) (SetInputArguments (ltx (locked [x07])) 0 [arg]).

(** The valid transaction is accepted, and the other one is not valid. *)
Definition good_tx : LTx := ltx (locked [x07]).
Definition bad_tx : LTx := unlocked [x08].

Definition accepts {A} (o : cout (T := Tree) (S := MemStore (T := Tree)) A) : bool := match o with CRet _ => true | _ => false end.

Lemma good_accepted : exists c1, chain_ValidateTx 6 (lt_Tx good_tx) (demo_chain Empty) = (CRet tt, c1).
Proof.
  assert (E : accepts (chain_ValidateTx 6 (lt_Tx good_tx) (demo_chain Empty)).1 = true) by (vm_compute; reflexivity).
  destruct (chain_ValidateTx 6 (lt_Tx good_tx) (demo_chain Empty)) as [[[]|e| |] c1]; [eauto|discriminate E..].
Qed.

Lemma bad_invalid : ValidateTx 6 (lt_Tx bad_tx) ex_bid <> VRet tt.
Proof. vm_compute. discriminate. Qed.

Lemma bad_from_good : SetInputArguments good_tx 0 [[x08]] = Some bad_tx.
Proof.
  unfold bad_tx, unlocked. fold good_tx.
  assert (E : match SetInputArguments good_tx 0 [[x08]] with Some _ => true | None => false end = true) by (vm_compute; reflexivity).
  by destruct (SetInputArguments good_tx 0 [[x08]]).
Qed.

Lemma verdict_ignores_arguments_witness :
  ValidateTx 6 (lt_Tx bad_tx) ex_bid <> VRet tt /\
  exists c1 c2, chain_ValidateTx 6 (lt_Tx good_tx) (demo_chain Empty) = (CRet tt, c1) /\
    chain_ValidateTx 6 (lt_Tx bad_tx) c1 = (CRet tt, c2).
Proof.
  split; [exact bad_invalid|]. destruct good_accepted as [c1 E].
  pose proof (verdict_ignores_arguments 6 good_tx 0 [[x08]] bad_tx (demo_chain Empty) bad_from_good) as Hv.
  rewrite E in Hv. destruct Hv as [c2 Hc2]. exists c1, c2. exact (conj E Hc2).
Defined.

(** *** A generated block *)

(** One unspent output, and a transaction that spends it. *)
Definition single : TxData :=
  mkTxData 1 [NewSpendInput [] (mkHash 1 2 3 4) ex_asset 10 0 [x51] zeroHash [x01]]
    [NewTxOutput ex_asset 10 [x51] []] 0 0 [] [] [].

Definition holding (id : Hash) : Snapshot (T := Tree) :=
  mkSnapshot (mkTree (Some (Leaf (bitKey (Bytes id)) (leaf_hash (Bytes id))))) ∅.

Lemma holding_holds id : holds (holding id) {[ Bytes id ]}.
Proof.
  destruct (Insert_rep 32 (mkTree None) ∅ (Bytes id)) as (t & E & Hr).
  - split; [set_solver|done].
  - apply length_Byte32.
  - injection E as <-. by replace ({[Bytes id]} ∪ ∅) with ({[Bytes id]} : gset bytes) in Hr by set_solver.
Qed.

Definition single_tx : LTx := ltx single.
Definition single_chain := demo_chain (holding spent_id).

(** Decidable forms of the conditions on the transaction. *)
Definition check_simple (tx : Tx) : bool :=
  bool_decide (NonceIDs tx = []) && (length (SpentOutputIDs tx) <=? 1)%nat &&
  forallb (fun id => match id with Some _ => true | None => false end) (ResultIds (Header tx)).

Lemma check_simple_ok tx : check_simple tx = true -> atomic (T := Tree) tx /\ no_nil tx.
Proof.
  unfold check_simple. rewrite !andb_true_iff, bool_decide_eq_true, Nat.leb_le, forallb_forall.
  intros [[Hn Hs] Hr]. assert (Hnil : no_nil tx).
  { split; [rewrite Hn; intros n ? Hin; by apply elem_of_nil in Hin|].
    intros id Hin ->. by specialize (Hr None (proj1 (list_elem_of_In _ _) Hin)). }
  split; [|done]. by apply simple_atomic.
Qed.

Definition generated : cout (T := Tree) (S := MemStore (T := Tree)) (ChainBlock * Snapshot (T := Tree)) *
    Chain (T := Tree) (S := MemStore (T := Tree)) (C := lru_list) :=
  GenerateBlock 6 (Some first_block) 200 [single_tx] single_chain.

(** The block has the transaction, and can be mapped. *)
Definition check_generated : bool :=
  match generated.1 with
  | CRet (b, _) => match MapBlock b with Some _ => (length b.2 =? 1)%nat | None => false end
  | _ => false
  end.

Lemma generated_facts : check_generated = true /\ check_simple (lt_Tx single_tx) = true.
Proof. split; vm_compute; reflexivity. Qed.

Lemma generated_block_applies_witness :
  exists b s' c', generated = (CRet (b, s'), c') /\ length b.2 = 1%nat /\ ApplyValidBlock b c' = (CRet s', c').
Proof.
  destruct generated_facts as [Hg Hs]. unfold check_generated in Hg.
  pose proof (generated_block_applies 6 first_block 200 [single_tx] single_chain (holding spent_id) {[ Bytes spent_id ]}) as Hgen.
  fold generated in Hgen. destruct generated as [[[b s']|e| |] c']; try discriminate Hg. simpl in Hg.
  destruct (MapBlock b) eqn:Em; [|discriminate Hg]. apply Nat.eqb_eq in Hg.
  exists b, s', c'. split; [reflexivity|]. split; [exact Hg|].
  apply (Hgen b s' c'); [reflexivity|apply holding_holds| |reflexivity|rewrite Em; eauto].
  intros tx Hin. apply list_elem_of_singleton in Hin as ->. exact (check_simple_ok _ Hs).
Defined.

(** *** A transaction that fails half way *)

(** Two inputs, of which the state has the first to be looked at. *)
Definition double : TxData :=
  mkTxData 1
    [NewSpendInput [] (mkHash 1 2 3 4) ex_asset 10 0 [x51] zeroHash [x01];
     NewSpendInput [] (mkHash 5 6 7 8) ex_asset 10 0 [x51] zeroHash [x01]]
    [NewTxOutput ex_asset 20 [x51] []] 0 0 [] [] [].

Definition double_chain := demo_chain (holding (hd zeroHash (SpentOutputIDs (mapped_tx double)))).

(** A transaction that does not apply can spoil the block.  [ApplyTx] changes the
    snapshot as it goes and does not undo what it did before an error; [GenerateBlock]
    leaves the transaction out and goes on with the changed snapshot.  So a pool with
    one transaction that spends an existing and a missing output gives an empty block
    whose state root is wrong, and the chain that generated it refuses to apply it. *)
Lemma GenerateBlock_keeps_failed_changes :
  exists b s' c',
    GenerateBlock 6 (Some first_block) 200 [ltx double] double_chain = (CRet (b, s'), c') /\
    b.2 = [] /\ ApplyValidBlock b c' = (CErr ErrBadStateRoot, c').
Proof.
  assert (E : match GenerateBlock 6 (Some first_block) 200 [ltx double] double_chain with
              | (CRet (b, _), c') =>
                  (length b.2 =? 0)%nat &&
                  match ApplyValidBlock b c' with (CErr ErrBadStateRoot, _) => true | _ => false end
              | _ => false
              end = true) by (vm_compute; reflexivity).
  destruct (GenerateBlock 6 (Some first_block) 200 [ltx double] double_chain) as [[[b s']|e| |] c']; try discriminate E.
  apply andb_true_iff in E as [E1%Nat.eqb_eq%nil_length_inv E2]. exists b, s', c'. split; [reflexivity|]. split; [exact E1|].
  unfold ApplyValidBlock, mbind, CM_bind in *. simpl in *. destruct (ch_snapshot c') as [s|]; [|discriminate E2]. simpl in *.
  destruct (MapBlock b) as [blk|]; [|discriminate E2]. simpl in *. unfold apply_block in *.
  destruct (ApplyBlock blk (Copy s)) as [[[[]|e] s1]|]; [|discriminate E2..]. simpl in *.
  destruct (snapshot_root s1) as [root s2]. by destruct (bool_decide _).
Qed.

(** ** Timestamps *)

Section Timestamps.
Context {T : Type} `{StateTree T} `{Crypto} `{Verifier}.
Context {S : Type} `{!Store T S} {C : Type} `{LRU C}.
Context (fuel : nat).

Notation Chain := (Chain (T := T) (S := S) (C := C)).

Lemma MapBlock_header b blk :
  MapBlock b = Some blk -> Height (BlockHdr blk) = lb_Height b.1 /\ TimestampMs (BlockHdr blk) = TimestampMS b.1.
Proof.
  unfold MapBlock, mapBlockHeader. intros E. apply bind_Some in E as ([id bh] & E & [= <-]).
  by apply bind_Some in E as (id' & _ & [= <- <-]).
Qed.

Lemma prechecks_time b p :
  1 < Height (BlockHdr b) -> PreviousBlockId (BlockHdr b) <> None -> TimestampMs (BlockHdr b) = TimestampMs (BlockHdr p) ->
  exists e, block_prechecks b (Some p) = VErr e.
Proof.
  intros Hh Hp Ht. unfold block_prechecks. rewrite (proj2 (Z.ltb_lt _ _)) by done.
  unfold validateBlockAgainstPrev, or_err, mbind, V_bind. simpl. rewrite Ht, Z.ltb_irrefl.
  destruct (PreviousBlockId (BlockHdr b)) as [id|]; [|done]. unfold ensure.
  repeat match goal with |- context [if ?x then _ else _] => destruct x; simpl; [|by eexists] end; by eexists.
Qed.

(** [GenerateBlock] refuses a time before that of the previous block, but takes the
    same time; validation wants a later one.  So the block that is generated in the
    millisecond of its predecessor is not valid. *)
Lemma generated_at_same_time_invalid prev txs (c : Chain) b s' c' :
  0 < lb_Height prev.1 < MaxUint64 ->
  GenerateBlock fuel (Some prev) (TimestampMS prev.1) txs c = (CRet (b, s'), c') -> is_Some (MapBlock b) ->
  chain_ValidateBlock fuel b (Some prev) c' = (CErr ErrBadBlock, c').
Proof.
  intros Hh E [blk Em]. unfold GenerateBlock, next_header, mbind, CM_bind in E.
  rewrite Z.ltb_irrefl in E. destruct (BlockHeader_Hash prev.1) as [h|] eqn:Ehash; [|done]. simpl in E.
  destruct (ch_snapshot c) as [s|]; [|done]. simpl in E.
  destruct (pool_txs _ _ _ _ c) as [[acc|e| |] c1]; [|done..].
  destruct (MerkleRoot _) as [root|]; [|done]. simpl in E. destruct (snapshot_root acc.2) as [aroot s2]. injection E as <- <- <-.
  unfold chain_ValidateBlock, map_prev, mbind, CM_bind. rewrite Em. simpl.
  assert (Hm : exists pblk, MapBlock prev = Some pblk).
  { unfold BlockHeader_Hash in Ehash. unfold MapBlock. destruct (mapBlockHeader prev.1) as [[id bh]|]; [|done]. by eexists. }
  destruct Hm as [pblk Ep]. rewrite Ep. simpl.
  destruct (MapBlock_header _ _ Em) as [Eh1 Et1]. destruct (MapBlock_header _ _ Ep) as [Eh2 Et2]. simpl in *.
  destruct (prechecks_time blk pblk) as [e Ee].
  - rewrite Eh1, uint64_id; [lia|]. unfold_int. lia.
  - unfold MapBlock, mapBlockHeader in Em. apply bind_Some in Em as ([id bh] & Em & [= <-]).
    by apply bind_Some in Em as (id' & _ & [= <- <-]).
  - by rewrite Et1, Et2.
  - unfold validate_block, mbind, CM_bind. by rewrite Ee.
Qed.
End Timestamps.

Definition same_time :=
  GenerateBlock 6 (Some first_block) 100 [single_tx] single_chain.

Definition check_same_time : bool :=
  match same_time.1 with CRet (b, _) => match MapBlock b with Some _ => true | None => false end | _ => false end.

Lemma check_same_time_true : check_same_time = true.
Proof. vm_compute. reflexivity. Qed.

Lemma generated_at_same_time_invalid_witness :
  exists b s' c', same_time = (CRet (b, s'), c') /\ chain_ValidateBlock 6 b (Some first_block) c' = (CErr ErrBadBlock, c').
Proof.
  pose proof check_same_time_true as Hg. unfold check_same_time in Hg.
  pose proof (generated_at_same_time_invalid 6 first_block [single_tx] single_chain) as Hgen.
  destruct same_time as [[[b s']|e| |] c'] eqn:E; try discriminate Hg. simpl in Hg.
  destruct (MapBlock b) eqn:Em; [|discriminate Hg].
  exists b, s', c'. split; [reflexivity|]. apply (Hgen b s' c'); [vm_compute; split; reflexivity|exact E|rewrite Em; eauto].
Defined.

(** ** Waiting and recovering *)

Lemma waiters_released_when_reached_witness :
  let evs := [EvWait 3; EvCommit (T := Tree) first_block Empty; EvWait 1; EvSetHeight 4; EvSetHeight 2; EvWait 9] in
  released (run_events (demo_chain Empty) evs) = [1; 3] /\
  (3 ∈ released (run_events (demo_chain Empty) evs) <-> 3 <= ch_height (run_events (demo_chain Empty) evs)).
Proof.
  intros evs. split; [vm_compute; reflexivity|].
  apply (waiters_released_when_reached (demo_chain Empty) evs 3); [reflexivity|reflexivity|apply list_elem_of_here].
Defined.

(** A chain that commits the initial block and goes on. *)
Definition new_chain : Chain (T := Tree) (S := MemStore (T := Tree)) (C := lru_list) :=
  mkChain ex_bid 0 0 None None NewMemStore zeroTime None lru_New [] [].

Definition committed := (CommitAppliedBlock first_block Empty new_chain).2.

Lemma committed_history : history ex_bid (save_pending committed) [first_block].
Proof.
  apply hist_flush.
  assert (Hb : is_Some (MapBlock first_block)) by (vm_compute; eauto). destruct Hb as [blk Hb].
  apply (hist_initial _ new_chain first_block blk); [|reflexivity|reflexivity|exact Hb|vm_compute; reflexivity|].
  - by apply (hist_new _ NewMemStore).
  - unfold committed. assert (E : accepts (CommitAppliedBlock first_block Empty new_chain).1 = true) by (vm_compute; reflexivity).
    destruct (CommitAppliedBlock first_block Empty new_chain) as [[[]|e| |] c]; [reflexivity|discriminate E..].
Qed.

Lemma Recover_restores_state_witness :
  exists c0 u ns, NewChain ex_bid (ch_store (save_pending committed)) = Ok c0 /\
    replays (T := Tree) [first_block] u ns /\
    match Recover c0 with
    | (CRet (b, s), c') => b = Some first_block /\ holds s u /\ Nonces s = ns
    | (CErr e, _) => exists e', e = ErrStore e'
    | _ => False
    end.
Proof.
  destruct (NewChain (C := lru_list) ex_bid (ch_store (save_pending committed))) as [c0|e] eqn:E; [|vm_compute in E; discriminate E].
  destruct (Recover_restores_state ex_bid _ _ c0 committed_history E) as (u & ns & Hr & _ & Hrec).
  exists c0, u, ns. split; [reflexivity|]. split; [exact Hr|].
  destruct (Recover c0) as [[[b s]|e| |] c']; [|exact Hrec..]. destruct Hrec as (Eb & Hs & Hn & _). exact (conj Eb (conj Hs Hn)).
Defined.
