(* ===== verification/Concur.v ===== *)
(** * Goroutines that share a state

    A program of one goroutine is a tree of atomic actions on the shared state: what it
    does between taking and releasing a lock, or one call of [sync/atomic].  A pool of
    goroutines takes actions in any order.  An action also sees an environment, which is
    another one each time: the database, the chain, the clock, the order in which a map
    is ranged over.

    Programs are finite trees, so that every goroutine ends if it is never blocked.  The
    logic of this file reduces what holds in all interleavings to the actions of one
    goroutine: [wp p h Q] says that [p], which owns the tokens [h], keeps the invariant
    at every action, whatever the other goroutines do in between. *)

From Stdlib Require Import Wellfounded.
From stdpp Require Import list relations.
From S2P Require Import Prelude.

Section Prog.
Context {E S : Type}.

(** [Act g] waits while [g] gives [None]; [Panic] is a run-time panic. *)
Inductive prog (A : Type) : Type :=
  | Ret (a : A)
  | Panic
  | Act (g : E -> S -> option (S * prog A)).

Arguments Ret {A}. Arguments Panic {A}. Arguments Act {A}.

Fixpoint prog_bind_ {A B} (f : A -> prog B) (p : prog A) : prog B :=
  match p with
  | Ret a => f a
  | Panic => Panic
  | Act g => Act (fun e s => match g e s with
                             | None => None
                             | Some (s', p') => Some (s', prog_bind_ f p')
                             end)
  end.

#[export] Instance prog_ret : MRet prog := @Ret.
#[export] Instance prog_bind : MBind prog := @prog_bind_.

(** One action that is never blocked. *)
Definition atomic {A} (f : E -> S -> S * A) : prog A := Act (fun e s => let '(s', a) := f e s in Some (s', Ret a)).

(** One action that may panic. *)
Definition atomic_or_panic {A} (f : E -> S -> S * option A) : prog A :=
  a ← atomic f;
  match a with Some a => mret a | None => Panic end.

(** An action that is blocked until [f] has an answer. *)
Definition wait {A} (f : S -> option A) : prog A := Act (fun _ s => a ← f s; Some (s, Ret a)).

Definition prog_ind' {A} (P : prog A -> Prop) (HR : forall a, P (Ret a)) (HP : P Panic)
    (HA : forall g, (forall e s s' p, g e s = Some (s', p) -> P p) -> P (Act g)) : forall p, P p :=
  fix F p := match p with
             | Ret a => HR a
             | Panic => HP
             | Act g => HA g (fun e s s' q => match g e s as r return r = Some (s', q) -> P q with
                                              | Some (s0, q0) => fun E => eq_ind q0 P (F q0) q (f_equal (from_option snd q0) E)
                                              | None => fun E => False_ind _ (eq_ind None (fun x => from_option (fun _ => False) True x) I _ E)
                                              end)
             end.

(** ** Pools of goroutines *)

Context {A : Type} (ok : E -> S -> Prop) (starts : prog A -> Prop).

Notation pool := (list (prog A)).

(** A goroutine that is there takes an action. *)
Inductive pool_act : S * pool -> S * pool -> Prop :=
  | do_act i e g s s' p' ps :
      ok e s -> ps !! i = Some (Act g) -> g e s = Some (s', p') -> pool_act (s, ps) (s', <[i := p']> ps).

(** Or a client starts another. *)
Inductive pool_step : S * pool -> S * pool -> Prop :=
  | step_act c c' : pool_act c c' -> pool_step c c'
  | step_start p s ps : starts p -> pool_step (s, ps) (s, ps ++ [p]).

(** The goroutines of a schedule take one action each, in its order, while the state is
    [good]. *)
Fixpoint run_schedule (good : S -> bool) (sched : list (nat * E)) (c : S * pool) : option (S * pool) :=
  match sched with
  | [] => Some c
  | (i, e) :: sched =>
      if good c.1 then
        match c.2 !! i with
        | Some (Act g) => '(s, p) ← g e c.1; run_schedule good sched (s, <[i := p]> c.2)
        | _ => None
        end
      else None
  end.

Lemma run_schedule_steps (good : S -> bool) sched c c' :
  Forall (fun x => forall s, good s = true -> ok x.2 s) sched -> run_schedule good sched c = Some c' -> rtc pool_step c c'.
Proof.
  intros Hok. revert c. induction Hok as [|[i e] sched He Hok IH]; simpl; intros [s ps] Hr.
  - injection Hr as <-. done.
  - simpl in Hr. destruct (good s) eqn:Es; [|done]. destruct (ps !! i) as [[| |g]|] eqn:Ei; try done.
    destruct (g e s) as [[s' p]|] eqn:Eg; [|done]. eapply rtc_l; [|by apply IH].
    constructor. eapply do_act; eauto.
Qed.

Lemma starts_steps s ps qs : Forall starts qs -> rtc pool_step (s, ps) (s, ps ++ qs).
Proof.
  revert ps. induction qs as [|q qs IH]; intros ps Hq; [by rewrite app_nil_r|].
  inversion Hq; subst. eapply rtc_l; [by constructor|]. rewrite (cons_middle q ps qs), app_assoc. by apply IH.
Qed.

(** ** Every goroutine that is not blocked ends *)

Inductive child : prog A -> prog A -> Prop :=
  | is_child g e s s' p : g e s = Some (s', p) -> child p (Act g).

Lemma child_wf : well_founded child.
Proof.
  intros p. induction p as [a| |g IH] using prog_ind'; constructor; intros q Hq; inversion Hq; subst; eauto.
Qed.

Definition pool_child (ps' ps : pool) : Prop :=
  exists i p p', ps !! i = Some p /\ child p' p /\ ps' = <[i := p']> ps.

Lemma pool_child_cons p : Acc child p -> forall ps, Acc pool_child ps -> Acc pool_child (p :: ps).
Proof.
  induction 1 as [p Hp IHp]. induction 1 as [ps Hps IHps]. constructor.
  intros ps' ([|i] & q & q' & Hi & Hc & ->); simpl in *.
  - injection Hi as <-. apply IHp; [done|]. by constructor.
  - apply IHps. exists i, q, q'. done.
Qed.

Lemma pool_child_wf : well_founded pool_child.
Proof.
  intros ps. induction ps as [|p ps IH]; [|apply pool_child_cons; [apply child_wf|done]].
  constructor. intros ps' (i & p & p' & Hi & _). done.
Qed.

(** There is no endless sequence of actions of a pool. *)
Lemma pool_act_wf : well_founded (flip pool_act).
Proof.
  intros c. apply (wf_incl _ _ (fun c' c => pool_child c'.2 c.2)); [|apply wf_inverse_image, pool_child_wf].
  intros c1 c2 Ha. inversion Ha; subst; simpl. eexists _, _, _. repeat split; [done|by econstructor].
Qed.

(** ** A logic for invariants *)

Context {G : Type} (Inv : S -> list G -> Prop) `{!forall s, Proper ((≡ₚ) ==> iff) (Inv s)}.

(** Tokens that say something and oblige to nothing. *)
Context (idle : G -> bool).

Notation idles h := (Forall (fun t => idle t = true) h).

(** The goroutine owns [h], the others [fr].  It may only be blocked when it has no
    obligation and somebody else has one. *)
Fixpoint wp {B} (p : prog B) (h : list G) (Q : B -> list G -> Prop) : Prop :=
  match p with
  | Ret a => Q a h
  | Panic => False
  | Act g => forall e s fr, ok e s -> Inv s (h ++ fr) ->
      match g e s with
      | None => idles h /\ ~ idles fr
      | Some (s', p') => exists h', Inv s' (h' ++ fr) /\ wp p' h' Q
      end
  end.

Lemma conc_mono {B} (p : prog B) h (Q Q' : B -> list G -> Prop) :
  (forall b h', Q b h' -> Q' b h') -> wp p h Q -> wp p h Q'.
Proof.
  intros HQ. revert h. induction p as [a| |g IH] using prog_ind'; intros h; simpl; [eauto..|].
  intros Hw e s fr He Hi. specialize (Hw e s fr He Hi). destruct (g e s) as [[s' p']|] eqn:Eg; [|done].
  destruct Hw as (h' & ? & ?). exists h'. split; [done|]. by eapply IH.
Qed.

Lemma conc_bind {B C} (p : prog B) (f : B -> prog C) h Q :
  wp p h (fun b h' => wp (f b) h' Q) -> wp (p ≫= f) h Q.
Proof.
  unfold mbind, prog_bind. revert h. induction p as [a| |g IH] using prog_ind'; intros h; simpl; [done..|].
  intros Hw e s fr He Hi. specialize (Hw e s fr He Hi). destruct (g e s) as [[s' p']|] eqn:Eg; [|done].
  destruct Hw as (h' & ? & ?). exists h'. split; [done|]. by eapply IH.
Qed.

Lemma wp_perm {B} (p : prog B) h h' (Q : B -> list G -> Prop) :
  (forall b h1 h2, h1 ≡ₚ h2 -> Q b h1 -> Q b h2) -> h ≡ₚ h' -> wp p h Q -> wp p h' Q.
Proof.
  intros HQ Hp. destruct p as [a| |g]; simpl; [eauto|done|]. intros Hw e s fr He Hi. rewrite <- Hp in Hi.
  specialize (Hw e s fr He Hi). destruct (g e s) as [[s' p']|]; [done|]. by rewrite <- Hp.
Qed.

Lemma conc_ret {B} (b : B) h (Q : B -> list G -> Prop) : Q b h -> wp (mret b) h Q.
Proof. done. Qed.

Lemma wp_atomic {B} (f : E -> S -> S * B) h (Q : B -> list G -> Prop) :
  (forall e s fr, ok e s -> Inv s (h ++ fr) -> exists h', Inv (f e s).1 (h' ++ fr) /\ Q (f e s).2 h') ->
  wp (atomic f) h Q.
Proof. intros Hf e s fr He Hi. destruct (Hf e s fr He Hi) as (h' & ? & ?). destruct (f e s) eqn:Ef. eauto. Qed.

(** An action that only reads keeps the tokens. *)
Lemma wp_read {B} (f : E -> S -> B) h (Q : B -> list G -> Prop) :
  (forall e s, ok e s -> Q (f e s) h) -> wp (atomic (fun e s => (s, f e s))) h Q.
Proof. intros Hf. apply wp_atomic. intros e s fr He Hi. exists h. split; [done|]. by apply Hf. Qed.

(** *** Adequacy *)

Definition done_with (post : A -> Prop) (a : A) (h : list G) : Prop := idles h /\ post a.

(** The tokens of the goroutines, with what each owns. *)
Definition pool_ok (post : A -> Prop) (c : S * pool) (hs : list (list G)) : Prop :=
  Inv c.1 (concat hs) /\ Forall2 (fun p h => wp p h (done_with post)) c.2 hs.

Lemma concat_at (hs : list (list G)) i h :
  hs !! i = Some h -> exists fr, concat hs ≡ₚ h ++ fr /\ forall h', concat (<[i := h']> hs) ≡ₚ h' ++ fr.
Proof.
  revert i. induction hs as [|h0 hs IH]; intros [|i] Hi; simpl in *; [done..| |].
  - injection Hi as <-. eauto.
  - destruct (IH i Hi) as (fr & E1 & E2). exists (h0 ++ fr). split; [|intros h'].
    + rewrite E1, !app_assoc. f_equiv. apply Permutation_app_comm.
    + rewrite (E2 h'), !app_assoc. f_equiv. apply Permutation_app_comm.
Qed.

Lemma pool_ok_step post c c' hs :
  (forall p, starts p -> wp p [] (done_with post)) ->
  pool_ok post c hs -> pool_step c c' -> exists hs', pool_ok post c' hs'.
Proof.
  intros Hstart [Hi Hps] Hs. inversion Hs as [? ? Ha|p s ps Hp]; subst; [inversion Ha as [i e g s s' p' ps He Eg Es]; subst|].
  - simpl in *. destruct (Forall2_lookup_l _ _ _ _ _ Hps Eg) as (h & Eh & Hw).
    destruct (concat_at hs i h Eh) as (fr & E1 & E2). rewrite E1 in Hi. specialize (Hw e s fr He Hi).
    rewrite Es in Hw. destruct Hw as (h' & Hi' & Hw'). exists (<[i := h']> hs). split; simpl; [by rewrite E2|].
    by apply Forall2_insert.
  - exists (hs ++ [[]]). split; simpl in *; [by rewrite concat_app, app_nil_r|].
    apply Forall2_app; [done|]. constructor; [|done]. by apply Hstart.
Qed.

Lemma pool_ok_steps post c c' hs :
  (forall p, starts p -> wp p [] (done_with post)) ->
  pool_ok post c hs -> rtc pool_step c c' -> exists hs', pool_ok post c' hs'.
Proof.
  intros Hstart Hok Hs. revert hs Hok. induction Hs as [|c c1 c' H1 _ IH]; intros hs Hok; [eauto|].
  destruct (pool_ok_step _ _ _ _ Hstart Hok H1) as [hs' Hok']. eauto.
Qed.

Lemma pool_ok_result post c hs i a : pool_ok post c hs -> c.2 !! i = Some (Ret a) -> post a.
Proof. intros [_ Hps] Hi. destruct (Forall2_lookup_l _ _ _ _ _ Hps Hi) as (h & _ & _ & Hp). done. Qed.

Lemma pool_ok_no_panic post c hs i : pool_ok post c hs -> c.2 !! i <> Some Panic.
Proof. intros [_ Hps] Hi. by destruct (Forall2_lookup_l _ _ _ _ _ Hps Hi) as (h & _ & ?). Qed.

Definition ended (p : prog A) : Prop := match p with Ret _ => True | _ => False end.

#[export] Instance ended_dec p : Decision (ended p).
Proof. destruct p; [left|right; intros []..]; done. Defined.

Lemma pool_ok_tokens post c hs :
  pool_ok post c hs -> Forall ended c.2 -> idles (concat hs).
Proof.
  intros [_ Hps] Hd. induction Hps as [|p h ps hs Hw Hps IH]; [by constructor|]. inversion Hd as [|? ? Hp Hd']; subst.
  destruct p; [|done..]. destruct Hw as [? _]. apply Forall_app. eauto.
Qed.

(** A goroutine with an obligation is not blocked. *)
Lemma pool_ok_owner post s ps hs e i h :
  ok e s -> pool_ok post (s, ps) hs -> hs !! i = Some h -> ~ idles h -> exists c', pool_act (s, ps) c'.
Proof.
  intros He [Hi Hps] Eh Hne. simpl in *. destruct (Forall2_lookup_r _ _ _ _ _ Hps Eh) as (p & Ep & Hw).
  destruct (concat_at hs i h Eh) as (fr & E1 & _). destruct p as [a| |g]; [by destruct Hw|done|].
  rewrite E1 in Hi. specialize (Hw e s fr He Hi). destruct (g e s) as [[s' p']|] eqn:Eg; [|by destruct Hw].
  eexists. by eapply do_act.
Qed.

Lemma concat_not_idle (hs : list (list G)) : ~ idles (concat hs) -> exists i h, hs !! i = Some h /\ ~ idles h.
Proof.
  induction hs as [|h hs IH]; simpl; intros Hne; [by destruct Hne|].
  destruct (decide (idles h)) as [Hh|Hh]; [|by exists 0%nat, h].
  destruct IH as (i & h' & ? & ?); [|by exists (Datatypes.S i), h']. intros Hc. apply Hne, Forall_app. done.
Qed.

(** Unless every goroutine has ended, one can take an action. *)
Lemma pool_ok_progress post c hs e :
  ok e c.1 -> pool_ok post c hs -> Forall ended c.2 \/ exists c', pool_act c c'.
Proof.
  intros He Hok. destruct c as [s ps]. destruct (decide (Forall ended ps)) as [|Hno]; [by left|right].
  apply not_Forall_Exists, Exists_exists in Hno as (p & [i Ei]%list_elem_of_lookup & Hp); [|apply _].
  destruct Hok as [Hi Hps] eqn:Eok. simpl in *. destruct (Forall2_lookup_l _ _ _ _ _ Hps Ei) as (h & Eh & Hw).
  destruct (concat_at hs i h Eh) as (fr & E1 & _). destruct p as [a| |g]; [by destruct Hp|done|].
  pose proof Hi as Hi'. rewrite E1 in Hi'. specialize (Hw e s fr He Hi'). destruct (g e s) as [[s' p']|] eqn:Eg.
  - eexists. by eapply do_act.
  - destruct Hw as [_ Hfr]. destruct (concat_not_idle hs) as (j & h' & Ej & Hne).
    { intros En. apply Hfr. rewrite E1 in En. by apply Forall_app in En as [_ ?]. }
    by eapply pool_ok_owner.
Qed.

End Prog.

Arguments Ret {E S A}. Arguments Panic {E S A}. Arguments Act {E S A}. Arguments prog : clear implicits.

(** ** A logic for what has happened

    Goroutines that may also panic, or wait for ever: what they did stays done.  States
    grow along [le], so that a fact that a goroutine saw and that growth keeps is still
    there at its next action. *)
Section Growth.
Context {E S : Type} (ok : E -> S -> Prop) (Inv : S -> Prop) (le : S -> S -> Prop) `{!PreOrder le}.

(** [p] has last seen the state [s]. *)
Fixpoint safe {B} (p : prog E S B) (s : S) (Q : B -> S -> Prop) : Prop :=
  match p with
  | Ret a => Q a s
  | Panic => True
  | Act g => forall e s0, ok e s0 -> le s s0 -> Inv s0 ->
      match g e s0 with Some (s', p') => Inv s' /\ le s0 s' /\ safe p' s' Q | None => True end
  end.

Lemma safe_grow {B} (p : prog E S B) s s1 (Q : B -> S -> Prop) :
  (forall b s s', le s s' -> Q b s -> Q b s') -> le s s1 -> safe p s Q -> safe p s1 Q.
Proof.
  intros HQ Hle. destruct p as [a| |g]; simpl; [eauto|done|]. intros Hs e s0 He Hl. apply Hs; [done|by etrans].
Qed.

Lemma safe_mono {B} (p : prog E S B) s (Q Q' : B -> S -> Prop) : (forall b s', Q b s' -> Q' b s') -> safe p s Q -> safe p s Q'.
Proof.
  intros HQ. revert s. induction p as [a| |g IH] using prog_ind'; intros s; simpl; [eauto|done|].
  intros Hs e s0 He Hl Hi. specialize (Hs e s0 He Hl Hi). destruct (g e s0) as [[s1 p']|] eqn:Eg; [|done].
  destruct Hs as (? & ? & ?). split_and!; [done..|]. by eapply IH.
Qed.

Lemma safe_bind {B C} (p : prog E S B) (f : B -> prog E S C) s Q :
  safe p s (fun b s' => safe (f b) s' Q) -> safe (p ≫= f) s Q.
Proof.
  unfold mbind, prog_bind. revert s. induction p as [a| |g IH] using prog_ind'; intros s; simpl; [done..|].
  intros Hs e s0 He Hl Hi. specialize (Hs e s0 He Hl Hi). destruct (g e s0) as [[s1 p']|] eqn:Eg; [|done].
  destruct Hs as (? & ? & ?). split_and!; [done..|]. by eapply IH.
Qed.

Lemma safe_atomic {B} (f : E -> S -> S * B) s (Q : B -> S -> Prop) :
  (forall e s0, ok e s0 -> le s s0 -> Inv s0 -> Inv (f e s0).1 /\ le s0 (f e s0).1 /\ Q (f e s0).2 (f e s0).1) -> safe (atomic f) s Q.
Proof.
  intros Hf e s0 He Hl Hi. specialize (Hf e s0 He Hl Hi). by destruct (f e s0) as [s1 b].
Qed.

Lemma safe_atomic_or_panic {B} (f : E -> S -> S * option B) s (Q : B -> S -> Prop) :
  (forall e s0, ok e s0 -> le s s0 -> Inv s0 ->
     Inv (f e s0).1 /\ le s0 (f e s0).1 /\ forall b, (f e s0).2 = Some b -> Q b (f e s0).1) -> safe (atomic_or_panic f) s Q.
Proof.
  intros Hf. apply safe_bind, safe_atomic. intros e s0 He Hl Hi. destruct (Hf e s0 He Hl Hi) as (? & ? & HQ).
  split_and!; [done..|]. destruct (f e s0).2; [by apply HQ|done].
Qed.

Lemma safe_wait {B} (f : S -> option B) s (Q : B -> S -> Prop) :
  (forall s0 b, le s s0 -> f s0 = Some b -> Q b s0) -> safe (wait f) s Q.
Proof.
  intros Hf e s0 He Hl Hi. cbn. destruct (f s0) as [b|] eqn:Ef; [|done]. cbn. split_and!; [done..|by apply Hf].
Qed.

(** Goroutines that are safe from the state at their start keep the invariant. *)
Lemma safe_steps {A} (starts : prog E S A -> Prop) s0 c :
  (forall p s, starts p -> safe p s (fun _ _ => True)) -> Inv s0 -> rtc (pool_step ok starts) (s0, []) c -> Inv c.1 /\ le s0 c.1.
Proof.
  intros Hstart Hi Hr. set (P := fun c : S * list (prog E S A) => Inv c.1 /\ le s0 c.1 /\ Forall (fun p => safe p c.1 (fun _ _ => True)) c.2).
  enough (P c) by (unfold P in *; tauto). revert c Hr. apply rtc_ind_r; [done|]. intros c c' _ Hstep (Hc & Hl & Hps).
  inversion Hstep as [? ? Ha|p s ps Hp]; subst; [inversion Ha as [i e g s s' p' ps He Eg Es]; subst|]; simpl in *.
  - assert (safe (Act g) s (fun _ _ => True)) as Hg by (eapply Forall_lookup_1 in Hps; eauto).
    specialize (Hg e s He ltac:(done) Hc). rewrite Es in Hg. destruct Hg as (Hc' & Hl' & Hp'). split_and!; [done|by etrans|].
    apply Forall_insert; [|done]. eapply Forall_impl; [exact Hps|]. intros q Hq. by eapply safe_grow.
  - split_and!; [done..|]. apply Forall_app. split; [done|]. constructor; [by apply Hstart|done].
Qed.
End Growth.
