(* ===== verification/Idempotency.v ===== *)
(** * Calls that are made once: [sync/idempotency]

    A [Group] maps keys to calls.  A call is an object that goroutines wait on; it is in
    flight or has a result. *)

From stdpp Require Import gmap.
From S2P Require Import Prelude Concur.

Section Group.
Context {Er A : Type}.

(** Calls by their address; [None] is in flight. *)
Record Group := mkGroup { g_m : gmap bytes nat; g_calls : list (option (result Er A)) }.

Definition newGroup : Group := mkGroup ∅ [].

(** The first locked section of [Once]: the call that is there, or a new one. *)
Definition enter (key : bytes) (g : Group) : Group * (nat + nat) :=
  match g_m g !! key with
  | Some c => (g, inl c)
  | None =>
      let c := length (g_calls g) in
      (mkGroup (<[key := c]> (g_m g)) (g_calls g ++ [None]), inr c)
  end.

Definition forget (key : bytes) (g : Group) : Group := mkGroup (delete key (g_m g)) (g_calls g).

(** The results are assigned and [c.wg.Done()] is called: nobody reads them before. *)
Definition finish (c : nat) (v : result Er A) (g : Group) : Group := mkGroup (g_m g) (<[c := Some v]> (g_calls g)).

(** The group is a part of the shared state. *)
Class HasGroup (S : Type) := { get_group : S -> Group; set_group : Group -> S -> S }.

Context {E S : Type} `{!HasGroup S}.

Definition on_group {B} (f : Group -> Group * B) : prog E S B :=
  atomic (fun _ s => let '(g, b) := f (get_group s) in (set_group g s, b)).

Definition wg_Wait (c : nat) : prog E S (result Er A) := wait (fun s => mjoin (g_calls (get_group s) !! c)).

Definition Forget (key : bytes) : prog E S unit := on_group (fun g => (forget key g, tt)).

(** [c.val, c.err = fn()] and what follows. *)
Definition make_call (key : bytes) (c : nat) (fn : prog E S (result Er A)) : prog E S (result Er A) :=
  v ← fn;
  (match v with Err _ => Forget key | Ok _ => mret tt end);;
  on_group (fun g => (finish c v g, tt));;
  mret v.

Definition Once (key : bytes) (fn : prog E S (result Er A)) : prog E S (result Er A) :=
  r ← on_group (enter key);
  match r with
  | inl c => wg_Wait c
  | inr c => make_call key c fn
  end.
End Group.

Arguments Group : clear implicits.
