(* ===== verification/Reserver.v ===== *)
(** * Reservations of outputs: [core/account/reserve.go]

    A [reserver] gives outputs of an account to clients that build transactions.  It
    keeps the reservations and, for each asset of an account, a [sourceReserver] with
    the outputs it knows of and those that are reserved.  Every locked section of the
    code is one atomic action here, and so is every call of [sync/atomic], of the
    database, of the pin store and of the chain; goroutines interleave between them. *)

From Stdlib Require Import ZArith Lia.
From stdpp Require Import gmap.
From S2P Require Import Prelude Bc StateTree Snapshot Concur Idempotency.

(** ** Data *)

Record source := mkSource { src_AssetID : AssetID; src_AccountID : bytes }.

#[export] Instance source_eq_dec : EqDecision source.
Proof. solve_decision. Defined.
#[export] Instance source_countable : Countable source.
Proof. refine (inj_countable' (fun s => (src_AssetID s, src_AccountID s)) (fun '(a, b) => mkSource a b) _). by intros []. Defined.

Record utxo := mkUtxo {
  u_OutputID : Hash;
  u_SourceID : Hash;
  u_AssetID : AssetID;
  u_Amount : Z;
  u_SourcePos : Z;
  u_ControlProgram : bytes;
  u_RefDataHash : Hash;
  u_AccountID : bytes;
  u_ControlProgramIndex : Z;
}.

#[export] Instance utxo_eq_dec : EqDecision utxo.
Proof. solve_decision. Defined.

Definition utxo_source (u : utxo) : source := mkSource (u_AssetID u) (u_AccountID u).

(** Times are in nanoseconds. *)
Record reservation := mkReservation {
  res_ID : Z;
  res_Source : source;
  res_UTXOs : list utxo;
  res_Change : Z;
  res_Expiry : Z;
  res_ClientToken : option bytes;
}.

#[export] Instance reservation_eq_dec : EqDecision reservation.
Proof. solve_decision. Defined.

Inductive rerr := ErrInsufficient | ErrReserved | ErrUserInputNotFound | ErrNoReservation (rid : Z) | ErrDB.

#[export] Instance rerr_eq_dec : EqDecision rerr.
Proof. solve_decision. Defined.

Record sourceReserver := mkSourceReserver {
  sr_src : source;
  cached : gmap Hash utxo;
  reserved : gmap Hash Z;
  lastHeight : Z;
}.

Record reserver := mkReserver {
  nextReservationID : Z;
  idempotency : Group rerr reservation;
  reservations : gmap Z reservation;
  sources : gmap source sourceReserver;
}.

Definition newReserver : reserver := mkReserver 0 newGroup ∅ ∅.

#[export] Instance reserver_group : HasGroup reserver := {|
  get_group := idempotency;
  set_group g re := mkReserver (nextReservationID re) g (reservations re) (sources re);
|}.

Definition set_reservations (m : gmap Z reservation) (re : reserver) : reserver :=
  mkReserver (nextReservationID re) (idempotency re) m (sources re).

Definition set_source (src : source) (sr : sourceReserver) (re : reserver) : reserver :=
  mkReserver (nextReservationID re) (idempotency re) (reservations re) (<[src := sr]> (sources re)).

(** ** The environment *)

(** A row of the table [account_utxos]. *)
Record row := mkRow {
  r_output_id : Hash;
  r_account_id : bytes;
  r_asset_id : AssetID;
  r_amount : Z;
  r_control_program_index : Z;
  r_control_program : bytes;
  r_source_id : Hash;
  r_source_pos : Z;
  r_ref_data_hash : Hash;
  r_confirmed_in : Z;
}.

Section Reserver.
Context {T : Type} `{StateTree T}.

(** What the other parts of the system answer during one action.  [e_rows] is the table
    in the order in which a query returns it, or [None] when the query fails. *)
Record env := mkEnv {
  e_rows : option (list row);
  e_snapshot : Snapshot (T := T);
  e_pinHeight : Z;
  e_now : Z;
  e_range_cached : gmap Hash utxo -> list (Hash * utxo);
  e_range_reservations : gmap Z reservation -> list (Z * reservation);
}.

Notation P := (prog env reserver).

Definition checkUTXO (e : env) (u : utxo) : option bool := tree_Contains (snap_Tree (e_snapshot e)) (Bytes (u_OutputID u)).

Definition matching_utxo (src : source) (r : row) : utxo :=
  mkUtxo (r_output_id r) (r_source_id r) (src_AssetID src) (r_amount r) (r_source_pos r) (r_control_program r)
    (r_ref_data_hash r) (src_AccountID src) (r_control_program_index r).

Definition matches (src : source) (height : Z) (r : row) : Prop :=
  r_account_id r = src_AccountID src /\ r_asset_id r = src_AssetID src /\ height < r_confirmed_in r.

#[export] Instance matches_dec src height r : Decision (matches src height r).
Proof. apply _. Defined.

Definition findMatchingUTXOs (src : source) (height : Z) (e : env) : result rerr (list utxo) :=
  match e_rows e with
  | None => Err ErrDB
  | Some rows => Ok (map (matching_utxo src) (filter (matches src height) rows))
  end.

Definition row_utxo (out : Hash) (r : row) : utxo :=
  mkUtxo out (r_source_id r) (r_asset_id r) (r_amount r) (r_source_pos r) (r_control_program r) (r_ref_data_hash r)
    (r_account_id r) (r_control_program_index r).

Definition findSpecificUTXO (out : Hash) (e : env) : result rerr utxo :=
  match e_rows e with
  | None => Err ErrDB
  | Some rows =>
      match filter (fun r => r_output_id r = out) rows with
      | [] => Err ErrUserInputNotFound
      | r :: _ => Ok (row_utxo out r)
      end
  end.

(** ** One source *)

Definition newSourceReserver (src : source) : sourceReserver := mkSourceReserver src ∅ ∅ 0.

(** The loop of [reserveFromCache] over the outputs that are left: the amounts reserved
    and unavailable, the outputs taken, and the cache without those that were spent. *)
Fixpoint scan_cached (e : env) (sr : sourceReserver) (amount : Z) (l : list (Hash * utxo))
    (res unavailable : Z) (acc : list utxo) (cache : gmap Hash utxo) : gmap Hash utxo * option (Z * Z * list utxo) :=
  match l with
  | [] => (cache, Some (res, unavailable, acc))
  | (o, u) :: l =>
      match reserved sr !! u_OutputID u with
      | Some _ => scan_cached e sr amount l res (uint64 (unavailable + u_Amount u)) acc cache
      | None =>
          match checkUTXO e u with
          | None => (cache, None)
          | Some false => scan_cached e sr amount l res unavailable acc (delete o cache)
          | Some true =>
              let res := uint64 (res + u_Amount u) in
              if amount <=? res then (cache, Some (res, unavailable, acc ++ [u]))
              else scan_cached e sr amount l res unavailable (acc ++ [u]) cache
          end
      end
  end.

Definition mark_reserved (rid : Z) (us : list utxo) (m : gmap Hash Z) : gmap Hash Z :=
  foldl (fun m u => <[u_OutputID u := rid]> m) m us.

Definition reserveFromCache (e : env) (rid amount : Z) (sr : sourceReserver) :
    sourceReserver * option (result rerr (list utxo * Z)) :=
  let '(cache, r) := scan_cached e sr amount (e_range_cached e (cached sr)) 0 0 [] (cached sr) in
  let sr := mkSourceReserver (sr_src sr) cache (reserved sr) (lastHeight sr) in
  match r with
  | None => (sr, None)
  | Some (res, unavailable, us) =>
      if uint64 (res + unavailable) <? amount then (sr, Some (Err ErrInsufficient))
      else if res <? amount then (sr, Some (Err ErrReserved))
      else (mkSourceReserver (sr_src sr) cache (mark_reserved rid us (reserved sr)) (lastHeight sr), Some (Ok (us, res)))
  end.

Definition source_reserveUTXO (rid : Z) (u : utxo) (sr : sourceReserver) : sourceReserver * result rerr unit :=
  match reserved sr !! u_OutputID u with
  | Some _ => (sr, Err ErrReserved)
  | None => (mkSourceReserver (sr_src sr) (cached sr) (<[u_OutputID u := rid]> (reserved sr)) (lastHeight sr), Ok tt)
  end.

Definition source_cancel (r : reservation) (sr : sourceReserver) : sourceReserver :=
  mkSourceReserver (sr_src sr) (cached sr) (foldl (fun m u => delete (u_OutputID u) m) (reserved sr) (res_UTXOs r))
    (lastHeight sr).

(** The last section of [refillCache]. *)
Definition add_cached (curHeight : Z) (us : list utxo) (sr : sourceReserver) : sourceReserver :=
  mkSourceReserver (sr_src sr) (foldl (fun m u => <[u_OutputID u := u]> m) (cached sr) us) (reserved sr)
    (if lastHeight sr <? curHeight then curHeight else lastHeight sr).

(** ** Actions of a goroutine *)

Definition read_env {A} (f : env -> A) : P A := atomic (fun e re => (re, f e)).

(** [re.source(src)]: the source reserver is made when it is not there.  The reservers
    are shared and stay for ever, so that [src] is as good as a pointer to it. *)
Definition re_source (src : source) : P unit :=
  atomic (fun _ re => match sources re !! src with
                      | Some _ => (re, tt)
                      | None => (set_source src (newSourceReserver src) re, tt)
                      end).

(** A locked section of the reserver of a source. *)
Definition on_source {A} (src : source) (f : env -> sourceReserver -> sourceReserver * option A) : P A :=
  atomic_or_panic (fun e re => match sources re !! src with
                               | None => (re, None)
                               | Some sr => let '(sr, a) := f e sr in (set_source src sr re, a)
                               end).

Definition refillCache (src : source) : P (result rerr unit) :=
  lastHeight ← on_source src (fun _ sr => (sr, Some (lastHeight sr)));
  curHeight ← read_env e_pinHeight;
  if curHeight <=? lastHeight then mret (Ok tt) else
  utxos ← read_env (findMatchingUTXOs src lastHeight);
  match utxos with
  | Err err => mret (Err err)
  | Ok us => on_source src (fun _ sr => (add_cached curHeight us sr, Some tt));; mret (Ok tt)
  end.

Definition source_reserve (src : source) (rid amount : Z) : P (result rerr (list utxo * Z)) :=
  r ← on_source src (fun e sr => reserveFromCache e rid amount sr);
  match r with
  | Ok x => mret (Ok x)
  | Err _ =>
      err ← refillCache src;
      match err with
      | Err err => mret (Err err)
      | Ok _ => on_source src (fun e sr => reserveFromCache e rid amount sr)
      end
  end.

(** [atomic.AddUint64(&re.nextReservationID, 1)] *)
Definition next_rid : P Z :=
  atomic (fun _ re => let rid := uint64 (nextReservationID re + 1) in
                      (mkReserver rid (idempotency re) (reservations re) (sources re), rid)).

Definition save_reservation (r : reservation) : P unit :=
  atomic (fun _ re => (set_reservations (<[res_ID r := r]> (reservations re)) re, tt)).

(** The reservation is changed only inside the section that makes it known. *)
Definition reserve (src : source) (amount : Z) (clientToken : option bytes) (exp : Z) : P (result rerr reservation) :=
  re_source src;;
  rid ← next_rid;
  r ← source_reserve src rid amount;
  match r with
  | Err err => mret (Err err)
  | Ok (us, total) =>
      let res := mkReservation rid src us (if amount <? total then uint64 (total - amount) else 0) exp clientToken in
      save_reservation res;;
      mret (Ok res)
  end.

Definition Reserve (src : source) (amount : Z) (clientToken : option bytes) (exp : Z) : P (result rerr reservation) :=
  match clientToken with
  | None => reserve src amount clientToken exp
  | Some token => Once token (reserve src amount clientToken exp)
  end.

Definition reserveUTXO (out : Hash) (exp : Z) (clientToken : option bytes) : P (result rerr reservation) :=
  u ← read_env (findSpecificUTXO out);
  match u with
  | Err err => mret (Err err)
  | Ok u =>
      ok ← read_env (fun e => checkUTXO e u);
      match ok with
      | None => Panic
      | Some false => mret (Err ErrUserInputNotFound)
      | Some true =>
          rid ← next_rid;
          re_source (utxo_source u);;
          err ← on_source (utxo_source u) (fun _ sr => let '(sr, r) := source_reserveUTXO rid u sr in (sr, Some r));
          match err with
          | Err err => mret (Err err)
          | Ok _ =>
              let res := mkReservation rid (utxo_source u) [u] 0 exp clientToken in
              save_reservation res;;
              mret (Ok res)
          end
      end
  end.

Definition ReserveUTXO (out : Hash) (clientToken : option bytes) (exp : Z) : P (result rerr reservation) :=
  match clientToken with
  | None => reserveUTXO out exp None
  | Some token => Once token (reserveUTXO out exp clientToken)
  end.

(** What [Cancel] and [ExpireReservations] do with a reservation they have removed. *)
Definition release (r : reservation) : P unit :=
  re_source (res_Source r);;
  on_source (res_Source r) (fun _ sr => (source_cancel r sr, Some tt));;
  match res_ClientToken r with Some token => Forget token | None => mret tt end.

Definition Cancel (rid : Z) : P (result rerr unit) :=
  r ← atomic (fun _ re => (set_reservations (delete rid (reservations re)) re, reservations re !! rid));
  match r with
  | None => mret (Err (ErrNoReservation rid))
  | Some r => release r;; mret (Ok tt)
  end.

Definition expired (now : Z) (p : Z * reservation) : Prop := res_Expiry p.2 < now.

#[export] Instance expired_dec now p : Decision (expired now p).
Proof. unfold expired. apply _. Defined.

Fixpoint release_all (rs : list reservation) : P unit :=
  match rs with
  | [] => mret tt
  | r :: rs => release r;; release_all rs
  end.

Definition ExpireReservations : P (result rerr unit) :=
  now ← read_env e_now;
  canceled ← atomic (fun e re =>
    let l := filter (expired now) (e_range_reservations e (reservations re)) in
    (set_reservations (foldl (fun m p => delete p.1 m) (reservations re) l) re, l.*2));
  release_all canceled;;
  mret (Ok tt).
End Reserver.

Arguments env : clear implicits.
