(* ===== verification/ReserverProof.v ===== *)
(** * What a source reserver decides

    [reserveFromCache] takes outputs that are not reserved and not spent until their
    amounts reach the request.  Its answer does not depend on the order in which the
    cache is ranged over. *)

From Stdlib Require Import ZArith Lia.
From stdpp Require Import gmap.
From S2P Require Import Prelude Bc StateTree Snapshot Concur Idempotency Reserver.

Definition amounts (us : list utxo) : Z := foldr (fun u n => u_Amount u + n) 0 us.

Lemma amounts_app us vs : amounts (us ++ vs) = amounts us + amounts vs.
Proof. induction us as [|u us IH]; simpl; lia. Qed.

#[export] Instance amounts_perm : Proper ((≡ₚ) ==> eq) amounts.
Proof. induction 1; simpl; lia. Qed.

Definition oids (us : list utxo) : list Hash := u_OutputID <$> us.

Lemma uint64_add_l a b : uint64 (uint64 a + b) = uint64 (a + b).
Proof. unfold uint64. by rewrite Z.add_mod_idemp_l. Qed.

Lemma elem_of_oids_cons o u us : o ∈ oids (u :: us) <-> o = u_OutputID u \/ o ∈ oids us.
Proof. unfold oids. set_solver. Qed.

Lemma lookup_mark_reserved rid us m o :
  mark_reserved rid us m !! o = if decide (o ∈ oids us) then Some rid else m !! o.
Proof.
  unfold mark_reserved. revert m. induction us as [|u us IH]; intros m; simpl; [done|]. rewrite IH.
  pose proof (elem_of_oids_cons o u us). repeat case_decide; try tauto.
  - assert (o = u_OutputID u) as -> by tauto. apply lookup_insert_eq.
  - rewrite lookup_insert_ne; [done|]. intros <-. tauto.
Qed.

Lemma lookup_delete_all us (m : gmap Hash Z) o :
  foldl (fun m u => delete (u_OutputID u) m) m us !! o = if decide (o ∈ oids us) then None else m !! o.
Proof.
  revert m. induction us as [|u us IH]; intros m; simpl; [done|]. rewrite IH.
  pose proof (elem_of_oids_cons o u us). repeat case_decide; try tauto.
  - assert (o = u_OutputID u) as -> by tauto. apply lookup_delete_eq.
  - rewrite lookup_delete_ne; [done|]. intros <-. tauto.
Qed.

Section Source.
Context {T : Type} `{StateTree T}.

Definition available (e : env T) (sr : sourceReserver) (u : utxo) : Prop :=
  reserved sr !! u_OutputID u = None /\ checkUTXO e u = Some true.

#[export] Instance available_dec e sr u : Decision (available e sr u).
Proof. unfold available. apply _. Defined.

Definition unavailable (sr : sourceReserver) (u : utxo) : Prop := is_Some (reserved sr !! u_OutputID u).

#[export] Instance unavailable_dec sr u : Decision (unavailable sr u).
Proof. unfold unavailable. apply _. Defined.

(** What was taken before stays. *)
Lemma scan_cached_prefix (e : env T) sr amount l : forall res un acc cache c total un' us,
  scan_cached e sr amount l res un acc cache = (c, Some (total, un', us)) -> acc `prefix_of` us.
Proof.
  induction l as [|[o u] l IH]; intros res un acc cache c total un' us Hs; cbn [scan_cached] in Hs.
  { by injection Hs as _ _ _ <-. }
  destruct (reserved sr !! u_OutputID u); [by eapply IH|].
  destruct (checkUTXO e u) as [[|]|]; [|by eapply IH|done]. case_match.
  - injection Hs as _ _ _ <-. by eexists.
  - etrans; [|by eapply IH]. by eexists.
Qed.

(** The outputs taken are the first available ones.  All are taken when they do not
    reach the amount, and then all reserved ones have been counted. *)
Lemma scan_cached_spec (e : env T) sr amount l res un acc cache :
  (forall p, p ∈ l -> checkUTXO e p.2 <> None) -> uint64 res = res -> uint64 un = un ->
  exists cache' taken seen,
    scan_cached e sr amount l res un acc cache =
      (cache', Some (uint64 (res + amounts taken), uint64 (un + amounts seen), acc ++ taken)) /\
    taken `prefix_of` filter (available e sr) l.*2 /\ seen `prefix_of` filter (unavailable sr) l.*2 /\ cache' ⊆ cache /\
    (amount <= uint64 (res + amounts taken) \/
     taken = filter (available e sr) l.*2 /\ seen = filter (unavailable sr) l.*2).
Proof.
  intros Hok. revert res un acc cache.
  induction l as [|[o u] l IH]; intros res un acc cache Hres Hun; cbn [scan_cached fmap list_fmap fst snd].
  - exists cache, [], []. rewrite app_nil_r, !Z.add_0_r, Hres, Hun. eauto 10.
  - assert (Hok' : forall p, p ∈ l -> checkUTXO e p.2 <> None) by (intros; apply Hok; by right). specialize (IH Hok').
    rewrite !filter_cons. destruct (reserved sr !! u_OutputID u) as [rid|] eqn:Er.
    + rewrite !(decide_False (P := available e sr u)) by (intros [? _]; congruence).
      rewrite !(decide_True (P := unavailable sr u)) by (by eexists).
      destruct (IH res (uint64 (un + u_Amount u)) acc cache) as (c & tk & sn & -> & ? & ? & ? & Hc);
        [done|by unfold uint64; rewrite Zmod_mod|].
      exists c, tk, (u :: sn). rewrite uint64_add_l, <- Z.add_assoc. split; [done|].
      split; [done|]. split; [by apply prefix_cons|]. split; [done|]. destruct Hc as [?|[-> ->]]; eauto.
    + rewrite !(decide_False (P := unavailable sr u)) by (intros [? ?]; congruence).
      destruct (checkUTXO e u) as [[|]|] eqn:Ec; [| |by destruct (Hok (o, u) (list_elem_of_here _ _))].
      * rewrite !(decide_True (P := available e sr u)) by done.
        destruct (Z.leb_spec amount (uint64 (res + u_Amount u))) as [Hle|Hgt].
        -- exists cache, [u], []. simpl. rewrite !Z.add_0_r, Hun.
           split; [done|]. split; [by eexists|]. split; [apply prefix_nil|]. split; [done|by left].
        -- destruct (IH (uint64 (res + u_Amount u)) un (acc ++ [u]) cache) as (c & tk & sn & -> & ? & ? & ? & Hc);
             [by unfold uint64; rewrite Zmod_mod|done|]. rewrite uint64_add_l, <- Z.add_assoc in *.
           exists c, (u :: tk), sn. rewrite <- app_assoc. split; [done|]. split; [by apply prefix_cons|].
           split; [done|]. split; [done|]. destruct Hc as [?|[-> ->]]; eauto.
      * rewrite !(decide_False (P := available e sr u)) by (intros [_ ?]; congruence).
        destruct (IH res un acc (delete o cache)) as (c & tk & sn & -> & ? & ? & ? & Hc); [done..|].
        exists c, tk, sn. repeat (split; [done|]). split; [|done]. etrans; [done|apply delete_subseteq].
Qed.

(** Amounts of outputs are [int64] values. *)
Definition small_amounts (us : list utxo) : Prop := Forall (fun u => 0 <= u_Amount u <= MaxInt64) us.

(** The scan stops at the amount, so that the sum of what it takes does not wrap around
    when the request and the amounts are [int64] values. *)
Lemma scan_cached_exact (e : env T) sr amount l res un acc cache c total un' us :
  scan_cached e sr amount l res un acc cache = (c, Some (total, un', us)) ->
  amount <= MaxInt64 -> 0 <= res <= MaxInt64 -> res = amounts acc ->
  acc `prefix_of` us /\ (small_amounts us -> total = amounts us).
Proof.
  intros Hs Ha. revert res un acc cache Hs.
  induction l as [|[o u] l IH]; intros res un acc cache Hs Hr Eacc; cbn [scan_cached] in Hs.
  { injection Hs as <- <- <- <-. done. }
  destruct (reserved sr !! u_OutputID u); [by eapply IH|].
  destruct (checkUTXO e u) as [[|]|]; [|by eapply IH|done].
  destruct (decide (0 <= u_Amount u <= MaxInt64)) as [Hu|Hu].
  - rewrite uint64_id in Hs by (unfold_int; unfold MaxInt64 in *; lia). destruct (Z.leb_spec amount (res + u_Amount u)).
    + injection Hs as <- <- <- <-. split; [by eexists|]. intros _. rewrite amounts_app. simpl. lia.
    + apply IH in Hs as [Hp Hx]; [|lia|rewrite amounts_app; simpl; lia]. split; [|done].
      etrans; [|exact Hp]. by eexists.
  - assert (Hin : exists us', us = acc ++ u :: us').
    { destruct (amount <=? _).
      - injection Hs as <- <- <- <-. by exists [].
      - clear IH. assert (acc ++ [u] `prefix_of` us) as [us' ->]; [|exists us'; by rewrite <- app_assoc].
        by eapply scan_cached_prefix. }
    destruct Hin as [us' ->]. split; [by eexists|]. intros Hf. apply Forall_app in Hf as [_ Hf].
    by apply Forall_cons in Hf as [? _].
Qed.

(** A map is ranged over in any order. *)
Definition range_ok (e : env T) : Prop :=
  (forall m, e_range_cached e m ≡ₚ map_to_list m) /\ (forall m, e_range_reservations e m ≡ₚ map_to_list m).

(** The tree answers about every output of the cache. *)
Definition tree_answers (e : env T) : Prop := forall u, checkUTXO e u <> None.

Definition values (m : gmap Hash utxo) : list utxo := (map_to_list m).*2.

Lemma range_values e m : range_ok e -> (e_range_cached e m).*2 ≡ₚ values m.
Proof. intros [Hr _]. unfold values. by rewrite (Hr m). Qed.

(** Whatever the answer, the cache only loses outputs. *)
Lemma reserveFromCache_cases e rid amount sr :
  tree_answers e ->
  exists cache' r,
    reserveFromCache e rid amount sr =
      (mkSourceReserver (sr_src sr) cache'
         (match r with Ok (us, _) => mark_reserved rid us (reserved sr) | Err _ => reserved sr end) (lastHeight sr), Some r) /\
    cache' ⊆ cached sr /\
    match r with
    | Ok (us, total) =>
        us `prefix_of` filter (available e sr) (e_range_cached e (cached sr)).*2 /\
        total = uint64 (amounts us) /\ amount <= total /\
        (amount <= MaxInt64 -> small_amounts us -> total = amounts us)
    | Err _ => True
    end.
Proof.
  intros Ht. unfold reserveFromCache.
  pose proof (fun c t u l Hs Ha => scan_cached_exact e sr amount (e_range_cached e (cached sr)) 0 0 [] (cached sr) c t u l Hs Ha) as Hex.
  destruct (scan_cached_spec e sr amount (e_range_cached e (cached sr)) 0 0 [] (cached sr)) as (c & tk & sn & Esc & Hp & _ & Hs & _);
    [intros p _; apply Ht|done..|]. rewrite Esc in *. rewrite !Z.add_0_l in *. cbn [app sr_src cached reserved lastHeight].
  destruct (uint64 (uint64 (amounts tk) + uint64 (amounts sn)) <? amount) eqn:E1; [by exists c, (Err ErrInsufficient)|].
  destruct (uint64 (amounts tk) <? amount) eqn:E2; [by exists c, (Err ErrReserved)|]. zbool. exists c, (Ok (tk, uint64 (amounts tk))).
  repeat (split; [done|]). intros Ha. by apply (Hex _ _ _ _ eq_refl Ha).
Qed.

Lemma amounts_nonneg us : (forall u, u ∈ us -> 0 <= u_Amount u) -> 0 <= amounts us.
Proof. intros Hu. induction us as [|u us IH]; simpl; [done|]. pose proof (Hu u (list_elem_of_here _ _)).
  assert (0 <= amounts us) by (apply IH; intros; apply Hu; by right). lia. Qed.

Lemma amounts_split e sr us :
  (forall u, u ∈ us -> 0 <= u_Amount u) ->
  amounts (filter (available e sr) us) + amounts (filter (unavailable sr) us) <= amounts us.
Proof.
  intros Hu. induction us as [|u us IH]; [done|]. rewrite !filter_cons.
  pose proof (Hu u (list_elem_of_here _ _)). assert (Hu' : forall v, v ∈ us -> 0 <= u_Amount v) by (intros; apply Hu; by right).
  specialize (IH Hu'). repeat case_decide; simpl; try lia.
  match goal with H1 : available _ _ _, H2 : unavailable _ _ |- _ => destruct H1 as [H1 _], H2 as [? H2] end. congruence.
Qed.

Lemma filter_nonneg (P : utxo -> Prop) `{!forall u, Decision (P u)} us :
  (forall u, u ∈ us -> 0 <= u_Amount u) -> 0 <= amounts (filter P us).
Proof. intros Hu. apply amounts_nonneg. intros u [_ Hin]%list_elem_of_filter. auto. Qed.

Lemma prefix_amounts us vs ws :
  us `prefix_of` vs -> vs ≡ₚ ws -> (forall u, u ∈ ws -> 0 <= u_Amount u) -> us ⊆+ ws /\ 0 <= amounts us <= amounts ws.
Proof.
  intros [k ->] Hp Hw. assert (Hs : us ⊆+ ws) by (rewrite <- Hp; apply submseteq_inserts_r; done). split; [done|].
  rewrite <- Hp, amounts_app.
  assert (0 <= amounts us) by (apply amounts_nonneg; intros u Hu; apply Hw; rewrite <- Hp; apply elem_of_app; by left).
  assert (0 <= amounts k) by (apply amounts_nonneg; intros u Hu; apply Hw; rewrite <- Hp; apply elem_of_app; by right). lia.
Qed.

(** Unless the amounts overflow 64 bits, [reserveFromCache] reserves when the
    unspent outputs that nobody has reserved reach the amount, and then it returns such
    outputs with their exact sum; it answers that outputs are reserved when these would
    make up the amount, and that funds are insufficient otherwise.  The order in which
    the cache is ranged over does not matter. *)
Lemma reserveFromCache_decides e rid amount sr :
  tree_answers e -> range_ok e -> (forall u, u ∈ values (cached sr) -> 0 <= u_Amount u) ->
  amounts (values (cached sr)) <= MaxUint64 ->
  let free := amounts (filter (available e sr) (values (cached sr))) in
  let taken := amounts (filter (unavailable sr) (values (cached sr))) in
  match (reserveFromCache e rid amount sr).2 with
  | Some (Ok (us, total)) =>
      amount <= free /\ amount <= total /\ total = amounts us /\ us ⊆+ filter (available e sr) (values (cached sr))
  | Some (Err ErrReserved) => free < amount <= free + taken
  | Some (Err ErrInsufficient) => free + taken < amount
  | _ => False
  end.
Proof.
  intros Ht Hr Hpos Hmax free taken. unfold reserveFromCache. pose proof (range_values e (cached sr) Hr) as Hv.
  destruct (scan_cached_spec e sr amount (e_range_cached e (cached sr)) 0 0 [] (cached sr))
    as (c & tk & sn & -> & Htk & Hsn & _ & Hc); [intros p _; apply Ht|done..|]. rewrite !Z.add_0_l in *. cbn [app].
  pose proof (amounts_split e sr _ Hpos) as Hsplit. fold free taken in Hsplit.
  apply (prefix_amounts _ _ (filter (available e sr) (values (cached sr)))) in Htk as (Htk & H1);
    [|by rewrite Hv|by intros u [_ ?]%list_elem_of_filter; apply Hpos].
  apply (prefix_amounts _ _ (filter (unavailable sr) (values (cached sr)))) in Hsn as (_ & H2);
    [|by rewrite Hv|by intros u [_ ?]%list_elem_of_filter; apply Hpos].
  fold free in H1. fold taken in H2.
  rewrite (uint64_id (amounts tk)) in * by lia. rewrite (uint64_id (amounts sn)), (uint64_id (_ + _)) by lia.
  assert (Hc' : amount <= amounts tk \/ amounts tk = free /\ amounts sn = taken).
  { destruct Hc as [?|[-> ->]]; [by left|right]. by rewrite Hv. }
  destruct (amounts tk + amounts sn <? amount) eqn:E1; zbool; cbn; [lia|].
  destruct (amounts tk <? amount) eqn:E2; zbool; cbn; [lia|]. repeat split; [lia..|done].
Qed.
End Source.
