(* ===== verification/ReserverInv.v ===== *)
(** * The invariant of the reserver

    Goroutines own tokens: a reservation that is not in the table of the reserver (it is
    being made or taken back), a call in flight, the right to forget a key.  The
    invariant counts saved and owned reservations alike. *)

From Stdlib Require Import ZArith Lia.
From stdpp Require Import gmap.
From S2P Require Import Prelude Bc StateTree Snapshot Concur Idempotency Reserver ReserverProof.

Inductive token :=
  | THeld (r : reservation)
  | TSrc (src : source)
  | TCall (c : nat) (key : bytes) (v : option reservation)
  | TFor (c : nat) (key : bytes)
  | TKey (key : bytes) (c : nat).

Definition idle (t : token) : bool :=
  match t with
  | THeld r => bool_decide (res_UTXOs r = [])
  | TSrc _ | TFor _ _ => true
  | TCall _ _ _ | TKey _ _ => false
  end.

Definition helds (ts : list token) : list reservation := omap (fun t => match t with THeld r => Some r | _ => None end) ts.
Definition call_ids (ts : list token) : list nat := omap (fun t => match t with TCall c _ _ => Some c | _ => None end) ts.
Definition keys (ts : list token) : list bytes := omap (fun t => match t with TKey k _ => Some k | _ => None end) ts.

Definition saved (re : reserver) : list reservation := (map_to_list (reservations re)).*2.

Section Inv.
(** The account and asset of an output: [output_id] is unique in the table. *)
Context (owner : Hash -> source).
(** What a reservation that was made for a client token satisfies. *)
Context (Fits : bytes -> reservation -> Prop).

(** ** Reservations and sources *)

Definition wf_source (src : source) (sr : sourceReserver) : Prop :=
  forall o u, cached sr !! o = Some u -> u_OutputID u = o /\ utxo_source u = src /\ owner o = src.

(** The outputs of a reservation are marked with its number in its source. *)
Definition owned (srcs : gmap source sourceReserver) (r : reservation) : Prop :=
  NoDup (oids (res_UTXOs r)) /\
  forall u, u ∈ res_UTXOs r ->
    utxo_source u = res_Source r /\ owner (u_OutputID u) = res_Source r /\
    exists sr, srcs !! res_Source r = Some sr /\ reserved sr !! u_OutputID u = Some (res_ID r).

Record res_inv (next : Z) (srcs : gmap source sourceReserver) (rs : list reservation) : Prop := {
  ri_ids : NoDup (res_ID <$> rs);
  ri_next : 0 <= next /\ forall r, r ∈ rs -> res_ID r <= next;
  ri_sources : forall src sr, srcs !! src = Some sr -> wf_source src sr;
  ri_owned : forall r, r ∈ rs -> owned srcs r;
  ri_known : forall src sr o rid, srcs !! src = Some sr -> reserved sr !! o = Some rid ->
    exists r, r ∈ rs /\ res_Source r = src /\ res_ID r = rid /\ o ∈ oids (res_UTXOs r);
}.

#[export] Instance res_inv_perm next srcs : Proper ((≡ₚ) ==> iff) (res_inv next srcs).
Proof.
  assert (Hp : forall rs rs', rs ≡ₚ rs' -> res_inv next srcs rs -> res_inv next srcs rs').
  { intros rs rs' Hp [H1 [H2 H2'] H3 H4 H5]. split; [by rewrite <- Hp| |done| |].
    - split; [done|]. intros r Hr. apply H2'. by rewrite Hp.
    - intros r Hr. apply H4. by rewrite Hp.
    - intros src sr o rid Hs Ho. destruct (H5 src sr o rid Hs Ho) as (r & Hr & ?). exists r. by rewrite <- Hp. }
  intros rs rs' Hrs. split; eauto using Permutation_sym.
Qed.

(** ** Calls *)

Notation group := (Group rerr reservation).

Definition keyed (key : bytes) (r : reservation) : Prop := res_ClientToken r = Some key /\ Fits key r.

(** The call [c] is or was made for the key. *)
Definition call_for (g : group) (ts : list token) (c : nat) (key : bytes) : Prop :=
  (g_calls g !! c = Some None /\ exists v, TCall c key v ∈ ts) \/
  exists v, g_calls g !! c = Some (Some v) /\ forall r, v = Ok r -> keyed key r.

(** The result of the call is or will be the reservation. *)
Definition call_gives (g : group) (ts : list token) (c : nat) (key : bytes) (r : reservation) : Prop :=
  g_calls g !! c = Some (Some (Ok r)) \/ TCall c key (Some r) ∈ ts.

Record call_inv (g : group) (rs : list reservation) (ts : list token) : Prop := {
  ci_ids : NoDup (call_ids ts);
  ci_call : forall c key v, TCall c key v ∈ ts ->
    g_calls g !! c = Some None /\ forall r, v = Some r -> keyed key r;
  ci_m : forall key c, g_m g !! key = Some c -> call_for g ts c key;
  ci_for : forall key c, TFor c key ∈ ts -> call_for g ts c key;
  ci_key : forall key c, TKey key c ∈ ts -> g_m g !! key = Some c;
  ci_keys : NoDup (keys ts ++ omap res_ClientToken rs);
  ci_saved : forall r key, r ∈ rs -> res_ClientToken r = Some key ->
    exists c, g_m g !! key = Some c /\ call_gives g ts c key r;
}.

Record Inv (re : reserver) (ts : list token) : Prop := {
  inv_res : res_inv (nextReservationID re) (sources re) (saved re ++ helds ts);
  inv_table : forall rid r, reservations re !! rid = Some r -> res_ID r = rid;
  inv_src : forall src, TSrc src ∈ ts -> is_Some (sources re !! src);
  inv_call : call_inv (idempotency re) (saved re) ts;
}.

Lemma call_for_mono g ts ts' c key :
  (forall v, TCall c key v ∈ ts -> exists v', TCall c key v' ∈ ts') -> call_for g ts c key -> call_for g ts' c key.
Proof. intros Hs [[? [v Hv]]|?]; [left|by right]. split; [done|]. eauto. Qed.

#[export] Instance Inv_perm re : Proper ((≡ₚ) ==> iff) (Inv re).
Proof.
  assert (Hp : forall ts ts', ts ≡ₚ ts' -> Inv re ts -> Inv re ts').
  { intros ts ts' Hp [H1 H2 H3 [C1 C2 C3 C4 C5 C6 C7]].
    assert (Hin : forall t, t ∈ ts -> t ∈ ts') by (intros; by rewrite <- Hp).
    assert (Hin' : forall t, t ∈ ts' -> t ∈ ts) by (intros; by rewrite Hp).
    split; [|done|eauto|split].
    - unfold helds. by rewrite <- Hp.
    - unfold call_ids. by rewrite <- Hp.
    - eauto.
    - intros. eapply call_for_mono; [|by eauto]. eauto.
    - intros. eapply call_for_mono; [|by eauto]. eauto.
    - eauto.
    - unfold keys. by rewrite <- Hp.
    - intros r key Hr Hk. destruct (C7 r key Hr Hk) as (c & ? & [?|?]); exists c; unfold call_gives; eauto. }
  intros ts ts' Hts. split; eauto using Permutation_sym.
Qed.

(** ** Steps of the sources *)

(** A source whose marks stay the same. *)
Lemma res_inv_source next srcs rs src sr :
  res_inv next srcs rs -> reserved sr = default ∅ (reserved <$> srcs !! src) -> wf_source src sr ->
  res_inv next (<[src := sr]> srcs) rs.
Proof.
  intros [H1 H2 H3 H4 H5] Hr Hw. split; [done|done| | |].
  - intros src' sr' [[<- <-]|[_ ?]]%lookup_insert_Some; eauto.
  - intros r [? Hr']%H4. split; [done|]. intros u (? & ? & sr' & Hs & Hm)%Hr'. split; [done|]. split; [done|].
    destruct (decide (src = res_Source r)) as [->|Hn]; [|exists sr'; by rewrite lookup_insert_ne].
    exists sr. rewrite lookup_insert_eq, Hr, Hs. done.
  - intros src' sr' o rid [[<- <-]|[_ ?]]%lookup_insert_Some Ho; [|eauto]. rewrite Hr in Ho.
    destruct (srcs !! src) as [sr0|] eqn:Es; [eauto|]. simpl in Ho. by rewrite lookup_empty in Ho.
Qed.

Lemma res_inv_next next srcs rs r :
  res_inv next srcs rs -> res_ID r = next + 1 -> res_UTXOs r = [] -> res_inv (next + 1) srcs (r :: rs).
Proof.
  intros [H1 [H2 H2'] H3 H4 H5] Hid Hu. split.
  - simpl. constructor; [|done]. rewrite Hid. intros (r' & ? & Hr'%H2')%list_elem_of_fmap. lia.
  - split; [lia|]. intros r' [->|Hr'%H2']%elem_of_cons; lia.
  - done.
  - intros r' [->|Hr']%elem_of_cons; [|eauto]. split; rewrite Hu; [constructor|]. intros u Hn. by apply not_elem_of_nil in Hn.
  - intros src sr o rid Hs Ho. destruct (H5 src sr o rid Hs Ho) as (r' & ? & ?). exists r'. split; [by right|done].
Qed.

(** Marking free outputs for a reservation that has none yet. *)
Lemma res_inv_mark next srcs rs r0 r sr sr' :
  res_inv next srcs (r0 :: rs) -> res_UTXOs r0 = [] -> res_ID r = res_ID r0 ->
  srcs !! res_Source r = Some sr -> wf_source (res_Source r) sr' ->
  reserved sr' = mark_reserved (res_ID r) (res_UTXOs r) (reserved sr) -> NoDup (oids (res_UTXOs r)) ->
  (forall u, u ∈ res_UTXOs r -> reserved sr !! u_OutputID u = None /\ utxo_source u = res_Source r /\
                               owner (u_OutputID u) = res_Source r) ->
  res_inv next (<[res_Source r := sr']> srcs) (r :: rs).
Proof.
  intros [H1 [H2 H2'] H3 H4 H5] H0 Hid Hs Hw Hm Hnd Hu.
  assert (Hnew : forall u, u ∈ res_UTXOs r -> u_OutputID u ∈ oids (res_UTXOs r)) by (intros; by apply list_elem_of_fmap_2).
  split.
  - simpl in *. by rewrite Hid.
  - split; [done|]. intros r' [->|Hr']%elem_of_cons; [rewrite Hid|]; apply H2'; [by left|by right].
  - intros src sr1 [[<- <-]|[_ ?]]%lookup_insert_Some; eauto.
  - intros r' [->|Hr']%elem_of_cons.
    + split; [done|]. intros u Hin. destruct (Hu u Hin) as (_ & ? & ?). repeat split; [done..|].
      exists sr'. rewrite lookup_insert_eq, Hm, lookup_mark_reserved, decide_True by eauto. done.
    + destruct (H4 r' ltac:(by right)) as [? Ho]. split; [done|]. intros u (? & ? & sr1 & Hs1 & Hm1)%Ho.
      repeat split; [done..|]. destruct (decide (res_Source r = res_Source r')) as [He|Hn];
        [|exists sr1; by rewrite lookup_insert_ne].
      rewrite <- He in Hs1. rewrite Hs in Hs1. injection Hs1 as <-. exists sr'. rewrite He, lookup_insert_eq. split; [done|].
      rewrite Hm, lookup_mark_reserved, decide_False; [done|].
      intros (v & Ev & (Hv & _)%Hu)%list_elem_of_fmap. congruence.
  - intros src sr1 o rid [[<- <-]|[Hn Hs1]]%lookup_insert_Some Ho.
    + rewrite Hm, lookup_mark_reserved in Ho. case_decide.
      * injection Ho as <-. exists r. split; [by left|done].
      * destruct (H5 _ _ _ _ Hs Ho) as (r' & [->|?]%elem_of_cons & ? & ? & Ho'); [by rewrite H0 in Ho'; apply not_elem_of_nil in Ho'|].
        exists r'. split; [by right|done].
    + destruct (H5 _ _ _ _ Hs1 Ho) as (r' & [->|?]%elem_of_cons & ? & ? & Ho'); [by rewrite H0 in Ho'; apply not_elem_of_nil in Ho'|].
      exists r'. split; [by right|done].
Qed.

(** Taking the marks of a reservation back. *)
Lemma res_inv_cancel next srcs rs r sr :
  res_inv next srcs (r :: rs) -> srcs !! res_Source r = Some sr ->
  res_inv next (<[res_Source r := source_cancel r sr]> srcs) rs.
Proof.
  intros [H1 [H2 H2'] H3 H4 H5] Hs. simpl in H1. apply NoDup_cons in H1 as [Hid H1].
  destruct (H4 r ltac:(by left)) as [_ Hr].
  assert (Hmine : forall o, o ∈ oids (res_UTXOs r) -> reserved sr !! o = Some (res_ID r)).
  { intros o (u & -> & (_ & _ & sr' & Hs' & ?)%Hr)%list_elem_of_fmap. congruence. }
  assert (Hne : forall r', r' ∈ rs -> res_ID r' <> res_ID r).
  { intros r' Hr' Heq. apply Hid. rewrite <- Heq. by apply list_elem_of_fmap_2. }
  split.
  - done.
  - split; [done|]. intros r' Hr'. apply H2'. by right.
  - intros src sr1 [[<- <-]|[_ ?]]%lookup_insert_Some; [|eauto]. intros o u Hc. by apply (H3 _ _ Hs).
  - intros r' Hr'. destruct (H4 r' ltac:(by right)) as [? Ho]. split; [done|]. intros u (? & ? & sr1 & Hs1 & Hm1)%Ho.
    repeat split; [done..|]. destruct (decide (res_Source r = res_Source r')) as [He|Hn];
      [|exists sr1; by rewrite lookup_insert_ne].
    rewrite <- He in Hs1. rewrite Hs in Hs1. injection Hs1 as <-. exists (source_cancel r sr). rewrite He, lookup_insert_eq.
    split; [done|]. unfold source_cancel; cbn. rewrite lookup_delete_all, decide_False; [done|].
    intros Hin%Hmine. apply (Hne r' Hr'). congruence.
  - intros src sr1 o rid [[<- <-]|[Hn Hs1]]%lookup_insert_Some Ho.
    + unfold source_cancel in Ho; cbn in Ho. rewrite lookup_delete_all in Ho. case_decide as Hin; [done|].
      destruct (H5 _ _ _ _ Hs Ho) as (r' & [->|?]%elem_of_cons & ? & ? & Ho'); [done|]. eauto 10.
    + destruct (H5 _ _ _ _ Hs1 Ho) as (r' & [->|?]%elem_of_cons & ? & ? & Ho'); [done|]. eauto 10.
Qed.

(** ** Steps of the reserver *)

(** Tokens that the calls do not see. *)
Lemma call_inv_quiet g rs t ts :
  match t with THeld _ | TSrc _ => True | _ => False end -> call_inv g rs (t :: ts) <-> call_inv g rs ts.
Proof.
  intros Hq. assert (Hin : forall c key v, TCall c key v ∈ t :: ts <-> TCall c key v ∈ ts) by (destruct t; set_solver).
  assert (Hcf : forall c key, call_for g (t :: ts) c key <-> call_for g ts c key).
  { intros. split; apply call_for_mono; intros v Hv; exists v; by apply Hin. }
  assert (Hid : call_ids (t :: ts) = call_ids ts) by (by destruct t).
  assert (Hk : keys (t :: ts) = keys ts) by (by destruct t).
  split; intros [C1 C2 C3 C4 C5 C6 C7]; split; rewrite ?Hid, ?Hk in *; try done.
  - intros c key v Hv. by apply C2, Hin.
  - intros. by apply Hcf, C3.
  - intros. apply Hcf, C4. by right.
  - intros. apply C5. by right.
  - intros r key Hr Hc. destruct (C7 r key Hr Hc) as (c & ? & [?|?%Hin]); exists c; unfold call_gives; eauto.
  - intros c key v Hv. by eapply C2, Hin.
  - intros. by apply Hcf, C3.
  - intros key c Hf. apply Hcf, C4. destruct t; set_solver.
  - intros key c Hf. apply C5. destruct t; set_solver.
  - intros r key Hr Hc. destruct (C7 r key Hr Hc) as (c & ? & [?|?]); exists c; unfold call_gives; rewrite Hin; eauto.
Qed.

Lemma Inv_TSrc re ts src : Inv re ts -> is_Some (sources re !! src) -> Inv re (TSrc src :: ts).
Proof.
  intros [H1 H2 H3 H4] Hs. split; [done|done| |by apply call_inv_quiet].
  intros src' [[= ->]|?]%elem_of_cons; eauto.
Qed.

(** Another state with the same table and calls. *)
Lemma Inv_sources re ts srcs ts' next :
  Inv re ts -> res_inv next srcs (saved re ++ helds ts') ->
  (forall src, is_Some (sources re !! src) -> is_Some (srcs !! src)) ->
  (forall src, TSrc src ∈ ts' -> TSrc src ∈ ts) -> call_inv (idempotency re) (saved re) ts' ->
  Inv (mkReserver next (idempotency re) (reservations re) srcs) ts'.
Proof. intros [H1 H2 H3 H4] ? Hs Ht ?. split; [done|done| |done]. intros src Hin. by apply Hs, H3, Ht. Qed.

Lemma is_Some_insert (m : gmap source sourceReserver) k v k' : is_Some (m !! k') -> is_Some (<[k := v]> m !! k').
Proof. intros Hs. destruct (decide (k = k')) as [->|]; [rewrite lookup_insert_eq; eauto|by rewrite lookup_insert_ne]. Qed.

Lemma Inv_set_source re ts src sr sr' :
  Inv re ts -> sources re !! src = Some sr -> reserved sr' = reserved sr -> wf_source src sr' ->
  Inv (set_source src sr' re) ts.
Proof.
  intros Hi Hs Hr Hw. apply (Inv_sources re ts); [done| |by intros; apply is_Some_insert|done|apply Hi].
  apply res_inv_source; [apply Hi|by rewrite Hs|done].
Qed.

Lemma Inv_re_source re ts src :
  Inv re ts ->
  Inv (match sources re !! src with Some _ => re | None => set_source src (newSourceReserver src) re end) (TSrc src :: ts).
Proof.
  intros Hi. destruct (sources re !! src) eqn:Es; [by apply Inv_TSrc|]. apply Inv_TSrc; [|simpl; rewrite lookup_insert_eq; eauto].
  apply (Inv_sources re ts); [done| |by intros; apply is_Some_insert|done|apply Hi].
  apply res_inv_source; [apply Hi|by rewrite Es|]. intros o u Ho. cbn in Ho. by rewrite lookup_empty in Ho.
Qed.

Lemma Inv_next re ts r :
  Inv re ts -> nextReservationID re < MaxUint64 -> res_ID r = nextReservationID re + 1 -> res_UTXOs r = [] ->
  Inv (mkReserver (uint64 (nextReservationID re + 1)) (idempotency re) (reservations re) (sources re)) (THeld r :: ts).
Proof.
  intros Hi Hn Hid Hu. pose proof (inv_res _ _ Hi) as Hr. pose proof (ri_next _ _ _ Hr) as [? _].
  rewrite uint64_id by lia. apply (Inv_sources re ts); [done| |done|set_solver|by apply call_inv_quiet, Hi].
  simpl. rewrite <- Permutation_middle. by apply res_inv_next.
Qed.

Lemma Inv_mark re ts r0 r sr sr' :
  Inv re (THeld r0 :: ts) -> res_UTXOs r0 = [] -> res_ID r = res_ID r0 ->
  sources re !! res_Source r = Some sr -> wf_source (res_Source r) sr' ->
  reserved sr' = mark_reserved (res_ID r) (res_UTXOs r) (reserved sr) -> NoDup (oids (res_UTXOs r)) ->
  (forall u, u ∈ res_UTXOs r -> reserved sr !! u_OutputID u = None /\ utxo_source u = res_Source r /\
                               owner (u_OutputID u) = res_Source r) ->
  Inv (set_source (res_Source r) sr' re) (THeld r :: ts).
Proof.
  intros Hi H0 Hid Hs Hw Hm Hnd Hu. apply (Inv_sources re (THeld r0 :: ts)); [done| |by intros; apply is_Some_insert|set_solver|].
  - pose proof (inv_res _ _ Hi) as Hr. simpl in *. rewrite <- Permutation_middle in *. by eapply res_inv_mark.
  - apply call_inv_quiet; [done|]. eapply call_inv_quiet; [|apply Hi]. done.
Qed.

Lemma Inv_cancel re ts r sr :
  Inv re (THeld r :: ts) -> sources re !! res_Source r = Some sr ->
  Inv (set_source (res_Source r) (source_cancel r sr) re) ts.
Proof.
  intros Hi Hs. apply (Inv_sources re (THeld r :: ts)); [done| |by intros; apply is_Some_insert|set_solver|].
  - pose proof (inv_res _ _ Hi) as Hr. simpl in Hr. rewrite <- Permutation_middle in Hr. by apply res_inv_cancel.
  - eapply call_inv_quiet; [|apply Hi]. done.
Qed.

(** The tokens that go with a reservation for a client token. *)
Definition key_tokens (tk : option bytes) (c : nat) : list token :=
  match tk with Some key => [TKey key c] | None => [] end.

Definition call_tokens (tk : option bytes) (c : nat) (v : option reservation) : list token :=
  match tk with Some key => [TCall c key v] | None => [] end.

#[export] Instance call_inv_rs_perm g : Proper ((≡ₚ) ==> (=) ==> iff) (call_inv g).
Proof.
  assert (Hp : forall rs rs' ts, rs ≡ₚ rs' -> call_inv g rs ts -> call_inv g rs' ts).
  { intros rs rs' ts Hp [C1 C2 C3 C4 C5 C6 C7]. split; [done..|by rewrite <- Hp|].
    intros r key Hr. apply C7. by rewrite Hp. }
  intros rs rs' Hrs ts ts' <-. split; eauto using Permutation_sym.
Qed.

Lemma call_inv_save g rs r key c ts :
  keyed key r -> call_inv g rs (TKey key c :: TCall c key None :: ts) ->
  call_inv g (r :: rs) (TCall c key (Some r) :: ts).
Proof.
  intros Hkd [C1 C2 C3 C4 C5 C6 C7]. pose proof (proj1 Hkd) as Hk.
  assert (Hcf : forall c' key', call_for g (TKey key c :: TCall c key None :: ts) c' key' ->
    call_for g (TCall c key (Some r) :: ts) c' key').
  { intros c' key'. apply call_for_mono. intros v Hv. apply elem_of_cons in Hv as [?|[[= -> -> ->]|?]%elem_of_cons]; [done|..].
    - eexists. by left. - eexists. by right. }
  split.
  - done.
  - intros c' key' v [[= -> -> ->]|Hv]%elem_of_cons; [|apply C2; set_solver].
    split; [by apply (C2 _ key None); set_solver|]. by intros r' [= ->].
  - eauto.
  - intros key' c' Hf. apply Hcf, C4. set_solver.
  - intros key' c' Hf. apply C5. set_solver.
  - simpl in *. rewrite Hk. by rewrite <- Permutation_middle.
  - intros r' key' [->|Hr]%elem_of_cons Hk'.
    + rewrite Hk in Hk'. injection Hk' as <-. exists c. split; [apply C5; by left|right; by left].
    + destruct (C7 r' key' Hr Hk') as (c' & ? & Hg). exists c'. split; [done|]. unfold call_gives in *. set_solver.
Qed.

Lemma call_inv_remove g rs r ts :
  call_inv g (r :: rs) ts -> exists c, call_inv g rs (key_tokens (res_ClientToken r) c ++ ts).
Proof.
  intros [C1 C2 C3 C4 C5 C6 C7]. simpl in C6. destruct (res_ClientToken r) as [key|] eqn:Hk; simpl.
  - destruct (C7 r key ltac:(by left) Hk) as (c & Hm & _). exists c.
    assert (Hcf : forall c' key', call_for g ts c' key' -> call_for g (TKey key c :: ts) c' key').
    { intros c' key'. apply call_for_mono. intros v Hv. eexists. by right. }
    split; [done|intros c' key' v Hv; apply C2; set_solver|eauto|intros; apply Hcf, C4; set_solver| | |].
    + intros key' c' [[= -> ->]|?]%elem_of_cons; eauto.
    + simpl. by rewrite <- Permutation_middle in C6.
    + intros r' key' Hr Hk'. destruct (C7 r' key' ltac:(by right) Hk') as (c' & ? & Hg). exists c'.
      split; [done|]. unfold call_gives in *. set_solver.
  - exists 0%nat. split; [done..|]. intros r' key' Hr. apply C7. by right.
Qed.

Lemma saved_insert re r : reservations re !! res_ID r = None ->
  saved (set_reservations (<[res_ID r := r]> (reservations re)) re) ≡ₚ r :: saved re.
Proof. intros Hn. unfold saved. simpl. by rewrite map_to_list_insert. Qed.

Lemma saved_delete re rid r : reservations re !! rid = Some r ->
  saved re ≡ₚ r :: saved (set_reservations (delete rid (reservations re)) re).
Proof. intros Hr. unfold saved. simpl. by rewrite <- (map_to_list_delete _ _ _ Hr). Qed.

Lemma helds_app ts ts' : helds (ts ++ ts') = helds ts ++ helds ts'.
Proof. apply omap_app. Qed.

Lemma helds_key_tokens tk c ts : helds (key_tokens tk c ++ ts) = helds ts.
Proof. by destruct tk. Qed.

Lemma helds_call_tokens tk c v ts : helds (call_tokens tk c v ++ ts) = helds ts.
Proof. by destruct tk. Qed.

Lemma TSrc_key_tokens src tk c ts : TSrc src ∈ key_tokens tk c ++ ts <-> TSrc src ∈ ts.
Proof. destruct tk; set_solver. Qed.

Lemma TSrc_call_tokens src tk c v ts : TSrc src ∈ call_tokens tk c v ++ ts <-> TSrc src ∈ ts.
Proof. destruct tk; set_solver. Qed.

(** A reservation that is made becomes known. *)
Lemma Inv_save re ts r c :
  (forall key, res_ClientToken r = Some key -> Fits key r) ->
  Inv re (THeld r :: key_tokens (res_ClientToken r) c ++ call_tokens (res_ClientToken r) c None ++ ts) ->
  Inv (set_reservations (<[res_ID r := r]> (reservations re)) re) (call_tokens (res_ClientToken r) c (Some r) ++ ts).
Proof.
  intros Hfit [H1 H2 H3 H4]. simpl in H1. rewrite helds_key_tokens, helds_call_tokens in H1.
  assert (Hn : reservations re !! res_ID r = None).
  { destruct (reservations re !! res_ID r) as [r'|] eqn:E; [|done]. exfalso. pose proof (H2 _ _ E) as Hid.
    apply elem_of_map_to_list in E. pose proof (ri_ids _ _ _ H1) as Hnd. rewrite fmap_app in Hnd.
    apply NoDup_app in Hnd as (_ & Hd & _). apply (Hd (res_ID r)); [|by left].
    unfold saved. rewrite <- Hid. apply list_elem_of_fmap_2. by apply (list_elem_of_fmap_2 snd) in E. }
  split.
  - rewrite saved_insert by done. simpl. rewrite helds_call_tokens, Permutation_middle. done.
  - simpl. intros rid r' [[<- <-]|[_ ?]]%lookup_insert_Some; eauto.
  - intros src. rewrite TSrc_call_tokens. intros Hs. apply H3. right. by rewrite TSrc_key_tokens, TSrc_call_tokens.
  - rewrite saved_insert by done. apply call_inv_quiet in H4; [|done]. destruct (res_ClientToken r) as [key|] eqn:Hk; simpl in *.
    + apply call_inv_save; [split; [done|by apply Hfit]|done].
    + destruct H4 as [C1 C2 C3 C4 C5 C6 C7]. split; [done..|by simpl; rewrite Hk|].
      intros r' key [->|Hr]%elem_of_cons; [congruence|eauto].
Qed.

(** A reservation is taken out of the table. *)
Lemma Inv_remove re ts rid r :
  Inv re ts -> reservations re !! rid = Some r ->
  exists c, Inv (set_reservations (delete rid (reservations re)) re) (THeld r :: key_tokens (res_ClientToken r) c ++ ts).
Proof.
  intros [H1 H2 H3 H4] Hr. pose proof (saved_delete _ _ _ Hr) as Hs. rewrite Hs in H1, H4.
  destruct (call_inv_remove _ _ _ _ H4) as [c Hc]. exists c. split.
  - simpl. rewrite helds_key_tokens. by rewrite <- Permutation_middle.
  - simpl. intros rid' r' [_ ?]%lookup_delete_Some. eauto.
  - intros src [?|Hsrc]%elem_of_cons; [done|]. rewrite TSrc_key_tokens in Hsrc. by apply H3.
  - by apply call_inv_quiet.
Qed.

(** ** Steps of the group of calls *)

Notation with_group g re := (set_group (g : group) (re : reserver)).

(** Another group, with tokens that the reservations do not see. *)
Lemma Inv_group re ts ts' g :
  Inv re ts -> helds ts' = helds ts -> (forall src, TSrc src ∈ ts' -> TSrc src ∈ ts) -> call_inv g (saved re) ts' ->
  Inv (with_group g re) ts'.
Proof. intros [H1 H2 H3 H4] Hh Hs Hc. split; [by rewrite Hh|done|eauto|done]. Qed.

Lemma Inv_enter_old re ts key c :
  Inv re ts -> g_m (idempotency re) !! key = Some c -> Inv (with_group (idempotency re) re) (TFor c key :: ts).
Proof.
  intros Hi Hm. apply (Inv_group re ts); [done|done|set_solver|]. destruct (inv_call _ _ Hi) as [C1 C2 C3 C4 C5 C6 C7].
  assert (Hcf : forall c' key', call_for (idempotency re) ts c' key' -> call_for (idempotency re) (TFor c key :: ts) c' key').
  { intros c' key'. apply call_for_mono. intros v Hv. eexists. by right. }
  split; [done|intros; apply (C2 c0 key0 v); set_solver|eauto| |intros; apply C5; set_solver|done|].
  - intros key' c' [[= -> ->]|?]%elem_of_cons; eauto.
  - intros r key' Hr Hk. destruct (C7 r key' Hr Hk) as (c' & ? & Hg). exists c'. split; [done|]. unfold call_gives in *. set_solver.
Qed.

Lemma Inv_enter_new re ts key :
  Inv re ts -> g_m (idempotency re) !! key = None ->
  let c := length (g_calls (idempotency re)) in
  Inv (with_group (mkGroup (<[key := c]> (g_m (idempotency re))) (g_calls (idempotency re) ++ [None])) re)
    (TCall c key None :: TKey key c :: ts).
Proof.
  intros Hi Hm c. apply (Inv_group re ts); [done|done|set_solver|]. destruct (inv_call _ _ Hi) as [C1 C2 C3 C4 C5 C6 C7].
  assert (Hlk : forall c' x, g_calls (idempotency re) !! c' = Some x -> (g_calls (idempotency re) ++ [None]) !! c' = Some x).
  { intros c' x Hx. by apply lookup_app_l_Some. }
  assert (Hcf : forall c' key', call_for (idempotency re) ts c' key' ->
    call_for (mkGroup (<[key := c]> (g_m (idempotency re))) (g_calls (idempotency re) ++ [None])) (TCall c key None :: TKey key c :: ts) c' key').
  { intros c' key' [[? [v Hv]]|(v & ? & ?)]; [left|right]; simpl; [|eauto]. split; [eauto|]. exists v. set_solver. }
  assert (Hnew : (g_calls (idempotency re) ++ [None]) !! c = Some None) by (apply list_lookup_middle; done).
  split; simpl.
  - constructor; [|done]. intros (t & Ht & Et)%list_elem_of_omap. destruct t as [| |c' key' v| |]; try done.
    injection Et as ->. destruct (C2 _ _ _ Ht) as [Hc%lookup_lt_Some _]. unfold c in Hc. lia.
  - intros c' key' v [[= -> -> ->]|[?|Hv]%elem_of_cons]%elem_of_cons; [done|done|]. destruct (C2 _ _ _ Hv). eauto.
  - intros key' c' [[<- <-]|[? ?]]%lookup_insert_Some; [|eauto]. left. split; [done|]. eexists. by left.
  - intros key' c' [?|[?|Hf]%elem_of_cons]%elem_of_cons; [done..|eauto].
  - intros key' c' [?|[[= -> ->]|Hk]%elem_of_cons]%elem_of_cons; [done|apply lookup_insert_eq|].
    rewrite lookup_insert_ne; [eauto|]. intros <-. specialize (C5 _ _ Hk). congruence.
  - constructor; [|done]. intros [(t & Ht & Et)%list_elem_of_omap|(r & Hr & Hk)%list_elem_of_omap]%elem_of_app.
    + destruct t; try done. injection Et as ->. specialize (C5 _ _ Ht). congruence.
    + destruct (C7 r key Hr Hk) as (? & ? & _). congruence.
  - intros r key' Hr Hk. destruct (C7 r key' Hr Hk) as (c' & ? & Hg). exists c'. split.
    + rewrite lookup_insert_ne; [done|]. intros <-. congruence.
    + destruct Hg as [?|?]; [left; simpl; eauto|right; set_solver].
Qed.

Lemma Inv_forget re ts key c :
  Inv re (TKey key c :: ts) -> Inv (with_group (forget key (idempotency re)) re) ts.
Proof.
  intros Hi. apply (Inv_group re (TKey key c :: ts)); [done|done|set_solver|].
  destruct (inv_call _ _ Hi) as [C1 C2 C3 C4 C5 C6 C7]. simpl in C6. apply NoDup_cons in C6 as [Hk C6].
  assert (Hcf : forall c' key', call_for (idempotency re) (TKey key c :: ts) c' key' ->
    call_for (forget key (idempotency re)) ts c' key').
  { intros c' key'. unfold call_for, forget. simpl. set_solver. }
  split; simpl.
  - done.
  - intros c' key' v Hv. apply C2. by right.
  - intros key' c' [_ ?]%lookup_delete_Some. eauto.
  - intros key' c' Hf. apply Hcf, C4. by right.
  - intros key' c' Hf. rewrite lookup_delete_ne; [apply C5; by right|]. intros <-. apply Hk, elem_of_app. left.
    apply list_elem_of_omap. exists (TKey key c'). done.
  - done.
  - intros r key' Hr Hk'. destruct (C7 r key' Hr Hk') as (c' & ? & Hg). exists c'. split.
    + rewrite lookup_delete_ne; [done|]. intros <-. apply Hk, elem_of_app. right. apply list_elem_of_omap. eauto.
    + unfold call_gives in *. simpl. set_solver.
Qed.

Lemma Inv_finish re ts key c v (v' : result rerr reservation) :
  Inv re (TCall c key v :: ts) -> (forall r, v = Some r <-> v' = Ok r) ->
  Inv (with_group (finish c v' (idempotency re)) re) ts.
Proof.
  intros Hi Hv. apply (Inv_group re (TCall c key v :: ts)); [done|done|set_solver|].
  destruct (inv_call _ _ Hi) as [C1 C2 C3 C4 C5 C6 C7]. simpl in C1. apply NoDup_cons in C1 as [Hc C1].
  destruct (C2 c key v ltac:(by left)) as [Hfl Htk].
  assert (Hne : forall c' key' w, TCall c' key' w ∈ ts -> c' <> c).
  { intros c' key' w Hin ->. apply Hc, list_elem_of_omap. eauto. }
  assert (Hset : g_calls (finish c v' (idempotency re)) !! c = Some (Some v')).
  { simpl. apply list_lookup_insert_eq. by eapply lookup_lt_Some. }
  assert (Hoth : forall c', c' <> c -> g_calls (finish c v' (idempotency re)) !! c' = g_calls (idempotency re) !! c').
  { intros c' Hn. simpl. by rewrite list_lookup_insert_ne. }
  assert (Hcf : forall c' key', call_for (idempotency re) (TCall c key v :: ts) c' key' ->
    call_for (finish c v' (idempotency re)) ts c' key').
  { intros c' key' [[? [w Hw]]|(w & Hw & ?)].
    - apply elem_of_cons in Hw as [[= -> -> ->]|Hw].
      + right. exists v'. split; [done|]. intros r Hr. apply Htk. by apply Hv.
      + left. rewrite Hoth by eauto. eauto.
    - right. exists w. rewrite Hoth; [done|]. intros ->. congruence. }
  split; [done| |eauto| |intros; apply C5; by right|done|].
  - intros c' key' w Hw. destruct (C2 c' key' w ltac:(by right)). rewrite Hoth by eauto. done.
  - intros key' c' Hf. apply Hcf, C4. by right.
  - intros r key' Hr Hk. destruct (C7 r key' Hr Hk) as (c' & ? & [Hg|Hg]); exists c'; (split; [done|]).
    + left. rewrite Hoth; [done|]. intros ->. congruence.
    + apply elem_of_cons in Hg as [[= -> -> Ev]|Hg]; [left|by right]. rewrite Hset. do 2 f_equal. by apply Hv.
Qed.
End Inv.
