(* ===== verification/ReserverTheorems.v ===== *)
(** * Theorems about the reserver

    The operations keep the invariant at each of their actions, so that it holds in every
    interleaving. *)

From Stdlib Require Import ZArith Lia.
From stdpp Require Import gmap.
From S2P Require Import Prelude Bc StateTree Snapshot Concur Idempotency Reserver ReserverProof ReserverInv.

Section Theorems.
Context {T : Type} `{StateTree T} (owner : Hash -> source).

(** [output_id] is unique in the table. *)
Definition rows_ok (e : env T) : Prop :=
  forall rows r, e_rows e = Some rows -> r ∈ rows -> owner (r_output_id r) = mkSource (r_asset_id r) (r_account_id r).

(** The answers that the operations rely on; and the counter has not come to its end. *)
Definition env_ok (e : env T) (re : reserver) : Prop :=
  range_ok e /\ tree_answers e /\ rows_ok e /\ nextReservationID re < MaxUint64.

Notation P := (prog (env T) reserver).

(** ** Calls and what they ask for *)

Inductive op :=
  | OpReserve (src : source) (amount : Z) (tk : option bytes) (exp : Z)
  | OpReserveUTXO (out : Hash) (tk : option bytes) (exp : Z)
  | OpCancel (rid : Z)
  | OpExpire.

Inductive response := RReservation (r : result rerr reservation) | RDone (r : result rerr unit).

(** A goroutine that makes one call; its value is the call with the response. *)
Definition run_op (o : op) : P (op * response) :=
  match o with
  | OpReserve src amount tk exp => r ← Reserve src amount tk exp; mret (o, RReservation r)
  | OpReserveUTXO out tk exp => r ← ReserveUTXO out tk exp; mret (o, RReservation r)
  | OpCancel rid => r ← Cancel rid; mret (o, RDone r)
  | OpExpire => r ← ExpireReservations; mret (o, RDone r)
  end.

(** Amounts are unsigned. *)
Definition op_ok (o : op) : Prop := match o with OpReserve _ amount _ _ => 0 <= amount | _ => True end.

Definition op_token (o : op) : option bytes :=
  match o with OpReserve _ _ tk _ | OpReserveUTXO _ tk _ => tk | _ => None end.

(** The outputs are of the source, and none is there twice. *)
Definition good_utxos (src : source) (us : list utxo) : Prop :=
  NoDup (oids us) /\ forall u, u ∈ us -> utxo_source u = src.

(** What a request of an amount must get: outputs of the source that make up the amount
    and the change.  The code adds in [uint64]; the sum is exact for requests and outputs
    in the range of [int64], which is the range of the amounts of a transaction. *)
Definition reserved_for (src : source) (amount exp : Z) (res : reservation) : Prop :=
  res_Source res = src /\ res_Expiry res = exp /\ good_utxos src (res_UTXOs res) /\
  0 <= res_Change res /\ uint64 (amounts (res_UTXOs res)) = amount + res_Change res /\
  (amount <= MaxInt64 -> small_amounts (res_UTXOs res) -> amounts (res_UTXOs res) = amount + res_Change res).

(** What a request of one output must get. *)
Definition reserved_output (out : Hash) (exp : Z) (res : reservation) : Prop :=
  res_Expiry res = exp /\ res_Change res = 0 /\ res_Source res = owner out /\
  exists u, res_UTXOs res = [u] /\ u_OutputID u = out /\ utxo_source u = owner out.

(** The reservation is what the call asks for. *)
Definition answers (o : op) (res : reservation) : Prop :=
  match o with
  | OpReserve src amount _ exp => reserved_for src amount exp res
  | OpReserveUTXO out _ exp => reserved_output out exp res
  | _ => False
  end.

(** The calls that are made. *)
Context (asked : op -> Prop).

(** The reservation is what a call that is made with this client token asks for. *)
Definition Fits (key : bytes) (res : reservation) : Prop :=
  exists o, asked o /\ op_token o = Some key /\ answers o res.

Definition client (p : P (op * response)) : Prop := exists o, op_ok o /\ asked o /\ p = run_op o.

(** What a client gets.  Without a token it is what it asks for; with a token it is a
    reservation for that token, and what some call with this token asks for. *)
Definition answered (x : op * response) : Prop :=
  match x with
  | (o, RReservation (Ok res)) =>
      res_ClientToken res = op_token o /\
      match op_token o with None => answers o res | Some tk => Fits tk res end
  | _ => True
  end.

(** Whoever makes the reservation for the token, it is what a call with the token asks for. *)
Definition fit (tk : option bytes) (post : reservation -> Prop) : Prop :=
  forall key res, tk = Some key -> post res -> Fits key res.

Notation Inv := (Inv owner Fits).
Notation WP p h Q := (wp env_ok Inv idle p h Q).

(** ** Actions *)

Lemma wp_re_source src h (Q : unit -> list token -> Prop) : Q tt (TSrc src :: h) -> WP (re_source src) h Q.
Proof.
  intros HQ. apply wp_atomic. intros e re fr _ Hi. exists (TSrc src :: h).
  pose proof (Inv_re_source owner Fits re (h ++ fr) src Hi) as Hi'. by destruct (sources re !! src).
Qed.

Lemma wp_on_source {A} src (f : env T -> sourceReserver -> sourceReserver * option A) h (Q : A -> list token -> Prop) :
  TSrc src ∈ h ->
  (forall e re sr fr, env_ok e re -> Inv re (h ++ fr) -> sources re !! src = Some sr ->
     exists sr' a h', f e sr = (sr', Some a) /\ Inv (set_source src sr' re) (h' ++ fr) /\ Q a h') ->
  WP (on_source src f) h Q.
Proof.
  intros Hs Hf. unfold on_source, atomic_or_panic. apply conc_bind, wp_atomic. intros e re fr He Hi.
  destruct (inv_src _ _ _ _ Hi src ltac:(apply elem_of_app; by left)) as [sr Hsr]. rewrite Hsr.
  destruct (Hf e re sr fr He Hi Hsr) as (sr' & a & h' & -> & Hi' & HQ). exists h'. done.
Qed.

Lemma wp_read_env {A} (f : env T -> A) h (Q : A -> list token -> Prop) :
  (forall e re, env_ok e re -> Q (f e) h) -> WP (read_env f) h Q.
Proof. apply wp_read. Qed.

(** ** One source *)

Lemma matching_source src h e us u :
  rows_ok e -> findMatchingUTXOs src h e = Ok us -> u ∈ us -> utxo_source u = src /\ owner (u_OutputID u) = src.
Proof.
  unfold findMatchingUTXOs. intros Hr E Hu. destruct (e_rows e) as [rows|] eqn:Er; [|done]. injection E as <-.
  apply list_elem_of_fmap in Hu as (r & -> & [(Ea & Es & _) Hin]%list_elem_of_filter). destruct src as [a acc].
  split; [done|]. simpl in *. rewrite (Hr rows r Er Hin). by rewrite Ea, Es.
Qed.

Lemma wf_source_add src cur us sr :
  wf_source owner src sr -> (forall u, u ∈ us -> utxo_source u = src /\ owner (u_OutputID u) = src) ->
  wf_source owner src (add_cached cur us sr).
Proof.
  intros Hw Hu. unfold wf_source, add_cached in *; simpl. generalize dependent (cached sr). clear sr.
  induction us as [|u us IH]; intros m Hw; simpl; [done|]. apply IH; [intros; apply Hu; by right|].
  intros o v [[<- <-]|[_ ?]]%lookup_insert_Some; [|eauto]. split; [done|]. apply Hu. by left.
Qed.

Lemma wp_refillCache src h (Q : result rerr unit -> list token -> Prop) :
  TSrc src ∈ h -> (forall r, Q r h) -> WP (refillCache src) h Q.
Proof.
  intros Hs HQ. unfold refillCache. apply conc_bind, wp_on_source; [done|]. intros e re sr fr He Hi Hsr.
  exists sr, (lastHeight sr), h. split; [done|]. split.
  { apply (Inv_set_source owner Fits re _ src sr); [done..|]. by apply (ri_sources _ _ _ _ (inv_res _ _ _ _ Hi)). }
  apply conc_bind, wp_read_env. intros e1 re1 _. destruct (_ <=? _); [apply HQ|].
  apply conc_bind, wp_read_env. intros e2 re2 (_ & _ & Hrows & _).
  destruct (findMatchingUTXOs src (lastHeight sr) e2) as [us|err] eqn:Eu; [|apply HQ].
  apply conc_bind, wp_on_source; [done|]. intros e3 re3 sr3 fr3 _ Hi3 Hsr3. eexists _, tt, h. split; [done|].
  split; [|apply HQ]. apply (Inv_set_source owner Fits re3 _ src sr3); [done..|]. apply wf_source_add.
  - by apply (ri_sources _ _ _ _ (inv_res _ _ _ _ Hi3)).
  - intros u Hu. by eapply matching_source.
Qed.

Lemma available_facts src (sr : sourceReserver) e us :
  wf_source owner src sr -> range_ok e ->
  us `prefix_of` filter (available e sr) (e_range_cached e (cached sr)).*2 ->
  NoDup (oids us) /\
  forall u, u ∈ us -> reserved sr !! u_OutputID u = None /\ utxo_source u = src /\ owner (u_OutputID u) = src.
Proof.
  intros Hw Hr [k Hk]. pose proof (range_values e (cached sr) Hr) as Hv.
  assert (Hin : forall u, u ∈ us -> available e sr u /\ cached sr !! u_OutputID u = Some u).
  { intros u Hu. assert (Hf : u ∈ filter (available e sr) (e_range_cached e (cached sr)).*2) by (rewrite Hk; apply elem_of_app; by left).
    apply list_elem_of_filter in Hf as [Ha Hf]. split; [done|]. rewrite Hv in Hf.
    apply list_elem_of_fmap in Hf as ([o u'] & -> & Hm%elem_of_map_to_list). simpl in *.
    by destruct (Hw _ _ Hm) as [-> _]. }
  split.
  - assert (Hnd : NoDup (oids (e_range_cached e (cached sr)).*2)).
    { unfold oids. rewrite <- list_fmap_compose. rewrite (list_fmap_ext _ fst).
      - rewrite (proj1 Hr (cached sr)). apply NoDup_fst_map_to_list.
      - intros i [o u] Hi. apply list_elem_of_lookup_2 in Hi. rewrite (proj1 Hr (cached sr)) in Hi.
        apply elem_of_map_to_list in Hi. by apply (Hw o u). }
    eapply sublist_NoDup; [exact Hnd|]. unfold oids. apply fmap_sublist.
    etrans; [|apply (sublist_filter (available e sr))]. rewrite Hk. apply sublist_inserts_r. done.
  - intros u Hu. destruct (Hin u Hu) as [[? _] Hc]. split; [done|]. by apply Hw in Hc as (_ & ? & ?).
Qed.

(** ** Making a reservation *)

Notation idles h := (Forall (fun t => idle t = true) h).

Lemma wp_reserveFromCache src rid amount (mk : list utxo -> Z -> reservation) r0 h0
    (Q : result rerr (list utxo * Z) -> list token -> Prop) :
  TSrc src ∈ h0 -> res_ID r0 = rid -> res_UTXOs r0 = [] ->
  (forall us total, res_ID (mk us total) = rid /\ res_Source (mk us total) = src /\ res_UTXOs (mk us total) = us) ->
  (forall us total, good_utxos src us -> total = uint64 (amounts us) -> amount <= total ->
     (amount <= MaxInt64 -> small_amounts us -> total = amounts us) ->
     Q (Ok (us, total)) (THeld (mk us total) :: h0)) ->
  (forall err, Q (Err err) (THeld r0 :: h0)) ->
  WP (on_source src (fun e sr => reserveFromCache e rid amount sr)) (THeld r0 :: h0) Q.
Proof.
  intros Hs Hid H0 Hmk HOk HErr. apply wp_on_source; [by right|]. intros e re sr fr (Hr & Ht & _ & _) Hi Hsr.
  destruct (reserveFromCache_cases e rid amount sr Ht) as (c & r & -> & Hc & Hres).
  pose proof (ri_sources _ _ _ _ (inv_res _ _ _ _ Hi) _ _ Hsr) as Hw.
  assert (Hw' : forall m, wf_source owner src (mkSourceReserver (sr_src sr) c m (lastHeight sr))).
  { intros m o u Ho. apply (Hw o u). by eapply lookup_weaken. }
  destruct r as [[us total]|err].
  - destruct Hres as (Hp & Ht' & Hle & Hex). destruct (available_facts src sr e us Hw Hr Hp) as [Hnd Hu].
    destruct (Hmk us total) as (Eid & Es & Eu). eexists _, _, (THeld (mk us total) :: h0). split; [done|]. split.
    + cbn [app] in *. rewrite <- Es. apply (Inv_mark owner Fits re _ r0 (mk us total) sr); rewrite ?Es, ?Eu, ?Eid; done.
    + apply HOk; [|done..]. split; [done|]. intros u Hin. by apply Hu.
  - eexists _, _, (THeld r0 :: h0). split; [done|]. split; [|apply HErr]. by apply (Inv_set_source owner Fits re _ src sr).
Qed.

(** A reservation of the client token was made, or none. *)
Definition made (tk : option bytes) (c : nat) (post : reservation -> Prop) (r : result rerr reservation) (h : list token) : Prop :=
  match r with
  | Ok res => (exists l, idles l /\ h = call_tokens tk c (Some res) ++ l) /\ res_ClientToken res = tk /\ post res
  | Err _ => exists l, idles l /\ h = l ++ key_tokens tk c ++ call_tokens tk c None
  end.

Lemma wp_next_rid (r : Z -> reservation) h (Q : Z -> list token -> Prop) :
  (forall rid, res_ID (r rid) = rid /\ res_UTXOs (r rid) = []) -> (forall rid, Q rid (THeld (r rid) :: h)) ->
  WP next_rid h Q.
Proof.
  intros Hr HQ. apply wp_atomic. intros e re fr (_ & _ & _ & Hmax) Hi. cbn [fst snd].
  set (rid := uint64 (nextReservationID re + 1)). exists (THeld (r rid) :: h). split; [|apply HQ].
  pose proof (ri_next _ _ _ _ (inv_res _ _ _ _ Hi)) as [? _]. apply (Inv_next owner Fits); [done|done| |apply Hr].
  rewrite (proj1 (Hr rid)). unfold rid. apply uint64_id. lia.
Qed.

Lemma wp_save r c src h (Q : unit -> list token -> Prop) :
  (forall key, res_ClientToken r = Some key -> Fits key r) ->
  h = THeld r :: TSrc src :: key_tokens (res_ClientToken r) c ++ call_tokens (res_ClientToken r) c None ->
  Q tt (call_tokens (res_ClientToken r) c (Some r) ++ [TSrc src]) -> WP (save_reservation r) h Q.
Proof.
  intros Hfit -> HQ. apply wp_atomic. intros e re fr _ Hi. exists (call_tokens (res_ClientToken r) c (Some r) ++ [TSrc src]).
  split; [|done]. rewrite <- app_assoc. apply Inv_save; [done|]. eapply Inv_perm; [|exact Hi]. simpl. f_equiv.
  rewrite <- app_assoc. cbn [app]. by rewrite !Permutation_middle.
Qed.

Lemma wp_reserve src amount tk exp c :
  0 <= amount -> fit tk (reserved_for src amount exp) ->
  WP (reserve src amount tk exp) (key_tokens tk c ++ call_tokens tk c None) (made tk c (reserved_for src amount exp)).
Proof.
  intros Ha Hfit. unfold reserve. apply conc_bind, wp_re_source. set (kt := key_tokens tk c ++ call_tokens tk c None).
  set (mk0 := fun rid => mkReservation rid src [] 0 exp tk).
  apply conc_bind, (wp_next_rid mk0); [done|]. intros rid.
  set (mk := fun us total => mkReservation rid src us (if amount <? total then uint64 (total - amount) else 0) exp tk).
  assert (Hfail : forall err, made tk c (reserved_for src amount exp) (Err err) (THeld (mk0 rid) :: TSrc src :: kt)).
  { intros err. exists [THeld (mk0 rid); TSrc src]. split; [repeat constructor|done]. }
  assert (Hres : forall us total, good_utxos src us -> total = uint64 (amounts us) -> amount <= total ->
    (amount <= MaxInt64 -> small_amounts us -> total = amounts us) -> reserved_for src amount exp (mk us total)).
  { intros us total Hg -> Hle Hex. pose proof (uint64_range (amounts us)).
    assert (Hch : res_Change (mk us (uint64 (amounts us))) = uint64 (amounts us) - amount).
    { simpl. destruct (Z.ltb_spec amount (uint64 (amounts us))); [apply uint64_id|]; lia. }
    unfold reserved_for. rewrite Hch. split_and!; try done; [apply Hg..|lia|simpl; lia|].
    intros H1 H2. specialize (Hex H1 H2). simpl in *. lia. }
  assert (Hok : forall us total, good_utxos src us -> total = uint64 (amounts us) -> amount <= total ->
    (amount <= MaxInt64 -> small_amounts us -> total = amounts us) ->
    WP (save_reservation (mk us total);; mret (Ok (mk us total))) (THeld (mk us total) :: TSrc src :: kt)
      (made tk c (reserved_for src amount exp))).
  { intros us total Hg Et Hle Hex. pose proof (Hres us total Hg Et Hle Hex) as Hr.
    apply conc_bind, (wp_save _ c src); [intros key Ek; by apply Hfit|done|].
    split; [exists [TSrc src]; split; [repeat constructor|done]|]. done. }
  apply conc_bind. unfold source_reserve. apply conc_bind, (wp_reserveFromCache src rid amount mk); [by left|done..| |].
  - intros us total ? ? ? ?. by apply Hok.
  - intros err. apply conc_bind, wp_refillCache; [by right; left|]. intros [_|err']; [|apply Hfail].
    apply (wp_reserveFromCache src rid amount mk); [by left|done..| |].
    + intros us total ? ? ? ?. by apply Hok.
    + intros err'. apply Hfail.
Qed.

Lemma specific_source out e u :
  rows_ok e -> findSpecificUTXO out e = Ok u -> u_OutputID u = out /\ utxo_source u = owner out.
Proof.
  unfold findSpecificUTXO. intros Hr E. destruct (e_rows e) as [rows|] eqn:Er; [|done].
  destruct (filter (fun r => r_output_id r = out) rows) as [|r rs] eqn:Ef; [done|]. injection E as <-. split; [done|].
  assert (Hin : r ∈ filter (fun r => r_output_id r = out) rows) by (rewrite Ef; by left).
  apply list_elem_of_filter in Hin as [<- Hin]. by rewrite (Hr rows r Er Hin).
Qed.

Lemma wp_reserveUTXO out exp tk c :
  fit tk (reserved_output out exp) ->
  WP (reserveUTXO out exp tk) (key_tokens tk c ++ call_tokens tk c None) (made tk c (reserved_output out exp)).
Proof.
  intros Hfit. unfold reserveUTXO. set (kt := key_tokens tk c ++ call_tokens tk c None).
  assert (Hno : forall err, made tk c (reserved_output out exp) (Err err) kt) by (intros; by exists []).
  apply conc_bind, wp_read_env. intros e re (_ & _ & Hrows & _). destruct (findSpecificUTXO out e) as [u|err] eqn:Eu; [|apply Hno].
  destruct (specific_source out e u Hrows Eu) as [Eo Es].
  apply conc_bind, wp_read_env. intros e1 re1 (_ & Ht & _). specialize (Ht u). destruct (checkUTXO e1 u) as [[|]|]; [|apply Hno|done].
  set (mk0 := fun rid => mkReservation rid (utxo_source u) [] 0 exp tk). apply conc_bind, (wp_next_rid mk0); [done|]. intros rid.
  apply conc_bind, wp_re_source. set (res := mkReservation rid (utxo_source u) [u] 0 exp tk).
  apply conc_bind, wp_on_source; [by left|]. intros e2 re2 sr fr _ Hi Hsr. unfold source_reserveUTXO.
  pose proof (ri_sources _ _ _ _ (inv_res _ _ _ _ Hi) _ _ Hsr) as Hw.
  destruct (reserved sr !! u_OutputID u) as [?|] eqn:Ho.
  - eexists _, _, _. split; [done|]. split; [by apply (Inv_set_source owner Fits re2 _ _ sr)|].
    exists [TSrc (utxo_source u); THeld (mk0 rid)]. split; [repeat constructor|done].
  - eexists _, _, (THeld res :: TSrc (utxo_source u) :: kt). split; [done|]. split.
    + apply (Inv_mark owner Fits re2 (TSrc (utxo_source u) :: kt ++ fr) (mk0 rid) res sr); [|done..| |].
      * eapply Inv_perm; [|exact Hi]. apply perm_swap.
      * by repeat constructor; apply not_elem_of_nil.
      * intros v ->%list_elem_of_singleton. repeat split; [done..|]. by rewrite Eo.
    + assert (Hr : reserved_output out exp res) by (repeat split; [done|by exists u]).
      apply conc_bind, (wp_save _ c (utxo_source u)); [intros key Ek; by apply Hfit|done|].
      split; [exists [TSrc (utxo_source u)]; split; [repeat constructor|done]|]. done.
Qed.

(** ** Calls *)

Lemma wp_on_group {B} (f : Group rerr reservation -> Group rerr reservation * B) h (Q : B -> list token -> Prop) :
  (forall re fr, Inv re (h ++ fr) ->
     exists h', Inv (set_group (f (idempotency re)).1 re) (h' ++ fr) /\ Q (f (idempotency re)).2 h') ->
  WP (on_group f) h Q.
Proof.
  intros Hf. apply wp_atomic. intros e re fr _ Hi. destruct (Hf re fr Hi) as (h' & ? & ?). exists h'.
  simpl. by destruct (f (idempotency re)).
Qed.

Lemma wp_Forget key c h h0 (Q : unit -> list token -> Prop) : h ≡ₚ TKey key c :: h0 -> Q tt h0 -> WP (Forget key) h Q.
Proof. intros Hp HQ. apply wp_on_group. intros re fr Hi. rewrite Hp in Hi. exists h0. split; [|done]. by eapply Inv_forget. Qed.

Lemma wp_finish c key v (v' : result rerr reservation) h h0 (Q : unit -> list token -> Prop) :
  h ≡ₚ TCall c key v :: h0 -> (forall r, v = Some r <-> v' = Ok r) -> Q tt h0 ->
  WP (on_group (fun g => (finish c v' g, tt))) h Q.
Proof. intros Hp Hv HQ. apply wp_on_group. intros re fr Hi. rewrite Hp in Hi. exists h0. split; [|done]. by eapply Inv_finish. Qed.

(** The result is of the key, whoever made the call. *)
Definition of_key (key : bytes) (r : result rerr reservation) (h : list token) : Prop :=
  idles h /\ forall res, r = Ok res -> keyed Fits key res.

Lemma wp_wg_Wait c key : WP (wg_Wait c) [TFor c key] (of_key key).
Proof.
  intros e re fr _ Hi. cbn. destruct (ci_for _ _ _ _ (inv_call _ _ _ _ Hi) key c ltac:(by left)) as [[Ec [v Hv]]|(v & Ec & Hr)];
    rewrite Ec; cbn.
  - split; [by repeat constructor|]. intros Hid. apply elem_of_cons in Hv as [?|Hv]; [done|].
    rewrite Forall_forall in Hid. by specialize (Hid _ Hv).
  - exists [TFor c key]. split; [done|]. split; [by repeat constructor|done].
Qed.

Lemma wp_Once key fn post :
  fit (Some key) post ->
  (forall c, WP fn (key_tokens (Some key) c ++ call_tokens (Some key) c None) (made (Some key) c post)) ->
  WP (Once key fn) [] (of_key key).
Proof.
  intros Hfit Hfn. unfold Once. apply conc_bind, wp_on_group. intros re fr Hi. unfold enter.
  destruct (g_m (idempotency re) !! key) as [c|] eqn:Em.
  - exists [TFor c key]. split; [by apply Inv_enter_old|apply wp_wg_Wait].
  - set (c := length (g_calls (idempotency re))). exists [TKey key c; TCall c key None]. split.
    + cbn [fst]. eapply Inv_perm; [apply perm_swap|]. by apply Inv_enter_new.
    + cbn [snd]. unfold make_call. apply conc_bind. eapply conc_mono; [|apply Hfn]. intros [res|err] h.
      * intros [(l & Hl & ->) [Hk Hpost]]. apply conc_bind, conc_ret, conc_bind. apply (wp_finish c key (Some res) _ _ l); [done|intros r; split; congruence|].
        split; [done|]. intros r [= <-]. split; [done|]. by apply Hfit.
      * intros (l & Hl & ->). apply conc_bind. eapply (wp_Forget key c); [symmetry; apply Permutation_middle|].
        apply conc_bind. eapply wp_finish; [symmetry; apply Permutation_middle|done|]. rewrite app_nil_r. split; done.
Qed.

(** ** Taking reservations back *)

Definition release_tokens (rc : reservation * nat) : list token := THeld rc.1 :: key_tokens (res_ClientToken rc.1) rc.2.

Lemma wp_release r c h0 :
  WP (release r) (release_tokens (r, c) ++ h0) (fun _ h => exists l, idles l /\ h = l ++ h0).
Proof.
  unfold release, release_tokens. cbn [fst snd]. apply conc_bind, wp_re_source.
  apply conc_bind, wp_on_source; [by left|]. intros e re sr fr _ Hi Hsr.
  eexists _, tt, (TSrc (res_Source r) :: key_tokens (res_ClientToken r) c ++ h0). split; [done|]. split.
  - apply Inv_cancel; [|done]. eapply Inv_perm; [|exact Hi]. apply perm_swap.
  - destruct (res_ClientToken r) as [key|]; cbn [key_tokens app].
    + apply (wp_Forget key c _ (TSrc (res_Source r) :: h0)); [apply perm_swap|]. exists [TSrc (res_Source r)]. by repeat constructor.
    + apply conc_ret. exists [TSrc (res_Source r)]. by repeat constructor.
Qed.

Lemma wp_release_all rcs h0 :
  idles h0 -> WP (release_all rcs.*1) (concat (release_tokens <$> rcs) ++ h0) (fun _ h => idles h).
Proof.
  revert h0. induction rcs as [|[r c] rcs IH]; intros h0 Hh; cbn [release_all concat fmap list_fmap]; [done|].
  rewrite <- app_assoc. apply conc_bind. eapply conc_mono; [|apply wp_release]. intros _ h (l & Hl & ->).
  eapply wp_perm; [apply _| | |apply (IH (l ++ h0)), Forall_app; done].
  - intros _ h1 h2 Hp. by rewrite Hp.
  - rewrite !app_assoc. f_equiv. apply Permutation_app_comm.
Qed.

Lemma wp_Cancel rid : WP (Cancel rid) [] (fun _ h => idles h).
Proof.
  unfold Cancel. apply conc_bind, wp_atomic. intros e re fr _ Hi. cbn [fst snd]. destruct (reservations re !! rid) as [r|] eqn:Er.
  - destruct (Inv_remove owner Fits re fr rid r Hi Er) as [c Hc]. exists (release_tokens (r, c) ++ []). split; [by rewrite app_nil_r|].
    apply conc_bind. eapply conc_mono; [|apply wp_release]. intros _ h (l & Hl & ->). rewrite app_nil_r. done.
  - exists []. split; [|apply conc_ret; constructor]. rewrite delete_id by done. by destruct re.
Qed.

Lemma Inv_remove_all l : forall re ts,
  NoDup l.*1 -> (forall p, p ∈ l -> reservations re !! p.1 = Some p.2) -> Inv re ts ->
  exists rcs, rcs.*1 = l.*2 /\
    Inv (set_reservations (foldl (fun m p => delete p.1 m) (reservations re) l) re) (concat (release_tokens <$> rcs) ++ ts).
Proof.
  induction l as [|[rid r] l IH]; intros re ts Hnd Hl Hi; simpl in *.
  - exists []. split; [done|]. by destruct re.
  - apply NoDup_cons in Hnd as [Hn Hnd]. destruct (Inv_remove owner Fits re ts rid r Hi (Hl (rid, r) ltac:(by left))) as [c Hc].
    destruct (fun H => IH (set_reservations (delete rid (reservations re)) re) _ Hnd H Hc) as (rcs & E & Hc').
    { intros [rid' r'] Hp. simpl. rewrite lookup_delete_ne; [apply (Hl (rid', r')); by right|].
      intros ->. apply Hn. by apply (list_elem_of_fmap_2 fst) in Hp. }
    exists ((r, c) :: rcs). split; [simpl; by f_equal|]. eapply Inv_perm; [|exact Hc']. cbn [fmap list_fmap concat].
    rewrite <- app_assoc. symmetry. apply (Permutation_app_swap_app (concat _) (THeld r :: key_tokens (res_ClientToken r) c) ts).
Qed.

Lemma wp_ExpireReservations : WP ExpireReservations [] (fun _ h => idles h).
Proof.
  unfold ExpireReservations. apply conc_bind, wp_read_env. intros e0 re0 _. apply conc_bind, wp_atomic.
  intros e re fr ((_ & Hr) & _) Hi. cbn [fst snd]. set (l := filter _ _).
  assert (Hl : NoDup l.*1 /\ forall p, p ∈ l -> reservations re !! p.1 = Some p.2).
  { split.
    - eapply sublist_NoDup; [|apply fmap_sublist, (sublist_filter (expired (e_now e0)))].
      rewrite (Hr (reservations re)). apply NoDup_fst_map_to_list.
    - intros [rid r] [_ Hin]%list_elem_of_filter. rewrite (Hr (reservations re)) in Hin. by apply elem_of_map_to_list in Hin. }
  destruct (Inv_remove_all l re fr (proj1 Hl) (proj2 Hl) Hi) as (rcs & E & Hi').
  exists (concat (release_tokens <$> rcs) ++ []). split; [by rewrite app_nil_r|]. rewrite <- E.
  apply conc_bind. eapply conc_mono; [|by apply wp_release_all]. intros b h Hh. by apply conc_ret.
Qed.

(** ** Clients *)

Lemma made_none post r h : made None 0 post r h -> idles h /\ forall res, r = Ok res -> res_ClientToken res = None /\ post res.
Proof.
  destruct r as [res|err]; simpl.
  - intros [(l & Hl & ->) [Hk Hp]]. split; [done|]. by intros ? [= <-].
  - intros (l & Hl & ->). by rewrite app_nil_r.
Qed.

(** A call that is made fits itself. *)
Lemma asked_fit o : asked o -> fit (op_token o) (answers o).
Proof. intros Ho key res Hk Ha. by exists o. Qed.

Lemma answered_token o tk r h :
  op_token o = Some tk -> of_key tk r h -> done_with idle answered (o, RReservation r) h.
Proof.
  intros Ho [Hh Hr]. split; [done|]. destruct r as [res|]; [|done]. simpl. destruct (Hr res eq_refl). by rewrite Ho.
Qed.

Lemma answered_none o r h :
  op_token o = None -> made None 0 (answers o) r h -> done_with idle answered (o, RReservation r) h.
Proof.
  intros Ho [Hh Hr]%made_none. split; [done|]. destruct r as [res|]; [|done]. simpl. destruct (Hr res eq_refl). by rewrite Ho.
Qed.

Lemma wp_client p : client p -> WP p [] (done_with idle answered).
Proof.
  intros (o & Ho & Has & ->). pose proof (asked_fit o Has) as Hfit.
  destruct o as [src amount tk exp|out tk exp|rid|]; unfold run_op; apply conc_bind; [destruct tk as [tk|]..| |].
  - eapply conc_mono; [|apply (wp_Once tk _ (reserved_for src amount exp) Hfit); intros; by apply wp_reserve].
    intros r h Hr. apply conc_ret. by apply (answered_token _ tk).
  - eapply conc_mono; [|by apply (wp_reserve src amount None exp 0)]. intros r h Hr. apply conc_ret. by apply answered_none.
  - eapply conc_mono; [|apply (wp_Once tk _ (reserved_output out exp) Hfit); intros; by apply wp_reserveUTXO].
    intros r h Hr. apply conc_ret. by apply (answered_token _ tk).
  - eapply conc_mono; [|by apply (wp_reserveUTXO out exp None 0)]. intros r h Hr. apply conc_ret. by apply answered_none.
  - eapply conc_mono; [|apply wp_Cancel]. intros r h Hh. apply conc_ret. done.
  - eapply conc_mono; [|apply wp_ExpireReservations]. intros r h Hh. apply conc_ret. done.
Qed.

(** ** What holds in every interleaving *)

Definition reached (c : reserver * list (P (op * response))) : Prop := rtc (pool_step env_ok client) (newReserver, []) c.

Lemma Inv_new : Inv newReserver [].
Proof.
  assert (Hs : saved newReserver = []) by done.
  split; [split| | |split]; rewrite ?Hs; simpl; try (by constructor); try (split; [done|]); intros;
    match goal with
    | Hx : _ ∈ [] |- _ => by apply not_elem_of_nil in Hx
    | Hx : _ !! _ = Some _ |- _ => by rewrite lookup_empty in Hx
    end.
Qed.

Lemma reached_ok c : reached c -> exists hs, pool_ok env_ok (Inv) idle answered c hs.
Proof.
  intros Hc. eapply (pool_ok_steps _ _ _ _ _ (newReserver, []) c []); [apply wp_client| |exact Hc].
  split; [apply Inv_new|constructor].
Qed.

Lemma saved_lookup re rid r : reservations re !! rid = Some r -> r ∈ saved re.
Proof. intros Hr. apply (list_elem_of_fmap_2 snd _ (rid, r)). by apply elem_of_map_to_list. Qed.

(** Two reservations with one output are one. *)
Lemma Inv_disjoint re ts rid1 rid2 r1 r2 o :
  Inv re ts -> reservations re !! rid1 = Some r1 -> reservations re !! rid2 = Some r2 ->
  o ∈ oids (res_UTXOs r1) -> o ∈ oids (res_UTXOs r2) -> rid1 = rid2.
Proof.
  intros Hi H1 H2 (u & -> & Hu)%list_elem_of_fmap (v & Eo & Hv)%list_elem_of_fmap.
  pose proof (inv_res _ _ _ _ Hi) as Hr.
  destruct (ri_owned _ _ _ _ Hr r1) as [_ Ho1]; [apply elem_of_app; left; by eapply saved_lookup|].
  destruct (ri_owned _ _ _ _ Hr r2) as [_ Ho2]; [apply elem_of_app; left; by eapply saved_lookup|].
  destruct (Ho1 u Hu) as (_ & Es1 & sr1 & Hs1 & Hm1), (Ho2 v Hv) as (_ & Es2 & sr2 & Hs2 & Hm2).
  rewrite Eo in *. rewrite <- Es1 in Hs1. rewrite <- Es2 in Hs2.
  rewrite <- (inv_table _ _ _ _ Hi _ _ H1), <- (inv_table _ _ _ _ Hi _ _ H2). congruence.
Qed.

(** C11: Whatever the interleaving of calls by any number of clients, with the chain, the
    index and the clock moving in between: no output is in two reservations that stand, no
    call panics, and a call that reserves gets what it asks for.  That is distinct outputs
    of its account and asset whose sum is the amount and the change, exactly if the amount
    asked for and the amounts of these outputs are in the range of [int64] and modulo 2^64,
    as the code adds, if not; or the output it names.  A call with a client token gets a
    reservation for that token that is, in the same sense, what a call with this token asks
    for: its own if all calls with the token ask for the same. *)
Theorem reserver_safe re ps :
  reached (re, ps) ->
  (forall rid1 rid2 r1 r2 o, reservations re !! rid1 = Some r1 -> reservations re !! rid2 = Some r2 ->
     o ∈ oids (res_UTXOs r1) -> o ∈ oids (res_UTXOs r2) -> rid1 = rid2) /\
  (forall i, ps !! i <> Some Panic) /\ (forall i x, ps !! i = Some (Ret x) -> answered x).
Proof.
  intros [hs Hok]%reached_ok. split; [|split].
  - intros rid1 rid2 r1 r2 o. apply (Inv_disjoint re (concat hs)), Hok.
  - intros i. by eapply (pool_ok_no_panic _ _ _ _ (re, ps)).
  - intros i x. by eapply (pool_ok_result _ _ _ _ (re, ps)).
Qed.

(** While a reservation for a client token stands, it is the only one for the token,
    and another call with the token changes nothing and waits for a call whose result,
    when it is there, is this reservation. *)
Lemma client_token_once re ps rid r tk :
  reached (re, ps) -> reservations re !! rid = Some r -> res_ClientToken r = Some tk ->
  (forall rid' r', reservations re !! rid' = Some r' -> res_ClientToken r' = Some tk -> rid' = rid) /\
  exists c, (forall v, g_calls (idempotency re) !! c = Some (Some v) -> v = Ok r) /\
    forall src amount exp, exists g, Reserve (T := T) src amount (Some tk) exp = Act g /\
      forall e, g e re = Some (re, wg_Wait c).
Proof.
  intros [hs [Hi _]]%reached_ok Hr Htk. simpl in Hi. pose proof (inv_call _ _ _ _ Hi) as [C1 C2 C3 C4 C5 C6 C7]. split.
  - intros rid' r' Hr' Htk'. apply NoDup_app in C6 as (_ & _ & C6). destruct (decide (rid' = rid)) as [|Hn]; [done|exfalso].
    assert (Hp : saved re ≡ₚ r :: r' :: (map_to_list (delete rid' (delete rid (reservations re)))).*2).
    { unfold saved. rewrite <- (map_to_list_delete _ _ _ Hr). simpl. f_equiv.
      rewrite <- (map_to_list_delete _ rid' r'); [done|]. by rewrite lookup_delete_ne. }
    rewrite Hp in C6. simpl in C6. rewrite Htk, Htk' in C6. apply NoDup_cons in C6 as [C6 _]. apply C6. by left.
  - destruct (C7 r tk (saved_lookup _ _ _ Hr) Htk) as (c & Hm & Hg). exists c. split.
    + intros v Hv. destruct Hg as [Hg|Hg%C2]; [congruence|]. destruct Hg. congruence.
    + intros src amount exp. eexists. split; [reflexivity|]. intros e. simpl. unfold enter. rewrite Hm. by destruct re.
Qed.

(** C12: The calls of the clients end.  No sequence of actions is endless, and as long as
    a call has not ended some action is possible.  When all have ended, every output
    that is marked as reserved is in a reservation that can be canceled: none is lost. *)
Theorem reserver_ends re ps e :
  reached (re, ps) -> env_ok e re ->
  Acc (flip (pool_act env_ok)) (re, ps) /\
  (Forall ended ps \/ exists c, pool_act env_ok (re, ps) c) /\
  (Forall ended ps -> forall src sr o rid, sources re !! src = Some sr -> reserved sr !! o = Some rid ->
     exists r, reservations re !! rid = Some r /\ o ∈ oids (res_UTXOs r)).
Proof.
  intros [hs Hok]%reached_ok He. split; [apply pool_act_wf|]. split; [by apply (pool_ok_progress _ (Inv) idle answered (re, ps) hs e)|].
  intros Hend src sr o rid Hs Ho. pose proof (pool_ok_tokens _ _ _ _ _ _ Hok Hend) as Hid. destruct Hok as [Hi _]. simpl in Hi.
  destruct (ri_known _ _ _ _ (inv_res _ _ _ _ Hi) _ _ _ _ Hs Ho) as (r & [Hin|Hin]%elem_of_app & _ & <- & Hin').
  - apply list_elem_of_fmap in Hin as ([rid r'] & -> & Hin%elem_of_map_to_list). exists r'. split; [|done].
    simpl. by rewrite (inv_table _ _ _ _ Hi _ _ Hin).
  - apply list_elem_of_omap in Hin as (t & Ht & Et). destruct t; try done. injection Et as ->.
    rewrite Forall_forall in Hid. specialize (Hid _ Ht). simpl in Hid. apply bool_decide_eq_true in Hid.
    rewrite Hid in Hin'. by apply not_elem_of_nil in Hin'.
Qed.
End Theorems.
