(* ===== verification/ReserverRuns.v ===== *)
(** * Runs of the reserver

    Concrete interleavings over a tree with three outputs: the theorems at work, and two
    departures from what the comments promise. *)

From Stdlib Require Import ZArith Lia Strings.Byte.
From stdpp Require Import gmap.
From S2P Require Import Prelude Crypto Bc StateTree Patricia Snapshot Concur Idempotency Reserver ReserverProof ReserverInv.
From S2P Require Import ReserverTheorems.

#[local] Existing Instance poly_crypto.

Definition ex_out (n : Z) : Hash := mkHash n 0 0 0.
Definition ex_src : source := mkSource (mkHash 7 7 7 7) [x61].
Definition ex_owner (_ : Hash) : source := ex_src.

Definition ex_row (n amount : Z) : row := mkRow (ex_out n) [x61] (mkHash 7 7 7 7) amount n [x51] zeroHash 0 zeroHash 1.

Definition ex_tree (ns : list Z) : option Tree :=
  foldl (fun t n => t ← t; match tree_Insert t (Bytes (ex_out n)) with Some (Ok t) => Some t | _ => None end)
    (Some tree_empty) ns.

(** The outputs [1], [2] and [3] exist, with the given amounts. *)
Definition ex_env (a1 a2 a3 : Z) : env Tree :=
  mkEnv (Some [ex_row 1 a1; ex_row 2 a2; ex_row 3 a3]) (mkSnapshot (default tree_empty (ex_tree [1; 2; 3])) ∅) 1 100
    map_to_list map_to_list.

Lemma ex_tree_rep ns t : ex_tree ns = Some t -> exists s, tree_rep 32 t s.
Proof.
  unfold ex_tree. assert (Hgen : forall t0, (forall t, t0 = Some t -> exists s, tree_rep 32 t s) ->
    foldl (fun t n => t ← t; match tree_Insert t (Bytes (ex_out n)) with Some (Ok t) => Some t | _ => None end) t0 ns = Some t ->
    exists s, tree_rep 32 t s).
  { induction ns as [|n ns IH]; intros t0 Ht0 E; simpl in E; [eauto|]. apply IH in E; [done|]. intros t1 E1.
    destruct t0 as [t0|]; [|done]. destruct (Ht0 t0 eq_refl) as [s0 Hs0]. simpl in E1.
    destruct (tree_rep_Insert 32 t0 s0 (Bytes (ex_out n)) Hs0 (length_Bytes _)) as (t' & Ei & Ht'). simpl in Ei. rewrite Ei in E1.
    injection E1 as <-. eauto. }
  apply Hgen. intros t1 [= <-]. exists ∅. exact (@tree_rep_empty Tree _ Tree_laws 32).
Qed.

Lemma ex_env_ok a1 a2 a3 re : nextReservationID re < MaxUint64 -> env_ok ex_owner (ex_env a1 a2 a3) re.
Proof.
  intros Hn. split; [done|]. split; [|split; [|done]].
  - intros u. assert (Ht : exists t, ex_tree [1; 2; 3] = Some t) by (vm_compute; eauto). destruct Ht as [t Ht].
    destruct (ex_tree_rep _ _ Ht) as [s Hs]. unfold checkUTXO, ex_env. cbn [e_snapshot snap_Tree]. rewrite Ht. cbn [default].
    rewrite (tree_rep_Contains 32 _ s) by (try done; apply length_Bytes). done.
  - intros rows r [= <-] Hr. repeat (apply elem_of_cons in Hr as [->|Hr]; [done|]). by apply not_elem_of_nil in Hr.
Qed.

(** The counter has not come to its end. *)
Definition counts (re : reserver) : bool := nextReservationID re <? MaxUint64.

Definition ex_run (e : env Tree) (ops : list op) (sched : list nat) :=
  run_schedule counts (map (fun i => (i, e)) sched) (newReserver, run_op <$> ops).

Lemma ex_run_reached a1 a2 a3 ops sched c :
  Forall op_ok ops -> ex_run (ex_env a1 a2 a3) ops sched = Some c ->
  reached (T := Tree) ex_owner (fun o => o ∈ ops) c.
Proof.
  intros Ho Hr. unfold reached. etransitivity; [|eapply (run_schedule_steps _ _ counts); [|exact Hr]].
  - apply (starts_steps _ _ newReserver []). apply Forall_fmap, Forall_forall. intros o Hin. exists o.
    split; [by apply (proj1 (Forall_forall _ _) Ho)|done].
  - apply Forall_fmap, Forall_forall. intros i _ re Hre. apply ex_env_ok. by apply Z.ltb_lt.
Qed.

Notation rstate := (reserver * list (prog (env Tree) reserver (op * response)))%type.

Definition state_of (r : option rstate) : rstate := default (newReserver, []) r.

Definition runs (r : option rstate) : bool := match r with Some _ => true | None => false end.

Lemma state_of_reached a1 a2 a3 ops sched :
  Forall op_ok ops -> runs (ex_run (ex_env a1 a2 a3) ops sched) = true ->
  reached (T := Tree) ex_owner (fun o => o ∈ ops) ((state_of (ex_run (ex_env a1 a2 a3) ops sched)).1, (state_of (ex_run (ex_env a1 a2 a3) ops sched)).2).
Proof.
  intros Ho Hr. rewrite <- surjective_pairing. apply (ex_run_reached a1 a2 a3 ops sched); [done|].
  by destruct (ex_run (ex_env a1 a2 a3) ops sched).
Qed.

(** The answer that a goroutine got. *)
Definition reply (c : rstate) (i : nat) : option response :=
  match c.2 !! i with Some (Ret x) => Some x.2 | _ => None end.

(** The reservation it got: number, outputs and change. *)
Definition got (c : rstate) (i : nat) : option (Z * list Hash * Z) :=
  match reply c i with
  | Some (RReservation (Ok r)) => Some (res_ID r, oids (res_UTXOs r), res_Change r)
  | _ => None
  end.

Lemma got_ended c i g : got c i = Some g -> exists x, c.2 !! i = Some (Ret x).
Proof. unfold got, reply. destruct (c.2 !! i) as [[x| |]|]; [by eexists|done..]. Qed.

(** ** Two clients at the same time *)

Definition two_clients : list op := [OpReserve ex_src 5 (Some [x01]) 200; OpReserve ex_src 2 None 200].

Definition two_run := ex_run (ex_env 3 4 9) two_clients [0; 0; 0; 1; 1; 0; 0; 0; 0; 0; 0; 1; 0; 0; 1]%nat.

Lemma two_run_facts :
  runs two_run = true /\ got (state_of two_run) 0 = Some (1, [ex_out 3], 4) /\ got (state_of two_run) 1 = Some (2, [ex_out 2], 2).
Proof. vm_compute. done. Qed.

Definition two_asked (o : op) : Prop := o ∈ two_clients.

Lemma two_reached : reached (T := Tree) ex_owner two_asked ((state_of two_run).1, (state_of two_run).2).
Proof. apply (state_of_reached 3 4 9 two_clients); [by repeat constructor|apply two_run_facts]. Qed.

(** The client with the token gets what it asks for: it is the only one with that token. *)
Lemma reserver_safe_witness :
  exists x y, (state_of two_run).2 !! 0%nat = Some (Ret x) /\ (state_of two_run).2 !! 1%nat = Some (Ret y) /\
    answered ex_owner two_asked x /\ answered ex_owner two_asked y.
Proof.
  destruct two_run_facts as (_ & Hg0 & Hg1).
  destruct (got_ended _ _ _ Hg0) as [x H0]. destruct (got_ended _ _ _ Hg1) as [y H1]. exists x, y.
  split; [exact H0|]. split; [exact H1|]. split.
  - exact (proj2 (proj2 (reserver_safe ex_owner two_asked _ _ two_reached)) 0%nat x H0).
  - exact (proj2 (proj2 (reserver_safe ex_owner two_asked _ _ two_reached)) 1%nat y H1).
Defined.

Definition kept : reservation := default (mkReservation 0 ex_src [] 0 0 None) (reservations (state_of two_run).1 !! 1).

Lemma kept_facts : reservations (state_of two_run).1 !! 1 = Some kept /\ res_ClientToken kept = Some [x01].
Proof.
  assert (Hs : runs (Some (state_of two_run)) && bool_decide (is_Some (reservations (state_of two_run).1 !! 1)) = true)
    by (vm_compute; done).
  apply andb_true_iff in Hs as [_ Hs%bool_decide_eq_true]. split; [|vm_compute; done]. unfold kept. by destruct Hs as [r ->].
Qed.

Lemma client_token_once_witness :
  exists c, (forall v, g_calls (idempotency (state_of two_run).1) !! c = Some (Some v) -> v = Ok kept) /\
    forall src amount exp, exists g, Reserve (T := Tree) src amount (Some [x01]) exp = Act g /\
      forall e, g e (state_of two_run).1 = Some ((state_of two_run).1, wg_Wait c).
Proof.
  exact (proj2 (client_token_once ex_owner two_asked _ _ 1 kept [x01] two_reached (proj1 kept_facts) (proj2 kept_facts))).
Defined.

Lemma two_env_ok : env_ok ex_owner (ex_env 3 4 9) (state_of two_run).1.
Proof. apply ex_env_ok. by vm_compute. Qed.

Lemma reserver_ends_witness : Acc (flip (pool_act (env_ok ex_owner))) ((state_of two_run).1, (state_of two_run).2).
Proof. exact (proj1 (reserver_ends ex_owner two_asked _ _ (ex_env 3 4 9) two_reached two_env_ok)). Defined.

(** One source with the three outputs. *)
Definition ex_source (a1 a2 a3 : Z) (m : gmap Hash Z) : sourceReserver :=
  mkSourceReserver ex_src
    (list_to_map (map (fun r => (r_output_id r, matching_utxo ex_src r)) [ex_row 1 a1; ex_row 2 a2; ex_row 3 a3])) m 1.

Lemma reserveFromCache_decides_witness :
  amounts (filter (available (ex_env 3 4 9) (ex_source 3 4 9 {[ex_out 3 := 1]})) (values (cached (ex_source 3 4 9 {[ex_out 3 := 1]})))) < 10.
Proof.
  assert (Hv : forall u, u ∈ values (cached (ex_source 3 4 9 {[ex_out 3 := 1]})) -> 0 <= u_Amount u).
  { intros u Hu. apply Z.leb_le. revert u Hu. apply Forall_forall. vm_compute. by repeat constructor. }
  pose proof (reserveFromCache_decides (ex_env 3 4 9) 2 10 (ex_source 3 4 9 {[ex_out 3 := 1]})
    (proj1 (proj2 (ex_env_ok 3 4 9 newReserver ltac:(done)))) (proj1 (ex_env_ok 3 4 9 newReserver ltac:(done))) Hv
    ltac:(vm_compute; discriminate)) as Hd.
  assert (Er : (reserveFromCache (ex_env 3 4 9) 2 10 (ex_source 3 4 9 {[ex_out 3 := 1]})).2 = Some (Err ErrReserved)) by (vm_compute; done).
  rewrite Er in Hd. exact (proj1 Hd).
Defined.

(** ** Departures from the comments *)

(** The first client cancels its reservation.  Before [Cancel] forgets the token, a
    second one asks with the same token and gets the canceled reservation; a third gets
    the output for its own.  Two clients end up with one output. *)
Definition race_clients : list op :=
  [OpReserve ex_src 3 (Some [x01]) 200; OpCancel 1; OpReserve ex_src 3 (Some [x01]) 200; OpReserve ex_src 3 None 200].

Definition race_run :=
  ex_run (ex_env 3 4 9) race_clients [0; 0; 0; 0; 0; 0; 0; 0; 0; 0; 0; 1; 1; 1; 2; 2; 1; 3; 3; 3; 3]%nat.

(** A reservation can be returned after it has been canceled: [Cancel] makes the
    outputs available before it forgets the client token. *)
Lemma canceled_reservation_returned :
  runs race_run = true /\ reply (state_of race_run) 1 = Some (RDone (Ok tt)) /\
  got (state_of race_run) 2 = Some (1, [ex_out 3], 6) /\ got (state_of race_run) 3 = Some (2, [ex_out 3], 6).
Proof. vm_compute. done. Qed.

(** The sums of [reserveFromCache] are taken modulo 2^64: with 5 units free and 2^64 - 2
    reserved, a request of 5 units is told that funds are insufficient. *)
Lemma reserve_sum_overflows :
  (reserveFromCache (ex_env 5 MaxInt64 MaxInt64) 3 5
     (ex_source 5 MaxInt64 MaxInt64 {[ex_out 2 := 1; ex_out 3 := 2]})).2 = Some (Err ErrInsufficient).
Proof. vm_compute. done. Qed.
