(* ===== verification/Filter.v ===== *)
(** * Filter expressions: [core/query/filter]

    The scanner and parser of the query language ([scanner.go], [parser.go]), its static
    types ([typecheck.go]) and the translation to SQL ([sql.go]).  A [parseError] is
    raised by a panic that [parse] recovers from; it is an error here.  Other panics are
    an outcome of their own. *)

From Stdlib Require Import ZArith Lia Strings.Byte String.
From stdpp Require Import gmap.
From S2P Require Import Prelude.

Notation str s := (list_byte_of_string s).

(** ** Outcomes *)

Inductive fres (E A : Type) : Type :=
  | FOk (a : A)
  | FErr (e : E)
  | FPanic
  | FFuel.
Arguments FOk {E A}. Arguments FErr {E A}. Arguments FPanic {E A}. Arguments FFuel {E A}.

#[export] Instance fres_ret E : MRet (fres E) := @FOk E.
#[export] Instance fres_bind E : MBind (fres E) := fun A B f m =>
  match m with FOk a => f a | FErr e => FErr e | FPanic => FPanic | FFuel => FFuel end.

(** ** Runes *)

(** The tables of the package [unicode], for runes outside ASCII. *)
Class Unicode := { unicode_IsLetter : Z -> bool; unicode_IsDigit : Z -> bool }.

Definition RuneError : Z := 65533.
Definition RuneSelf : Z := 128.

Definition in_range (lo hi b : Z) : bool := (lo <=? b) && (b <=? hi).

(** The range of the second byte of an encoding, and its length, from the first byte. *)
Definition rune_lead (b : Z) : option (nat * Z * Z) :=
  if in_range 194 223 b then Some (2%nat, 128, 191)
  else if b =? 224 then Some (3%nat, 160, 191)
  else if in_range 225 236 b || in_range 238 239 b then Some (3%nat, 128, 191)
  else if b =? 237 then Some (3%nat, 128, 159)
  else if b =? 240 then Some (4%nat, 144, 191)
  else if in_range 241 243 b then Some (4%nat, 128, 191)
  else if b =? 244 then Some (4%nat, 128, 143)
  else None.

(** [utf8.DecodeRune]: the rune and its width; a width of one marks an error. *)
Definition DecodeRune (p : bytes) : Z * nat :=
  match Z_of_byte <$> p with
  | [] => (RuneError, 0%nat)
  | b0 :: p =>
      if b0 <? RuneSelf then (b0, 1%nat) else
      match rune_lead b0, p with
      | Some (2%nat, lo, hi), b1 :: _ =>
          if in_range lo hi b1 then ((b0 - 192) * 64 + (b1 - 128), 2%nat) else (RuneError, 1%nat)
      | Some (3%nat, lo, hi), b1 :: b2 :: _ =>
          if in_range lo hi b1 && in_range 128 191 b2
          then ((b0 - 224) * 4096 + (b1 - 128) * 64 + (b2 - 128), 3%nat) else (RuneError, 1%nat)
      | Some (4%nat, lo, hi), b1 :: b2 :: b3 :: _ =>
          if in_range lo hi b1 && in_range 128 191 b2 && in_range 128 191 b3
          then ((b0 - 240) * 262144 + (b1 - 128) * 4096 + (b2 - 128) * 64 + (b3 - 128), 4%nat) else (RuneError, 1%nat)
      | _, _ => (RuneError, 1%nat)
      end
  end.

(** ** The scanner *)

Inductive token :=
  | tokInvalid | tokEOF | tokKeyword | tokIdent | tokString | tokInteger | tokPunct | tokPlaceholder.

#[export] Instance token_eq_dec : EqDecision token.
Proof. solve_decision. Defined.

Inductive emsg :=
  | IllegalNUL | IllegalUTF8 | IllegalBOM | IllegalHex | LeadingZero | UnterminatedString | IllegalBackslash
  | IllegalDollar | IllegalChar (ch : Z) | GotLit (got want : bytes) | GotTok (got : bytes) (want : token)
  | InvalidInteger (lit : bytes) | InvalidPlaceholder (lit : bytes).

Record parseError := mkParseError { err_pos : nat; err_msg : emsg }.

Record scanner := mkScanner { sc_src : bytes; sc_ch : Z; sc_offset : nat; sc_rdOffset : nat }.

Definition bom : Z := 65279.

Notation S_ := (fres parseError).

Definition scan_error {A} (offs : nat) (msg : emsg) : S_ A := FErr (mkParseError offs msg).

Definition next (s : scanner) : S_ scanner :=
  match drop (sc_rdOffset s) (sc_src s) with
  | [] => mret (mkScanner (sc_src s) (-1) (length (sc_src s)) (sc_rdOffset s))
  | b :: rest =>
      let offset := sc_rdOffset s in
      let r := Z_of_byte b in
      if r =? 0 then scan_error (offset + 1) IllegalNUL
      else if RuneSelf <=? r then
        let '(r, w) := DecodeRune (b :: rest) in
        if (r =? RuneError) && (w =? 1)%nat then scan_error offset IllegalUTF8
        else if r =? bom then scan_error offset IllegalBOM
        else mret (mkScanner (sc_src s) r offset (sc_rdOffset s + w))
      else mret (mkScanner (sc_src s) r offset (sc_rdOffset s + 1))
  end.

Definition scanner_init (src : bytes) : S_ scanner := next (mkScanner src 0 0 0).

(** [string(s.src[i:j])] *)
Definition slice_of (s : scanner) (i j : nat) : bytes := take (j - i) (drop i (sc_src s)).

Section Scanner.
Context `{Unicode}.

Definition ch (c : string) : Z := match str c with b :: _ => Z_of_byte b | [] => 0 end.

Definition isLetter (c : Z) : bool :=
  (ch "a" <=? c) && (c <=? ch "z") || (ch "A" <=? c) && (c <=? ch "Z") || (c =? ch "_") ||
  (RuneSelf <=? c) && unicode_IsLetter c.

Definition isDigit (c : Z) : bool := (ch "0" <=? c) && (c <=? ch "9") || (RuneSelf <=? c) && unicode_IsDigit c.

Definition digitVal (c : Z) : Z :=
  if (ch "0" <=? c) && (c <=? ch "9") then c - ch "0"
  else if (ch "a" <=? c) && (c <=? ch "f") then c - ch "a" + 10
  else if (ch "A" <=? c) && (c <=? ch "F") then c - ch "A" + 10
  else 16.

(** [for p(s.ch) { s.next() }] *)
Fixpoint advance_while (p : Z -> bool) (fuel : nat) (s : scanner) : S_ scanner :=
  if p (sc_ch s) then
    match fuel with
    | O => FFuel
    | S fuel => s ← next s; advance_while p fuel s
    end
  else mret s.

(** Every step takes a byte at least. *)
Definition skip_while (p : Z -> bool) (s : scanner) : S_ scanner := advance_while p (S (length (sc_src s))) s.

Definition scanIdentifier (s : scanner) : S_ (bytes * scanner) :=
  s' ← skip_while (fun c => isLetter c || isDigit c) s;
  mret (slice_of s' (sc_offset s) (sc_offset s'), s').

Definition scanMantissa (base : Z) (s : scanner) : S_ scanner := skip_while (fun c => digitVal c <? base) s.

Definition scanNumber (s : scanner) : S_ scanner :=
  if sc_ch s =? ch "0" then
    let offs := sc_offset s in
    s ← next s;
    if (sc_ch s =? ch "x") || (sc_ch s =? ch "X") then
      s ← next s;
      s ← scanMantissa 16 s;
      if (sc_offset s - offs <=? 2)%nat then scan_error offs IllegalHex else mret s
    else if digitVal (sc_ch s) <? 10 then scan_error offs LeadingZero
    else mret s
  else scanMantissa 10 s.

Definition quote : Z := 39.
Definition backslash : Z := 92.

(** The loop of [scanString]; [offs] is the offset of the opening quote. *)
Fixpoint scan_string (offs fuel : nat) (s : scanner) : S_ scanner :=
  let c := sc_ch s in
  if c <? 0 then scan_error offs UnterminatedString
  else
    s ← next s;
    if c =? quote then mret s
    else if c =? backslash then scan_error offs IllegalBackslash
    else match fuel with O => FFuel | S fuel => scan_string offs fuel s end.

Definition scanString (s : scanner) : S_ scanner := scan_string (sc_offset s - 1) (S (length (sc_src s))) s.

Definition skipWhitespace (s : scanner) : S_ scanner := skip_while (fun c => (c =? 32) || (c =? 9)) s.

Definition keyword (lit : bytes) : bool := bool_decide (lit = str "AND" \/ lit = str "OR").

Definition punct (c : Z) : bool := (c =? ch ".") || (c =? ch "(") || (c =? ch ")") || (c =? ch "=").

Definition Scan (s : scanner) : S_ (nat * token * bytes * scanner) :=
  s ← skipWhitespace s;
  let pos := sc_offset s in
  let c := sc_ch s in
  if isLetter c then
    '(lit, s) ← scanIdentifier s;
    mret (pos, if keyword lit then tokKeyword else tokIdent, lit, s)
  else if (ch "0" <=? c) && (c <=? ch "9") then
    s ← scanNumber s;
    mret (pos, tokInteger, slice_of s pos (sc_offset s), s)
  else
    s ← next s;
    if c =? -1 then mret (pos, tokEOF, [], s)
    else if c =? quote then
      s ← scanString s;
      mret (pos, tokString, slice_of s pos (sc_offset s), s)
    else if punct c then mret (pos, tokPunct, slice_of s pos (sc_offset s), s)
    else if c =? ch "$" then
      s ← scanMantissa 10 s;
      if (sc_offset s - pos <=? 1)%nat then scan_error pos IllegalDollar
      else mret (pos, tokPlaceholder, slice_of s pos (sc_offset s), s)
    else scan_error pos (IllegalChar c).
End Scanner.

(** ** Numbers: [strconv] *)

(** The value of digits in a base, or [None] at a character that is no digit. *)
Fixpoint digits_value (base acc : Z) (l : bytes) : option Z :=
  match l with
  | [] => Some acc
  | b :: l => let d := digitVal (Z_of_byte b) in if d <? base then digits_value base (acc * base + d) l else None
  end.

(** At least one digit, and a value that an [int64] holds. *)
Definition parse_digits (base : Z) (l : bytes) : option Z :=
  match l with
  | [] => None
  | _ => v ← digits_value base 0 l; if v <=? MaxInt64 then Some v else None
  end.

(** [strconv.ParseInt(lit, 0, 64)] of a literal without a sign. *)
Definition ParseInt (lit : bytes) : option Z :=
  match lit with
  | b0 :: b1 :: rest =>
      if (Z_of_byte b0 =? ch "0") && ((Z_of_byte b1 =? ch "x") || (Z_of_byte b1 =? ch "X")) then parse_digits 16 rest
      else if Z_of_byte b0 =? ch "0" then parse_digits 8 (b1 :: rest)
      else parse_digits 10 lit
  | _ => parse_digits 10 lit
  end.

(** [strconv.Atoi] of digits. *)
Definition Atoi (l : bytes) : option Z := parse_digits 10 l.

Definition digit (d : Z) : byte := byte_of_Z (ch "0" + d).

(** [strconv.Itoa] of a number that is not negative; twenty digits hold any [int]. *)
Fixpoint itoa (fuel : nat) (n : Z) : bytes :=
  match fuel with
  | O => []
  | S fuel => if n <? 10 then [digit n] else itoa fuel (n / 10) ++ [digit (n mod 10)]
  end.

Definition Itoa (n : Z) : bytes := itoa 20 n.

(** ** Expressions: [expr.go], [operators.go] *)

Record binaryOp := mkOp { precedence : Z; op_name : bytes; sqlOp : bytes }.

Definition opOR : binaryOp := mkOp 1 (str "OR") (str "OR").
Definition opAND : binaryOp := mkOp 2 (str "AND") (str "AND").
Definition opEq : binaryOp := mkOp 3 (str "=") (str "=").

Definition binaryOps (lit : bytes) : option binaryOp :=
  if bool_decide (lit = str "OR") then Some opOR
  else if bool_decide (lit = str "AND") then Some opAND
  else if bool_decide (lit = str "=") then Some opEq
  else None.

Inductive expr :=
  | binaryExpr (op : binaryOp) (l r : expr)
  | attrExpr (attr : bytes)
  | selectorExpr (ident : bytes) (objExpr : expr)
  | parenExpr (inner : expr)
  | valueExpr (typ : token) (value : bytes)
  | envExpr (ident : bytes) (body : expr)
  | placeholderExpr (num : Z).

Fixpoint expr_String (e : expr) : bytes :=
  match e with
  | binaryExpr op l r => expr_String l ++ str " " ++ op_name op ++ str " " ++ expr_String r
  | attrExpr attr => attr
  | selectorExpr ident obj => expr_String obj ++ str "." ++ ident
  | parenExpr inner => str "(" ++ expr_String inner ++ str ")"
  | valueExpr _ value => value
  | envExpr ident e => ident ++ str "(" ++ expr_String e ++ str ")"
  | placeholderExpr num => str "$" ++ Itoa num
  end.

(** ** The parser *)

Record parser := mkParser {
  p_scanner : scanner;
  maxPlaceholder : Z;
  p_pos : nat;
  p_tok : token;
  p_lit : bytes;
}.

(** A step of the parser. *)
Definition P (A : Type) : Type := parser -> fres parseError (A * parser).

#[export] Instance P_ret : MRet P := fun A a p => FOk (a, p).
#[export] Instance P_bind : MBind P := fun A B f m p => '(a, p) ← m p; f a p.

Definition pget : P parser := fun p => FOk (p, p).
Definition errorf {A} (msg : emsg) : P A := fun p => FErr (mkParseError (p_pos p) msg).
Definition out_of_fuel {A} : P A := fun _ => FFuel.

Section Parser.
Context `{Unicode}.

Definition p_next : P unit := fun p =>
  '(pos, tok, lit, s) ← Scan (p_scanner p);
  FOk (tt, mkParser s (maxPlaceholder p) pos tok lit).

Definition parseLit (lit : bytes) : P unit :=
  p ← pget; if bool_decide (p_lit p = lit) then p_next else errorf (GotLit (p_lit p) lit).

Definition parseTok (tok : token) : P unit :=
  p ← pget; if bool_decide (p_tok p = tok) then p_next else errorf (GotTok (p_lit p) tok).

Definition determineBinaryOp (p : parser) (minPrecedence : Z) : option binaryOp :=
  match binaryOps (p_lit p) with
  | Some op => if minPrecedence <=? precedence op then Some op else None
  | None => None
  end.

Definition set_max (num : Z) : P unit := fun p =>
  FOk (tt, if maxPlaceholder p <? num then mkParser (p_scanner p) num (p_pos p) (p_tok p) (p_lit p) else p).

Definition parseValue : P expr :=
  p ← pget;
  match p_tok p with
  | tokString => p_next;; mret (valueExpr tokString (p_lit p))
  | tokInteger =>
      match ParseInt (p_lit p) with
      | None => errorf (InvalidInteger (p_lit p))
      | Some integer => p_next;; mret (valueExpr tokInteger (Itoa integer))
      end
  | _ =>
      match Atoi (drop 1 (p_lit p)) with
      | Some num => if 0 <? num then p_next;; set_max num;; mret (placeholderExpr num)
                    else errorf (InvalidPlaceholder (p_lit p))
      | None => errorf (InvalidPlaceholder (p_lit p))
      end
  end.

Definition parseSelectorExpr (objExpr : expr) : P expr :=
  p_next;;
  p ← pget;
  parseTok tokIdent;;
  mret (selectorExpr (p_lit p) objExpr).

Definition is_value (t : token) : bool :=
  match t with tokString | tokInteger | tokPlaceholder => true | _ => false end.

Fixpoint parseExpr (fuel : nat) : P expr :=
  match fuel with
  | O => out_of_fuel
  | S n => x ← parsePrimaryExpr n; parseExprCont n x 0
  end
with parseExprCont (fuel : nat) (lhs : expr) (minPrecedence : Z) : P expr :=
  match fuel with
  | O => out_of_fuel
  | S n =>
      p ← pget;
      match determineBinaryOp p minPrecedence with
      | None => mret lhs
      | Some op =>
          p_next;;
          rhs ← parsePrimaryExpr n;
          rhs ← climb n rhs (precedence op + 1);
          parseExprCont n (binaryExpr op lhs rhs) minPrecedence
      end
  end
(** The inner loop of [parseExprCont]. *)
with climb (fuel : nat) (rhs : expr) (minPrecedence : Z) : P expr :=
  match fuel with
  | O => out_of_fuel
  | S n =>
      p ← pget;
      match determineBinaryOp p minPrecedence with
      | None => mret rhs
      | Some op2 => rhs ← parseExprCont n rhs (precedence op2); climb n rhs minPrecedence
      end
  end
with parsePrimaryExpr (fuel : nat) : P expr :=
  match fuel with
  | O => out_of_fuel
  | S n => x ← parseOperand n; parseSelectors n x
  end
with parseSelectors (fuel : nat) (x : expr) : P expr :=
  match fuel with
  | O => out_of_fuel
  | S n =>
      p ← pget;
      if bool_decide (p_lit p = str ".") then x ← parseSelectorExpr x; parseSelectors n x else mret x
  end
with parseOperand (fuel : nat) : P expr :=
  match fuel with
  | O => out_of_fuel
  | S n =>
      p ← pget;
      if bool_decide (p_lit p = str "(") then
        p_next;;
        e ← parseExpr n;
        parseLit (str ")");;
        mret (parenExpr e)
      else if is_value (p_tok p) then parseValue
      else
        (** [parseEnvironmentExpr] *)
        parseTok tokIdent;;
        p' ← pget;
        if bool_decide (p_lit p' = str "(") then
          p_next;;
          e ← parseExpr n;
          parseLit (str ")");;
          mret (envExpr (p_lit p) e)
        else mret (attrExpr (p_lit p))
  end.

Definition newParser (src : bytes) : fres parseError parser :=
  s ← scanner_init src;
  '(_, p) ← p_next (mkParser s 0 0 tokInvalid []);
  FOk p.

(** The depth of the calls is at most four times the length of the text. *)
Definition parse_fuel (src : bytes) : nat := 4 * length src + 8.

Definition parse (src : bytes) : fres parseError (option expr * parser) :=
  p ← newParser src;
  if bool_decide (p_tok p = tokEOF) then FOk (None, p)
  else
    '(e, p) ← parseExpr (parse_fuel src) p;
    '(_, p) ← parseTok tokEOF p;
    FOk (Some e, p).
End Parser.
