(* ===== verification/FilterScan.v ===== *)
(** * The scanner of filters

    A scanner stands at an offset of the text.  [head_rune] reads the character there;
    what follows says which text every token consumes, in both directions. *)

From Stdlib Require Import ZArith Lia Strings.Byte String.
From stdpp Require Import list.
From S2P Require Import Prelude Filter.

#[local] Arguments DecodeRune : simpl never.

(** The character at the start of a text with its width; [-1] at the end. *)
Definition head_rune (off : nat) (l : bytes) : fres parseError (Z * nat) :=
  match l with
  | [] => FOk (-1, 0%nat)
  | b :: rest =>
      let r := Z_of_byte b in
      if r =? 0 then scan_error (off + 1) IllegalNUL
      else if RuneSelf <=? r then
        let '(r, w) := DecodeRune l in
        if (r =? RuneError) && (w =? 1)%nat then scan_error off IllegalUTF8
        else if r =? bom then scan_error off IllegalBOM
        else FOk (r, w)
      else FOk (r, 1%nat)
  end.

(** The scanner at an offset. *)
Definition read (src : bytes) (off : nat) : fres parseError scanner :=
  '(c, w) ← head_rune off (drop off src); FOk (mkScanner src c off (off + w)).

Lemma next_read s : (sc_rdOffset s <= length (sc_src s))%nat -> next s = read (sc_src s) (sc_rdOffset s).
Proof.
  intros Hle. unfold next, read, head_rune. destruct (drop (sc_rdOffset s) (sc_src s)) as [|b rest] eqn:E; cbn.
  - assert (Hl : length (sc_src s) = sc_rdOffset s).
    { apply (f_equal length) in E. rewrite length_drop in E. simpl in E. lia. }
    by rewrite Hl, Nat.add_0_r.
  - destruct (_ =? 0); [done|]. destruct (RuneSelf <=? _); [|done]. destruct (DecodeRune (b :: rest)) as [r w].
    destruct ((r =? RuneError) && (w =? 1)%nat); [done|]. by destruct (r =? bom).
Qed.

(** [s] stands at [off]. *)
Definition at_ (s : scanner) (src : bytes) (off : nat) : Prop := (off <= length src)%nat /\ read src off = FOk s.

(** A text that is read as one character, whatever follows. *)
Definition chunk (c : Z) (t : bytes) : Prop :=
  t <> [] /\ 0 < c /\ forall off r, head_rune off (t ++ r) = FOk (c, length t).

Lemma Z_of_byte_pos b : (Z_of_byte b =? 0) = false -> 0 < Z_of_byte b.
Proof. intros Hb. pose proof (Z_of_byte_range b). zbool. lia. Qed.

Lemma chunk_ascii b : (Z_of_byte b =? 0) = false -> Z_of_byte b < RuneSelf -> chunk (Z_of_byte b) [b].
Proof.
  intros H0 Hs. split; [done|]. split; [by apply Z_of_byte_pos|]. intros off r. simpl. rewrite H0.
  by destruct (Z.leb_spec RuneSelf (Z_of_byte b)); [lia|].
Qed.

Lemma rune_lead_facts b n lo hi :
  rune_lead b = Some (n, lo, hi) ->
  128 <= lo /\ (n = 2%nat /\ 194 <= b \/ n = 3%nat /\ (224 < b \/ b = 224 /\ 160 <= lo) \/ n = 4%nat /\ (240 < b \/ b = 240 /\ 144 <= lo)).
Proof.
  unfold rune_lead, in_range. intros E.
  repeat match type of E with (if ?c then _ else _) = _ => destruct c eqn:?; [injection E as <- <- <-|] end; [..|done];
    repeat match goal with H : (_ || _)%bool = true |- _ => apply orb_true_iff in H as [H|H] end; zbool; lia.
Qed.

(** A decoded rune is determined by the bytes that it takes. *)
Lemma DecodeRune_local l r w :
  DecodeRune l = (r, w) -> (w <> 1)%nat -> (w <> 0)%nat ->
  (w <= length l)%nat /\ RuneSelf <= r /\ forall k, DecodeRune (take w l ++ k) = (r, w).
Proof.
  unfold DecodeRune. destruct l as [|b0 l]; simpl; [intros [= <- <-]; lia|].
  destruct (Z_of_byte b0 <? RuneSelf) eqn:E0; [intros [= <- <-]; lia|].
  destruct (rune_lead (Z_of_byte b0)) as [[[n lo] hi]|] eqn:El; [|intros [= <- <-]; lia].
  destruct (rune_lead_facts _ _ _ _ El) as (Hlo & [(-> & Hb)|[(-> & Hb)|(-> & Hb)]]).
  - destruct l as [|b1 l]; simpl; [intros [= <- <-]; lia|]. destruct (in_range lo hi (Z_of_byte b1)) eqn:E1; [|intros [= <- <-]; lia].
    intros [= <- <-] _ _. split; [simpl; lia|]. split; [unfold in_range, RuneSelf in *; zbool; lia|]. intros k. simpl. by rewrite E0, El, E1.
  - destruct l as [|b1 [|b2 l]]; simpl; [intros [= <- <-]; lia..|].
    destruct (in_range lo hi (Z_of_byte b1) && _) eqn:E1; [|intros [= <- <-]; lia]. intros [= <- <-] _ _.
    split; [simpl; lia|]. split; [unfold in_range, RuneSelf in *; zbool; lia|]. intros k. simpl. by rewrite E0, El, E1.
  - destruct l as [|b1 [|b2 [|b3 l]]]; simpl; [intros [= <- <-]; lia..|].
    destruct (in_range lo hi (Z_of_byte b1) && _ && _) eqn:E1; [|intros [= <- <-]; lia]. intros [= <- <-] _ _.
    split; [simpl; lia|]. split; [unfold in_range, RuneSelf in *; zbool; lia|]. intros k. simpl. by rewrite E0, El, E1.
Qed.

Lemma DecodeRune_wide b l r w :
  RuneSelf <= Z_of_byte b -> DecodeRune (b :: l) = (r, w) -> r = RuneError /\ w = 1%nat \/ (w <> 1 /\ w <> 0)%nat.
Proof.
  intros Hb. unfold DecodeRune. cbn [fmap list_fmap]. destruct (Z.ltb_spec (Z_of_byte b) RuneSelf); [lia|].
  destruct (rune_lead (Z_of_byte b)) as [[[n lo] hi]|]; [|intros [= <- <-]; by left].
  destruct n as [|[|[|[|[|n]]]]]; try (intros [= <- <-]; by left); destruct l as [|b1 [|b2 [|b3 l]]]; cbn;
    try (intros [= <- <-]; by left); repeat case_match; intros [= <- <-]; first [by left|by right].
Qed.

(** What is read at a text is a chunk, or the end. *)
Lemma head_rune_chunk off l c w :
  head_rune off l = FOk (c, w) ->
  l = [] /\ c = -1 /\ w = 0%nat \/ exists t r, l = t ++ r /\ w = length t /\ chunk c t.
Proof.
  destruct l as [|b l]; [intros [= <- <-]; by left|]. unfold head_rune at 1.
  destruct (Z_of_byte b =? 0) eqn:E0; [done|]. destruct (RuneSelf <=? Z_of_byte b) eqn:Es.
  - destruct (DecodeRune (b :: l)) as [r w'] eqn:Ed. destruct ((r =? RuneError) && (w' =? 1)%nat) eqn:Ee; [done|].
    destruct (r =? bom) eqn:Eb; [done|]. intros [= <- <-]. right. zbool.
    destruct (DecodeRune_wide _ _ _ _ Es Ed) as [[-> ->]|[H1 H0]]; [done|].
    destruct (DecodeRune_local _ _ _ Ed H1 H0) as (Hle & Hr & Hk). exists (take w' (b :: l)), (drop w' (b :: l)).
    assert (Hlen : length (take w' (b :: l)) = w') by (rewrite length_take; lia).
    split; [by rewrite take_drop|]. split; [done|]. split; [by destruct w'|]. split; [unfold RuneSelf in Hr; lia|]. intros off' k.
    destruct w' as [|w']; [done|]. specialize (Hk k). rewrite Hlen. cbn [take app] in *. unfold head_rune.
    apply Z.eqb_neq in E0. rewrite E0, (proj2 (Z.leb_le _ _) Es), Hk. rewrite Ee. apply Z.eqb_neq in Eb. by rewrite Eb.
  - intros [= <- <-]. right. exists [b], l. zbool. split; [done|]. split; [done|].
    apply chunk_ascii; [by apply Z.eqb_neq|lia].
Qed.

(** Two texts that begin with the same chunk are read alike. *)
Lemma head_rune_app off c t r : chunk c t -> head_rune off (t ++ r) = FOk (c, length t).
Proof. by intros (_ & _ & Hc). Qed.

(** ** Positions *)

Lemma at_fields s src off :
  at_ s src off -> sc_src s = src /\ sc_offset s = off /\
  (drop off src = [] /\ sc_ch s = -1 /\ sc_rdOffset s = off \/
   exists t r, drop off src = t ++ r /\ chunk (sc_ch s) t /\ sc_rdOffset s = (off + length t)%nat).
Proof.
  intros [Hle E]. unfold read in E. destruct (head_rune off (drop off src)) as [[c w]| | |] eqn:Eh; try done.
  injection E as <-. cbn. split; [done|]. split; [done|]. destruct (head_rune_chunk _ _ _ _ Eh) as [(-> & -> & ->)|(t & r & Et & -> & Hc)].
  - left. by rewrite Nat.add_0_r.
  - right. eauto.
Qed.

Lemma drop_app_at (src : bytes) off t r : drop off src = t ++ r -> drop (off + length t) src = r.
Proof. intros E. rewrite <- drop_drop, E. apply drop_app_length. Qed.

Lemma at_rd_le s src off : at_ s src off -> (sc_rdOffset s <= length src)%nat.
Proof.
  intros Ha. pose proof Ha as [Hle _]. destruct (at_fields s src off Ha) as (_ & _ & [(_ & _ & ->)|(t & r & E & _ & ->)]); [done|].
  apply (f_equal length) in E. rewrite length_drop, length_app in E. lia.
Qed.

(** [next] goes to the position after the character, when that can be read. *)
Lemma at_next s src off s' : at_ s src off -> next s = FOk s' -> at_ s' src (sc_rdOffset s).
Proof.
  intros Ha. pose proof (at_rd_le _ _ _ Ha) as Hle. destruct (at_fields _ _ _ Ha) as (Es & _ & _).
  rewrite next_read by (by rewrite Es). rewrite Es. by split.
Qed.

Lemma next_no_fuel s : (sc_rdOffset s <= length (sc_src s))%nat -> next s <> FFuel /\ next s <> FPanic.
Proof.
  intros Hle. rewrite next_read by done. unfold read, head_rune.
  destruct (drop (sc_rdOffset s) (sc_src s)) as [|b l]; [done|]. destruct (_ =? 0); [done|]. destruct (_ <=? _); [|done].
  destruct (DecodeRune (b :: l)) as [r w]. destruct (_ && _); [done|]. by destruct (_ =? bom).
Qed.

(** ** Runs of characters *)

Inductive chunks (p : Z -> bool) : bytes -> Prop :=
  | chunks_nil : chunks p []
  | chunks_cons c t r : chunk c t -> p c = true -> chunks p r -> chunks p (t ++ r).

Lemma at_end s src off : at_ s src off -> sc_ch s = -1 -> drop off src = [].
Proof. intros Ha Hc. destruct (at_fields _ _ _ Ha) as (_ & _ & [(? & _)|(t & r & _ & (_ & ? & _) & _)]); [done|lia]. Qed.

(** The character is the first of the text, and [next] goes behind it. *)
Lemma at_step s src off s' :
  at_ s src off -> sc_ch s <> -1 -> next s = FOk s' ->
  exists t r, drop off src = t ++ r /\ chunk (sc_ch s) t /\ at_ s' src (off + length t).
Proof.
  intros Ha Hc Hn. pose proof (at_next _ _ _ _ Ha Hn) as Ha'.
  destruct (at_fields _ _ _ Ha) as (_ & _ & [(_ & ? & _)|(t & r & E & Hk & Er)]); [done|]. rewrite Er in Ha'. eauto.
Qed.

Lemma advance_inv p fuel s s' src off :
  p (-1) = false -> at_ s src off -> advance_while p fuel s = FOk s' ->
  exists t r, drop off src = t ++ r /\ chunks p t /\ at_ s' src (off + length t) /\ p (sc_ch s') = false.
Proof.
  intros Hp. revert s off. induction fuel as [|fuel IH]; intros s off Ha; simpl; destruct (p (sc_ch s)) eqn:Ep; try done.
  - intros [= <-]. exists [], (drop off src). rewrite Nat.add_0_r. repeat split; try done; [constructor|apply Ha..].
  - destruct (next s) as [s1| | |] eqn:En; try done. intros Hrun.
    destruct (at_step s src off s1 Ha ltac:(congruence) En) as (t & r & E & Hk & Ha1).
    destruct (IH s1 _ Ha1 Hrun) as (t' & r' & E' & Hk' & Ha' & Hp'). rewrite (drop_app_at _ _ _ _ E) in E'.
    exists (t ++ t'), r'. rewrite E, E', length_app, Nat.add_assoc, app_assoc. repeat split; [by econstructor|apply Ha'|apply Ha'|done].
  - intros [= <-]. exists [], (drop off src). rewrite Nat.add_0_r. repeat split; try done; [constructor|apply Ha..].
Qed.

Lemma advance_run p t :
  chunks p t -> forall fuel s src off r c w, at_ s src off -> drop off src = t ++ r -> (length t <= fuel)%nat ->
  head_rune (off + length t) r = FOk (c, w) -> p c = false ->
  exists s', advance_while p fuel s = FOk s' /\ at_ s' src (off + length t).
Proof.
  induction 1 as [|c0 t0 t Hk Hp Hc IH]; intros fuel s src off r c w Ha E Hf Hr Hpc.
  - exists s. simpl in *. rewrite Nat.add_0_r in *. split; [|done]. destruct Ha as [_ Ha]. unfold read in Ha. rewrite E, Hr in Ha.
    injection Ha as <-. destruct fuel; simpl; by rewrite Hpc.
  - rewrite <- app_assoc in E. destruct (at_fields _ _ _ Ha) as (Es & Eo & Hd).
    destruct Ha as [Hle Ha]. pose proof Ha as Ha0. unfold read in Ha. rewrite E, (head_rune_app _ _ _ _ Hk) in Ha. injection Ha as <-.
    assert (Hlen : (0 < length t0)%nat) by (destruct Hk as [? _]; destruct t0; [done|simpl; lia]).
    rewrite length_app in *. destruct fuel as [|fuel]; [lia|]. simpl. rewrite Hp.
    assert (Hle' : (off + length t0 <= length src)%nat).
    { apply (f_equal length) in E. rewrite length_drop, !length_app in E. lia. }
    rewrite next_read by (simpl; lia). cbn [sc_src sc_rdOffset].
    assert (Hrd : exists s1, read src (off + length t0) = FOk s1).
    { unfold read. rewrite (drop_app_at _ _ _ _ E). destruct Hc as [|c1 t1 t2 Hk1 _ _].
      - simpl in *. rewrite Nat.add_0_r in Hr. rewrite Hr. simpl. eauto.
      - rewrite <- app_assoc, (head_rune_app _ _ _ _ Hk1). simpl. eauto. }
    destruct Hrd as [s1 Hs1]. rewrite Hs1. cbn [mbind fres_bind].
    destruct (IH fuel s1 src (off + length t0)%nat r c w) as (s' & ? & ?); [by split|by apply drop_app_at|lia| |done|].
    + by rewrite <- Nat.add_assoc.
    + exists s'. by rewrite Nat.add_assoc.
Qed.

Lemma advance_no_fuel p fuel s src off :
  p (-1) = false -> at_ s src off -> (length src - off < fuel)%nat -> advance_while p fuel s <> FFuel /\ advance_while p fuel s <> FPanic.
Proof.
  intros Hp. revert s off. induction fuel as [|fuel IH]; intros s off Ha Hf; [lia|]. simpl.
  destruct (p (sc_ch s)) eqn:Ep; [|done].
  pose proof (at_rd_le _ _ _ Ha) as Hle. destruct (at_fields _ _ _ Ha) as (Es & _).
  destruct (next_no_fuel s ltac:(by rewrite Es)) as [N1 N2]. destruct (next s) as [s1| | |] eqn:En; try done.
  destruct (at_step s src off s1 Ha ltac:(congruence) En) as (t & r & E & [Hk _] & Ha1). apply IH with (1 := Ha1).
  assert (0 < length t)%nat by (destruct t; [done|simpl; lia]). pose proof Ha1 as [? _]. lia.
Qed.

Lemma skip_while_inv p s s' src off :
  p (-1) = false -> at_ s src off -> skip_while p s = FOk s' ->
  exists t r, drop off src = t ++ r /\ chunks p t /\ at_ s' src (off + length t) /\ p (sc_ch s') = false.
Proof. apply advance_inv. Qed.

Lemma skip_while_run p t s src off r c w :
  chunks p t -> at_ s src off -> drop off src = t ++ r -> head_rune (off + length t) r = FOk (c, w) -> p c = false ->
  exists s', skip_while p s = FOk s' /\ at_ s' src (off + length t).
Proof.
  intros Hc Ha E. eapply advance_run; try done. destruct (at_fields _ _ _ Ha) as (-> & _).
  apply (f_equal length) in E. rewrite length_drop, length_app in E. lia.
Qed.

Lemma skip_while_ok p s src off :
  p (-1) = false -> at_ s src off -> skip_while p s <> FFuel /\ skip_while p s <> FPanic.
Proof. intros Hp Ha. eapply advance_no_fuel; [done..|]. destruct (at_fields _ _ _ Ha) as (-> & _). lia. Qed.

(** ** Tokens *)

(** The codes of the characters that the scanner names. *)
Ltac codes :=
  change (ch "0") with 48 in *; change (ch "9") with 57 in *; change (ch "x") with 120 in *; change (ch "X") with 88 in *;
  change (ch "a") with 97 in *; change (ch "f") with 102 in *; change (ch "A") with 65 in *; change (ch "F") with 70 in *;
  change (ch "z") with 122 in *; change (ch "Z") with 90 in *; change (ch "_") with 95 in *; change (ch "$") with 36 in *;
  change (ch ".") with 46 in *; change (ch "(") with 40 in *; change (ch ")") with 41 in *; change (ch "=") with 61 in *;
  change quote with 39 in *; change backslash with 92 in *; change RuneSelf with 128 in *.

Section Tokens.
Context `{Unicode}.

Definition identc (c : Z) : bool := isLetter c || isDigit c.
Definition spacec (c : Z) : bool := (c =? 32) || (c =? 9).
Definition strc (c : Z) : bool := negb (c =? quote) && negb (c =? backslash).

(** An identifier or keyword. *)
Definition word (t : bytes) : Prop := chunks identc t /\ exists c t0 r, t = t0 ++ r /\ chunk c t0 /\ isLetter c = true.

Definition ident (t : bytes) : Prop := word t /\ keyword t = false.

(** A string literal has no quote and no backslash between its quotes. *)
Definition literal (t : bytes) : Prop := exists body, t = [x27] ++ body ++ [x27] /\ chunks strc body.

(** What the parser relies on. *)
Definition token_ok (tok : token) (lit : bytes) : Prop :=
  match tok with
  | tokIdent => ident lit
  | tokString => literal lit
  | tokEOF => lit = []
  | _ => True
  end.

Lemma slice_prefix s src off t r :
  sc_src s = src -> drop off src = t ++ r -> slice_of s off (off + length t) = t.
Proof. intros Es E. unfold slice_of. rewrite Es, E. replace (off + length t - off)%nat with (length t) by lia. apply take_app_length. Qed.

Lemma chunk_quote : chunk quote [x27].
Proof. apply (chunk_ascii x27); done. Qed.

Lemma chunk_inj c t c' t' : chunk c t -> chunk c' t' -> forall r r', t ++ r = t' ++ r' -> c = c' /\ t = t' /\ r = r'.
Proof.
  intros (_ & _ & H1) (_ & _ & H2) r r' E. pose proof (H1 0%nat r) as E1. rewrite E, H2 in E1. injection E1 as -> Hl.
  by apply app_inj_1 in E as [-> ->].
Qed.

(** A character of ASCII is one byte. *)
Lemma chunk_small c t : chunk c t -> c < RuneSelf -> exists b, t = [b] /\ Z_of_byte b = c.
Proof.
  intros (Hne & _ & Hk) Hc. destruct t as [|b t]; [done|]. exists b. specialize (Hk 0%nat []). rewrite app_nil_r in Hk.
  unfold head_rune in Hk. destruct (Z_of_byte b =? 0); [done|]. destruct (RuneSelf <=? Z_of_byte b) eqn:Es.
  - destruct (DecodeRune (b :: t)) as [r w] eqn:Ed. destruct ((r =? RuneError) && (w =? 1)%nat) eqn:Ee; [done|].
    destruct (r =? bom); [done|]. injection Hk as <- ->. zbool. exfalso.
    destruct (DecodeRune_wide _ _ _ _ Es Ed) as [[-> Ew]|[H1 H0]]; [by rewrite Ew in Ee|].
    destruct (DecodeRune_local _ _ _ Ed H1 H0) as (_ & ? & _). lia.
  - injection Hk as <- Hl. by destruct t.
Qed.

Lemma chunk_quote_inv t : chunk quote t -> t = [x27].
Proof.
  intros Hk. destruct (chunk_small _ _ Hk ltac:(done)) as (b & -> & Hb). f_equal.
  apply (inj Z_of_byte). by rewrite Hb.
Qed.

Lemma scan_string_inv offs fuel s s' src off :
  at_ s src off -> scan_string offs fuel s = FOk s' ->
  exists body r, drop off src = body ++ [x27] ++ r /\ chunks strc body /\ at_ s' src (off + length body + 1).
Proof.
  revert s off. induction fuel as [|fuel IH]; intros s off Ha; cbn [scan_string]; destruct (sc_ch s <? 0) eqn:Ec; try done; zbool;
    destruct (next s) as [s1| | |] eqn:En; try done; cbn [mbind fres_bind];
    destruct (at_step s src off s1 Ha ltac:(lia) En) as (t & r & E & Hk & Ha1);
    (destruct (sc_ch s =? quote) eqn:Eq;
      [intros [= <-]; zbool; rewrite Eq in Hk; apply chunk_quote_inv in Hk as ->; exists [], r;
       rewrite Nat.add_0_r; split; [done|]; split; [constructor|done]|]);
    destruct (sc_ch s =? backslash) eqn:Eb; try done.
  intros Hrun. destruct (IH s1 _ Ha1 Hrun) as (body & r' & E' & Hc & Ha'). rewrite (drop_app_at _ _ _ _ E) in E'.
  exists (t ++ body), r'. rewrite E, E', <- app_assoc, length_app, Nat.add_assoc. split; [done|]. split; [|done].
  econstructor; [done| |done]. unfold strc. by rewrite Eq, Eb.
Qed.

Lemma scan_string_run offs body :
  chunks strc body -> forall fuel s src off r c w, at_ s src off -> drop off src = body ++ [x27] ++ r -> (length body <= fuel)%nat ->
  head_rune (off + length body + 1) r = FOk (c, w) ->
  exists s', scan_string offs fuel s = FOk s' /\ at_ s' src (off + length body + 1).
Proof.
  induction 1 as [|c0 t0 t Hk Hp Hc IH]; intros fuel s src off r c w Ha E Hf Hr.
  - destruct (at_fields _ _ _ Ha) as (Es & Eo & [(En & _)|(t & r' & E' & Hk & Er)]); [by rewrite E in En|].
    rewrite E in E'. destruct (chunk_inj _ _ _ _ chunk_quote Hk _ _ E') as (Ec & <- & <-).
    exists (mkScanner src c (off + 1) (off + 1 + w)). simpl in Hr. rewrite Nat.add_0_r in Hr.
    assert (En : next s = FOk (mkScanner src c (off + 1) (off + 1 + w))).
    { rewrite next_read by (rewrite Es; by eapply at_rd_le). rewrite Es, Er. unfold read.
      rewrite (drop_app_at _ _ [x27] _ E). simpl. by rewrite Hr. }
    split; [|].
    + destruct fuel; cbn [scan_string]; rewrite <- Ec, En; done.
    + simpl. rewrite Nat.add_0_r. pose proof (at_next _ _ _ _ Ha En) as Ha'. by rewrite Er in Ha'.
  - rewrite <- app_assoc in E. destruct (at_fields _ _ _ Ha) as (Es & Eo & [(En & _)|(t' & r' & E' & Hk' & Er)]).
    { rewrite E in En. destruct Hk as [? _]. by destruct t0. }
    rewrite E in E'. destruct (chunk_inj _ _ _ _ Hk Hk' _ _ E') as (Ec & <- & <-).
    assert (Hlen : (0 < length t0)%nat) by (destruct Hk as [? _]; destruct t0; [done|simpl; lia]).
    rewrite length_app in *. destruct fuel as [|fuel]; [lia|].
    assert (Hrd : exists s1, next s = FOk s1).
    { rewrite next_read by (rewrite Es; by eapply at_rd_le). rewrite Es, Er. unfold read.
      rewrite (drop_app_at _ _ _ _ E). destruct Hc as [|c1 t1 t2 Hk1 _ _].
      - cbn [app]. rewrite (head_rune_app _ _ [x27] r chunk_quote). simpl. eauto.
      - rewrite <- app_assoc, (head_rune_app _ _ _ _ Hk1). simpl. eauto. }
    destruct Hrd as [s1 Hs1]. pose proof (at_next _ _ _ _ Ha Hs1) as Ha1. rewrite Er in Ha1.
    destruct (IH fuel s1 src (off + length t0)%nat r c w) as (s' & Hrun & Ha'); [done|by apply drop_app_at|lia| |].
    { by rewrite <- (Nat.add_assoc off). }
    exists s'. split; [|by rewrite Nat.add_assoc]. unfold strc in Hp. apply andb_true_iff in Hp as [Hq Hb].
    apply negb_true_iff in Hq, Hb. destruct Hk as (_ & Hpos & _). cbn [scan_string]. rewrite <- Ec, Hs1.
    destruct (Z.ltb_spec c0 0); [lia|]. cbn [mbind fres_bind]. by rewrite Hq, Hb.
Qed.

Lemma scan_string_ok offs fuel s src off :
  at_ s src off -> (length src - off < fuel)%nat -> scan_string offs fuel s <> FFuel /\ scan_string offs fuel s <> FPanic.
Proof.
  revert s off. induction fuel as [|fuel IH]; intros s off Ha Hf; [lia|]. cbn [scan_string].
  destruct (sc_ch s <? 0) eqn:Ec; [done|]. zbool. pose proof (at_rd_le _ _ _ Ha) as Hle. destruct (at_fields _ _ _ Ha) as (Es & _).
  destruct (next_no_fuel s ltac:(by rewrite Es)) as [N1 N2]. destruct (next s) as [s1| | |] eqn:En; try done. cbn [mbind fres_bind].
  destruct (sc_ch s =? quote); [done|]. destruct (sc_ch s =? backslash); [done|].
  destruct (at_step s src off s1 Ha ltac:(lia) En) as (t & r & E & [Hk _] & Ha1). apply IH with (1 := Ha1).
  assert (0 < length t)%nat by (destruct t; [done|simpl; lia]). pose proof Ha1 as [? _]. lia.
Qed.

(** *** What a token is *)

(** [s] stands at [off] or behind. *)
Definition from (src : bytes) (off : nat) (s : scanner) : Prop := exists off', (off <= off')%nat /\ at_ s src off'.

Lemma from_trans src off off' s : (off <= off')%nat -> from src off' s -> from src off s.
Proof. intros Hle (o & ? & ?). exists o. split; [lia|done]. Qed.

Lemma next_from s src off s' : at_ s src off -> sc_ch s <> -1 -> next s = FOk s' -> from src (S off) s'.
Proof.
  intros Ha Hc Hn. destruct (at_step _ _ _ _ Ha Hc Hn) as (t & r & _ & [Hk _] & Ha'). eexists. split; [|exact Ha'].
  destruct t; [done|simpl; lia].
Qed.

Lemma skip_from p s src off s' : p (-1) = false -> at_ s src off -> skip_while p s = FOk s' -> from src off s'.
Proof. intros Hp Ha Hr. destruct (skip_while_inv _ _ _ _ _ Hp Ha Hr) as (t & r & _ & _ & Ha' & _). eexists. split; [|exact Ha']. lia. Qed.

Lemma digitVal_eof base : base <= 16 -> (digitVal (-1) <? base) = false.
Proof. intros Hb. apply Z.ltb_ge. exact Hb. Qed.

Lemma scanNumber_from s src off s' :
  at_ s src off -> (ch "0" <=? sc_ch s) && (sc_ch s <=? ch "9") = true -> scanNumber s = FOk s' -> from src (S off) s'.
Proof.
  intros Ha Hd. assert (Hc : sc_ch s <> -1) by (zbool; codes; lia). unfold scanNumber.
  destruct (sc_ch s =? ch "0") eqn:E0.
  - destruct (next s) as [s1| | |] eqn:En; try done. cbn [mbind fres_bind].
    destruct (next_from _ _ _ _ Ha Hc En) as (o1 & Ho1 & Ha1). destruct (_ || _) eqn:Ex.
    + destruct (next s1) as [s2| | |] eqn:En2; try done. cbn [mbind fres_bind].
      assert (Hc1 : sc_ch s1 <> -1) by (apply orb_true_iff in Ex as [Ex|Ex]; zbool; codes; lia).
      destruct (next_from _ _ _ _ Ha1 Hc1 En2) as (o2 & Ho2 & Ha2).
      destruct (scanMantissa 16 s2) as [s3| | |] eqn:Em; try done. cbn [mbind fres_bind].
      destruct (_ <=? _)%nat; [done|]. intros [= <-].
      apply (from_trans src (S off) o2); [lia|]. by apply (skip_from (fun c => digitVal c <? 16) s2).
    + destruct (_ <? 10); [done|]. intros [= <-]. exists o1. done.
  - intros Hr. unfold scanMantissa in Hr. destruct (skip_while_inv _ _ _ _ _ (digitVal_eof 10 ltac:(lia)) Ha Hr) as (t & r & _ & Ht & Ha' & Hp).
    exists (off + length t)%nat. split; [|done]. destruct t as [|b t]; [|simpl; lia]. exfalso.
    simpl in Ha'. rewrite Nat.add_0_r in Ha'. destruct Ha as [_ Ha], Ha' as [_ Ha']. rewrite Ha in Ha'. injection Ha' as <-.
    unfold digitVal in Hp. rewrite Hd in Hp. zbool. codes. lia.
Qed.

Lemma word_scanned s s' src off :
  at_ s src off -> isLetter (sc_ch s) = true -> skip_while identc s = FOk s' ->
  exists t r, drop off src = t ++ r /\ word t /\ at_ s' src (off + length t).
Proof.
  intros Ha Hl Hr. destruct (skip_while_inv _ _ _ _ _ eq_refl Ha Hr) as (t & r & E & Ht & Ha' & Hp).
  exists t, r. split; [done|]. split; [|done]. split; [done|].
  destruct (at_fields _ _ _ Ha) as (_ & _ & [(_ & Hc & _)|(t1 & r1 & E1 & Hk & _)]); [by rewrite Hc in Hl|].
  destruct Ht as [|c0 t0 t2 Hk0 _ _].
  - exfalso. simpl in Ha'. rewrite Nat.add_0_r in Ha'. destruct Ha as [_ Ha], Ha' as [_ Ha']. rewrite Ha in Ha'. injection Ha' as <-.
    unfold identc in Hp. by rewrite Hl in Hp.
  - rewrite E, <- app_assoc in E1. destruct (chunk_inj _ _ _ _ Hk0 Hk _ _ E1) as (-> & -> & _). exists (sc_ch s), t1, t2. done.
Qed.

Lemma Scan_inv s src off pos tok lit s' :
  at_ s src off -> Scan s = FOk (pos, tok, lit, s') ->
  from src off s' /\ (tok <> tokEOF -> from src (S off) s') /\ token_ok tok lit.
Proof.
  intros Ha0. unfold Scan. destruct (skipWhitespace s) as [s0| | |] eqn:Ew; try done. cbn [mbind fres_bind].
  destruct (skip_from _ _ _ _ _ eq_refl Ha0 Ew) as (o & Ho & Ha). clear Ha0 Ew s.
  assert (Hfrom : forall s1, from src (S o) s1 -> forall (P : Prop), P -> from src off s1 /\ (tok <> tokEOF -> from src (S off) s1) /\ P).
  { intros s1 Hs P HP. split; [by eapply from_trans; [|exact Hs]; lia|]. split; [intros _; eapply from_trans; [|exact Hs]; lia|done]. }
  destruct (isLetter (sc_ch s0)) eqn:El.
  - unfold scanIdentifier. destruct (skip_while _ s0) as [s1| | |] eqn:Es; try done. cbn [mbind fres_bind mret fres_ret].
    destruct (word_scanned _ _ _ _ Ha El Es) as (t & r & E & Hw & Ha1). destruct (at_fields _ _ _ Ha) as (_ & -> & _).
    destruct (at_fields _ _ _ Ha1) as (Hsrc & -> & _). rewrite (slice_prefix s1 src o t r Hsrc E).
    intros [= <- <- <- <-]. apply Hfrom.
    + eexists. split; [|exact Ha1]. destruct Hw as (_ & c & t0 & r0 & -> & [Hk _] & _). rewrite length_app. destruct t0; [done|simpl; lia].
    + destruct (keyword t) eqn:Ek; [done|]. by split.
  - destruct (_ && _) eqn:Ed.
    + destruct (scanNumber s0) as [s1| | |] eqn:En; try done. intros [= <- <- <- <-]. apply Hfrom; [|done].
      by eapply scanNumber_from.
    + destruct (next s0) as [s1| | |] eqn:En; try done. cbn [mbind fres_bind]. destruct (sc_ch s0 =? -1) eqn:Ee.
      { intros [= <- <- <- <-]. zbool. split; [|split; [done|done]]. destruct (at_fields _ _ _ Ha) as (_ & _ & [(_ & _ & Er)|(t & r & _ & (_ & ? & _) & _)]); [|lia].
        pose proof (at_next _ _ _ _ Ha En) as Ha1. rewrite Er in Ha1. exists o. split; [lia|done]. }
      zbool. destruct (next_from _ _ _ _ Ha Ee En) as (o1 & Ho1 & Ha1). destruct (sc_ch s0 =? quote) eqn:Eq.
      * zbool. unfold scanString. destruct (scan_string _ _ s1) as [s2| | |] eqn:Es; try done. intros [= <- <- <- <-].
        destruct (at_step _ _ _ _ Ha Ee En) as (t & r & E & Hk & Ha1'). rewrite Eq in Hk. apply chunk_quote_inv in Hk as ->.
        destruct (scan_string_inv _ _ _ _ _ _ Ha1' Es) as (body & r' & E' & Hb & Ha2). rewrite (drop_app_at _ _ _ _ E) in E'. subst r.
        destruct (at_fields _ _ _ Ha) as (_ & -> & _). destruct (at_fields _ _ _ Ha2) as (Hsrc & -> & _).
        apply Hfrom; [exists (o + length [x27] + length body + 1)%nat; split; [simpl; lia|done]|]. exists body. split; [|done].
        rewrite !app_assoc in E. pose proof (slice_prefix s2 src o _ r' Hsrc E) as Hs. rewrite !length_app in Hs. simpl in Hs. simpl.
        by replace (o + 1 + length body + 1)%nat with (o + (S (length body) + 1))%nat by lia.
      * destruct (punct (sc_ch s0)); [intros [= <- <- <- <-]; apply Hfrom; [by exists o1|done]|].
        destruct (sc_ch s0 =? ch "$"); [|done].
        destruct (scanMantissa 10 s1) as [s2| | |] eqn:Em; try done. cbn [mbind fres_bind]. destruct (_ <=? 1)%nat; [done|].
        intros [= <- <- <- <-]. apply Hfrom; [|done]. apply (from_trans src (S o) o1); [lia|].
        by apply (skip_from (fun c => digitVal c <? 10) s1).
Qed.

(** *** Scanning ends *)

(** Neither out of fuel nor a panic. *)
Definition settles {E A} (r : fres E A) : Prop := r <> FFuel /\ r <> FPanic.

Lemma settles_bind {E A B} (r : fres E A) (f : A -> fres E B) :
  settles r -> (forall a, r = FOk a -> settles (f a)) -> settles (r ≫= f).
Proof. intros [H1 H2] Hf. destruct r; try done. by apply Hf. Qed.

Lemma settles_next s src off : at_ s src off -> settles (next s).
Proof. intros Ha. apply next_no_fuel. destruct (at_fields _ _ _ Ha) as (-> & _). by eapply at_rd_le. Qed.

Lemma settles_mantissa base s src off : base <= 16 -> at_ s src off -> settles (scanMantissa base s).
Proof. intros Hb Ha. eapply skip_while_ok; [by apply digitVal_eof|done]. Qed.

Lemma settles_ret {E A} (a : A) : settles (mret a : fres E A).
Proof. done. Qed.

Lemma settles_if {E A} (b : bool) (r1 r2 : fres E A) : settles r1 -> settles r2 -> settles (if b then r1 else r2).
Proof. by destruct b. Qed.

Lemma scanNumber_settles s src off : at_ s src off -> settles (scanNumber s).
Proof.
  intros Ha. unfold scanNumber. apply settles_if; [|by eapply settles_mantissa].
  apply settles_bind; [by eapply settles_next|]. intros s1 E1. pose proof (at_next _ _ _ _ Ha E1) as Ha1.
  apply settles_if; [|by apply settles_if]. apply settles_bind; [by eapply settles_next|]. intros s2 E2.
  pose proof (at_next _ _ _ _ Ha1 E2) as Ha2. apply settles_bind; [by eapply settles_mantissa|]. intros s3 _. by apply settles_if.
Qed.

Lemma Scan_settles s src off : at_ s src off -> settles (Scan s).
Proof.
  intros Ha0. unfold Scan. apply settles_bind; [by eapply skip_while_ok|]. intros s0 Ew.
  destruct (skip_from _ _ _ _ _ eq_refl Ha0 Ew) as (o & Ho & Ha). apply settles_if; [|apply settles_if].
  - apply settles_bind; [|by intros []]. unfold scanIdentifier. apply settles_bind; [by eapply skip_while_ok|done].
  - apply settles_bind; [by eapply scanNumber_settles|done].
  - apply settles_bind; [by eapply settles_next|]. intros s1 E1. pose proof (at_next _ _ _ _ Ha E1) as Ha1.
    apply settles_if; [done|]. apply settles_if.
    + apply settles_bind; [|done]. eapply scan_string_ok; [done|]. destruct (at_fields _ _ _ Ha1) as (-> & _). lia.
    + apply settles_if; [done|]. apply settles_if; [|done]. apply settles_bind; [by eapply settles_mantissa|].
      intros s2 _. by apply settles_if.
Qed.

(** *** Scanning a text that is known *)

(** A text whose first character can be read. *)
Definition reads (c : Z) (r : bytes) : Prop := r = [] /\ c = -1 \/ exists t r', r = t ++ r' /\ chunk c t.

Lemma reads_head c r off : reads c r -> exists w, head_rune off r = FOk (c, w).
Proof. intros [[-> ->]|(t & r' & -> & Hk)]; [by exists 0%nat|]. eexists. by apply head_rune_app. Qed.

Lemma at_exists src off c : (off <= length src)%nat -> reads c (drop off src) -> exists s, at_ s src off /\ sc_ch s = c.
Proof.
  intros Hle Hr. destruct (reads_head c _ off Hr) as [w Hw]. exists (mkScanner src c off (off + w)). split; [|done].
  split; [done|]. unfold read. by rewrite Hw.
Qed.

Lemma at_reads s src off c : at_ s src off -> reads c (drop off src) -> sc_ch s = c.
Proof.
  intros [Hle Ha] Hr. destruct (reads_head c _ off Hr) as [w Hw]. unfold read in Ha. rewrite Hw in Ha. by injection Ha as <-.
Qed.

Lemma next_run s src off t r c :
  at_ s src off -> chunk (sc_ch s) t -> drop off src = t ++ r -> reads c r ->
  exists s', next s = FOk s' /\ at_ s' src (off + length t) /\ sc_ch s' = c.
Proof.
  intros Ha Hk E Hr. destruct (at_fields _ _ _ Ha) as (Es & _ & [(En & _)|(t' & r' & E' & Hk' & Er)]).
  { rewrite E in En. destruct Hk as [? _]. by destruct t. }
  rewrite E in E'. destruct (chunk_inj _ _ _ _ Hk Hk' _ _ E') as (_ & <- & <-). pose proof (at_rd_le _ _ _ Ha) as Hle.
  rewrite Er in Hle. destruct (at_exists src (off + length t) c Hle) as (s' & Ha' & Hc'); [by rewrite (drop_app_at _ _ _ _ E)|].
  exists s'. split; [|done]. rewrite next_read by (rewrite Es, Er; done). rewrite Es, Er. apply Ha'.
Qed.

Lemma run_while p t s src off r c :
  chunks p t -> at_ s src off -> drop off src = t ++ r -> reads c r -> p c = false ->
  exists s', skip_while p s = FOk s' /\ at_ s' src (off + length t) /\ sc_ch s' = c.
Proof.
  intros Hc Ha E Hr Hp. destruct (reads_head c r (off + length t) Hr) as [w Hw].
  destruct (skip_while_run p t s src off r c w Hc Ha E Hw Hp) as (s' & Hs & Ha'). exists s'. split; [done|]. split; [done|].
  eapply at_reads; [done|]. by rewrite (drop_app_at _ _ _ _ E).
Qed.

(** Scanning [sp ++ t ++ r] gives the token [t] and goes behind it. *)
Definition scans (s : scanner) (src : bytes) (off : nat) (sp t : bytes) (tok : token) : Prop :=
  exists s', Scan s = FOk ((off + length sp)%nat, tok, t, s') /\ at_ s' src (off + length sp + length t).

Lemma reads_cons t r c : chunk c t -> reads c (t ++ r).
Proof. intros Hk. right. eauto. Qed.

(** The positions before and after a token. *)
Ltac positions E :=
  match type of E with drop ?off ?src = ?sp ++ ?t ++ ?r => pose proof (drop_app_at src off sp (t ++ r) E) as Et end.

Lemma chunk_letter c t : chunk c t -> isLetter c = true -> identc c = true /\ spacec c = false.
Proof. intros _ Hl. unfold identc, spacec. rewrite Hl. split; [done|]. unfold isLetter in Hl. codes.
  destruct (c =? 32) eqn:E1; zbool; [by subst|]. destruct (c =? 9) eqn:E2; zbool; [by subst|done]. Qed.

Lemma Scan_word s src off sp t r c :
  at_ s src off -> drop off src = sp ++ t ++ r -> chunks spacec sp -> word t -> reads c r -> identc c = false ->
  scans s src off sp t (if keyword t then tokKeyword else tokIdent).
Proof.
  intros Ha E Hsp [Ht (c0 & t0 & r0 & Et0 & Hk & Hl)] Hr Hc. positions E. destruct (chunk_letter _ _ Hk Hl) as [_ Hs0].
  destruct (run_while spacec sp s src off (t ++ r) c0 Hsp Ha E) as (s0 & Ew & Ha0 & Hc0); [|done|].
  { subst t. rewrite <- app_assoc. by apply reads_cons. }
  destruct (run_while identc t s0 src _ r c Ht Ha0 Et Hr Hc) as (s1 & Ei & Ha1 & Hc1).
  exists s1. split; [|done]. unfold Scan, skipWhitespace. fold spacec. rewrite Ew. cbn [mbind fres_bind]. rewrite Hc0, Hl.
  unfold scanIdentifier. fold identc. rewrite Ei. cbn [mbind fres_bind mret fres_ret].
  destruct (at_fields _ _ _ Ha0) as (_ & -> & _). destruct (at_fields _ _ _ Ha1) as (Hsrc & -> & _).
  by rewrite (slice_prefix s1 src _ t r Hsrc Et).
Qed.

Lemma not_letter c : c < 65 -> isLetter c = false.
Proof. intros Hc. unfold isLetter. codes. rewrite (proj2 (Z.leb_gt 97 c)), (proj2 (Z.leb_gt 65 c)), (proj2 (Z.leb_gt 128 c)) by lia.
  rewrite (proj2 (Z.eqb_neq c 95)) by lia. done. Qed.

(** The digits of a number. *)
Definition digits (t : bytes) : Prop := chunks (fun c => digitVal c <? 10) t.

Lemma digit_code c : (digitVal c <? 10) = true -> 48 <= c <= 57.
Proof.
  unfold digitVal. codes. destruct ((48 <=? c) && (c <=? 57)) eqn:E; [zbool; lia|].
  destruct ((97 <=? c) && (c <=? 102)) eqn:E1; [intros; zbool; lia|].
  destruct ((65 <=? c) && (c <=? 70)) eqn:E2; intros; zbool; lia.
Qed.

Lemma Scan_number s src off sp t r c :
  at_ s src off -> drop off src = sp ++ t ++ r -> chunks spacec sp -> digits t ->
  (exists c0 t0 r0, t = t0 ++ r0 /\ chunk c0 t0 /\ (c0 = 48 -> r0 = [])) ->
  reads c r -> (digitVal c <? 10) = false -> c <> 120 -> c <> 88 -> scans s src off sp t tokInteger.
Proof.
  intros Ha E Hsp Ht (c0 & t0 & r0 & Et0 & Hk & H0) Hr Hc Hx HX. positions E.
  assert (Hd0 : 48 <= c0 <= 57).
  { apply digit_code. destruct Ht as [|c1 t1 t2 Hk1 Hp1 _]; [destruct Hk as [? _]; by destruct t0|].
    destruct (chunk_inj _ _ _ _ Hk Hk1 _ _ (eq_sym Et0)) as (-> & _). done. }
  destruct (run_while spacec sp s src off (t ++ r) c0 Hsp Ha E) as (s0 & Ew & Ha0 & Hc0).
  { subst t. rewrite <- app_assoc. by apply reads_cons. }
  { unfold spacec. rewrite (proj2 (Z.eqb_neq c0 32)), (proj2 (Z.eqb_neq c0 9)) by lia. done. }
  assert (Hn : exists s1, scanNumber s0 = FOk s1 /\ at_ s1 src (off + length sp + length t)).
  { unfold scanNumber. rewrite Hc0. destruct (Z.eqb_spec c0 (ch "0")) as [Ez|Ez]; codes.
    - rewrite (H0 Ez), app_nil_r in Et0. subst t0. rewrite <- Hc0 in Hk.
      destruct (next_run s0 src _ t r c Ha0 Hk Et Hr) as (s1 & En & Ha1 & Hc1). exists s1. rewrite En. cbn [mbind fres_bind].
      rewrite Hc1, (proj2 (Z.eqb_neq c 120) Hx), (proj2 (Z.eqb_neq c 88) HX). simpl. by rewrite Hc.
    - destruct (run_while _ t s0 src _ r c Ht Ha0 Et Hr Hc) as (s1 & Ei & Ha1 & _). exists s1. done. }
  destruct Hn as (s1 & En & Ha1). exists s1. split; [|done]. unfold Scan, skipWhitespace. fold spacec. rewrite Ew. cbn [mbind fres_bind].
  rewrite Hc0, not_letter by lia. codes. rewrite (proj2 (Z.leb_le 48 c0)), (proj2 (Z.leb_le c0 57)) by lia. simpl. rewrite En.
  cbn [mbind fres_bind mret fres_ret]. destruct (at_fields _ _ _ Ha0) as (_ & -> & _). destruct (at_fields _ _ _ Ha1) as (Hsrc & -> & _).
  by rewrite (slice_prefix s1 src _ t r Hsrc Et).
Qed.

(** The white space before a token whose first character is [c0]. *)
Lemma Scan_skips s src off sp t r c0 :
  at_ s src off -> drop off src = sp ++ t ++ r -> chunks spacec sp -> reads c0 (t ++ r) -> spacec c0 = false ->
  exists s0, skipWhitespace s = FOk s0 /\ at_ s0 src (off + length sp) /\ sc_ch s0 = c0 /\ sc_offset s0 = (off + length sp)%nat.
Proof.
  intros Ha E Hsp Hr Hc. destruct (run_while spacec sp s src off (t ++ r) c0 Hsp Ha E Hr Hc) as (s0 & Ew & Ha0 & Hc0).
  exists s0. destruct (at_fields _ _ _ Ha0) as (_ & Ho & _). done.
Qed.

(** A token of neither letters nor digits: its first character, then what [Scan] does behind it. *)
Lemma Scan_mark s src off sp t0 t r c0 c1 :
  at_ s src off -> drop off src = sp ++ t0 ++ t ++ r -> chunks spacec sp -> chunk c0 t0 -> reads c1 (t ++ r) ->
  c0 < 65 -> c0 <> 32 -> c0 <> 9 -> (48 <=? c0) && (c0 <=? 57) = false ->
  exists s0 s1, skipWhitespace s = FOk s0 /\ sc_ch s0 = c0 /\ sc_offset s0 = (off + length sp)%nat /\ isLetter c0 = false /\
    next s0 = FOk s1 /\ at_ s1 src (off + length sp + length t0) /\ sc_ch s1 = c1.
Proof.
  intros Ha E Hsp Hk Hr Hlt Hs1 Hs2 Hd.
  destruct (Scan_skips s src off sp t0 (t ++ r) c0 Ha E Hsp) as (s0 & Ew & Ha0 & Hc0 & Ho0); [by apply reads_cons| |].
  { unfold spacec. by rewrite (proj2 (Z.eqb_neq c0 32)), (proj2 (Z.eqb_neq c0 9)). }
  positions E. rewrite <- Hc0 in Hk. destruct (next_run s0 src _ t0 (t ++ r) c1 Ha0 Hk Et Hr) as (s1 & En & Ha1 & Hc1).
  exists s0, s1. by rewrite not_letter.
Qed.

Lemma Scan_eof s src off : at_ s src off -> drop off src = [] -> exists pos s', Scan s = FOk (pos, tokEOF, [], s').
Proof.
  intros Ha E. destruct (Scan_skips s src off [] [] [] (-1) Ha E) as (s0 & Ew & Ha0 & Hc0 & Ho0); [constructor|by left|done|].
  cbn [length] in *. rewrite Nat.add_0_r in *. unfold Scan. rewrite Ew. cbn [mbind fres_bind]. rewrite Hc0.
  assert (En : exists s1, next s0 = FOk s1).
  { destruct (at_fields _ _ _ Ha0) as (Es & _ & [(_ & _ & Er)|(t & r & E' & [Hk _] & _)]); [|rewrite E in E'; by destruct t].
    rewrite next_read by (rewrite Es, Er; apply Ha0). rewrite Es, Er. exists s0. apply Ha0. }
  destruct En as [s1 En]. rewrite not_letter by lia. simpl. rewrite En. simpl. by exists (sc_offset s0), s1.
Qed.

Lemma Scan_punct s src off sp b r c :
  at_ s src off -> drop off src = sp ++ [b] ++ r -> chunks spacec sp -> punct (Z_of_byte b) = true -> reads c r ->
  scans s src off sp [b] tokPunct.
Proof.
  intros Ha E Hsp Hp Hr. assert (Hb : Z_of_byte b = 46 \/ Z_of_byte b = 40 \/ Z_of_byte b = 41 \/ Z_of_byte b = 61).
  { unfold punct in Hp. codes. repeat (apply orb_true_iff in Hp as [Hp|Hp]); zbool; lia. }
  destruct (Scan_mark s src off sp [b] [] r (Z_of_byte b) c) as (s0 & s1 & Ew & Hc0 & Ho & Hl & En & Ha1 & Hc1); try done; try lia.
  { apply chunk_ascii; [apply Z.eqb_neq; lia|codes; lia]. }
  exists s1. split; [|done]. unfold Scan. rewrite Ew. cbn [mbind fres_bind]. rewrite Hc0, Hl. codes.
  replace ((48 <=? Z_of_byte b) && (Z_of_byte b <=? 57)) with false; [|by destruct Hb as [->|[->|[->| ->]]]].
  rewrite En. cbn [mbind fres_bind]. rewrite Hp, Ho. positions E. destruct (at_fields _ _ _ Ha1) as (Hsrc & Ho1 & _).
  rewrite Ho1, (slice_prefix s1 src _ [b] r Hsrc Et). by destruct Hb as [->|[->|[->| ->]]].
Qed.

Lemma Scan_literal s src off sp t r c :
  at_ s src off -> drop off src = sp ++ t ++ r -> chunks spacec sp -> literal t -> reads c r -> scans s src off sp t tokString.
Proof.
  intros Ha E Hsp (body & -> & Hb) Hr. pose proof E as E0. rewrite <- !app_assoc in E.
  assert (Hr1 : exists c1, reads c1 (body ++ [x27] ++ r)).
  { destruct Hb as [|c1 t1 t2 Hk _ _]; [exists quote; by apply (reads_cons [x27]), chunk_quote|].
    exists c1. rewrite <- app_assoc. by apply reads_cons. }
  destruct Hr1 as [c1 Hr1].
  destruct (Scan_mark s src off sp [x27] body ([x27] ++ r) quote c1 Ha E Hsp chunk_quote Hr1) as (s0 & s1 & Ew & Hc0 & Ho & Hl & En & Ha1 & Hc1); try done.
  positions E. pose proof (drop_app_at _ _ _ _ Et) as Eb. destruct (reads_head c r (off + length sp + 1 + length body + 1) Hr) as [w Hw].
  destruct (scan_string_run (sc_offset s1 - 1) body Hb (S (length (sc_src s1))) s1 src _ r c w Ha1 Eb) as (s2 & Hs & Ha2); [|done|].
  { destruct (at_fields _ _ _ Ha1) as (-> & _). apply (f_equal length) in Eb. rewrite length_drop, length_app in Eb. lia. }
  assert (Hlen : (off + length sp + length ([x27] ++ body ++ [x27]) = off + length sp + length [x27] + length body + 1)%nat)
    by (rewrite !length_app; simpl; lia).
  exists s2. rewrite Hlen. split; [|done]. unfold Scan. rewrite Ew. cbn [mbind fres_bind]. rewrite Hc0, Hl. simpl. rewrite En. cbn [mbind fres_bind].
  unfold scanString. rewrite Hs. cbn [mbind fres_bind mret fres_ret]. rewrite Ho.
  destruct (at_fields _ _ _ Ha2) as (Hsrc & -> & _). rewrite <- Hlen, (slice_prefix s2 src _ _ r Hsrc); [done|].
  by apply drop_app_at in E0.
Qed.

Lemma Scan_placeholder s src off sp t r c :
  at_ s src off -> drop off src = sp ++ (x24 :: t) ++ r -> chunks spacec sp -> digits t -> t <> [] ->
  reads c r -> (digitVal c <? 10) = false -> scans s src off sp (x24 :: t) tokPlaceholder.
Proof.
  intros Ha E Hsp Ht Hne Hr Hc. change ((x24 :: t) ++ r) with ([x24] ++ t ++ r) in E.
  assert (Hr1 : exists c1, reads c1 (t ++ r)).
  { destruct Ht as [|c1 t1 t2 Hk _ _]; [done|]. exists c1. rewrite <- app_assoc. by apply reads_cons. }
  destruct Hr1 as [c1 Hr1].
  destruct (Scan_mark s src off sp [x24] t r 36 c1 Ha E Hsp (chunk_ascii x24 eq_refl eq_refl) Hr1) as (s0 & s1 & Ew & Hc0 & Ho & Hl & En & Ha1 & Hc1); try done.
  positions E. pose proof (drop_app_at _ _ _ _ Et) as Eb.
  destruct (run_while _ t s1 src _ r c Ht Ha1 Eb Hr Hc) as (s2 & Em & Ha2 & _).
  assert (Hlen : (off + length sp + length [x24] + length t = off + length sp + length ([x24] ++ t))%nat) by (simpl; lia).
  exists s2. rewrite Hlen in Ha2. split; [|done]. unfold Scan. rewrite Ew. cbn [mbind fres_bind]. rewrite Hc0, Hl. simpl. rewrite En. cbn [mbind fres_bind].
  unfold scanMantissa. rewrite Em. cbn [mbind fres_bind]. destruct (at_fields _ _ _ Ha2) as (Hsrc & -> & _). rewrite Ho.
  destruct (Nat.leb_spec (off + length sp + length ([x24] ++ t) - (off + length sp)) 1) as [Hle|_].
  { destruct t; [done|]. simpl in Hle. lia. }
  change ([x24] ++ t ++ r) with (([x24] ++ t) ++ r) in Et. by rewrite (slice_prefix s2 src _ _ r Hsrc Et).
Qed.
End Tokens.
