(* ===== verification/FilterParse.v ===== *)
(** * The parser of filters ends

    Every call of the parser ends within the fuel that [parse] gives it, and what it
    returns is an expression in the shape that the precedences of operators force. *)

From Stdlib Require Import ZArith Lia Strings.Byte String.
From stdpp Require Import list.
From S2P Require Import Prelude Filter FilterScan.

(** ** Numbers *)

Lemma digitVal_range c : 0 <= digitVal c.
Proof. unfold digitVal. codes. repeat case_match; zbool; lia. Qed.

Lemma digits_value_nonneg base acc l v : 0 <= base -> 0 <= acc -> digits_value base acc l = Some v -> 0 <= v.
Proof.
  intros Hb. revert acc. induction l as [|b l IH]; intros acc Ha; simpl; [by intros [= <-]|].
  destruct (_ <? base); [|done]. apply IH. pose proof (digitVal_range (Z_of_byte b)). nia.
Qed.

Lemma parse_digits_range base l v : 0 <= base -> parse_digits base l = Some v -> 0 <= v <= MaxInt64.
Proof.
  intros Hb. unfold parse_digits. destruct l as [|b l]; [done|]. destruct (digits_value base 0 (b :: l)) as [w|] eqn:E; [|done].
  cbn [mbind option_bind]. destruct (Z.leb_spec w MaxInt64); [|done]. intros [= <-]. split; [|done].
  by eapply digits_value_nonneg in E.
Qed.

Lemma ParseInt_range l v : ParseInt l = Some v -> 0 <= v <= MaxInt64.
Proof. unfold ParseInt. repeat case_match; intros E; by eapply parse_digits_range in E. Qed.

(** ** Expressions that the parser builds *)

(** The operators, and the precedence of an expression; what is not an operation binds closest. *)
Definition operator (op : binaryOp) : Prop := binaryOps (op_name op) = Some op.

Definition level (e : expr) : Z := match e with binaryExpr op _ _ => precedence op | _ => 4 end.

Lemma binaryOps_operator lit op : binaryOps lit = Some op -> op_name op = lit /\ operator op /\ 1 <= precedence op <= 3.
Proof. unfold binaryOps, operator. repeat case_bool_decide; intros [= <-]; subst; done. Qed.

Lemma operator_precedence op : operator op -> 1 <= precedence op <= 3.
Proof. intros Ho. by apply binaryOps_operator in Ho as (_ & _ & ?). Qed.

Lemma operator_cases op : operator op -> op = opOR \/ op = opAND \/ op = opEq.
Proof. unfold operator, binaryOps. repeat case_bool_decide; intros [= <-]; auto. Qed.

(** The greatest placeholder. *)
Fixpoint max_placeholder (e : expr) : Z :=
  match e with
  | binaryExpr _ l r => Z.max (max_placeholder l) (max_placeholder r)
  | attrExpr _ | valueExpr _ _ => 0
  | selectorExpr _ e | parenExpr e | envExpr _ e => max_placeholder e
  | placeholderExpr num => num
  end.

Section Parser.
Context `{Unicode}.

(** The operands of an operator bind at least as close as it does, the right one closer. *)
Fixpoint canonical (e : expr) : Prop :=
  match e with
  | binaryExpr op l r => operator op /\ canonical l /\ canonical r /\ precedence op <= level l /\ precedence op < level r
  | attrExpr attr => ident attr
  | selectorExpr i obj => ident i /\ canonical obj /\ level obj = 4
  | parenExpr inner => canonical inner
  | valueExpr tokString v => literal v
  | valueExpr tokInteger v => exists n, 0 <= n <= MaxInt64 /\ v = Itoa n
  | valueExpr _ _ => False
  | envExpr i body => ident i /\ canonical body
  | placeholderExpr num => 0 < num <= MaxInt64
  end.

Lemma level_canonical e : canonical e -> 1 <= level e <= 4.
Proof. destruct e; simpl; try lia. intros (Ho & _). apply operator_precedence in Ho. lia. Qed.

Lemma max_placeholder_nonneg e : canonical e -> 0 <= max_placeholder e.
Proof. induction e; simpl; intros Hc; try lia; naive_solver lia. Qed.

(** ** Outcomes of the parser *)

(** An error, or a result with a property. *)
Definition post {A} (r : fres parseError (A * parser)) (Q : A -> parser -> Prop) : Prop :=
  match r with FOk (a, p) => Q a p | FErr _ => True | _ => False end.

Lemma post_bind {A B} (m : P A) (f : A -> P B) p Q : post (m p) (fun a p' => post (f a p') Q) -> post ((m ≫= f) p) Q.
Proof. unfold mbind, P_bind. by destruct (m p) as [[a p']| | |]. Qed.

Lemma post_get {B} (f : parser -> P B) p Q : post (f p p) Q -> post ((pget ≫= f) p) Q.
Proof. done. Qed.

Lemma post_mono {A} (r : fres parseError (A * parser)) (Q Q' : A -> parser -> Prop) :
  post r Q -> (forall a p, Q a p -> Q' a p) -> post r Q'.
Proof. destruct r as [[a p]| | |]; simpl; auto. Qed.

Lemma post_settles {A} (r : fres parseError (A * parser)) Q : post r Q -> settles r.
Proof. by destruct r as [[a p]| | |]. Qed.

Section Text.
Context (src : bytes).

(** The parser stands in the text. *)
Definition in_text (p : parser) : Prop :=
  token_ok (p_tok p) (p_lit p) /\ exists off, at_ (p_scanner p) src off.

(** What is left to read: nothing when the token is the end. *)
Definition left (p : parser) : nat :=
  if bool_decide (p_tok p = tokEOF) then 0%nat else S (length src - sc_offset (p_scanner p)).

(** The state after [p], closer to the end. *)
Definition moved (p p' : parser) : Prop := in_text p' /\ (left p' < left p)%nat /\ maxPlaceholder p' = maxPlaceholder p.

Lemma in_text_lit p : in_text p -> p_lit p <> [] -> p_tok p <> tokEOF.
Proof. intros [Hl _] Hne Ht. rewrite Ht in Hl. done. Qed.

Lemma next_post p : in_text p -> p_tok p <> tokEOF -> post (p_next p) (fun _ p' => moved p p').
Proof.
  intros [_ (off & Ha)] Ht. unfold p_next. destruct (Scan_settles _ _ _ Ha) as [N1 N2].
  destruct (Scan (p_scanner p)) as [[[[pos tok] lit] s]| | |] eqn:E; [|done..]. simpl.
  destruct (Scan_inv _ _ _ _ _ _ _ Ha E) as ((o & Ho & Ha1) & Hs & Hok).
  split; [by split; [|exists o]|]. split; [|done]. unfold left. cbn [p_tok p_scanner].
  rewrite (bool_decide_eq_false_2 _ Ht). case_bool_decide as Et; [lia|]. destruct (Hs Et) as (o' & Ho' & Ha').
  destruct (at_fields _ _ _ Ha) as (_ & -> & _), (at_fields _ _ _ Ha') as (_ & -> & _). destruct Ha' as [? _]. lia.
Qed.

Lemma parseLit_post lit p : in_text p -> lit <> [] -> post (parseLit lit p) (fun _ p' => moved p p').
Proof.
  intros Hi Hne. apply post_get. case_bool_decide as E; [|done]. apply next_post; [done|]. apply in_text_lit; [done|]. by rewrite E.
Qed.

Lemma parseTok_post tok p :
  in_text p -> tok <> tokEOF -> post (parseTok tok p) (fun _ p' => moved p p' /\ p_tok p = tok /\ token_ok tok (p_lit p)).
Proof.
  intros Hi Hne. apply post_get. case_bool_decide as E; [|done]. eapply post_mono; [apply next_post; [done|by rewrite E]|].
  intros [] p' Hm. split; [done|]. split; [done|]. rewrite <- E. apply Hi.
Qed.

(** The greatest placeholder seen is that before, [k], and that of the expression read. *)
Definition parsed (k : Z) (p : parser) (e : expr) (p' : parser) : Prop :=
  in_text p' /\ (left p' < left p)%nat /\ canonical e /\ level e = 4 /\ maxPlaceholder p' = Z.max k (max_placeholder e).

Lemma parseValue_post k p :
  in_text p -> 0 <= k -> maxPlaceholder p = k -> is_value (p_tok p) = true -> post (parseValue p) (parsed k p).
Proof.
  intros Hi Hk Hm Hv. apply post_get. destruct (p_tok p) eqn:Et; try done.
  - apply post_bind. eapply post_mono; [apply next_post; [done|by rewrite Et]|]. intros [] p' (Hi' & Hl & Hm').
    split; [done|]. split; [done|]. simpl. split; [|split; [done|lia]]. destruct Hi as [Hok _]. by rewrite Et in Hok.
  - destruct (ParseInt (p_lit p)) as [n|] eqn:E; [|done]. apply post_bind.
    eapply post_mono; [apply next_post; [done|by rewrite Et]|]. intros [] p' (Hi' & Hl & Hm').
    split; [done|]. split; [done|]. simpl. split; [|split; [done|lia]]. exists n. split; [by eapply ParseInt_range|done].
  - destruct (Atoi (drop 1 (p_lit p))) as [n|] eqn:E; [|done]. destruct (Z.ltb_spec 0 n); [|done]. apply post_bind.
    eapply post_mono; [apply next_post; [done|by rewrite Et]|]. intros [] p' (Hi' & Hl & Hm').
    unfold post, mbind, P_bind, set_max, mret, P_ret, mbind, fres_bind.
    assert (Hn : 0 < n <= MaxInt64) by (apply parse_digits_range in E; lia).
    destruct (Z.ltb_spec (maxPlaceholder p') n); (split; [exact Hi'|]); (split; [exact Hl|]); (split; [exact Hn|]); (split; [done|]); simpl; lia.
Qed.

Lemma parseSelectorExpr_post k p x :
  in_text p -> p_lit p = str "." -> maxPlaceholder p = Z.max k (max_placeholder x) -> canonical x -> level x = 4 ->
  post (parseSelectorExpr x p) (parsed k p).
Proof.
  intros Hi Hlit Hm Hx Hl. apply post_bind. eapply post_mono; [apply next_post; [done|apply in_text_lit; [done|by rewrite Hlit]]|].
  intros [] p1 (Hi1 & Hl1 & Hm1). apply post_get, post_bind. eapply post_mono; [by apply parseTok_post|].
  intros [] p2 ((Hi2 & Hl2 & Hm2) & Ht & Hok). split; [done|]. split; [lia|]. simpl. split; [done|]. split; [done|]. congruence.
Qed.

(** ** The calls of the parser *)

(** The next operator, if the token is one, binds no closer than [e]. *)
Definition fits (e : expr) (p : parser) : Prop := forall op, binaryOps (p_lit p) = Some op -> precedence op <= level e.

(** No operator of precedence [min] follows. *)
Definition stops (min : Z) (p : parser) : Prop := determineBinaryOp p min = None.

Lemma stops_fits min e p : stops min p -> min <= level e -> fits e p.
Proof. unfold stops, determineBinaryOp. intros Hs Hl op Ho. rewrite Ho in Hs. destruct (Z.leb_spec min (precedence op)); [done|lia]. Qed.

Lemma fits_primary e p : level e = 4 -> fits e p.
Proof. intros Hl op Ho. apply binaryOps_operator in Ho as (_ & _ & ?). lia. Qed.

Lemma determine_Some p min op :
  determineBinaryOp p min = Some op -> binaryOps (p_lit p) = Some op /\ min <= precedence op /\ operator op /\ op_name op = p_lit p.
Proof.
  unfold determineBinaryOp. destruct (binaryOps (p_lit p)) as [op'|] eqn:E; [|done]. destruct (Z.leb_spec min (precedence op')); [|done].
  intros [= <-]. apply binaryOps_operator in E as (? & ? & _). done.
Qed.

Lemma determine_tok p min op : in_text p -> determineBinaryOp p min = Some op -> p_tok p <> tokEOF.
Proof.
  intros Hi Hd. apply in_text_lit; [done|]. intros E. apply determine_Some in Hd as (Hb & _). by rewrite E in Hb.
Qed.

(** An expression read so far, [e], between [p] and [p']. *)
Definition grown (k : Z) (p : parser) (e : expr) (p' : parser) : Prop :=
  in_text p' /\ (left p' <= left p)%nat /\ canonical e /\ maxPlaceholder p' = Z.max k (max_placeholder e).

Definition begun (k : Z) (p : parser) (e : expr) : Prop := in_text p /\ 0 <= k /\ maxPlaceholder p = Z.max k (max_placeholder e) /\ canonical e.

Definition expr_ok (n : nat) : Prop := forall k p, in_text p -> 0 <= k -> maxPlaceholder p = k -> (4 * left p + 4 <= n)%nat ->
  post (parseExpr n p) (fun e p' => grown k p e p' /\ (left p' < left p)%nat).

Definition cont_ok (n : nat) : Prop := forall k p lhs min, begun k p lhs -> fits lhs p -> min <= level lhs -> (4 * left p + 1 <= n)%nat ->
  post (parseExprCont n lhs min p) (fun e p' => grown k p e p' /\ min <= level e /\ stops min p' /\
    (stops min p \/ (left p' < left p)%nat)).

Definition climb_ok (n : nat) : Prop := forall k p rhs min, begun k p rhs -> fits rhs p -> min <= level rhs -> (4 * left p + 2 <= n)%nat ->
  post (climb n rhs min p) (fun e p' => grown k p e p' /\ min <= level e /\ stops min p').

Definition primary_ok (n : nat) : Prop := forall k p, in_text p -> 0 <= k -> maxPlaceholder p = k -> (4 * left p + 3 <= n)%nat ->
  post (parsePrimaryExpr n p) (parsed k p).

Definition selectors_ok (n : nat) : Prop := forall k p x, begun k p x -> level x = 4 -> (left p + 1 <= n)%nat ->
  post (parseSelectors n x p) (fun e p' => grown k p e p' /\ level e = 4).

Definition operand_ok (n : nat) : Prop := forall k p, in_text p -> 0 <= k -> maxPlaceholder p = k -> (4 * left p + 2 <= n)%nat ->
  post (parseOperand n p) (parsed k p).

Lemma begun_parsed k p e p' : 0 <= k -> parsed k p e p' -> begun k p' e.
Proof. intros Hk (Hi & _ & Hc & _ & Hm). done. Qed.

Lemma begun_grown k p e p' : 0 <= k -> grown k p e p' -> begun k p' e.
Proof. intros Hk (Hi & _ & Hc & Hm). done. Qed.

Lemma expr_step n : primary_ok n -> cont_ok n -> expr_ok (S n).
Proof.
  intros HP HC k p Hi Hk Hm Hf. apply post_bind. eapply post_mono; [apply (HP k); [done..|lia]|].
  intros x p1 Hp. pose proof Hp as (_ & Hl & Hc & Hlv & _).
  eapply post_mono; [apply (HC k); [by eapply begun_parsed|by apply fits_primary|lia|lia]|].
  intros e p2 ((Hi2 & Hl2 & Hc2 & Hm2) & _). split; [|lia]. split; [done|]. split; [lia|done].
Qed.

Lemma selectors_step n : selectors_ok n -> selectors_ok (S n).
Proof.
  intros HS k p x (Hi & Hk & Hm & Hc) Hl Hf. apply post_get. case_bool_decide as E.
  - apply post_bind. eapply post_mono; [by apply (parseSelectorExpr_post k)|].
    intros y p1 Hp. pose proof Hp as (_ & Hl1 & _ & Hlv & _).
    eapply post_mono; [apply (HS k); [by eapply begun_parsed|done|lia]|]. intros e p2 ((Hi2 & Hl2 & Hc2 & Hm2) & Hlv2).
    split; [|done]. split; [done|]. split; [lia|done].
  - split; [|done]. split; [done|]. split; [lia|done].
Qed.

Lemma primary_step n : operand_ok n -> selectors_ok n -> primary_ok (S n).
Proof.
  intros HO HS k p Hi Hk Hm Hf. apply post_bind. eapply post_mono; [apply (HO k); [done..|lia]|].
  intros x p1 Hp. pose proof Hp as (_ & Hl1 & _ & Hlv & _).
  eapply post_mono; [apply (HS k); [by eapply begun_parsed|done|lia]|]. intros e p2 ((Hi2 & Hl2 & Hc2 & Hm2) & Hlv2).
  split; [done|]. split; [lia|done].
Qed.

(** An expression in parentheses; [wrap] is what it becomes. *)
Lemma enclosed_ok n (wrap : expr -> expr) k p :
  expr_ok n -> (forall e, canonical e -> canonical (wrap e)) -> (forall e, level (wrap e) = 4) ->
  (forall e, max_placeholder (wrap e) = max_placeholder e) ->
  in_text p -> p_lit p = str "(" -> 0 <= k -> maxPlaceholder p = k -> (4 * left p <= n)%nat ->
  post ((p_next;; e ← parseExpr n; parseLit (str ")");; mret (wrap e)) p) (parsed k p).
Proof.
  intros HE Hw Hwl Hwm Hi Hlit Hk Hm Hf. apply post_bind.
  eapply post_mono; [apply next_post; [done|apply in_text_lit; [done|by rewrite Hlit]]|]. intros [] p1 (Hi1 & Hl1 & Hm1).
  apply post_bind. eapply post_mono; [apply (HE k); [done|done|congruence|lia]|]. intros e p2 ((Hi2 & _ & Hc2 & Hm2) & Hl2).
  apply post_bind. eapply post_mono; [by apply parseLit_post|]. intros [] p3 (Hi3 & Hl3 & Hm3).
  split; [done|]. split; [lia|]. split; [by apply Hw|]. split; [done|]. by rewrite Hwm, Hm3.
Qed.

Lemma operand_step n : expr_ok n -> operand_ok (S n).
Proof.
  intros HE k p Hi Hk Hm Hf. apply post_get. case_bool_decide as E.
  { apply enclosed_ok; try done. lia. }
  destruct (is_value (p_tok p)) eqn:Ev; [by apply parseValue_post|].
  apply post_bind. eapply post_mono; [by apply parseTok_post|]. intros [] p1 ((Hi1 & Hl1 & Hm1) & _ & Hid).
  apply post_get. case_bool_decide as E1.
  - eapply post_mono; [apply (enclosed_ok n (envExpr (p_lit p)) k); try done; [congruence|lia]|].
    intros e p2 (Hi2 & Hl2 & Hrest). split; [done|]. split; [lia|done].
  - split; [done|]. split; [done|]. split; [done|]. split; [done|]. simpl. lia.
Qed.

Lemma cont_step n : primary_ok n -> climb_ok n -> cont_ok n -> cont_ok (S n).
Proof.
  intros HP HB HC k p lhs min (Hi & Hk & Hm & Hc) Hfit Hmin Hf. apply post_get.
  destruct (determineBinaryOp p min) as [op|] eqn:Ed.
  - destruct (determine_Some _ _ _ Ed) as (Hb & Hge & Hop & _). pose proof (operator_precedence _ Hop) as Hpr.
    apply post_bind. eapply post_mono; [apply next_post; [done|by eapply determine_tok]|]. intros [] p1 (Hi1 & Hl1 & Hm1).
    pose proof (max_placeholder_nonneg _ Hc) as Hnn. set (k1 := Z.max k (max_placeholder lhs)).
    apply post_bind. eapply post_mono; [apply (HP k1); [done|lia|by rewrite Hm1, Hm|lia]|].
    intros r p2 Hp2. pose proof Hp2 as (_ & Hl2 & _ & Hlv2 & _).
    apply post_bind. eapply post_mono; [apply (HB k1); [eapply begun_parsed; [lia|done]|by apply fits_primary|lia|lia]|].
    intros rhs p3 ((Hi3 & Hl3 & Hc3 & Hm3) & Hlv3 & Hst3).
    assert (Hfit3 : fits (binaryExpr op lhs rhs) p3).
    { intros op' Ho'. unfold stops, determineBinaryOp in Hst3. rewrite Ho' in Hst3.
      destruct (Z.leb_spec (precedence op + 1) (precedence op')); [done|simpl; lia]. }
    eapply post_mono; [apply (HC k); [|done|done|lia]|].
    { split; [done|]. split; [done|]. split; [simpl; lia|]. simpl. split; [done|]. split; [done|]. split; [done|]. split; [by apply Hfit|lia]. }
    intros e p4 ((Hi4 & Hl4 & Hc4 & Hm4) & Hlv4 & Hst4 & _).
    split; [split; [done|split; [lia|done]]|]. split; [done|]. split; [done|]. right. lia.
  - split; [split; [done|split; [lia|done]]|]. split; [done|]. split; [done|by left].
Qed.

Lemma climb_step n : cont_ok n -> climb_ok n -> climb_ok (S n).
Proof.
  intros HC HB k p rhs min (Hi & Hk & Hm & Hc) Hfit Hmin Hf. apply post_get.
  destruct (determineBinaryOp p min) as [op|] eqn:Ed.
  - destruct (determine_Some _ _ _ Ed) as (Hb & Hge & Hop & _). apply post_bind.
    eapply post_mono; [apply (HC k); [done|done|by apply Hfit|lia]|]. intros x p1 (Hg & Hlv & Hst & Hlt).
    pose proof Hg as (Hi1 & Hl1 & _).
    assert (left p1 < left p)%nat.
    { destruct Hlt as [Hs|?]; [|done]. unfold stops, determineBinaryOp in Hs. rewrite Hb, Z.leb_refl in Hs. done. }
    eapply post_mono; [apply (HB k); [by eapply begun_grown|by eapply stops_fits|lia|lia]|].
    intros e p2 ((Hi2 & Hl2 & Hc2 & Hm2) & Hlv2 & Hst2). split; [split; [done|split; [lia|done]]|]. done.
  - split; [split; [done|split; [lia|done]]|]. done.
Qed.

Lemma parser_ok n : expr_ok n /\ cont_ok n /\ climb_ok n /\ primary_ok n /\ selectors_ok n /\ operand_ok n.
Proof.
  induction n as [|n (IE & IC & IB & IP & IS & IO)].
  - repeat split; intros ?; intros; lia.
  - split; [by apply expr_step|]. split; [by apply cont_step|]. split; [by apply climb_step|]. split; [by apply primary_step|].
    split; [by apply selectors_step|by apply operand_step].
Qed.
End Text.

Lemma newParser_post src : post (r ← newParser src; FOk (tt, r)) (fun _ p => in_text src p /\ maxPlaceholder p = 0).
Proof.
  unfold newParser, scanner_init. destruct (next_no_fuel (mkScanner src 0 0 0)) as [N1 N2]; [simpl; lia|].
  destruct (next (mkScanner src 0 0 0)) as [s| | |] eqn:E; try done. cbn [mbind fres_bind].
  rewrite next_read in E by (simpl; lia). assert (Ha : at_ s src 0) by (split; [lia|exact E]).
  unfold p_next. destruct (Scan_settles _ _ _ Ha) as [N1' N2']. cbn [p_scanner].
  destruct (Scan s) as [[[[pos tok] lit] s']| | |] eqn:Es; try done. simpl.
  destruct (Scan_inv _ _ _ _ _ _ _ Ha Es) as ((o & _ & Ha1) & _ & Hok). split; [|done]. split; [done|]. by exists o.
Qed.

Lemma parseTok_eq tok p :
  parseTok tok p = if bool_decide (p_tok p = tok) then p_next p else errorf (GotTok (p_lit p) tok) p.
Proof. unfold parseTok, mbind, P_bind, pget. cbn. by case_bool_decide. Qed.

(** [parse] gives an error or an expression in canonical form, with its greatest placeholder. *)
Lemma parse_post src :
  post (parse src) (fun e p => match e with
    | None => maxPlaceholder p = 0
    | Some e => canonical e /\ maxPlaceholder p = max_placeholder e
    end).
Proof.
  unfold parse. pose proof (newParser_post src) as Hn. destruct (newParser src) as [p| | |]; [|done..]. simpl in Hn.
  destruct Hn as [Hi Hm]. cbn [mbind fres_bind]. case_bool_decide as Et; [done|].
  destruct (parser_ok src (parse_fuel src)) as (HE & _). specialize (HE 0 p Hi ltac:(lia) Hm).
  assert (Hf : (4 * left src p + 4 <= parse_fuel src)%nat) by (unfold left, parse_fuel; rewrite bool_decide_eq_false_2 by done; lia).
  specialize (HE Hf). destruct (parseExpr (parse_fuel src) p) as [[e p1]| | |]; try done. cbn [mbind fres_bind].
  destruct HE as ((Hi1 & _ & Hc & Hm1) & _). rewrite parseTok_eq. case_bool_decide as Et1; [|done].
  destruct Hi1 as [_ (off & Ha)]. unfold p_next. destruct (Scan_settles _ _ _ Ha) as [N1 N2].
  destruct (Scan (p_scanner p1)) as [[[[pos tok] lit] s]| | |]; try done. cbn. split; [done|].
  rewrite Hm1. pose proof (max_placeholder_nonneg _ Hc). lia.
Qed.
End Parser.
