(* ===== verification/FilterRound.v ===== *)
(** * Printed filters are parsed back

    [String] of an expression that the parser built is scanned into the tokens of the
    expression, and the parser builds the expression from them again. *)

From Stdlib Require Import ZArith Lia Strings.Byte String.
From stdpp Require Import list.
From S2P Require Import Prelude Filter FilterScan FilterParse.

(** ** Numbers *)

Definition decimal (b : byte) : Prop := 48 <= Z_of_byte b <= 57.

Lemma digit_decimal d : 0 <= d < 10 -> Z_of_byte (digit d) = 48 + d.
Proof. intros Hd. unfold digit. codes. rewrite Z_of_byte_small by lia. lia. Qed.

Lemma digitVal_decimal b : decimal b -> digitVal (Z_of_byte b) = Z_of_byte b - 48.
Proof. intros [H1 H2]. unfold digitVal. codes. by rewrite (proj2 (Z.leb_le _ _) H1), (proj2 (Z.leb_le _ _) H2). Qed.

Lemma digits_value_snoc base acc l b :
  digits_value base acc (l ++ [b]) =
  v ← digits_value base acc l; if digitVal (Z_of_byte b) <? base then Some (v * base + digitVal (Z_of_byte b)) else None.
Proof. revert acc. induction l as [|b0 l IH]; intros acc; simpl; [done|]. destruct (digitVal (Z_of_byte b0) <? base); [apply IH|done]. Qed.

(** The digits of a number; a number above zero has no zero in front. *)
Lemma itoa_spec f n :
  0 <= n < 10 ^ Z.of_nat f -> f <> 0%nat ->
  digits_value 10 0 (itoa f n) = Some n /\ Forall decimal (itoa f n) /\
  exists b l, itoa f n = b :: l /\ (Z_of_byte b = 48 -> n = 0 /\ l = []).
Proof.
  revert n. induction f as [|f IH]; intros n Hn Hf; [done|]. cbn [itoa]. destruct (Z.ltb_spec n 10) as [Hs|Hs].
  - assert (Hd : decimal (digit n)) by (unfold decimal; rewrite digit_decimal; lia). cbn [digits_value].
    rewrite digitVal_decimal, digit_decimal by (done || lia). rewrite (proj2 (Z.ltb_lt _ _)) by lia.
    split; [f_equal; lia|]. split; [by constructor|]. exists (digit n), []. split; [done|]. rewrite digit_decimal by lia. split; [lia|done].
  - rewrite Nat2Z.inj_succ, Z.pow_succ_r in Hn by lia. assert (Hf' : f <> 0%nat) by (intros ->; simpl in Hn; lia).
    assert (Hq : 0 <= n / 10 < 10 ^ Z.of_nat f) by (split; [apply Z.div_pos; lia|apply Z.div_lt_upper_bound; lia]).
    pose proof (Z.mod_pos_bound n 10 ltac:(lia)) as Hm. pose proof (Z.div_mod n 10 ltac:(lia)) as Hdm.
    assert (Hd : decimal (digit (n mod 10))) by (unfold decimal; rewrite digit_decimal; lia).
    destruct (IH (n / 10) Hq Hf') as (Hv & Hall & b & l & Eb & H0).
    split; [|split; [by apply Forall_app_2; [|constructor]|]].
    + rewrite digits_value_snoc, Hv. cbn [mbind option_bind]. rewrite digitVal_decimal, digit_decimal by (done || lia).
      rewrite (proj2 (Z.ltb_lt _ _)) by lia. f_equal. lia.
    + exists b, (l ++ [digit (n mod 10)]). rewrite Eb. split; [done|]. intros Ez. apply H0 in Ez as [Ez _]. lia.
Qed.

Lemma Itoa_spec n :
  0 <= n <= MaxInt64 ->
  digits_value 10 0 (Itoa n) = Some n /\ Forall decimal (Itoa n) /\
  exists b l, Itoa n = b :: l /\ (Z_of_byte b = 48 -> n = 0 /\ l = []).
Proof. intros Hn. apply itoa_spec; [|done]. unfold MaxInt64 in Hn. simpl. lia. Qed.

Lemma Atoi_Itoa n : 0 <= n <= MaxInt64 -> Atoi (Itoa n) = Some n.
Proof.
  intros Hn. destruct (Itoa_spec n Hn) as (Hv & _ & b & l & E & _). unfold Atoi, parse_digits. rewrite E in *. rewrite Hv.
  cbn [mbind option_bind]. by rewrite (proj2 (Z.leb_le _ _)) by lia.
Qed.

Lemma ParseInt_Itoa n : 0 <= n <= MaxInt64 -> ParseInt (Itoa n) = Some n.
Proof.
  intros Hn. pose proof (Atoi_Itoa n Hn) as Ha. destruct (Itoa_spec n Hn) as (_ & _ & b & l & E & H0). unfold ParseInt. rewrite E in *.
  destruct l as [|b1 l]; [exact Ha|]. codes. destruct (Z.eqb_spec (Z_of_byte b) 48) as [Ez|_]; [by destruct (H0 Ez)|]. exact Ha.
Qed.

Lemma chunk_byte b : 0 < Z_of_byte b < 128 -> chunk (Z_of_byte b) [b].
Proof. intros Hb. apply chunk_ascii; [apply Z.eqb_neq; lia|unfold RuneSelf; lia]. Qed.

Lemma decimal_digits l : Forall decimal l -> digits l.
Proof.
  induction 1 as [|b l Hb _ IH]; [constructor|]. apply (chunks_cons _ (Z_of_byte b) [b] l); [|..|done].
  - apply chunk_byte. unfold decimal in Hb. lia.
  - rewrite digitVal_decimal by done. apply Z.ltb_lt. unfold decimal in Hb. lia.
Qed.

(** ** More fuel *)

(** Out of fuel, or the same. *)
Definition below {A} (r r' : fres parseError A) : Prop := r = FFuel \/ r' = r.

Lemma below_refl {A} (r : fres parseError A) : below r r.
Proof. by right. Qed.

Lemma below_bind {A B} (m m' : P A) (f f' : A -> P B) p :
  below (m p) (m' p) -> (forall a p', below (f a p') (f' a p')) -> below ((m ≫= f) p) ((m' ≫= f') p).
Proof.
  unfold mbind, P_bind. intros [E|E] Hf; rewrite E; [by left|]. destruct (m p) as [[a p']| | |]; simpl; [apply Hf|by right..].
Qed.

Section Parser.
Context `{Unicode}.

Lemma enclosed_below n (wrap : expr -> expr) p :
  (forall p, below (parseExpr n p) (parseExpr (S n) p)) ->
  below ((p_next;; e ← parseExpr n; parseLit (str ")");; mret (wrap e)) p)
    ((p_next;; e ← parseExpr (S n); parseLit (str ")");; mret (wrap e)) p).
Proof. intros IE. apply below_bind; [apply below_refl|]. intros _ p1. apply below_bind; [apply IE|]. intros. apply below_refl. Qed.

Lemma fuel_step n :
  (forall p, below (parseExpr n p) (parseExpr (S n) p)) /\
  (forall x min p, below (parseExprCont n x min p) (parseExprCont (S n) x min p)) /\
  (forall x min p, below (climb n x min p) (climb (S n) x min p)) /\
  (forall p, below (parsePrimaryExpr n p) (parsePrimaryExpr (S n) p)) /\
  (forall x p, below (parseSelectors n x p) (parseSelectors (S n) x p)) /\
  (forall p, below (parseOperand n p) (parseOperand (S n) p)).
Proof.
  induction n as [|n (IE & IC & IB & IP & IS & IO)]; [repeat split; by left|]. split; [|split; [|split; [|split; [|split]]]].
  - intros p. apply below_bind; [apply IP|]. intros. apply IC.
  - intros x min p. apply below_bind; [apply below_refl|]. intros p0 p1. destruct (determineBinaryOp p0 min); [|apply below_refl].
    apply below_bind; [apply below_refl|]. intros _ p2. apply below_bind; [apply IP|]. intros r p3.
    apply below_bind; [apply IB|]. intros. apply IC.
  - intros x min p. apply below_bind; [apply below_refl|]. intros p0 p1. destruct (determineBinaryOp p0 min); [|apply below_refl].
    apply below_bind; [apply IC|]. intros. apply IB.
  - intros p. apply below_bind; [apply IO|]. intros. apply IS.
  - intros x p. apply below_bind; [apply below_refl|]. intros p0 p1. case_bool_decide; [|apply below_refl].
    apply below_bind; [apply below_refl|]. intros. apply IS.
  - intros p. apply below_bind; [apply below_refl|]. intros p0 p1. case_bool_decide; [by apply enclosed_below|].
    destruct (is_value _); [apply below_refl|]. apply below_bind; [apply below_refl|]. intros _ p2.
    apply below_bind; [apply below_refl|]. intros p3 p4. case_bool_decide; [by apply enclosed_below|apply below_refl].
Qed.

(** A call that gives [r] with some fuel gives it with all fuel above. *)
Definition reach {A} (f : nat -> P A) (p : parser) (r : A * parser) : Prop := exists n, f n p = FOk r.

Definition stable {A} (f : nat -> P A) : Prop := forall n p, below (f n p) (f (S n) p).

Lemma stable_le {A} (f : nat -> P A) n m p r : stable f -> (n <= m)%nat -> f n p = FOk r -> f m p = FOk r.
Proof.
  intros Hs Hle E. induction Hle as [|m _ IH]; [done|]. destruct (Hs m p) as [Ef|Ef]; [congruence|]. by rewrite Ef.
Qed.

Lemma stable_agree {A} (f : nat -> P A) n m p r : stable f -> f n p = FOk r -> f m p <> FFuel -> f m p = FOk r.
Proof.
  intros Hs E Hne. destruct (Nat.le_ge_cases n m) as [Hle|Hle]; [by eapply stable_le|].
  rewrite <- E. clear E. induction Hle as [|n _ IH]; [done|]. destruct (Hs n p) as [Ef|Ef]; congruence.
Qed.

Lemma stable_expr : stable parseExpr.
Proof. intros n. apply fuel_step. Qed.
Lemma stable_cont x min : stable (fun n => parseExprCont n x min).
Proof. intros n. apply fuel_step. Qed.
Lemma stable_climb x min : stable (fun n => climb n x min).
Proof. intros n. apply fuel_step. Qed.
Lemma stable_primary : stable parsePrimaryExpr.
Proof. intros n. apply fuel_step. Qed.
Lemma stable_selectors x : stable (fun n => parseSelectors n x).
Proof. intros n. apply fuel_step. Qed.
Lemma stable_operand : stable parseOperand.
Proof. intros n. apply fuel_step. Qed.
End Parser.
#[export] Hint Resolve stable_expr stable_cont stable_climb stable_primary stable_selectors stable_operand : core.

(** ** From the tokens of an expression to the expression *)

Notation lexeme := (token * bytes)%type.

Definition op_token (op : binaryOp) : lexeme := (if keyword (op_name op) then tokKeyword else tokPunct, op_name op).
Definition mark (s : string) : lexeme := (tokPunct, str s).

(** The tokens of an expression. *)
Fixpoint tokens (e : expr) : list lexeme :=
  match e with
  | binaryExpr op l r => tokens l ++ [op_token op] ++ tokens r
  | attrExpr attr => [(tokIdent, attr)]
  | selectorExpr i obj => tokens obj ++ [mark "."; (tokIdent, i)]
  | parenExpr inner => [mark "("] ++ tokens inner ++ [mark ")"]
  | valueExpr tok v => [(tok, v)]
  | envExpr i body => [(tokIdent, i); mark "("] ++ tokens body ++ [mark ")"]
  | placeholderExpr num => [(tokPlaceholder, str "$" ++ Itoa num)]
  end.

Definition head_lit (ts : list lexeme) : bytes := match ts with [] => [] | (_, lit) :: _ => lit end.

Section Parser.
Context `{Unicode}.

(** The scanner gives the tokens [ts], then the end. *)
Fixpoint lexes (s : scanner) (ts : list lexeme) : Prop :=
  match ts with
  | [] => exists pos s' r, Scan s = FOk (pos, tokEOF, [], s') /\ Scan s' = FOk r
  | (tok, lit) :: ts => exists pos s', Scan s = FOk (pos, tok, lit, s') /\ lexes s' ts
  end.

(** The parser stands before the tokens [ts]. *)
Definition stands (p : parser) (ts : list lexeme) : Prop :=
  match ts with
  | [] => p_tok p = tokEOF /\ p_lit p = [] /\ exists r, Scan (p_scanner p) = FOk r
  | (tok, lit) :: ts => p_tok p = tok /\ p_lit p = lit /\ lexes (p_scanner p) ts
  end.

Lemma stands_lit p ts : stands p ts -> p_lit p = head_lit ts.
Proof. destruct ts as [|[tok lit] ts]; by intros (_ & ? & _). Qed.

Lemma stands_next p t ts : stands p (t :: ts) -> exists p', p_next p = FOk (tt, p') /\ stands p' ts.
Proof.
  destruct t as [tok lit]. intros (_ & _ & Hl). unfold p_next. destruct ts as [|[tok' lit'] ts].
  - destruct Hl as (pos & s & r & E & E'). rewrite E. eexists. split; [done|]. split; [done|]. split; [done|]. by exists r.
  - destruct Hl as (pos & s & E & Hl). rewrite E. by eexists.
Qed.

(** ** Calls that give a result *)

Lemma bind_ok {A B} (m : P A) (f : A -> P B) p a p' : m p = FOk (a, p') -> (m ≫= f) p = f a p'.
Proof. intros E. unfold mbind, P_bind. by rewrite E. Qed.

(** Two calls with results have them with a common fuel. *)
Lemma reach_two {A B} (f : nat -> P A) (g : nat -> P B) p q r r' :
  stable f -> stable g -> reach f p r -> reach g q r' -> exists n, f n p = FOk r /\ g n q = FOk r'.
Proof.
  intros Hf Hg [n En] [m Em]. exists (n + m)%nat. split; [eapply stable_le; [done| |done]; lia|eapply stable_le; [done| |done]; lia].
Qed.

Lemma reach_expr p x p1 r : reach parsePrimaryExpr p (x, p1) -> reach (fun n => parseExprCont n x 0) p1 r -> reach parseExpr p r.
Proof.
  intros H1 H2. destruct (reach_two _ _ _ _ _ _ stable_primary (stable_cont _ _) H1 H2) as (n & E1 & E2). exists (S n).
  cbn [parseExpr]. by rewrite (bind_ok _ _ _ _ _ E1).
Qed.

Lemma reach_primary p x p1 r : reach parseOperand p (x, p1) -> reach (fun n => parseSelectors n x) p1 r -> reach parsePrimaryExpr p r.
Proof.
  intros H1 H2. destruct (reach_two _ _ _ _ _ _ stable_operand (stable_selectors _) H1 H2) as (n & E1 & E2). exists (S n).
  cbn [parsePrimaryExpr]. by rewrite (bind_ok _ _ _ _ _ E1).
Qed.

Lemma reach_selectors_stop x p : p_lit p <> str "." -> reach (fun n => parseSelectors n x) p (x, p).
Proof. intros Hl. exists 1%nat. cbn [parseSelectors]. by rewrite (bind_ok pget _ p p p eq_refl), bool_decide_eq_false_2. Qed.

Lemma reach_cont_stop x min p : stops min p -> reach (fun n => parseExprCont n x min) p (x, p).
Proof. intros Hs. exists 1%nat. cbn [parseExprCont]. by rewrite (bind_ok pget _ p p p eq_refl), Hs. Qed.

Lemma reach_climb_stop x min p : stops min p -> reach (fun n => climb n x min) p (x, p).
Proof. intros Hs. exists 1%nat. cbn [climb]. by rewrite (bind_ok pget _ p p p eq_refl), Hs. Qed.

(** A primary expression, then an inner loop. *)
Definition climbs (min : Z) (p : parser) (r : expr * parser) : Prop :=
  exists x p1, reach parsePrimaryExpr p (x, p1) /\ reach (fun n => climb n x min) p1 r.

Definition continues (min : Z) (p : parser) (r : expr * parser) : Prop :=
  exists x p1, reach parsePrimaryExpr p (x, p1) /\ reach (fun n => parseExprCont n x min) p1 r.

Lemma reach_cont p lhs min op p1 y p2 r :
  determineBinaryOp p min = Some op -> p_next p = FOk (tt, p1) -> climbs (precedence op + 1) p1 (y, p2) ->
  reach (fun n => parseExprCont n (binaryExpr op lhs y) min) p2 r -> reach (fun n => parseExprCont n lhs min) p r.
Proof.
  intros Hd Hn (x & q & H1 & H2) H3. destruct (reach_two _ _ _ _ _ _ stable_primary (stable_climb _ _) H1 H2) as (n & E1 & E2).
  destruct H3 as [m E3]. exists (S (n + m)). cbn [parseExprCont]. rewrite (bind_ok pget _ p p p eq_refl), Hd, (bind_ok _ _ _ _ _ Hn).
  apply (stable_le _ n (n + m)) in E1; [|done|lia]. apply (stable_le (fun n => climb n _ _) n (n + m)) in E2; [|done|lia].
  rewrite (bind_ok _ _ _ _ _ E1), (bind_ok _ _ _ _ _ E2). eapply (stable_le (fun n => parseExprCont n _ _)); [done| |done]. lia.
Qed.

Lemma reach_climb p x min op y p1 r :
  determineBinaryOp p min = Some op -> reach (fun n => parseExprCont n x (precedence op)) p (y, p1) ->
  reach (fun n => climb n y min) p1 r -> reach (fun n => climb n x min) p r.
Proof.
  intros Hd H1 H2. destruct (reach_two _ _ _ _ _ _ (stable_cont _ _) (stable_climb _ _) H1 H2) as (n & E1 & E2). exists (S n).
  cbn [climb]. rewrite (bind_ok pget _ p p p eq_refl), Hd. by rewrite (bind_ok _ _ _ _ _ E1).
Qed.

(** The inner loop at operators of precedence [q] at most may start with a call for [q]. *)
Lemma climb_via_cont p x min q r :
  min <= q -> (forall op, binaryOps (p_lit p) = Some op -> precedence op <= q) -> reach (fun n => climb n x min) p r ->
  exists y p1, reach (fun n => parseExprCont n x q) p (y, p1) /\ reach (fun n => climb n y min) p1 r.
Proof.
  intros Hq Hle Hr. destruct (determineBinaryOp p q) as [op|] eqn:Ed; [|exists x, p; split; [by apply reach_cont_stop|done]].
  destruct (determine_Some _ _ _ Ed) as (Hb & Hge & _). pose proof (Hle _ Hb) as Hop. assert (Eq : precedence op = q) by lia.
  destruct Hr as [[|n] E]; [done|]. cbn [climb] in E. rewrite (bind_ok pget _ p p p eq_refl) in E.
  assert (Ed' : determineBinaryOp p min = Some op) by (unfold determineBinaryOp; rewrite Hb, (proj2 (Z.leb_le _ _)) by lia; done).
  rewrite Ed', Eq in E. unfold mbind, P_bind, fres_bind in E. destruct (parseExprCont n x q p) as [[y p1]| | |] eqn:Ec; try done.
  exists y, p1. split; by exists n.
Qed.

Lemma parseLit_ok p tok lit ts : stands p ((tok, lit) :: ts) -> exists p', parseLit lit p = FOk (tt, p') /\ stands p' ts.
Proof.
  intros Hs. destruct (stands_next _ _ _ Hs) as (p' & E & Hs'). exists p'. split; [|done]. unfold parseLit.
  rewrite (bind_ok pget _ p p p eq_refl), bool_decide_eq_true_2; [done|]. by apply stands_lit in Hs.
Qed.

Lemma parseTok_ok p tok lit ts : stands p ((tok, lit) :: ts) -> exists p', parseTok tok p = FOk (tt, p') /\ stands p' ts.
Proof.
  intros Hs. destruct (stands_next _ _ _ Hs) as (p' & E & Hs'). exists p'. split; [|done]. rewrite parseTok_eq, bool_decide_eq_true_2; [done|].
  by destruct Hs as (? & _).
Qed.

(** ** Expressions *)

(** A primary expression is read up to the selectors that follow it. *)
Definition reads_primary (e : expr) : Prop := forall p ts, stands p (tokens e ++ ts) -> head_lit ts <> str "(" ->
  exists p1, stands p1 ts /\ forall r, reach (fun n => parseSelectors n e) p1 r -> reach parsePrimaryExpr p r.

(** Any expression is read up to the operators that follow it. *)
Definition reads_spine (e : expr) : Prop := forall p ts, stands p (tokens e ++ ts) -> head_lit ts <> str "(" -> head_lit ts <> str "." ->
  (forall op, binaryOps (head_lit ts) = Some op -> precedence op <= level e) ->
  exists p1, stands p1 ts /\ forall min, min <= level e -> forall r,
    (reach (fun n => parseExprCont n e min) p1 r -> continues min p r) /\
    (reach (fun n => climb n e min) p1 r -> climbs min p r).

Lemma spine_of_primary e : reads_primary e -> reads_spine e.
Proof.
  intros He p ts Hs H1 H2 _. destruct (He p ts Hs H1) as (p1 & Hs1 & Hr). exists p1. split; [done|]. intros min _ r.
  assert (Hp : reach parsePrimaryExpr p (e, p1)) by (apply Hr, reach_selectors_stop; by rewrite (stands_lit _ _ Hs1)).
  split; intros Hc; by exists e, p1.
Qed.

Lemma primary_of_operand e :
  (forall p ts, stands p (tokens e ++ ts) -> head_lit ts <> str "(" -> exists p1, stands p1 ts /\ reach parseOperand p (e, p1)) ->
  reads_primary e.
Proof.
  intros He p ts Hs Hn. destruct (He p ts Hs Hn) as (p1 & Hs1 & Hr). exists p1. split; [done|]. intros r. by apply reach_primary.
Qed.

Lemma selector_primary i obj : reads_primary obj -> reads_primary (selectorExpr i obj).
Proof.
  intros He p ts Hs Hn. cbn [tokens] in Hs. rewrite <- app_assoc in Hs. destruct (He _ _ Hs) as (p1 & Hs1 & Hr); [done|].
  destruct (stands_next _ _ _ Hs1) as (p2 & E2 & Hs2). destruct (parseTok_ok _ _ _ _ Hs2) as (p3 & E3 & Hs3).
  exists p3. split; [done|]. intros r [n En]. apply Hr. exists (S n). cbn [parseSelectors]. rewrite (bind_ok pget _ p1 p1 p1 eq_refl).
  rewrite bool_decide_eq_true_2 by (by apply stands_lit in Hs1). unfold parseSelectorExpr.
  rewrite (bind_ok _ _ _ (selectorExpr i obj) p3); [done|]. rewrite (bind_ok _ _ _ _ _ E2), (bind_ok pget _ p2 p2 p2 eq_refl), (bind_ok _ _ _ _ _ E3).
  by destruct Hs2 as (_ & -> & _).
Qed.

(** An expression between parentheses; [wrap] is what it becomes. *)
Lemma enclosed_reads (wrap : expr -> expr) e p ts :
  reads_spine e -> 0 <= level e -> stands p ([mark "("] ++ tokens e ++ [mark ")"] ++ ts) ->
  exists p1, stands p1 ts /\ reach (fun n => p_next;; e ← parseExpr n; parseLit (str ")");; mret (wrap e)) p (wrap e, p1).
Proof.
  intros He Hl Hs. destruct (stands_next _ _ _ Hs) as (p1 & E1 & Hs1).
  destruct (He p1 _ Hs1) as (p2 & Hs2 & Hr); [done..|]. destruct (Hr 0 Hl (e, p2)) as [Hc _].
  assert (Hst : stops 0 p2) by (unfold stops, determineBinaryOp; by rewrite (stands_lit _ _ Hs2)).
  destruct (Hc (reach_cont_stop e 0 p2 Hst)) as (x & q & Hp & Hk). destruct (reach_expr _ _ _ _ Hp Hk) as [n En].
  destruct (parseLit_ok _ _ _ _ Hs2) as (p3 & E3 & Hs3). exists p3. split; [done|]. exists n.
  by rewrite (bind_ok _ _ _ _ _ E1), (bind_ok _ _ _ _ _ En), (bind_ok _ _ _ _ _ E3).
Qed.

Lemma paren_primary e : reads_spine e -> 0 <= level e -> reads_primary (parenExpr e).
Proof.
  intros He Hl. apply primary_of_operand. intros p ts Hs _. cbn [tokens] in Hs. rewrite <- !app_assoc in Hs.
  destruct (enclosed_reads parenExpr e p ts He Hl Hs) as (p1 & Hs1 & n & En). exists p1. split; [done|]. exists (S n).
  cbn [parseOperand]. rewrite (bind_ok pget _ p p p eq_refl), bool_decide_eq_true_2; [done|]. by apply stands_lit in Hs.
Qed.

Lemma word_not_paren t : word t -> t <> str "(".
Proof.
  intros (_ & c & t0 & r & -> & Hk & Hl) E. assert (Hp : chunk 40 (str "(")) by (by apply (chunk_ascii x28)).
  destruct (chunk_inj _ _ _ _ Hk Hp r [] E) as (-> & _). rewrite not_letter in Hl; [done|lia].
Qed.

Lemma attr_primary a : ident a -> reads_primary (attrExpr a).
Proof.
  intros [Hw _]. apply primary_of_operand. intros p ts Hs Hn. destruct (parseTok_ok _ _ _ _ Hs) as (p1 & E1 & Hs1).
  exists p1. split; [done|]. exists 1%nat. cbn [parseOperand]. rewrite (bind_ok pget _ p p p eq_refl). destruct Hs as (Ht & Hlit & _).
  rewrite Hlit, Ht. rewrite bool_decide_eq_false_2 by (by apply word_not_paren). cbn [is_value].
  rewrite (bind_ok _ _ _ _ _ E1), (bind_ok pget _ p1 p1 p1 eq_refl), bool_decide_eq_false_2; [done|]. by rewrite (stands_lit _ _ Hs1).
Qed.

Lemma env_primary i e : ident i -> reads_spine e -> 0 <= level e -> reads_primary (envExpr i e).
Proof.
  intros [Hw _] He Hl. apply primary_of_operand. intros p ts Hs Hn. cbn [tokens] in Hs. rewrite <- !app_assoc in Hs.
  destruct (parseTok_ok _ _ _ _ Hs) as (p1 & E1 & Hs1). destruct (enclosed_reads (envExpr i) e p1 ts He Hl Hs1) as (p2 & Hs2 & n & En).
  exists p2. split; [done|]. exists (S n). cbn [parseOperand]. rewrite (bind_ok pget _ p p p eq_refl). destruct Hs as (Ht & Hlit & _).
  rewrite Hlit, Ht. rewrite bool_decide_eq_false_2 by (by apply word_not_paren). cbn [is_value].
  rewrite (bind_ok _ _ _ _ _ E1), (bind_ok pget _ p1 p1 p1 eq_refl), bool_decide_eq_true_2; [done|]. by apply stands_lit in Hs1.
Qed.

Lemma value_operand tok lit e p ts :
  stands p ((tok, lit) :: ts) -> is_value tok = true -> lit <> str "(" ->
  (forall p1, p_next p = FOk (tt, p1) -> exists p2, parseValue p = FOk (e, p2) /\ (stands p1 ts -> stands p2 ts)) ->
  exists p1, stands p1 ts /\ reach parseOperand p (e, p1).
Proof.
  intros Hs Hv Hl Hp. destruct (stands_next _ _ _ Hs) as (p1 & E1 & Hs1). destruct (Hp p1 E1) as (p2 & E2 & Hs2).
  exists p2. split; [by apply Hs2|]. exists 1%nat. cbn [parseOperand]. rewrite (bind_ok pget _ p p p eq_refl). destruct Hs as (Ht & Hlit & _).
  by rewrite Hlit, Ht, bool_decide_eq_false_2, Hv.
Qed.

Lemma string_primary v : literal v -> reads_primary (valueExpr tokString v).
Proof.
  intros (body & -> & _). apply primary_of_operand. intros p ts Hs _. eapply value_operand; [exact Hs|done|done|].
  intros p1 E1. exists p1. split; [|done]. destruct Hs as (Ht & Hlit & _). unfold parseValue.
  rewrite (bind_ok pget _ p p p eq_refl), Ht, (bind_ok _ _ _ _ _ E1). by rewrite Hlit.
Qed.

Lemma decimal_not_paren l : Forall decimal l -> l <> str "(".
Proof. intros Hd ->. inversion_clear Hd as [|? ? Hb _]. unfold decimal in Hb. change (Z_of_byte x28) with 40 in Hb. lia. Qed.

Lemma integer_primary n : 0 <= n <= MaxInt64 -> reads_primary (valueExpr tokInteger (Itoa n)).
Proof.
  intros Hn. destruct (Itoa_spec n Hn) as (_ & Hd & _). apply primary_of_operand. intros p ts Hs _.
  eapply value_operand; [exact Hs|done|by apply decimal_not_paren|].
  intros p1 E1. exists p1. split; [|done]. destruct Hs as (Ht & Hlit & _). unfold parseValue.
  by rewrite (bind_ok pget _ p p p eq_refl), Ht, Hlit, ParseInt_Itoa, (bind_ok _ _ _ _ _ E1).
Qed.

Lemma placeholder_primary n : 0 < n <= MaxInt64 -> reads_primary (placeholderExpr n).
Proof.
  intros Hn. apply primary_of_operand. intros p ts Hs _. eapply value_operand; [exact Hs|done|done|].
  intros p1 E1. destruct Hs as (Ht & Hlit & _). unfold parseValue.
  rewrite (bind_ok pget _ p p p eq_refl), Ht, Hlit. change (drop 1 (str "$" ++ Itoa n)) with (Itoa n).
  rewrite Atoi_Itoa by lia. rewrite (proj2 (Z.ltb_lt 0 n)) by lia. rewrite (bind_ok _ _ _ _ _ E1). eexists. split; [done|].
  by destruct (maxPlaceholder p1 <? n).
Qed.

Lemma binary_spine op l r :
  operator op -> reads_spine l -> reads_spine r -> precedence op <= level l -> precedence op < level r -> reads_spine (binaryExpr op l r).
Proof.
  intros Hop Hl Hr Hpl Hpr p ts Hs Hn1 Hn2 Hfit. cbn [tokens] in Hs. rewrite <- !app_assoc in Hs.
  pose proof (operator_precedence _ Hop) as Hrange. assert (Hne : op_name op <> str "(" /\ op_name op <> str ".").
  { by destruct (operator_cases _ Hop) as [->|[->| ->]]. }
  destruct (Hl _ _ Hs) as (p1 & Hs1 & Hl1); [apply Hne..| |].
  { intros op' Ho'. unfold operator in Hop. simpl in Ho'. rewrite Hop in Ho'. by injection Ho' as <-. }
  destruct (stands_next _ _ _ Hs1) as (p2 & E2 & Hs2). destruct (Hr _ _ Hs2 Hn1 Hn2) as (p3 & Hs3 & Hr3).
  { intros op' Ho'. apply Hfit in Ho'. simpl in Ho'. lia. }
  assert (Hst : stops (precedence op + 1) p3).
  { unfold stops, determineBinaryOp. rewrite (stands_lit _ _ Hs3). destruct (binaryOps (head_lit ts)) as [op'|] eqn:E; [|done].
    specialize (Hfit _ eq_refl). simpl in Hfit. by rewrite (proj2 (Z.leb_gt _ _)) by lia. }
  destruct (Hr3 (precedence op + 1) ltac:(lia) (r, p3)) as [_ Hcl]. specialize (Hcl (reach_climb_stop _ _ _ Hst)).
  assert (Hdet : forall q, q <= precedence op -> determineBinaryOp p1 q = Some op).
  { intros q Hq. unfold determineBinaryOp. rewrite (stands_lit _ _ Hs1). simpl. unfold operator in Hop. rewrite Hop.
    by rewrite (proj2 (Z.leb_le _ _)). }
  exists p3. split; [done|]. intros min Hmin res. simpl in Hmin. destruct (Hl1 min ltac:(lia) res) as [HA HB]. split; intros Hk.
  - apply HA. eapply reach_cont; [by apply Hdet|exact E2|exact Hcl|exact Hk].
  - apply HB. destruct (climb_via_cont p3 (binaryExpr op l r) min (precedence op) res Hmin) as (y & p4 & Hc & Hk'); [|exact Hk|].
    { intros op' Ho'. rewrite (stands_lit _ _ Hs3) in Ho'. by apply Hfit in Ho'. }
    eapply reach_climb; [by apply Hdet| |exact Hk']. eapply reach_cont; [by apply Hdet|exact E2|exact Hcl|exact Hc].
Qed.

Lemma canonical_reads e : canonical e -> reads_spine e /\ (level e = 4 -> reads_primary e).
Proof.
  induction e as [op l IHl r IHr|a|i o IHo|e IHe|tok v|i b IHb|n]; intros Hc.
  - destruct Hc as (Hop & Hcl & Hcr & Hl & Hr). pose proof (operator_precedence _ Hop). split; [|simpl; lia].
    apply binary_spine; try done; [by apply IHl|by apply IHr].
  - split; [|intros _]; [apply spine_of_primary|]; by apply attr_primary.
  - destruct Hc as (_ & Ho & Hl). destruct (IHo Ho) as [_ Hp]. split; [|intros _]; [apply spine_of_primary|]; by apply selector_primary, Hp.
  - pose proof (level_canonical e Hc). destruct (IHe Hc) as [Hs _]. split; [|intros _]; [apply spine_of_primary|]; (apply paren_primary; [done|lia]).
  - destruct tok; try done; [|destruct Hc as (n & Hn & ->)]; (split; [|intros _]; [apply spine_of_primary|]);
      by first [apply string_primary|apply integer_primary].
  - destruct Hc as [Hi Hb]. pose proof (level_canonical _ Hb). destruct (IHb Hb) as [Hs _].
    split; [|intros _]; [apply spine_of_primary|]; (apply env_primary; [done|done|lia]).
  - split; [|intros _]; [apply spine_of_primary|]; by apply placeholder_primary.
Qed.
End Parser.

(** ** From the printed text to the tokens *)

(** A text whose first character can be read. *)
Definition starts (t : bytes) : Prop := exists c t0 r, t = t0 ++ r /\ chunk c t0.

Lemma starts_app t r : starts t -> starts (t ++ r).
Proof. intros (c & t0 & r0 & -> & Hk). exists c, t0, (r0 ++ r). by rewrite app_assoc. Qed.

Lemma starts_byte b r : 0 < Z_of_byte b < 128 -> starts (b :: r).
Proof. intros Hb. exists (Z_of_byte b), [b], r. split; [done|by apply chunk_byte]. Qed.

Lemma starts_reads t : starts t -> exists c, reads c t.
Proof. intros (c & t0 & r & -> & Hk). exists c. by apply reads_cons. Qed.

(** The end, or a character that ends a token before it. *)
Definition boundary (r : bytes) : Prop := r = [] \/ exists b r', r = b :: r' /\ (b = x20 \/ b = x28 \/ b = x29 \/ b = x2e).

Section Tokens.
Context `{Unicode}.

Lemma boundary_reads r :
  boundary r -> exists c, reads c r /\ identc c = false /\ (digitVal c <? 10) = false /\ c <> 120 /\ c <> 88.
Proof.
  intros [->|(b & r' & -> & Hb)]; [exists (-1); by split; [left|]|]. exists (Z_of_byte b).
  assert (Hz : 0 < Z_of_byte b < 47) by (destruct Hb as [->|[->|[->| ->]]]; done).
  split; [right; exists [b], r'; split; [done|apply chunk_byte; lia]|].
  split; [|by destruct Hb as [->|[->|[->| ->]]]]. unfold identc. rewrite not_letter by lia. unfold isDigit. codes.
  by destruct Hb as [->|[->|[->| ->]]].
Qed.

(** The texts of tokens. *)
Definition spelled (tok : token) (t : bytes) : Prop :=
  match tok with
  | tokIdent => ident t
  | tokKeyword => word t /\ keyword t = true
  | tokString => literal t
  | tokInteger => exists n, 0 <= n <= MaxInt64 /\ t = Itoa n
  | tokPlaceholder => exists n, 0 < n <= MaxInt64 /\ t = str "$" ++ Itoa n
  | tokPunct => exists b, t = [b] /\ punct (Z_of_byte b) = true
  | _ => False
  end.

Definition follows (tok : token) (r : bytes) : Prop :=
  match tok with tokPunct => boundary r \/ starts r | _ => boundary r end.

Lemma spelled_scans tok t r sp src off s :
  spelled tok t -> follows tok r -> chunks spacec sp -> at_ s src off -> drop off src = sp ++ t ++ r -> scans s src off sp t tok.
Proof.
  intros Ht Hf Hsp Ha E. destruct tok; try done; simpl in Ht, Hf;
    try (destruct (boundary_reads _ Hf) as (c & Hr & Hid & Hd & Hx & HX)).
  - destruct Ht as [Hw Hk]. pose proof (Scan_word _ _ _ _ _ _ _ Ha E Hsp Hw Hr Hid) as Hs. by rewrite Hk in Hs.
  - destruct Ht as [Hw Hk]. pose proof (Scan_word _ _ _ _ _ _ _ Ha E Hsp Hw Hr Hid) as Hs. by rewrite Hk in Hs.
  - by eapply Scan_literal.
  - destruct Ht as (n & Hn & ->). destruct (Itoa_spec n Hn) as (_ & Hall & b & l & Eb & H0).
    eapply Scan_number; try done; [by apply decimal_digits|]. exists (Z_of_byte b), [b], l. split; [done|]. split; [|by intros Hz; apply H0].
    apply chunk_byte. rewrite Eb in Hall. inversion_clear Hall as [|? ? Hb _]. unfold decimal in Hb. lia.
  - destruct Ht as (b & -> & Hp). assert (Hr : exists c, reads c r).
    { destruct Hf as [Hf|Hf]; [destruct (boundary_reads _ Hf) as (c & Hr & _); by exists c|by apply starts_reads]. }
    destruct Hr as [c Hr]. by eapply Scan_punct.
  - destruct Ht as (n & Hn & ->). destruct (Itoa_spec n ltac:(lia)) as (_ & Hall & b & l & Eb & _).
    eapply Scan_placeholder; try done; [by apply decimal_digits|by rewrite Eb].
Qed.

(** A scanner that stands before [l] gives the tokens [ts]. *)
Definition lexed (l : bytes) (ts : list lexeme) : Prop := forall src off s, at_ s src off -> drop off src = l -> lexes s ts.

Lemma lexed_nil : lexed [] [].
Proof.
  intros src off s Ha E. destruct (Scan_eof _ _ _ Ha E) as (pos & s1 & E1). exists pos, s1.
  destruct (Scan_inv _ _ _ _ _ _ _ Ha E1) as ((o & Ho & Ha1) & _).
  assert (Ed : drop o src = []) by (apply drop_ge; apply (f_equal length) in E; rewrite length_drop in E; simpl in E; lia).
  destruct (Scan_eof _ _ _ Ha1 Ed) as (pos2 & s2 & E2). by eexists.
Qed.

Lemma lexed_token sp tok t r ts :
  chunks spacec sp -> spelled tok t -> follows tok r -> lexed r ts -> lexed (sp ++ t ++ r) ((tok, t) :: ts).
Proof.
  intros Hsp Ht Hf Hl src off s Ha E. destruct (spelled_scans _ _ _ _ _ _ _ Ht Hf Hsp Ha E) as (s' & Es & Ha').
  eexists _, s'. split; [exact Es|]. apply (Hl _ _ _ Ha'). by do 2 apply drop_app_at in E.
Qed.

Lemma space_ok : chunks spacec (str " ").
Proof. apply (chunks_cons _ 32 [x20] []); [by apply (chunk_byte x20)|done|constructor]. Qed.

Lemma boundary_byte b r : b = x20 \/ b = x28 \/ b = x29 \/ b = x2e -> boundary (b :: r).
Proof. intros Hb. right. by exists b, r. Qed.

Lemma mark_spelled b : punct (Z_of_byte b) = true -> spelled tokPunct [b].
Proof. intros Hp. by exists b. Qed.

Lemma ident_starts t : ident t -> starts t.
Proof. intros [(_ & c & t0 & r & -> & Hk & _) _]. by exists c, t0, r. Qed.

Lemma Itoa_starts n : 0 <= n <= MaxInt64 -> starts (Itoa n).
Proof.
  intros Hn. destruct (Itoa_spec n Hn) as (_ & Hall & b & l & E & _). rewrite E in *. apply starts_byte. inversion_clear Hall as [|? ? Hb _].
  unfold decimal in Hb. lia.
Qed.

Lemma expr_starts e : canonical e -> starts (expr_String e).
Proof.
  induction e as [op l IHl r IHr|a|i o IHo|e IHe|tok v|i b IHb|n]; cbn [canonical expr_String]; intros Hc.
  - apply starts_app, IHl, Hc.
  - by apply ident_starts.
  - apply starts_app, IHo, Hc.
  - by apply (starts_byte x28 (expr_String e ++ str ")")).
  - destruct tok; try done; [destruct Hc as (body & -> & _); by apply (starts_byte x27 (body ++ [x27]))|].
    destruct Hc as (n & Hn & ->). by apply Itoa_starts.
  - apply starts_app. apply ident_starts, Hc.
  - by apply (starts_byte x24 (Itoa n)).
Qed.

Lemma letters_word t : Forall (fun b => 65 <= Z_of_byte b <= 90) t -> t <> [] -> word t.
Proof.
  intros Ht Hne. assert (Hl : forall b, 65 <= Z_of_byte b <= 90 -> isLetter (Z_of_byte b) = true).
  { intros b [H1 H2]. unfold isLetter. codes. rewrite (proj2 (Z.leb_le _ _) H1), (proj2 (Z.leb_le _ _) H2). by rewrite orb_true_r. }
  split.
  - clear Hne. induction Ht as [|b t Hb _ IH]; [constructor|]. apply (chunks_cons _ (Z_of_byte b) [b] t); [apply chunk_byte; lia| |done].
    unfold identc. by rewrite Hl.
  - destruct Ht as [|b t Hb _]; [done|]. exists (Z_of_byte b), [b], t. split; [done|]. split; [apply chunk_byte; lia|by apply Hl].
Qed.

Lemma op_spelled op : operator op -> spelled (op_token op).1 (op_token op).2.
Proof.
  intros Hop. destruct (operator_cases _ Hop) as [->|[->| ->]]; [split; [|done]..|].
  - apply letters_word; [|done]. repeat (constructor; [done|]). constructor.
  - apply letters_word; [|done]. repeat (constructor; [done|]). constructor.
  - by exists x3d.
Qed.

Lemma boundary_follows tok r : boundary r -> follows tok r.
Proof. intros Hb. destruct tok; try done. by left. Qed.

Lemma lexed_expr e :
  canonical e -> forall sp r ts, chunks spacec sp -> boundary r -> lexed r ts -> lexed (sp ++ expr_String e ++ r) (tokens e ++ ts).
Proof.
  induction e as [op l IHl x IHx|a|i o IHo|e IHe|tok v|i b IHb|n]; cbn [canonical expr_String tokens]; intros Hc sp r ts Hsp Hr Hl.
  - destruct Hc as (Hop & Hcl & Hcx & _). rewrite <- !app_assoc. apply IHl; [done..|by apply boundary_byte; left|].
    destruct (op_token op) as [tok name] eqn:Eo. pose proof (op_spelled op Hop) as Ht. rewrite Eo in Ht.
    replace (op_name op) with name by (by injection Eo as _ ->). apply lexed_token; [apply space_ok|done| |].
    + apply boundary_follows, boundary_byte. by left.
    + apply IHx; [done|apply space_ok|done|done].
  - by apply (lexed_token sp tokIdent).
  - destruct Hc as (Hi & Hco & _). rewrite <- !app_assoc. apply IHo; [done..|by apply boundary_byte; auto|].
    apply (lexed_token [] tokPunct (str ".")); [constructor|by apply (mark_spelled x2e)|right; by apply starts_app, ident_starts|].
    apply (lexed_token [] tokIdent); [constructor|done..].
  - rewrite <- !app_assoc.
    apply (lexed_token sp tokPunct (str "(")); [done|by apply (mark_spelled x28)|right; by apply starts_app, expr_starts|].
    apply (IHe Hc []); [constructor|by apply boundary_byte; auto|].
    apply (lexed_token [] tokPunct (str ")")); [constructor|by apply (mark_spelled x29)|by left|done].
  - apply (lexed_token sp tok); [done|by destruct tok|by apply boundary_follows|done].
  - destruct Hc as [Hi Hcb]. rewrite <- !app_assoc. apply (lexed_token sp tokIdent); [done|done|by apply boundary_byte; auto|].
    apply (lexed_token [] tokPunct (str "(")); [constructor|by apply (mark_spelled x28)|right; by apply starts_app, expr_starts|].
    apply (IHb Hcb []); [constructor|by apply boundary_byte; auto|].
    apply (lexed_token [] tokPunct (str ")")); [constructor|by apply (mark_spelled x29)|by left|done].
  - apply (lexed_token sp tokPlaceholder); [done|by exists n|done|done].
Qed.

Lemma tokens_head e : canonical e -> exists tok lit ts, tokens e = (tok, lit) :: ts /\ tok <> tokEOF.
Proof.
  induction e as [op l IHl x IHx|a|i o IHo|e IHe|tok v|i b IHb|n]; cbn [canonical tokens]; intros Hc; try by eexists _, _, _.
  - destruct (IHl (proj1 (proj2 Hc))) as (tok & lit & ts & -> & Ht). by eexists _, _, _.
  - destruct (IHo (proj1 (proj2 Hc))) as (tok & lit & ts & -> & Ht). by eexists _, _, _.
  - exists tok, v, []. split; [done|]. by destruct tok.
Qed.

(** The parser before the text of an expression. *)
Lemma newParser_stands e : canonical e -> exists p, newParser (expr_String e) = FOk p /\ stands p (tokens e) /\ p_tok p <> tokEOF.
Proof.
  intros Hc. pose proof (lexed_expr e Hc [] [] [] (chunks_nil _) (or_introl eq_refl) lexed_nil) as Hl. rewrite !app_nil_r in Hl. simpl in Hl.
  destruct (starts_reads _ (expr_starts e Hc)) as [c Hr].
  destruct (at_exists (expr_String e) 0 c ltac:(lia) Hr) as (s & Ha & _). unfold newParser, scanner_init.
  rewrite next_read by (simpl; lia). cbn [sc_rdOffset sc_src]. destruct Ha as [Hle Ha]. rewrite Ha. cbn [mbind fres_bind].
  specialize (Hl _ 0%nat s (conj Hle Ha) eq_refl). unfold p_next. cbn [p_scanner].
  destruct (tokens_head e Hc) as (tok & lit & ts & Et & Hne). rewrite Et in *. destruct Hl as (pos & s' & E & Hl). rewrite E. by eexists.
Qed.

(** Printing a canonical expression and parsing the text gives the expression. *)
Lemma parse_printed e :
  canonical e -> exists p, parse (expr_String e) = FOk (Some e, p) /\ maxPlaceholder p = max_placeholder e.
Proof.
  intros Hc. destruct (newParser_stands e Hc) as (p & En & Hs & Hne).
  destruct (canonical_reads e Hc) as [Hsp _]. destruct (Hsp p []) as (p1 & Hs1 & Hr); [by rewrite app_nil_r|done..|].
  pose proof (level_canonical e Hc). destruct (Hr 0 ltac:(lia) (e, p1)) as [HA _]. destruct HA as (x & q & H1 & H2).
  { apply reach_cont_stop. unfold stops, determineBinaryOp. by rewrite (stands_lit _ _ Hs1). }
  destruct (reach_expr _ _ _ _ H1 H2) as [n Ee]. pose proof (post_settles _ _ (parse_post (expr_String e))) as [Hfuel _].
  assert (Ep : exists p2, parse (expr_String e) = FOk (Some e, p2)).
  { unfold parse in Hfuel |- *. rewrite En in Hfuel |- *. cbn [mbind fres_bind] in Hfuel |- *.
    rewrite bool_decide_eq_false_2 in Hfuel |- * by done.
    rewrite (stable_agree _ n (parse_fuel (expr_String e)) p _ stable_expr Ee) by (intros E; by rewrite E in Hfuel).
    cbn [mbind fres_bind]. rewrite parseTok_eq. destruct Hs1 as (Ht & _ & y & Ey). rewrite bool_decide_eq_true_2 by done.
    unfold p_next. rewrite Ey. destruct y as [[[pos tok] lit] s]. by eexists. }
  destruct Ep as [p2 Ep]. exists p2. split; [done|]. pose proof (parse_post (expr_String e)) as Hpost. rewrite Ep in Hpost. by destruct Hpost.
Qed.
End Tokens.
