(* ===== verification/FilterSQL.v ===== *)
(** * Types and SQL of filters: [core/query/filter/typecheck.go], [sql.go], [parser.go]

    The tables that filters are about, of [core/query/sql.go], are at the end. *)

From Stdlib Require Import ZArith Lia Strings.Byte String.
From stdpp Require Import gmap.
From S2P Require Import Prelude Filter.

(** ** Tables *)

Inductive Type_ := Any | Bool | String_ | Integer | Object.

#[export] Instance Type_eq_dec : EqDecision Type_.
Proof. solve_decision. Defined.

Inductive SQLType := SQLBool | SQLText | SQLBytea | SQLJSONB | SQLInteger | SQLBigint | SQLTimestamp.

#[export] Instance SQLType_eq_dec : EqDecision SQLType.
Proof. solve_decision. Defined.

Record SQLColumn := mkColumn { col_Name : bytes; col_Type : Type_; col_SQLType : SQLType }.

(** The maps have each key once; a lookup finds it. *)
Inductive SQLTable := mkTable {
  tbl_Name : bytes;
  tbl_Alias : bytes;
  Columns : list (bytes * SQLColumn);
  ForeignKeys : list (bytes * SQLForeignKey);
}
with SQLForeignKey := mkForeignKey {
  fk_Table : SQLTable;
  LocalColumn : bytes;
  ForeignColumn : bytes;
}.

Fixpoint find_key {A} (k : bytes) (l : list (bytes * A)) : option A :=
  match l with
  | [] => None
  | (k', a) :: l => if bool_decide (k = k') then Some a else find_key k l
  end.

(** ** Type checking *)

Inductive terr :=
  | UnsupportedValue
  | NotBool (t : Type_)
  | ExpectsBool (op : bytes)
  | ExpectsScalar (op : bytes)
  | ExpectsMatching (op : bytes)
  | UnboundPlaceholder (num : Z)
  | InvalidAttribute (attr : bytes)
  | InvalidEnvironment (ident : bytes)
  | NotAnObject
  | BodyNotBool (ident : bytes)
  | UsedAsBoth (path : bytes) (t1 t2 : Type_).

(** The values that a caller binds to placeholders, by their Go types. *)
Inductive value := VInt (z : Z) | VString (s : bytes) | VBool (b : bool) | VOther.

Definition isType (got want : Type_) : bool := bool_decide (got = want \/ got = Any).

Definition knownType (t : Type_) : bool := match t with Any => false | _ => true end.

Fixpoint valueTypes (vals : list value) : option (list Type_) :=
  match vals with
  | [] => Some []
  | v :: vals =>
      t ← (match v with VInt _ => Some Integer | VString _ => Some String_ | VBool _ => Some Bool | VOther => None end);
      ts ← valueTypes vals;
      Some (t :: ts)
  end.

Fixpoint jsonbPath (f : expr) : option (list bytes) :=
  match f with
  | selectorExpr ident obj => path ← jsonbPath obj; Some (path ++ [ident])
  | attrExpr attr => Some [attr]
  | _ => None
  end.

(** [strings.Join(path, ".")] *)
Fixpoint join (path : list bytes) : bytes :=
  match path with
  | [] => []
  | [x] => x
  | x :: path => x ++ str "." ++ join path
  end.

Notation stypes := (gmap bytes Type_).

(** The map of the types of selectors is shared and changed in place. *)
Definition TC (A : Type) : Type := stypes -> fres terr (A * stypes).

#[export] Instance TC_ret : MRet TC := fun A a m => FOk (a, m).
#[export] Instance TC_bind : MBind TC := fun A B f m s => '(a, s) ← m s; f a s.

Definition tc_err {A} (e : terr) : TC A := fun _ => FErr e.
Definition tc_panic {A} : TC A := fun _ => FPanic.

Fixpoint setType (e : expr) (typ : Type_) : TC unit :=
  match e with
  | parenExpr inner => setType inner typ
  | placeholderExpr _ => mret tt
  | selectorExpr _ _ =>
      match jsonbPath e with
      | None => tc_panic
      | Some path => fun m =>
          match m !! join path with
          | Some bound => if bool_decide (bound = typ) then FOk (tt, <[join path := typ]> m)
                          else FErr (UsedAsBoth (join path) bound typ)
          | None => FOk (tt, <[join path := typ]> m)
          end
      end
  | _ => tc_panic
  end.

Definition assertType (e : expr) (got want : Type_) : TC bool :=
  if negb (isType got want) then mret false
  else if negb (bool_decide (got = Any)) then mret true
  else setType e want;; mret true.

Definition tc_ensure (ok : bool) (err : terr) : TC unit := if ok then mret tt else tc_err err.

(** The operator [=]: an operand of unknown type takes the type of the other. *)
Definition check_equal (op : bytes) (l r : expr) (leftTyp rightTyp : Type_) : TC Type_ :=
  leftTyp ← (if negb (knownType leftTyp) && knownType rightTyp then setType l rightTyp;; mret rightTyp else mret leftTyp);
  rightTyp ← (if negb (knownType rightTyp) && knownType leftTyp then setType r leftTyp;; mret leftTyp else mret rightTyp);
  tc_ensure (isType leftTyp String_ || isType leftTyp Integer) (ExpectsScalar op);;
  tc_ensure (isType rightTyp String_ || isType rightTyp Integer) (ExpectsScalar op);;
  tc_ensure (negb (knownType rightTyp && knownType leftTyp && negb (bool_decide (leftTyp = rightTyp)))) (ExpectsMatching op);;
  mret Bool.

Fixpoint typeCheckExpr (e : expr) (tbl : SQLTable) (valTypes : list Type_) : TC Type_ :=
  match e with
  | parenExpr inner => typeCheckExpr inner tbl valTypes
  | binaryExpr op l r =>
      leftTyp ← typeCheckExpr l tbl valTypes;
      rightTyp ← typeCheckExpr r tbl valTypes;
      if bool_decide (op_name op = str "OR" \/ op_name op = str "AND") then
        ok ← assertType l leftTyp Bool;
        tc_ensure ok (ExpectsBool (op_name op));;
        ok ← assertType r rightTyp Bool;
        tc_ensure ok (ExpectsBool (op_name op));;
        mret Bool
      else if bool_decide (op_name op = str "=") then check_equal (op_name op) l r leftTyp rightTyp
      else tc_panic
  | placeholderExpr num =>
      if bool_decide (valTypes = []) then mret Any
      else if (num <=? 0) || (zlen valTypes <? num) then tc_err (UnboundPlaceholder num)
      else match valTypes !! Z.to_nat (num - 1) with Some t => mret t | None => tc_panic end
  | attrExpr attr =>
      match find_key attr (Columns tbl) with
      | Some col => mret (col_Type col)
      | None => tc_err (InvalidAttribute attr)
      end
  | valueExpr tokString _ => mret String_
  | valueExpr tokInteger _ => mret Integer
  | valueExpr _ _ => tc_panic
  | selectorExpr _ obj =>
      typ ← typeCheckExpr obj tbl valTypes;
      ok ← assertType obj typ Object;
      tc_ensure ok NotAnObject;;
      mret Any
  | envExpr ident body =>
      match find_key ident (ForeignKeys tbl) with
      | None => tc_err (InvalidEnvironment ident)
      | Some fk =>
          typ ← typeCheckExpr body (fk_Table fk) valTypes;
          ok ← assertType body typ Bool;
          tc_ensure ok (BodyNotBool ident);;
          mret Bool
      end
  end.

(** The empty filter has no expression and type bool. *)
Definition typeCheck (e : option expr) (tbl : SQLTable) (vals : list value) : fres terr stypes :=
  match valueTypes vals with
  | None => FErr UnsupportedValue
  | Some valTypes =>
      '(_, m) ← (match e with
                 | None => mret tt
                 | Some e =>
                     typ ← typeCheckExpr e tbl valTypes;
                     ok ← assertType e typ Bool;
                     tc_ensure ok (NotBool typ)
                 end : TC unit) ∅;
      FOk m
  end.

(** ** Predicates: [parser.go] *)

Record Predicate := mkPredicate { pred_expr : option expr; selectorTypes : stypes; Parameters : Z }.

Definition Predicate_String (p : Predicate) : bytes := match pred_expr p with None => [] | Some e => expr_String e end.

(** [MarshalText] follows the nil expression of an empty filter. *)
Definition Predicate_MarshalText (p : Predicate) : option bytes := expr_String <$> pred_expr p.

(** Every error is [ErrBadFilter] with a detail. *)
Inductive ferr := BadSyntax (e : parseError) | BadType (e : terr) | EmptyField | NotAField | BadFilter (e : terr) | NotIndexable (attr : bytes)
  | BadValue | Recovered.

Definition sub_ferr {E A} (f : E -> ferr) (r : fres E A) : fres ferr A :=
  match r with FOk a => FOk a | FErr e => FErr (f e) | FPanic => FPanic | FFuel => FFuel end.

Section Predicates.
Context `{Unicode}.

Definition Parse (predicate : bytes) (tbl : SQLTable) (vals : list value) : fres ferr Predicate :=
  '(e, parser) ← sub_ferr BadSyntax (parse predicate);
  m ← sub_ferr BadType (typeCheck e tbl vals);
  FOk (mkPredicate e m (maxPlaceholder parser)).

Definition ParseField (s : bytes) : fres ferr expr :=
  '(e, _) ← sub_ferr BadSyntax (parse s);
  match e with
  | None => FErr EmptyField
  | Some e =>
      match e with
      | attrExpr _ | selectorExpr _ _ => FOk e
      | _ => FErr NotAField
      end
  end.
End Predicates.

(** ** SQL: [sql.go] *)

(** [pq.QuoteIdentifier] *)
Class PQ := { QuoteIdentifier : bytes -> bytes }.

Section SQL.
Context `{PQ}.

Definition writeCol (tbl : SQLTable) (name : bytes) : bytes := tbl_Alias tbl ++ str "." ++ QuoteIdentifier name.

(** The keys of a JSON path, each in quotes; the last is taken as text. *)
Fixpoint write_path (path : list bytes) : bytes :=
  match path with
  | [] => []
  | [p] => str "->>'" ++ p ++ str "'"
  | p :: path => str "->'" ++ p ++ str "'" ++ write_path path
  end.

Definition cast (t : option Type_) : bytes :=
  match t with
  | Some Integer => str "::bigint"
  | Some Bool => str "::boolean"
  | Some Object => str "::jsonb"
  | _ => []
  end.

Definition attr_sql (tbl : SQLTable) (col : SQLColumn) : bytes :=
  match col_SQLType col with
  | SQLBytea => str "encode(" ++ writeCol tbl (col_Name col) ++ str ", 'hex')"
  | SQLJSONB | SQLTimestamp => writeCol tbl (col_Name col) ++ str "::text"
  | SQLInteger => writeCol tbl (col_Name col) ++ str "::bigint"
  | SQLBool | SQLText | SQLBigint => writeCol tbl (col_Name col)
  end.

Definition nl : bytes := [x0a].
Definition dq : bytes := [x22].

Definition join_sql (tbl : SQLTable) (fk : SQLForeignKey) (body : bytes) : bytes :=
  let sub := fk_Table fk in
  nl ++ str "EXISTS(SELECT 1 FROM " ++ tbl_Name sub ++ str " AS " ++ tbl_Alias sub ++ str " WHERE " ++ tbl_Alias sub ++
  str "." ++ dq ++ ForeignColumn fk ++ dq ++ str " = " ++ tbl_Alias tbl ++ str "." ++ dq ++ LocalColumn fk ++ dq ++
  str " AND (" ++ body ++ str "))" ++ nl.

Fixpoint asSQL (tbl : SQLTable) (values : Z) (m : stypes) (e : expr) : fres ferr bytes :=
  match e with
  | parenExpr inner => s ← asSQL tbl values m inner; FOk (str "(" ++ s ++ str ")")
  | valueExpr tokString v => FOk v
  | valueExpr tokInteger v => FOk (v ++ str "::bigint")
  | valueExpr _ _ => FErr BadValue
  | attrExpr attr =>
      match find_key attr (Columns tbl) with
      | None => FErr (BadFilter (InvalidAttribute attr))
      | Some col => FOk (attr_sql tbl col)
      end
  | selectorExpr _ _ =>
      match jsonbPath e with
      | Some (base :: path) =>
          match find_key base (Columns tbl) with
          | None => FErr (BadFilter (InvalidAttribute base))
          | Some col =>
              if bool_decide (col_SQLType col = SQLJSONB)
              then FOk (str "(" ++ writeCol tbl base ++ write_path path ++ str ")" ++ cast (m !! join (base :: path)))
              else FErr (NotIndexable base)
          end
      | _ => FPanic
      end
  | binaryExpr op l r =>
      sl ← asSQL tbl values m l;
      sr ← asSQL tbl values m r;
      FOk (sl ++ str " " ++ sqlOp op ++ str " " ++ sr)
  | placeholderExpr num =>
      if (num <? 1) || (values <? num) then FErr (BadFilter (UnboundPlaceholder num)) else FOk (str "$" ++ Itoa num)
  | envExpr ident body =>
      match find_key ident (ForeignKeys tbl) with
      | None => FErr (BadFilter (InvalidEnvironment ident))
      | Some fk => s ← asSQL (fk_Table fk) values m body; FOk (join_sql tbl fk s)
      end
  end.

(** A panic of [asSQL] is recovered as an error. *)
Definition AsSQL (p : Predicate) (tbl : SQLTable) (values : list value) : fres ferr bytes :=
  match (match pred_expr p with None => FOk [] | Some e => asSQL tbl (zlen values) (selectorTypes p) e end) with
  | FPanic => FErr Recovered
  | r => r
  end.

Definition FieldAsSQL (tbl : SQLTable) (f : expr) : fres ferr bytes :=
  match jsonbPath f with
  | Some (base :: rest) =>
      match find_key base (Columns tbl) with
      | None => FErr (BadFilter (InvalidAttribute base))
      | Some col =>
          if negb (bool_decide (col_SQLType col = SQLJSONB)) && negb (bool_decide (rest = [])) then FErr (NotIndexable base)
          else
            let bytea := bool_decide (col_SQLType col = SQLBytea) in
            FOk ((if bytea then str "encode(" else []) ++ tbl_Alias tbl ++ str "." ++ QuoteIdentifier base ++
                 (if bytea then str ", 'hex')" else []) ++ write_path rest)
      end
  | _ => FPanic
  end.
End SQL.

(** ** The tables of [core/query/sql.go] *)

Definition col (key name : string) (typ : Type_) (sql : SQLType) : bytes * SQLColumn := (str key, mkColumn (str name) typ sql).
Definition col' (key : string) (typ : Type_) (sql : SQLType) : bytes * SQLColumn := col key key typ sql.

Definition assetsTable : SQLTable := mkTable (str "annotated_assets") (str "ast")
  [ col' "id" String_ SQLBytea; col' "alias" String_ SQLText; col' "issuance_program" String_ SQLBytea;
    col' "quorum" Integer SQLInteger; col' "tags" Object SQLJSONB; col' "definition" Object SQLJSONB;
    col "is_local" "local" String_ SQLBool ] [].

Definition accountsTable : SQLTable := mkTable (str "annotated_accounts") (str "acc")
  [ col' "id" String_ SQLText; col' "alias" String_ SQLText; col' "quorum" Integer SQLInteger; col' "tags" Object SQLJSONB ] [].

Definition outputsTable : SQLTable := mkTable (str "annotated_outputs") (str "out")
  [ col "id" "output_id" String_ SQLBytea; col' "type" String_ SQLText; col' "purpose" String_ SQLText;
    col "transaction_id" "tx_hash" String_ SQLBytea; col "position" "output_index" Integer SQLInteger;
    col' "asset_id" String_ SQLBytea; col' "asset_alias" String_ SQLText; col' "asset_definition" Object SQLJSONB;
    col' "asset_tags" Object SQLJSONB; col "asset_is_local" "asset_local" String_ SQLBool; col' "amount" Integer SQLBigint;
    col' "account_id" String_ SQLText; col' "account_alias" String_ SQLText; col' "account_tags" Object SQLJSONB;
    col' "control_program" String_ SQLBytea; col' "reference_data" Object SQLJSONB; col "is_local" "local" String_ SQLBool ] [].

Definition inputsTable : SQLTable := mkTable (str "annotated_inputs") (str "inp")
  [ col' "type" String_ SQLText; col' "asset_id" String_ SQLBytea; col' "asset_alias" String_ SQLText;
    col' "asset_definition" Object SQLJSONB; col' "asset_tags" Object SQLJSONB; col "asset_is_local" "asset_local" String_ SQLBool;
    col' "amount" Integer SQLBigint; col' "account_id" String_ SQLText; col' "account_alias" String_ SQLText;
    col' "account_tags" Object SQLJSONB; col' "issuance_program" String_ SQLBytea; col' "reference_data" Object SQLJSONB;
    col "is_local" "local" String_ SQLBool; col' "spent_output_id" String_ SQLBytea; col' "spent_output" Object SQLJSONB ] [].

Definition transactionsTable : SQLTable := mkTable (str "annotated_txs") (str "txs")
  [ col "id" "tx_hash" String_ SQLBytea; col' "timestamp" String_ SQLTimestamp; col' "block_id" String_ SQLBytea;
    col' "block_height" Integer SQLBigint; col "position" "tx_pos" Integer SQLInteger;
    col "block_transactions_count" "block_tx_count" Integer SQLInteger; col' "reference_data" Object SQLJSONB;
    col "is_local" "local" String_ SQLBool ]
  [ (str "inputs", mkForeignKey inputsTable (str "tx_hash") (str "tx_hash"));
    (str "outputs", mkForeignKey outputsTable (str "tx_hash") (str "tx_hash")) ].

(** ** Tables that the type checker can rely on *)

(** A column has a type of its own, and objects are stored as JSON. *)
Definition column_ok (c : SQLColumn) : bool :=
  negb (bool_decide (col_Type c = Any)) && (negb (bool_decide (col_Type c = Object)) || bool_decide (col_SQLType c = SQLJSONB)).

Inductive table_ok : SQLTable -> Prop :=
  | table_ok_intro t :
      forallb (fun kc => column_ok kc.2) (Columns t) = true ->
      (forall kf, In kf (ForeignKeys t) -> table_ok (fk_Table kf.2)) -> table_ok t.

Lemma find_key_In {A} k (l : list (bytes * A)) a : find_key k l = Some a -> In (k, a) l.
Proof.
  induction l as [|[k' a'] l IH]; simpl; [done|]. case_bool_decide as E; [|auto]. intros [= <-]. left. by rewrite E.
Qed.

Lemma table_ok_column t k c : table_ok t -> find_key k (Columns t) = Some c -> col_Type c <> Any /\ (col_Type c = Object -> col_SQLType c = SQLJSONB).
Proof.
  intros [t' Hc _] Hf. apply find_key_In in Hf. apply (proj1 (forallb_forall _ _) Hc) in Hf. unfold column_ok in Hf. simpl in Hf.
  apply andb_true_iff in Hf as [H1 H2]. rewrite negb_true_iff, bool_decide_eq_false in H1. split; [done|]. intros Ho.
  rewrite (bool_decide_eq_true_2 _ Ho) in H2. by apply bool_decide_eq_true in H2.
Qed.

Lemma table_ok_key t k fk : table_ok t -> find_key k (ForeignKeys t) = Some fk -> table_ok (fk_Table fk).
Proof. intros [t' _ Hk] Hf. apply find_key_In in Hf. exact (Hk _ Hf). Qed.

(** The tables of the program are such. *)
Lemma leaf_table_ok t : forallb (fun kc => column_ok kc.2) (Columns t) = true -> ForeignKeys t = [] -> table_ok t.
Proof. intros Hc Hk. constructor; [done|]. by rewrite Hk. Qed.

Lemma query_tables_ok : Forall table_ok [assetsTable; accountsTable; outputsTable; inputsTable; transactionsTable].
Proof.
  do 4 (constructor; [by apply leaf_table_ok|]). constructor; [|constructor]. constructor; [done|].
  intros kf [<-|[<-|[]]]; by apply leaf_table_ok.
Qed.
