(* ===== verification/FilterSafe.v ===== *)
(** * Type checking of filters, and strings in their SQL

    An expression that the type checker accepts has an SQL translation, and the checker
    panics on no expression whose selectors are plain paths.  The SQL of a filter, less
    what stands between single quotes, does not depend on the strings of the filter. *)

From Stdlib Require Import ZArith Lia Strings.Byte String.
From stdpp Require Import gmap.
From S2P Require Import Prelude Filter FilterScan FilterParse FilterSQL FilterRound.

(** ** Type checking *)

(** A path of selectors that begins with an attribute. *)
Definition is_path (e : expr) : bool := match jsonbPath e with Some _ => true | None => false end.

(** Every selector is part of such a path. *)
Fixpoint plain (e : expr) : bool :=
  match e with
  | binaryExpr _ l r => plain l && plain r
  | attrExpr _ | valueExpr _ _ | placeholderExpr _ => true
  | selectorExpr _ _ => is_path e
  | parenExpr e | envExpr _ e => plain e
  end.

(** What [setType] accepts. *)
Fixpoint settable (e : expr) : bool :=
  match e with
  | parenExpr e => settable e
  | placeholderExpr _ => true
  | selectorExpr _ _ => is_path e
  | _ => false
  end.

(** An error, or a result with a property. *)
Definition tpost {A} (r : fres terr (A * stypes)) (Q : A -> stypes -> Prop) : Prop :=
  match r with FOk (a, m) => Q a m | FErr _ => True | _ => False end.

Lemma tpost_bind {A B} (c : TC A) (f : A -> TC B) m Q : tpost (c m) (fun a m' => tpost (f a m') Q) -> tpost ((c ≫= f) m) Q.
Proof. unfold mbind, TC_bind. by destruct (c m) as [[a m']| | |]. Qed.

Lemma tpost_mono {A} (r : fres terr (A * stypes)) (Q Q' : A -> stypes -> Prop) :
  tpost r Q -> (forall a m, Q a m -> Q' a m) -> tpost r Q'.
Proof. destruct r as [[a m]| | |]; simpl; auto. Qed.

Lemma tpost_ensure {B} ok err (c : TC B) m Q : (ok = true -> tpost (c m) Q) -> tpost ((tc_ensure ok err;; c) m) Q.
Proof. intros Hc. apply tpost_bind. unfold tc_ensure. destruct ok; [by apply Hc|done]. Qed.

Lemma setType_post e typ m : settable e = true -> tpost (setType e typ m) (fun _ _ => True).
Proof.
  induction e as [| |i o _|e IH| | |]; try done. intros Hs. change (is_path (selectorExpr i o) = true) in Hs. unfold is_path in Hs.
  cbn [setType]. destruct (jsonbPath (selectorExpr i o)) as [path|]; [|done]. destruct (m !! join path) as [t|]; [|done]. by case_bool_decide.
Qed.

(** The object has the wanted type, or is given it. *)
Lemma assertType_post e got want m :
  (got = Any -> settable e = true) -> tpost (assertType e got want m) (fun ok _ => ok = true -> got = want \/ got = Any).
Proof.
  intros Hs. unfold assertType, isType. case_bool_decide as E; [|by intros ?]. cbn [negb].
  case_bool_decide as Ea; cbn [negb]; [|by intros _].
  apply tpost_bind. eapply tpost_mono; [by apply setType_post, Hs|]. by intros [] m' _ _.
Qed.

Section Check.
Context `{Unicode} `{PQ}.

(** [e] translates, whatever the types of selectors, when its placeholders have values. *)
Definition translates (tbl : SQLTable) (e : expr) : Prop :=
  forall values m, max_placeholder e <= values -> exists sql, asSQL tbl values m e = FOk sql.

(** What the type checker gives. *)
Definition checked (tbl : SQLTable) (e : expr) (t : Type_) : Prop :=
  (t = Any -> settable e = true) /\ translates tbl e /\
  forall base path, jsonbPath e = Some (base :: path) ->
    exists c, find_key base (Columns tbl) = Some c /\
      match path with [] => t = col_Type c | _ => col_SQLType c = SQLJSONB end.

Lemma jsonbPath_nil e : jsonbPath e <> Some [].
Proof. destruct e; simpl; try done. destruct (jsonbPath e) as [p|]; [|done]. simpl. intros [= E]. by destruct p. Qed.

Lemma selector_checked tbl i o t m Q :
  table_ok tbl -> is_path (selectorExpr i o) = true -> checked tbl o t ->
  (checked tbl (selectorExpr i o) Any -> Q Any) ->
  tpost ((ok ← assertType o t Object; tc_ensure ok NotAnObject;; mret Any) m) (fun t _ => Q t).
Proof.
  intros Hw Hp (Hany & _ & Hpath) HQ. apply tpost_bind. eapply tpost_mono; [by apply assertType_post|].
  intros ok m' Hok. apply tpost_ensure. intros ->. apply HQ. specialize (Hok eq_refl).
  unfold is_path in Hp. cbn [jsonbPath] in Hp. destruct (jsonbPath o) as [[|base path]|] eqn:Eo; [by apply jsonbPath_nil in Eo| |done].
  destruct (Hpath base path eq_refl) as (c & Hc & Hcol).
  assert (Hj : col_SQLType c = SQLJSONB).
  { destruct path; [|done]. destruct (table_ok_column _ _ _ Hw Hc) as [Hna Hobj]. apply Hobj. destruct Hok; congruence. }
  split; [by intros _; cbn; unfold is_path; cbn; rewrite Eo|]. split.
  - intros values m2 _. cbn [asSQL jsonbPath]. rewrite Eo. cbn [mbind option_bind app]. rewrite Hc, bool_decide_eq_true_2 by done. by eexists.
  - intros base' path'. cbn [jsonbPath]. rewrite Eo. cbn. intros [= <- <-]. exists c. split; [done|]. by destruct path.
Qed.

Lemma check_equal_post op l r lt rt m :
  (lt = Any -> settable l = true) -> (rt = Any -> settable r = true) -> tpost (check_equal op l r lt rt m) (fun t _ => t = Bool).
Proof.
  intros Hl Hr. unfold check_equal. apply tpost_bind.
  assert (H1 : tpost ((if negb (knownType lt) && knownType rt then setType l rt;; mret rt else mret lt) m) (fun _ _ => True)).
  { destruct (negb (knownType lt) && knownType rt) eqn:E; [|done]. apply tpost_bind. eapply tpost_mono; [|done].
    apply setType_post, Hl. by destruct lt. }
  eapply tpost_mono; [exact H1|]. intros lt' m1 _. apply tpost_bind.
  assert (H2 : tpost ((if negb (knownType rt) && knownType lt' then setType r lt';; mret lt' else mret rt) m1) (fun _ _ => True)).
  { destruct (negb (knownType rt) && knownType lt') eqn:E; [|done]. apply tpost_bind. eapply tpost_mono; [|done].
    apply setType_post, Hr. by destruct rt. }
  eapply tpost_mono; [exact H2|]. intros rt' m2 _. by do 3 (apply tpost_ensure; intros _).
Qed.

Lemma and_or_post op l r lt rt m :
  (lt = Any -> settable l = true) -> (rt = Any -> settable r = true) ->
  tpost ((ok ← assertType l lt Bool; tc_ensure ok (ExpectsBool op);; ok ← assertType r rt Bool; tc_ensure ok (ExpectsBool op);; mret Bool) m)
    (fun t _ => t = Bool).
Proof.
  intros Hl Hr. apply tpost_bind. eapply tpost_mono; [by apply assertType_post|]. intros ok m1 _. apply tpost_ensure. intros _.
  apply tpost_bind. eapply tpost_mono; [by apply assertType_post|]. intros ok2 m2 _. by apply tpost_ensure.
Qed.

Lemma binary_checked tbl op l r lt rt : checked tbl l lt -> checked tbl r rt -> checked tbl (binaryExpr op l r) Bool.
Proof.
  intros (_ & Hl & _) (_ & Hr & _). split; [done|]. split; [|done]. intros values m Hm. cbn [max_placeholder] in Hm.
  destruct (Hl values m ltac:(lia)) as [sl El], (Hr values m ltac:(lia)) as [sr Er]. cbn [asSQL]. rewrite El, Er. by eexists.
Qed.

Lemma typeCheckExpr_post e : forall tbl vt m,
  canonical e -> plain e = true -> table_ok tbl -> tpost (typeCheckExpr e tbl vt m) (fun t _ => checked tbl e t).
Proof.
  induction e as [op l IHl r IHr|a|i o IHo|e IHe|tok v|i b IHb|n]; intros tbl vt m Hc Hp Hw; cbn [canonical] in Hc; cbn [typeCheckExpr].
  - destruct Hc as (Hop & Hcl & Hcr & _). cbn [plain] in Hp. apply andb_true_iff in Hp as [Hpl Hpr].
    apply tpost_bind. eapply tpost_mono; [by apply IHl|]. intros lt m1 Hl. apply tpost_bind. eapply tpost_mono; [by apply IHr|].
    intros rt m2 Hr. pose proof (binary_checked tbl op l r lt rt Hl Hr) as Hb. destruct Hl as [Hl _], Hr as [Hr _].
    destruct (operator_cases _ Hop) as [->|[->| ->]].
    + rewrite bool_decide_eq_true_2 by auto. eapply tpost_mono; [by apply and_or_post|]. by intros t m3 ->.
    + rewrite bool_decide_eq_true_2 by auto. eapply tpost_mono; [by apply and_or_post|]. by intros t m3 ->.
    + rewrite bool_decide_eq_false_2 by (by intros []). rewrite bool_decide_eq_true_2 by done.
      eapply tpost_mono; [by apply check_equal_post|]. by intros t m3 ->.
  - destruct (find_key a (Columns tbl)) as [c|] eqn:E; [|done]. split; [|split].
    + intros Ha. by destruct (table_ok_column _ _ _ Hw E).
    + intros values m' _. cbn [asSQL]. rewrite E. by eexists.
    + intros base path [= <- <-]. by exists c.
  - destruct Hc as (_ & Hco & _). apply tpost_bind. eapply tpost_mono.
    { apply IHo; [done| |done]. cbn [plain] in Hp. unfold is_path in Hp. cbn [jsonbPath] in Hp. destruct (jsonbPath o) eqn:Eo; [|done].
      destruct o; try done. cbn. unfold is_path. by rewrite Eo. }
    intros t m1 Ho. by eapply (selector_checked tbl i o t m1 (checked tbl (selectorExpr i o))).
  - eapply tpost_mono; [by apply IHe|]. intros t _ (Ha & Ht & _). split; [done|]. split; [|done]. intros values m' Hm.
    destruct (Ht values m' Hm) as [s Es]. cbn [asSQL]. rewrite Es. by eexists.
  - destruct tok; try done; (split; [done|]); (split; [|done]); intros values m' _; by eexists.
  - destruct Hc as [_ Hcb]. destruct (find_key i (ForeignKeys tbl)) as [fk|] eqn:E; [|done]. apply tpost_bind.
    eapply tpost_mono; [apply IHb; [done..|by eapply table_ok_key]|]. intros t m1 (Ha & Ht & _). apply tpost_bind.
    eapply tpost_mono; [by apply assertType_post|]. intros ok m2 _. apply tpost_ensure. intros _. split; [done|]. split; [|done].
    intros values m' Hm. destruct (Ht values m' Hm) as [s Es]. cbn [asSQL]. rewrite E, Es. by eexists.
  - assert (Hch : forall t, checked tbl (placeholderExpr n) t).
    { intros t. split; [done|]. split; [|done]. intros values m' Hm. cbn [asSQL max_placeholder] in *.
      rewrite (proj2 (Z.ltb_ge _ _)), (proj2 (Z.ltb_ge _ _)) by lia. by eexists. }
    case_bool_decide; [apply Hch|]. destruct (_ || _) eqn:Eb; [done|]. apply orb_false_iff in Eb as [E1 E2]. zbool.
    destruct (vt !! Z.to_nat (n - 1)) as [t|] eqn:Et; [apply Hch|]. apply lookup_ge_None in Et. unfold zlen in *. lia.
Qed.

(** The whole check of a filter. *)
Lemma typeCheck_post e tbl vals :
  canonical e -> plain e = true -> table_ok tbl ->
  match typeCheck (Some e) tbl vals with FOk _ => translates tbl e | FErr _ => True | _ => False end.
Proof.
  intros Hc Hp Hw. unfold typeCheck. destruct (valueTypes vals) as [vt|]; [|done].
  assert (Ht : tpost ((typ ← typeCheckExpr e tbl vt; ok ← assertType e typ Bool; tc_ensure ok (NotBool typ)) ∅) (fun _ _ => translates tbl e)).
  { apply tpost_bind. eapply tpost_mono; [by apply typeCheckExpr_post|]. intros t m1 (Ha & Htr & _). apply tpost_bind.
    eapply tpost_mono; [by apply assertType_post|]. intros ok m2 _. by destruct ok. }
  destruct (_ : fres terr (unit * stypes)) as [[u m]| | |]; done.
Qed.
End Check.

(** ** Strings stay between quotes *)

(** A query without what stands between single quotes. *)
Fixpoint strip (inside : bool) (l : bytes) : bytes :=
  match l with
  | [] => []
  | b :: l =>
      if bool_decide (b = x27) then x27 :: strip (negb inside) l
      else if inside then strip inside l else b :: strip inside l
  end.

Definition skeleton (q : bytes) : bytes := strip false q.

(** The quotes of a text are closed: what follows it is outside of them. *)
Definition closed (q : bytes) : Prop := forall r, skeleton (q ++ r) = skeleton q ++ skeleton r.

Definition unquoted (l : bytes) : Prop := Forall (fun b => b <> x27) l.

Lemma strip_unquoted l r : unquoted l -> strip false (l ++ r) = l ++ strip false r /\ strip true (l ++ r) = strip true r.
Proof.
  induction 1 as [|b l Hb _ [IH1 IH2]]; [done|]. cbn [app strip]. rewrite bool_decide_eq_false_2 by done. by rewrite IH1, IH2.
Qed.

(** Both texts are closed and differ between quotes only. *)
Definition alike (q q' : bytes) : Prop := closed q /\ closed q' /\ skeleton q = skeleton q'.

Lemma closed_unquoted l : unquoted l -> closed l.
Proof.
  intros Hl r. unfold skeleton. rewrite (proj1 (strip_unquoted _ r Hl)). pose proof (proj1 (strip_unquoted _ [] Hl)) as E.
  rewrite !app_nil_r in E. by rewrite E.
Qed.

Lemma alike_unquoted l : unquoted l -> alike l l.
Proof. intros Hl. pose proof (closed_unquoted _ Hl). done. Qed.

Lemma closed_app q r : closed q -> closed r -> closed (q ++ r).
Proof. intros Hq Hr k. rewrite <- app_assoc, Hq, Hr, Hq. by rewrite app_assoc. Qed.

Lemma alike_app q q' r r' : alike q q' -> alike r r' -> alike (q ++ r) (q' ++ r').
Proof.
  intros (H1 & H2 & E1) (H3 & H4 & E2). split; [by apply closed_app|]. split; [by apply closed_app|]. by rewrite H1, H2, E1, E2.
Qed.

(** Text between quotes. *)
Definition quoted (body : bytes) : bytes := [x27] ++ body ++ [x27].

Lemma skeleton_quoted body r : unquoted body -> skeleton (quoted body ++ r) = [x27; x27] ++ skeleton r.
Proof.
  intros Hb. unfold skeleton, quoted. rewrite <- !app_assoc. cbn [app strip]. rewrite bool_decide_eq_true_2 by done. cbn [negb].
  rewrite (proj2 (strip_unquoted _ (x27 :: r) Hb)). cbn [strip]. by rewrite bool_decide_eq_true_2.
Qed.

Lemma alike_quoted b b' : unquoted b -> unquoted b' -> alike (quoted b) (quoted b').
Proof.
  assert (Hc : forall b, unquoted b -> skeleton (quoted b) = [x27; x27]).
  { intros x Hx. rewrite <- (app_nil_r (quoted x)). by rewrite skeleton_quoted. }
  intros Hb Hb'. split; [|split; [|by rewrite !Hc]]; intros r; by rewrite skeleton_quoted, Hc.
Qed.

(** ** Bytes of characters *)

Lemma in_range_high lo hi b : 128 <= lo -> in_range lo hi (Z_of_byte b) = true -> 128 <= Z_of_byte b.
Proof. unfold in_range. intros Hlo Hr. zbool. lia. Qed.

Lemma DecodeRune_high l r w :
  DecodeRune l = (r, w) -> (w <> 1)%nat -> Forall (fun b => 128 <= Z_of_byte b) (take w l).
Proof.
  unfold DecodeRune. destruct l as [|b0 l]; simpl; [intros [= <- <-]; done|].
  destruct (Z.ltb_spec (Z_of_byte b0) RuneSelf) as [E0|E0]; [intros [= <- <-]; lia|]. unfold RuneSelf in E0.
  destruct (rune_lead (Z_of_byte b0)) as [[[n lo] hi]|] eqn:El; [|intros [= <- <-]; lia].
  destruct (rune_lead_facts _ _ _ _ El) as (Hlo & [(-> & _)|[(-> & _)|(-> & _)]]).
  - destruct l as [|b1 l]; simpl; [intros [= <- <-]; lia|]. destruct (in_range lo hi (Z_of_byte b1)) eqn:E1; [|intros [= <- <-]; lia].
    intros [= <- <-] _. simpl. rewrite firstn_O. repeat constructor; [done|]. by apply (in_range_high lo hi).
  - destruct l as [|b1 [|b2 l]]; simpl; [intros [= <- <-]; lia..|].
    destruct (in_range lo hi (Z_of_byte b1)) eqn:E1; [|intros [= <- <-]; lia].
    destruct (in_range 128 191 (Z_of_byte b2)) eqn:E2; [|intros [= <- <-]; lia].
    intros [= <- <-] _. simpl. rewrite firstn_O. repeat constructor; [done|by apply (in_range_high lo hi)|by apply (in_range_high 128 191)].
  - destruct l as [|b1 [|b2 [|b3 l]]]; simpl; [intros [= <- <-]; lia..|].
    destruct (in_range lo hi (Z_of_byte b1)) eqn:E1; [|intros [= <- <-]; lia].
    destruct (in_range 128 191 (Z_of_byte b2)) eqn:E2; [|intros [= <- <-]; lia].
    destruct (in_range 128 191 (Z_of_byte b3)) eqn:E3; [|intros [= <- <-]; lia].
    intros [= <- <-] _. simpl. rewrite firstn_O.
    repeat constructor; [done|by apply (in_range_high lo hi)|by apply (in_range_high 128 191)..].
Qed.

Lemma chunk_unquoted c t : chunk c t -> c <> quote -> unquoted t.
Proof.
  intros Hk Hc. destruct (Z.lt_ge_cases c RuneSelf) as [Hs|Hs].
  - destruct (chunk_small _ _ Hk Hs) as (b & -> & Hb). constructor; [|constructor]. intros ->. by apply Hc.
  - destruct Hk as (Hne & _ & Hk). specialize (Hk 0%nat []). rewrite app_nil_r in Hk. destruct t as [|b t]; [done|].
    unfold head_rune in Hk. destruct (Z_of_byte b =? 0); [done|]. destruct (Z.leb_spec RuneSelf (Z_of_byte b)) as [Hb|Hb]; [|injection Hk as ? ?; lia].
    destruct (DecodeRune (b :: t)) as [r w] eqn:Ed. destruct ((r =? RuneError) && (w =? 1)%nat) eqn:Ee; [done|].
    destruct (r =? bom); [done|]. injection Hk as -> ->.
    destruct (DecodeRune_wide _ _ _ _ Hb Ed) as [[-> Hw]|[Hw _]]; [by rewrite Hw in Ee|].
    apply DecodeRune_high in Ed; [|done]. rewrite take_ge in Ed by (simpl; lia). eapply Forall_impl; [exact Ed|].
    intros x Hx ->. change (Z_of_byte x27) with 39 in Hx. lia.
Qed.

Lemma chunks_unquoted p t : chunks p t -> p quote = false -> unquoted t.
Proof.
  intros Hc Hq. induction Hc as [|c t r Hk Hp _ IH]; [constructor|]. apply Forall_app_2; [|done].
  eapply chunk_unquoted; [done|]. congruence.
Qed.

Section Safe.
Context `{Unicode}.

Lemma ident_unquoted t : ident t -> unquoted t.
Proof.
  intros [[Hc _] _]. eapply chunks_unquoted; [done|]. unfold identc. rewrite not_letter by done. done.
Qed.

Lemma literal_quoted t : literal t -> exists body, t = quoted body /\ unquoted body.
Proof. intros (body & -> & Hb). exists body. split; [done|]. by eapply chunks_unquoted. Qed.

Lemma Itoa_unquoted n : 0 <= n <= MaxInt64 -> unquoted (Itoa n).
Proof.
  intros Hn. destruct (Itoa_spec n Hn) as (_ & Hd & _). eapply Forall_impl; [exact Hd|]. intros b Hb ->. unfold decimal in Hb.
  change (Z_of_byte x27) with 39 in Hb. lia.
Qed.

(** ** Filters that differ in their strings *)

Fixpoint same_shape (e e' : expr) : Prop :=
  match e, e' with
  | binaryExpr op l r, binaryExpr op' l' r' => op = op' /\ same_shape l l' /\ same_shape r r'
  | selectorExpr i o, selectorExpr i' o' => i = i' /\ same_shape o o'
  | parenExpr e, parenExpr e' => same_shape e e'
  | envExpr i b, envExpr i' b' => i = i' /\ same_shape b b'
  | valueExpr tokString _, valueExpr tokString _ => True
  | valueExpr _ _, valueExpr _ _ | attrExpr _, attrExpr _ | placeholderExpr _, placeholderExpr _ => e = e'
  | _, _ => False
  end.

Lemma same_shape_path e e' : same_shape e e' -> jsonbPath e = jsonbPath e'.
Proof.
  revert e'. induction e as [| |i o IH| |tok v| |]; intros e' E; destruct e' as [| |i' o'| |tok' v'| |]; try done; try (by destruct tok); simpl in E.
  - by injection E as ->.
  - destruct E as [-> E]. cbn [jsonbPath]. by rewrite (IH _ E).
Qed.

Lemma same_shape_setType e e' t m : same_shape e e' -> setType e t m = setType e' t m.
Proof.
  revert e'. induction e as [| |i o _|e IH|tok v| |]; intros e' E; destruct e' as [| |i' o'|x|tok' v'| |]; try done; try (by destruct tok); simpl in E.
  - cbn [setType]. assert (Ep : jsonbPath (selectorExpr i o) = jsonbPath (selectorExpr i' o')) by (by apply same_shape_path).
    by rewrite Ep.
  - exact (IH _ E).
Qed.

Lemma same_shape_assertType e e' got want m : same_shape e e' -> assertType e got want m = assertType e' got want m.
Proof.
  intros E. unfold assertType. destruct (negb (isType got want)); [done|]. destruct (negb _); [done|].
  unfold mbind, TC_bind. by rewrite (same_shape_setType _ _ _ _ E).
Qed.

Lemma TC_bind_ext {A B} (c c' : TC A) (f f' : A -> TC B) m :
  c m = c' m -> (forall a m', f a m' = f' a m') -> (c ≫= f) m = (c' ≫= f') m.
Proof. intros E Hf. unfold mbind, TC_bind. rewrite E. destruct (c' m) as [[a m']| | |]; [apply Hf|done..]. Qed.

Lemma same_shape_check_equal op l r l' r' lt rt m :
  same_shape l l' -> same_shape r r' -> check_equal op l r lt rt m = check_equal op l' r' lt rt m.
Proof.
  intros El Er. unfold check_equal. apply TC_bind_ext.
  - destruct (_ && _); [|done]. apply TC_bind_ext; [by apply same_shape_setType|done].
  - intros lt' m1. apply TC_bind_ext; [|done]. destruct (_ && _); [|done]. apply TC_bind_ext; [by apply same_shape_setType|done].
Qed.

(** The type checker looks at no string. *)
Lemma same_shape_typeCheckExpr e : forall e' tbl vt m,
  same_shape e e' -> typeCheckExpr e tbl vt m = typeCheckExpr e' tbl vt m.
Proof.
  induction e as [op l IHl r IHr|a|i o IHo|e IHe|tok v|i b IHb|n]; intros e' tbl vt m E;
    destruct e' as [op' l' r'|a'|i' o'|x|tok' v'|i' b'|n']; try done; try (by destruct tok); simpl in E; cbn [typeCheckExpr].
  - destruct E as (-> & El & Er). apply TC_bind_ext; [by apply IHl|]. intros lt m1. apply TC_bind_ext; [by apply IHr|]. intros rt m2.
    case_bool_decide; [|case_bool_decide; [by apply same_shape_check_equal|done]].
    apply TC_bind_ext; [by apply same_shape_assertType|]. intros ok m3. apply TC_bind_ext; [done|]. intros _ m4.
    apply TC_bind_ext; [by apply same_shape_assertType|done].
  - by injection E as ->.
  - destruct E as [-> E]. apply TC_bind_ext; [by apply IHo|]. intros t m1. apply TC_bind_ext; [by apply same_shape_assertType|done].
  - by apply IHe.
  - destruct tok, tok'; try done; by injection E.
  - destruct E as [-> E]. destruct (find_key i' (ForeignKeys tbl)); [|done]. apply TC_bind_ext; [by apply IHb|]. intros t m1.
    apply TC_bind_ext; [by apply same_shape_assertType|done].
  - by injection E as ->.
Qed.

Lemma same_shape_typeCheck e e' tbl vals : same_shape e e' -> typeCheck (Some e) tbl vals = typeCheck (Some e') tbl vals.
Proof.
  intros E. unfold typeCheck. destruct (valueTypes vals) as [vt|]; [|done].
  f_equal. apply TC_bind_ext; [by apply same_shape_typeCheckExpr|]. intros t m1. apply TC_bind_ext; [by apply same_shape_assertType|done].
Qed.

(** ** The queries *)

(** No name of a table has a single quote. *)
Inductive table_unquoted : SQLTable -> Prop :=
  | table_unquoted_intro t :
      unquoted (tbl_Name t) -> unquoted (tbl_Alias t) -> (forall kc, In kc (Columns t) -> unquoted (col_Name kc.2)) ->
      (forall kf, In kf (ForeignKeys t) -> unquoted (LocalColumn kf.2) /\ unquoted (ForeignColumn kf.2) /\ table_unquoted (fk_Table kf.2)) ->
      table_unquoted t.

Lemma table_unquoted_names t : table_unquoted t -> unquoted (tbl_Name t) /\ unquoted (tbl_Alias t).
Proof. by intros []. Qed.

(** An identifier in double quotes has single quotes only where the name has. *)
Class PQLaws `{PQ} := QuoteIdentifier_unquoted : forall name, unquoted name -> unquoted (QuoteIdentifier name).

Context `{PQLaws}.

Ltac plain_text := apply alike_unquoted; repeat constructor; done.

Lemma writeCol_unquoted tbl name : table_unquoted tbl -> unquoted name -> unquoted (writeCol tbl name).
Proof.
  intros [t _ Ha _ _] Hn. apply Forall_app_2; [done|]. apply Forall_app_2; [by repeat constructor|]. by apply QuoteIdentifier_unquoted.
Qed.

Lemma hex_alike : alike (str ", 'hex')") (str ", 'hex')").
Proof.
  change (str ", 'hex')") with (str ", " ++ quoted (str "hex") ++ str ")"). apply alike_app; [plain_text|].
  apply alike_app; [|plain_text]. by apply alike_quoted; repeat constructor.
Qed.

Lemma attr_sql_alike tbl k c : table_unquoted tbl -> find_key k (Columns tbl) = Some c -> alike (attr_sql tbl c) (attr_sql tbl c).
Proof.
  intros Ht Hf. assert (Hw : alike (writeCol tbl (col_Name c)) (writeCol tbl (col_Name c))).
  { apply alike_unquoted, writeCol_unquoted; [done|]. destruct Ht as [t _ _ Hc _]. apply find_key_In in Hf. exact (Hc _ Hf). }
  unfold attr_sql. destruct (col_SQLType c); try done; try (apply alike_app; [done|plain_text]).
  apply alike_app; [plain_text|]. apply alike_app; [done|apply hex_alike].
Qed.

Lemma write_path_alike path : Forall unquoted path -> alike (write_path path) (write_path path).
Proof.
  induction 1 as [|p path Hp _ IH]; [plain_text|]. cbn [write_path]. destruct path as [|p' path].
  - change (str "->>'" ++ p ++ str "'") with (str "->>" ++ quoted p). apply alike_app; [plain_text|by apply alike_quoted].
  - change (str "->'" ++ p ++ str "'" ++ write_path (p' :: path)) with (str "->" ++ str "'" ++ p ++ str "'" ++ write_path (p' :: path)).
    replace (str "'" ++ p ++ str "'" ++ write_path (p' :: path)) with (quoted p ++ write_path (p' :: path)) by (unfold quoted; by rewrite <- !app_assoc).
    apply alike_app; [plain_text|]. apply alike_app; [by apply alike_quoted|done].
Qed.

Lemma jsonbPath_unquoted e path : canonical e -> jsonbPath e = Some path -> Forall unquoted path.
Proof.
  revert path. induction e as [| |i o IH| | | |]; intros path Hc; cbn [jsonbPath canonical] in *; try done.
  - intros [= <-]. constructor; [by apply ident_unquoted|constructor].
  - destruct (jsonbPath o) as [p|]; [|done]. intros [= <-]. destruct Hc as (Hi & Hco & _).
    apply Forall_app_2; [by apply IH|]. constructor; [by apply ident_unquoted|constructor].
Qed.

Lemma cast_alike t : alike (cast t) (cast t).
Proof. destruct t as [[]|]; plain_text. Qed.

Lemma join_sql_alike tbl fk s s' :
  table_unquoted tbl -> unquoted (LocalColumn fk) -> unquoted (ForeignColumn fk) -> table_unquoted (fk_Table fk) ->
  alike s s' -> alike (join_sql tbl fk s) (join_sql tbl fk s').
Proof.
  intros Ht Hl Hf Ht' Hs. destruct (table_unquoted_names _ Ht) as [_ Ha], (table_unquoted_names _ Ht') as [Hn' Ha']. unfold join_sql.
  repeat (apply alike_app; [first [plain_text|by apply alike_unquoted|exact Hs]|]). plain_text.
Qed.

Lemma FOk_inj {E A} (a b : A) : @FOk E A a = FOk b -> a = b.
Proof. by intros [= ->]. Qed.

(** The queries of two filters of the same shape differ between quotes only. *)
Lemma asSQL_alike e : forall e' tbl n m q,
  canonical e -> canonical e' -> same_shape e e' -> table_unquoted tbl -> asSQL tbl n m e = FOk q ->
  exists q', asSQL tbl n m e' = FOk q' /\ alike q q'.
Proof.
  induction e as [op l IHl r IHr|a|i o _|e IHe|tok v|i b IHb|k]; intros e' tbl n m q Hc Hc' E Ht Eq;
    destruct e' as [op' l' r'|a'|i' o'|x|tok' v'|i' b'|k']; try done; try (by destruct tok); simpl in E.
  - destruct E as (<- & El & Er). destruct Hc as (Hop & Hcl & Hcr & _), Hc' as (_ & Hcl' & Hcr' & _). cbn [asSQL] in *.
    destruct (asSQL tbl n m l) as [sl| | |] eqn:E1; try done. cbn [mbind fres_bind] in Eq.
    destruct (asSQL tbl n m r) as [sr| | |] eqn:E2; try done. apply FOk_inj in Eq as <-.
    destruct (IHl _ _ _ _ _ Hcl Hcl' El Ht E1) as (sl' & -> & Hl). destruct (IHr _ _ _ _ _ Hcr Hcr' Er Ht E2) as (sr' & -> & Hr).
    eexists. split; [done|]. apply alike_app; [done|]. apply alike_app; [plain_text|].
    apply alike_app; [|apply alike_app; [plain_text|done]]. destruct (operator_cases _ Hop) as [->|[->| ->]]; plain_text.
  - injection E as <-. exists q. split; [done|]. cbn [asSQL] in Eq. destruct (find_key a (Columns tbl)) as [c|] eqn:Ef; [|done].
    apply FOk_inj in Eq as <-. by eapply attr_sql_alike.
  - assert (Ep : jsonbPath (selectorExpr i o) = jsonbPath (selectorExpr i' o')) by (by apply same_shape_path).
    exists q. cbn [asSQL] in *. rewrite <- Ep. split; [done|]. destruct (jsonbPath (selectorExpr i o)) as [[|base path]|] eqn:Ej; try done.
    pose proof (jsonbPath_unquoted _ _ Hc Ej) as Hu. inversion_clear Hu as [|? ? Hb Hpath].
    destruct (find_key base (Columns tbl)) as [c|]; [|done]. case_bool_decide; [|done]. apply FOk_inj in Eq as <-.
    apply alike_app; [plain_text|]. apply alike_app; [by apply alike_unquoted, writeCol_unquoted|].
    apply alike_app; [by apply write_path_alike|]. apply alike_app; [plain_text|apply cast_alike].
  - cbn [asSQL] in *. destruct (asSQL tbl n m e) as [s| | |] eqn:E1; try done. apply FOk_inj in Eq as <-.
    destruct (IHe x _ _ _ _ Hc Hc' E Ht E1) as (s' & -> & Hs). eexists. split; [done|].
    apply alike_app; [plain_text|]. apply alike_app; [done|plain_text].
  - destruct tok, tok'; try done; cbn [canonical] in Hc, Hc'.
    + apply FOk_inj in Eq as <-. exists v'. split; [done|]. destruct (literal_quoted _ Hc) as (b & -> & Hb), (literal_quoted _ Hc') as (b' & -> & Hb').
      by apply alike_quoted.
    + injection E as <-. exists q. split; [done|]. apply FOk_inj in Eq as <-. destruct Hc as (k & Hk & ->).
      apply alike_app; [by apply alike_unquoted, Itoa_unquoted|plain_text].
  - destruct E as [<- E], Hc as [_ Hc], Hc' as [_ Hc']. cbn [asSQL] in *. destruct (find_key i (ForeignKeys tbl)) as [fk|] eqn:Ef; [|done].
    destruct (asSQL (fk_Table fk) n m b) as [s| | |] eqn:E1; try done. apply FOk_inj in Eq as <-.
    assert (Hfk : unquoted (LocalColumn fk) /\ unquoted (ForeignColumn fk) /\ table_unquoted (fk_Table fk)).
    { destruct Ht as [t _ _ _ Hk]. apply find_key_In in Ef. exact (Hk _ Ef). }
    destruct Hfk as (Hl & Hf & Hs3). destruct (IHb _ _ _ _ _ Hc Hc' E Hs3 E1) as (s' & -> & Hs). eexists. split; [done|].
    by apply join_sql_alike.
  - injection E as <-. exists q. split; [done|]. cbn [asSQL] in Eq. destruct (_ || _); [done|]. apply FOk_inj in Eq as <-.
    cbn [canonical] in Hc. apply (alike_app (str "$") (str "$")); [plain_text|]. apply alike_unquoted, Itoa_unquoted. lia.
Qed.
End Safe.
