(* ===== verification/FilterTheorems.v ===== *)
(** * Filters: what the package promises *)

From Stdlib Require Import ZArith Lia Strings.Byte String.
From stdpp Require Import gmap.
From S2P Require Import Prelude Filter FilterScan FilterParse FilterRound FilterSQL FilterSafe.

Section Theorems.
Context `{Unicode}.

(** C16: [parse] ends on every text: with an error, with no expression, or with an
    expression whose operators are nested by precedence and associate to the left, and
    whose greatest placeholder the parser has recorded.  It runs out of no fuel and no
    panic but that of a parse error leaves it. *)
Theorem parse_total src :
  match parse src with
  | FOk (Some e, p) => canonical e /\ maxPlaceholder p = max_placeholder e
  | FOk (None, p) => maxPlaceholder p = 0
  | FErr _ => True
  | FPanic | FFuel => False
  end.
Proof. pose proof (parse_post src) as Hp. by destruct (parse src) as [[[e|] p]| | |]. Qed.

Lemma Parse_ok s tbl vals pr :
  Parse s tbl vals = FOk pr ->
  exists p, parse s = FOk (pred_expr pr, p) /\ typeCheck (pred_expr pr) tbl vals = FOk (selectorTypes pr) /\ Parameters pr = maxPlaceholder p.
Proof.
  unfold Parse. destruct (parse s) as [[e p]| | |]; try done. cbn [sub_ferr mbind fres_bind].
  destruct (typeCheck e tbl vals) as [m| | |] eqn:Et; try done. cbn. intros [= <-]. exists p. done.
Qed.

Lemma parse_canonical s e p : parse s = FOk (Some e, p) -> canonical e /\ maxPlaceholder p = max_placeholder e.
Proof. intros E. pose proof (parse_post s) as Hp. by rewrite E in Hp. Qed.

(** C13: The text that a predicate prints as is a filter again, and parsing it against the
    same table and values gives the same predicate: the same expression, the same types
    of selectors and the same number of parameters. *)
Theorem Predicate_String_parses s tbl vals pr : Parse s tbl vals = FOk pr -> Parse (Predicate_String pr) tbl vals = FOk pr.
Proof.
  intros HP. destruct (Parse_ok _ _ _ _ HP) as (p & Ep & Et & Em). destruct pr as [[e|] m k]; cbn in *; subst k.
  - destruct (parse_canonical _ _ _ Ep) as [Hc Hm]. destruct (parse_printed e Hc) as (p' & Ep' & Hm').
    unfold Parse. cbn [Predicate_String pred_expr]. rewrite Ep'. cbn [sub_ferr mbind fres_bind]. rewrite Et. cbn. congruence.
  - pose proof (parse_post s) as Hm. rewrite Ep in Hm. cbn in Hm.
    assert (E0 : exists p0, parse [] = FOk (None, p0) /\ maxPlaceholder p0 = 0) by (eexists; split; [vm_compute; reflexivity|done]).
    destruct E0 as (p0 & E0 & Hm0). unfold Parse. cbn [Predicate_String pred_expr]. rewrite E0. cbn [sub_ferr mbind fres_bind]. rewrite Et. cbn. congruence.
Qed.

Section Translation.
Context `{PQ}.

(** C15: When the selectors of a filter are paths from an attribute, checking its types
    against a well-formed table neither panics nor runs on; and a filter that is
    accepted has an SQL translation as soon as there are values for its placeholders. *)
Theorem checked_filter_translates s tbl vals e p :
  parse s = FOk (Some e, p) -> plain e = true -> table_ok tbl ->
  Parse s tbl vals <> FPanic /\ Parse s tbl vals <> FFuel /\
  forall pr, Parse s tbl vals = FOk pr -> Parameters pr <= zlen vals -> exists sql, AsSQL pr tbl vals = FOk sql.
Proof.
  intros Ep Hp Hw. destruct (parse_canonical _ _ _ Ep) as [Hc Hm]. pose proof (typeCheck_post e tbl vals Hc Hp Hw) as Ht.
  unfold Parse. rewrite Ep. cbn [sub_ferr mbind fres_bind]. destruct (typeCheck (Some e) tbl vals) as [m| | |]; try done.
  split; [done|]. split; [done|]. intros pr [= <-] Hk. cbn in Hk. destruct (Ht (zlen vals) m ltac:(lia)) as [sql Es].
  exists sql. unfold AsSQL. cbn. by rewrite Es.
Qed.

Context `{!PQLaws}.

(** C14: Two accepted filters that differ only in their string literals give queries that
    differ only between single quotes: no text of a string reaches the query outside of
    the quotes that hold it. *)
Theorem filter_strings_stay_quoted s s' tbl vals pr pr' e e' q :
  Parse s tbl vals = FOk pr -> Parse s' tbl vals = FOk pr' -> pred_expr pr = Some e -> pred_expr pr' = Some e' ->
  same_shape e e' -> table_unquoted tbl -> AsSQL pr tbl vals = FOk q ->
  exists q', AsSQL pr' tbl vals = FOk q' /\ closed q /\ closed q' /\ skeleton q = skeleton q'.
Proof.
  intros HP HP' E1 E2 Hs Ht Hq. destruct (Parse_ok _ _ _ _ HP) as (p & Ep & Et & _), (Parse_ok _ _ _ _ HP') as (p' & Ep' & Et' & _).
  rewrite E1 in *. rewrite E2 in *. destruct (parse_canonical _ _ _ Ep) as [Hc _], (parse_canonical _ _ _ Ep') as [Hc' _].
  assert (Em : selectorTypes pr = selectorTypes pr') by (rewrite (same_shape_typeCheck _ _ tbl vals Hs) in Et; congruence).
  unfold AsSQL in *. rewrite E1 in Hq. rewrite E2, <- Em.
  destruct (asSQL tbl (zlen vals) (selectorTypes pr) e) as [q0| | |] eqn:Ea; try done. injection Hq as <-.
  destruct (asSQL_alike _ _ _ _ _ _ Hc Hc' Hs Ht Ea) as (q' & Eq' & Hal). exists q'. rewrite Eq'. done.
Qed.
End Translation.
End Theorems.

(** ** Examples *)

(** No letter or digit outside ASCII. *)
#[local] Instance ascii_only : Unicode := { unicode_IsLetter := fun _ => false; unicode_IsDigit := fun _ => false }.

(** Double quotes around a name, and those in it doubled. *)
#[local] Instance double_quotes : PQ :=
  { QuoteIdentifier := fun name => dq ++ (name ≫= fun b => if bool_decide (b = x22) then [x22; x22] else [b]) ++ dq }.

#[local] Instance double_quotes_laws : PQLaws.
Proof.
  intros name Hn. apply Forall_app_2; [by repeat constructor|]. apply Forall_app_2; [|by repeat constructor].
  induction Hn as [|b name Hb _ IH]; [constructor|]. cbn. apply Forall_app_2; [|exact IH]. case_bool_decide; by repeat constructor.
Qed.

Definition filter1 : bytes := str "inputs(type = 'issue' AND reference_data.a.b = $1) OR id='deadbeef'".
Definition filter2 : bytes := str "inputs(type = 'x OR 1=1' AND reference_data.a.b = $1) OR id=')) --'".

Definition predicate_of (r : fres ferr Predicate) : Predicate := match r with FOk pr => pr | _ => mkPredicate None ∅ 0 end.
Definition expr_of (r : fres ferr Predicate) : expr := default (attrExpr []) (pred_expr (predicate_of r)).

Lemma Parse_filter1 : Parse filter1 transactionsTable [VString (str "v")] = FOk (predicate_of (Parse filter1 transactionsTable [VString (str "v")])).
Proof. vm_compute. reflexivity. Qed.

Lemma Parse_filter2 : Parse filter2 transactionsTable [VString (str "v")] = FOk (predicate_of (Parse filter2 transactionsTable [VString (str "v")])).
Proof. vm_compute. reflexivity. Qed.

Lemma transactionsTable_unquoted : table_unquoted transactionsTable.
Proof.
  assert (Hn : forall t, ForeignKeys t = [] -> unquoted (tbl_Name t) -> unquoted (tbl_Alias t) ->
      Forall (fun kc => unquoted (col_Name kc.2)) (Columns t) -> table_unquoted t).
  { intros t Hk Hna Hal Hc. constructor; [done..| |by rewrite Hk]. intros kc Hin. by apply (proj1 (List.Forall_forall _ _) Hc). }
  assert (Hi : table_unquoted inputsTable) by (apply Hn; [done|by repeat constructor..]).
  assert (Ho : table_unquoted outputsTable) by (apply Hn; [done|by repeat constructor..]).
  constructor; [by repeat constructor..| |].
  - apply List.Forall_forall. by repeat constructor.
  - intros kf [<-|[<-|[]]]; (split; [by repeat constructor|]); (split; [by repeat constructor|done]).
Qed.

Lemma Predicate_String_parses_witness :
  Predicate_String (predicate_of (Parse filter1 transactionsTable [VString (str "v")])) =
    str "inputs(type = 'issue' AND reference_data.a.b = $1) OR id = 'deadbeef'" /\
  Parse (str "inputs(type = 'issue' AND reference_data.a.b = $1) OR id = 'deadbeef'") transactionsTable [VString (str "v")] =
    Parse filter1 transactionsTable [VString (str "v")].
Proof.
  assert (E : Predicate_String (predicate_of (Parse filter1 transactionsTable [VString (str "v")])) =
    str "inputs(type = 'issue' AND reference_data.a.b = $1) OR id = 'deadbeef'") by (vm_compute; reflexivity).
  split; [exact E|]. rewrite <- E.
  rewrite (Predicate_String_parses filter1 transactionsTable [VString (str "v")] _ Parse_filter1). symmetry. exact Parse_filter1.
Defined.

Lemma checked_filter_translates_witness :
  exists sql, AsSQL (predicate_of (Parse filter1 transactionsTable [VString (str "v")])) transactionsTable [VString (str "v")] = FOk sql.
Proof.
  destruct (parse filter1) as [[[e|] p]| | |] eqn:E; try (vm_compute in E; discriminate E).
  assert (Ee : e = expr_of (Parse filter1 transactionsTable [VString (str "v")])) by (vm_compute in E; injection E as <- _; vm_compute; reflexivity).
  destruct (checked_filter_translates filter1 transactionsTable [VString (str "v")] e p E) as (_ & _ & Ht).
  - rewrite Ee. vm_compute. reflexivity.
  - pose proof query_tables_ok as Hq. do 4 apply Forall_inv_tail in Hq. by apply Forall_inv in Hq.
  - apply (Ht _ Parse_filter1). vm_compute. discriminate.
Defined.

Lemma filter_strings_stay_quoted_witness :
  exists q q', AsSQL (predicate_of (Parse filter1 transactionsTable [VString (str "v")])) transactionsTable [VString (str "v")] = FOk q /\
    AsSQL (predicate_of (Parse filter2 transactionsTable [VString (str "v")])) transactionsTable [VString (str "v")] = FOk q' /\
    q <> q' /\ skeleton q = skeleton q'.
Proof.
  destruct (AsSQL (predicate_of (Parse filter1 transactionsTable [VString (str "v")])) transactionsTable [VString (str "v")]) as [q| | |] eqn:Eq;
    try (vm_compute in Eq; discriminate Eq).
  destruct (filter_strings_stay_quoted filter1 filter2 transactionsTable [VString (str "v")] _ _
    (expr_of (Parse filter1 transactionsTable [VString (str "v")])) (expr_of (Parse filter2 transactionsTable [VString (str "v")])) q
    Parse_filter1 Parse_filter2) as (q' & Eq' & _ & _ & Hs); [vm_compute; reflexivity|vm_compute; reflexivity|vm_compute; tauto|
      exact transactionsTable_unquoted|exact Eq|].
  exists q, q'. split; [reflexivity|]. split; [exact Eq'|]. split; [|exact Hs]. intros E. rewrite <- E in Eq'. rewrite <- Eq in Eq'.
  vm_compute in Eq'. discriminate Eq'.
Defined.

(** ** What modelling showed *)

(** A selector on an expression in parentheses has no path, and [setType] panics; no
    caller of the type checker recovers. *)
Lemma Parse_panics_on_parenthesised_selector : Parse (str "(reference_data).a = 'x'") transactionsTable [] = FPanic.
Proof. vm_compute. reflexivity. Qed.

(** [FieldAsSQL] writes the name of the attribute where [asSQL] writes that of the column. *)
Lemma FieldAsSQL_ignores_column_name :
  FieldAsSQL outputsTable (attrExpr (str "transaction_id")) = FOk (str "encode(out." ++ dq ++ str "transaction_id" ++ dq ++ str ", 'hex')") /\
  asSQL outputsTable 0 ∅ (attrExpr (str "transaction_id")) = FOk (str "encode(out." ++ dq ++ str "tx_hash" ++ dq ++ str ", 'hex')").
Proof. split; vm_compute; reflexivity. Qed.

(** The empty filter is accepted and prints as the empty text, but [MarshalText] has no expression to print. *)
Lemma empty_filter_does_not_marshal :
  exists pr, Parse [] transactionsTable [] = FOk pr /\ Predicate_String pr = [] /\ Predicate_MarshalText pr = None.
Proof. eexists. split; [vm_compute; reflexivity|]. done. Qed.

(** The scanner does not bound the digits of a number, so [ParseInt] can fail. *)
Lemma large_integer_is_an_error :
  parse (str "amount = 9223372036854775808") = FErr (mkParseError 9 (InvalidInteger (str "9223372036854775808"))).
Proof. vm_compute. reflexivity. Qed.
