(* ===== verification/Pin.v ===== *)
(** * Block processors: [core/pin]

    A pin is the height up to which a processor has handled blocks.  Workers handle
    blocks out of order; [complete] moves the pin over what is complete without a gap and
    records it in the database.  Pins are shared objects: the map of the store, workers,
    dispatchers, listeners and waiters hold pointers to them, here positions in a list.
    What runs under a mutex is one step. *)

From Stdlib Require Import ZArith Lia.
From stdpp Require Import gmap list sorting.
From S2P Require Import Prelude.

(** ** A pin *)

Definition processorWorkers : Z := 10.

(** [sem] counts the tokens in the channel of that name. *)
Record pin := mkPin { p_name : bytes; p_height : Z; completed : list Z; sem : Z }.

Definition newPin (name : bytes) (height : Z) : pin := mkPin name height [] 0.

(** [sort.Sort(uint64s(l))] *)
Definition sort_uint64s (l : list Z) : list Z := merge_sort Z.le l.

(** The loop of [complete]: the greatest height without a gap, and the number of elements that it passed. *)
Fixpoint complete_scan (max : Z) (i : nat) (l : list Z) : Z * nat :=
  match l with
  | [] => (max, i)
  | c :: l =>
      if c <=? max then complete_scan max (S i) l
      else if uint64 (max + 1) <? c then (max, i)
      else complete_scan c (S i) l
  end.

(** A statement was executed, or returned an error before or after it took effect. *)
Inductive exec := Executed | Failed | FailedAfter.

Definition exec_applied (x : exec) : bool := match x with Failed => false | _ => true end.
Definition exec_ok (x : exec) : bool := match x with Executed => true | _ => false end.

(** The table [block_processors] and the notifications that were sent. *)
Record database := mkDatabase { rows : gmap bytes Z; notes : list (bytes * Z) }.

(** [UPDATE block_processors SET height=$1 WHERE height<$1 AND name=$2] *)
Definition update_row (max : Z) (name : bytes) (db : database) : database :=
  match rows db !! name with
  | Some h => if h <? max then mkDatabase (<[name := max]> (rows db)) (notes db) else db
  | None => db
  end.

(** [INSERT INTO block_processors (name, height) VALUES($1, $2) ON CONFLICT(name) DO NOTHING] *)
Definition insert_row (name : bytes) (height : Z) (db : database) : database :=
  match rows db !! name with
  | Some _ => db
  | None => mkDatabase (<[name := height]> (rows db)) (notes db)
  end.

(** [SELECT pg_notify($1, $2)] *)
Definition notify (name : bytes) (height : Z) (db : database) : database := mkDatabase (rows db) (notes db ++ [(name, height)]).

Definition execute (x : exec) (f : database -> database) (db : database) : database := if exec_applied x then f db else db.

(** The result is whether there was no error. *)
Definition complete (update notification : exec) (height : Z) (p : pin) (db : database) : bool * pin * database :=
  let l := sort_uint64s (completed p ++ [height]) in
  let '(max, i) := complete_scan (p_height p) 0 l in
  let p := mkPin (p_name p) (p_height p) l (sem p) in
  if max =? p_height p then (true, p, db)
  else
    let db := execute update (update_row max (p_name p)) db in
    if negb (exec_ok update) then (false, p, db)
    else
      let db := execute notification (notify (p_name p) max) db in
      if negb (exec_ok notification) then (false, p, db)
      else (true, mkPin (p_name p) max (drop i l) (sem p), db).

(** ** The store and its goroutines *)

(** What a worker does next: fetch the block and call back, [complete], leave. *)
Inductive phase := Working | Called | Leaving.

#[export] Instance phase_eq_dec : EqDecision phase.
Proof. solve_decision. Defined.

Record worker := mkWorker { w_pin : nat; w_height : Z; w_phase : phase }.

(** [ProcessBlocks]: the pin, and the height once it was read. *)
Record dispatcher := mkDispatcher { d_pin : nat; d_height : option Z }.

(** The goroutine of [Listen]: the name, and the pin once it was found. *)
Record listener := mkListener { l_name : bytes; l_pin : option nat }.

(** [PinWaiter] and [AllWaiter]: the pins that are left to wait for, the one being
    waited for, the height. *)
Record waiter := mkWaiter { wt_names : list bytes; wt_pin : option nat; wt_height : Z }.

Record store := mkStore {
  heap : list pin;
  pins : gmap bytes nat;
  dispatchers : list dispatcher;
  workers : list worker;
  listeners : list listener;
  waiters : list waiter;
}.

Definition empty_store : store := mkStore [] ∅ [] [] [] [].

(** [s.pins[name] = newPin(s.db, name, height)] *)
Definition add_pin (name : bytes) (height : Z) (s : store) : store :=
  mkStore (heap s ++ [newPin name height]) (<[name := length (heap s)]> (pins s)) (dispatchers s) (workers s) (listeners s) (waiters s).

Definition set_pin (l : nat) (p : pin) (s : store) : store :=
  mkStore (<[l := p]> (heap s)) (pins s) (dispatchers s) (workers s) (listeners s) (waiters s).
Definition set_dispatchers (ds : list dispatcher) (s : store) : store :=
  mkStore (heap s) (pins s) ds (workers s) (listeners s) (waiters s).
Definition set_workers (ws : list worker) (s : store) : store :=
  mkStore (heap s) (pins s) (dispatchers s) ws (listeners s) (waiters s).
Definition set_listeners (ls : list listener) (s : store) : store :=
  mkStore (heap s) (pins s) (dispatchers s) (workers s) ls (waiters s).
Definition set_waiters (ws : list waiter) (s : store) : store :=
  mkStore (heap s) (pins s) (dispatchers s) (workers s) (listeners s) ws.

Definition CreatePin (x : exec) (name : bytes) (height : Z) (s : store) (db : database) : store * database :=
  match pins s !! name with
  | Some _ => (s, db)
  | None =>
      let db := execute x (insert_row name height) db in
      if exec_ok x then (add_pin name height s, db) else (s, db)
  end.

(** The rows that are read, all of them when there is no error. *)
Fixpoint LoadAll (names : list bytes) (db : database) (s : store) : store :=
  match names with
  | [] => s
  | name :: names => LoadAll names db (match rows db !! name with Some h => add_pin name h s | None => s end)
  end.

(** [s.pin(name)]: [None] is to wait. *)
Definition find_pin (name : bytes) (s : store) : option nat := pins s !! name.

Definition getHeight (l : nat) (s : store) : option Z := p_height <$> heap s !! l.

(** The loop of [ProcessBlocks] when the chain has the next block; [None] is to wait for
    a token. *)
Definition dispatch (chainHeight : Z) (i : nat) (s : store) : option store :=
  d ← dispatchers s !! i;
  height ← d_height d;
  p ← heap s !! d_pin d;
  let next := uint64 (height + 1) in
  if (next <=? chainHeight) && (sem p <? processorWorkers) then
    Some (set_dispatchers (<[i := mkDispatcher (d_pin d) (Some next)]> (dispatchers s))
      (set_workers (workers s ++ [mkWorker (d_pin d) next Working])
        (set_pin (d_pin d) (mkPin (p_name p) (p_height p) (completed p) (sem p + 1)) s)))
  else None.

(** [processBlock] from the callback that succeeded. *)
Definition worker_calls (i : nat) (s : store) : option store :=
  w ← workers s !! i;
  if bool_decide (w_phase w = Working) then Some (set_workers (<[i := mkWorker (w_pin w) (w_height w) Called]> (workers s)) s) else None.

Definition worker_completes (update notification : exec) (i : nat) (s : store) (db : database) : option (store * database) :=
  w ← workers s !! i;
  p ← heap s !! w_pin w;
  if bool_decide (w_phase w = Called) then
    let '(_, p, db) := complete update notification (w_height w) p db in
    Some (set_workers (<[i := mkWorker (w_pin w) (w_height w) Leaving]> (workers s)) (set_pin (w_pin w) p s), db)
  else None.

(** [defer func() { <-p.sem }()] *)
Definition worker_leaves (i : nat) (s : store) : option store :=
  w ← workers s !! i;
  p ← heap s !! w_pin w;
  if bool_decide (w_phase w = Leaving) then
    Some (set_workers (delete i (workers s)) (set_pin (w_pin w) (mkPin (p_name p) (p_height p) (completed p) (sem p - 1)) s))
  else None.

(** A notification that reaches the goroutine of [Listen]. *)
Definition listener_finds (i : nat) (height : Z) (s : store) : option store :=
  l ← listeners s !! i;
  match l_pin l with
  | Some _ => Some s
  | None =>
      let s := match pins s !! l_name l with Some _ => s | None => add_pin (l_name l) height s end in
      Some (set_listeners (<[i := mkListener (l_name l) (pins s !! l_name l)]> (listeners s)) s)
  end.

Definition listener_raises (i : nat) (height : Z) (s : store) : option store :=
  l ← listeners s !! i;
  loc ← l_pin l;
  p ← heap s !! loc;
  Some (if p_height p <? height then set_pin loc (mkPin (p_name p) height (completed p) (sem p)) s else s).

(** A waiter finds the pin of the next name. *)
Definition waiter_finds (i : nat) (s : store) : option store :=
  w ← waiters s !! i;
  match wt_pin w, wt_names w with
  | None, name :: _ => loc ← find_pin name s; Some (set_waiters (<[i := mkWaiter (wt_names w) (Some loc) (wt_height w)]> (waiters s)) s)
  | _, _ => None
  end.

(** It goes on when the pin has reached the height. *)
Definition waiter_passes (i : nat) (s : store) : option store :=
  w ← waiters s !! i;
  loc ← wt_pin w;
  h ← getHeight loc s;
  if h <? wt_height w then None else Some (set_waiters (<[i := mkWaiter (tail (wt_names w)) None (wt_height w)]> (waiters s)) s).
