(* ===== verification/PinRun.v ===== *)
(** * Runs of the block processors

    What completing a block does to a pin; then the steps of the goroutines of a process,
    of its chain and of its database, with crashes.  What was processed is recorded beside
    the state. *)

From Stdlib Require Import ZArith Lia.
From stdpp Require Import gmap list sorting.
From S2P Require Import Prelude Pin.

(** ** Completing blocks *)

(** ** One pin *)

(** Every height above [h] up to [m] is in [l]. *)
Definition covers (l : list Z) (h m : Z) : Prop := forall k, h < k <= m -> k ∈ l.

Definition u64 (z : Z) : Prop := 0 <= z <= MaxUint64.

Lemma u64_next max c : u64 max -> u64 c -> max < c -> uint64 (max + 1) = max + 1.
Proof. unfold u64, MaxUint64. intros Hm Hc Hlt. unfold uint64. apply Z.mod_small. lia. Qed.

Lemma complete_scan_covers l : forall max i max' i', u64 max -> Forall u64 l ->
  complete_scan max i l = (max', i') -> max <= max' /\ u64 max' /\ covers l max max'.
Proof.
  induction l as [|c l IH]; intros max i max' i' Hm Hl; simpl.
  - intros [= <- <-]. split; [lia|]. split; [done|]. intros k Hk. lia.
  - inversion_clear Hl as [|? ? Hc Hl']. destruct (Z.leb_spec c max) as [Hle|Hgt].
    + intros E. destruct (IH _ _ _ _ Hm Hl' E) as (H1 & H2 & H3). split; [done|]. split; [done|]. intros k Hk. right. by apply H3.
    + rewrite (u64_next max c) by done. destruct (Z.ltb_spec (max + 1) c) as [Hlt|Hge].
      * intros [= <- <-]. split; [lia|]. split; [done|]. intros k Hk. lia.
      * intros E. destruct (IH _ _ _ _ Hc Hl' E) as (H1 & H2 & H3). split; [lia|]. split; [done|]. intros k Hk.
        destruct (Z.eq_dec k c) as [->|Hne]; [left|]. right. apply H3. lia.
Qed.

Lemma sort_elem l c : c ∈ sort_uint64s l <-> c ∈ l.
Proof. unfold sort_uint64s. by rewrite (merge_sort_Permutation Z.le l). Qed.

Lemma sort_u64 l : Forall u64 l -> Forall u64 (sort_uint64s l).
Proof. rewrite !Forall_forall. intros Hl c Hc. apply Hl. by apply sort_elem. Qed.

Lemma drop_elem (c : Z) i l : c ∈ drop i l -> c ∈ l.
Proof. intros Hc. rewrite <- (take_drop i l). apply elem_of_app. by right. Qed.

(** The state of the database after [complete]: rows and notifications go to [m] at most, which is covered. *)
Definition db_moved (name : bytes) (db db' : database) (m : Z) : Prop :=
  (rows db' = rows db \/ exists h, rows db !! name = Some h /\ h < m /\ rows db' = <[name := m]> (rows db)) /\
  (notes db' = notes db \/ notes db' = notes db ++ [(name, m)]).

Lemma update_row_moved max name db : db_moved name db (update_row max name db) max.
Proof.
  unfold update_row. destruct (rows db !! name) as [h|] eqn:E; [|by split; left]. destruct (Z.ltb_spec h max); [|by split; left].
  split; [right|by left]. by exists h.
Qed.

Lemma complete_props u n h p db ok p' db' :
  u64 (p_height p) -> Forall u64 (h :: completed p) -> complete u n h p db = (ok, p', db') ->
  p_name p' = p_name p /\ sem p' = sem p /\ p_height p <= p_height p' /\ u64 (p_height p') /\
  covers (h :: completed p) (p_height p) (p_height p') /\ (forall c, c ∈ completed p' -> c ∈ h :: completed p) /\
  exists m, u64 m /\ covers (h :: completed p) (p_height p) m /\ db_moved (p_name p) db db' m.
Proof.
  intros Hh Hl. unfold complete. set (l := sort_uint64s (completed p ++ [h])).
  assert (Hin : forall c, c ∈ l <-> c ∈ h :: completed p).
  { intros c. unfold l. rewrite sort_elem. set_solver. }
  assert (Hu : Forall u64 l) by (apply sort_u64, Forall_app_2; [by inversion Hl|constructor; [by inversion Hl|constructor]]).
  destruct (complete_scan (p_height p) 0 l) as [max i] eqn:Es.
  destruct (complete_scan_covers l _ _ _ _ Hh Hu Es) as (Hge & Hmax & Hcov0).
  assert (Hcov : covers (h :: completed p) (p_height p) max) by (intros k Hk; apply Hin; by apply Hcov0).
  assert (Hself : covers (h :: completed p) (p_height p) (p_height p)) by (intros k Hk; lia).
  assert (Hkeep : forall c, c ∈ l -> c ∈ h :: completed p) by (intros c; apply Hin).
  cbv zeta. cbn [p_name p_height sem completed].
  destruct (max =? p_height p); [intros [= <- <- <-]; repeat (split; [done|]); exists (p_height p); split; [done|]; by split; [|split; left]|].
  pose proof (update_row_moved max (p_name p) db) as Hup.
  destruct u; cbn [exec_ok negb execute exec_applied].
  - destruct n; cbn [exec_ok negb execute exec_applied]; intros [= <- <- <-]; cbn.
    + repeat (split; [done|]). split; [intros c Hc; by eapply Hkeep, drop_elem|].
      exists max. split; [done|]. split; [done|]. split; [apply Hup|]. right. cbn. unfold update_row. by repeat case_match.
    + repeat (split; [done|]). by exists max.
    + repeat (split; [done|]). exists max. split; [done|]. split; [done|]. split; [apply Hup|]. right. cbn. unfold update_row. by repeat case_match.
  - intros [= <- <- <-]. repeat (split; [done|]). exists (p_height p). split; [done|]. by split; [|split; left].
  - intros [= <- <- <-]. repeat (split; [done|]). by exists max.
Qed.

(** [m] is the greatest height that [l] reaches from [h] without a gap. *)
Definition longest (l : list Z) (h m : Z) : Prop := h <= m /\ covers l h m /\ m + 1 ∉ l.

Lemma longest_unique l h m m' : longest l h m -> longest l h m' -> m = m'.
Proof.
  intros (H1 & H2 & H3) (H1' & H2' & H3'). destruct (Z.lt_trichotomy m m') as [Hlt|[?|Hlt]]; [|done|]; exfalso.
  - apply H3, H2'. lia.
  - apply H3', H2. lia.
Qed.

(** On a sorted list the scan passes what is at most [max'] and stops above a gap. *)
Lemma complete_scan_sorted l : StronglySorted Z.le l -> forall max i max' i', u64 max -> Forall u64 l ->
  complete_scan max i l = (max', i') ->
  exists k, i' = (i + k)%nat /\ Forall (fun c => c <= max') (take k l) /\ Forall (fun c => max' + 1 < c) (drop k l).
Proof.
  induction 1 as [|c l Hs IH Hc]; intros max i max' i' Hm Hu; simpl.
  - intros [= <- <-]. exists 0%nat. split; [lia|]. by split; constructor.
  - inversion_clear Hu as [|? ? Huc Hul]. destruct (Z.leb_spec c max) as [Hle|Hgt].
    + intros E. pose proof (complete_scan_covers l _ _ _ _ Hm Hul E) as (Hge & _). destruct (IH _ _ _ _ Hm Hul E) as (k & -> & Ht & Hd).
      exists (S k). split; [lia|]. split; [constructor; [lia|done]|done].
    + rewrite (u64_next max c) by done. destruct (Z.ltb_spec (max + 1) c) as [Hlt|Hge].
      * intros [= <- <-]. exists 0%nat. split; [lia|]. split; [constructor|]. constructor; [done|].
        eapply Forall_impl; [exact Hc|]. simpl. lia.
      * intros E. pose proof (complete_scan_covers l _ _ _ _ Huc Hul E) as (Hge' & _). destruct (IH _ _ _ _ Huc Hul E) as (k & -> & Ht & Hd).
        exists (S k). split; [lia|]. split; [constructor; [lia|done]|done].
Qed.

Lemma sort_sorted l : StronglySorted Z.le (sort_uint64s l).
Proof. apply Sorted_StronglySorted; [exact Z.le_trans|]. apply (Sorted_merge_sort Z.le). Qed.

Lemma filter_take_drop (l : list Z) k m :
  Forall (fun c => c <= m) (take k l) -> Forall (fun c => m + 1 < c) (drop k l) -> filter (fun c => m < c) l = drop k l.
Proof.
  intros Ht Hd. rewrite <- (take_drop k l) at 1. rewrite filter_app.
  assert (E1 : filter (fun c => m < c) (take k l) = []).
  { clear Hd. induction Ht as [|c t Hc _ IH]; [done|]. rewrite filter_cons_False by lia. done. }
  assert (E2 : filter (fun c => m < c) (drop k l) = drop k l).
  { clear Ht. induction Hd as [|c t Hc _ IH]; [done|]. rewrite filter_cons_True by lia. by f_equal. }
  by rewrite E1, E2.
Qed.

(** [complete] without an error of the database. *)
Lemma complete_executed h p db :
  u64 (p_height p) -> Forall u64 (h :: completed p) ->
  exists p', longest (h :: completed p) (p_height p) (p_height p') /\ p_name p' = p_name p /\ sem p' = sem p /\
    if p_height p' =? p_height p
    then complete Executed Executed h p db = (true, p', db) /\ completed p' ≡ₚ h :: completed p
    else complete Executed Executed h p db = (true, p', notify (p_name p) (p_height p') (update_row (p_height p') (p_name p) db)) /\
      completed p' ≡ₚ filter (fun c => p_height p' < c) (h :: completed p).
Proof.
  intros Hh Hl. unfold complete. set (l := sort_uint64s (completed p ++ [h])).
  assert (Hperm : l ≡ₚ h :: completed p) by (unfold l, sort_uint64s; rewrite merge_sort_Permutation; by rewrite Permutation_app_comm).
  assert (Hu : Forall u64 l) by (by rewrite Hperm).
  destruct (complete_scan (p_height p) 0 l) as [max i] eqn:Es.
  destruct (complete_scan_covers l _ _ _ _ Hh Hu Es) as (Hge & Hmax & Hcov).
  destruct (complete_scan_sorted l (sort_sorted _) _ _ _ _ Hh Hu Es) as (k & -> & Ht & Hd).
  assert (Hlong : longest (h :: completed p) (p_height p) max).
  { split; [done|]. split; [intros x Hx; rewrite <- Hperm; by apply Hcov|]. rewrite <- Hperm, <- (take_drop k l). intros [Hx|Hx]%elem_of_app.
    - apply (proj1 (Forall_forall _ _) Ht) in Hx. lia.
    - apply (proj1 (Forall_forall _ _) Hd) in Hx. lia. }
  cbv zeta. cbn [p_name p_height sem completed]. destruct (Z.eqb_spec max (p_height p)) as [Em|Em].
  - exists (mkPin (p_name p) (p_height p) l (sem p)). cbn. rewrite Z.eqb_refl. rewrite Em in Hlong.
    split; [done|]. split; [done|]. split; [done|]. split; [done|exact Hperm].
  - exists (mkPin (p_name p) max (drop k l) (sem p)). cbn. rewrite (proj2 (Z.eqb_neq _ _) Em). split; [done|]. split; [done|]. split; [done|].
    split; [done|]. rewrite <- (filter_take_drop l k max Ht Hd). by rewrite Hperm.
Qed.

(** ** Runs *)

Inductive label :=
  | Block (height : Z)                             (** the chain reaches a height *)
  | Create (x : exec) (name : bytes) (height : Z)
  | Load (names : list bytes)
  | Process (name : bytes)                         (** [ProcessBlocks] finds the pin *)
  | ReadHeight (i : nat)
  | Dispatch (i : nat)
  | Stop (i : nat)                                 (** the context of a dispatcher is done *)
  | Call (i : nat)                                 (** the callback of a worker succeeds *)
  | Complete (update notification : exec) (i : nat)
  | Leave (i : nat)
  | Listen (name : bytes)
  | Find (i : nat) (height : Z)                    (** a listener gets a notification *)
  | Raise (i : nat) (height : Z)
  | Wait (names : list bytes) (height : Z)         (** [PinWaiter], or [AllWaiter] with the names of the map *)
  | WaitFind (i : nat)
  | WaitPass (i : nat)
  | Crash.

(** The chain, the database and the process; the blocks whose callback succeeded, the
    heights that [CreatePin] started pins at when it took effect, and the waits that
    returned. *)
Record system := mkSystem {
  chain_height : Z;
  db : database;
  st : store;
  called : list (bytes * Z);
  created : list (bytes * Z);
  passed : list (bytes * Z);
}.

Definition with_store (s : store) (y : system) : system := mkSystem (chain_height y) (db y) s (called y) (created y) (passed y).

(** [CreatePin] takes effect: it puts a pin into memory, or a row into the table although
    it returns an error. *)
Definition create_effect (x : exec) (name : bytes) (s : store) (d : database) : bool :=
  match pins s !! name with
  | Some _ => false
  | None => exec_ok x || exec_applied x && negb (bool_decide (is_Some (rows d !! name)))
  end.

Definition start_system : system := mkSystem 0 (mkDatabase ∅ []) empty_store [] [] [].

Definition system_step (l : label) (y : system) : option system :=
  let s := st y in
  match l with
  | Block h => if chain_height y <=? h then Some (mkSystem h (db y) s (called y) (created y) (passed y)) else None
  | Create x name h =>
      if in_uint64 h then
        let '(s', d) := CreatePin x name h s (db y) in
        Some (mkSystem (chain_height y) d s' (called y) (if create_effect x name s (db y) then (name, h) :: created y else created y) (passed y))
      else None
  | Load names => Some (with_store (LoadAll names (db y) s) y)
  | Process name => loc ← find_pin name s; Some (with_store (set_dispatchers (dispatchers s ++ [mkDispatcher loc None]) s) y)
  | ReadHeight i =>
      d ← dispatchers s !! i;
      h ← getHeight (d_pin d) s;
      match d_height d with
      | None => Some (with_store (set_dispatchers (<[i := mkDispatcher (d_pin d) (Some h)]> (dispatchers s)) s) y)
      | Some _ => None
      end
  | Dispatch i => s' ← dispatch (chain_height y) i s; Some (with_store s' y)
  | Stop i => Some (with_store (set_dispatchers (delete i (dispatchers s)) s) y)
  | Call i =>
      s' ← worker_calls i s;
      w ← workers s !! i;
      p ← heap s !! w_pin w;
      Some (mkSystem (chain_height y) (db y) s' ((p_name p, w_height w) :: called y) (created y) (passed y))
  | Complete u n i =>
      '(s', d) ← worker_completes u n i s (db y);
      Some (mkSystem (chain_height y) d s' (called y) (created y) (passed y))
  | Leave i => s' ← worker_leaves i s; Some (with_store s' y)
  | Listen name => Some (with_store (set_listeners (listeners s ++ [mkListener name None]) s) y)
  | Find i h =>
      l ← listeners s !! i;
      if bool_decide ((l_name l, h) ∈ notes (db y)) then s' ← listener_finds i h s; Some (with_store s' y) else None
  | Raise i h =>
      l ← listeners s !! i;
      if bool_decide ((l_name l, h) ∈ notes (db y)) then s' ← listener_raises i h s; Some (with_store s' y) else None
  | Wait names h => Some (with_store (set_waiters (waiters s ++ [mkWaiter names None h]) s) y)
  | WaitFind i => s' ← waiter_finds i s; Some (with_store s' y)
  | WaitPass i =>
      s' ← waiter_passes i s;
      w ← waiters s !! i;
      name ← head (wt_names w);
      Some (mkSystem (chain_height y) (db y) s' (called y) (created y) ((name, wt_height w) :: passed y))
  | Crash => Some (with_store empty_store y)
  end.

Fixpoint run_system (ls : list label) (y : system) : option system :=
  match ls with
  | [] => Some y
  | l :: ls => y ← system_step l y; run_system ls y
  end.

(** ** What was processed *)

(** A block was handed to the callback of a processor, or lies at or below a height where a
    [CreatePin] that took effect started the pin. *)
Definition processed (y : system) (name : bytes) (h : Z) : Prop :=
  (name, h) ∈ called y \/ exists h0, (name, h0) ∈ created y /\ h <= h0.

Section Relative.
Context (R : bytes -> Z -> Prop).

Definition upto (name : bytes) (h : Z) : Prop := forall k, 0 < k <= h -> R name k.

Definition pin_ok (p : pin) : Prop :=
  u64 (p_height p) /\ upto (p_name p) (p_height p) /\ Forall (fun c => u64 c /\ R (p_name p) c) (completed p).

Definition named (s : store) (loc : nat) (name : bytes) : Prop := exists p, heap s !! loc = Some p /\ p_name p = name.

Definition worker_ok (s : store) (w : worker) : Prop :=
  exists p, heap s !! w_pin w = Some p /\ u64 (w_height w) /\ (w_phase w <> Working -> R (p_name p) (w_height w)).

Record store_ok (s : store) : Prop := {
  ok_heap : Forall pin_ok (heap s);
  ok_pins : forall name loc, pins s !! name = Some loc -> named s loc name;
  ok_workers : Forall (worker_ok s) (workers s);
  ok_listeners : Forall (fun l => forall loc, l_pin l = Some loc -> named s loc (l_name l)) (listeners s);
  ok_waiters : Forall (fun w => forall loc, wt_pin w = Some loc -> exists name, head (wt_names w) = Some name /\ named s loc name) (waiters s);
}.

Definition db_ok (d : database) : Prop :=
  (forall name h, rows d !! name = Some h -> u64 h /\ upto name h) /\ Forall (fun nh => u64 nh.2 /\ upto nh.1 nh.2) (notes d).

(** The names of the pins that there are do not change. *)
Definition keeps (s s' : store) : Prop := forall loc name, named s loc name -> named s' loc name.

Lemma keeps_add_pin name h s : keeps s (add_pin name h s).
Proof. intros loc n (p & E & Hn). exists p. split; [|done]. simpl. by apply lookup_app_l_Some. Qed.

Lemma keeps_set_pin loc p p' s : heap s !! loc = Some p -> p_name p' = p_name p -> keeps s (set_pin loc p' s).
Proof.
  intros E Hn l n (q & Eq & Hq). unfold named. simpl. destruct (decide (l = loc)) as [->|Hne].
  - exists p'. rewrite list_lookup_insert_eq by (by eapply lookup_lt_Some). split; [done|]. congruence.
  - exists q. by rewrite list_lookup_insert_ne.
Qed.

(** Pointers stay good when names are kept. *)
Lemma refs_keep s s' w : keeps s s' -> worker_ok s w -> worker_ok s' w.
Proof.
  intros Hk (p & E & Hu & Hw). destruct (Hk (w_pin w) (p_name p)) as (p' & E' & Hn); [by exists p|]. exists p'. rewrite Hn. done.
Qed.

Lemma store_ok_keep s s' :
  keeps s s' -> Forall pin_ok (heap s') -> (forall name loc, pins s' !! name = Some loc -> named s' loc name) ->
  workers s' = workers s -> listeners s' = listeners s -> waiters s' = waiters s -> store_ok s -> store_ok s'.
Proof.
  intros Hk Hh Hp Ew El Ewt [_ _ Hw Hl Hwt]. split; [done|done|..].
  - rewrite Ew. eapply Forall_impl; [exact Hw|]. intros w. by apply refs_keep.
  - rewrite El. eapply Forall_impl; [exact Hl|]. simpl. intros l Hlk loc E. by apply Hk, Hlk.
  - rewrite Ewt. eapply Forall_impl; [exact Hwt|]. simpl. intros w Hlk loc E. destruct (Hlk loc E) as (name & ? & ?). exists name. eauto.
Qed.

Lemma add_pin_ok name h s : u64 h -> upto name h -> store_ok s -> store_ok (add_pin name h s).
Proof.
  intros Hu Hup Hs. apply (store_ok_keep s); try done.
  - apply keeps_add_pin.
  - simpl. apply Forall_app_2; [apply Hs|]. constructor; [|constructor]. split; [done|]. split; [done|constructor].
  - simpl. intros n loc. destruct (decide (n = name)) as [->|Hne].
    + rewrite lookup_insert_eq. intros [= <-]. exists (newPin name h). split; [|done]. simpl. by rewrite list_lookup_middle.
    + rewrite lookup_insert_ne by done. intros E. apply keeps_add_pin. by apply Hs.
Qed.

Lemma set_pin_ok loc p p' s : heap s !! loc = Some p -> p_name p' = p_name p -> pin_ok p' -> store_ok s -> store_ok (set_pin loc p' s).
Proof.
  intros E Hn Hp Hs. apply (store_ok_keep s); try done.
  - by eapply keeps_set_pin.
  - simpl. by apply Forall_insert; [apply Hs|].
  - simpl. intros name l El. eapply keeps_set_pin; [done|done|]. by apply Hs.
Qed.

Lemma set_workers_ok ws s : Forall (worker_ok s) ws -> store_ok s -> store_ok (set_workers ws s).
Proof. intros Hw [? ? ? ? ?]. by split. Qed.

Lemma set_dispatchers_ok ds s : store_ok s -> store_ok (set_dispatchers ds s).
Proof. intros [? ? ? ? ?]. by split. Qed.

Lemma set_waiters_ok ws s :
  Forall (fun w => forall loc, wt_pin w = Some loc -> exists name, head (wt_names w) = Some name /\ named s loc name) ws ->
  store_ok s -> store_ok (set_waiters ws s).
Proof. intros Hw [? ? ? ? ?]. by split. Qed.

Lemma set_listeners_ok ls s :
  Forall (fun l => forall loc, l_pin l = Some loc -> named s loc (l_name l)) ls -> store_ok s -> store_ok (set_listeners ls s).
Proof. intros Hl [? ? ? ? ?]. by split. Qed.

Lemma LoadAll_ok names d s : db_ok d -> store_ok s -> store_ok (LoadAll names d s).
Proof.
  intros [Hd _]. revert s. induction names as [|name names IH]; intros s Hs; [done|]. simpl. apply IH.
  destruct (rows d !! name) as [h|] eqn:E; [|done]. apply Hd in E as [? ?]. by apply add_pin_ok.
Qed.

Lemma no_pins_ok : store_ok empty_store.
Proof. by split; try constructor. Qed.
End Relative.

(** More is processed as a run goes on. *)
Lemma store_ok_mono (R R' : bytes -> Z -> Prop) s : (forall n h, R n h -> R' n h) -> store_ok R s -> store_ok R' s.
Proof.
  intros HR [Hh Hp Hw Hl Hwt]. split; [|done| |done|done].
  - eapply Forall_impl; [exact Hh|]. intros p (H1 & H2 & H3). split; [done|]. split; [intros k Hk; by apply HR, H2|].
    eapply Forall_impl; [exact H3|]. simpl. intros c []. auto.
  - eapply Forall_impl; [exact Hw|]. intros w (p & E & Hu & Hc). exists p. auto.
Qed.

Lemma db_ok_mono (R R' : bytes -> Z -> Prop) d : (forall n h, R n h -> R' n h) -> db_ok R d -> db_ok R' d.
Proof.
  intros HR [H1 H2]. split.
  - intros n h E. destruct (H1 n h E) as [? Hu]. split; [done|]. intros k Hk. by apply HR, Hu.
  - eapply Forall_impl; [exact H2|]. intros [n h] [? Hu]. split; [done|]. intros k Hk. by apply HR, Hu.
Qed.
