(* ===== verification/PinTheorems.v ===== *)
(** * Block processors: invariants of their runs *)

From Stdlib Require Import ZArith Lia Strings.Byte String.
From stdpp Require Import gmap list sorting.
From S2P Require Import Prelude Pin PinRun.

(** ** Operations keep the invariant *)

Section Operations.
Context (R : bytes -> Z -> Prop).

Lemma pin_ok_height p h : pin_ok R p -> u64 h -> upto R (p_name p) h -> pin_ok R (mkPin (p_name p) h (completed p) (sem p)).
Proof. by intros (_ & _ & ?). Qed.

Lemma pin_ok_sem p n : pin_ok R p -> pin_ok R (mkPin (p_name p) (p_height p) (completed p) n).
Proof. by intros (? & ? & ?). Qed.

Lemma heap_ok s loc p : store_ok R s -> heap s !! loc = Some p -> pin_ok R p.
Proof. intros Hs E. by eapply Forall_lookup_1; [apply Hs|]. Qed.

Lemma workers_after_set_pin loc p p' s ws :
  heap s !! loc = Some p -> p_name p' = p_name p -> Forall (worker_ok R s) ws -> Forall (worker_ok R (set_pin loc p' s)) ws.
Proof. intros E Hn Hw. eapply Forall_impl; [exact Hw|]. intros w. eapply refs_keep, keeps_set_pin; done. Qed.

Lemma CreatePin_ok x name h s d s' d' :
  u64 h -> upto R name h -> CreatePin x name h s d = (s', d') -> db_ok R d -> store_ok R s -> db_ok R d' /\ store_ok R s'.
Proof.
  intros Hu Hup E Hd Hs. unfold CreatePin in E. destruct (pins s !! name); [by injection E as <- <-|].
  assert (Hd' : db_ok R (execute x (insert_row name h) d)).
  { unfold execute, insert_row. destruct (exec_applied x); [|done]. destruct (rows d !! name) eqn:Er; [done|]. destruct Hd as [H1 H2].
    split; [|done]. simpl. intros n k. destruct (decide (n = name)) as [->|Hne]; [rewrite lookup_insert_eq; by intros [= <-]|].
    rewrite lookup_insert_ne by done. apply H1. }
  destruct (exec_ok x); injection E as <- <-; split; try done. by apply add_pin_ok.
Qed.

Lemma dispatch_ok ch i s s' : dispatch ch i s = Some s' -> store_ok R s -> store_ok R s'.
Proof.
  unfold dispatch. intros E Hs. destruct (dispatchers s !! i) as [d|]; [|done]. simpl in E. destruct (d_height d) as [h|]; [|done]. simpl in E.
  destruct (heap s !! d_pin d) as [p|] eqn:Ep; [|done]. simpl in E. destruct (_ && _); [|done]. injection E as <-.
  apply set_dispatchers_ok. assert (Hp : pin_ok R (mkPin (p_name p) (p_height p) (completed p) (sem p + 1))) by (by eapply pin_ok_sem, heap_ok).
  apply set_workers_ok; [|by eapply set_pin_ok]. apply Forall_app_2; [by eapply workers_after_set_pin; [done|done|apply Hs]|].
  constructor; [|constructor]. eexists. simpl. rewrite list_lookup_insert_eq by (by eapply lookup_lt_Some). split; [done|].
  split; [|done]. unfold u64, MaxUint64, uint64. pose proof (Z.mod_pos_bound (h + 1) 18446744073709551616). lia.
Qed.

Lemma worker_calls_ok i s s' w p :
  worker_calls i s = Some s' -> workers s !! i = Some w -> heap s !! w_pin w = Some p -> R (p_name p) (w_height w) ->
  store_ok R s -> store_ok R s'.
Proof.
  unfold worker_calls. intros E Ew Ep HR Hs. rewrite Ew in E. simpl in E. case_bool_decide; [|done]. injection E as <-.
  apply set_workers_ok; [|done]. apply Forall_insert; [apply Hs|]. destruct (Forall_lookup_1 _ _ _ _ (ok_workers _ _ Hs) Ew) as (q & Eq & Hu & _).
  exists p. done.
Qed.

Lemma covers_upto p h m : pin_ok R p -> R (p_name p) h -> covers (h :: completed p) (p_height p) m -> upto R (p_name p) m.
Proof.
  intros (_ & Hup & Hc) Hh Hcov k Hk. destruct (Z.le_gt_cases k (p_height p)) as [Hle|Hgt]; [apply Hup; lia|].
  assert (Hin : k ∈ h :: completed p) by (apply Hcov; lia). apply elem_of_cons in Hin as [->|Hin]; [done|].
  by apply (proj1 (Forall_forall _ _) Hc) in Hin as [_ ?].
Qed.

Lemma db_moved_ok name d d' m : db_moved name d d' m -> u64 m -> upto R name m -> db_ok R d -> db_ok R d'.
Proof.
  intros [Hr Hn] Hu Hup [H1 H2]. split.
  - destruct Hr as [->|(h & _ & _ & ->)]; [done|]. intros n k. destruct (decide (n = name)) as [->|Hne]; [rewrite lookup_insert_eq; by intros [= <-]|].
    rewrite lookup_insert_ne by done. apply H1.
  - destruct Hn as [->| ->]; [done|]. apply Forall_app_2; [done|]. by constructor.
Qed.

Lemma worker_completes_ok u n i s d s' d' :
  worker_completes u n i s d = Some (s', d') -> db_ok R d -> store_ok R s -> db_ok R d' /\ store_ok R s'.
Proof.
  unfold worker_completes. intros E Hd Hs. destruct (workers s !! i) as [w|] eqn:Ew; [|done]. simpl in E.
  destruct (heap s !! w_pin w) as [p|] eqn:Ep; [|done]. simpl in E. case_bool_decide as Hph; [|done].
  destruct (complete u n (w_height w) p d) as [[ok p'] d1] eqn:Ec. injection E as <- <-.
  destruct (Forall_lookup_1 _ _ _ _ (ok_workers _ _ Hs) Ew) as (q & Eq & Hu & HR). rewrite Ep in Eq. injection Eq as <-.
  assert (HRw : R (p_name p) (w_height w)) by (apply HR; by rewrite Hph).
  pose proof (heap_ok _ _ _ Hs Ep) as Hp. pose proof Hp as (Hph' & Hup & Hcomp).
  assert (Hall : Forall u64 (w_height w :: completed p)) by (constructor; [done|]; eapply Forall_impl; [exact Hcomp|]; by intros c []).
  destruct (complete_props _ _ _ _ _ _ _ _ Hph' Hall Ec) as (Hn & Hsem & Hge & Hu' & Hcov & Hkeep & m & Hum & Hcm & Hmv).
  split.
  - eapply db_moved_ok; [exact Hmv|done| |done]. by eapply covers_upto.
  - assert (Hp' : pin_ok R p').
    { split; [done|]. rewrite Hn. split; [by eapply covers_upto|]. apply Forall_forall. intros c Hc. apply Hkeep in Hc.
      apply elem_of_cons in Hc as [->|Hc]; [done|]. by apply (proj1 (Forall_forall _ _) Hcomp). }
    apply set_workers_ok; [|by eapply set_pin_ok]. apply Forall_insert; [by eapply workers_after_set_pin; [done|done|apply Hs]|].
    eexists. simpl. rewrite list_lookup_insert_eq by (by eapply lookup_lt_Some). split; [done|]. split; [done|]. intros _. by rewrite Hn.
Qed.

Lemma worker_leaves_ok i s s' : worker_leaves i s = Some s' -> store_ok R s -> store_ok R s'.
Proof.
  unfold worker_leaves. intros E Hs. destruct (workers s !! i) as [w|] eqn:Ew; [|done]. simpl in E.
  destruct (heap s !! w_pin w) as [p|] eqn:Ep; [|done]. simpl in E. case_bool_decide; [|done]. injection E as <-.
  assert (Hp : pin_ok R (mkPin (p_name p) (p_height p) (completed p) (sem p - 1))) by (by eapply pin_ok_sem, heap_ok).
  apply set_workers_ok; [|by eapply set_pin_ok]. eapply workers_after_set_pin; [done|done|]. apply Forall_delete, Hs.
Qed.

Lemma listener_finds_ok i h s s' l :
  listener_finds i h s = Some s' -> listeners s !! i = Some l -> u64 h -> upto R (l_name l) h -> store_ok R s -> store_ok R s'.
Proof.
  unfold listener_finds. intros E El Hu Hup Hs. rewrite El in E. simpl in E. destruct (l_pin l) as [loc|] eqn:Epin; [by injection E as <-|].
  set (s1 := match pins s !! l_name l with Some _ => s | None => add_pin (l_name l) h s end) in E. injection E as <-.
  assert (Hs1 : store_ok R s1) by (unfold s1; destruct (pins s !! l_name l); [done|by apply add_pin_ok]).
  apply set_listeners_ok; [|done]. apply Forall_insert; [apply Hs1|]. simpl. intros loc Hl. by apply Hs1.
Qed.

Lemma listener_raises_ok i h s s' l :
  listener_raises i h s = Some s' -> listeners s !! i = Some l -> u64 h -> upto R (l_name l) h -> store_ok R s -> store_ok R s'.
Proof.
  unfold listener_raises. intros E El Hu Hup Hs. rewrite El in E. simpl in E. destruct (l_pin l) as [loc|] eqn:Epin; [|done]. simpl in E.
  destruct (heap s !! loc) as [p|] eqn:Ep; [|done]. simpl in E. injection E as <-. destruct (p_height p <? h); [|done].
  destruct (Forall_lookup_1 _ _ _ _ (ok_listeners _ _ Hs) El loc Epin) as (q & Eq & Hn). rewrite Ep in Eq. injection Eq as <-.
  eapply set_pin_ok; [done|done| |done]. apply pin_ok_height; [by eapply heap_ok|done|by rewrite Hn].
Qed.

Lemma waiter_finds_ok i s s' : waiter_finds i s = Some s' -> store_ok R s -> store_ok R s'.
Proof.
  unfold waiter_finds, find_pin. intros E Hs. destruct (waiters s !! i) as [w|] eqn:Ew; [|done]. simpl in E.
  destruct (wt_pin w); [done|]. destruct (wt_names w) as [|name names] eqn:En; [done|].
  destruct (pins s !! name) as [loc|] eqn:Ep; [|done]. injection E as <-. apply set_waiters_ok; [|done]. apply Forall_insert; [apply Hs|].
  simpl. intros l [= <-]. exists name. split; [done|]. by apply Hs.
Qed.

Lemma waiter_passes_ok i s s' w :
  waiter_passes i s = Some s' -> waiters s !! i = Some w -> store_ok R s ->
  store_ok R s' /\ exists name, head (wt_names w) = Some name /\ upto R name (wt_height w).
Proof.
  unfold waiter_passes, getHeight. intros E Ew Hs. rewrite Ew in E. simpl in E. destruct (wt_pin w) as [loc|] eqn:Epin; [|done]. simpl in E.
  destruct (heap s !! loc) as [p|] eqn:Ep; [|done]. simpl in E. destruct (Z.ltb_spec (p_height p) (wt_height w)) as [|Hge]; [done|]. injection E as <-.
  split; [apply set_waiters_ok; [|done]; by apply Forall_insert; [apply Hs|]|].
  destruct (Forall_lookup_1 _ _ _ _ (ok_waiters _ _ Hs) Ew loc Epin) as (name & Hh & q & Eq & Hn). rewrite Ep in Eq. injection Eq as <-.
  exists name. split; [done|]. rewrite <- Hn. intros k Hk. destruct (heap_ok _ _ _ Hs Ep) as (_ & Hup & _). apply Hup. lia.
Qed.
End Operations.

(** ** Tokens of the semaphore *)

Definition working_on (loc : nat) (ws : list worker) : list worker := filter (fun w => w_pin w = loc) ws.

(** A token for every worker, and no more than there are places. *)
Definition tokens_ok (s : store) : Prop := forall loc p, heap s !! loc = Some p ->
  sem p = zlen (working_on loc (workers s)) /\ sem p <= processorWorkers.

Lemma no_workers_beyond R s : store_ok R s -> working_on (length (heap s)) (workers s) = [].
Proof.
  intros Hs. destruct (working_on (length (heap s)) (workers s)) as [|w l] eqn:E; [done|].
  assert (Hw : w ∈ working_on (length (heap s)) (workers s)) by (rewrite E; left). apply list_elem_of_filter in Hw as [Hl Hw].
  apply (proj1 (Forall_forall _ _) (ok_workers _ _ Hs)) in Hw as (p & Ep & _). rewrite Hl in Ep. apply lookup_lt_Some in Ep. lia.
Qed.

Lemma add_pin_tokens R name h s : store_ok R s -> tokens_ok s -> tokens_ok (add_pin name h s).
Proof.
  intros Hs Ht loc p. simpl. intros [E|[Hge E]]%lookup_app_Some; [by apply Ht|]. apply list_lookup_singleton_Some in E as [E <-].
  assert (Hl : loc = length (heap s)) by lia. subst loc. rewrite (no_workers_beyond R) by done. done.
Qed.

Lemma set_pin_tokens loc p p' s : heap s !! loc = Some p -> sem p' = sem p -> tokens_ok s -> tokens_ok (set_pin loc p' s).
Proof.
  intros Ep Hsem Ht l q. simpl. destruct (decide (l = loc)) as [->|Hne].
  - rewrite list_lookup_insert_eq by (by eapply lookup_lt_Some). intros [= <-]. rewrite Hsem. by apply Ht.
  - rewrite list_lookup_insert_ne by done. apply Ht.
Qed.

Lemma LoadAll_tokens R names d s : db_ok R d -> store_ok R s -> tokens_ok s -> tokens_ok (LoadAll names d s).
Proof.
  intros Hd. revert s. induction names as [|name names IH]; intros s Hs Ht; [done|]. simpl.
  destruct (rows d !! name) as [h|] eqn:E; [|by apply IH]. destruct Hd as [Hr Hn]. pose proof (Hr _ _ E) as [? ?].
  apply IH; [by apply add_pin_ok|by eapply add_pin_tokens].
Qed.

(** Changing the phase of a worker changes no count. *)
Lemma working_on_insert loc ws i w w' : ws !! i = Some w -> w_pin w' = w_pin w -> length (working_on loc (<[i := w']> ws)) = length (working_on loc ws).
Proof.
  intros E Hp. rewrite <- (take_drop_middle ws i w E) at 2. rewrite insert_take_drop by (by eapply lookup_lt_Some).
  unfold working_on. rewrite !filter_app, !length_app. f_equal. destruct (decide (w_pin w = loc)) as [Hl|Hl].
  - rewrite !filter_cons_True by congruence. done.
  - rewrite !filter_cons_False by congruence. done.
Qed.

Lemma working_on_delete loc ws i w : ws !! i = Some w ->
  length (working_on loc ws) = ((if bool_decide (w_pin w = loc) then 1 else 0) + length (working_on loc (delete i ws)))%nat.
Proof.
  intros E. rewrite <- (take_drop_middle ws i w E) at 1. rewrite delete_take_drop. unfold working_on. rewrite !filter_app, !length_app.
  case_bool_decide; [rewrite filter_cons_True by done|rewrite filter_cons_False by done]; simpl; lia.
Qed.

Lemma dispatch_tokens ch i s s' : dispatch ch i s = Some s' -> tokens_ok s -> tokens_ok s'.
Proof.
  unfold dispatch. intros E Ht. destruct (dispatchers s !! i) as [d|]; [|done]. simpl in E. destruct (d_height d) as [h|]; [|done]. simpl in E.
  destruct (heap s !! d_pin d) as [p|] eqn:Ep; [|done]. simpl in E. destruct (_ && _) eqn:Eb; [|done]. injection E as <-. zbool.
  destruct (Ht _ _ Ep) as [Hsem _]. intros l q. simpl. unfold working_on. rewrite filter_app. unfold zlen. rewrite length_app.
  destruct (decide (l = d_pin d)) as [->|Hne].
  - rewrite list_lookup_insert_eq by (by eapply lookup_lt_Some). intros [= <-]. cbn [sem]. rewrite filter_cons_True by done.
    rewrite filter_nil. cbn [length]. unfold zlen, working_on in Hsem. split; lia.
  - rewrite list_lookup_insert_ne by done. intros Eq. rewrite filter_cons_False by (cbn [w_pin]; congruence).
    rewrite filter_nil. cbn [length]. destruct (Ht _ _ Eq) as [H1 H2]. unfold zlen, working_on in H1. split; [rewrite H1; f_equal; lia|done].
Qed.

Lemma set_worker_tokens i w w' s : workers s !! i = Some w -> w_pin w' = w_pin w -> tokens_ok s ->
  tokens_ok (set_workers (<[i := w']> (workers s)) s).
Proof.
  intros E Hp Ht l q. simpl. intros Eq. destruct (Ht _ _ Eq) as [H1 H2]. split; [|done]. rewrite H1. unfold zlen. by rewrite (working_on_insert _ _ _ _ _ E Hp).
Qed.

Lemma worker_leaves_tokens i s s' : worker_leaves i s = Some s' -> tokens_ok s -> tokens_ok s'.
Proof.
  unfold worker_leaves. intros E Ht. destruct (workers s !! i) as [w|] eqn:Ew; [|done]. simpl in E.
  destruct (heap s !! w_pin w) as [p|] eqn:Ep; [|done]. simpl in E. case_bool_decide; [|done]. injection E as <-.
  intros l q. simpl. pose proof (working_on_delete l _ _ _ Ew) as Hc. destruct (decide (l = w_pin w)) as [->|Hne].
  - rewrite list_lookup_insert_eq by (by eapply lookup_lt_Some). intros [= <-]. destruct (Ht _ _ Ep) as [H1 H2]. cbn.
    rewrite bool_decide_eq_true_2 in Hc by done. unfold zlen in *. lia.
  - rewrite list_lookup_insert_ne by done. intros Eq. destruct (Ht _ _ Eq) as [H1 H2]. rewrite bool_decide_eq_false_2 in Hc by congruence.
    unfold zlen in *. split; [rewrite H1; f_equal; lia|done].
Qed.

(** ** Runs *)

Definition invariant (y : system) : Prop :=
  db_ok (processed y) (db y) /\ store_ok (processed y) (st y) /\ tokens_ok (st y) /\
  Forall (fun nh => upto (processed y) nh.1 nh.2) (passed y).

Lemma passed_mono (y y' : system) l : (forall n h, processed y n h -> processed y' n h) ->
  Forall (fun nh => upto (processed y) nh.1 nh.2) l -> Forall (fun nh => upto (processed y') nh.1 nh.2) l.
Proof. intros HR Hl. eapply Forall_impl; [exact Hl|]. intros [n h] Hu k Hk. by apply HR, Hu. Qed.

(** The whole invariant after a step that processes more. *)
Lemma invariant_mono y y' :
  (forall n h, processed y n h -> processed y' n h) -> db_ok (processed y') (db y') -> store_ok (processed y') (st y') ->
  tokens_ok (st y') -> passed y' = passed y -> invariant y -> invariant y'.
Proof. intros HR Hd Hs Ht Ep (_ & _ & _ & Hp). split; [done|]. split; [done|]. split; [done|]. rewrite Ep. by eapply passed_mono. Qed.

Lemma with_store_invariant y s : store_ok (processed y) s -> tokens_ok s -> invariant y -> invariant (with_store s y).
Proof. intros Hs Ht (Hd & _ & _ & Hp). by split. Qed.

Lemma notes_ok R d name h : db_ok R d -> (name, h) ∈ notes d -> u64 h /\ upto R name h.
Proof. intros [_ Hn] Hin. exact (proj1 (Forall_forall _ _) Hn _ Hin). Qed.

(** A call of [CreatePin] that takes no effect changes nothing. *)
Lemma create_no_effect x name h s d : create_effect x name s d = false -> CreatePin x name h s d = (s, d).
Proof.
  unfold create_effect, CreatePin. destruct (pins s !! name); [done|]. intros [Hx Ha]%orb_false_iff. rewrite Hx.
  unfold execute, insert_row. destruct (exec_applied x); [|done]. simpl in Ha. apply negb_false_iff, bool_decide_eq_true in Ha as [k ->]. done.
Qed.

Lemma create_invariant y x name h y' : system_step (Create x name h) y = Some y' -> invariant y -> invariant y'.
Proof.
  simpl. intros E Hi. destruct (in_uint64 h) eqn:Eu; [|done]. assert (Hu : u64 h) by (unfold in_uint64 in Eu; zbool; done).
  pose proof Hi as (Hd & Hs & Ht & _). destruct (CreatePin x name h (st y) (db y)) as [s' d'] eqn:Ec. injection E as <-.
  destruct (create_effect x name (st y) (db y)) eqn:Ep.
  2: { rewrite create_no_effect in Ec by done. injection Ec as <- <-. apply (invariant_mono y); done. }
  set (y' := mkSystem (chain_height y) d' s' (called y) ((name, h) :: created y) (passed y)).
  assert (HR : forall n k, processed y n k -> processed y' n k).
  { intros n k [Hc|(h0 & Hc & Hle)]; [by left|]. right. exists h0. split; [by right|done]. }
  assert (Hup : upto (processed y') name h) by (intros k Hk; right; exists h; split; [left|lia]).
  destruct (CreatePin_ok (processed y') x name h _ _ _ _ Hu Hup Ec) as [Hd' Hs'].
  { by eapply db_ok_mono. } { by eapply store_ok_mono. }
  apply (invariant_mono y); try done. simpl. unfold CreatePin in Ec. destruct (pins (st y) !! name); [by injection Ec as <- _|].
  destruct (exec_ok x); injection Ec as <- _; [by eapply add_pin_tokens|done].
Qed.

Lemma call_invariant y i y' : system_step (Call i) y = Some y' -> invariant y -> invariant y'.
Proof.
  simpl. intros E Hi. pose proof Hi as (Hd & Hs & Ht & _). destruct (worker_calls i (st y)) as [s'|] eqn:Ec; [|done]. simpl in E.
  destruct (workers (st y) !! i) as [w|] eqn:Ew; [|done]. simpl in E. destruct (heap (st y) !! w_pin w) as [p|] eqn:Ep; [|done]. simpl in E.
  injection E as <-. set (y' := mkSystem _ _ _ _ _ _).
  assert (HR : forall n k, processed y n k -> processed y' n k).
  { intros n k [Hc|Hc]; [left; by right|by right]. }
  apply (invariant_mono y); try done.
  - by eapply db_ok_mono.
  - eapply worker_calls_ok; [exact Ec|exact Ew|exact Ep| |by eapply store_ok_mono]. left. left.
  - simpl. unfold worker_calls in Ec. rewrite Ew in Ec. simpl in Ec. case_bool_decide; [|done]. injection Ec as <-. by eapply set_worker_tokens.
Qed.

Lemma complete_invariant y u n i y' : system_step (Complete u n i) y = Some y' -> invariant y -> invariant y'.
Proof.
  simpl. intros E Hi. pose proof Hi as (Hd & Hs & Ht & _). destruct (worker_completes u n i (st y) (db y)) as [[s' d']|] eqn:Ec; [|done].
  simpl in E. injection E as <-. destruct (worker_completes_ok _ _ _ _ _ _ _ _ Ec Hd Hs) as [Hd' Hs']. apply (invariant_mono y); try done.
  simpl. unfold worker_completes in Ec. destruct (workers (st y) !! i) as [w|] eqn:Ew; [|done]. simpl in Ec.
  destruct (heap (st y) !! w_pin w) as [p|] eqn:Ep; [|done]. simpl in Ec. case_bool_decide as Hph; [|done].
  destruct (complete u n (w_height w) p (db y)) as [[ok p'] d1] eqn:Ecp. injection Ec as <- _.
  assert (Hsem : sem p' = sem p).
  { unfold complete in Ecp. destruct (complete_scan _ _ _) as [m k]. repeat case_match; by injection Ecp as _ <- _. }
  change (workers (st y)) with (workers (set_pin (w_pin w) p' (st y))).
  eapply set_worker_tokens; [exact Ew|done|]. by eapply set_pin_tokens.
Qed.

Lemma pass_invariant y i y' : system_step (WaitPass i) y = Some y' -> invariant y -> invariant y'.
Proof.
  simpl. intros E (Hd & Hs & Ht & Hp). destruct (waiter_passes i (st y)) as [s'|] eqn:Ec; [|done]. simpl in E.
  destruct (waiters (st y) !! i) as [w|] eqn:Ew; [|done]. simpl in E. destruct (head (wt_names w)) as [name|] eqn:En; [|done]. simpl in E. injection E as <-.
  destruct (waiter_passes_ok _ _ _ _ _ Ec Ew Hs) as (Hs' & name' & En' & Hup). rewrite En in En'. injection En' as <-.
  split; [done|]. split; [done|]. split; [|by constructor].
  unfold waiter_passes in Ec. rewrite Ew in Ec. simpl in Ec. destruct (wt_pin w) as [loc|]; [|done]. simpl in Ec.
  destruct (getHeight loc (st y)) as [k|]; [|done]. simpl in Ec. destruct (_ <? _); [done|]. by injection Ec as <-.
Qed.

Lemma listener_tokens R i h s s' l :
  listener_finds i h s = Some s' -> listeners s !! i = Some l -> store_ok R s -> tokens_ok s -> tokens_ok s'.
Proof.
  unfold listener_finds. intros E El Hs Ht. rewrite El in E. simpl in E. destruct (l_pin l); [by injection E as <-|].
  injection E as <-. destruct (pins s !! l_name l); [done|]. by apply (add_pin_tokens R (l_name l) h).
Qed.

Lemma listen_invariant y y' i h find :
  (l ← listeners (st y) !! i;
   if bool_decide ((l_name l, h) ∈ notes (db y)) then s' ← (if find : bool then listener_finds i h (st y) else listener_raises i h (st y)); Some (with_store s' y)
   else None) = Some y' -> invariant y -> invariant y'.
Proof.
  intros E Hi. pose proof Hi as (Hd & Hs & Ht & _). destruct (listeners (st y) !! i) as [l|] eqn:El; [|done]. simpl in E.
  case_bool_decide as Hin; [|done]. destruct (notes_ok _ _ _ _ Hd Hin) as [Hu Hup]. destruct find.
  - destruct (listener_finds i h (st y)) as [s'|] eqn:Ef; [|done]. injection E as <-.
    apply with_store_invariant; [by eapply listener_finds_ok|by eapply listener_tokens|done].
  - destruct (listener_raises i h (st y)) as [s'|] eqn:Ef; [|done]. injection E as <-.
    apply with_store_invariant; [by eapply listener_raises_ok| |done]. unfold listener_raises in Ef. rewrite El in Ef. simpl in Ef.
    destruct (l_pin l) as [loc|]; [|done]. simpl in Ef. destruct (heap (st y) !! loc) as [p|] eqn:Ep; [|done]. simpl in Ef. injection Ef as <-.
    destruct (_ <? h); [|done]. by eapply set_pin_tokens.
Qed.

Lemma step_invariant l y y' : system_step l y = Some y' -> invariant y -> invariant y'.
Proof.
  intros E Hi. pose proof Hi as (Hd & Hs & Ht & Hp). destruct l.
  - simpl in E. destruct (_ <=? height); [|done]. injection E as <-. by apply (invariant_mono y).
  - by eapply create_invariant.
  - injection E as <-. apply with_store_invariant; [by apply LoadAll_ok|by eapply LoadAll_tokens|done].
  - simpl in E. destruct (find_pin name (st y)); [|done]. injection E as <-. by apply with_store_invariant; [apply set_dispatchers_ok| |].
  - simpl in E. destruct (dispatchers (st y) !! i) as [d|]; [|done]. simpl in E. destruct (getHeight _ _); [|done]. simpl in E.
    destruct (d_height d); [done|]. injection E as <-. by apply with_store_invariant; [apply set_dispatchers_ok| |].
  - simpl in E. destruct (dispatch _ i (st y)) as [s'|] eqn:Ec; [|done]. injection E as <-.
    apply with_store_invariant; [by eapply dispatch_ok|by eapply dispatch_tokens|done].
  - injection E as <-. by apply with_store_invariant; [apply set_dispatchers_ok| |].
  - by eapply call_invariant.
  - by eapply complete_invariant.
  - simpl in E. destruct (worker_leaves i (st y)) as [s'|] eqn:Ec; [|done]. injection E as <-.
    apply with_store_invariant; [by eapply worker_leaves_ok|by eapply worker_leaves_tokens|done].
  - injection E as <-. apply with_store_invariant; [|done|done]. apply set_listeners_ok; [|done].
    apply Forall_app_2; [apply Hs|]. constructor; [done|constructor].
  - by apply (listen_invariant y y' i height true).
  - by apply (listen_invariant y y' i height false).
  - injection E as <-. apply with_store_invariant; [|done|done]. apply set_waiters_ok; [|done].
    apply Forall_app_2; [apply Hs|]. constructor; [done|constructor].
  - simpl in E. destruct (waiter_finds i (st y)) as [s'|] eqn:Ec; [|done]. injection E as <-.
    apply with_store_invariant; [by eapply waiter_finds_ok| |done]. unfold waiter_finds in Ec. destruct (waiters (st y) !! i) as [w|]; [|done].
    simpl in Ec. destruct (wt_pin w), (wt_names w) as [|nm ?]; try done. destruct (find_pin nm (st y)); [|done]. by injection Ec as <-.
  - by eapply pass_invariant.
  - injection E as <-. apply with_store_invariant; [apply no_pins_ok|done|done].
Qed.

Lemma run_invariant ls : forall y y', run_system ls y = Some y' -> invariant y -> invariant y'.
Proof.
  induction ls as [|l ls IH]; intros y y'; simpl; [by intros [= <-]|]. destruct (system_step l y) as [y1|] eqn:E; [|done]. simpl.
  intros Hr Hi. eapply IH; [exact Hr|]. by eapply step_invariant.
Qed.

Lemma start_invariant : invariant start_system.
Proof. split; [by split; [|constructor]|]. split; [apply no_pins_ok|]. split; [by intros loc p|constructor]. Qed.

(** C17: In every run of the block processors, with errors of the database, notifications
    and crashes at any point: a pin, in memory or in the database, is at a height only when
    every block up to it was handled by the callback of the processor, or lies at or below a
    height that the pin was started at by a [CreatePin] that took effect; so is every height
    that a waiter has waited for.  No more than ten workers handle blocks for a pin at a
    time.  A [CreatePin] that takes effect makes a new row, or a pin in memory; the second
    also over a row with a lower height, see [create_skips_blocks]. *)
Theorem pins_pass_processed_blocks ls y :
  run_system ls start_system = Some y ->
  (forall p, p ∈ heap (st y) -> upto (processed y) (p_name p) (p_height p)) /\
  (forall name h, rows (db y) !! name = Some h -> upto (processed y) name h) /\
  (forall name h, (name, h) ∈ passed y -> upto (processed y) name h) /\
  (forall loc p, heap (st y) !! loc = Some p -> zlen (working_on loc (workers (st y))) <= processorWorkers).
Proof.
  intros Hr. destruct (run_invariant _ _ _ Hr start_invariant) as (Hd & Hs & Ht & Hp). split; [|split; [|split]].
  - intros p Hin. by destruct (proj1 (Forall_forall _ _) (ok_heap _ _ Hs) p Hin) as (_ & ? & _).
  - intros name h E. by apply Hd.
  - intros name h Hin. exact (proj1 (Forall_forall _ _) Hp _ Hin).
  - intros loc p E. destruct (Ht _ _ E) as [<- ?]. done.
Qed.

(** ** Pins catch up *)

(** No statement of [complete] returns an error. *)
Definition quiet (l : label) : bool :=
  match l with
  | Complete Executed Executed _ => true
  | Complete _ _ _ => false
  | _ => true
  end.

(** A worker has the block and has not completed it yet. *)
Definition pending (s : store) (loc : nat) (k : Z) : Prop :=
  exists w, w ∈ workers s /\ w_pin w = loc /\ w_height w = k /\ w_phase w <> Leaving.

(** A block that a worker completed or has in hand. *)
Definition handed (s : store) (loc : nat) (p : pin) (k : Z) : Prop := k ∈ completed p \/ pending s loc k.

(** Every block above the pin, up to [h], is one of them. *)
Definition filled (s : store) (loc : nat) (p : pin) (h : Z) : Prop := forall k, p_height p < k <= h -> handed s loc p k.

(** The next block above a pin is not completed, unless a worker is still to complete one
    and will move the pin: a notification may have raised it to below a completed block.
    Below a block that was handed out, and below what a dispatcher has come to, no block
    was left out. *)
Record caught_up (s : store) : Prop := {
  cu_gap : forall loc p, heap s !! loc = Some p -> p_height p + 1 ∉ completed p \/ exists k, pending s loc k;
  cu_dense : forall loc p c, heap s !! loc = Some p -> handed s loc p c -> filled s loc p c;
  cu_dispatched : forall d h, d ∈ dispatchers s -> d_height d = Some h ->
    0 <= h /\ exists p, heap s !! d_pin d = Some p /\ filled s (d_pin d) p h;
}.

Lemma elem_insert {A} (l : list A) i x y z : l !! i = Some x -> z ∈ l -> z = x \/ z ∈ <[i := y]> l.
Proof.
  intros E Hz. rewrite <- (take_drop_middle l i x E) in Hz. rewrite insert_take_drop by (by eapply lookup_lt_Some). set_solver.
Qed.

Lemma elem_delete {A} (l : list A) i x z : l !! i = Some x -> z ∈ l -> z = x \/ z ∈ delete i l.
Proof. intros E Hz. rewrite <- (take_drop_middle l i x E) in Hz. rewrite delete_take_drop. set_solver. Qed.

Lemma elem_deleted {A} (l : list A) i z : z ∈ delete i l -> z ∈ l.
Proof. intros Hz. eapply elem_of_submseteq; [exact Hz|]. apply sublist_submseteq, sublist_delete. Qed.

Lemma elem_inserted {A} (l : list A) i y z : z ∈ <[i := y]> l -> z = y \/ z ∈ l.
Proof.
  intros Hz. apply list_elem_of_lookup in Hz as [j Hj]. apply list_lookup_insert_Some in Hj as [(-> & -> & _)|[_ Hj]]; [by left|].
  right. by eapply list_elem_of_lookup_2.
Qed.

(** Pins that stay, and new ones for which nothing was handed out. *)
Lemma caught_keep s s' :
  (forall loc p', heap s' !! loc = Some p' ->
     (exists p, heap s !! loc = Some p /\ p_height p' = p_height p /\ completed p' = completed p) \/
     completed p' = [] /\ forall k, ~ pending s loc k) ->
  (forall loc p, heap s !! loc = Some p ->
     exists p', heap s' !! loc = Some p' /\ p_height p' = p_height p /\ completed p' = completed p) ->
  (forall loc k, pending s' loc k <-> pending s loc k) ->
  (forall d h, d ∈ dispatchers s' -> d_height d = Some h ->
     d ∈ dispatchers s \/ 0 <= h /\ exists p, heap s' !! d_pin d = Some p /\ h <= p_height p) ->
  caught_up s -> caught_up s'.
Proof.
  intros Hold Hnew Hpend Hds [Hg Hd Ha].
  assert (Hto : forall loc p p' k, p_height p' = p_height p -> completed p' = completed p ->
    (handed s' loc p' k <-> handed s loc p k) /\ (filled s loc p k -> filled s' loc p' k)).
  { intros loc p p' k Eh Ec. unfold filled, handed. rewrite Eh, Ec, Hpend. split; [done|].
    intros Hf x Hx. rewrite Hpend. by apply Hf. }
  split.
  - intros loc p' Ep. setoid_rewrite Hpend. destruct (Hold _ _ Ep) as [(p & Eq & -> & ->)|[-> _]]; [eauto|left; set_solver].
  - intros loc p' c Ep Hc. destruct (Hold _ _ Ep) as [(p & Eq & Eh & Ec)|[En Hno]].
    + eapply Hto; [done..|]. eapply Hd; [done|]. by eapply Hto.
    + destruct Hc as [Hc|Hc%Hpend]; [rewrite En in Hc; set_solver|by destruct (Hno c)].
  - intros d h Hin Eh. destruct (Hds d h Hin Eh) as [Hin'|(H0 & p & Ep & Hle)].
    + destruct (Ha d h Hin' Eh) as (H0 & p & Ep & Hp). split; [done|]. destruct (Hnew _ _ Ep) as (p' & Ep' & E1 & E2).
      exists p'. split; [done|]. by eapply Hto.
    + split; [done|]. exists p. split; [done|]. intros k Hk. lia.
Qed.

Lemma caught_same s s' :
  heap s' = heap s -> (forall loc k, pending s' loc k <-> pending s loc k) ->
  (forall d h, d ∈ dispatchers s' -> d_height d = Some h ->
     d ∈ dispatchers s \/ 0 <= h /\ exists p, heap s' !! d_pin d = Some p /\ h <= p_height p) ->
  caught_up s -> caught_up s'.
Proof. intros Eh Hp Hd. apply caught_keep; [rewrite Eh; eauto..|done|done]. Qed.

Lemma add_pin_caught R name h s : store_ok R s -> caught_up s -> caught_up (add_pin name h s).
Proof.
  intros Hs. apply caught_keep; [| |done|by left].
  - simpl. intros loc p' [Ep|[Hge Ep]]%lookup_app_Some; [left; eauto|right]. apply list_lookup_singleton_Some in Ep as [El <-].
    split; [done|]. intros k (w & Hw & Hl & _). destruct (proj1 (Forall_forall _ _) (ok_workers _ _ Hs) w Hw) as (q & Eq & _).
    apply lookup_lt_Some in Eq. lia.
  - simpl. intros loc p Ep. exists p. split; [by apply lookup_app_l_Some|done].
Qed.

Lemma LoadAll_caught R names d s : db_ok R d -> store_ok R s -> caught_up s -> caught_up (LoadAll names d s).
Proof.
  intros Hd. revert s. induction names as [|name names IH]; intros s Hs Hc; [done|]. simpl.
  destruct (rows d !! name) as [h|] eqn:E; [|by apply IH]. destruct Hd as [Hr Hn]. pose proof (Hr _ _ E) as [? ?].
  apply IH; [by apply add_pin_ok|by eapply add_pin_caught].
Qed.

(** A pin whose height and completed blocks stay. *)
Lemma set_sem_caught loc p n s :
  heap s !! loc = Some p -> caught_up s -> caught_up (set_pin loc (mkPin (p_name p) (p_height p) (completed p) n) s).
Proof.
  intros Ep. apply caught_keep; [| |done|by left]; simpl; intros l q.
  - intros [(-> & <- & _)|[_ Eq]]%list_lookup_insert_Some; left; eauto.
  - intros Eq. destruct (decide (l = loc)) as [->|Hne].
    + rewrite Ep in Eq. injection Eq as <-. eexists. rewrite list_lookup_insert_eq by (by eapply lookup_lt_Some). done.
    + exists q. by rewrite list_lookup_insert_ne.
Qed.

Lemma dispatch_caught ch i s s' : dispatch ch i s = Some s' -> caught_up s -> caught_up s'.
Proof.
  unfold dispatch. intros E Hc. destruct (dispatchers s !! i) as [d|] eqn:Ed; [|done]. simpl in E. destruct (d_height d) as [h|] eqn:Eh; [|done]. simpl in E.
  destruct (heap s !! d_pin d) as [p|] eqn:Ep; [|done]. simpl in E. destruct (_ && _); [|done]. injection E as <-.
  destruct (set_sem_caught (d_pin d) p (sem p + 1) s Ep Hc) as [Hg Hd Ha]. set (s1 := set_pin _ _ s) in *.
  set (w := mkWorker (d_pin d) (uint64 (h + 1)) Working). set (s2 := set_dispatchers _ _).
  assert (Hpend : forall loc k, pending s2 loc k <-> pending s1 loc k \/ loc = d_pin d /\ k = uint64 (h + 1)).
  { intros loc k. unfold pending. simpl. setoid_rewrite elem_of_app. setoid_rewrite list_elem_of_singleton. split.
    - intros (w' & [Hw'| ->] & Hl & Hk & Hne); [left; eauto|right; done].
    - intros [(w' & Hw' & Hrest)|[-> ->]]; [by exists w'; auto|]. exists w. auto. }
  assert (Hhand : forall loc q k, handed s1 loc q k -> handed s2 loc q k) by (intros loc q k [?|?]; [by left|right; apply Hpend; by left]).
  destruct (Ha d h ltac:(by eapply list_elem_of_lookup_2) Eh) as (H0 & q & Eq & Hq).
  assert (Hnext : filled s2 (d_pin d) q (uint64 (h + 1))).
  { intros k Hk. destruct (Z.le_gt_cases k h) as [Hle|Hgt]; [apply Hhand, Hq; lia|]. right. apply Hpend. right. split; [done|].
    pose proof (Z.mod_le (h + 1) 18446744073709551616). unfold uint64 in *. lia. }
  split.
  - intros loc p' Ep'. destruct (Hg loc p' Ep') as [|[k Hk]]; [by left|right]. exists k. apply Hpend. by left.
  - intros loc p' c Ep' Hc'. assert (handed s1 loc p' c \/ loc = d_pin d /\ c = uint64 (h + 1)) as [Ho|[-> ->]].
    { destruct Hc' as [?|[?|?]%Hpend]; [left; by left|left; by right|by right]. }
    + intros k Hk. apply Hhand. by apply (Hd loc p' c).
    + change (heap s1 !! d_pin d = Some p') in Ep'. rewrite Eq in Ep'. by injection Ep' as <-.
  - intros d' h' Hd' Eh'. apply elem_inserted in Hd' as [->|Hd'].
    + simpl in Eh'. injection Eh' as <-. split; [apply Z.mod_pos_bound; lia|]. exists q. done.
    + destruct (Ha d' h' Hd' Eh') as (H0' & q' & Eq' & Hq'). split; [done|]. exists q'. split; [exact Eq'|]. intros k Hk. by apply Hhand, Hq'.
Qed.

Lemma complete_caught i s d s' d' R :
  worker_completes Executed Executed i s d = Some (s', d') -> store_ok R s -> caught_up s -> caught_up s'.
Proof.
  unfold worker_completes. intros E Hs [Hg Hd Ha]. destruct (workers s !! i) as [w|] eqn:Ew; [|done]. simpl in E.
  destruct (heap s !! w_pin w) as [p|] eqn:Ep; [|done]. simpl in E. case_bool_decide as Hph; [|done].
  pose proof (heap_ok _ _ _ _ Hs Ep) as (Hu & _ & Hcomp). destruct (Forall_lookup_1 _ _ _ _ (ok_workers _ _ Hs) Ew) as (q & _ & Huw & _).
  assert (Hall : Forall u64 (w_height w :: completed p)) by (constructor; [done|]; eapply Forall_impl; [exact Hcomp|]; by intros c []).
  destruct (complete_executed (w_height w) p d Hu Hall) as (p' & (Hle & Hcov & Hgap) & Hn & Hsem & Hcase).
  assert (Hp' : exists d1, complete Executed Executed (w_height w) p d = (true, p', d1) /\ (forall c, c ∈ completed p' -> c ∈ w_height w :: completed p) /\
      forall c, c ∈ w_height w :: completed p -> p_height p' < c -> c ∈ completed p').
  { destruct (p_height p' =? p_height p); destruct Hcase as [Ec Hperm]; (eexists; split; [exact Ec|]); split; intros c; rewrite Hperm; try done.
    - by intros [_ ?]%list_elem_of_filter.
    - intros Hc Hlt. by apply list_elem_of_filter. }
  destruct Hp' as (d1 & Ec & Hsub & Hsup). rewrite Ec in E. injection E as <- _. set (w' := mkWorker (w_pin w) (w_height w) Leaving). set (s' := set_workers _ _).
  assert (Hwp : pending s (w_pin w) (w_height w)) by (exists w; split; [by eapply list_elem_of_lookup_2|]; repeat split; by rewrite Hph).
  assert (Hpend : forall loc k, pending s loc k -> loc = w_pin w /\ k = w_height w \/ pending s' loc k).
  { intros loc k (v & Hv & Hl & Hk & Hne). destruct (elem_insert _ _ _ w' _ Ew Hv) as [->|Hin]; [by left|]. right. by exists v. }
  assert (Hback : forall loc k, pending s' loc k -> pending s loc k).
  { intros loc k (v & Hv & Hl & Hk & Hne). apply elem_inserted in Hv as [->|Hv]; [done|]. by exists v. }
  assert (Hhere : forall h, filled s (w_pin w) p h -> filled s' (w_pin w) p' h).
  { intros h Hf k Hk. destruct (Hf k ltac:(lia)) as [Hin|Hin]; [left; apply Hsup; [by right|lia]|].
    destruct (Hpend _ _ Hin) as [[_ ->]|]; [left; apply Hsup; [by left|lia]|by right]. }
  assert (Hthere : forall loc q' k, loc <> w_pin w -> handed s loc q' k -> handed s' loc q' k).
  { intros loc q' k Hne [?|Hp]; [by left|right]. by destruct (Hpend _ _ Hp) as [[? _]|]. }
  assert (Hlook : forall loc q', heap s' !! loc = Some q' -> loc = w_pin w /\ q' = p' \/ loc <> w_pin w /\ heap s !! loc = Some q').
  { intros loc q'. simpl. intros [(-> & -> & _)|[? ?]]%list_lookup_insert_Some; auto. }
  split.
  - intros loc q' [[-> ->]|[Hne Eq]]%Hlook; [left; by intros Hin%Hsub|]. destruct (Hg _ _ Eq) as [|[k Hk]]; [by left|right]. exists k.
    by destruct (Hpend _ _ Hk) as [[? _]|].
  - intros loc q' c [[-> ->]|[Hne Eq]]%Hlook Hc.
    + apply Hhere, (Hd _ _ _ Ep). destruct Hc as [[->|?]%Hsub%elem_of_cons|?%Hback]; [by right|by left|by right].
    + intros k Hk. apply Hthere; [done|]. apply (Hd _ _ c Eq); [|done]. destruct Hc as [?|?%Hback]; [by left|by right].
  - intros e h He Eh. destruct (Ha e h He Eh) as (H0 & q' & Eq' & Hq'). split; [done|]. simpl. destruct (decide (d_pin e = w_pin w)) as [El|Hne].
    + rewrite El in *. rewrite Ep in Eq'. injection Eq' as <-. exists p'. rewrite list_lookup_insert_eq by (by eapply lookup_lt_Some). split; [done|by apply Hhere].
    + exists q'. rewrite list_lookup_insert_ne by done. split; [done|]. intros k Hk. by apply Hthere, Hq'.
Qed.

(** A notification raises a pin to where the next block may be completed already; the block
    above its old height is then still to be completed. *)
Lemma raise_caught i h s s' : listener_raises i h s = Some s' -> caught_up s -> caught_up s'.
Proof.
  unfold listener_raises. intros E [Hg Hd Ha]. destruct (listeners s !! i) as [l|]; [|done]. simpl in E.
  destruct (l_pin l) as [loc|]; [|done]. simpl in E. destruct (heap s !! loc) as [p|] eqn:Ep; [|done]. simpl in E. injection E as <-.
  destruct (Z.ltb_spec (p_height p) h) as [Hlt|]; [|done]. set (p' := mkPin (p_name p) h (completed p) (sem p)).
  assert (Hlook : forall l' q, heap (set_pin loc p' s) !! l' = Some q -> l' = loc /\ q = p' \/ l' <> loc /\ heap s !! l' = Some q).
  { intros l' q. simpl. intros [(-> & -> & _)|[? ?]]%list_lookup_insert_Some; auto. }
  assert (Hfill : forall c, filled s loc p c -> filled (set_pin loc p' s) loc p' c) by (intros c Hf k Hk; simpl in Hk; apply Hf; lia).
  split.
  - intros l' q [[-> ->]|[Hne Eq]]%Hlook; [|by apply Hg]. destruct (Hg _ _ Ep) as [Hgap|]; [|by right].
    destruct (decide (h + 1 ∈ completed p)) as [Hin|]; [right|by left]. exists (p_height p + 1).
    destruct (Hd _ _ (h + 1) Ep ltac:(by left) (p_height p + 1) ltac:(lia)); done.
  - intros l' q c [[-> ->]|[Hne Eq]]%Hlook Hc; [apply Hfill|]; by eapply Hd.
  - intros d k Hin Ek. destruct (Ha d k Hin Ek) as (H0 & q & Eq & Hq). split; [done|]. simpl. destruct (decide (d_pin d = loc)) as [El|Hne].
    + rewrite El in *. rewrite Ep in Eq. injection Eq as <-. exists p'. rewrite list_lookup_insert_eq by (by eapply lookup_lt_Some). split; [done|by apply Hfill].
    + exists q. by rewrite list_lookup_insert_ne.
Qed.

Lemma calls_caught i s s' : worker_calls i s = Some s' -> caught_up s -> caught_up s'.
Proof.
  unfold worker_calls. intros Ec. destruct (workers s !! i) as [w|] eqn:Ew; [|done]. simpl in Ec. case_bool_decide as Hph; [|done].
  injection Ec as <-. apply caught_same; [done| |by left]. set (w' := mkWorker (w_pin w) (w_height w) Called). intros loc k. split.
  - intros (v & Hv & Hl & Hk & Hne). apply elem_inserted in Hv as [->|Hv]; [|by exists v].
    exists w. split; [by eapply list_elem_of_lookup_2|]. repeat split; [done..|]. by rewrite Hph.
  - intros (v & Hv & Hl & Hk & Hne). destruct (elem_insert _ _ _ w' _ Ew Hv) as [->|Hin]; [|by exists v].
    exists w'. split; [|done]. apply list_elem_of_lookup. exists i. apply list_lookup_insert_eq. by eapply lookup_lt_Some.
Qed.

Lemma leaves_caught i s s' : worker_leaves i s = Some s' -> caught_up s -> caught_up s'.
Proof.
  unfold worker_leaves. intros Ec Hc. destruct (workers s !! i) as [w|] eqn:Ew; [|done]. simpl in Ec.
  destruct (heap s !! w_pin w) as [p|] eqn:Ep; [|done]. simpl in Ec. case_bool_decide as Hph; [|done]. injection Ec as <-.
  generalize (set_sem_caught _ _ (sem p - 1) _ Ep Hc). apply caught_same; [done| |by left]. intros loc k. split.
  - intros (v & Hv & Hrest). exists v. split; [|done]. exact (elem_deleted (workers s) i v Hv).
  - intros (v & Hv & Hl & Hk & Hne). destruct (elem_delete _ _ _ _ Ew Hv) as [->|Hin]; [done|]. by exists v.
Qed.

Lemma step_caught l y y' : system_step l y = Some y' -> quiet l = true -> invariant y -> caught_up (st y) -> caught_up (st y').
Proof.
  intros E Hq (Hd & Hs & _ & _) Hc. destruct l; simpl in E.
  - destruct (_ <=? height); [|done]. by injection E as <-.
  - destruct (in_uint64 height); [|done]. destruct (CreatePin _ _ _ _ _) as [s' d'] eqn:Ec. injection E as <-. simpl. unfold CreatePin in Ec.
    destruct (pins (st y) !! name); [by injection Ec as <- _|]. destruct (exec_ok x); injection Ec as <- _; [by eapply add_pin_caught|done].
  - injection E as <-. by eapply LoadAll_caught.
  - destruct (find_pin name (st y)); [|done]. injection E as <-. revert Hc. apply caught_same; [done|done|].
    intros d h [Hd'|Hd']%elem_of_app; [by left|]. by apply list_elem_of_singleton in Hd' as ->.
  - destruct (dispatchers (st y) !! i) as [d|] eqn:Ed; [|done]. simpl in E. unfold getHeight in E. destruct (heap (st y) !! d_pin d) as [p|] eqn:Ep; [|done].
    simpl in E. destruct (d_height d); [done|]. injection E as <-. revert Hc. apply caught_same; [done|done|].
    intros d' h [->|Hd']%elem_inserted; [|by left]. simpl. intros [= <-]. right. destruct (heap_ok _ _ _ _ Hs Ep) as ((? & _) & _).
    split; [done|]. exists p. split; [done|lia].
  - destruct (dispatch _ i (st y)) as [s'|] eqn:Ec; [|done]. injection E as <-. by eapply dispatch_caught.
  - injection E as <-. revert Hc. apply caught_same; [done|done|]. intros d h Hd' _. left. exact (elem_deleted (dispatchers (st y)) i d Hd').
  - destruct (worker_calls i (st y)) as [s'|] eqn:Ec; [|done]. simpl in E. destruct (workers (st y) !! i) as [w|]; [|done]. simpl in E.
    destruct (heap (st y) !! w_pin w); [|done]. injection E as <-. by eapply calls_caught.
  - destruct (worker_completes update notification i (st y) (db y)) as [[s' d']|] eqn:Ec; [|done]. injection E as <-.
    destruct update, notification; try done. by eapply complete_caught.
  - destruct (worker_leaves i (st y)) as [s'|] eqn:Ec; [|done]. injection E as <-. by eapply leaves_caught.
  - injection E as <-. revert Hc. apply caught_same; [done|done|by left].
  - destruct (listeners (st y) !! i) as [l|] eqn:El; [|done]. simpl in E. case_bool_decide; [|done]. destruct (listener_finds i height (st y)) as [s'|] eqn:Ef; [|done].
    injection E as <-. simpl. unfold listener_finds in Ef. rewrite El in Ef. simpl in Ef. destruct (l_pin l); [by injection Ef as <-|]. injection Ef as <-.
    set (s1 := match pins (st y) !! l_name l with Some _ => st y | None => _ end). apply (caught_same s1); [done|done|by left|].
    unfold s1. destruct (pins (st y) !! l_name l); [done|]. by eapply add_pin_caught.
  - destruct (listeners (st y) !! i) as [l|] eqn:El; [|done]. simpl in E. case_bool_decide; [|done]. destruct (listener_raises i height (st y)) as [s'|] eqn:Ef; [|done].
    injection E as <-. by eapply raise_caught.
  - injection E as <-. revert Hc. apply caught_same; [done|done|by left].
  - destruct (waiter_finds i (st y)) as [s'|] eqn:Ec; [|done]. injection E as <-. unfold waiter_finds in Ec. destruct (waiters (st y) !! i) as [w|]; [|done].
    simpl in Ec. destruct (wt_pin w), (wt_names w) as [|nm ?]; try done. destruct (find_pin nm (st y)); [|done]. injection Ec as <-.
    revert Hc. apply caught_same; [done|done|by left].
  - destruct (waiter_passes i (st y)) as [s'|] eqn:Ec; [|done]. simpl in E. destruct (waiters (st y) !! i) as [w|] eqn:Ew; [|done]. simpl in E.
    destruct (head (wt_names w)); [|done]. injection E as <-. unfold waiter_passes in Ec. rewrite Ew in Ec. simpl in Ec.
    destruct (wt_pin w) as [loc|]; [|done]. simpl in Ec. destruct (getHeight loc (st y)); [|done]. simpl in Ec. destruct (_ <? _); [done|]. injection Ec as <-.
    revert Hc. apply caught_same; [done|done|by left].
  - injection E as <-. split; [by intros loc p|by intros loc p|intros d h Hd'; set_solver].
Qed.

Lemma run_caught ls : forall y y', run_system ls y = Some y' -> forallb quiet ls = true -> invariant y -> caught_up (st y) -> caught_up (st y').
Proof.
  induction ls as [|l ls IH]; intros y y'; simpl; [by intros [= <-]|]. destruct (system_step l y) as [y1|] eqn:E; [|done]. simpl.
  intros Hr Hq Hi Hc. apply andb_true_iff in Hq as [Hl Hq]. eapply IH; [exact Hr|done|by eapply step_invariant|by eapply step_caught].
Qed.

(** C18: When no statement of [complete] returned an error, a pin is at the last block that
    its dispatcher handed out, or beyond, as soon as the workers have completed their blocks,
    in whatever order they did and whatever notifications raised the pin in between. *)
Theorem pins_catch_up ls y i d h p :
  run_system ls start_system = Some y -> forallb quiet ls = true -> dispatchers (st y) !! i = Some d -> d_height d = Some h ->
  heap (st y) !! d_pin d = Some p -> (forall w, w ∈ workers (st y) -> w_pin w = d_pin d -> w_phase w = Leaving) -> h <= p_height p.
Proof.
  intros Hr Hq Ed Eh Ep Hw. destruct (run_caught _ _ _ Hr Hq start_invariant) as [Hg _ Ha].
  { split; [by intros loc q|by intros loc q|intros e k He; set_solver]. }
  assert (Hno : forall k, ~ pending (st y) (d_pin d) k) by (intros k (w & Hin & Hl & _ & Hne); by rewrite (Hw w Hin Hl) in Hne).
  destruct (Ha d h ltac:(by eapply list_elem_of_lookup_2) Eh) as (_ & q & Eq & Hk). rewrite Ep in Eq. injection Eq as <-.
  destruct (Z.le_gt_cases h (p_height p)) as [|Hlt]; [done|]. destruct (Hk (p_height p + 1) ltac:(lia)) as [Hin|Hp]; [|by apply Hno in Hp].
  by destruct (Hg _ _ Ep) as [?|[k ?%Hno]].
Qed.

(** [complete] without an error moves the pin to the greatest height that the completed
    blocks reach from it without a gap, records that height when it is new, and keeps
    exactly the blocks above it. *)
Lemma complete_moves_to_gap h p d :
  u64 (p_height p) -> Forall u64 (h :: completed p) ->
  exists p' d', complete Executed Executed h p d = (true, p', d') /\ longest (h :: completed p) (p_height p) (p_height p') /\
    if p_height p' =? p_height p then d' = d /\ completed p' ≡ₚ h :: completed p
    else d' = notify (p_name p) (p_height p') (update_row (p_height p') (p_name p) d) /\
      completed p' ≡ₚ filter (fun c => p_height p' < c) (h :: completed p).
Proof.
  intros Hu Hl. destruct (complete_executed h p d Hu Hl) as (p' & Hlong & _ & _ & Hcase). exists p'.
  destruct (p_height p' =? p_height p); destruct Hcase as [E Hperm]; eauto.
Qed.

(** ** A run *)

Definition tx_pin : bytes := list_byte_of_string "tx".

(** Three blocks are handled out of order, one of them after an error of the database;
    the process crashes and goes on from the database. *)
Definition demo_run : list label :=
  [Create Executed tx_pin 0; Block 3; Process tx_pin; ReadHeight 0; Dispatch 0; Dispatch 0; Dispatch 0;
   Call 1; Complete Executed Executed 1; Call 0; Complete FailedAfter Executed 0; Wait [tx_pin] 2; WaitFind 0;
   Call 2; Complete Executed Executed 2; WaitPass 0; Leave 1; Crash; Load [tx_pin]].

(** The store is loaded a second time while workers of the first pin have blocks in hand; the
    new pin passes block 2, and its notification raises the old one to just below block 3,
    which is completed there, before the worker of block 2 has come to its end. *)
Definition quiet_run : list label :=
  [Create Executed tx_pin 0; Listen tx_pin; Block 3; Process tx_pin; ReadHeight 0; Dispatch 0; Call 0; Complete Executed Executed 0;
   Find 0 1; Dispatch 0; Dispatch 0; Load [tx_pin]; Process tx_pin; ReadHeight 1; Dispatch 1; Call 2; Complete Executed Executed 2;
   Call 3; Complete Executed Executed 3; Raise 0 2; Call 1; Complete Executed Executed 1; Leave 3].

(** A pin exists at height 0 in the database only; it is created again at 5, which moves the
    pin in memory and then the row over blocks that nobody handled. *)
Definition skip_run : list label :=
  [Create Executed tx_pin 0; Crash; Create Executed tx_pin 5; Block 6; Process tx_pin; ReadHeight 0; Dispatch 0;
   Call 0; Complete Executed Executed 0].

Definition after (ls : list label) : system := default start_system (run_system ls start_system).

(** [CreatePin] leaves the height of a row that is there, and starts the pin in memory at the
    height it is given: here the row comes to say 6 although only block 6 was handled. *)
Lemma create_skips_blocks :
  rows (db (after (take 3 skip_run))) !! tx_pin = Some 0 /\
  (p_height <$> heap (st (after (take 3 skip_run)))) = [5] /\
  rows (db (after skip_run)) !! tx_pin = Some 6 /\ called (after skip_run) = [(tx_pin, 6)].
Proof. vm_compute. done. Qed.

Lemma pins_pass_processed_blocks_witness :
  exists y, run_system demo_run start_system = Some y /\ rows (db y) !! tx_pin = Some 3 /\ upto (processed y) tx_pin 3 /\ upto (processed y) tx_pin 2.
Proof.
  exists (after demo_run). assert (E : run_system demo_run start_system = Some (after demo_run)) by (vm_compute; reflexivity).
  destruct (pins_pass_processed_blocks demo_run (after demo_run) E) as (_ & Hrows & Hpassed & _). split; [exact E|].
  split; [vm_compute; reflexivity|]. split; [apply Hrows; vm_compute; reflexivity|].
  apply Hpassed. apply list_elem_of_In. vm_compute. left. reflexivity.
Defined.

Lemma pins_catch_up_witness :
  exists y p, run_system quiet_run start_system = Some y /\ heap (st y) !! 0%nat = Some p /\ workers (st y) <> [] /\ 3 <= p_height p.
Proof.
  exists (after quiet_run), (default (newPin [] 0) (heap (st (after quiet_run)) !! 0%nat)).
  assert (E : run_system quiet_run start_system = Some (after quiet_run)) by (vm_compute; reflexivity). split; [exact E|].
  split; [vm_compute; reflexivity|]. split; [vm_compute; discriminate|].
  apply (pins_catch_up quiet_run (after quiet_run) 0 (mkDispatcher 0 (Some 3)) 3 _ E); try (vm_compute; reflexivity).
  intros w Hw _. revert w Hw. apply Forall_forall. vm_compute. repeat constructor.
Defined.

Lemma complete_moves_to_gap_witness :
  exists p' d', complete Executed Executed 5 (mkPin tx_pin 4 [8; 6] 3) (mkDatabase {[ tx_pin := 4 ]} []) = (true, p', d') /\ p_height p' = 6.
Proof.
  destruct (complete_moves_to_gap 5 (mkPin tx_pin 4 [8; 6] 3) (mkDatabase {[ tx_pin := 4 ]} [])) as (p' & d' & E & _ & _);
    [unfold u64, MaxUint64; simpl; lia|repeat constructor; unfold u64, MaxUint64; simpl; lia|].
  exists p', d'. split; [exact E|]. vm_compute in E. injection E as <- _. reflexivity.
Defined.
