(* ===== verification/TxBuilder.v ===== *)
(** * Building and signing transactions: [core/txbuilder]

    Actions add inputs and outputs to a [TemplateBuilder] and register what to do when
    the template is built or given up; [Build] makes the template; [Sign] fills in
    signatures of programs that commit to the transaction ([witness.go],
    [constraint.go]); [FinalizeTx] checks that one of them commits to all of it.

    [W] is what actions change besides the builder: the reservations, the database.
    Following a nil pointer or an index out of range is a panic. *)

From Stdlib Require Import ZArith Lia Strings.Byte String.
From stdpp Require Import gmap.
From S2P Require Import Prelude Checked Crypto VMCode VMUtil Encoding Bc Legacy LegacyMap.

(** ** Errors and outcomes *)

Inductive berr :=
  | ErrBadRefData
  | ErrBadTxInputIdx
  | ErrBadWitnessComponent
  | ErrBadAmount
  | ErrBlankCheck
  | ErrAction (errs : list (nat * berr))
  | ErrMissingFields (names : list string)
  | ErrMissingRawTx
  | ErrBadInstructionCount
  | ErrEmptyProgram
  | ErrNoTxSighashCommitment
  | ErrNoTxSighashAttempt
  | ErrTxSignatureFailure
  | ErrSign
  | ErrOther.

Inductive bout (A : Type) := BOk (a : A) | BErr (e : berr) | BPanic.
Arguments BOk {A}. Arguments BErr {A}. Arguments BPanic {A}.

#[export] Instance bout_ret : MRet bout := @BOk.
#[export] Instance bout_bind : MBind bout := fun A B f m => match m with BOk a => f a | BErr e => BErr e | BPanic => BPanic end.

Definition or_panic {A} (o : option A) : bout A := match o with Some a => BOk a | None => BPanic end.

(** ** Times *)

(** Nanoseconds since 1970; the zero [time.Time] is the first of January of year 1. *)
Definition time_zero : Z := -62135596800 * 1000000000.

Definition Millis (t : Z) : Z := uint64 t / 1000000.

(** ** Templates: [types.go], [witness.go] *)

Record keyID := mkKeyID { XPub : bytes; DerivationPath : list bytes }.

Record signatureWitness := mkSW { Quorum : Z; Keys : list keyID; sw_Program : bytes; Sigs : list bytes }.

(** [SignatureWitnesses] are pointers: indices into the list of the witnesses made so far. *)
Record SigningInstruction := mkSI { Position : Z; SignatureWitnesses : list nat }.

Record Template := mkTemplate {
  Transaction : option LTx;
  SigningInstructions : list SigningInstruction;
  Local : bool;
  AllowAdditional : bool;
}.

Record Receiver := mkReceiver { r_ControlProgram : bytes; ExpiresAt : Z }.

(** ** The builder: [builder.go] *)

Record TemplateBuilder (W : Type) := mkTB {
  base : option TxData;
  tb_inputs : list TxInput;
  tb_outputs : list TxOutput;
  signingInstructions : list SigningInstruction;
  tb_minTime : Z;
  tb_maxTime : Z;
  tb_referenceData : bytes;
  rollbacks : list (W -> W);
  callbacks : list (W -> option berr * W);
}.
Arguments mkTB {W}. Arguments base {W}. Arguments tb_inputs {W}. Arguments tb_outputs {W}. Arguments signingInstructions {W}.
Arguments tb_minTime {W}. Arguments tb_maxTime {W}. Arguments tb_referenceData {W}. Arguments rollbacks {W}. Arguments callbacks {W}.

Section Builder.
Context {W : Type}.

(** An action changes the builder and the world, also when it fails. *)
Definition Action : Type := TemplateBuilder W -> W -> bout unit * TemplateBuilder W * W.

Definition NewBuilder (maxTime : Z) : TemplateBuilder W := mkTB None [] [] [] time_zero maxTime [] [] [].

Definition AddInput (inp : TxInput) (si : SigningInstruction) (b : TemplateBuilder W) : bout unit * TemplateBuilder W :=
  match TxInput_Amount inp with
  | None => (BPanic, b)
  | Some amount =>
      if MaxInt64 <? amount then (BErr ErrBadAmount, b)
      else (BOk tt, mkTB (base b) (tb_inputs b ++ [inp]) (tb_outputs b) (signingInstructions b ++ [si]) (tb_minTime b) (tb_maxTime b)
                      (tb_referenceData b) (rollbacks b) (callbacks b))
  end.

Definition AddOutput (o : TxOutput) (b : TemplateBuilder W) : bout unit * TemplateBuilder W :=
  if MaxInt64 <? Amount (oc_AssetAmount (to_OutputCommitment o)) then (BErr ErrBadAmount, b)
  else (BOk tt, mkTB (base b) (tb_inputs b) (tb_outputs b ++ [o]) (signingInstructions b) (tb_minTime b) (tb_maxTime b)
                  (tb_referenceData b) (rollbacks b) (callbacks b)).

Definition RestrictMinTime (t : Z) (b : TemplateBuilder W) : TemplateBuilder W :=
  if tb_minTime b <? t
  then mkTB (base b) (tb_inputs b) (tb_outputs b) (signingInstructions b) t (tb_maxTime b) (tb_referenceData b) (rollbacks b) (callbacks b)
  else b.

Definition RestrictMaxTime (t : Z) (b : TemplateBuilder W) : TemplateBuilder W :=
  if t <? tb_maxTime b
  then mkTB (base b) (tb_inputs b) (tb_outputs b) (signingInstructions b) (tb_minTime b) t (tb_referenceData b) (rollbacks b) (callbacks b)
  else b.

Definition OnRollback (f : W -> W) (b : TemplateBuilder W) : TemplateBuilder W :=
  mkTB (base b) (tb_inputs b) (tb_outputs b) (signingInstructions b) (tb_minTime b) (tb_maxTime b) (tb_referenceData b)
    (rollbacks b ++ [f]) (callbacks b).

Definition OnBuild (f : W -> option berr * W) (b : TemplateBuilder W) : TemplateBuilder W :=
  mkTB (base b) (tb_inputs b) (tb_outputs b) (signingInstructions b) (tb_minTime b) (tb_maxTime b) (tb_referenceData b)
    (rollbacks b) (callbacks b ++ [f]).

Definition differs (old new : bytes) : bool := negb (zlen old =? 0) && negb (bool_decide (old = new)).

Definition setReferenceData (data : bytes) (b : TemplateBuilder W) : bout unit * TemplateBuilder W :=
  if match base b with Some tx => differs (td_ReferenceData tx) data | None => false end then (BErr ErrBadRefData, b)
  else if differs (tb_referenceData b) data then (BErr ErrBadRefData, b)
  else (BOk tt, mkTB (base b) (tb_inputs b) (tb_outputs b) (signingInstructions b) (tb_minTime b) (tb_maxTime b) data
                  (rollbacks b) (callbacks b)).

Definition rollback (b : TemplateBuilder W) (w : W) : W := foldl (fun w f => f w) w (rollbacks b).

(** The callbacks run up to the first error. *)
Fixpoint run_callbacks (cbs : list (W -> option berr * W)) (w : W) : option berr * W :=
  match cbs with
  | [] => (None, w)
  | cb :: cbs => match cb w with (Some e, w) => (Some e, w) | (None, w) => run_callbacks cbs w end
  end.

(** The inputs are appended, and each instruction gets the position of its input. *)
Fixpoint place_inputs (pos : Z) (ins : list TxInput) (sis : list SigningInstruction) : option (list SigningInstruction) :=
  match ins, sis with
  | [], _ => Some []
  | _ :: ins, si :: sis => l ← place_inputs (pos + 1) ins sis; Some (mkSI (uint32 pos) (SignatureWitnesses si) :: l)
  | _ :: _, [] => None
  end.

(** The transaction that a builder makes of its base. *)
Definition built_tx (b : TemplateBuilder W) : TxData :=
  let tx := default (mkTxData 1 [] [] 0 0 [] [] []) (base b) in
  let minTime := if negb (tb_minTime b =? time_zero) && (MinTime tx <? Millis (tb_minTime b)) then Millis (tb_minTime b) else MinTime tx in
  let maxTime := if (MaxTime tx =? 0) || (Millis (tb_maxTime b) <? MaxTime tx) then Millis (tb_maxTime b) else MaxTime tx in
  let ref := if 0 <? zlen (tb_referenceData b) then tb_referenceData b else td_ReferenceData tx in
  mkTxData (td_Version tx) (Inputs tx ++ tb_inputs b) (Outputs tx ++ tb_outputs b) minTime maxTime
    (CommonFieldsSuffix tx) (CommonWitnessSuffix tx) ref.

Section Build.
Context `{Crypto} `{MapRange}.

Definition builder_Build (b : TemplateBuilder W) (w : W) : bout (Template * TxData) * W :=
  match run_callbacks (callbacks b) w with
  | (Some e, w) => (BErr e, w)
  | (None, w) =>
      let tx := built_tx b in
      (sis ← or_panic (place_inputs (zlen (from_option Inputs [] (base b))) (tb_inputs b) (signingInstructions b));
       t ← or_panic (NewTx tx);
       BOk (mkTemplate (Some t) sis (match base b with Some _ => false | None => true end) false, tx), w)
  end.

(** ** [txbuilder.go] *)

(** [assetMap[asset], ok = f(assetMap[asset], int64(amount))] *)
Definition add_asset (f : Z -> Z -> Z * bool) (m : gmap Hash Z) (asset : Hash) (amount : Z) : bout (gmap Hash Z) :=
  let '(v, ok) := f (default 0 (m !! asset)) (int64 amount) in
  if ok then BOk (<[asset := v]> m) else BErr ErrBadAmount.

Fixpoint add_inputs (m : gmap Hash Z) (ins : list TxInput) : bout (gmap Hash Z) :=
  match ins with
  | [] => BOk m
  | inp :: ins =>
      asset ← or_panic (TxInput_AssetID inp);
      amount ← or_panic (TxInput_Amount inp);
      m ← add_asset Checked.AddInt64 m asset amount;
      add_inputs m ins
  end.

Fixpoint sub_outputs (m : gmap Hash Z) (outs : list TxOutput) : bout (gmap Hash Z) :=
  match outs with
  | [] => BOk m
  | out :: outs =>
      let a := oc_AssetAmount (to_OutputCommitment out) in
      asset ← or_panic (AssetId a);
      m ← add_asset Checked.SubInt64 m asset (Amount a);
      sub_outputs m outs
  end.

Definition checkBlankCheck (tx : TxData) : bout unit :=
  m ← add_inputs ∅ (Inputs tx);
  m ← sub_outputs m (Outputs tx);
  let requiresOutputs := bool_decide (map_Exists (fun _ amt => 0 < amt) m) in
  let requiresInputs := bool_decide (map_Exists (fun _ amt => amt < 0) m) in
  if requiresOutputs && negb requiresInputs then BErr ErrBlankCheck else BOk tt.

(** The loop over the actions, with the errors and their positions. *)
Fixpoint build_actions (i : nat) (actions : list Action) (b : TemplateBuilder W) (w : W) : bout (list (nat * berr)) * TemplateBuilder W * W :=
  match actions with
  | [] => (BOk [], b, w)
  | a :: actions =>
      match a b w with
      | (BPanic, b, w) => (BPanic, b, w)
      | (r, b, w) =>
          match build_actions (S i) actions b w with
          | (BOk errs, b, w) => (BOk (match r with BErr e => (i, e) :: errs | _ => errs end), b, w)
          | o => o
          end
      end
  end.

(** The outcome, what the caller's transaction is afterwards, and the world. *)
Definition Build (tx : option TxData) (actions : list Action) (maxTime : Z) (w : W) : bout Template * option TxData * W :=
  match build_actions 0 actions (mkTB tx [] [] [] time_zero maxTime [] [] []) w with
  | (BPanic, _, w) => (BPanic, tx, w)
  | (BErr e, _, w) => (BErr e, tx, w)
  | (BOk (e :: errs), b, w) => (BErr (ErrAction (e :: errs)), tx, rollback b w)
  | (BOk [], b, w) =>
      match builder_Build b w with
      | (BPanic, w) => (BPanic, tx, w)
      | (BErr e, w) => (BErr e, tx, rollback b w)
      | (BOk (tpl, tx'), w) =>
          let base := (fun _ => tx') <$> tx in
          match checkBlankCheck tx' with
          | BPanic => (BPanic, base, w)
          | BErr e => (BErr e, base, rollback b w)
          | BOk _ => (BOk tpl, base, w)
          end
      end
  end.
End Build.

(** ** Actions: [actions.go] *)

Definition retirementProgram : bytes := VMUtil.Program (VMUtil.AddOp VMUtil.NewBuilder OP_FAIL).

Definition zero_asset (a : AssetAmount) : bool := IsZero (AssetId a).

(** [MissingFieldsError(missing...)] unless nothing is missing *)
Definition missing (l : list (bool * string)) : list string := omap (fun p : bool * string => if p.1 then Some p.2 else None) l.

Definition with_output (o : TxOutput) (b : TemplateBuilder W) (w : W) : bout unit * TemplateBuilder W * W := (AddOutput o b, w).

Definition controlReceiverAction_Build (aa : AssetAmount) (receiver : option Receiver) (ref : bytes) : Action := fun b w =>
  let m := match receiver with
           | None => ["receiver"%string]
           | Some r => missing [(zlen (r_ControlProgram r) =? 0, "receiver.control_program"%string); (ExpiresAt r =? time_zero, "receiver.expires_at"%string)]
           end ++ missing [(zero_asset aa, "asset_id"%string)] in
  match m, receiver, AssetId aa with
  | [], Some r, Some id => with_output (NewTxOutput id (Amount aa) (r_ControlProgram r) ref) (RestrictMaxTime (ExpiresAt r) b) w
  | [], _, _ => (BPanic, b, w)
  | _, _, _ => (BErr (ErrMissingFields m), b, w)
  end.

Definition controlProgramAction_Build (aa : AssetAmount) (program ref : bytes) : Action := fun b w =>
  let m := missing [(zlen program =? 0, "control_program"%string); (zero_asset aa, "asset_id"%string)] in
  match m, AssetId aa with
  | [], Some id => with_output (NewTxOutput id (Amount aa) program ref) b w
  | [], None => (BPanic, b, w)
  | _, _ => (BErr (ErrMissingFields m), b, w)
  end.

Definition setTxRefDataAction_Build (data : bytes) : Action := fun b w =>
  if zlen data =? 0 then (BErr (ErrMissingFields ["reference_data"%string]), b, w) else (setReferenceData data b, w).

Definition retireAction_Build (aa : AssetAmount) (ref : bytes) : Action := fun b w =>
  let m := missing [(zero_asset aa, "asset_id"%string); (Amount aa =? 0, "amount"%string)] in
  match m, AssetId aa with
  | [], Some id => with_output (NewTxOutput id (Amount aa) retirementProgram ref) b w
  | [], None => (BPanic, b, w)
  | _, _ => (BErr (ErrMissingFields m), b, w)
  end.
End Builder.
