(* ===== verification/TxSign.v ===== *)
(** * Signing and finalizing transactions: [core/txbuilder]

    [witness.go], [constraint.go], [Sign] of [txbuilder.go], the decoding of signing
    instructions of [types.go], and [finalize.go].

    A [signatureWitness] is an object that instructions point to: [sws] lists the ones
    made so far and a pointer is an index.  The function that computes signatures is a
    parameter: it changes a world [W] and can fail. *)

From Stdlib Require Import ZArith Lia Strings.Byte String.
From stdpp Require Import gmap.
From S2P Require Import Prelude Checked Crypto VMCode VMUtil Encoding Bc Legacy LegacyMap TxBuilder.

Notation witnesses := (list signatureWitness).

Section Sign.
Context `{Crypto}.

(** ** Constraints: [constraint.go] *)

Inductive constraint :=
| timeConstraint (minTimeMS maxTimeMS : Z)
| outputIDConstraint (id : Hash)
| refdataConstraint (data : bytes) (tx : bool)
| payConstraint (Index : Z) (aa : AssetAmount) (prog : bytes) (RefDataHash : option Hash).

Definition time_code (minTimeMS maxTimeMS : Z) : bytes :=
  if (minTimeMS =? 0) && (maxTimeMS =? 0) then [byte_of_Z OP_TRUE]
  else
    let b := VMUtil.NewBuilder in
    let b := if 0 <? minTimeMS
             then AddOp (AddInt64 (AddOp b OP_MINTIME) (int64 minTimeMS)) OP_GREATERTHANOREQUAL else b in
    let b := if 0 <? maxTimeMS
             then let b := if 0 <? minTimeMS then AddOp b OP_VERIFY else b in
                  AddOp (AddInt64 (AddOp b OP_MAXTIME) (int64 maxTimeMS)) OP_LESSTHANOREQUAL
             else b in
    VMUtil.Program b.

Definition outputID_code (id : Hash) : bytes :=
  VMUtil.Program (AddOp (AddOp (AddData VMUtil.NewBuilder (Bytes id)) OP_OUTPUTID) OP_EQUAL).

Definition refdata_code (data : bytes) (tx : bool) : bytes :=
  let b := AddData VMUtil.NewBuilder (sha3_256_sum data) in
  VMUtil.Program (AddOp (AddOp b (if tx then OP_TXDATA else OP_ENTRYDATA)) OP_EQUAL).

(** A nil asset ID is a panic. *)
Definition pay_code (Index : Z) (aa : AssetAmount) (prog : bytes) (RefDataHash : option Hash) : option bytes :=
  asset ← AssetId aa;
  let b := AddInt64 VMUtil.NewBuilder Index in
  let b := match RefDataHash with None => AddData b [] | Some h => AddData b (Bytes h) end in
  let b := AddData (AddInt64 (AddData (AddInt64 b (int64 (Amount aa))) (Bytes asset)) 1) prog in
  Some (VMUtil.Program (AddOp b OP_CHECKOUTPUT)).

Definition code (c : constraint) : option bytes :=
  match c with
  | timeConstraint mn mx => Some (time_code mn mx)
  | outputIDConstraint id => Some (outputID_code id)
  | refdataConstraint d tx => Some (refdata_code d tx)
  | payConstraint i aa p h => pay_code i aa p h
  end.

(** ** Signature programs: [witness.go] *)

Definition Template_Hash (t : Template) (idx : nat) : option Hash := tx ← Transaction t; SigHash (lt_Tx tx) idx.

(** [append(program, c.code()...)] and, but for the last one, [OP_VERIFY] *)
Fixpoint join_code (cs : list constraint) : option bytes :=
  match cs with
  | [] => Some []
  | [c] => code c
  | c :: cs => p ← code c; rest ← join_code cs; Some (p ++ byte_of_Z OP_VERIFY :: rest)
  end.

Definition out_constraint (i : nat) (out : TxOutput) : constraint :=
  let oc := to_OutputCommitment out in
  payConstraint (Z.of_nat i) (oc_AssetAmount oc) (oc_ControlProgram oc)
    (if 0 <? zlen (to_ReferenceData out) then Some (NewHash (sha3_256_sum (to_ReferenceData out))) else None).

Definition constraints_of (tx : LTx) (index : nat) : option (list constraint) :=
  let data := lt_TxData tx in
  id ← InputIDs (lt_Tx tx) !! index;
  sp ← match Tx_Spend (lt_Tx tx) id with
       | Ok sp => o ← SpentOutputId sp; Some [outputIDConstraint o]
       | Err _ => Some []
       end;
  inp ← Inputs data !! index;
  Some ([timeConstraint (MinTime data) (MaxTime data)] ++ sp
        ++ (if 0 <? zlen (td_ReferenceData data) then [refdataConstraint (td_ReferenceData data) true] else [])
        ++ [refdataConstraint (ti_ReferenceData inp) false]
        ++ imap out_constraint (Outputs data)).

(** [None] is a panic. *)
Definition buildSigProgram (tpl : Template) (index : nat) : option bytes :=
  if negb (AllowAdditional tpl) then
    h ← Template_Hash tpl index;
    Some (VMUtil.Program (AddOp (AddOp (AddData VMUtil.NewBuilder (Bytes h)) OP_TXSIGHASH) OP_EQUAL))
  else
    tx ← Transaction tpl;
    cs ← constraints_of tx index;
    join_code cs.

Definition contains (l : list bytes) (key : bytes) : bool := existsb (fun k => bool_decide (k = key)) l.

Section SignFunc.
Context {W : Type}.

(** The public key, the derivation path and the hash to sign. *)
Definition SignFunc : Type := bytes -> list bytes -> bytes -> W -> option bytes * W.

(** The loop over the keys, from key [i] on. *)
Fixpoint sign_keys (i : nat) (keys : list keyID) (h : bytes) (xpubs : list bytes) (signFn : SignFunc) (sigs : list bytes) (w : W) :
    bout unit * list bytes * W :=
  match keys with
  | [] => (BOk tt, sigs, w)
  | k :: keys =>
      match sigs !! i with
      | None => (BPanic, sigs, w)
      | Some sig =>
          if (0 <? zlen sig) || negb (contains xpubs (XPub k)) then sign_keys (S i) keys h xpubs signFn sigs w
          else
            match signFn (XPub k) (DerivationPath k) h w with
            | (None, w) => (BErr ErrSign, sigs, w)
            | (Some s, w) => sign_keys (S i) keys h xpubs signFn (<[i := s]> sigs) w
            end
      end
  end.

(** [make] and [copy]: the slots that are missing are empty. *)
Definition sig_slots (sw : signatureWitness) : list bytes := Sigs sw ++ replicate (length (Keys sw) - length (Sigs sw)) [].

(** The witness is changed also when an error is returned. *)
Definition sign (sw : signatureWitness) (tpl : Template) (index : nat) (xpubs : list bytes) (signFn : SignFunc) (w : W) :
    bout unit * signatureWitness * W :=
  let prog := if zlen (sw_Program sw) =? 0
              then si ← SigningInstructions tpl !! index; buildSigProgram tpl (Z.to_nat (Position si))
              else Some (sw_Program sw) in
  match prog with
  | None => (BPanic, sw, w)
  | Some p =>
      if zlen p =? 0 then (BErr ErrEmptyProgram, mkSW (Quorum sw) (Keys sw) p (Sigs sw), w)
      else
        match sign_keys 0 (Keys sw) (sha3_256_sum p) xpubs signFn (sig_slots sw) w with
        | (r, sigs, w) => (r, mkSW (Quorum sw) (Keys sw) p sigs, w)
        end
  end.

(** ** [Sign]: [txbuilder.go] *)

Fixpoint sign_witnesses (tpl : Template) (index : nat) (ptrs : list nat) (xpubs : list bytes) (signFn : SignFunc) (sws : witnesses) (w : W) :
    bout unit * witnesses * W :=
  match ptrs with
  | [] => (BOk tt, sws, w)
  | p :: ptrs =>
      match sws !! p with
      | None => (BPanic, sws, w)
      | Some sw =>
          match sign sw tpl index xpubs signFn w with
          | (BOk _, sw, w) => sign_witnesses tpl index ptrs xpubs signFn (<[p := sw]> sws) w
          | (r, sw, w) => (r, <[p := sw]> sws, w)
          end
      end
  end.

Fixpoint sign_instructions (tpl : Template) (index : nat) (sis : list SigningInstruction) (xpubs : list bytes) (signFn : SignFunc)
    (sws : witnesses) (w : W) : bout unit * witnesses * W :=
  match sis with
  | [] => (BOk tt, sws, w)
  | si :: sis =>
      match sign_witnesses tpl index (SignatureWitnesses si) xpubs signFn sws w with
      | (BOk _, sws, w) => sign_instructions tpl (S index) sis xpubs signFn sws w
      | o => o
      end
  end.

(** The first [quorum] signatures that are there. *)
Fixpoint take_sigs (sigs : list bytes) (nsigs quorum : Z) : list bytes :=
  match sigs with
  | [] => []
  | s :: sigs =>
      if nsigs <? quorum
      then if 0 <? zlen s then s :: take_sigs sigs (nsigs + 1) quorum else take_sigs sigs nsigs quorum
      else []
  end.

Definition materialize (sw : signatureWitness) (args : list bytes) : list bytes :=
  args ++ [int64_bytes (zlen args)] ++ take_sigs (Sigs sw) 0 (Quorum sw) ++ [sw_Program sw].

Fixpoint materialize_all (sws : witnesses) (ptrs : list nat) (args : list bytes) : option (list bytes) :=
  match ptrs with
  | [] => Some args
  | p :: ptrs => sw ← sws !! p; materialize_all sws ptrs (materialize sw args)
  end.

(** The transaction is changed input by input. *)
Fixpoint materialize_instructions (sws : witnesses) (sis : list SigningInstruction) (tx : LTx) : bout unit * LTx :=
  match sis with
  | [] => (BOk tt, tx)
  | si :: sis =>
      let pos := Z.to_nat (Position si) in
      match Inputs (lt_TxData tx) !! pos with
      | None => (BPanic, tx)
      | Some _ =>
          match materialize_all sws (SignatureWitnesses si) [] with
          | None => (BPanic, tx)
          | Some witness =>
              match SetInputArguments tx pos witness with
              | None => (BPanic, tx)
              | Some tx => materialize_instructions sws sis tx
              end
          end
      end
  end.

Definition set_Transaction (tpl : Template) (tx : LTx) : Template :=
  mkTemplate (Some tx) (SigningInstructions tpl) (Local tpl) (AllowAdditional tpl).

Definition materializeWitnesses (tpl : Template) (sws : witnesses) : bout unit * Template :=
  match Transaction tpl with
  | None => (BErr ErrMissingRawTx, tpl)
  | Some msg =>
      if zlen (Inputs (lt_TxData msg)) <? zlen (SigningInstructions tpl) then (BErr ErrBadInstructionCount, tpl)
      else let '(r, tx) := materialize_instructions sws (SigningInstructions tpl) msg in (r, set_Transaction tpl tx)
  end.

Definition Sign (tpl : Template) (xpubs : list bytes) (signFn : SignFunc) (sws : witnesses) (w : W) : bout unit * Template * witnesses * W :=
  match sign_instructions tpl 0 (SigningInstructions tpl) xpubs signFn sws w with
  | (BOk _, sws, w) => let '(r, tpl) := materializeWitnesses tpl sws in (r, tpl, sws, w)
  | (r, sws, w) => (r, tpl, sws, w)
  end.
End SignFunc.

(** [AddWitnessKeys] makes a new witness. *)
Definition AddWitnessKeys (si : SigningInstruction) (xpubs : list bytes) (path : list bytes) (quorum : Z) (sws : witnesses) :
    SigningInstruction * witnesses :=
  (mkSI (Position si) (SignatureWitnesses si ++ [length sws]),
   sws ++ [mkSW quorum (map (fun xpub => mkKeyID xpub path) xpubs) [] []]).

(** ** Decoding signing instructions: [types.go]

    [pre] is what [json.Unmarshal] read.  The loop variable of the [range] is one
    variable, which holds the components one after the other, and what is appended is
    its address: every component of the result is that one object. *)
Fixpoint decode_components (p : nat) (pre : list (string * signatureWitness)) (sws : witnesses) : bout (list nat) * witnesses :=
  match pre with
  | [] => (BOk [], sws)
  | (typ, sw) :: pre =>
      let sws := <[p := sw]> sws in
      if String.eqb typ "signature" then
        match decode_components p pre sws with
        | (BOk ptrs, sws) => (BOk (p :: ptrs), sws)
        | o => o
        end
      else (BErr ErrBadWitnessComponent, sws)
  end.

Definition SigningInstruction_UnmarshalJSON (pre : Z * list (string * signatureWitness)) (sws : witnesses) :
    bout SigningInstruction * witnesses :=
  match decode_components (length sws) pre.2 (sws ++ [mkSW 0 [] [] []]) with
  | (BOk ptrs, sws) => (BOk (mkSI pre.1 ptrs), sws)
  | (BErr e, sws) => (BErr e, sws)
  | (BPanic, sws) => (BPanic, sws)
  end.

(** ** The commitment to the transaction: [finalize.go] *)

(** Why one input does not commit to the transaction ([None] inside: it does);
    [None] is a panic of [SigHash]. *)
Definition input_commits (tx : LTx) (i : nat) (inp : TxInput) : option (option berr) :=
  let args := TxInput_Arguments inp in
  if zlen args =? 0 then Some (Some ErrNoTxSighashAttempt)
  else if zlen args <? 3 then Some (Some ErrTxSignatureFailure)
  else
    let prog := List.last args [] in
    if negb (zlen prog =? 35) then Some (Some ErrNoTxSighashCommitment)
    else if negb (at_ prog 0 =? OP_DATA 32) then Some (Some ErrNoTxSighashCommitment)
    else if negb (bool_decide (drop 33 prog = [byte_of_Z OP_TXSIGHASH; byte_of_Z OP_EQUAL])) then Some (Some ErrNoTxSighashCommitment)
    else
      h ← SigHash (lt_Tx tx) i;
      if negb (bool_decide (Bytes h = subslice 1 33 prog)) then Some (Some ErrNoTxSighashCommitment) else Some None.

Fixpoint check_commitments (tx : LTx) (i : nat) (ins : list TxInput) (lastError : option berr) : option (option berr) :=
  match ins with
  | [] => Some lastError
  | inp :: ins =>
      r ← input_commits tx i inp;
      match r with None => Some None | Some e => check_commitments tx (S i) ins (Some e) end
  end.

(** The error, if any. *)
Definition checkTxSighashCommitment (tx : LTx) : option (option berr) := check_commitments tx 0 (Inputs (lt_TxData tx)) None.
End Sign.
