(* ===== verification/VMLogic.v ===== *)
(** * A logic for straight-line programs

    What a run that succeeds says about the machine, for programs without jumps.  Costs
    are forgotten: a [core] is a machine without its accounts.  [tri m c Q]: if [m]
    returns, started in [c], then [Q] holds.  The operands known to be on a stack are
    described by [item]s; a [block] is a piece of a program that replaces operands and,
    when the run as a whole succeeds, establishes a fact. *)

From Stdlib Require Import ZArith Lia Strings.Byte.
From S2P Require Import Prelude Checked GoSlice Crypto VMCode VM VMRun VMExec VMCost VMSpec.

(** ** Stores that only grow *)

(** The contents of a slice do not depend on later allocations. *)
Definition stable (h : heap) (s : slice) : Prop := s_len s = 0%nat \/ wf_slice h s.

Lemma stable_grows h h' s : h `prefix_of` h' -> stable h s -> stable h' s.
Proof.
  intros [e ->] [|Hw]; [by left|right]. eapply wf_slice_mono; [|done]. intros i a Ha. exists a. split; [|done]. by apply lookup_app_l_Some.
Qed.

Lemma sbytes_grows h h' s : h `prefix_of` h' -> stable h s -> sbytes h' s = sbytes h s.
Proof.
  intros [e ->] Hs. unfold sbytes, arr. destruct Hs as [->|(a & Ha & _)]; [done|]. by rewrite lookup_app_l by (by eapply lookup_lt_Some).
Qed.

Lemma stable_len h s : stable h s -> slen s = zlen (sbytes h s).
Proof.
  unfold slen, zlen. intros [Hl|Hw]; [|by rewrite length_sbytes]. unfold sbytes. by rewrite Hl.
Qed.

Lemma new_slice_grows h bs :
  h `prefix_of` (new_slice h bs).2 /\ stable (new_slice h bs).2 (new_slice h bs).1 /\
  sbytes (new_slice h bs).2 (new_slice h bs).1 = bs.
Proof.
  split; [by eexists|]. split; [|apply alloc_bytes]. right. by apply alloc_wf.
Qed.

Lemma Int64Bytes_grows n h :
  h `prefix_of` (Int64Bytes n h).2 /\ stable (Int64Bytes n h).2 (Int64Bytes n h).1.
Proof.
  unfold Int64Bytes. destruct (n =? 0) eqn:En; [split; [done|by left]|].
  destruct (new_slice_grows h (le_put 8 (uint64 n))) as (Hp & _ & _).
  pose proof (alloc_wf h (le_put 8 (uint64 n)) (length (le_put 8 (uint64 n))) (le_n _)) as Hw. unfold new_slice in *.
  destruct (alloc h _ _) as [s h'] eqn:E. cbn [fst snd] in *. split; [done|]. right. apply reslice_wf; [|done].
  assert (s_len s = length (le_put 8 (uint64 n))) as -> by (by injection E as <- _).
  split; [lia|]. rewrite length_le_put. pose proof (zlen_int64_bytes n). unfold zlen in *. lia.
Qed.

(** ** Cores and triples *)

Record core := mkCore {
  k_ctx : Context;
  k_prog : slice;
  k_next : Z;
  k_xr : bool;
  k_data : bytes;
  k_ds : list slice;
  k_as : list slice;
  k_mem : heap;
}.

Definition core_of (v : virtualMachine) : core :=
  mkCore (context v) (program v) (nextPC v) (expansionReserved v) (data v) (dataStack v) (altStack v) (mem v).

Definition with_ds ds c := mkCore (k_ctx c) (k_prog c) (k_next c) (k_xr c) (k_data c) ds (k_as c) (k_mem c).
Definition with_as as' c := mkCore (k_ctx c) (k_prog c) (k_next c) (k_xr c) (k_data c) (k_ds c) as' (k_mem c).
Definition with_mem h c := mkCore (k_ctx c) (k_prog c) (k_next c) (k_xr c) (k_data c) (k_ds c) (k_as c) h.

Definition tri {A} (m : M A) (c : core) (Q : A -> core -> Prop) : Prop :=
  forall v a v', core_of v = c -> m v = (Ret a, v') -> Q a (core_of v').

Section Rules.
Context {A : Type}.
Implicit Types (Q : A -> core -> Prop).

Lemma tri_ret (a : A) c Q : Q a c -> tri (mret a) c Q.
Proof. by intros HQ v a' v' <- [= <- <-]. Qed.

Lemma tri_bind {B} (m : M B) (f : B -> M A) c Q :
  tri m c (fun b c => tri (f b) c Q) -> tri (m ≫= f) c Q.
Proof.
  intros Hm v a v' Hc E. unfold mbind, M_bind in E. destruct (m v) as [[b|e| |] v1] eqn:E1; try done.
  by apply (Hm _ _ _ Hc E1 _ _ _ eq_refl).
Qed.

Lemma tri_weaken (m : M A) c Q (R : A -> core -> Prop) : tri m c R -> (forall a c, R a c -> Q a c) -> tri m c Q.
Proof. intros Hm HQ v a v' Hc E. eapply HQ, Hm; eauto. Qed.

Lemma tri_fail e c Q : tri (fail e) c Q.
Proof. by intros v a v' _ E. Qed.

Lemma tri_panic c Q : tri panic c Q.
Proof. by intros v a v' _ E. Qed.

Lemma tri_gets (f : virtualMachine -> A) c Q : (forall v, core_of v = c -> Q (f v) c) -> tri (gets f) c Q.
Proof. intros HQ v a v' Hc [= <- <-]. rewrite Hc. by apply HQ. Qed.

Lemma tri_store (f : heap -> A * heap) c Q : Q (f (k_mem c)).1 (with_mem (f (k_mem c)).2 c) -> tri (store f) c Q.
Proof. intros HQ v a v' <- E. unfold store in E. cbn in HQ. destruct (f (mem v)) as [a' h]. by injection E as <- <-. Qed.

Lemma tri_of_result (r : result vmerr A) c Q : (forall a, r = Ok a -> Q a c) -> tri (of_result r) c Q.
Proof. intros HQ v a v' <- E. destruct r; [|done]. injection E as <- <-. by apply HQ. Qed.
End Rules.

Lemma tri_modify f c (Q : unit -> core -> Prop) :
  (forall v, core_of v = c -> Q tt (core_of (f v))) -> tri (modify f) c Q.
Proof. intros HQ v [] v' Hc [= <-]. by apply HQ. Qed.

Lemma tri_applyCost n c (Q : unit -> core -> Prop) : Q tt c -> tri (applyCost n) c Q.
Proof. intros HQ v [] v' <- E. unfold applyCost in E. case_match; [done|]. by injection E as <-. Qed.

Lemma tri_deferCost n c (Q : unit -> core -> Prop) : Q tt c -> tri (deferCost n) c Q.
Proof. intros HQ. apply tri_modify. by intros v <-. Qed.

Lemma tri_push s d c (Q : unit -> core -> Prop) : Q tt (with_ds (s :: k_ds c) c) -> tri (push s d) c Q.
Proof.
  intros HQ. apply tri_bind. assert (tri (stack_push s) c Q) by (apply tri_modify; by intros v <-).
  destruct d; [by apply tri_deferCost|by apply tri_applyCost].
Qed.

Lemma tri_pop d c (Q : slice -> core -> Prop) :
  (forall s rest, k_ds c = s :: rest -> Q s (with_ds rest c)) -> tri (pop d) c Q.
Proof.
  intros HQ v a v' <- E. unfold pop in E. destruct (dataStack v) as [|s rest] eqn:Ed; [done|].
  destruct d; injection E as <- <-; by apply HQ.
Qed.

Lemma tri_contents s c (Q : bytes -> core -> Prop) : Q (sbytes (k_mem c) s) c -> tri (contents s) c Q.
Proof. intros HQ. apply tri_gets. by intros v <-. Qed.

Lemma tri_require ok e c (Q : unit -> core -> Prop) : (ok = true -> Q tt c) -> tri (require ok e) c Q.
Proof. intros HQ. destruct ok; [by apply tri_ret, HQ|apply tri_fail]. Qed.

Lemma tri_popInt64 d c (Q : Z -> core -> Prop) :
  (forall s rest n, k_ds c = s :: rest -> AsInt64 (sbytes (k_mem c) s) = Ok n -> Q n (with_ds rest c)) ->
  tri (popInt64 d) c Q.
Proof.
  intros HQ. apply tri_bind, tri_pop. intros s rest Hs. apply tri_bind, tri_contents, tri_of_result. eauto.
Qed.

(** ** Operands *)

(** A byte string, an integer, or a boolean that an instruction has left. *)
Inductive item := Bs (bs : bytes) | Int (n : Z) | Flag (b : bool).

Definition holds (h : heap) (s : slice) (i : item) : Prop :=
  match i with
  | Bs bs => stable h s /\ sbytes h s = bs
  | Int n => stable h s /\ AsInt64 (sbytes h s) = Ok n
  | Flag b => s = BoolBytes b
  end.

(** What is known of an item that was found true. *)
Definition truthy (i : item) : Prop :=
  match i with Bs bs => AsBool bs = true | Int _ => True | Flag b => b = true end.

Lemma holds_truthy h s i : holds h s i -> AsBool (sbytes h s) = true -> truthy i.
Proof. destruct i as [bs|n|b]; [by intros [_ <-]|done|]. by intros ->; destruct b. Qed.

Lemma holds_grows h h' s i : h `prefix_of` h' -> holds h s i -> holds h' s i.
Proof.
  intros Hp. destruct i; [| |done]; intros [Hs Hb]; (split; [by eapply stable_grows|by rewrite (sbytes_grows h h')]).
Qed.

(** The stack [ss] has the items [its] on top of [rest]. *)
Definition stacked (h : heap) (ss : list slice) (its : list item) (rest : list slice) : Prop :=
  exists l, ss = l ++ rest /\ Forall2 (holds h) l its.

Lemma stacked_grows h h' ss its rest : h `prefix_of` h' -> stacked h ss its rest -> stacked h' ss its rest.
Proof. intros Hp (l & E & HF). exists l. split; [done|]. eapply Forall2_impl; [done|]. intros. by eapply holds_grows. Qed.

Lemma stacked_cons h ss i its rest :
  stacked h ss (i :: its) rest <-> exists s ss', ss = s :: ss' /\ holds h s i /\ stacked h ss' its rest.
Proof.
  split.
  - intros (l & -> & HF). apply Forall2_cons_inv_r in HF as (s & l' & Hs & HF & ->). exists s, (l' ++ rest). split; [done|]. split; [done|]. by exists l'.
  - intros (s & ss' & -> & Hs & l & -> & HF). exists (s :: l). split; [done|by constructor].
Qed.

Lemma stacked_nil h rest : stacked h rest [] rest.
Proof. by exists []. Qed.

Lemma stacked_app h ss a b rest :
  stacked h ss (a ++ b) rest <-> exists mid, stacked h ss a mid /\ stacked h mid b rest.
Proof.
  split.
  - intros (l & -> & HF). apply Forall2_app_inv_r in HF as (l1 & l2 & H1 & H2 & ->).
    exists (l2 ++ rest). split; [exists l1; by rewrite app_assoc|by exists l2].
  - intros (mid & (l1 & -> & H1) & l2 & -> & H2). exists (l1 ++ l2). split; [by rewrite app_assoc|by apply Forall2_app].
Qed.

#[export] Hint Resolve stacked_nil : core.

(** ** Instructions and blocks *)

(** What an instruction of a straight-line program leaves alone. *)
Record keeps (c c' : core) : Prop := {
  keeps_ctx : k_ctx c' = k_ctx c;
  keeps_prog : k_prog c' = k_prog c;
  keeps_next : k_next c' = k_next c;
  keeps_xr : k_xr c' = k_xr c;
  keeps_mem : k_mem c `prefix_of` k_mem c';
}.

(** The items known on the data stack and on the other one. *)
Notation stacks := (list item * list item)%type.

Definition on_stacks (c : core) (st : stacks) (rest : list slice * list slice) : Prop :=
  stacked (k_mem c) (k_ds c) st.1 rest.1 /\ stacked (k_mem c) (k_as c) st.2 rest.2.

(** Nothing, or everything, is known of the rest of the stacks. *)
Definition any_rest (rest : list slice * list slice) : Prop := True.
Definition no_rest (rest : list slice * list slice) : Prop := rest = ([], []).

Section Blocks.
Context `{Runtime} `{Crypto}.
(** The context of the run, the store it was made in, the flag of the machine, and what
    is known of the rest of the stacks. *)
Context (ctx : Context) (h0 : heap) (xr : bool) (R : list slice * list slice -> Prop).

(** The instruction [m] with operand [d] replaces [ins] by [outs] and tells [Q]. *)
Definition does (m : M unit) (d : bytes) (ins outs : stacks) (Q : Prop) : Prop :=
  forall c rest, k_ctx c = ctx -> h0 `prefix_of` k_mem c -> k_xr c = xr -> k_data c = d -> R rest -> on_stacks c ins rest ->
  tri m c (fun _ c' => keeps c c' /\ on_stacks c' outs rest /\ Q).

(** The machine is about to execute [code], which comes after [pre]. *)
Record at_code (v : virtualMachine) (pre code : bytes) : Prop := {
  at_ctx : context v = ctx;
  at_heap : h0 `prefix_of` mem v;
  at_xr : expansionReserved v = xr;
  at_stable : stable (mem v) (program v);
  at_bytes : sbytes (mem v) (program v) = pre ++ code;
  at_len : slen (program v) = zlen (pre ++ code);
  at_pc : pc v = zlen pre;
  at_small : zlen (pre ++ code) <= MaxInt32;
}.

Definition block (code : bytes) (ins outs : stacks) (Q : Prop) : Prop :=
  forall fuel v vf pre suf rest,
    at_code v pre (code ++ suf) -> R rest -> on_stacks (core_of v) ins rest -> run_loop fuel v = (Ret tt, vf) ->
    Q /\ exists fuel' v', at_code v' (pre ++ code) suf /\ mem v `prefix_of` mem v' /\
      on_stacks (core_of v') outs rest /\ run_loop fuel' v' = (Ret tt, vf).

(** One more turn of the loop. *)
Lemma run_loop_step fuel v vf pre code inst suf :
  at_code v pre (code ++ suf) -> encodes code inst -> run_loop fuel v = (Ret tt, vf) ->
  exists n v1, step (run n) v = (Ret tt, v1) /\ run_loop n v1 = (Ret tt, vf).
Proof.
  intros Ha (El & Epos & _) Hr. destruct fuel as [|n]; [done|]. cbn [run_loop] in Hr.
  rewrite (at_pc _ _ _ Ha), (at_len _ _ _ Ha) in Hr. pose proof (at_small _ _ _ Ha) as Hs.
  autorewrite with zlen in *. pose proof (zlen_nonneg pre). pose proof (zlen_nonneg suf). pose proof (zlen_nonneg code).
  rewrite uint32_id in Hr by (unfold_int; lia). rewrite (proj2 (Z.ltb_lt _ _)) in Hr by lia.
  unfold mbind at 1, M_bind at 1 in Hr. destruct (step _ v) as [[[]|e| |] v1] eqn:E; try done. by exists n, v1.
Qed.

Lemma step_core n v v1 pre code inst suf fn :
  at_code v pre (code ++ suf) -> encodes code inst -> ops (run n) (Op inst) = Some fn -> step (run n) v = (Ret tt, v1) ->
  exists v2, fn (set_data (Data inst) (set_deferredCost 0 (set_nextPC (zlen (pre ++ code)) v))) = (Ret tt, v2) /\
    core_of v1 = core_of v2 /\ pc v1 = nextPC v2.
Proof.
  intros Ha (El & Epos & Hparse) Hop Hst. unfold step in Hst. pose proof (at_small _ _ _ Ha) as Hs.
  rewrite (at_bytes _ _ _ Ha), (at_pc _ _ _ Ha), Hparse in Hst by done.
  autorewrite with zlen in Hs. pose proof (zlen_nonneg pre). pose proof (zlen_nonneg suf). pose proof (zlen_nonneg code).
  rewrite El, <- zlen_app, uint32_id in Hst by (autorewrite with zlen; unfold_int; lia).
  unfold mbind, M_bind, modify, gets in Hst. rewrite Hop in Hst. cbv beta iota in Hst.
  destruct (fn _) as [[[]|e| |] v2] eqn:Ef; try done. exists v2. split; [done|].
  unfold applyCost in Hst. destruct (runLimit v2 <? deferredCost v2); [done|]. by injection Hst as <-.
Qed.

Lemma block_op code inst ins outs Q :
  encodes code inst -> (forall n, exists fn, ops (run n) (Op inst) = Some fn /\ does fn (Data inst) ins outs Q) ->
  block code ins outs Q.
Proof.
  intros He Hop fuel v vf pre suf rest Ha HR Hst Hr.
  destruct (run_loop_step _ _ _ _ _ _ _ Ha He Hr) as (n & v1 & Hs & Hr1).
  destruct (Hop n) as (fn & Hfn & Hd).
  destruct (step_core _ _ _ _ _ _ _ _ Ha He Hfn Hs) as (v2 & Hf & Hc & Hpc).
  destruct Ha as [A1 A2 A3 A4 A5 A6 A7 A8].
  destruct (Hd (core_of (set_data (Data inst) (set_deferredCost 0 (set_nextPC (zlen (pre ++ code)) v)))) rest
    A1 A2 A3 eq_refl HR Hst _ _ _ eq_refl Hf) as ([K1 K2 K3 K4 K5] & Hout & HQ).
  split; [done|]. exists n, v1. rewrite Hc. injection Hc as C1 C2 C3 C4 _ C6 C7 C8. cbn in K1, K2, K3, K4, K5.
  split; [|split; [by rewrite C8|done]]. split.
  - congruence.
  - rewrite C8. by etrans.
  - congruence.
  - rewrite C8, C2, K2. by eapply stable_grows.
  - rewrite C8, C2, K2, <- app_assoc, <- A5. by apply sbytes_grows.
  - by rewrite C2, K2, A6, <- app_assoc.
  - congruence.
  - by rewrite <- app_assoc.
Qed.

Lemma block_seq c1 c2 s1 s2 s3 Q1 Q2 :
  block c1 s1 s2 Q1 -> block c2 s2 s3 Q2 -> block (c1 ++ c2) s1 s3 (Q1 /\ Q2).
Proof.
  intros H1 H2 fuel v vf pre suf rest Ha HR Hst Hr. rewrite <- app_assoc in Ha.
  destruct (H1 _ _ _ _ _ _ Ha HR Hst Hr) as (HQ1 & f1 & v1 & Ha1 & Hm1 & Hst1 & Hr1).
  destruct (H2 _ _ _ _ _ _ Ha1 HR Hst1 Hr1) as (HQ2 & f2 & v2 & Ha2 & Hm2 & Hst2 & Hr2).
  split; [done|]. exists f2, v2. rewrite app_assoc. split; [done|]. split; [by etrans|done].
Qed.

Lemma block_nil s : block [] s s True.
Proof. intros fuel v vf pre suf rest Ha HR Hst Hr. split; [done|]. exists fuel, v. by rewrite app_nil_r. Qed.

Lemma block_mono code ins outs (Q Q' : Prop) : block code ins outs Q -> (Q -> Q') -> block code ins outs Q'.
Proof. intros Hb HQ fuel v vf pre suf rest Ha HR Hst Hr. destruct (Hb _ _ _ _ _ _ Ha HR Hst Hr) as [? ?]. auto. Qed.

(** A program that leaves an item on top accepts only when it is true. *)
Lemma block_accepts code ins i outs aouts Q fuel v vf rest :
  block code ins (i :: outs, aouts) Q -> at_code (set_pc 0 v) [] code -> R rest -> on_stacks (core_of v) ins rest ->
  run fuel v = (Ret tt, vf) -> falseResult vf = false -> truthy i /\ Q.
Proof.
  intros Hb Ha HR Hst Hr Hf. rewrite <- (app_nil_r code) in Ha.
  destruct (Hb fuel (set_pc 0 v) vf [] [] rest Ha HR Hst Hr) as (HQ & n & v1 & Ha1 & _ & [Ho _] & Hr1).
  split; [|done]. destruct n as [|n]; [done|]. cbn [run_loop] in Hr1.
  rewrite (at_pc _ _ _ Ha1), (at_len _ _ _ Ha1), app_nil_r in Hr1.
  pose proof (at_small _ _ _ Ha1) as Hs. rewrite app_nil_r in Hs.
  rewrite uint32_id in Hr1 by (pose proof (zlen_nonneg ([] ++ code)); unfold_int; lia).
  rewrite Z.ltb_irrefl in Hr1. injection Hr1 as <-.
  apply stacked_cons in Ho as (s & ss & Ed & Hs' & _). cbn in Ed. unfold falseResult in Hf. rewrite Ed in Hf.
  eapply holds_truthy; [exact Hs'|]. by destruct (AsBool _).
Qed.
End Blocks.

(** Items below the operands stay. *)
Lemma block_frame `{Runtime} `{Crypto} ctx h0 xr R code a b a' b' f g Q :
  block ctx h0 xr any_rest code (a, b) (a', b') Q -> block ctx h0 xr R code (a ++ f, b ++ g) (a' ++ f, b' ++ g) Q.
Proof.
  intros Hb fuel v vf pre suf rest Ha HR [Hst1 Hst2] Hr. cbn in Hst1, Hst2.
  apply stacked_app in Hst1 as (m1 & Hs1 & Hf1). apply stacked_app in Hst2 as (m2 & Hs2 & Hf2).
  destruct (Hb _ _ _ _ _ (m1, m2) Ha I (conj Hs1 Hs2) Hr) as (HQ & n & v1 & Ha1 & Hm1 & [Ho1 Ho2] & Hr1).
  split; [done|]. exists n, v1. split_and!; try done. split; apply stacked_app.
  - exists m1. split; [done|]. by eapply stacked_grows.
  - exists m2. split; [done|]. by eapply stacked_grows.
Qed.

(** The machine [v] runs [prog] and accepts. *)
Record accepts `{Runtime} `{Crypto} (ctx : Context) (h0 : heap) (xr : bool) (prog : bytes) (fuel : nat) (v vf : virtualMachine) : Prop := {
  ac_ctx : context v = ctx;
  ac_heap : h0 `prefix_of` mem v;
  ac_xr : expansionReserved v = xr;
  ac_stable : stable (mem v) (program v);
  ac_prog : sbytes (mem v) (program v) = prog;
  ac_len : slen (program v) = zlen prog;
  ac_run : run fuel v = (Ret tt, vf);
  ac_true : falseResult vf = false;
}.

(** ** The instructions of signature programs and of scripts *)

Section Instructions.
Context `{Runtime} `{Crypto}.
Context (ctx : Context) (h0 : heap) (xr : bool) (R : list slice * list slice -> Prop).

(** ** Symbolic execution *)

(** End on the state after an instruction that pushed [s] or nothing. *)
Ltac does_end := split; [by split|]; split; [split; cbn [fst snd]|try done]; try assumption.

Ltac pushed_one := apply stacked_cons; eexists _, _; split; [reflexivity|]; split; [cbn|try assumption].

(** Start on [does m d ins outs Q]. *)
Ltac does_start :=
  let c := fresh "c" in let ds := fresh "dr" in let ar := fresh "ar" in
  intros c [ds ar] Hctx Hheap Hxr Hdata HR [Hds Has]; cbn [fst snd] in Hds, Has.

(** Take the items of the stack one by one. *)
Ltac unstack :=
  repeat match goal with
  | HH : stacked _ _ (_ :: _) _ |- _ =>
      let E := fresh "E" in let Hh := fresh "Hh" in
      apply stacked_cons in HH as (? & ? & E & Hh & HH); cbn in Hh
  end.

Ltac tri_step :=
  match goal with
  | |- tri (mbind _ _) _ _ => apply tri_bind
  | |- tri (applyCost _) _ _ => apply tri_applyCost
  | |- tri (deferCost _) _ _ => apply tri_deferCost
  | |- tri (push _ _) _ _ => apply tri_push
  | |- tri (pushBool _ _) _ _ => apply tri_push
  | |- tri (pop _) _ _ => apply tri_pop; intros ? ? ?
  | |- tri (popInt64 _) _ _ => apply tri_popInt64; intros ? ? ? ? ?
  | |- tri (contents _) _ _ => apply tri_contents
  | |- tri (require _ _) _ _ => apply tri_require; intros ?
  | |- tri (store _) _ _ => apply tri_store
  | |- tri (fail _) _ _ => apply tri_fail
  | |- tri panic _ _ => apply tri_panic
  | |- tri (mret _) _ _ => apply tri_ret
  end; cbn [k_ds k_as k_mem k_ctx k_xr k_data k_prog k_next with_ds with_as with_mem] in *.

Ltac tri_go := repeat tri_step.

(** The items popped are the ones that were known. *)
Ltac popped := repeat match goal with
  | E : k_ds ?c = _ :: _, E' : k_ds ?c = _ :: _ |- _ => rewrite E' in E; injection E as ? ?; subst
  | E : _ :: _ = _ :: _ |- _ => injection E as ? ?; subst
  end.

(** ** Pushing *)

Lemma does_pushdata d i :
  (forall h s, stable h s -> sbytes h s = d -> holds h s i) -> does ctx h0 xr any_rest opPushdata d ([], []) ([i], []) True.
Proof.
  intros Hi. does_start. unfold opPushdata. do 2 tri_step. apply tri_bind, tri_gets. intros v Hv.
  assert (VM.data v = d) as -> by (rewrite <- Hdata, <- Hv; done). tri_go.
  destruct (new_slice_grows (k_mem c) d) as (Hp & Hs & Hb). does_end.
  - pushed_one; [by apply Hi|by eapply stacked_grows].
  - by eapply stacked_grows.
Qed.

Lemma does_false i :
  (forall h s, stable h s -> sbytes h s = [] -> holds h s i) -> does ctx h0 xr any_rest opFalse [] ([], []) ([i], []) True.
Proof.
  intros Hi. does_start. unfold opFalse. tri_go. does_end. pushed_one. apply Hi; [by left|done].
Qed.

(** ** Comparing and verifying *)

Lemma holds_bytes h s bs : holds h s (Bs bs) -> sbytes h s = bs.
Proof. by intros [_ ?]. Qed.

Lemma holds_int h s n m : holds h s (Int n) -> AsInt64 (sbytes h s) = Ok m -> m = n.
Proof. intros [_ E]. rewrite E. by intros [= <-]. Qed.

Lemma does_equal a b : does ctx h0 xr any_rest opEqual [] ([Bs b; Bs a], []) ([Flag (bool_decide (a = b))], []) True.
Proof.
  does_start. unfold opEqual, doEqual. unstack. tri_go. popped. does_end. pushed_one.
  destruct Hh as [_ <-], Hh0 as [_ <-]. done.
Qed.

Lemma does_verify i : does ctx h0 xr any_rest opVerify [] ([i], []) ([], []) (truthy i).
Proof.
  does_start. unfold opVerify. unstack. tri_go. popped. does_end. by eapply holds_truthy.
Qed.

Lemma does_compare op x y :
  does ctx h0 xr any_rest (doNumCompare op) [] ([Int y; Int x], []) ([Flag (compare_ op x y)], []) True.
Proof.
  does_start. unfold doNumCompare. unstack. tri_go. popped. does_end. pushed_one.
  by rewrite (holds_int _ _ _ _ Hh H2), (holds_int _ _ _ _ Hh0 H4).
Qed.

(** ** Fields of the context *)

(** What an optional field of the context shows. *)
Definition shows (o : option slice) (bs : option bytes) : Prop :=
  match o, bs with
  | Some s, Some b => stable h0 s /\ sbytes h0 s = b
  | None, None => True
  | _, _ => False
  end.

Lemma does_field cost (field : Context -> option slice) deferred o :
  shows (field ctx) o ->
  does ctx h0 xr any_rest (applyCost cost;; pushField field deferred) [] ([], []) ([Bs (default [] o)], []) (is_Some o).
Proof.
  intros Ho. does_start. do 2 tri_step. unfold pushField. apply tri_bind, tri_gets. intros v Hv.
  assert (context v = ctx) as -> by (rewrite <- Hctx, <- Hv; done).
  destruct (field ctx) as [s|], o as [bs|]; try done. destruct Ho as [Hs Hb].
  tri_go. does_end. pushed_one. split; [by eapply stable_grows|]. by rewrite (sbytes_grows h0).
Qed.

Lemma tri_pushInt64 n deferred c (Q : unit -> core -> Prop) :
  in_int64 n = true ->
  (forall s h, k_mem c `prefix_of` h -> holds h s (Int n) -> Q tt (with_ds (s :: k_ds c) (with_mem h c))) ->
  tri (pushInt64 n deferred) c Q.
Proof.
  intros Hn HQ. unfold pushInt64. tri_go. destruct (Int64Bytes_grows n (k_mem c)) as [Hp Hs].
  apply HQ; [done|]. split; [done|]. rewrite sbytes_Int64Bytes. by apply AsInt64_int64_bytes.
Qed.

Lemma int64_in n : in_int64 (int64 n) = true.
Proof. pose proof (int64_range n). unfold_int. lia. Qed.

Lemma does_int_field (field : Context -> option Z) :
  does ctx h0 xr any_rest (applyCost 1;; pushIntField field) [] ([], []) ([Int (int64 (default 0 (field ctx)))], []) (is_Some (field ctx)).
Proof.
  does_start. do 2 tri_step. unfold pushIntField. apply tri_bind, tri_gets. intros v Hv.
  assert (context v = ctx) as -> by (rewrite <- Hctx, <- Hv; done).
  destruct (field ctx) as [n|]; [|apply tri_fail]. apply tri_pushInt64; [apply int64_in|]. intros s h Hp Hs.
  does_end; [pushed_one; [done|]|]; by eapply stacked_grows.
Qed.

(** A maximum time of 0, or beyond the integers of the machine, is the largest one. *)
Definition machine_max (m : Z) : Z := if (m =? 0) || (MaxInt64 <? m) then MaxInt64 else m.

Lemma does_maxtime :
  does ctx h0 xr any_rest opMaxTime [] ([], []) ([Int (int64 (machine_max (default 0 (MaxTimeMS ctx))))], []) (is_Some (MaxTimeMS ctx)).
Proof.
  does_start. unfold opMaxTime. do 2 tri_step. apply tri_bind, tri_gets. intros v Hv.
  assert (context v = ctx) as -> by (rewrite <- Hctx, <- Hv; done).
  destruct (MaxTimeMS ctx) as [n|]; [|apply tri_fail]. apply tri_pushInt64; [apply int64_in|]. intros s h Hp Hs.
  does_end; [pushed_one; [done|]|]; by eapply stacked_grows.
Qed.

(** The verdict of [CheckOutput]; an error or a panic stops the run. *)
Definition check_verdict (r : option (result vmerr bool)) : bool := match r with Some (Ok b) => b | _ => false end.

Lemma does_checkoutput code ver asset amount dat index check :
  (forall f h i d a s n p x, CheckOutput ctx = Some f ->
     f h i d a s n p x = check i (sbytes h d) a (sbytes h s) n (sbytes h p) x) ->
  does ctx h0 xr any_rest opCheckOutput [] ([Bs code; Int ver; Bs asset; Int amount; Bs dat; Int index], [])
    ([Flag (check_verdict (check (uint64 index) dat (uint64 amount) asset (uint64 ver) code xr))], []) (is_Some (CheckOutput ctx)).
Proof.
  intros Hcheck. does_start. unfold opCheckOutput. unstack. tri_go. apply tri_gets. intros v Hv.
  assert (context v = ctx) as -> by (rewrite <- Hctx; by injection Hv).
  destruct (CheckOutput ctx) as [f|]; [|apply tri_fail]. apply tri_bind, tri_gets. intros v' Hv'.
  assert (mem v' = k_mem c /\ expansionReserved v' = xr) as [-> ->] by (rewrite <- Hxr; by injection Hv').
  rewrite (Hcheck f) by done. popped. destruct Hh as [_ <-], Hh1 as [_ <-], Hh3 as [_ <-].
  repeat match goal with
  | HH : stable _ ?s /\ AsInt64 (sbytes _ ?s) = Ok ?n, HH' : AsInt64 (sbytes _ ?s) = Ok ?m |- _ =>
      assert (m = n) as -> by (destruct HH as [_ HH]; congruence); clear HH'
  end.
  destruct (check _ _ _ _ _ _ _) as [r|]; [|apply tri_panic]. apply tri_bind, tri_of_result. intros ok ->.
  tri_go. does_end. by pushed_one.
Qed.

(** ** Blocks *)

Local Notation block := (block ctx h0 xr R).

Lemma block_inst code inst fn ins outs f g Q :
  encodes code inst -> (forall n, ops (run n) (Op inst) = Some fn) -> does ctx h0 xr any_rest fn (Data inst) ins outs Q ->
  block code (ins.1 ++ f, ins.2 ++ g) (outs.1 ++ f, outs.2 ++ g) Q.
Proof.
  intros He Hop Hd. destruct ins as [a b], outs as [a' b']. apply block_frame. eapply block_op; [done|]. eauto.
Qed.

(** The opcodes whose instruction is the opcode alone. *)
Definition plain_op (op : Z) : bool :=
  (0 <=? op) && (op <? 256) && negb ((1 <=? op) && (op <=? 78)) && negb ((81 <=? op) && (op <=? 96))
  && negb (op =? OP_JUMP) && negb (op =? OP_JUMPIF).

Lemma block_plain op fn a b a' b' f g Q :
  plain_op op = true -> (forall n, ops (run n) op = Some fn) -> does ctx h0 xr any_rest fn [] (a, b) (a', b') Q ->
  block [byte_of_Z op] (a ++ f, b ++ g) (a' ++ f, b' ++ g) Q.
Proof.
  intros Hp Ho Hd. apply (block_inst _ (mkInst op 1 []) fn (a, b) (a', b')); [|done|done].
  unfold plain_op in Hp. apply encodes_plain; lia.
Qed.

Lemma opPushdata_ops run_child op : 1 <= op <= 78 \/ 81 <= op <= 96 -> ops run_child op = Some opPushdata.
Proof.
  intros Hop. unfold ops. destruct ((1 <=? op) && (op <=? 75)) eqn:E1; [done|].
  destruct ((OP_1 <=? op) && (op <=? OP_1 + 15)) eqn:E2; [done|]. unfold OP_1 in E2.
  assert (op = 76 \/ op = 77 \/ op = 78) as [-> | [-> | ->]] by lia; done.
Qed.

(** The instruction that [PushdataBytes] emits pushes the string. *)
Lemma PushdataBytes_pushes inp i :
  zlen inp <= MaxInt32 -> (forall h s, stable h s -> sbytes h s = inp -> holds h s i) ->
  exists inst fn, encodes (PushdataBytes inp) inst /\ (forall n, ops (run n) (Op inst) = Some fn) /\
    does ctx h0 xr any_rest fn (Data inst) ([], []) ([i], []) True.
Proof.
  intros Hin Hi. unfold PushdataBytes, OP_DATA. pose proof (zlen_nonneg inp) as Hn.
  destruct (Z.eqb_spec (zlen inp) 0) as [E|].
  { destruct inp; [|rewrite zlen_cons in E; pose proof (zlen_nonneg inp); lia].
    eexists _, opFalse. split; [apply encodes_0|]. split; [done|by apply does_false]. }
  replace (1 + zlen inp - 1) with (zlen inp) by lia.
  repeat case_match; zbool; eexists _, opPushdata.
  1: split; [apply encodes_data; lia|].
  2: split; [apply encodes_pushdata1; lia|].
  3: split; [apply encodes_pushdata2; lia|].
  4: split; [apply encodes_pushdata4; lia|].
  all: split; [intros n'; apply opPushdata_ops; cbn [Op]; unfold OP_PUSHDATA1, OP_PUSHDATA2, OP_PUSHDATA4; lia|by apply does_pushdata].
Qed.

Lemma block_data bs f g : zlen bs <= MaxInt32 -> block (PushdataBytes bs) (f, g) (Bs bs :: f, g) True.
Proof.
  intros Hl. destruct (PushdataBytes_pushes bs (Bs bs)) as (inst & fn & He & Ho & Hd); [done|by split|].
  by apply (block_inst _ inst fn ([], []) ([Bs bs], []) f g).
Qed.

Lemma block_int n f g : in_int64 n = true -> block (PushdataInt64 n) (f, g) (Int n :: f, g) True.
Proof.
  intros Hn. unfold PushdataInt64. destruct (Z.eqb_spec n 0) as [->|].
  { eapply (block_inst _ _ opFalse ([], []) ([Int 0], [])); [apply encodes_0|done|]. apply does_false. intros h s Hs Hb. split; [done|]. by rewrite Hb. }
  destruct ((1 <=? n) && (n <=? 16)) eqn:E.
  - eapply (block_inst _ _ opPushdata ([], []) ([Int n], [])); [apply encodes_small; lia|intros; apply opPushdata_ops; cbn [Op]; unfold OP_1; lia|].
    apply does_pushdata. intros h s Hs Hb. split; [done|]. rewrite Hb.
    unfold AsInt64. change (zlen _) with 1. cbn [Z.eqb Z.ltb Z.compare].
    rewrite le_get_app, le_get_zeros. cbn [le_get length Pos.compare Pos.compare_cont Data].
    rewrite Z_of_byte_small by lia. f_equal. rewrite int64_id; unfold_int; lia.
  - pose proof (zlen_int64_bytes n).
    destruct (PushdataBytes_pushes (int64_bytes n) (Int n)) as (inst & fn & He & Ho & Hd); [unfold_int; lia| |].
    + intros h s Hs Hb. split; [done|]. rewrite Hb. by apply AsInt64_int64_bytes.
    + by apply (block_inst _ inst fn ([], []) ([Int n], []) f g).
Qed.
End Instructions.
