(* ===== verification/SigProgram.v ===== *)
(** * What signature programs commit to

    The predicates that [buildSigProgram] makes ([core/txbuilder/witness.go],
    [constraint.go]), run by the virtual machine: a run that accepts shows that the
    context satisfies the constraints.  For the context of an input of a transaction, the
    constraints are then read as facts about that transaction. *)

From Stdlib Require Import ZArith Lia Strings.Byte.
From stdpp Require Import gmap.
From S2P Require Import Prelude Checked GoSlice Crypto VMCode VM VMLogic Encoding Bc TxContext Legacy LegacyMap TxBuilder TxSign.
From S2P Require VMRun VMUtil.

(** ** Programs and contexts *)

(** The machine's context shows the byte strings of [c] in the store. *)
Record shown (h : heap) (ctx : VM.Context) (c : vmctx) : Prop := {
  sh_sighash : shows h (VM.TxSigHash ctx) (c_TxSigHash c);
  sh_output : shows h (VM.SpentOutputID ctx) (c_SpentOutputID c);
  sh_entry : shows h (VM.EntryData ctx) (c_EntryData c);
  sh_data : shows h (VM.TxData ctx) (c_TxData c);
  sh_block : shows h (VM.BlockHash ctx) (c_BlockHash c);
  sh_min : VM.MinTimeMS ctx = c_MinTimeMS c;
  sh_max : VM.MaxTimeMS ctx = c_MaxTimeMS c;
  sh_check : VM.CheckOutput ctx =
    (fun f h index data amount asset vmVersion code expansion =>
       f index (sbytes h data) amount (sbytes h asset) vmVersion (sbytes h code) expansion) <$> c_CheckOutput c;
}.

(** ** What a constraint means *)

Definition satisfied `{Crypto} (c : vmctx) (xr : bool) (k : constraint) : Prop :=
  match k with
  | timeConstraint mn mx =>
      (0 < mn -> exists m, c_MinTimeMS c = Some m /\ int64 mn <= int64 m) /\
      (0 < mx -> exists m, c_MaxTimeMS c = Some m /\ int64 (machine_max m) <= int64 mx)
  | outputIDConstraint id => c_SpentOutputID c = Some (Bytes id)
  | refdataConstraint d tx => (if tx then c_TxData c else c_EntryData c) = Some (sha3_256_sum d)
  | payConstraint i aa p h =>
      exists asset check, AssetId aa = Some asset /\ c_CheckOutput c = Some check /\
        check (uint64 i) (from_option Bytes [] h) (uint64 (int64 (Amount aa))) (Bytes asset) 1 p xr = Some (Ok true)
  end.

Section Programs.
Context `{Runtime} `{CryptoLaws}.
Context (ctx : VM.Context) (h0 : heap) (xr : bool) (c : vmctx).
Hypothesis Hshown : shown h0 ctx c.

Local Notation block := (block ctx h0 xr any_rest).

(** The code leaves one more item on the stack; if it is true then [P]. *)
Definition leaves (code : bytes) (P : Prop) : Prop :=
  exists i Q, (forall f g, block code (f, g) (i :: f, g) Q) /\ (truthy i -> Q -> P).

Lemma leaves_verify code P : leaves code P -> forall f g, block (code ++ [byte_of_Z OP_VERIFY]) (f, g) (f, g) P.
Proof.
  intros (i & Q & Hb & HP) f g. eapply block_mono; [eapply block_seq; [apply Hb|]|].
  - apply (block_plain ctx h0 xr any_rest OP_VERIFY VM.opVerify [i] [] [] [] f g); [done|done|apply does_verify].
  - intros []. auto.
Qed.

Lemma leaves_seq c1 c2 P1 P2 :
  (forall f g, block c1 (f, g) (f, g) P1) -> leaves c2 P2 -> leaves (c1 ++ c2) (P1 /\ P2).
Proof.
  intros H1' (i & Q & Hb & HP). exists i, (P1 /\ Q). split; [|naive_solver].
  intros f g. eapply block_seq; [apply H1'|apply Hb].
Qed.

(** Push [d], push a field of the context, compare. *)
Lemma leaves_field d op fn o cost field deferred :
  zlen d <= MaxInt32 -> plain_op op = true -> (forall n, VMRun.ops (VMRun.run n) op = Some fn) ->
  fn = (VM.applyCost cost;; VM.pushField field deferred) -> shows h0 (field ctx) o ->
  leaves (VMUtil.Program (VMUtil.AddOp (VMUtil.AddOp (VMUtil.AddData VMUtil.NewBuilder d) op) OP_EQUAL)) (o = Some d).
Proof.
  intros Hd Hp Ho -> Hs. exists (Flag (bool_decide (d = default [] o))), (is_Some o). split.
  - intros f g. cbn [VMUtil.Program VMUtil.AddOp VMUtil.AddData VMUtil.NewBuilder app].
    eapply block_mono; [eapply block_seq; [eapply block_seq; [by apply block_data|]|]|].
    + apply (block_plain ctx h0 xr any_rest op (VM.applyCost cost;; VM.pushField field deferred) [] [] [Bs (default [] o)] [] (Bs d :: f) g);
        [done|done|by apply does_field].
    + apply (block_plain ctx h0 xr any_rest OP_EQUAL VM.opEqual [_; _] [] [_] [] f g); [done|done|apply does_equal].
    + tauto.
  - intros E%bool_decide_eq_true [x ->]. cbn in E. by subst.
Qed.

Lemma leaves_outputID id : leaves (outputID_code id) (satisfied c xr (outputIDConstraint id)).
Proof.
  apply (leaves_field _ _ VM.opOutputID _ 1 VM.SpentOutputID true); [rewrite zlen_Bytes; unfold_int; lia|done|done|done|apply Hshown].
Qed.

Lemma leaves_refdata d tx : leaves (refdata_code d tx) (satisfied c xr (refdataConstraint d tx)).
Proof.
  pose proof (sha3_256_len d). destruct tx.
  - apply (leaves_field _ _ VM.opTxData _ 1 VM.TxData true); [unfold_int; lia|done|done|done|apply Hshown].
  - apply (leaves_field _ _ VM.opEntryData _ 1 VM.EntryData true); [unfold_int; lia|done|done|done|apply Hshown].
Qed.

Lemma leaves_sighash d :
  zlen d <= MaxInt32 ->
  leaves (VMUtil.Program (VMUtil.AddOp (VMUtil.AddOp (VMUtil.AddData VMUtil.NewBuilder d) OP_TXSIGHASH) OP_EQUAL)) (c_TxSigHash c = Some d).
Proof. intros Hd. by apply (leaves_field _ _ VM.opTxSigHash _ 256 VM.TxSigHash false); [|done|done|done|apply Hshown]. Qed.

(** A time clause compares a time of the context with a number, after the code of [b]. *)
Lemma leaves_time b op fn n cmpop cmpfn k Q P0 P :
  plain_op op = true -> (forall n, VMRun.ops (VMRun.run n) op = Some fn) ->
  does ctx h0 xr any_rest fn [] ([], []) ([Int k], []) Q -> in_int64 n = true ->
  plain_op cmpop = true -> (forall n, VMRun.ops (VMRun.run n) cmpop = Some (VM.doNumCompare cmpfn)) ->
  (Q -> VM.compare_ cmpfn k n = true -> P) -> (forall f g, block (VMUtil.Program b) (f, g) (f, g) P0) ->
  leaves (VMUtil.Program (VMUtil.AddOp (VMUtil.AddInt64 (VMUtil.AddOp b op) n) cmpop)) (P0 /\ P).
Proof.
  intros Hp Ho Hd Hn Hp2 Ho2 HP Hb. exists (Flag (VM.compare_ cmpfn k n)), (P0 /\ Q). split; [|naive_solver].
  intros f g. cbn [VMUtil.Program VMUtil.AddOp VMUtil.AddInt64].
  eapply block_mono; [eapply block_seq; [eapply block_seq; [eapply block_seq; [apply Hb|]|by apply block_int]|]|].
  - by apply (block_plain ctx h0 xr any_rest op fn [] [] [Int k] [] f g).
  - apply (block_plain ctx h0 xr any_rest cmpop (VM.doNumCompare cmpfn) [_; _] [] [_] [] f g); [done|done|apply does_compare].
  - tauto.
Qed.

Lemma leaves_weaken code (P P' : Prop) : leaves code P -> (P -> P') -> leaves code P'.
Proof. intros (i & Q & Hb & HP) HP'. exists i, Q. auto. Qed.

Lemma leaves_mintime mn :
  0 < mn ->
  leaves (VMUtil.Program (VMUtil.AddOp (VMUtil.AddInt64 (VMUtil.AddOp VMUtil.NewBuilder OP_MINTIME) (int64 mn)) OP_GREATERTHANOREQUAL))
    (exists m, c_MinTimeMS c = Some m /\ int64 mn <= int64 m).
Proof.
  intros Hmn. eapply leaves_weaken; [eapply (leaves_time _ OP_MINTIME VM.opMinTime _ OP_GREATERTHANOREQUAL VM.cmpGreaterEqual);
    [done|done|apply does_int_field|apply int64_in|done|done| |intros; apply block_nil]|intros [_ HH]; exact HH].
  rewrite (sh_min _ _ _ Hshown). intros [m ->] E. exists m. split; [done|]. cbn in E. lia.
Qed.

Lemma leaves_maxtime b mx P :
  (forall f g, block (VMUtil.Program b) (f, g) (f, g) P) ->
  leaves (VMUtil.Program (VMUtil.AddOp (VMUtil.AddInt64 (VMUtil.AddOp b OP_MAXTIME) (int64 mx)) OP_LESSTHANOREQUAL))
    (P /\ exists m, c_MaxTimeMS c = Some m /\ int64 (machine_max m) <= int64 mx).
Proof.
  intros Hb. eapply (leaves_time _ OP_MAXTIME VM.opMaxTime _ OP_LESSTHANOREQUAL VM.cmpLessEqual);
    [done|done|apply does_maxtime|apply int64_in|done|done| |done].
  rewrite (sh_max _ _ _ Hshown). intros [m ->] E. exists m. split; [done|]. cbn in E. lia.
Qed.

Lemma leaves_true : leaves [byte_of_Z OP_TRUE] True.
Proof.
  exists (Bs [x01]), True. split; [|done]. intros f g.
  apply (block_inst ctx h0 xr any_rest _ (mkInst OP_TRUE 1 [x01]) VM.opPushdata ([], []) ([Bs [x01]], []) f g).
  - apply (encodes_small 1). lia.
  - intros n. by apply opPushdata_ops; right.
  - apply does_pushdata. by split.
Qed.

Lemma leaves_times mn mx : 0 <= mn -> 0 <= mx -> leaves (time_code mn mx) (satisfied c xr (timeConstraint mn mx)).
Proof.
  intros Hmn Hmx. unfold time_code. cbn [satisfied].
  destruct (Z.eqb_spec mn 0) as [->|]; destruct (Z.eqb_spec mx 0) as [->|]; cbn [andb].
  - eapply leaves_weaken; [apply leaves_true|]. intros _. split; lia.
  - rewrite Z.ltb_irrefl, (proj2 (Z.ltb_lt 0 mx)) by lia.
    eapply leaves_weaken; [apply (leaves_maxtime _ _ True); intros; apply block_nil|]. intros [_ HH]. split; [lia|done].
  - rewrite Z.ltb_irrefl, (proj2 (Z.ltb_lt 0 mn)) by lia. eapply leaves_weaken; [apply leaves_mintime; lia|]. split; [done|lia].
  - rewrite (proj2 (Z.ltb_lt 0 mn)), (proj2 (Z.ltb_lt 0 mx)) by lia.
    eapply leaves_weaken; [apply leaves_maxtime; intros f g; apply leaves_verify, leaves_mintime; lia|]. naive_solver.
Qed.

Lemma leaves_pay i aa p h prog :
  0 <= i <= MaxInt64 -> zlen p <= MaxInt32 -> pay_code i aa p h = Some prog ->
  leaves prog (satisfied c xr (payConstraint i aa p h)).
Proof.
  intros Hi Hp. unfold pay_code. destruct (AssetId aa) as [asset|] eqn:Ea; [|done]. cbn [mbind option_bind]. intros [= <-].
  set (d := from_option Bytes [] h).
  replace (match h with None => _ | Some h => _ end) with (VMUtil.AddData (VMUtil.AddInt64 VMUtil.NewBuilder i) d) by (by destruct h).
  set (r check := check (uint64 i) d (uint64 (int64 (Amount aa))) (Bytes asset) 1 p xr : option (result vmerr bool)).
  exists (Flag (check_verdict (r (default (fun _ _ _ _ _ _ _ => None) (c_CheckOutput c))))), (is_Some (c_CheckOutput c)). split.
  - assert (zlen d <= MaxInt32) by (unfold d; destruct h; [cbn [from_option]; rewrite zlen_Bytes|]; done).
    assert (zlen (Bytes asset) <= MaxInt32) by (rewrite zlen_Bytes; unfold_int; lia).
    intros f g. cbn [VMUtil.Program VMUtil.AddOp VMUtil.AddInt64 VMUtil.AddData VMUtil.NewBuilder app].
    eapply block_mono.
    { eapply block_seq; [do 5 (eapply block_seq; [|first [by apply block_data|apply block_int, int64_in|by apply block_int]]); apply block_int; unfold_int; lia|].
      apply (block_plain ctx h0 xr any_rest OP_CHECKOUTPUT VM.opCheckOutput [_; _; _; _; _; _] [] [_] [] f g); [done|done|].
      apply (does_checkoutput ctx h0 xr p 1 (Bytes asset) (int64 (Amount aa)) d i). intros f' h' i' d' a' s' n' p' x'. rewrite (sh_check _ _ _ Hshown).
      destruct (c_CheckOutput c); [|done]. cbn. by intros [= <-]. }
    rewrite (sh_check _ _ _ Hshown), fmap_is_Some. tauto.
  - intros Ht [check Hc]. rewrite Hc in Ht. exists asset, check. split; [done|]. split; [done|].
    unfold r in Ht. cbn in Ht. destruct (check _ _ _ _ _ _ _) as [[[]|]|] eqn:E; cbn in Ht; try done.
Qed.

(** The sizes of a constraint that comes from a transaction. *)
Definition constraint_ok (k : constraint) : Prop :=
  match k with
  | timeConstraint mn mx => 0 <= mn /\ 0 <= mx
  | payConstraint i _ p _ => 0 <= i <= MaxInt64 /\ zlen p <= MaxInt32
  | _ => True
  end.

Lemma leaves_code k prog : constraint_ok k -> code k = Some prog -> leaves prog (satisfied c xr k).
Proof.
  destruct k; cbn [code constraint_ok]; [intros [] [= <-]|intros _ [= <-]|intros _ [= <-]|intros []].
  - by apply leaves_times.
  - apply leaves_outputID.
  - apply leaves_refdata.
  - by apply leaves_pay.
Qed.

Lemma leaves_join ks : forall prog,
  ks <> [] -> Forall constraint_ok ks -> join_code ks = Some prog -> leaves prog (Forall (satisfied c xr) ks).
Proof.
  induction ks as [|k ks IH]; intros prog Hne Hok Hj; [done|]. apply Forall_cons in Hok as [Hk Hks].
  destruct ks as [|k' ks].
  { eapply leaves_weaken; [by eapply leaves_code|]. intros. by constructor. }
  cbn [join_code] in Hj. destruct (code k) as [p|] eqn:Ek; [|done]. cbn [mbind option_bind] in Hj.
  change (match ks with [] => code k' | _ => _ end) with (join_code (k' :: ks)) in Hj.
  destruct (join_code (k' :: ks)) as [r|] eqn:Er; [|done]. injection Hj as <-.
  change (p ++ byte_of_Z OP_VERIFY :: r) with (p ++ [byte_of_Z OP_VERIFY] ++ r). rewrite app_assoc.
  eapply leaves_weaken; [apply leaves_seq; [apply leaves_verify; by eapply leaves_code|by apply IH]|].
  intros []. by constructor.
Qed.

Lemma leaves_accepts prog P fuel v vf : leaves prog P -> zlen prog <= MaxInt32 -> accepts ctx h0 xr prog fuel v vf -> P.
Proof.
  intros (i & Q & Hb & HP) Hl [A1 A2 A3 A4 A5 A6 A7 A8].
  destruct (block_accepts ctx h0 xr any_rest prog ([], []) i [] [] Q fuel v vf (VM.dataStack v, VM.altStack v)) as [Ht HQ]; [done|by split|done|by split|done|done|auto].
Qed.
End Programs.

(** ** Contexts and transactions *)

(** ** The outputs an input is paid into *)

Definition input_destination (e : Entry) : option ValueDestination :=
  match e with ESpend s => sp_WitnessDestination s | EIssuance i => iss_WitnessDestination i | _ => None end.

Definition input_data (e : Entry) : option Hash :=
  match e with ESpend s => sp_Data s | EIssuance i => iss_Data i | _ => None end.

Definition is_input (e : Entry) : Prop := match e with ESpend _ | EIssuance _ => True | _ => False end.

(** Output [i] of the transaction, as the input [e] reaches it: directly, or as a
    destination of the mux. *)
Inductive result_of (tx : Tx) (e : Entry) : Z -> Output -> Prop :=
| result_direct wd r o :
    input_destination e = Some wd -> dest_Ref wd = Some r -> Entries tx !! r = Some (Some (EOutput o)) -> result_of tx e 0 o
| result_mux wd r m i d id o :
    input_destination e = Some wd -> dest_Ref wd = Some r -> Entries tx !! r = Some (Some (EMux m)) ->
    WitnessDestinations m !! i = Some (Some d) -> dest_Ref d = Some id -> Entries tx !! id = Some (Some (EOutput o)) ->
    result_of tx e (Z.of_nat i) o.

(** It holds [amount] units of [asset] under version 1 of the program [code], with the
    data hash [data] unless that is empty. *)
Definition pays (tx : Tx) (e : Entry) (i : Z) (data : bytes) (amount : Z) (asset code : bytes) : Prop :=
  exists o src v a, result_of tx e i o /\ ControlProgram o = Some (mkProgram 1 code) /\
    out_Source o = Some src /\ src_Value src = Some v /\ AssetId v = Some a /\ Bytes a = asset /\ Bc.Amount v = amount /\
    (data <> [] -> exists d, out_Data o = Some d /\ Bytes d = data).

Lemma check_true data amount asset code prog value dh :
  check data amount asset 1 code prog value dh = Some true ->
  exists p v a, prog = Some p /\ VmVersion p = 1 /\ Bc.Code p = code /\ value = Some v /\ AssetId v = Some a /\
    Bytes a = asset /\ Bc.Amount v = amount /\ (data <> [] -> exists d, dh = Some d /\ Bytes d = data).
Proof.
  unfold check. intros E. destruct prog as [p|]; [|done]. cbn [mbind option_bind] in E.
  destruct (Z.eqb_spec (VmVersion p) 1); [|done]. cbn [negb] in E.
  case_bool_decide; [|done]. cbn [negb] in E. destruct value as [v|]; [|done]. cbn [mbind option_bind] in E.
  destruct (AssetId v) as [a|] eqn:Ea; [|done]. cbn [mbind option_bind] in E.
  case_bool_decide; [|done]. cbn [negb] in E. destruct (Z.eqb_spec (Bc.Amount v) amount); [|done]. cbn [negb] in E.
  exists p, v, a. split_and!; try done. intros Hd. destruct (Z.eqb_spec (zlen data) 0) as [E0|].
  { destruct data; [done|]. rewrite zlen_cons in E0. pose proof (zlen_nonneg data). lia. }
  destruct dh as [d|]; [|done]. injection E as E. exists d. split; [done|]. by apply bool_decide_eq_true in E.
Qed.

Lemma checkEntry_true data amount asset code xr e :
  checkEntry data amount asset 1 code xr e = Some (Ok true) ->
  exists o src, e = Some (EOutput o) /\ out_Source o = Some src /\
    check data amount asset 1 code (ControlProgram o) (src_Value src) (out_Data o) = Some true.
Proof.
  unfold checkEntry. destruct e as [[]|]; try done.
  - destruct (out_Source o) as [src|] eqn:Es; [|done]. cbn [mbind option_bind]. intros E.
    destruct (check _ _ _ _ _ _ _ _) as [[]|] eqn:Ec; try done. by exists o, src.
  - destruct (ret_Source r) as [src|]; [|done]. cbn [mbind option_bind]. intros E.
    destruct (check _ _ _ _ _ _ _ _) as [[]|] eqn:Ec; try done.
Qed.

Lemma lookup_nth_error {A} (l : list A) : forall i, nth_error l i = l !! i.
Proof. induction l as [|x l IH]; intros [|i]; try done. apply IH. Qed.

(** [CHECKOUTPUT] for a program of version 1 is only true of such an output. *)
Lemma checkOutput_pays tx e i data amount asset code xr :
  is_input e -> 0 <= i -> checkOutput (Entries tx) i data amount asset 1 code xr e = Some (Ok true) ->
  pays tx e i data amount asset code.
Proof.
  intros He Hi Hc. assert (checkDest (Entries tx) i data amount asset 1 code xr (input_destination e) = Some (Ok true)) as Hd by (by destruct e).
  assert (exists o src, result_of tx e i o /\ out_Source o = Some src /\
    check data amount asset 1 code (ControlProgram o) (src_Value src) (out_Data o) = Some true) as (o & src & Hr & Hs & Hk).
  { unfold checkDest, entry_at in Hd. destruct (input_destination e) as [wd|] eqn:Ew; [|done]. cbn [mbind option_bind] in Hd.
    destruct (dest_Ref wd) as [r|] eqn:Er; [|done]. cbn [mbind option_bind] in Hd.
    destruct (Entries tx !! r) as [e'|] eqn:Ee; [|done].
    assert (Hdirect : (if negb (i =? 0) then Some (Err ErrBadValue) else checkEntry data amount asset 1 code xr e') = Some (Ok true) ->
      exists o src, result_of tx e i o /\ out_Source o = Some src /\
        check data amount asset 1 code (ControlProgram o) (src_Value src) (out_Data o) = Some true).
    { destruct (Z.eqb_spec i 0) as [->|]; [|done]. cbn [negb]. intros (o & src & -> & Hs & Hk)%checkEntry_true.
      exists o, src. split; [by eapply result_direct|done]. }
    destruct e' as [[]|]; try by apply Hdirect. unfold checkMux, entry_at in Hd.
    destruct (zlen _ <=? i) eqn:El; [done|]. destruct (ojoin _) as [d|] eqn:Ed; [|done]. cbn [mbind option_bind] in Hd.
    destruct (dest_Ref d) as [id|] eqn:Eid; [|done]. cbn [mbind option_bind] in Hd.
    destruct (Entries tx !! id) as [e''|] eqn:Ee2; [|done]. apply checkEntry_true in Hd as (o & src & -> & Hs & Hk).
    exists o, src. split; [|done]. rewrite <- (Z2Nat.id i) by done. eapply result_mux; eauto.
    unfold ojoin in Ed. destruct (nth_error _ _) as [x|] eqn:En; [|done]. subst x. by rewrite lookup_nth_error in En. }
  apply check_true in Hk as (p & v & a & Hp & Hv & Hcode & Hval & Ha & Hb & Ham & Hdata).
  exists o, src, v, a. split_and!; try done. rewrite Hp. destruct p as [ver cd]. cbn in Hv, Hcode. by subst.
Qed.

(** ** Commitments *)

(** The transaction [tx'] respects what was signed for input [index] of the template's
    transaction [tx], through its own input [e]. *)
Record commits `{Crypto} (tx' : Tx) (e : Entry) (tx : LTx) (index : nat) : Prop := {
  cm_min : 0 < MinTime (lt_TxData tx) <= MaxInt64 -> MinTime (lt_TxData tx) <= tx_MinTimeMs (Header tx');
  cm_max : 0 < MaxTime (lt_TxData tx) < MaxInt64 -> 0 < tx_MaxTimeMs (Header tx') <= MaxTime (lt_TxData tx);
  cm_spent id sp o :
    InputIDs (lt_Tx tx) !! index = Some id -> Tx_Spend (lt_Tx tx) id = Ok sp -> SpentOutputId sp = Some o ->
    exists s o', e = ESpend s /\ SpentOutputId s = Some o' /\ Bytes o' = Bytes o;
  cm_data :
    td_ReferenceData (lt_TxData tx) <> [] ->
    exists d, tx_Data (Header tx') = Some d /\ Bytes d = sha3_256_sum (td_ReferenceData (lt_TxData tx));
  cm_entry inp :
    Inputs (lt_TxData tx) !! index = Some inp ->
    exists d, input_data e = Some d /\ Bytes d = sha3_256_sum (ti_ReferenceData inp);
  cm_outputs i out asset :
    Outputs (lt_TxData tx) !! i = Some out -> let oc := to_OutputCommitment out in
    AssetId (oc_AssetAmount oc) = Some asset ->
    pays tx' e (Z.of_nat i)
      (if 0 <? zlen (to_ReferenceData out) then Bytes (sum_hash (to_ReferenceData out)) else [])
      (Bc.Amount (oc_AssetAmount oc)) (Bytes asset) (oc_ControlProgram oc);
}.

(** The sizes of a transaction in memory. *)
Record tx_sizes (tx : TxData) : Prop := {
  ts_times : 0 <= MinTime tx /\ 0 <= MaxTime tx;
  ts_count : zlen (Outputs tx) <= MaxInt64;
  ts_outputs : Forall (fun o => zlen (oc_ControlProgram (to_OutputCommitment o)) <= MaxInt32 /\
                                0 <= Bc.Amount (oc_AssetAmount (to_OutputCommitment o)) <= MaxUint64) (Outputs tx);
}.

Section Commit.
Context `{Runtime} `{CryptoLaws}.

Lemma constraints_sizes tx index cs : tx_sizes (lt_TxData tx) -> constraints_of tx index = Some cs -> Forall constraint_ok cs.
Proof.
  intros [[T1 T2] Tc To] E. unfold constraints_of in E.
  destruct (InputIDs _ !! _) as [id|]; [|done]. cbn [mbind option_bind] in E.
  destruct (match Tx_Spend _ _ with Ok _ => _ | Err _ => _ end) as [sp|] eqn:Es; [|done]. cbn [mbind option_bind] in E.
  destruct (Inputs _ !! _) as [inp|]; [|done]. injection E as <-.
  apply Forall_cons. split; [done|]. apply Forall_app. split; [|apply Forall_app; split; [|apply Forall_cons; split; [done|]]].
  - destruct (Tx_Spend _ _) as [s|]; [|by injection Es as <-]. destruct (SpentOutputId s); [|done]. injection Es as <-. by repeat constructor.
  - destruct (0 <? _); by repeat constructor.
  - apply Forall_lookup. intros i k Hk. rewrite list_lookup_imap in Hk. destruct (Outputs _ !! i) as [o|] eqn:Eo; [|done].
    injection Hk as <-. rewrite Forall_lookup in To. destruct (To _ _ Eo). apply lookup_lt_Some in Eo. unfold zlen in Tc. cbn. split; [lia|done].
Qed.

Lemma entryFields_input tx e f :
  is_input e -> entryFields tx e = Some f ->
  f_entryData f = Bytes <$> input_data e /\
  (forall b, f_spentOutputID f = Some b -> exists s o, e = ESpend s /\ SpentOutputId s = Some o /\ Bytes o = b).
Proof.
  intros He E. destruct e; try done; cbn [entryFields input_data] in *; simplify_option_eq; repeat case_match; simplify_option_eq; try done.
  all: split; [by simplify_option_eq|naive_solver].
Qed.

Lemma int64_le z : 0 <= z -> int64 z <= z.
Proof. intros Hz. unfold int64. pose proof (Z.mod_le (z + 9223372036854775808) 18446744073709551616). lia. Qed.

Lemma uint64_int64 z : uint64 (int64 z) = uint64 z.
Proof.
  unfold uint64, int64. rewrite Zminus_mod, Zmod_mod, <- Zminus_mod. f_equal. lia.
Qed.

(** The constraints, one by one, as facts about the transaction. *)
Lemma satisfied_commits tx' e prog args c tx index cs xr :
  is_input e -> NewTxVMContext tx' e prog args = Some c ->
  0 <= tx_MinTimeMs (Header tx') -> 0 <= tx_MaxTimeMs (Header tx') -> tx_sizes (lt_TxData tx) ->
  constraints_of tx index = Some cs -> Forall (satisfied c xr) cs -> commits tx' e tx index.
Proof.
  intros He Hc Hmin Hmax Hsz Hcs Hsat. unfold NewTxVMContext in Hc.
  destruct (tx_Data (Header tx')) as [td|] eqn:Etd; [|done]. cbn [mbind option_bind] in Hc.
  destruct (Bc.EntryID (Some e)) as [eid|] eqn:Eeid; [|done]. cbn [mbind option_bind] in Hc.
  destruct (entryFields tx' e) as [f|] eqn:Ef; [|done]. destruct prog as [p|]; [|done]. injection Hc as <-.
  destruct (entryFields_input _ _ _ He Ef) as [Fd Fs].
  unfold constraints_of in Hcs. destruct (InputIDs _ !! _) as [id|] eqn:Eid; [|done]. cbn [mbind option_bind] in Hcs.
  destruct (match Tx_Spend _ _ with Ok _ => _ | Err _ => _ end) as [sp|] eqn:Es; [|done]. cbn [mbind option_bind] in Hcs.
  destruct (Inputs _ !! _) as [inp|] eqn:Einp; [|done]. injection Hcs as <-.
  apply Forall_cons in Hsat as [[S1 S2] Hsat]. apply Forall_app in Hsat as [S3 Hsat]. apply Forall_app in Hsat as [S4 Hsat].
  apply Forall_cons in Hsat as [S5 S6]. cbn in S1, S2, S5. split.
  - intros [Hp Hle]. destruct (S1 Hp) as (m & [= <-] & Hm). pose proof (int64_le _ Hmin).
    rewrite (int64_id (MinTime _)) in Hm by (unfold_int; lia). lia.
  - intros [Hp Hlt]. destruct (S2 Hp) as (m & [= <-] & Hm). rewrite (int64_id (MaxTime _)) in Hm by (unfold_int; lia).
    unfold machine_max in Hm. destruct (Z.eqb_spec (tx_MaxTimeMs (Header tx')) 0); cbn [orb] in Hm.
    { rewrite int64_id in Hm by done. lia. }
    destruct (Z.ltb_spec MaxInt64 (tx_MaxTimeMs (Header tx'))); rewrite int64_id in Hm by (unfold_int; lia); lia.
  - intros id' sp' o Eid' Esp Eo. rewrite Eid in Eid'. injection Eid' as <-. rewrite Esp, Eo in Es. injection Es as <-. apply Forall_cons in S3 as [S3 _]. cbn in S3.
    by apply Fs in S3.
  - intros Hd. rewrite (proj2 (Z.ltb_lt _ _)) in S4; [|destruct (td_ReferenceData _) as [|? l]; [done|rewrite zlen_cons; pose proof (zlen_nonneg l); lia]].
    apply Forall_cons in S4 as [S4 _]. injection S4 as S4. eauto.
  - intros inp' Einp'. rewrite Einp in Einp'. injection Einp' as <-. rewrite Fd in S5. destruct (input_data e) as [d|]; [|done]. injection S5 as S5. eauto.
  - intros i out asset Hout oc Ha. rewrite Forall_lookup in S6.
    assert (imap out_constraint (Outputs (lt_TxData tx)) !! i = Some (out_constraint i out)) as Hk by (by rewrite list_lookup_imap, Hout).
    specialize (S6 _ _ Hk). destruct S6 as (asset' & check & Ha' & Hc & Hcheck). cbn in Hc. injection Hc as <-.
    assert (asset' = asset) as -> by (unfold oc in Ha; congruence).
    destruct Hsz as [_ Tc To]. rewrite Forall_lookup in To. destruct (To _ _ Hout) as [_ Hamt]. apply lookup_lt_Some in Hout.
    apply checkOutput_pays in Hcheck; [|done|rewrite uint64_id by (unfold zlen, MaxInt64, MaxUint64 in *; unfold_int; lia); lia].
    rewrite uint64_id in Hcheck by (unfold zlen in Tc; unfold_int; lia).
    rewrite uint64_int64 in Hcheck. rewrite uint64_id in Hcheck by (unfold_int; lia). by destruct (0 <? zlen (to_ReferenceData out)).
Qed.

(** ** Complete templates *)

(** The input and the transaction are the ones that were signed, unless their hashes collide. *)
Definition same_transaction (tx' : Tx) (e : Entry) (tx : LTx) (index : nat) : Prop :=
  exists id eid, InputIDs (lt_Tx tx) !! index = Some id /\ Bc.EntryID (Some e) = Some eid /\
    let s' := Bytes eid ++ Bytes (tx_ID tx') in let s := Bytes id ++ Bytes (tx_ID (lt_Tx tx)) in
    (Bytes eid = Bytes id /\ Bytes (tx_ID tx') = Bytes (tx_ID (lt_Tx tx))) \/ collision (eq s') (eq s).

Lemma sighash_same tx' e prog args c tx index h :
  NewTxVMContext tx' e prog args = Some c -> SigHash (lt_Tx tx) index = Some h -> c_TxSigHash c = Some (Bytes h) ->
  same_transaction tx' e tx index.
Proof.
  unfold NewTxVMContext, SigHash, same_transaction. intros Hc Hh Hs.
  destruct (tx_Data (Header tx')) as [td|] eqn:Etd; [|done]. cbn [mbind option_bind] in Hc.
  destruct (Bc.EntryID (Some e)) as [eid|] eqn:Eeid; [|done]. cbn [mbind option_bind] in Hc.
  destruct (entryFields tx' e) as [f|] eqn:Ef; [|done]. destruct prog as [p|]; [|done]. injection Hc as <-.
  destruct (InputIDs _ !! _) as [id|]; [|done]. injection Hh as <-. apply (inj Some) in Hs.
  apply Bytes_inj in Hs; [|apply wf_NewHash..].
  exists id, eid. split; [done|]. split; [done|].
  destruct (decide (Bytes eid ++ Bytes (tx_ID tx') = Bytes id ++ Bytes (tx_ID (lt_Tx tx)))) as [E|Hne].
  - left. apply app_inj_1 in E; [done|]. unfold Bytes. by rewrite !length_Byte32.
  - right. by eexists _, _.
Qed.

(** ** The theorem *)

(** A run that accepts what [buildSigProgram] made for input [index] of a template. *)
Lemma program_commits tpl tx index prog tx' e p args c ctx h0 xr fuel v vf :
  Transaction tpl = Some tx -> tx_sizes (lt_TxData tx) -> buildSigProgram tpl index = Some prog -> zlen prog <= MaxInt32 ->
  is_input e -> NewTxVMContext tx' e p args = Some c -> 0 <= tx_MinTimeMs (Header tx') -> 0 <= tx_MaxTimeMs (Header tx') ->
  shown h0 ctx c -> accepts ctx h0 xr prog fuel v vf ->
  if AllowAdditional tpl then commits tx' e tx index else same_transaction tx' e tx index.
Proof.
  intros Ht Hsz Hb Hl He Hc Hmin Hmax Hsh Hac. unfold buildSigProgram, Template_Hash in Hb. rewrite Ht in Hb.
  destruct (AllowAdditional tpl); cbn [negb mbind option_bind] in Hb.
  - destruct (constraints_of tx index) as [cs|] eqn:Ecs; [|done]. cbn [mbind option_bind] in Hb.
    eapply satisfied_commits; try done.
    eapply (leaves_accepts ctx h0 xr); [eapply leaves_join; [done| |by eapply constraints_sizes|done]|done|done].
    intros ->. unfold constraints_of in Ecs. destruct (InputIDs _ !! _); [|done]. cbn [mbind option_bind] in Ecs.
    destruct (match Tx_Spend _ _ with Ok _ => _ | Err _ => _ end); [|done]. cbn [mbind option_bind] in Ecs. by destruct (Inputs _ !! _).
  - destruct (SigHash (lt_Tx tx) index) as [h|] eqn:Eh; [|done]. injection Hb as <-.
    eapply sighash_same; [done|done|].
    eapply (leaves_accepts ctx h0 xr); [apply leaves_sighash; [done|]|done|done]. rewrite zlen_Bytes. done.
Qed.
End Commit.
