(* ===== verification/P2SP.v ===== *)
(** * Pay to signature program

    What a spend shows when its control program is the script of
    [vmutil.P2SPMultiSigProgram] and the virtual machine accepts its arguments: the last
    argument is a program that is true of the transaction, and enough of the keys have
    signed its hash. *)

From Stdlib Require Import ZArith Lia Strings.Byte.
From S2P Require Import Prelude Checked GoSlice Crypto VMCode VM VMRun VMSpec VMLogic.
From S2P Require VMUtil.

Section Script.
Context `{Runtime} `{CryptoLaws}.
Context (ctx : Context) (h0 : heap) (xr : bool).

Local Notation does R := (does ctx h0 xr R).

(** ** The instructions of the script *)

Lemma tri_item i c (Q : slice -> core -> Prop) : (forall s, k_ds c !! i = Some s -> Q s c) -> tri (VM.item i) c Q.
Proof. intros HQ v a v' <- E. unfold VM.item in E. destruct (dataStack v !! i) eqn:Es; [|done]. injection E as <- <-. by apply HQ. Qed.

Lemma tri_need n c (Q : unit -> core -> Prop) : (n <= zlen (k_ds c) -> Q tt c) -> tri (need n) c Q.
Proof. intros HQ. apply tri_bind, tri_gets. intros v <-. apply tri_require. intros Hn. apply HQ. cbn. lia. Qed.

Lemma does_dup i : does any_rest opDup [] ([i], []) ([i; i], []) True.
Proof.
  intros c [dr ar] Hctx Hheap Hxr Hdata _ [Hds Has]. cbn [fst snd] in *. apply stacked_cons in Hds as (s & ss & E & Hs & Hds).
  unfold opDup, nDup. cbn [push_items Nat.sub]. apply tri_bind, tri_applyCost, tri_bind, tri_need. intros _. apply tri_bind, tri_item. intros s' Es. rewrite E in Es. injection Es as <-.
  apply tri_bind, tri_push, tri_ret. split; [by split|]. split; [|done]. split; [|done].
  cbn [fst k_mem k_ds with_ds]. rewrite E. apply stacked_cons. exists s, (s :: ss). split; [done|]. split; [done|]. apply stacked_cons. eauto.
Qed.

(** Without arguments the script stops. *)
Lemma does_dup_empty outs : does no_rest opDup [] ([], []) outs False.
Proof.
  intros c rest Hctx Hheap Hxr Hdata -> [Hds Has]. cbn [fst snd] in *. destruct Hds as (l & E & ->%Forall2_nil_inv_r).
  apply tri_bind, tri_applyCost, tri_bind, tri_need. rewrite E. intros Hn. exfalso. change (1 <= 0) in Hn. lia.
Qed.

Lemma does_toalt i : does any_rest opToAltStack [] ([i], []) ([], [i]) True.
Proof.
  intros c [dr ar] Hctx Hheap Hxr Hdata _ [Hds Has]. cbn [fst snd] in *. apply stacked_cons in Hds as (s & ss & E & Hs & Hds).
  apply tri_bind, tri_applyCost, tri_bind, tri_need. intros _. apply tri_bind, tri_item. intros s' Es. rewrite E in Es. injection Es as <-.
  apply tri_modify. intros v <-. cbn in E, Hs, Hds, Has. split; [by split|]. split; [|done]. cbn. rewrite E. split; [done|]. apply stacked_cons. eauto.
Qed.

Lemma does_fromalt i : does any_rest opFromAltStack [] ([], [i]) ([i], []) True.
Proof.
  intros c [dr ar] Hctx Hheap Hxr Hdata _ [Hds Has]. cbn [fst snd] in *. apply stacked_cons in Has as (s & ss & E & Hs & Has).
  apply tri_bind, tri_applyCost, tri_bind, tri_gets. intros v Hv. assert (altStack v = s :: ss) as -> by (rewrite <- E, <- Hv; done).
  apply tri_modify. intros v' <-. split; [by split|]. split; [|done]. split; [|done]. cbn. apply stacked_cons. eauto.
Qed.

Lemma does_sha3 bs : does any_rest opSha3 [] ([Bs bs], []) ([Bs (sha3_256_sum bs)], []) True.
Proof.
  intros c [dr ar] Hctx Hheap Hxr Hdata _ [Hds Has]. cbn [fst snd] in *. apply stacked_cons in Hds as (s & ss & E & [Hs Hb] & Hds).
  apply tri_bind, tri_pop. intros s' rest Es. rewrite E in Es. injection Es as <- <-.
  apply tri_bind, tri_applyCost, tri_bind, tri_contents. cbn [k_mem with_ds]. rewrite Hb.
  apply tri_bind, tri_store. cbn [k_mem with_ds]. pose proof (sha3_256_len bs) as Hl.
  unfold append_slice. cbn [s_len s_cap emptySlice]. rewrite (proj2 (Nat.leb_gt _ _)) by (unfold zlen in Hl; lia).
  set (cap := growcap _ _). assert (Hcap : (length (sha3_256_sum bs) <= cap)%nat) by (pose proof (growcap_enough 0 (0 + length (sha3_256_sum bs))); done).
  change (sbytes (k_mem c) emptySlice ++ sha3_256_sum bs) with (sha3_256_sum bs).
  pose proof (alloc_wf (k_mem c) (sha3_256_sum bs) cap Hcap) as Hw. pose proof (alloc_bytes (k_mem c) (sha3_256_sum bs) cap) as Hbs.
  assert (k_mem c `prefix_of` (alloc (k_mem c) (sha3_256_sum bs) cap).2) as Hp by (by eexists).
  apply tri_push. split; [by split|]. split; [|done]. split; [|by eapply stacked_grows].
  apply stacked_cons. eexists _, _. split; [reflexivity|]. split; [split; [by right|done]|by eapply stacked_grows].
Qed.

Lemma tri_popN n : forall c (Q : list slice -> core -> Prop),
  (forall ss rest, k_ds c = ss ++ rest -> length ss = n -> Q ss (with_ds rest c)) -> tri (popN n) c Q.
Proof.
  induction n as [|n IH]; intros c Q HQ; cbn [popN].
  - apply tri_ret. destruct c. by apply (HQ [] _).
  - apply tri_bind, tri_pop. intros s rest E. apply tri_bind, IH. intros ss rest' E' Hl. apply tri_ret.
    cbn in E'. subst rest. cbn. apply (HQ (s :: ss) rest'); [done|]. cbn. by rewrite Hl.
Qed.

Lemma holds_map_Bs h l bss : Forall2 (holds h) l (map Bs bss) -> map (sbytes h) l = bss /\ map slen l = map zlen bss.
Proof.
  revert l. induction bss as [|bs bss IH]; intros l HF; cbn [map] in HF.
  - by apply Forall2_nil_inv_r in HF as ->.
  - apply Forall2_cons_inv_r in HF as (s & l' & [Hs Hb] & HF & ->). destruct (IH _ HF) as [E1 E2]. cbn [map].
    rewrite (stable_len h s Hs), Hb, E1, E2. done.
Qed.

(** The keys have the right size and the signatures, taken in the order of the stack, match. *)
Definition multisig_ok (msg : bytes) (sigs pubs : list bytes) : bool :=
  negb (existsb (fun p => negb (zlen p =? PublicKeySize)) pubs) && (zlen (match_sigs msg sigs pubs) =? 0).

Lemma existsb_len l (bss : list bytes) :
  map slen l = map zlen bss -> existsb (fun p => negb (slen p =? PublicKeySize)) l = existsb (fun p => negb (zlen p =? PublicKeySize)) bss.
Proof.
  revert bss. induction l as [|s l IH]; intros [|b bss] E; try done. cbn [map existsb] in *. injection E as -> E. by rewrite (IH bss).
Qed.

Lemma does_multisig pubs msg items n altItems :
  0 <= n ->
  does no_rest opCheckMultiSig [] (Int (zlen pubs) :: Int n :: map Bs pubs ++ Bs msg :: map Bs items, altItems)
    (Flag (multisig_ok msg (take (Z.to_nat n) items) pubs) :: map Bs (drop (Z.to_nat n) items), altItems) (n <= zlen items).
Proof.
  intros Hn c rest Hctx Hheap Hxr Hdata -> [Hds Has]. cbn [fst snd] in *.
  apply stacked_cons in Hds as (s1 & ss1 & E1 & [_ H1'] & Hds). apply stacked_cons in Hds as (s2 & ss2 & -> & [_ H2'] & Hds).
  destruct Hds as (l & -> & HF). apply Forall2_app_inv_r in HF as (lp & lr & HFp & HF & ->).
  apply Forall2_cons_inv_r in HF as (sm & li & [Hsm Hm] & HFi & ->). rewrite app_nil_r in E1.
  destruct (holds_map_Bs _ _ _ HFp) as [Ep Lp]. destruct (holds_map_Bs _ _ _ HFi) as [Ei Li].
  assert (length lp = length pubs) as Hlp by (by rewrite <- Ep, length_map).
  unfold opCheckMultiSig. apply tri_bind, tri_popInt64. intros s rest k Es Hk. rewrite E1 in Es. injection Es as <- <-.
  rewrite H1' in Hk. injection Hk as <-. destruct (MulInt64 _ _) as [pubCost ok].
  apply tri_bind, tri_require. intros _. apply tri_bind, tri_applyCost, tri_bind, tri_popInt64. intros s rest k Es Hk. cbn in Es. injection Es as <- <-.
  cbn in Hk. rewrite H2' in Hk. injection Hk as <-.
  apply tri_bind, tri_require. intros _. apply tri_bind, tri_popN. intros ps rest Es Hl. cbn in Es.
  unfold zlen in Hl. rewrite Nat2Z.id in Hl. apply app_inj_1 in Es as [<- <-]; [|lia].
  apply tri_bind, tri_pop. intros s rest Es. cbn in Es. injection Es as <- <-.
  apply tri_bind, tri_require. intros _. apply tri_bind, tri_popN. intros sgs rest Es Hl'. cbn in Es. cbn [k_mem with_ds].
  assert (sgs = take (Z.to_nat n) li /\ rest = drop (Z.to_nat n) li) as [-> ->].
  { subst li. rewrite <- Hl', take_app_length, drop_app_length. done. }
  assert (n <= zlen items) as Hni by (rewrite <- Ei; unfold zlen; rewrite length_map; rewrite length_take in Hl'; lia).
  assert (Hend : forall b, b = multisig_ok msg (take (Z.to_nat n) items) pubs ->
    tri (pushBool b true) (with_ds (drop (Z.to_nat n) li) c) (fun _ c' => keeps c c' /\
      on_stacks c' (Flag (multisig_ok msg (take (Z.to_nat n) items) pubs) :: map Bs (drop (Z.to_nat n) items), altItems) ([], []) /\ n <= zlen items)).
  { intros b ->. apply tri_push. split; [by split|]. split; [|done]. split; [|done]. cbn [fst k_mem k_ds with_ds].
    apply stacked_cons. eexists _, _. split; [reflexivity|]. split; [done|]. exists (drop (Z.to_nat n) li). split; [by rewrite app_nil_r|].
    rewrite <- skipn_map. by apply Forall2_drop. }
  cbn [with_ds k_ctx k_prog k_next k_xr k_data k_as k_mem] in *.
  destruct (existsb _ lp) eqn:Ex; rewrite (existsb_len _ _ Lp) in Ex.
  - apply Hend. unfold multisig_ok. by rewrite Ex.
  - apply tri_bind, tri_gets. intros v Hv. assert (mem v = k_mem c) as -> by (by injection Hv).
    apply Hend. unfold multisig_ok. rewrite Ex, Hm, Ep. cbn [negb andb]. do 3 f_equal. by rewrite <- firstn_map, Ei.
Qed.

(** ** The predicate *)

(** What [CHECKPREDICATE] leaves; the child machine can write to the store. *)
Lemma tri_checkpredicate n c pred its rest :
  k_ctx c = ctx -> h0 `prefix_of` k_mem c -> stacked (k_mem c) (k_ds c) (Int 0 :: Bs pred :: its) rest ->
  tri (opCheckPredicate (run n)) c (fun _ c' => k_prog c' = k_prog c /\ k_next c' = k_next c /\
    exists b ds, k_ds c' = BoolBytes b :: ds /\ (b = true -> exists v vf, accepts ctx h0 false pred n v vf)).
Proof.
  intros Hctx Hheap Hds. apply stacked_cons in Hds as (s1 & ss1 & E1 & _ & Hds). apply stacked_cons in Hds as (s2 & ss2 & -> & [Hst Hb] & _).
  unfold opCheckPredicate. apply tri_bind, tri_applyCost, tri_bind, tri_deferCost, tri_bind, tri_popInt64. intros s rest' limit Es _.
  rewrite E1 in Es. injection Es as <- <-. apply tri_bind, tri_pop. intros s rest' Es. cbn in Es. injection Es as <- <-.
  apply tri_bind, tri_popInt64. intros s rest' k Es _. cbn in Es. subst ss2.
  apply tri_bind, tri_require. intros _. apply tri_bind, tri_gets. intros v _. apply tri_bind, tri_require. intros _.
  apply tri_bind. assert (tri (if limit =? 0 then gets runLimit else mret limit) (with_ds rest' (with_ds (s :: rest') (with_ds (s2 :: s :: rest') c)))
    (fun _ c1 => c1 = with_ds rest' c)) as Hl.
  { destruct (limit =? 0); [by apply tri_gets|by apply tri_ret]. }
  eapply tri_weaken; [exact Hl|]. clear Hl. cbn beta. intros lim c1 ->. apply tri_bind, tri_applyCost.
  unfold runPredicate. apply tri_bind. destruct (k <? 0); [apply tri_panic|]. apply tri_ret. apply tri_bind, tri_gets. intros v' Hv'.
  apply tri_bind, tri_modify. intros v2 Hv2. apply tri_bind.
  destruct (run n (childVM v' s2 lim (Z.to_nat k))) as [r child] eqn:Er. cbn [fst snd].
  assert (forall b, (b = true -> exists v vf, accepts ctx h0 false pred n v vf) ->
    tri (deferCost (- runLimit child);; deferCost (- stackCost (dataStack child));; deferCost (- stackCost (altStack child));; pushBool b true)
      (core_of (set_mem (mem child) (set_dataStack (drop (Z.to_nat k) (dataStack v2)) v2)))
      (fun _ c' => k_prog c' = k_prog c /\ k_next c' = k_next c /\
        exists b ds, k_ds c' = BoolBytes b :: ds /\ (b = true -> exists v vf, accepts ctx h0 false pred n v vf))) as Hend.
  { intros b Hacc. do 3 apply tri_bind, tri_deferCost. apply tri_push. injection Hv2 as _ P2 P3 _ _ _ _ _.
    split; [done|]. split; [done|]. by exists b, (drop (Z.to_nat k) (dataStack v2)). }
  destruct r as [[]|e| |]; [|apply tri_ret, Hend; done|apply tri_panic|by intros ? ? ? _ ?].
  apply tri_ret, Hend. intros Hf. exists (childVM v' s2 lim (Z.to_nat k)), child.
  injection Hv' as V1 _ _ _ _ _ _ V8. split; cbn; rewrite ?V8; try done; [congruence|rewrite (stable_len (k_mem c) s2), Hb; done|].
  by destruct (falseResult child).
Qed.

Lemma predicate_accepted fuel v vf pre pred its as' rest :
  at_code ctx h0 xr v pre [byte_of_Z OP_CHECKPREDICATE] -> on_stacks (core_of v) (Int 0 :: Bs pred :: its, as') rest ->
  run_loop fuel v = (Ret tt, vf) -> falseResult vf = false ->
  exists n vc vcf, accepts ctx h0 false pred n vc vcf.
Proof.
  intros Ha [Hds _] Hr Hf. assert (encodes [byte_of_Z OP_CHECKPREDICATE] (mkInst OP_CHECKPREDICATE 1 [])) as He by (by apply encodes_plain; unfold OP_CHECKPREDICATE, OP_JUMP, OP_JUMPIF; lia).
  rewrite <- (app_nil_r [_]) in Ha. destruct (run_loop_step ctx h0 xr _ _ _ _ _ _ _ Ha He Hr) as (n & v1 & Hs & Hr1).
  destruct (step_core ctx h0 xr _ _ _ _ _ _ _ (opCheckPredicate (run n)) Ha He eq_refl Hs) as (v2 & Hfn & Hc & Hpc).
  destruct (tri_checkpredicate n (core_of (set_data [] (set_deferredCost 0 (set_nextPC (zlen (pre ++ [byte_of_Z OP_CHECKPREDICATE])) v)))) pred its rest.1
    (at_ctx _ _ _ _ _ _ Ha) (at_heap _ _ _ _ _ _ Ha) Hds _ _ _ eq_refl Hfn) as (P1 & P2 & b & ds & P3 & P4).
  assert (vf = v1) as ->.
  { destruct n as [|n]; [done|]. cbn [run_loop] in Hr1. injection Hc as C1 C2 C3 C4 C5 C6 C7 C8. cbn in P1, P2.
    rewrite Hpc, C2, P2, P1, (at_len _ _ _ _ _ _ Ha) in Hr1. pose proof (at_small _ _ _ _ _ _ Ha) as Hsm. rewrite app_nil_r in *.
    rewrite uint32_id in Hr1 by (pose proof (zlen_nonneg (pre ++ [byte_of_Z OP_CHECKPREDICATE])); unfold_int; lia).
    rewrite Z.ltb_irrefl in Hr1. by injection Hr1. }
  exists n. apply P4. injection Hc as _ _ _ _ _ C6 _ _. unfold falseResult in Hf. cbn in P3. rewrite C6, P3 in Hf. by destruct b.
Qed.

(** ** The script *)

Local Notation block0 := (block ctx h0 xr no_rest).

Lemma block_keys keys its altItems :
  Forall (fun k => zlen k = PublicKeySize) keys ->
  block0 (concat (map PushdataBytes keys)) (its, altItems) (map Bs (rev keys) ++ its, altItems) True.
Proof.
  intros HF. revert its. induction HF as [|k keys Hk _ IH]; intros its; cbn [map concat rev].
  - eapply block_mono; [apply block_nil|done].
  - rewrite map_app, <- app_assoc. eapply block_mono; [eapply block_seq; [apply block_data; rewrite Hk; done|apply IH]|done].
Qed.

(** The script up to the last instruction. *)
Definition script (keys : list bytes) (n : Z) : bytes :=
  (((((((([byte_of_Z OP_DUP] ++ [byte_of_Z OP_TOALTSTACK]) ++ [byte_of_Z OP_SHA3]) ++ concat (map PushdataBytes keys))
    ++ PushdataInt64 n) ++ PushdataInt64 (zlen keys)) ++ [byte_of_Z OP_CHECKMULTISIG]) ++ [byte_of_Z OP_VERIFY])
    ++ [byte_of_Z OP_FROMALTSTACK]) ++ PushdataInt64 0.

Lemma P2SP_script keys n prog :
  VMUtil.P2SPMultiSigProgram keys n = Ok prog -> 0 <= n /\ prog = script keys n ++ [byte_of_Z OP_CHECKPREDICATE].
Proof.
  unfold VMUtil.P2SPMultiSigProgram. destruct (VMUtil.checkMultiSigParams n (zlen keys)) as [[]|] eqn:Hp; [|done].
  apply VMUtil.checkMultiSigParams_ok in Hp. cbn [mbind result_bind]. intros [= <-]. split; [lia|].
  cbn [VMUtil.Program VMUtil.AddOp VMUtil.AddInt64]. by rewrite VMUtil.Program_AddDatas.
Qed.

Lemma block_script keys n pred items :
  Forall (fun k => zlen k = PublicKeySize) keys -> 0 <= n -> in_int64 n = true -> in_int64 (zlen keys) = true ->
  block0 (script keys n) (Bs pred :: map Bs items, []) (Int 0 :: Bs pred :: map Bs (drop (Z.to_nat n) items), [])
    (n <= zlen items /\ multisig_ok (sha3_256_sum pred) (take (Z.to_nat n) items) (rev keys) = true).
Proof.
  intros Hk Hn Hn' Hm. unfold script.
  eapply block_mono.
  { eapply block_seq; [eapply block_seq; [eapply block_seq; [eapply block_seq; [eapply block_seq; [eapply block_seq;
      [eapply block_seq; [eapply block_seq; [eapply block_seq|]|]|]|]|]|]|]|].
    - apply (block_plain ctx h0 xr no_rest OP_DUP opDup [Bs pred] [] [Bs pred; Bs pred] [] (map Bs items) []); [done|done|apply does_dup].
    - apply (block_plain ctx h0 xr no_rest OP_TOALTSTACK opToAltStack [Bs pred] [] [] [Bs pred] (Bs pred :: map Bs items) []); [done|done|apply does_toalt].
    - apply (block_plain ctx h0 xr no_rest OP_SHA3 opSha3 [Bs pred] [] [Bs (sha3_256_sum pred)] [] (map Bs items) [Bs pred]); [done|done|apply does_sha3].
    - by apply block_keys.
    - by apply block_int.
    - by apply block_int.
    - eapply (block_op _ _ _ _ _ (mkInst OP_CHECKMULTISIG 1 [])); [by apply encodes_plain; unfold OP_CHECKMULTISIG, OP_JUMP, OP_JUMPIF; lia|].
      intros k. exists opCheckMultiSig. split; [done|]. replace (zlen keys) with (zlen (rev keys)) by (unfold zlen; by rewrite length_rev).
      by apply does_multisig.
    - apply (block_plain ctx h0 xr no_rest OP_VERIFY opVerify [Flag (multisig_ok (sha3_256_sum pred) (take (Z.to_nat n) items) (rev keys))] [] [] []
        (map Bs (drop (Z.to_nat n) items)) [Bs pred]); [done|done|apply does_verify].
    - apply (block_plain ctx h0 xr no_rest OP_FROMALTSTACK opFromAltStack [] [Bs pred] [Bs pred] [] (map Bs (drop (Z.to_nat n) items)) []); [done|done|apply does_fromalt].
    - by apply block_int. }
  cbn [truthy]. tauto.
Qed.
End Script.
