(* ===== verification/SigTheorems.v ===== *)
(** * Signatures, from the script to the transaction

    A spend whose control program is a pay-to-signature-program script: what its
    acceptance by the virtual machine proves.  And what follows when the signed program
    is one that [core/txbuilder] made. *)

From Stdlib Require Import ZArith Lia Strings.Byte.
From stdpp Require Import gmap.
From S2P Require Import Prelude Checked GoSlice Crypto VMCode VM.
From S2P Require VMRun VMUtil VMExec.
From S2P Require Import VMSpec VMLogic Encoding Bc TxContext Legacy LegacyMap TxBuilder TxSign SigProgram P2SP.

(** ** Loaded contexts *)

Lemma new_slice_holds h bs s h' : new_slice h bs = (s, h') -> h `prefix_of` h' /\ holds h' s (Bs bs).
Proof.
  intros E. destruct (new_slice_grows h bs) as (Hp & Hs & Hb). rewrite E in Hp, Hs, Hb. done.
Qed.

Lemma new_slices_holds l : forall h ss h',
  new_slices h l = (ss, h') -> h `prefix_of` h' /\ Forall2 (holds h') ss (map Bs l).
Proof.
  induction l as [|bs l IH]; intros h ss h' E; cbn [new_slices] in E; [by injection E as <- <-|].
  destruct (new_slice h bs) as [s h1] eqn:E1. destruct (new_slices h1 l) as [ss' h2] eqn:E2. injection E as <- <-.
  apply new_slice_holds in E1 as [P1 H1]. apply IH in E2 as [P2 H2]. split; [by etrans|].
  constructor; [by eapply holds_grows|done].
Qed.

Lemma new_opt_shows h o r h' : new_opt h o = (r, h') -> h `prefix_of` h' /\ shows h' r o.
Proof.
  destruct o as [bs|]; cbn [new_opt]; [|by intros [= <- <-]]. destruct (new_slice h bs) as [s h1] eqn:E1.
  intros [= <- <-]. by apply new_slice_holds in E1.
Qed.

Lemma shows_grows h h' r o : h `prefix_of` h' -> shows h r o -> shows h' r o.
Proof.
  intros Hp. destruct r as [s|], o as [bs|]; try done. cbn. intros [Hs <-].
  split; [by eapply stable_grows|by apply sbytes_grows].
Qed.

Ltac grow := first [eassumption | eapply shows_grows; [eassumption|]; grow].
Ltac grow_holds := first [eassumption | eapply holds_grows; [eassumption|]; grow_holds].

Lemma load_shown c h ctx :
  load c = (h, ctx) -> shown h ctx c /\ holds h (VM.Code ctx) (Bs (c_Code c)) /\ Forall2 (holds h) (VM.Arguments ctx) (map Bs (c_Arguments c)).
Proof.
  unfold load. intros E.
  repeat match type of E with context [let '(_, _) := ?x in _] => destruct x as [? ?] eqn:? end.
  injection E as <- <-.
  repeat match goal with
  | HH : new_slice _ _ = _ |- _ => apply new_slice_holds in HH as [? ?]
  | HH : new_slices _ _ = _ |- _ => apply new_slices_holds in HH as [? ?]
  | HH : new_opt _ _ = _ |- _ => apply new_opt_shows in HH as [? ?]
  end.
  split; [|split].
  - split; cbn [VM.TxSigHash VM.SpentOutputID VM.EntryData VM.TxData VM.BlockHash VM.MinTimeMS VM.MaxTimeMS VM.CheckOutput]; try done; grow.
  - cbn [VM.Code]. grow_holds.
  - cbn [VM.Arguments]. eapply Forall2_impl; [eassumption|]. intros ? ? ?. grow_holds.
Qed.

(** ** Arguments *)

Lemma tri_push_args args : forall c, tri (VMRun.push_args args) c (fun _ c' => c' = with_ds (rev args ++ k_ds c) c).
Proof.
  induction args as [|a args IH]; intros c; cbn [VMRun.push_args rev].
  - apply tri_ret. by destruct c.
  - apply tri_bind, tri_push. eapply tri_weaken; [apply IH|]. cbn beta. intros _ c' ->. cbn. by rewrite <- app_assoc.
Qed.

Lemma Forall2_rev {A B} (P : A -> B -> Prop) l k : Forall2 P l k -> Forall2 P (rev l) (rev k).
Proof. induction 1; cbn [rev]; [constructor|]. apply Forall2_app; [done|by repeat constructor]. Qed.

Lemma signed_by_rev `{Crypto} msg sigs keys : signed_by msg (rev sigs) (rev keys) -> signed_by msg sigs keys.
Proof.
  intros (sel & Hs & HF). exists (rev sel). split.
  - rewrite <- (rev_involutive keys). clear HF. induction Hs as [|x l1 l2 _ IH|x l1 l2 _ IH]; cbn [rev]; [constructor| |].
    + by apply sublist_app.
    + by apply sublist_inserts_r.
  - rewrite <- (rev_involutive sigs). by apply Forall2_rev.
Qed.

Lemma multisig_ok_signed `{Crypto} msg sigs keys : multisig_ok msg sigs keys = true -> signed_by msg sigs keys.
Proof.
  intros [_ Hok]%andb_true_iff. apply match_sigs_signed. destruct (match_sigs _ _ _) as [|x l]; [done|].
  rewrite zlen_cons in Hok. pose proof (zlen_nonneg l). lia.
Qed.

Section Spend.
Context `{Runtime} `{CryptoLaws}.

(** What [Verify] says when it accepts. *)
Lemma Verify_accepts fuel h ctx :
  (VMRun.Verify fuel h ctx).1 = Some None ->
  exists v vf, VMRun.run fuel v = (Ret tt, vf) /\ falseResult vf = false /\
    core_of v = with_ds (rev (VM.Arguments ctx)) (core_of (VMRun.initVM h ctx)).
Proof.
  unfold VMRun.Verify. destruct (negb _); [done|].
  destruct (VMRun.push_args _ _) as [[[]|e| |] v] eqn:Ea; try done.
  destruct (VMRun.run fuel v) as [[[]|e| |] vf] eqn:Er; try done. destruct (falseResult vf) eqn:Ef; [done|]. intros _.
  exists v, vf. split; [done|]. split; [done|]. rewrite <- (app_nil_r (rev _)).
  by apply (tri_push_args (VM.Arguments ctx) _ _ _ _ eq_refl Ea).
Qed.

(** The machine at the start of the run. *)
Lemma Verify_starts c h ctx fuel :
  load c = (h, ctx) -> zlen (c_Code c) <= MaxInt32 -> (VMRun.Verify fuel h ctx).1 = Some None ->
  exists v vf, VMRun.run fuel v = (Ret tt, vf) /\ falseResult vf = false /\
    at_code ctx h (VM.expansionReserved (VMRun.initVM h ctx)) (set_pc 0 v) [] (c_Code c) /\
    on_stacks (core_of v) (map Bs (rev (c_Arguments c)), []) ([], []).
Proof.
  intros Hload Hl Hver. destruct (load_shown _ _ _ Hload) as (_ & [Hcs Hcb] & Hargs).
  destruct (Verify_accepts _ _ _ Hver) as (v & vf & Hr & Hf & Hc). exists v, vf. split; [done|]. split; [done|]. split.
  - injection Hc as C1 C2 C3 C4 C5 C6 C7 C8. split; cbn; rewrite ?C1, ?C2, ?C8; try done.
    rewrite (stable_len h); [by rewrite Hcb|done].
  - assert (VM.mem v = h /\ VM.altStack v = []) as [Hmem Has] by (by injection Hc). split; cbn; rewrite Hmem, ?Has; [|done].
    exists (VM.dataStack v). split; [by rewrite app_nil_r|]. injection Hc as _ _ _ _ _ C6 _ _. rewrite C6, map_rev. by apply Forall2_rev.
Qed.

Lemma script_accepts c h ctx keys n fuel :
  load c = (h, ctx) -> VMUtil.P2SPMultiSigProgram keys n = Ok (c_Code c) -> zlen (c_Code c) <= MaxInt32 ->
  Forall (fun k => zlen k = PublicKeySize) keys -> in_int64 n = true -> in_int64 (zlen keys) = true ->
  (VMRun.Verify fuel h ctx).1 = Some None ->
  exists before sigs pred, c_Arguments c = before ++ sigs ++ [pred] /\ zlen sigs = n /\
    signed_by (sha3_256_sum pred) sigs keys /\ exists k v vf, accepts ctx h false pred k v vf.
Proof.
  intros Hload Hprog Hl Hk Hn Hm Hver. destruct (Verify_starts _ _ _ _ Hload Hl Hver) as (v & vf & Hr & Hf & Ha & Hst).
  destruct (P2SP_script _ _ _ Hprog) as [Hn0 Ecode]. set (xr := VM.expansionReserved (VMRun.initVM h ctx)) in *. rewrite Ecode in Ha.
  destruct (rev (c_Arguments c)) as [|pred items] eqn:Er.
  { exfalso. eapply (block_op ctx h xr no_rest [byte_of_Z OP_DUP] (mkInst OP_DUP 1 []) ([], []) ([], []) False); [by apply encodes_plain; unfold OP_DUP, OP_JUMP, OP_JUMPIF; lia| |exact Ha|done|exact Hst|exact Hr].
    intros k. exists VM.opDup. split; [done|]. apply does_dup_empty. }
  destruct (block_script ctx h xr keys n pred items Hk Hn0 Hn Hm fuel (set_pc 0 v) vf [] _ ([], []) Ha eq_refl Hst Hr) as ((Hcnt & Hok) & f' & v' & Ha' & _ & Hst' & Hr').
  pose proof (predicate_accepted ctx h xr _ _ _ _ _ _ _ _ Ha' Hst' Hr' Hf) as Hpred.
  exists (rev (drop (Z.to_nat n) items)), (rev (take (Z.to_nat n) items)), pred. split; [|split; [|split; [|exact Hpred]]].
  - rewrite <- (rev_involutive (c_Arguments c)), Er. cbn [rev]. rewrite app_assoc, <- rev_app_distr. by rewrite take_drop.
  - unfold zlen in *. rewrite length_rev, length_take. lia.
  - apply signed_by_rev. rewrite rev_involutive. by apply multisig_ok_signed.
Qed.

Lemma keys_counted keys n prog :
  VMUtil.P2SPMultiSigProgram keys n = Ok prog -> zlen prog <= MaxInt32 -> Forall (fun k => zlen k = PublicKeySize) keys ->
  in_int64 (zlen keys) = true.
Proof.
  intros Hp Hl Hk. apply P2SP_script in Hp as [_ ->]. destruct (VMUtil.keys_encoded keys Hk) as (insts & HF & _).
  unfold script in Hl. rewrite <- !app_assoc in Hl. rewrite 2!app_assoc in Hl. by eapply VMUtil.keys_count.
Qed.

(** The program [pred] is true in the context [c], in whatever store it is shown. *)
Definition true_in (c : vmctx) (pred : bytes) : Prop :=
  exists h ctx fuel v vf, shown h ctx c /\ accepts ctx h false pred fuel v vf.

(** C33: a context whose program is the pay-to-signature-program script of some keys and a
    quorum, which the virtual machine accepts: the last argument is a program that is true
    in that context, before it come as many signatures as the quorum asks for, and these
    are signatures of the hash of that program under different keys of the script, in the
    order of the keys. *)
Theorem p2sp_accepted_signed c keys n fuel :
  VMUtil.P2SPMultiSigProgram keys n = Ok (c_Code c) -> zlen (c_Code c) <= MaxInt32 ->
  Forall (fun k => zlen k = PublicKeySize) keys -> in_int64 n = true ->
  (VMRun.Verify fuel (load c).1 (load c).2).1 = Some None ->
  exists before sigs pred, c_Arguments c = before ++ sigs ++ [pred] /\ zlen sigs = n /\
    signed_by (sha3_256_sum pred) sigs keys /\ true_in c pred.
Proof.
  intros Hp Hl Hk Hn Hv. destruct (load c) as [h ctx] eqn:El. pose proof (keys_counted _ _ _ Hp Hl Hk) as Hm.
  destruct (script_accepts _ _ _ _ _ _ El Hp Hl Hk Hn Hm Hv) as (before & sigs & pred & Ea & Hs & Hsig & k & v & vf & Hac).
  exists before, sigs, pred. split; [done|]. split; [done|]. split; [done|].
  exists h, ctx, k, v, vf. split; [|done]. by apply (load_shown _ _ _ El).
Qed.

(** C34: what a signature program made for a template says about a transaction in which an
    input presents it and it is true.  When the template was still open, the transaction
    keeps the time bounds, the spent output, the reference data of the transaction and of
    the input, and has each of the template's outputs in its place (asset, amount, control
    program, reference data).  When it was complete, it is the same input of the same
    transaction, up to a collision of the hash. *)
Theorem signature_commits tpl tx index prog tx' e p args c :
  Transaction tpl = Some tx -> tx_sizes (lt_TxData tx) -> buildSigProgram tpl index = Some prog -> zlen prog <= MaxInt32 ->
  is_input e -> NewTxVMContext tx' e p args = Some c -> 0 <= tx_MinTimeMs (Header tx') -> 0 <= tx_MaxTimeMs (Header tx') ->
  true_in c prog ->
  if AllowAdditional tpl then commits tx' e tx index else same_transaction tx' e tx index.
Proof. intros ? ? ? ? ? ? ? ? (h & ctx & k & v & vf & Hsh & Hac). by eapply program_commits. Qed.
End Spend.

(** ** Example: a template is built, signed and spent *)

Definition ex_key : bytes := replicate 32 x61.
Definition ex_script : bytes := match VMUtil.P2SPMultiSigProgram [ex_key] 1 with Ok p => p | Err _ => [] end.

Definition ex_open : TxData :=
  mkTxData 1 [NewSpendInput [] (mkHash 1 2 3 4) (mkHash 9 0 0 0) 10 0 ex_script zeroHash [x07]]
    [NewTxOutput (mkHash 9 0 0 0) 4 [x51] [x08]; NewTxOutput (mkHash 9 0 0 0) 6 [x51] []] 5 100 [] [] [x09].

Definition ex_template (more : bool) : Template :=
  mkTemplate (@NewTx poly_crypto sorted_range ex_open) [mkSI 0 [0%nat]] true more.

Definition ex_sign : SignFunc (W := unit) := fun xpub _ _ w => (Some xpub, w).

Definition ex_signed (more : bool) : bout unit * Template * witnesses * unit :=
  @Sign poly_crypto unit (ex_template more) [ex_key] ex_sign [mkSW 1 [mkKeyID ex_key []] [] []] tt.

Definition ex_spent (more : bool) : option (Tx * Entry * vmctx) :=
  t ← Transaction (ex_signed more).1.1.2;
  id ← InputIDs (lt_Tx t) !! 0%nat;
  e ← ojoin (Entries (lt_Tx t) !! id);
  inp ← Inputs (lt_TxData t) !! 0%nat;
  c ← @NewTxVMContext poly_crypto (lt_Tx t) e (Some (mkProgram 1 ex_script)) (TxInput_Arguments inp);
  Some (lt_Tx t, e, c).

Definition ex_accepts (more : bool) : bool :=
  match ex_spent more with
  | Some (_, _, c) =>
      bool_decide (c_Code c = ex_script) &&
      match (@VMRun.Verify exact_runtime poly_crypto 80 (load c).1 (load c).2).1 with Some None => true | _ => false end
  | None => false
  end.

Lemma ex_accepted more : ex_accepts more = true.
Proof. destruct more; by vm_compute. Qed.

(** The transaction, the input and the context that were signed. *)
Lemma ex_spent_eq more : exists tx' e c, ex_spent more = Some (tx', e, c) /\ c_Code c = ex_script /\
  (@VMRun.Verify exact_runtime poly_crypto 80 (load c).1 (load c).2).1 = Some None.
Proof.
  pose proof (ex_accepted more) as Ha. unfold ex_accepts in Ha. destruct (ex_spent more) as [[[tx' e] c]|]; [|done].
  exists tx', e, c. apply andb_true_iff in Ha as [Hc Hv]. apply bool_decide_eq_true in Hc.
  split; [done|]. split; [done|]. by destruct (VMRun.Verify _ _ _).1 as [[]|].
Qed.

Lemma p2sp_accepted_signed_witness :
  exists c before sigs pred, c_Code c = ex_script /\ c_Arguments c = before ++ sigs ++ [pred] /\ zlen sigs = 1 /\
    @signed_by poly_crypto (@sha3_256_sum poly_crypto pred) sigs [ex_key] /\ @true_in exact_runtime poly_crypto c pred.
Proof.
  destruct (ex_spent_eq true) as (tx' & e & c & _ & Hc & Hv).
  destruct (@p2sp_accepted_signed exact_runtime poly_crypto poly_crypto_laws c [ex_key] 1 80) as (before & sigs & pred & Hr);
    [rewrite Hc; by vm_compute|rewrite Hc; by vm_compute|by repeat constructor|done|exact Hv|].
  exists c, before, sigs, pred. split; [exact Hc|exact Hr].
Defined.

(** The last argument is the program of the template. *)
Definition ex_program (more : bool) : bytes := default [] (@buildSigProgram poly_crypto (ex_template more) 0).

Definition ex_input (more : bool) : bool :=
  match ex_spent more with
  | Some (tx', e, c) =>
      bool_decide (List.last (c_Arguments c) [] = ex_program more) && (0 <=? tx_MinTimeMs (Header tx')) && (0 <=? tx_MaxTimeMs (Header tx')) &&
      match e with ESpend _ => true | _ => false end
  | None => false
  end.

Lemma ex_true_in more : exists tx' e c args, ex_spent more = Some (tx', e, c) /\
  @NewTxVMContext poly_crypto tx' e (Some (mkProgram 1 ex_script)) args = Some c /\ is_input e /\
  0 <= tx_MinTimeMs (Header tx') /\ 0 <= tx_MaxTimeMs (Header tx') /\ @true_in exact_runtime poly_crypto c (ex_program more).
Proof.
  destruct (ex_spent_eq more) as (tx' & e & c & E & Hc & Hv). assert (Hi : ex_input more = true) by (destruct more; by vm_compute).
  unfold ex_input in Hi. rewrite E in Hi. apply andb_true_iff in Hi as [Hi He]. apply andb_true_iff in Hi as [Hi H2].
  apply andb_true_iff in Hi as [Hl H1]. apply bool_decide_eq_true in Hl.
  assert (exists args, @NewTxVMContext poly_crypto tx' e (Some (mkProgram 1 ex_script)) args = Some c) as [args Hctx].
  { unfold ex_spent in E. clear -E. destruct (Transaction _) as [t|]; [|done]. cbn [mbind option_bind] in E.
    destruct (InputIDs _ !! _) as [id|]; [|done]. cbn [mbind option_bind] in E. destruct (ojoin _) as [e'|]; [|done]. cbn [mbind option_bind] in E.
    destruct (Inputs _ !! _) as [inp|]; [|done]. cbn [mbind option_bind] in E.
    destruct (NewTxVMContext _ _ _ _) as [c'|] eqn:En; [|done]. cbn [mbind option_bind] in E. injection E as <- <- <-. eauto. }
  destruct (load c) as [h ctx] eqn:El.
  destruct (@script_accepts exact_runtime poly_crypto poly_crypto_laws c h ctx [ex_key] 1 80 El) as (before & sigs & pred & Ea & _ & _ & k & v & vf & Hac);
    [rewrite Hc; by vm_compute|rewrite Hc; by vm_compute|by repeat constructor|done|done|exact Hv|].
  assert (pred = ex_program more) as ->.
  { rewrite <- Hl, Ea, app_assoc. by rewrite List.last_last. }
  exists tx', e, c, args. split_and!; try done; [by destruct e|lia|lia|]. exists h, ctx, k, v, vf. split; [|done]. by apply (load_shown _ _ _ El).
Qed.

Lemma signature_commits_witness :
  exists tx tx' e tx2' e2,
    @NewTx poly_crypto sorted_range ex_open = Some tx /\ @commits poly_crypto tx' e tx 0 /\
    @same_transaction poly_crypto tx2' e2 tx 0.
Proof.
  destruct (@NewTx poly_crypto sorted_range ex_open) as [tx|] eqn:Et; [|exfalso; vm_compute in Et; discriminate].
  assert (tx_sizes (lt_TxData tx)) as Hsz.
  { unfold NewTx in Et. destruct (MapTx ex_open); [|done]. injection Et as <-. split; [split; by vm_compute|by vm_compute|].
    repeat constructor; by vm_compute. }
  destruct (ex_true_in true) as (tx' & e & c & args & _ & Hc & He & H1 & H2 & Ht).
  destruct (ex_true_in false) as (tx2' & e2 & c2 & args2 & _ & Hc2 & He2 & H21 & H22 & Ht2).
  exists tx, tx', e, tx2', e2. split; [done|]. split.
  - apply (@signature_commits exact_runtime poly_crypto poly_crypto_laws (ex_template true) tx 0 (ex_program true) tx' e (Some (mkProgram 1 ex_script)) args c);
      [exact Et|done|by vm_compute|by vm_compute|done|done|done|done|done].
  - apply (@signature_commits exact_runtime poly_crypto poly_crypto_laws (ex_template false) tx 0 (ex_program false) tx2' e2 (Some (mkProgram 1 ex_script)) args2 c2);
      [exact Et|done|by vm_compute|by vm_compute|done|done|done|done|done].
Defined.
