(* ===== verification/TxSignTheorems.v ===== *)
(** * Signing and finalizing: theorems

    Signing a complete template gives a transaction that [FinalizeTx] accepts as committed
    to, and [FinalizeTx] hands on nothing else.  The examples show what happens to
    templates that were decoded from JSON, and to open templates that retire assets. *)

From Stdlib Require Import ZArith Lia Strings.Byte String.
From stdpp Require Import gmap.
From S2P Require Import Prelude Checked Crypto VMCode VMUtil Encoding Bc TxContext Legacy LegacyMap TxBuilder TxSign GoSlice SigTheorems.
From S2P Require VMRun.

(** ** What the programs and arguments are after signing *)

(** Go through a computation in [option] that returned. *)
Ltac obind H := repeat match type of H with
  | mbind _ ?o = Some _ => let E := fresh "E" in destruct o eqn:E; [cbn [mbind option_bind] in H|discriminate]
  end.

Section Proofs.
Context `{CryptoLaws} {W : Type}.
Context (tpl : Template) (xpubs : list bytes) (signFn : SignFunc (W := W)).

(** ** The program of a witness *)

Definition program_of (sws : witnesses) (p : nat) : option bytes := sw_Program <$> sws !! p.

Lemma sign_program sw index w sw' w' si :
  SigningInstructions tpl !! index = Some si -> sign sw tpl index xpubs signFn w = (BOk tt, sw', w') ->
  sw_Program sw' <> [] /\ (sw_Program sw <> [] -> sw_Program sw' = sw_Program sw) /\
  (sw_Program sw = [] -> buildSigProgram tpl (Z.to_nat (Position si)) = Some (sw_Program sw')).
Proof.
  intros Hsi. unfold sign. destruct (Z.eqb_spec (zlen (sw_Program sw)) 0) as [E|E].
  - assert (sw_Program sw = []) as -> by (by apply length_zero_iff_nil; unfold zlen in E; lia).
    rewrite Hsi. cbn [mbind option_bind]. destruct (buildSigProgram _ _) as [p|]; [|done].
    destruct (Z.eqb_spec (zlen p) 0) as [|Ep]; [done|]. destruct (sign_keys _ _ _ _ _ _ _) as [[r sigs] w1]. intros [= -> <- <-]. cbn.
    split; [by intros ->|]. done.
  - rewrite (proj2 (Z.eqb_neq _ _)) by done. destruct (sign_keys _ _ _ _ _ _ _) as [[r sigs] w1]. intros [= -> <- <-]. cbn.
    split; [by intros HH; rewrite HH in E|]. split; [done|]. intros HH. by rewrite HH in E.
Qed.

(** The pointer [p] is used for one position only, and its program is unset or the one
    for that position. *)
Section Pointer.
Context (p : nat) (pos : Z) (P : bytes).
Hypothesis HP : forall prog, buildSigProgram tpl (Z.to_nat pos) = Some prog -> prog = P.
Hypothesis Hpos : forall i si, SigningInstructions tpl !! i = Some si -> p ∈ SignatureWitnesses si -> Position si = pos.

Lemma sign_witnesses_program ptrs : forall index si sws w sws' w',
  SigningInstructions tpl !! index = Some si -> (forall q, q ∈ ptrs -> q ∈ SignatureWitnesses si) ->
  sign_witnesses tpl index ptrs xpubs signFn sws w = (BOk tt, sws', w') ->
  length sws' = length sws /\
  (program_of sws p = Some [] \/ program_of sws p = Some P -> program_of sws' p = Some [] \/ program_of sws' p = Some P) /\
  (program_of sws p = Some P /\ P <> [] \/ (p ∈ ptrs /\ program_of sws p = Some []) -> program_of sws' p = Some P /\ P <> []).
Proof.
  induction ptrs as [|q ptrs IH]; intros index si sws w sws' w' Hsi Hin Hs; cbn [sign_witnesses] in Hs.
  { injection Hs as <- <-. split; [done|]. split; [done|]. intros [|[HH _]]; [done|]. by apply not_elem_of_nil in HH. }
  destruct (sws !! q) as [sw|] eqn:Eq; [|done]. destruct (sign sw tpl index xpubs signFn w) as [[[[]|e|] sw1] w1] eqn:Esw; try done.
  destruct (sign_program _ _ _ _ _ _ Hsi Esw) as (Hne & Hkeep & Hnew).
  destruct (IH _ _ _ _ _ _ Hsi (fun q' Hq' => Hin q' (list_elem_of_further _ _ _ Hq')) Hs) as (Hlen & Hinv & Hset).
  rewrite length_insert in Hlen. split; [done|].
  assert (Hstep : (p <> q -> program_of (<[q := sw1]> sws) p = program_of sws p) /\
    (p = q -> (program_of sws p = Some [] -> program_of (<[q := sw1]> sws) p = Some P /\ P <> []) /\
              (program_of sws p = Some P /\ P <> [] -> program_of (<[q := sw1]> sws) p = Some P))).
  { unfold program_of. split; [intros Hpq; by rewrite list_lookup_insert_ne|]. intros ->.
    rewrite list_lookup_insert_eq by (by eapply lookup_lt_Some). rewrite Eq. cbn. split.
    - intros [= HH]. assert (Position si = pos) as Hp by (eapply Hpos; [done|apply Hin; left]).
      specialize (Hnew HH). rewrite Hp in Hnew. apply HP in Hnew as E1. by rewrite E1 in *.
    - intros [[= HH] HPne]. f_equal. rewrite HH in Hkeep. auto. }
  destruct Hstep as [Hother Hsame]. destruct (decide (p = q)) as [->|Hpq].
  - destruct (Hsame eq_refl) as [Ha Hb]. split.
    + intros [HH|HH]; [right; apply Hset; left; by apply Ha|]. destruct (decide (P = [])) as [E|E].
      * right. apply Hset. left. apply Ha. by rewrite HH, E.
      * right. apply Hset. left. split; [|done]. by apply Hb.
    + intros [HH|[_ HH]]; apply Hset; left; [split; [by apply Hb|apply HH]|by apply Ha].
  - rewrite (Hother Hpq) in Hinv, Hset. split; [done|]. intros [HH|[Hi HH]]; apply Hset; [by left|]. right. split; [|done].
    by apply elem_of_cons in Hi as [|].
Qed.

Lemma sign_instructions_program sis : forall index sws w sws' w',
  (forall i, SigningInstructions tpl !! (index + i)%nat = sis !! i) ->
  sign_instructions tpl index sis xpubs signFn sws w = (BOk tt, sws', w') ->
  program_of sws p = Some P /\ P <> [] \/
    (program_of sws p = Some [] /\ exists si, si ∈ sis /\ p ∈ SignatureWitnesses si) ->
  program_of sws' p = Some P /\ P <> [].
Proof.
  induction sis as [|si sis IH]; intros index sws w sws' w' Hsis Hs Hor; cbn [sign_instructions] in Hs.
  { injection Hs as <- <-. destruct Hor as [|[_ (si & HH & _)]]; [done|]. by apply not_elem_of_nil in HH. }
  destruct (sign_witnesses _ _ _ _ _ _ _) as [[[[]|e|] sws1] w1] eqn:Ew; try done.
  assert (SigningInstructions tpl !! index = Some si) as Hsi by (by rewrite <- (Nat.add_0_r index), Hsis).
  destruct (sign_witnesses_program _ _ _ _ _ _ _ Hsi (fun q Hq => Hq) Ew) as (_ & Hinv & Hset).
  eapply IH; [|exact Hs|].
  { intros i. pose proof (Hsis (S i)) as HH. by rewrite Nat.add_succ_r in HH. }
  destruct Hor as [HH|[HH (si' & Hin & Hp)]]; [left; apply Hset; by left|].
  destruct (decide (p ∈ SignatureWitnesses si)) as [Hi|Hni]; [left; apply Hset; by right|].
  apply elem_of_cons in Hin as [->|Hin]; [done|].
  destruct Hinv as [E|E]; [by left| |].
  - right. split; [done|]. eauto.
  - destruct (decide (P = [])) as [E0|E0]; [|by left]. right. split; [by rewrite E, E0|]. eauto.
Qed.
End Pointer.
End Proofs.

(** ** The arguments of an input *)

Lemma materialize_all_app sws ptrs p : forall args r,
  materialize_all sws (ptrs ++ [p]) args = Some r ->
  exists mid sw, materialize_all sws ptrs args = Some mid /\ sws !! p = Some sw /\ r = materialize sw mid.
Proof.
  induction ptrs as [|q ptrs IH]; intros args r Hm; cbn [materialize_all app] in *; obind Hm; [|by eapply IH].
  injection Hm as <-. by eexists _, _.
Qed.

(** What [SetInputArguments] changes and keeps. *)
Lemma SetInputArguments_spec tx n args tx' :
  SetInputArguments tx n args = Some tx' ->
  InputIDs (lt_Tx tx') = InputIDs (lt_Tx tx) /\ tx_ID (lt_Tx tx') = tx_ID (lt_Tx tx) /\
  exists inp, Inputs (lt_TxData tx) !! n = Some inp /\ Inputs (lt_TxData tx') = <[n := SetArguments inp args]> (Inputs (lt_TxData tx)).
Proof.
  unfold SetInputArguments. intros Hs. obind Hs. injection Hs as <-. cbn. eauto.
Qed.

Lemma materialize_instructions_keeps sws sis : forall tx tx',
  materialize_instructions sws sis tx = (BOk tt, tx') ->
  InputIDs (lt_Tx tx') = InputIDs (lt_Tx tx) /\ tx_ID (lt_Tx tx') = tx_ID (lt_Tx tx) /\
  length (Inputs (lt_TxData tx')) = length (Inputs (lt_TxData tx)) /\
  forall pos, pos ∉ map (fun si => Z.to_nat (Position si)) sis -> Inputs (lt_TxData tx') !! pos = Inputs (lt_TxData tx) !! pos.
Proof.
  induction sis as [|si sis IH]; intros tx tx' Hm; cbn [materialize_instructions] in Hm; [by injection Hm as <-|].
  destruct (Inputs _ !! _); [|done]. destruct (materialize_all _ _ _) as [args|]; [|done].
  destruct (SetInputArguments _ _ _) as [tx1|] eqn:Es; [|done].
  apply SetInputArguments_spec in Es as (E1 & E2 & inp & Ei & E3). apply IH in Hm as (F1 & F2 & F3 & F4).
  rewrite F1, F2, F3, E3, length_insert. split_and!; try done. intros pos Hp. cbn [map] in Hp. apply not_elem_of_cons in Hp as [Hne Hni].
  rewrite F4, E3 by done. by apply list_lookup_insert_ne.
Qed.

Lemma materialize_instructions_sets sws sis : forall i si tx tx',
  NoDup (map (fun si => Z.to_nat (Position si)) sis) -> sis !! i = Some si ->
  materialize_instructions sws sis tx = (BOk tt, tx') ->
  exists inp args, Inputs (lt_TxData tx) !! Z.to_nat (Position si) = Some inp /\
    materialize_all sws (SignatureWitnesses si) [] = Some args /\
    Inputs (lt_TxData tx') !! Z.to_nat (Position si) = Some (SetArguments inp args).
Proof.
  induction sis as [|si0 sis IH]; intros i si tx tx' Hnd Hi Hm; [done|]. cbn [materialize_instructions map] in Hm, Hnd.
  apply NoDup_cons in Hnd as [Hni Hnd].
  destruct (Inputs _ !! _) as [inp0|] eqn:E0; [|done]. destruct (materialize_all _ (SignatureWitnesses si0) _) as [args|] eqn:Ea; [|done].
  destruct (SetInputArguments _ _ _) as [tx1|] eqn:Es; [|done].
  apply SetInputArguments_spec in Es as (_ & _ & inp & Ei & E3). destruct i as [|i]; cbn in Hi.
  - injection Hi as <-. apply materialize_instructions_keeps in Hm as (_ & _ & _ & F4). exists inp, args.
    split; [done|]. split; [done|]. rewrite F4, E3 by done. apply list_lookup_insert_eq. by eapply lookup_lt_Some.
  - destruct (IH _ _ _ _ Hnd Hi Hm) as (inp' & args' & G1 & G2 & G3). exists inp', args'. split; [|done].
    rewrite E3, list_lookup_insert_ne in G1; [done|]. intros HH. apply Hni. rewrite HH.
    by apply list_elem_of_In, (in_map (fun si => Z.to_nat (Position si))), list_elem_of_In, (list_elem_of_lookup_2 _ i).
Qed.

Lemma Arguments_SetArguments inp args : ti_TypedInput inp <> None -> TxInput_Arguments (SetArguments inp args) = args.
Proof. unfold TxInput_Arguments, SetArguments. cbn. by destruct (ti_TypedInput inp) as [[]|]. Qed.

(** ** The commitment *)

Section Commitment.
Context `{CryptoLaws}.

Definition sighash_program (h : Hash) : bytes :=
  VMUtil.Program (AddOp (AddOp (AddData VMUtil.NewBuilder (Bytes h)) OP_TXSIGHASH) OP_EQUAL).

Lemma sighash_program_shape h : sighash_program h = byte_of_Z (OP_DATA 32) :: Bytes h ++ [byte_of_Z OP_TXSIGHASH; byte_of_Z OP_EQUAL].
Proof.
  unfold sighash_program, AddOp, AddData, PushdataBytes. cbn [VMUtil.Program VMUtil.NewBuilder app]. rewrite zlen_Bytes.
  cbn [Z.eqb Z.leb Z.compare Pos.compare Pos.compare_cont]. rewrite <- app_assoc. done.
Qed.

Lemma input_commits_ok tx i inp h front :
  SigHash (lt_Tx tx) i = Some h -> TxInput_Arguments inp = front ++ [sighash_program h] -> (2 <= length front)%nat ->
  input_commits tx i inp = Some None.
Proof.
  intros Hh Ha Hf. unfold input_commits. rewrite Ha, Hh. cbn [mbind option_bind].
  assert (zlen (front ++ [sighash_program h]) >= 3) as Hl by (unfold zlen; rewrite length_app; cbn; lia).
  rewrite (proj2 (Z.eqb_neq _ 0)), (proj2 (Z.ltb_ge _ 3)) by lia. rewrite List.last_last, sighash_program_shape.
  assert (length (Bytes h) = 32)%nat as Hb by (unfold Bytes; by rewrite length_Byte32).
  assert (zlen (byte_of_Z (OP_DATA 32) :: Bytes h ++ [byte_of_Z OP_TXSIGHASH; byte_of_Z OP_EQUAL]) = 35) as ->
    by (unfold zlen; cbn [length]; rewrite length_app, Hb; done).
  cbn [Z.eqb Pos.eqb negb at_ nth Z.to_nat]. change (Z_of_byte (byte_of_Z (OP_DATA 32)) =? OP_DATA 32) with true. cbn [negb].
  cbn [drop]. rewrite drop_app_length' by done. rewrite bool_decide_true by done. cbn [negb].
  change (byte_of_Z (OP_DATA 32) :: Bytes h ++ [byte_of_Z OP_TXSIGHASH; byte_of_Z OP_EQUAL])
    with ([byte_of_Z (OP_DATA 32)] ++ Bytes h ++ [byte_of_Z OP_TXSIGHASH; byte_of_Z OP_EQUAL]).
  rewrite subslice_app; [|done|by rewrite zlen_Bytes]. by rewrite bool_decide_true.
Qed.

(** One input that commits is enough. *)
Lemma check_commitments_ok tx ins : forall i last j inp,
  (forall k, (i <= k < i + length ins)%nat -> is_Some (SigHash (lt_Tx tx) k)) ->
  ins !! j = Some inp -> input_commits tx (i + j) inp = Some None -> check_commitments tx i ins last = Some None.
Proof.
  induction ins as [|inp0 ins IH]; intros i last j inp Hh Hj Hc; [done|]. cbn [check_commitments].
  assert (exists r, input_commits tx i inp0 = Some r) as [r Er].
  { unfold input_commits. repeat (case_match; [by eexists|]). destruct (Hh i) as [h ->]; [cbn; lia|]. cbn [mbind option_bind].
    case_match; by eexists. }
  rewrite Er. cbn [mbind option_bind]. destruct r as [e|]; [|done]. destruct j as [|j]; cbn in Hj.
  - injection Hj as ->. rewrite Nat.add_0_r in Hc. congruence.
  - eapply IH; [|exact Hj|by rewrite Nat.add_succ_r in Hc]. intros k Hk. apply Hh. cbn. lia.
Qed.
End Commitment.

(** ** Theorems *)

Section Theorems.
Context `{CryptoLaws} {W : Type}.

(** C35: [Sign] on a template that allows no more actions, for a transaction all of whose
    inputs have a type and an identifier and whose instructions are for different positions.
    When [Sign] succeeds, and some instruction has a last witness that (a) had no program
    yet, or already the one for the hash of this input, as after an earlier signer, (b) is
    used for no other position, and (c) holds a signature afterwards, then the transaction of
    the template, which is still the same one, passes [checkTxSighashCommitment].  [Sign]
    also succeeds when no key that it knows signs; (c) excludes that. *)
Theorem signed_template_commits tpl tx xpubs (signFn : SignFunc (W := W)) sws w tpl' sws' w' i si ps p sw :
  Transaction tpl = Some tx -> AllowAdditional tpl = false ->
  length (InputIDs (lt_Tx tx)) = length (Inputs (lt_TxData tx)) -> Forall (fun inp => ti_TypedInput inp <> None) (Inputs (lt_TxData tx)) ->
  NoDup (map (fun si => Z.to_nat (Position si)) (SigningInstructions tpl)) ->
  SigningInstructions tpl !! i = Some si -> SignatureWitnesses si = ps ++ [p] ->
  (forall j sj, SigningInstructions tpl !! j = Some sj -> p ∈ SignatureWitnesses sj -> Position sj = Position si) ->
  (program_of sws p = Some [] \/
   exists h, SigHash (lt_Tx tx) (Z.to_nat (Position si)) = Some h /\ program_of sws p = Some (sighash_program h)) ->
  Sign tpl xpubs signFn sws w = (BOk tt, tpl', sws', w') ->
  sws' !! p = Some sw -> take_sigs (Sigs sw) 0 (Quorum sw) <> [] ->
  exists tx', Transaction tpl' = Some tx' /\ tx_ID (lt_Tx tx') = tx_ID (lt_Tx tx) /\ checkTxSighashCommitment tx' = Some None.
Proof.
  intros Ht Hal Hlen Hty Hnd Hsi Hps Hone Hprog Hs Hsw Hsig. unfold Sign in Hs.
  destruct (sign_instructions _ _ _ _ _ _ _) as [[[[]|e|] sws1] w1] eqn:Ei; try done.
  destruct (materializeWitnesses tpl sws1) as [r tpl1] eqn:Em. injection Hs as -> <- <- <-.
  unfold materializeWitnesses in Em. rewrite Ht in Em. destruct (_ <? _); [done|].
  destruct (materialize_instructions _ _ _) as [r1 tx1] eqn:Emi. injection Em as -> <-. exists tx1. split; [done|].
  destruct (materialize_instructions_keeps _ _ _ _ Emi) as (Eids & Eid & Elen & _). split; [done|].
  destruct (materialize_instructions_sets _ _ _ _ _ _ Hnd Hsi Emi) as (inp & args & Ein & Ea & Ein').
  set (pos := Z.to_nat (Position si)) in *.
  assert (exists h, SigHash (lt_Tx tx) pos = Some h) as [h Hh].
  { unfold SigHash. destruct (lookup_lt_is_Some_2 (InputIDs (lt_Tx tx)) pos) as [id ->]; [|by eexists].
    rewrite Hlen. by eapply lookup_lt_Some. }
  assert (Hbuild : forall prog, buildSigProgram tpl pos = Some prog -> prog = sighash_program h).
  { intros prog. unfold buildSigProgram, Template_Hash. rewrite Hal, Ht. cbn [negb mbind option_bind]. rewrite Hh. by intros [= <-]. }
  destruct (sign_instructions_program tpl xpubs signFn p (Position si) (sighash_program h) Hbuild Hone
    (SigningInstructions tpl) 0 sws w sws1 w1) as [Hp _]; [done|done| |].
  { destruct Hprog as [Hprog|(h' & Hh' & Hprog)].
    - right. split; [done|]. exists si. split; [by eapply list_elem_of_lookup_2|]. rewrite Hps. apply elem_of_app. right. by apply list_elem_of_singleton.
    - left. fold pos in Hh'. rewrite Hh in Hh'. injection Hh' as ->. split; [done|]. by rewrite sighash_program_shape. }
  rewrite Hps in Ea. apply materialize_all_app in Ea as (mid & sw0 & _ & Esw & ->). rewrite Hsw in Esw. injection Esw as <-.
  unfold program_of in Hp. rewrite Hsw in Hp. injection Hp as Hp.
  unfold checkTxSighashCommitment. eapply (check_commitments_ok _ _ 0 None pos); [|exact Ein'|].
  - intros k Hk. unfold SigHash. rewrite Eids. destruct (lookup_lt_is_Some_2 (InputIDs (lt_Tx tx)) k) as [id ->]; [lia|]. by eexists.
  - eapply (input_commits_ok _ _ _ h (mid ++ [int64_bytes (zlen mid)] ++ take_sigs (Sigs sw) 0 (Quorum sw))).
    + unfold SigHash in *. cbn [Nat.add]. by rewrite Eids, Eid.
    + rewrite Arguments_SetArguments by (by eapply Forall_lookup_1 in Hty). unfold materialize. by rewrite Hp, <- !app_assoc.
    + rewrite !length_app. destruct (take_sigs _ _ _); [done|]. cbn. lia.
Qed.
End Theorems.

(** ** Examples *)

(** Parts of the example that are computed. *)
Lemma tuple_eta {A B C} (x : A * B * C * unit) r : x.1.1.1 = r -> x = (r, x.1.1.2, x.1.2, tt).
Proof. by destruct x as [[[? ?] ?] []]; intros <-. Qed.

Definition ex_tx_false : LTx := default (mkLTx ex_open (mkTx (NewTxHeader 1 [] None 0 0) zeroHash ∅ [] [] [])) (Transaction (ex_template false)).
Definition ex_sw_false : signatureWitness := default (mkSW 0 [] [] []) ((ex_signed false).1.2 !! 0%nat).

Lemma is_Some_default {A} (d : A) o : match o with Some _ => true | None => false end = true -> o = Some (default d o).
Proof. by destruct o. Qed.

Lemma signed_template_commits_witness :
  exists tx', Transaction (ex_signed false).1.1.2 = Some tx' /\ @checkTxSighashCommitment poly_crypto tx' = Some None.
Proof.
  destruct (@signed_template_commits poly_crypto unit (ex_template false) ex_tx_false [ex_key] ex_sign [mkSW 1 [mkKeyID ex_key []] [] []] tt
    (ex_signed false).1.1.2 (ex_signed false).1.2 tt 0 (mkSI 0 [0%nat]) [] 0 ex_sw_false) as (tx' & H1 & _ & H3).
  - apply is_Some_default. vm_compute. reflexivity.
  - reflexivity.
  - vm_compute. reflexivity.
  - apply Forall_forall. intros inp Hin. apply list_elem_of_In in Hin.
    assert (forallb (fun inp => match ti_TypedInput inp with Some _ => true | None => false end) (Inputs (lt_TxData ex_tx_false)) = true) as Hall
      by (vm_compute; reflexivity).
    rewrite forallb_forall in Hall. specialize (Hall inp Hin). clear Hin. destruct (ti_TypedInput inp); discriminate.
  - repeat constructor. apply not_elem_of_nil.
  - reflexivity.
  - reflexivity.
  - intros [|j] sj Hj _; [by injection Hj as <-|done].
  - left. reflexivity.
  - apply tuple_eta. vm_compute. reflexivity.
  - apply is_Some_default. vm_compute. reflexivity.
  - assert (take_sigs (Sigs ex_sw_false) 0 (Quorum ex_sw_false) = [ex_key]) as -> by (vm_compute; reflexivity). discriminate.
  - exists tx'. split; [exact H1|exact H3].
Defined.

(** Decoding gives one witness to all components of an instruction: each is the last one. *)
Lemma decode_components_alias p pre : forall sws ptrs sws', (p < length sws)%nat ->
  decode_components p pre sws = (BOk ptrs, sws') ->
  ptrs = replicate (length pre) p /\ sws' !! p = match last pre with Some x => Some x.2 | None => sws !! p end.
Proof.
  induction pre as [|[typ sw] pre IH]; intros sws ptrs sws' Hp E; cbn [decode_components] in E; [by injection E as <- <-|].
  destruct (String.eqb typ "signature"); [|done].
  destruct (decode_components p pre (<[p := sw]> sws)) as [[l|e|] sws1] eqn:Ed; try done. injection E as <- <-.
  apply IH in Ed as [-> Hl]; [|by rewrite length_insert]. split; [done|]. rewrite Hl, list_lookup_insert_eq by done.
  rewrite last_cons. by destruct (last pre).
Qed.

Lemma decoded_components_are_one pos pre sws si sws' :
  SigningInstruction_UnmarshalJSON (pos, pre) sws = (BOk si, sws') ->
  SignatureWitnesses si = replicate (length pre) (length sws) /\
  forall pre' typ sw, pre = pre' ++ [(typ, sw)] -> sws' !! length sws = Some sw.
Proof.
  unfold SigningInstruction_UnmarshalJSON. cbn [fst snd].
  destruct (decode_components _ _ _) as [[ptrs|e|] sws1] eqn:E; try done. intros [= <- <-].
  apply decode_components_alias in E as [-> Hl]; [|rewrite length_app; cbn; lia]. split; [done|].
  intros pre' typ sw ->. by rewrite Hl, last_snoc.
Qed.

(** An input with two witnesses of different keys: after decoding, the arguments hold the
    second one twice, and the first key does not sign. *)
Definition ex_two : list (string * signatureWitness) :=
  [("signature"%string, mkSW 1 [mkKeyID ex_key []] [x51] []); ("signature"%string, mkSW 1 [mkKeyID (replicate 32 x62) []] [x52] [])].

(** The arguments of the first input after the template with these instructions is signed. *)
Definition signed_arguments (sis : list SigningInstruction) (sws : witnesses) (xpubs : list bytes) : bout (option (list bytes)) :=
  match @Sign poly_crypto unit (mkTemplate (@NewTx poly_crypto sorted_range ex_open) sis true false) xpubs ex_sign sws tt with
  | (BOk _, tpl, _, _) => BOk (tx ← Transaction tpl; TxInput_Arguments <$> Inputs (lt_TxData tx) !! 0%nat)
  | (BErr e, _, _, _) => BErr e
  | (BPanic, _, _, _) => BPanic
  end.

Lemma decoded_witnesses_lost :
  match SigningInstruction_UnmarshalJSON (0, ex_two) [] with
  | (BOk si, sws) => signed_arguments [si] sws [ex_key; replicate 32 x62]
  | _ => BPanic
  end = BOk (Some [[]; replicate 32 x62; [x52]; [x03]; replicate 32 x62; [x52]]).
Proof. vm_compute. reflexivity. Qed.

(** A transaction without inputs passes the check, although no input commits to it. *)
Lemma no_inputs_pass tx : Inputs (lt_TxData tx) = [] -> @checkTxSighashCommitment poly_crypto tx = Some None.
Proof. unfold checkTxSighashCommitment. by intros ->. Qed.

(** A signing instruction whose position is beyond the inputs makes [Sign] panic, also when
    nothing is left to sign. *)
Lemma position_out_of_range_panics : signed_arguments [mkSI 1 []] [] [] = BPanic.
Proof. vm_compute. reflexivity. Qed.

(** Whether the virtual machine accepts the first input of a transaction that was signed
    with the key of its control program. *)
Definition spend_accepted (data : TxData) (more : bool) : option bool :=
  let tpl := mkTemplate (@NewTx poly_crypto sorted_range data) [mkSI 0 [0%nat]] true more in
  tx ← Transaction (@Sign poly_crypto unit tpl [ex_key] ex_sign [mkSW 1 [mkKeyID ex_key []] [] []] tt).1.1.2;
  id ← InputIDs (lt_Tx tx) !! 0%nat;
  e ← ojoin (Entries (lt_Tx tx) !! id);
  inp ← Inputs (lt_TxData tx) !! 0%nat;
  c ← @NewTxVMContext poly_crypto (lt_Tx tx) e (Some (mkProgram 1 ex_script)) (TxInput_Arguments inp);
  verdict ← (@VMRun.Verify exact_runtime poly_crypto 80 (load c).1 (load c).2).1;
  Some (match verdict with None => true | Some _ => false end).

Definition ex_paying (prog : bytes) : TxData :=
  mkTxData 1 [NewSpendInput [] (mkHash 1 2 3 4) (mkHash 9 0 0 0) 10 0 ex_script zeroHash []]
    [NewTxOutput (mkHash 9 0 0 0) 10 prog []] 5 100 [] [] [].

(** An open template that pays is accepted, and one that retires is not, although nothing
    was changed after it was signed: its constraint asks for an output of version 1, and a
    retirement has version 0 in [checkOutput].  The complete template is accepted. *)
Lemma open_retirement_rejected :
  spend_accepted (ex_paying [x51]) true = Some true /\
  spend_accepted (ex_paying retirementProgram) true = Some false /\
  spend_accepted (ex_paying retirementProgram) false = Some true.
Proof. split_and!; vm_compute; reflexivity. Qed.
