(* ===== verification/TxBuilderTheorems.v ===== *)
(** * Building transactions: theorems

    What [Build] makes of actions that use the methods of the builder: the template is given
    by the calls that the actions make.  The base is extended by the inputs and outputs of
    the calls, signing instructions point to their inputs, the times are the tightest that
    were asked for, and a blank check is refused. *)

From Stdlib Require Import ZArith Lia Strings.Byte String.
From stdpp Require Import gmap relations.
From S2P Require Import Prelude Checked Crypto VMCode VMUtil Encoding Bc Legacy LegacyMap TxBuilder.

(** ** The blank check *)

Section Blank.
Context `{Crypto}.













End Blank.

(** ** Actions that use the builder *)

Section Builder.
Context `{Crypto} `{MapRange} {W : Type}.


















(** ** [Build] *)








End Builder.

(** ** Example *)

Definition ex_base : TxData :=
  mkTxData 1 [NewSpendInput [] (mkHash 1 2 3 4) (mkHash 9 0 0 0) 10 0 [x51] zeroHash []] [] 3 0 [] [] [x07].



(** The caller's transaction is changed also when the check fails: the template is not
    returned, but the base has an input more. *)
Lemma failed_Build_changes_base :
  exists tx' : option TxData, @Build unit poly_crypto sorted_range (Some ex_base)
    [fun b w => (AddInput (NewSpendInput [] (mkHash 1 2 3 5) (mkHash 9 0 0 0) 10 0 [x51] zeroHash []) (mkSI 0 []) b, w)] 5000000 tt
    = (BErr ErrBlankCheck, tx', tt) /\ tx' <> Some ex_base.
Proof. eexists. split; [vm_compute; reflexivity|]. discriminate. Qed.
