(* ===== verification/Finalize.v ===== *)
(** * Finalizing a transaction: [core/txbuilder/finalize.go]

    [FinalizeTx] checks that an input commits to the transaction, waits for the first
    block, asks the chain and hands the transaction to the submitter.  The submitter is a
    parameter: it changes a world [W] and tells whether it succeeded. *)

From Stdlib Require Import ZArith Lia.
From stdpp Require Import gmap.
From S2P Require Import Prelude Checked Crypto Encoding Bc Legacy LegacyMap StateTree Snapshot Validation Chain.
From S2P Require TxBuilder TxSign.

Section Finalize.
Context {T : Type} `{StateTree T} `{Crypto} `{Verifier}.
Context {S : Type} `{!Store T S} {C : Type} `{LRU C}.
Context (fuel : nat) {W : Type} (submit : LTx -> W -> bool * W).

Notation Chain := (Chain (T := T) (S := S) (C := C)).

Inductive fout :=
| Finalized
| NotCommitted (e : TxBuilder.berr)
| Waiting
| Rejected
| Invalid (e : cerr)
| NotSubmitted
| FPanic
| FFuel.

Definition FinalizeTx (tx : LTx) (c : Chain) (w : W) : fout * Chain * W :=
  match TxSign.checkTxSighashCommitment tx with
  | None => (FPanic, c, w)
  | Some (Some e) => (NotCommitted e, c, w)
  | Some None =>
      let c := BlockWaiter 1 c in
      if ch_height c <? 1 then (Waiting, c, w)
      else
        match chain_ValidateTx fuel (lt_Tx tx) c with
        | (CErr ErrBadTx, c) => (Rejected, c, w)
        | (CErr e, c) => (Invalid e, c, w)
        | (CPanic, c) => (FPanic, c, w)
        | (CFuel, c) => (FFuel, c, w)
        | (CRet _, c) => let '(ok, w) := submit tx w in (if ok then Finalized else NotSubmitted, c, w)
        end
  end.

(** The submitter is called for exactly the transactions that commit to themselves, once
    there is a block, and that the chain finds valid; nothing else changes the world. *)
Lemma FinalizeTx_submits tx c w r c' w' :
  FinalizeTx tx c w = (r, c', w') ->
  (r = Finalized \/ r = NotSubmitted <->
    TxSign.checkTxSighashCommitment tx = Some None /\ 1 <= ch_height c /\ (chain_ValidateTx fuel (lt_Tx tx) (BlockWaiter 1 c)).1 = CRet tt) /\
  (r = Finalized \/ r = NotSubmitted -> submit tx w = (match r with Finalized => true | _ => false end, w')) /\
  (~ (r = Finalized \/ r = NotSubmitted) -> w' = w).
Proof.
  assert (ch_height (BlockWaiter 1 c) = ch_height c) as Hh by (unfold BlockWaiter; by destruct (_ <? _)).
  unfold FinalizeTx. destruct (TxSign.checkTxSighashCommitment tx) as [[e|]|]; rewrite ?Hh; intros E; [by simplify_eq; naive_solver| |by simplify_eq; naive_solver].
  destruct (Z.ltb_spec (ch_height c) 1); [simplify_eq; split_and!; [|naive_solver|done]; split; [naive_solver|lia]|].
  destruct (chain_ValidateTx fuel (lt_Tx tx) (BlockWaiter 1 c)) as [[[]|e| |] c1]; cbn [fst].
  - destruct (submit tx w) as [[] w1] eqn:Es; simplify_eq; naive_solver.
  - destruct e; simplify_eq; naive_solver.
  - simplify_eq; naive_solver.
  - simplify_eq; naive_solver.
Qed.
End Finalize.
