(* ===== verification/BlockSigner.v ===== *)
(** * Signing of blocks: [core/blocksigner/blocksigner.go]

    A block signer keeps a table of the heights it has signed at, which has a unique index
    on the height.  Any number of goroutines, and of processes with the same database,
    serve requests to sign; each of the statements and calls below is one action, and
    between two actions the chain may have become any other.  The key is in an HSM: the
    state records the headers that it was asked to sign, and its answers are arbitrary.

    First come the operations and that a signer never signs two blocks at one height; then
    what this says about blocks: a federation whose quorum is large enough makes at most
    one acceptable block at a height. *)

From Stdlib Require Import ZArith Lia Strings.Byte.
From stdpp Require Import gmap relations.
From S2P Require Import Prelude GoSlice Crypto VMCode.
From S2P Require VM VMRun VMUtil.
From S2P Require Import VMSpec VMLogic Encoding Bc EntryHash Legacy LegacyRoundtrip LegacyMap Merkle StateTree Patricia Snapshot TxContext Validation SigProgram P2SP SigTheorems Chain Concur.

Section Signer.
Context {T : Type} `{StateTree T} `{Crypto} `{Verifier}.
Context {S : Type} `{!Store T S} {C : Type} `{LRU C}.
Context (fuel : nat).

Notation Chain := (Chain (T := T) (S := S) (C := C)).

(** [ErrDB] is an error of the database, [ErrDone] that of the request's context. *)
Inductive sgerr :=
| ErrConsensusChange
| ErrInvalidKey
| ErrDB
| ErrDone
| ErrText (e : serr)
| ErrChain (e : cerr (T := T) (S := S)).

Record SignerState := mkSigner {
  sg_chain : Chain;
  signed_blocks : gmap Z bytes;
  hsm_headers : list LBlockHeader;
}.

Definition set_chain (c : Chain) (s : SignerState) : SignerState := mkSigner c (signed_blocks s) (hsm_headers s).
Definition set_signed (t : gmap Z bytes) (s : SignerState) : SignerState := mkSigner (sg_chain s) t (hsm_headers s).
Definition add_header (bh : LBlockHeader) (s : SignerState) : SignerState :=
  mkSigner (sg_chain s) (signed_blocks s) (hsm_headers s ++ [bh]).

(** A statement is executed, or fails without having been executed, or was executed and
    its answer is lost. *)
Inductive db_fault := DbFine | DbLost | DbAnswerLost.

Record senv := mkSenv {
  e_db : db_fault;
  e_hsm : option bytes;
  e_done : bool;
}.

Notation prog := (prog senv SignerState).

(** [INSERT ... WHERE NOT EXISTS] under the index [signed_blocks_block_height_idx]. *)
Definition insert_signed (height : Z) (hash : bytes) (t : gmap Z bytes) : result sgerr unit * gmap Z bytes :=
  match t !! height with
  | None => (Ok tt, <[height := hash]> t)
  | Some hash' => if bool_decide (hash' = hash) then (Ok tt, t) else (Err ErrDB, t)
  end.

Definition db_Exec (f : db_fault) (stmt : gmap Z bytes -> result sgerr unit * gmap Z bytes) (t : gmap Z bytes) :
    result sgerr unit * gmap Z bytes :=
  match f with
  | DbFine => stmt t
  | DbLost => (Err ErrDB, t)
  | DbAnswerLost => (Err ErrDB, (stmt t).2)
  end.

(** A parameter that is not an [int64] is refused by [database/sql]. *)
Definition lockBlockHeight (b : ChainBlock) : prog (result sgerr unit) :=
  atomic_or_panic (fun e s =>
    match BlockHeader_Hash b.1 with
    | None => (s, None)
    | Some h =>
        if MaxInt64 <? lb_Height b.1 then (s, Some (Err ErrDB))
        else
          let '(r, t) := db_Exec (e_db e) (insert_signed (lb_Height b.1) (Bytes h)) (signed_blocks s) in
          (set_signed t s, Some r)
    end).

(** [s.hsm.Sign(ctx, s.Pub, &b.BlockHeader)]; any error is one of the key. *)
Definition hsm_Sign (bh : LBlockHeader) : prog (result sgerr bytes) :=
  atomic (fun e s => (add_header bh s, match e_hsm e with Some sig => Ok sig | None => Err ErrInvalidKey end)).

Definition lock_and_sign (b : ChainBlock) : prog (result sgerr bytes) :=
  r ← lockBlockHeight b;
  match r with
  | Err e => mret (Err e)
  | Ok _ => hsm_Sign b.1
  end.

(** [Block.UnmarshalText] into a block with mapped transactions; [None] is a panic. *)
Definition unmarshal_block (text : bytes) : option (result serr ChainBlock) :=
  match hex_decode text with
  | None => Some (Err Unsupported)
  | Some bs =>
      r ← read_block (NewReader bs);
      Some (match r with
            | (Err e, _) => Err e
            | (Ok b, rest) => if 0 <? Len rest then Err TrailingGarbage else Ok b
            end)
  end.

Definition SignBlock (marshalledBlock : bytes) : prog (result sgerr bytes) :=
  match unmarshal_block marshalledBlock with
  | None => Concur.Panic
  | Some (Err e) => mret (Err (ErrText e))
  | Some (Ok b) => lock_and_sign b
  end.

(** A call of the chain. *)
Definition on_chain {A} (m : CM (T := T) (S := S) (C := C) A) : prog (result sgerr A) :=
  atomic_or_panic (fun _ s =>
    let '(r, c) := m (sg_chain s) in
    (set_chain c s, match r with CRet a => Some (Ok a) | CErr e => Some (Err (ErrChain e)) | CPanic | CFuel => None end)).

(** The request waits for the block or for the end of its context. *)
Definition wait_block (height : Z) : prog (result sgerr unit) :=
  Act (fun e s => if e_done e then Some (s, mret (Err ErrDone))
                  else if height <=? ch_height (sg_chain s) then Some (s, mret (Ok tt)) else None).

Definition block_soon (height : Z) : prog (result sgerr unit) :=
  r ← on_chain (BlockSoonWaiter height);
  match r with Err e => mret (Err e) | Ok _ => wait_block height end.

Definition ValidateAndSignBlock (b : ChainBlock) : prog (result sgerr bytes) :=
  r ← block_soon (uint64 (lb_Height b.1 - 1));
  match r with
  | Err e => mret (Err e)
  | Ok _ =>
      r ← on_chain (chain_GetBlock (uint64 (lb_Height b.1 - 1)));
      match r with
      | Err e => mret (Err e)
      | Ok prev =>
          if negb (bool_decide (ConsensusProgram b.1 = ConsensusProgram prev.1)) then mret (Err ErrConsensusChange)
          else
            r ← on_chain (ValidateBlockForSig fuel b);
            match r with
            | Err e => mret (Err e)
            | Ok _ => lock_and_sign b
            end
      end
  end.

(** ** A signer at work *)

Definition drop_result {A} (p : prog A) : prog unit := p;; mret tt.

(** Requests come from the generator, here or over the network, whose fields have their
    Go types; the rest of the process works on the chain. *)
Inductive signer_starts : prog unit -> Prop :=
| start_sign text : signer_starts (drop_result (SignBlock text))
| start_validate b : canon_header b.1 -> signer_starts (drop_result (ValidateAndSignBlock b))
| start_chain (f : Chain -> Chain) : signer_starts (atomic (fun _ s => (set_chain (f (sg_chain s)) s, tt))).

(** States that a signer can come to that starts with an empty table. *)
Definition signer_reachable (s : SignerState) : Prop :=
  exists c ps, rtc (pool_step (fun _ _ => True) signer_starts) (mkSigner c ∅ [], []) (s, ps).

(** *** Every header that was signed has its row in the table *)

Record signed_row (s : SignerState) (bh : LBlockHeader) : Prop := {
  sr_canon : canon_header bh;
  sr_row : exists h, BlockHeader_Hash bh = Some h /\ signed_blocks s !! lb_Height bh = Some (Bytes h);
}.

Definition signer_ok (s : SignerState) : Prop := Forall (signed_row s) (hsm_headers s).

(** Rows are only added. *)
Definition grows (s s' : SignerState) : Prop := signed_blocks s ⊆ signed_blocks s'.

#[local] Instance grows_preorder : PreOrder grows.
Proof. split; [intros s; unfold grows; done|intros s1 s2 s3; unfold grows; apply transitivity]. Qed.

Lemma signed_row_grows s s' bh : grows s s' -> signed_row s bh -> signed_row s' bh.
Proof. intros Hg [Hc (h & Eh & Er)]. split; [done|]. exists h. split; [done|]. by eapply lookup_weaken. Qed.

Lemma signer_ok_table s t : signer_ok s -> signed_blocks s ⊆ t -> signer_ok (set_signed t s).
Proof. intros Hok Ht. eapply Forall_impl; [exact Hok|]. intros bh. by apply signed_row_grows. Qed.

Lemma signer_ok_chain s c : signer_ok s -> signer_ok (set_chain c s).
Proof. intros Hok. eapply Forall_impl; [exact Hok|]. intros bh. apply signed_row_grows. by unfold grows. Qed.

Lemma insert_signed_ok height hash t r t' :
  insert_signed height hash t = (r, t') -> t ⊆ t' /\ (r = Ok tt -> t' !! height = Some hash).
Proof.
  unfold insert_signed. destruct (t !! height) as [hash'|] eqn:Et.
  - case_bool_decide; intros [= <- <-]; (split; [done|]); [by subst|done].
  - intros [= <- <-]. split; [by apply insert_subseteq|]. by rewrite lookup_insert_eq.
Qed.

Lemma db_Exec_ok f height hash t r t' :
  db_Exec f (insert_signed height hash) t = (r, t') -> t ⊆ t' /\ (r = Ok tt -> t' !! height = Some hash).
Proof.
  destruct (insert_signed height hash t) as [r1 t1] eqn:Ei. destruct (insert_signed_ok _ _ _ _ _ Ei) as [Ht Hr].
  destruct f; cbn [db_Exec]; rewrite ?Ei; by intros [= <- <-].
Qed.

Notation safe p s Q := (Concur.safe (fun _ _ => True) signer_ok grows p s Q).

Lemma lockBlockHeight_safe b s :
  safe (lockBlockHeight b) s (fun r s' => r = Ok tt -> exists h, BlockHeader_Hash b.1 = Some h /\ signed_blocks s' !! lb_Height b.1 = Some (Bytes h)).
Proof.
  apply safe_atomic_or_panic. intros e s0 _ _ Hok. destruct (BlockHeader_Hash b.1) as [h|]; [|done].
  destruct (MaxInt64 <? lb_Height b.1); [by split_and!; [done|cbn; reflexivity|intros r [= <-]]|].
  destruct (db_Exec _ _ _) as [r t] eqn:Ed. destruct (db_Exec_ok _ _ _ _ _ _ Ed) as [Ht Hr]. cbn.
  split_and!; [by apply signer_ok_table|done|]. intros r' [= <-] ->. exists h. split; [done|]. by apply Hr.
Qed.

Lemma lock_and_sign_safe b s : canon_header b.1 -> safe (lock_and_sign b) s (fun _ _ => True).
Proof.
  intros Hc. apply safe_bind. eapply safe_mono; [|apply lockBlockHeight_safe]. intros [[]|e] s1 Hr; [|done].
  destruct (Hr eq_refl) as (h & Eh & Er). apply safe_atomic. intros e s0 _ Hg Hok. split_and!; [|by unfold grows|done]. cbn.
  apply Forall_app. split; [eapply Forall_impl; [exact Hok|]; intros bh; apply signed_row_grows; by unfold grows|].
  constructor; [|done]. split; [done|]. exists h. split; [done|]. by eapply lookup_weaken.
Qed.

Lemma on_chain_safe {A} (m : CM A) s : safe (on_chain m) s (fun _ _ => True).
Proof.
  apply safe_atomic_or_panic. intros e s0 _ _ Hok. destruct (m (sg_chain s0)) as [r c].
  assert (signer_ok (set_chain c s0)) by (by apply signer_ok_chain). by destruct r; unfold grows.
Qed.

Lemma block_soon_safe height s : safe (block_soon height) s (fun _ _ => True).
Proof.
  apply safe_bind. eapply safe_mono; [|apply on_chain_safe]. intros [[]|e] s1 _; [|done].
  intros e s0 _ _ Hok. destruct (e_done e); [by unfold grows|]. by destruct (height <=? _); unfold grows.
Qed.

Lemma ValidateAndSignBlock_safe b s : canon_header b.1 -> safe (ValidateAndSignBlock b) s (fun _ _ => True).
Proof.
  intros Hc. apply safe_bind. eapply safe_mono; [|apply block_soon_safe]. intros [[]|e] s1 _; [|done].
  apply safe_bind. eapply safe_mono; [|apply on_chain_safe]. intros [prev|e] s2 _; [|done].
  destruct (negb _); [done|]. apply safe_bind. eapply safe_mono; [|apply on_chain_safe].
  intros [[]|e] s3 _; [|done]. by apply lock_and_sign_safe.
Qed.

(** *** A header that is read has fields in their ranges *)

Definition yields {A} (rd : R A) (P : A -> Prop) : Prop := forall r a r', rd r = (Ok a, r') -> P a.

Lemma yields_any {A} (rd : R A) : yields rd (fun _ => True).
Proof. done. Qed.

Lemma yields_ret {A} (a : A) (P : A -> Prop) : P a -> yields (mret a) P.
Proof. by intros Ha r a' r' [= <- <-]. Qed.

Lemma yields_bind {A B} (rd : R A) (f : A -> R B) (P : A -> Prop) (Q : B -> Prop) :
  yields rd P -> (forall a, P a -> yields (f a) Q) -> yields (rd ≫= f) Q.
Proof.
  intros Hrd Hf r b r'. unfold mbind, R_bind. destruct (rd r) as [[a|e] r1] eqn:E; [|done]. eapply Hf, Hrd, E.
Qed.

Lemma yields_extensible {A} (rd : R A) (P : A -> Prop) : yields rd P -> yields (ReadExtensibleString rd) (fun x => P x.1).
Proof.
  intros Hrd r x r'. unfold ReadExtensibleString. destruct (ReadVarstr31 r) as [[s|e] r1]; [|done].
  destruct (rd (NewReader s)) as [[a|e] r2] eqn:E; [|done]. intros [= <- <-]. by eapply Hrd.
Qed.

Lemma uvarint_nonneg r : forall x s i n r', 0 <= x -> ReadUvarint_loop x s i r = (Ok n, r') -> 0 <= n.
Proof.
  assert (forall x z, 0 <= x -> 0 <= Z.lor x (uint64 z)) as Hlor.
  { intros x z Hx. apply Z.lor_nonneg. split; [done|]. unfold uint64. apply Z.mod_pos_bound. lia. }
  induction r as [|b r IH]; intros x s i n r' Hx; cbn [ReadUvarint_loop]; [done|].
  destruct (Z_of_byte b <? 128); [|by apply IH, Hlor]. destruct ((9 <? i) || _); [done|]. intros [= <- <-]. by apply Hlor.
Qed.

Lemma yields_varint : yields ReadVarint63 (fun n => 0 <= n).
Proof.
  eapply (yields_bind _ _ (fun n => 0 <= n)); [intros r n r' E; by eapply uvarint_nonneg in E|].
  intros n Hn. destruct (MaxInt64 <? n); [done|by apply yields_ret].
Qed.

Lemma yields_hash : yields Hash_ReadFrom wf_hash.
Proof. eapply yields_bind; [apply yields_any|]. intros bs _. apply yields_ret, wf_NewHash. Qed.

Lemma yields_header : yields BlockHeader_readFrom (fun x => canon_header x.2).
Proof.
  eapply yields_bind; [apply yields_any|]. intros flags _. eapply yields_bind; [apply yields_any|]. intros [] _.
  eapply yields_bind; [apply yields_varint|]. intros v Hv. eapply yields_bind; [apply yields_varint|]. intros h Hh.
  eapply yields_bind; [apply yields_hash|]. intros prev Hp. eapply yields_bind; [apply yields_varint|]. intros ts Ht.
  eapply yields_bind.
  { apply (yields_extensible _ (fun c => wf_hash c.1.1 /\ wf_hash c.1.2)).
    eapply yields_bind; [apply yields_hash|]. intros t Htr. eapply yields_bind; [apply yields_hash|]. intros a Ha.
    eapply yields_bind; [apply yields_any|]. intros p _. by apply yields_ret. }
  intros c [Hc1 Hc2]. eapply yields_bind; [apply yields_any|]. intros w _. apply yields_ret. by split_and!.
Qed.

Lemma unmarshal_block_canon text b : unmarshal_block text = Some (Ok b) -> canon_header b.1.
Proof.
  unfold unmarshal_block. destruct (hex_decode text) as [bs|]; [|done].
  destruct (read_block (NewReader bs)) as [[[b'|e] rest]|] eqn:E; [|done..]. cbn.
  destruct (0 <? Len rest); [done|]. intros [= <-]. unfold read_block in E.
  destruct (BlockHeader_readFrom (NewReader bs)) as [[[flags h]|e] r] eqn:Eh; [|done]. apply yields_header in Eh.
  destruct (has_flag _ _); [|by injection E as <- _].
  destruct (ReadVarint31 r) as [[n|e] r1]; [|done]. destruct (read_txs _ r1) as [[[txs|e] r2]|]; [|done..]. by injection E as <- _.
Qed.

Lemma starts_safe p s : signer_starts p -> safe p s (fun _ _ => True).
Proof.
  intros []; [..|by apply safe_atomic; intros; split_and!; [apply signer_ok_chain|unfold grows|]]; apply safe_bind.
  - unfold SignBlock. destruct (unmarshal_block text) as [[b|e]|] eqn:E; [|done..].
    eapply safe_mono; [|apply lock_and_sign_safe; by eapply unmarshal_block_canon]. done.
  - eapply safe_mono; [|by apply ValidateAndSignBlock_safe]. done.
Qed.

Lemma reachable_ok s : signer_reachable s -> signer_ok s.
Proof.
  intros (c & ps & Hr). apply (safe_steps (fun _ _ => True) signer_ok grows signer_starts (mkSigner c ∅ []) (s, ps)); [apply starts_safe|by constructor|done].
Qed.

Lemma BlockHeader_Hash_wf bh h : BlockHeader_Hash bh = Some h -> wf_hash h.
Proof.
  unfold BlockHeader_Hash, mapBlockHeader. intros E. apply fmap_Some in E as ([id hd] & E & ->).
  apply bind_Some in E as (id' & E & [= <- <-]). apply EntryID_string in E as (b & _ & <-). apply wf_NewHash.
Qed.

Lemma signed_once s bh bh' :
  signer_ok s -> bh ∈ hsm_headers s -> bh' ∈ hsm_headers s -> lb_Height bh = lb_Height bh' ->
  BlockHeader_Hash bh = BlockHeader_Hash bh'.
Proof.
  intros Hok Hb Hb' Eh. unfold signer_ok in Hok. rewrite Forall_forall in Hok.
  destruct (Hok _ Hb) as [_ (h & E & Er)], (Hok _ Hb') as [_ (h' & E' & Er')]. rewrite Eh, Er' in Er.
  rewrite E, E'. f_equal. apply Bytes_inj; [by eapply BlockHeader_Hash_wf..|congruence].
Qed.

(** C10: A block signer never signs two blocks at one height.  However the requests of its
    goroutines and processes interleave, whatever the chain does meanwhile, and also when
    statements fail or their answers are lost: two headers of the same height that the
    HSM was asked to sign have the same hash. *)
Theorem signer_never_equivocates s bh bh' :
  signer_reachable s -> bh ∈ hsm_headers s -> bh' ∈ hsm_headers s -> lb_Height bh = lb_Height bh' ->
  BlockHeader_Hash bh = BlockHeader_Hash bh'.
Proof. intros Hr. by apply signed_once, reachable_ok. Qed.
End Signer.

(** ** What the consensus program proves *)

Section Program.
Context `{Runtime} `{CryptoLaws}.

(** The program of a block up to the last instruction. *)
Definition block_code (keys : list bytes) (n : Z) : bytes :=
  (([byte_of_Z OP_BLOCKHASH] ++ concat (map PushdataBytes keys)) ++ PushdataInt64 n) ++ PushdataInt64 (zlen keys).

Lemma block_program keys n prog :
  VMUtil.BlockMultiSigProgram keys n = Ok prog -> 0 <= n /\ prog = block_code keys n ++ [byte_of_Z OP_CHECKMULTISIG].
Proof.
  unfold VMUtil.BlockMultiSigProgram. destruct (VMUtil.checkMultiSigParams n (zlen keys)) as [[]|] eqn:Hp; [|done].
  apply VMUtil.checkMultiSigParams_ok in Hp. cbn [mbind result_bind]. intros [= <-]. split; [lia|].
  cbn [VMUtil.Program VMUtil.AddOp VMUtil.AddInt64]. by rewrite VMUtil.Program_AddDatas.
Qed.

Lemma block_code_runs ctx h xr keys n hash items :
  shows h (VM.BlockHash ctx) (Some hash) -> Forall (fun k => zlen k = PublicKeySize) keys -> 0 <= n -> in_int64 n = true -> in_int64 (zlen keys) = true ->
  block ctx h xr no_rest (block_code keys n ++ [byte_of_Z OP_CHECKMULTISIG]) (map Bs items, [])
    (Flag (multisig_ok hash (take (Z.to_nat n) items) (rev keys)) :: map Bs (drop (Z.to_nat n) items), []) (n <= zlen items).
Proof.
  intros Hh Hk Hn Hn' Hm. unfold block_code. eapply block_mono.
  { eapply block_seq; [eapply block_seq; [eapply block_seq; [eapply block_seq|]|]|].
    - apply (block_plain ctx h xr no_rest OP_BLOCKHASH VM.opBlockHash [] [] [Bs hash] [] (map Bs items) []); [done|done|].
      apply (does_field ctx h xr 1 VM.BlockHash false (Some hash) Hh).
    - by apply block_keys.
    - by apply block_int.
    - by apply block_int.
    - eapply (block_op _ _ _ _ _ (mkInst OP_CHECKMULTISIG 1 [])); [by apply encodes_plain; unfold OP_CHECKMULTISIG, OP_JUMP, OP_JUMPIF; lia|].
      intros k. exists VM.opCheckMultiSig. split; [done|]. replace (zlen keys) with (zlen (rev keys)) by (unfold zlen; by rewrite length_rev).
      by apply does_multisig. }
  tauto.
Qed.

Lemma key_count_range keys n prog :
  VMUtil.BlockMultiSigProgram keys n = Ok prog -> zlen prog <= MaxInt32 -> Forall (fun k => zlen k = PublicKeySize) keys ->
  in_int64 (zlen keys) = true.
Proof.
  intros Hp Hl Hk. apply block_program in Hp as [_ ->]. destruct (VMUtil.keys_encoded keys Hk) as (insts & HF & _).
  unfold block_code in Hl. rewrite <- !app_assoc in Hl. by eapply VMUtil.keys_count.
Qed.

Lemma quorum_in_range keys n prog :
  VMUtil.BlockMultiSigProgram keys n = Ok prog -> zlen prog <= MaxInt32 -> Forall (fun k => zlen k = PublicKeySize) keys ->
  in_int64 n = true.
Proof.
  intros Hp Hl Hk. pose proof (key_count_range _ _ _ Hp Hl Hk) as Hm. unfold VMUtil.BlockMultiSigProgram in Hp.
  destruct (VMUtil.checkMultiSigParams n (zlen keys)) as [[]|] eqn:E; [|done]. apply VMUtil.checkMultiSigParams_ok in E.
  unfold_int. lia.
Qed.

(** A block with enough signatures at the end of its witness. *)
Lemma block_accepted_signed blk keys n prog fuel :
  VMUtil.BlockMultiSigProgram keys n = Ok prog -> zlen prog <= MaxInt32 ->
  Forall (fun k => zlen k = PublicKeySize) keys -> in_int64 n = true ->
  ValidateBlockSig (H0 := machine fuel) blk prog = VRet tt ->
  exists before sigs, bh_WitnessArguments (BlockHdr blk) = before ++ sigs /\ zlen sigs = n /\ signed_by (Bytes (block_ID blk)) sigs keys.
Proof.
  intros Hp Hl Hk Hn Hv. destruct (block_program _ _ _ Hp) as [Hn0 Ecode].
  unfold ValidateBlockSig, vm_Verify, machine in Hv. set (c := newBlockVMContext _ _ _) in Hv.
  destruct (VMRun.Verify _ _ _).1 as [[e|]|] eqn:Ev; [done| |done].
  destruct (load c) as [h ctx] eqn:El. destruct (Verify_starts _ _ _ _ El Hl Ev) as (v & vf & Hr & Hf & Ha & Hst).
  destruct (load_shown _ _ _ El) as (Hsh & _ & _). cbn [c_Code c_Arguments c newBlockVMContext] in Ha, Hst. rewrite Ecode in Ha.
  pose proof (key_count_range _ _ _ Hp Hl Hk) as Hm.
  pose proof (block_code_runs ctx h (VM.expansionReserved (VMRun.initVM h ctx)) keys n _ (rev (bh_WitnessArguments (BlockHdr blk))) (sh_block _ _ _ Hsh) Hk Hn0 Hn Hm) as Hb.
  destruct (block_accepts _ _ _ _ _ _ _ _ _ _ _ _ _ _ Hb Ha eq_refl Hst Hr Hf) as [Hok Hcnt]. cbn [truthy] in Hok.
  set (args := bh_WitnessArguments (BlockHdr blk)) in *.
  exists (rev (drop (Z.to_nat n) (rev args))), (rev (take (Z.to_nat n) (rev args))). split_and!.
  - by rewrite <- rev_app_distr, take_drop, rev_involutive.
  - unfold zlen in *. rewrite length_rev, length_take. lia.
  - apply signed_by_rev. rewrite rev_involutive. by apply multisig_ok_signed.
Qed.
End Program.

(** ** The federation *)

(** The entry that is hashed for a header. *)
Definition header_entry (old : LBlockHeader) : Entry :=
  let bh := NewBlockHeader (lb_Version old) (lb_Height old) (Some (PreviousBlockHash old)) (TimestampMS old)
              (Some (TransactionsMerkleRoot old)) (Some (AssetsMerkleRoot old)) (ConsensusProgram old) in
  EBlockHeader (mkBlockHeader (bh_Version bh) (Height bh) (PreviousBlockId bh) (TimestampMs bh) (TransactionsRoot bh)
    (AssetsRoot bh) (NextConsensusProgram bh) (bh_ExtHash bh) (Witness old)).

Lemma BlockHeader_Hash_entry `{Crypto} bh : BlockHeader_Hash bh = EntryID (Some (header_entry bh)).
Proof. unfold BlockHeader_Hash, mapBlockHeader. cbn zeta. fold (header_entry bh). by destruct (EntryID _). Qed.

Lemma header_typed bh : canon_header bh -> Forall typed (body_fields (header_entry bh)).
Proof. intros (? & ? & ? & ? & ? & ?). cbn. repeat (apply Forall_cons; split; [done|]). done. Qed.

(** The hash of a header binds its height. *)
Lemma same_hash_same_height `{CryptoLaws} bh bh' h :
  canon_header bh -> canon_header bh' -> BlockHeader_Hash bh = Some h -> BlockHeader_Hash bh' = Some h ->
  lb_Height bh = lb_Height bh' \/ collision (entry_hashes (header_entry bh)) (entry_hashes (header_entry bh')).
Proof.
  intros Hc Hc' E E'. rewrite BlockHeader_Hash_entry in E, E'.
  destruct (EntryID_binding _ _ _ E E' (header_typed _ Hc) (header_typed _ Hc') I I) as [[_ Eq]|]; [|by right].
  left. by injection Eq.
Qed.

Lemma sublist_elem {A} (l l' : list A) x : l `sublist_of` l' -> x ∈ l -> x ∈ l'.
Proof. intros Hs Hx. eapply elem_of_submseteq; [exact Hx|by apply sublist_submseteq]. Qed.

(** Two quorums have an honest member in common. *)
Lemma quorums_meet {A} `{Countable A} (keys sel sel' : list A) (honest : A -> bool) (n : nat) :
  NoDup keys -> sel `sublist_of` keys -> sel' `sublist_of` keys -> length sel = n -> length sel' = n ->
  (length keys + length (filter (fun k => honest k = false) keys) < 2 * n)%nat ->
  exists k, k ∈ sel /\ k ∈ sel' /\ honest k = true.
Proof.
  intros Hnd Hs Hs' El El' Hq. set (X := list_to_set sel : gset A). set (Y := list_to_set sel' : gset A).
  set (K := list_to_set keys : gset A). set (F := list_to_set (filter (fun k => honest k = false) keys) : gset A).
  assert (forall l, l `sublist_of` keys -> NoDup l) as Hsub by (intros l Hl; by eapply sublist_NoDup).
  pose proof (size_list_to_set (C := gset A) sel (Hsub _ Hs)) as SX. pose proof (size_list_to_set (C := gset A) sel' (Hsub _ Hs')) as SY.
  pose proof (size_list_to_set (C := gset A) keys Hnd) as SK.
  pose proof (size_list_to_set (C := gset A) _ (NoDup_filter (fun k => honest k = false) _ Hnd)) as SF.
  fold X in SX. fold Y in SY. fold K in SK. fold F in SF.
  destruct (decide (Exists (fun k => k ∈ sel' /\ honest k = true) sel)) as [(k & Hk & ? & ?)%Exists_exists|Hno]; [by exists k|].
  exfalso. assert (X ∩ Y ⊆ F) as HF%subseteq_size.
  { intros k [Hk Hk']%elem_of_intersection. apply elem_of_list_to_set in Hk, Hk'. apply elem_of_list_to_set, list_elem_of_filter.
    split; [|by eapply sublist_elem]. apply not_true_iff_false. intros Hh. apply Hno, Exists_exists. by exists k. }
  assert (size X = size (X ∩ Y) + size (X ∖ Y))%nat.
  { rewrite <- size_union by set_solver. f_equal. apply set_eq. intros x. destruct (decide (x ∈ Y)); set_solver. }
  assert (size (X ∖ Y) + size Y <= size K)%nat; [|lia].
  rewrite <- size_union by set_solver. apply subseteq_size.
  intros x [[Hx _]%elem_of_difference|Hx]%elem_of_union;
    apply elem_of_list_to_set in Hx; apply elem_of_list_to_set; eapply sublist_elem; [|exact Hx| |exact Hx]; done.
Qed.

Section Federation.
Context {T : Type} `{StateTree T} `{Runtime} `{CryptoLaws} `{Verifier}.
Context {S : Type} `{!Store T S} {C : Type} `{LRU C}.
(** The recursion allowed to the chains of the signers. *)
Context (fuel : nat).

(** The honest keys are those of signers that only do what the code does. *)
Definition federation (honest : bytes -> bool) (signer : bytes -> SignerState (T := T) (S := S) (C := C)) : Prop :=
  forall k, honest k = true -> signer_reachable fuel (signer k).

(** The block carries a forgery: one of its witness arguments is a signature that verifies
    under an honest key, on an identifier that the HSM of the key was never asked to sign. *)
Definition forged (honest : bytes -> bool) (signer : bytes -> SignerState (T := T) (S := S) (C := C)) (blk : Block) : Prop :=
  exists k sig, honest k = true /\ sig ∈ bh_WitnessArguments (BlockHdr blk) /\
    ed25519_Verify k (Bytes (block_ID blk)) sig = true /\
    Forall (fun bh => BlockHeader_Hash bh <> Some (block_ID blk)) (hsm_headers (signer k)).

(** A header that was signed and one that is not the same have the same hash. *)
Definition signed_collision (honest : bytes -> bool) (signer : bytes -> SignerState (T := T) (S := S) (C := C)) (bh : LBlockHeader) : Prop :=
  exists k bh', honest k = true /\ bh' ∈ hsm_headers (signer k) /\ collision (entry_hashes (header_entry bh)) (entry_hashes (header_entry bh')).

Lemma mapped_header b blk : MapBlock b = Some blk ->
  BlockHeader_Hash b.1 = Some (block_ID blk).
Proof.
  unfold MapBlock, BlockHeader_Hash. intros E. apply bind_Some in E as ([id bh] & E & [= <-]). by rewrite E.
Qed.

(** What an honest key among the signatures of a block says. *)
Lemma honest_signed honest signer b blk k before sigs sel :
  federation honest signer -> canon_header b.1 -> MapBlock b = Some blk -> bh_WitnessArguments (BlockHdr blk) = before ++ sigs ->
  Forall2 (fun s p => ed25519_Verify p (Bytes (block_ID blk)) s = true) sigs sel -> k ∈ sel -> honest k = true ->
  (exists bh, bh ∈ hsm_headers (signer k) /\ BlockHeader_Hash bh = Some (block_ID blk) /\ lb_Height bh = lb_Height b.1) \/
  signed_collision honest signer b.1 \/ forged honest signer blk.
Proof.
  intros Hfed Hc Em Ew HF [i Hi]%list_elem_of_lookup Hh. destruct (Forall2_lookup_r _ _ _ _ _ HF Hi) as (sig & Hsig & Hv).
  destruct (Exists_dec (fun bh => BlockHeader_Hash bh = Some (block_ID blk)) (hsm_headers (signer k))) as [Hex|Hno].
  2: { right; right. exists k, sig. apply not_Exists_Forall in Hno; [|intros ?; apply _]. split_and!; try done.
       rewrite Ew. apply elem_of_app. right. by eapply list_elem_of_lookup_2. }
  apply Exists_exists in Hex as (bh & Hin & Eh). pose proof (mapped_header _ _ Em) as Eb.
  pose proof (reachable_ok _ _ (Hfed k Hh)) as Hok. unfold signer_ok in Hok. rewrite Forall_forall in Hok.
  destruct (same_hash_same_height b.1 bh _ Hc (sr_canon _ _ (Hok _ Hin)) Eb Eh) as [E|Hcol]; [left; by exists bh|].
  right; left. by exists k, bh.
Qed.

(** C9: A federation does not fork.  Take the consensus program of [n] of some different
    keys, some of whose holders may do anything, where the rest run this block signer.
    When twice the quorum is more than the keys and the dishonest ones together, two blocks
    at the same height that both satisfy the program have the same identifier, unless one
    of them and a header that was signed are a collision of SHA3-256, or one of them
    carries a forged signature: one that verifies under the key of an honest signer, on an
    identifier that this signer never signed.  Nothing is assumed of the signature scheme
    or the hash; both exceptions name the strings. *)
Theorem federation_never_forks honest signer keys n prog mfuel b b' blk blk' :
  federation honest signer ->
  VMUtil.BlockMultiSigProgram keys n = Ok prog -> zlen prog <= MaxInt32 -> Forall (fun k => zlen k = PublicKeySize) keys -> NoDup keys ->
  zlen keys + zlen (filter (fun k => honest k = false) keys) < 2 * n ->
  canon_header b.1 -> canon_header b'.1 -> MapBlock b = Some blk -> MapBlock b' = Some blk' -> lb_Height b.1 = lb_Height b'.1 ->
  ValidateBlockSig (H0 := machine mfuel) blk prog = VRet tt -> ValidateBlockSig (H0 := machine mfuel) blk' prog = VRet tt ->
  block_ID blk = block_ID blk' \/
  (signed_collision honest signer b.1 \/ signed_collision honest signer b'.1) \/
  (forged honest signer blk \/ forged honest signer blk').
Proof.
  intros Hfed Hp Hl Hk Hnd Hq Hc Hc' Em Em' Eh Hv Hv'. pose proof (quorum_in_range _ _ _ Hp Hl Hk) as Hn.
  destruct (block_accepted_signed _ _ _ _ _ Hp Hl Hk Hn Hv) as (pre & sigs & Ew & Hlen & sel & Hs & HF).
  destruct (block_accepted_signed _ _ _ _ _ Hp Hl Hk Hn Hv') as (pre' & sigs' & Ew' & Hlen' & sel' & Hs' & HF').
  pose proof (Forall2_length _ _ _ HF) as E1. pose proof (Forall2_length _ _ _ HF') as E2. unfold zlen in *.
  destruct (quorums_meet keys sel sel' honest (Z.to_nat n) Hnd Hs Hs') as (k & Hks & Hks' & Hh); [lia..|].
  destruct (honest_signed _ _ _ _ _ _ _ _ Hfed Hc Em Ew HF Hks Hh) as [(bh & Hin & E & Hbh)|]; [|tauto].
  destruct (honest_signed _ _ _ _ _ _ _ _ Hfed Hc' Em' Ew' HF' Hks' Hh) as [(bh' & Hin' & E' & Hbh')|]; [|tauto].
  left. pose proof (signed_once _ _ _ (reachable_ok _ _ (Hfed k Hh)) Hin Hin') as Hsame.
  rewrite E, E' in Hsame. apply Some_inj, Hsame. congruence.
Qed.
End Federation.

(** ** Examples *)

(** Signatures under which only one hash was ever signed: that of [ex_header]. *)
Definition ex_header : LBlockHeader := mkLBlockHeader 1 2 zeroHash 100 zeroHash zeroHash [] [] [] [].
Definition other_header : LBlockHeader := mkLBlockHeader 1 2 zeroHash 101 zeroHash zeroHash [] [] [] [].

Definition ex_hash : bytes := Bytes (default zeroHash (BlockHeader_Hash (H := poly_crypto) ex_header)).

Definition ex_crypto : Crypto := {|
  sha256_sum := poly_digest;
  sha3_256_sum := poly_digest;
  ed25519_Verify k msg sig := bool_decide (msg = ex_hash /\ sig = k);
|}.

Lemma ex_crypto_laws : @CryptoLaws ex_crypto.
Proof. split; intros bs; [apply (sha256_len (CryptoLaws := poly_crypto_laws))|apply (sha3_256_len (CryptoLaws := poly_crypto_laws))]. Qed.

#[local] Existing Instances ex_crypto ex_crypto_laws.
#[local] Instance ex_machine_runs : Verifier := machine (H := exact_runtime) 40.

Notation ex_state := (SignerState (T := Tree) (S := MemStore (T := Tree)) (C := lru_list)).

Definition ex_start : ex_state := mkSigner (mkChain zeroHash 0 0 None None NewMemStore zeroTime None lru_New [] []) ∅ [].

Definition block_text (bh : LBlockHeader) : bytes := default [] (Block_MarshalText (mkLBlock bh [])).

(** Three requests: for a block, for another at the same height, and for the first again
    after its answer was lost. *)
Definition ex_requests : list (Concur.prog senv ex_state unit) :=
  map (fun bh => drop_result (SignBlock (block_text bh))) [ex_header; other_header; ex_header].

Definition fine : senv := mkSenv DbFine (Some [x01]) false.
Definition hsm_down : senv := mkSenv DbFine None false.

Definition ex_sched : list (nat * senv) := [(0%nat, fine); (1%nat, fine); (0%nat, hsm_down); (2%nat, fine); (2%nat, fine)].

Definition ex_run := run_schedule (fun _ => true) ex_sched (ex_start, ex_requests).
Definition ex_end : ex_state := from_option fst ex_start ex_run.

Lemma ex_run_ends : ex_run = Some (ex_end, from_option snd [] ex_run).
Proof.
  assert (E : match ex_run with Some _ => true | None => false end = true) by (vm_compute; reflexivity).
  unfold ex_end. destruct ex_run as [[s ps]|]; [done|discriminate E].
Qed.

Lemma ex_reachable : signer_reachable 6 ex_end.
Proof.
  eexists _, _. etrans; [apply (starts_steps _ _ ex_start [] ex_requests)|].
  - unfold ex_requests. apply Forall_forall. intros p (bh & -> & _)%list_elem_of_fmap. constructor.
  - eapply run_schedule_steps; [|exact ex_run_ends]. by apply Forall_forall.
Qed.

Lemma ex_signed : hsm_headers ex_end = [ex_header; ex_header].
Proof. vm_compute. reflexivity. Qed.

Lemma signer_never_equivocates_witness :
  hsm_headers ex_end = [ex_header; ex_header] /\ BlockHeader_Hash ex_header = BlockHeader_Hash ex_header /\
  BlockHeader_Hash ex_header <> BlockHeader_Hash other_header.
Proof.
  split; [exact ex_signed|]. split; [|vm_compute; discriminate].
  apply (signer_never_equivocates 6 ex_end); [exact ex_reachable|rewrite ex_signed; constructor|rewrite ex_signed; constructor|reflexivity].
Defined.

(** Four keys, of which three must sign and one is not honest.  Two blocks with the
    header and different signatures. *)
Definition ex_key (x : byte) : bytes := replicate 32 x.
Definition ex_keys : list bytes := map ex_key [x01; x02; x03; x04].
Definition ex_honest (k : bytes) : bool := bool_decide (k ∈ take 3 ex_keys).

Definition ex_program : bytes := match VMUtil.BlockMultiSigProgram ex_keys 3 with Ok p => p | Err _ => [] end.

Definition with_sigs (sigs : list bytes) : ChainBlock := (mkLBlockHeader 1 2 zeroHash 100 zeroHash zeroHash [] [] sigs [], []).
Definition ex_block : ChainBlock := with_sigs (take 3 ex_keys).
Definition ex_block' : ChainBlock := with_sigs (drop 1 ex_keys).

Lemma ex_federation : federation (T := Tree) (S := MemStore (T := Tree)) (C := lru_list) 6 ex_honest (fun _ => ex_end).
Proof. intros k _. apply ex_reachable. Qed.

(** No signature of these blocks is forged. *)
Lemma ex_not_forged b blk :
  MapBlock b = Some blk -> BlockHeader_Hash b.1 = BlockHeader_Hash ex_header ->
  ~ forged (T := Tree) (S := MemStore (T := Tree)) (C := lru_list) ex_honest (fun _ => ex_end) blk.
Proof.
  intros E Eh (k & sig & _ & _ & _ & Hno). rewrite ex_signed in Hno. apply Forall_cons in Hno as [Hno _].
  apply Hno. rewrite <- Eh. by apply mapped_header.
Qed.

Lemma ex_block_mapped b : b ∈ [ex_block; ex_block'] ->
  exists blk, MapBlock b = Some blk /\ ValidateBlockSig (H0 := machine (H := exact_runtime) 40) blk ex_program = VRet tt.
Proof.
  intros Hb. assert (E : match MapBlock b with
    | Some blk => match ValidateBlockSig (H0 := machine (H := exact_runtime) 40) blk ex_program with VRet _ => true | _ => false end
    | None => false end = true) by (repeat (apply elem_of_cons in Hb as [->|Hb]; [vm_compute; reflexivity|]); by apply elem_of_nil in Hb).
  destruct (MapBlock b) as [blk|]; [|discriminate E]. exists blk. split; [done|]. by destruct (ValidateBlockSig blk ex_program) as [[]| | |].
Qed.

Lemma federation_never_forks_witness :
  exists blk blk', MapBlock ex_block = Some blk /\ MapBlock ex_block' = Some blk' /\ blk <> blk' /\
    ~ forged (T := Tree) (S := MemStore (T := Tree)) (C := lru_list) ex_honest (fun _ => ex_end) blk /\
    ~ forged (T := Tree) (S := MemStore (T := Tree)) (C := lru_list) ex_honest (fun _ => ex_end) blk' /\
    (block_ID blk = block_ID blk' \/
     (signed_collision (T := Tree) (S := MemStore (T := Tree)) (C := lru_list) ex_honest (fun _ => ex_end) ex_block.1 \/
      signed_collision (T := Tree) (S := MemStore (T := Tree)) (C := lru_list) ex_honest (fun _ => ex_end) ex_block'.1) \/
     (forged (T := Tree) (S := MemStore (T := Tree)) (C := lru_list) ex_honest (fun _ => ex_end) blk \/
      forged (T := Tree) (S := MemStore (T := Tree)) (C := lru_list) ex_honest (fun _ => ex_end) blk')).
Proof.
  destruct (ex_block_mapped ex_block ltac:(constructor)) as (blk & E & Hv).
  destruct (ex_block_mapped ex_block' ltac:(do 2 constructor)) as (blk' & E' & Hv').
  exists blk, blk'. split; [exact E|]. split; [exact E'|]. split.
  { intros Eq. assert (MapBlock ex_block = MapBlock ex_block') as Em by (rewrite E, E', Eq; reflexivity). vm_compute in Em. discriminate Em. }
  split; [apply (ex_not_forged _ _ E); vm_compute; reflexivity|]. split; [apply (ex_not_forged _ _ E'); vm_compute; reflexivity|].
  apply (federation_never_forks (H0 := exact_runtime) 6 ex_honest (fun _ => ex_end) ex_keys 3 ex_program 40 ex_block ex_block' blk blk');
    [exact ex_federation|vm_compute; reflexivity|vm_compute; discriminate|repeat constructor|apply (bool_decide_unpack _); vm_compute; exact I|
     vm_compute; reflexivity|repeat split; vm_compute; discriminate|repeat split; vm_compute; discriminate|exact E|exact E'|reflexivity|exact Hv|exact Hv'].
Defined.
