(* ===== verification/Limbs.v ===== *)
(** * Natural numbers in machine words

    Certificates of this development compute with numbers of 255 bits: that a modulus is
    prime, that a table holds the multiples of a point.  The kernel evaluates them on
    lists of limbs of 26 bits in 63-bit words, least significant first, for which this
    file proves the arithmetic.  [mulmod] divides by a constant with an estimate of the
    quotient, whose quality does not matter for correctness. *)

From Stdlib Require Import ZArith Lia List Uint63.
From S2P Require Import Prelude.

Notation limbs := (list int).

Local Open Scope uint63_scope.

Definition base26 : Z := 67108864.
Definition mask26 : int := 67108863.

(** The number that limbs stand for. *)
Fixpoint lval (l : limbs) : Z :=
  match l with
  | [] => 0
  | x :: l => Uint63.to_Z x + base26 * lval l
  end%Z.

Definition small (x : int) : Prop := (Uint63.to_Z x < base26)%Z.
Notation norm := (Forall small).

(** ** Operations *)

Fixpoint carry (c : int) (l : limbs) : limbs :=
  match l with
  | [] => if c =? 0 then [] else [c land mask26; c >> 26]
  | x :: l => let s := x + c in (s land mask26) :: carry (s >> 26) l
  end.

(** [acc + a * bs], column by column, without carries. *)
Fixpoint addmul (a : int) (bs acc : limbs) : limbs :=
  match bs, acc with
  | [], _ => acc
  | b :: bs, [] => a * b :: addmul a bs []
  | b :: bs, c :: acc => c + a * b :: addmul a bs acc
  end.

Fixpoint columns (xs bs : limbs) : limbs :=
  match xs with
  | [] => []
  | a :: xs => addmul a bs (0 :: columns xs bs)
  end.

Definition lmul (a b : limbs) : limbs := carry 0 (columns a b).
Definition ladd (a b : limbs) : limbs := carry 0 (addmul 1 b a).

(** The difference with a borrow, if it is not negative. *)
Fixpoint lsub (a b : limbs) (borrow : int) : option limbs :=
  match a, b with
  | [], [] => if borrow =? 0 then Some [] else None
  | [], _ :: _ => None
  | x :: a, _ =>
      let '(y, b) := match b with [] => (0, []) | y :: b => (y, b) end in
      let s := x + 67108864 - y - borrow in
      l ← lsub a b (1 - (s >> 26)); Some (s land mask26 :: l)
  end.

(** Without leading zeros. *)
Fixpoint trim (l : limbs) : limbs :=
  match l with
  | [] => []
  | x :: l => match trim l with
              | [] => if x =? 0 then [] else [x]
              | l => x :: l
              end
  end.

(** Limbs of a number, for constants. *)
Fixpoint of_Z_limbs (n : nat) (z : Z) : limbs :=
  match n with
  | O => []
  | S n => Uint63.of_Z (z mod base26) :: of_Z_limbs n (z / base26)
  end.

(** A modulus of [m_len] limbs, and about [base26 ^ (2 * m_len) / n]. *)
Record modulus := mkModulus { m_n : limbs; m_inv : limbs; m_len : nat }.

Definition new_modulus (len : nat) (n : Z) : modulus :=
  mkModulus (of_Z_limbs len n) (of_Z_limbs (S len) (base26 ^ (2 * Z.of_nat len) / n)) len.

(** The columns of a product do not overflow. *)
Definition fits (l : limbs) : bool := Nat.leb (length l) 256.

(** The product less a multiple of the modulus. *)
Definition mulmod (m : modulus) (a b : limbs) : option limbs :=
  let t := lmul a b in
  let h := drop (m_len m - 1) t in
  let k := drop (S (m_len m)) (lmul h (m_inv m)) in
  if fits a && fits h && fits k then r ← lsub t (trim (lmul k (m_n m))) 0; Some (trim r) else None.

Definition wf_modulus (m : modulus) : bool :=
  forallb (fun x => x <? 67108864) (m_n m) && forallb (fun x => x <? 67108864) (m_inv m).

(** ** Words *)

Notation wB := (9223372036854775808)%Z.

Lemma to_Z_range x : (0 <= Uint63.to_Z x < wB)%Z.
Proof. exact (Uint63.to_Z_bounded x). Qed.

Lemma to_Z_add x y : (Uint63.to_Z x + Uint63.to_Z y < wB)%Z -> Uint63.to_Z (x + y) = (Uint63.to_Z x + Uint63.to_Z y)%Z.
Proof. intros. rewrite Uint63.add_spec. apply Z.mod_small. pose proof (to_Z_range x). pose proof (to_Z_range y). split; [lia|assumption]. Qed.

Lemma to_Z_mul x y : (Uint63.to_Z x * Uint63.to_Z y < wB)%Z -> Uint63.to_Z (x * y) = (Uint63.to_Z x * Uint63.to_Z y)%Z.
Proof. intros. rewrite Uint63.mul_spec. apply Z.mod_small. pose proof (to_Z_range x). pose proof (to_Z_range y). split; [nia|assumption]. Qed.

Lemma to_Z_sub x y : (Uint63.to_Z y <= Uint63.to_Z x)%Z -> Uint63.to_Z (x - y) = (Uint63.to_Z x - Uint63.to_Z y)%Z.
Proof. intros. rewrite Uint63.sub_spec. apply Z.mod_small. pose proof (to_Z_range x). pose proof (to_Z_range y). split; [lia|]. change Uint63.wB with wB. lia. Qed.

Lemma to_Z_mask x : Uint63.to_Z (x land mask26) = (Uint63.to_Z x mod base26)%Z.
Proof. rewrite Uint63.land_spec'. change (Uint63.to_Z mask26) with (Z.ones 26). by rewrite Z.land_ones by lia. Qed.

Lemma to_Z_shift x : Uint63.to_Z (x >> 26) = (Uint63.to_Z x / base26)%Z.
Proof. by rewrite Uint63.lsr_spec. Qed.

Lemma mask_small x : small (x land mask26).
Proof. unfold small. rewrite to_Z_mask. unfold base26. by apply Z.mod_pos_bound. Qed.

Lemma split_word x : (Uint63.to_Z (x land mask26) + base26 * Uint63.to_Z (x >> 26) = Uint63.to_Z x)%Z.
Proof. rewrite to_Z_mask, to_Z_shift. pose proof (Z.div_mod (Uint63.to_Z x) base26 ltac:(done)). lia. Qed.

Lemma shift_bound x k : (Uint63.to_Z x < base26 * k)%Z -> (Uint63.to_Z (x >> 26) < k)%Z.
Proof. intros. rewrite to_Z_shift. apply Z.div_lt_upper_bound; [done|]. lia. Qed.

(** ** Correctness *)

Lemma lval_nonneg l : (0 <= lval l)%Z.
Proof. induction l as [|x l IH]; cbn [lval]; [done|]. pose proof (to_Z_range x). unfold base26. lia. Qed.

(** Columns are below a bound that leaves room for a carry. *)
Definition below (B : Z) (l : limbs) : Prop := Forall (fun x => (Uint63.to_Z x < B)%Z) l.

Lemma carry_spec l c :
  (Uint63.to_Z c < 2 ^ 37)%Z -> below (2 ^ 62) l -> lval (carry c l) = (Uint63.to_Z c + lval l)%Z /\ norm (carry c l).
Proof.
  revert c. induction l as [|x l IH]; intros c Hc Hl; cbn [carry].
  - destruct (Uint63.eqb_spec c 0) as [E _]. destruct (c =? 0)%uint63.
    + rewrite E by done. done.
    + cbn [lval]. split; [pose proof (split_word c); lia|].
      repeat constructor; [apply mask_small|]. apply shift_bound. unfold base26. lia.
  - inversion Hl; subst. assert (Uint63.to_Z (x + c) = Uint63.to_Z x + Uint63.to_Z c)%Z as E by (apply to_Z_add; lia).
    assert (Uint63.to_Z ((x + c) >> 26) < 2 ^ 37)%Z as Hs by (apply shift_bound; rewrite E; unfold base26; lia).
    destruct (IH ((x + c) >> 26) Hs) as [Hv Hn]; [done|]. split; [|constructor; [apply mask_small|done]].
    cbn [lval]. rewrite Hv. pose proof (split_word (x + c)). lia.
Qed.

Lemma addmul_val a bs acc :
  Forall (fun b => (Uint63.to_Z a * Uint63.to_Z b <= 2 ^ 52)%Z) bs -> below (2 ^ 61) acc ->
  lval (addmul a bs acc) = (lval acc + Uint63.to_Z a * lval bs)%Z.
Proof.
  revert acc. induction bs as [|b bs IH]; intros acc Hb Ha; [cbn; lia|].
  inversion Hb; subst. destruct acc as [|c acc]; cbn [addmul lval].
  - rewrite IH by (done || constructor). rewrite to_Z_mul by lia. cbn [lval]. lia.
  - inversion Ha; subst. rewrite IH by done. rewrite to_Z_add; rewrite to_Z_mul by lia; lia.
Qed.

Lemma addmul_below B a bs acc :
  (0 < B <= 2 ^ 61)%Z -> Forall (fun b => (Uint63.to_Z a * Uint63.to_Z b <= 2 ^ 52)%Z) bs -> below B acc -> below (B + 2 ^ 52) (addmul a bs acc).
Proof.
  intros HB. revert acc. induction bs as [|b bs IH]; intros acc Hb Ha; cbn [addmul].
  - eapply Forall_impl; [exact Ha|]. simpl. lia.
  - inversion Hb; subst. destruct acc as [|c acc].
    + constructor; [rewrite to_Z_mul; lia|]. by apply IH.
    + inversion Ha; subst. constructor; [rewrite to_Z_add; rewrite to_Z_mul by lia; lia|]. by apply IH.
Qed.

Lemma small_products a bs : small a -> norm bs -> Forall (fun b => (Uint63.to_Z a * Uint63.to_Z b <= 2 ^ 52)%Z) bs.
Proof.
  intros Ha Hb. eapply Forall_impl; [exact Hb|]. unfold small, base26 in *. intros b H. simpl.
  pose proof (to_Z_range a). pose proof (to_Z_range b). nia.
Qed.

Lemma columns_spec xs bs :
  norm xs -> norm bs -> (length xs <= 256)%nat ->
  lval (columns xs bs) = (lval xs * lval bs)%Z /\ below (Z.of_nat (length xs) * 2 ^ 52 + 1) (columns xs bs).
Proof.
  induction xs as [|a xs IH]; intros Hx Hb Hlen; cbn [columns lval length] in *; [split; [lia|constructor]|].
  inversion Hx; subst. destruct IH as [Hv Hl]; [done|done|lia|]. pose proof (small_products a bs ltac:(done) Hb).
  assert (below (Z.of_nat (length xs) * 2 ^ 52 + 1) (0%uint63 :: columns xs bs)) as Hc
    by (constructor; [change (Uint63.to_Z 0) with 0%Z; lia|done]).
  split.
  - rewrite addmul_val; [|done|eapply Forall_impl; [exact Hc|]; simpl; lia]. cbn [lval]. rewrite Hv.
    change (Uint63.to_Z 0) with 0%Z. ring.
  - replace (Z.of_nat (S (length xs)) * 2 ^ 52 + 1)%Z with (Z.of_nat (length xs) * 2 ^ 52 + 1 + 2 ^ 52)%Z by lia.
    apply addmul_below; [lia|done|done].
Qed.

Lemma lmul_spec a b : norm a -> norm b -> (length a <= 256)%nat -> lval (lmul a b) = (lval a * lval b)%Z /\ norm (lmul a b).
Proof.
  intros Ha Hb Hl. destruct (columns_spec a b Ha Hb Hl) as [Hv Hc]. unfold lmul.
  destruct (carry_spec (columns a b) 0) as [Hv' Hn]; [done|eapply Forall_impl; [exact Hc|]; simpl; lia|].
  rewrite Hv', Hv. done.
Qed.

Lemma ladd_spec a b : norm a -> norm b -> lval (ladd a b) = (lval a + lval b)%Z /\ norm (ladd a b).
Proof.
  intros Ha Hb. unfold ladd.
  pose proof (small_products 1 b ltac:(done) Hb) as H1.
  assert (below (2 ^ 26) a) as Ha' by exact Ha.
  destruct (carry_spec (addmul 1 b a) 0) as [Hv Hn]; [done| |].
  - eapply Forall_impl; [apply (addmul_below (2 ^ 26)); [lia|done|done]|]. simpl. lia.
  - rewrite Hv. rewrite addmul_val; [|done|eapply Forall_impl; [exact Ha'|]; simpl; lia].
    change (Uint63.to_Z 1) with 1%Z. change (Uint63.to_Z 0) with 0%Z. split; [lia|done].
Qed.

Lemma lsub_spec a b w r :
  norm a -> norm b -> (Uint63.to_Z w <= 1)%Z -> lsub a b w = Some r -> lval r = (lval a - lval b - Uint63.to_Z w)%Z /\ norm r.
Proof.
  revert b w r. induction a as [|x a IH]; intros b w r Ha Hb Hw; cbn [lsub].
  - destruct b; [|done]. destruct (Uint63.eqb_spec w 0) as [E _]. destruct (w =? 0)%uint63; [|done].
    intros [= <-]. by rewrite E.
  - inversion Ha; subst. set (yb := match b with [] => _ | _ :: _ => _ end).
    assert (small yb.1 /\ norm yb.2 /\ lval b = Uint63.to_Z yb.1 + base26 * lval yb.2)%Z as (Hy & Hb' & Eb)
      by (destruct b; inversion Hb; subst; done).
    destruct yb as [y b']; simpl in *. unfold small, base26 in *.
    pose proof (to_Z_range x). pose proof (to_Z_range y). pose proof (to_Z_range w).
    assert (Uint63.to_Z (x + 67108864) = Uint63.to_Z x + 67108864)%Z as E1 by (apply to_Z_add; change (Uint63.to_Z 67108864) with 67108864%Z; lia).
    assert (Uint63.to_Z (x + 67108864 - y) = Uint63.to_Z x + 67108864 - Uint63.to_Z y)%Z as E2 by (rewrite to_Z_sub; lia).
    assert (Uint63.to_Z (x + 67108864 - y - w) = Uint63.to_Z x + 67108864 - Uint63.to_Z y - Uint63.to_Z w)%Z as E3 by (rewrite to_Z_sub; lia).
    set (s := (x + 67108864 - y - w)%uint63) in *. pose proof (split_word s) as Es. pose proof (shift_bound s 2) as Hs.
    unfold base26 in *. pose proof (to_Z_range (s >> 26)). pose proof (mask_small s) as Hm. unfold small, base26 in Hm.
    assert (Uint63.to_Z (1 - (s >> 26)) = 1 - Uint63.to_Z (s >> 26))%Z as E4 by (rewrite to_Z_sub; change (Uint63.to_Z 1) with 1%Z; lia).
    destruct (lsub a b' (1 - (s >> 26))) as [l|] eqn:El; [|done]. simpl. intros [= <-].
    apply IH in El; [|done|done|lia]. destruct El as [Ev Hn]. split; [|by constructor]. cbn [lval]. unfold base26. rewrite Ev. lia.
Qed.

Lemma trim_spec l : norm l -> lval (trim l) = lval l /\ norm (trim l).
Proof.
  induction l as [|x l IH]; intros Hl; [done|]. inversion Hl; subst. destruct IH as [Hv Hn]; [done|]. cbn [trim lval].
  rewrite <- Hv. destruct (trim l) as [|y t] eqn:E; [|split; [done|by constructor]].
  destruct (Uint63.eqb_spec x 0) as [Ex _]. destruct (x =? 0)%uint63.
  - rewrite Ex by done. done.
  - split; [done|by constructor].
Qed.

Lemma norm_drop n l : norm l -> norm (drop n l).
Proof. apply Forall_drop. Qed.
#[local] Hint Resolve norm_drop : chain.

Lemma forallb_small l : forallb (fun x => x <? 67108864)%uint63 l = true -> norm l.
Proof. intros H. apply List.Forall_forall. intros x Hx. rewrite forallb_forall in H. exact (proj1 (Uint63.ltb_spec x 67108864) (H x Hx)). Qed.

Lemma mulmod_spec m a b r :
  wf_modulus m = true -> norm a -> norm b -> mulmod m a b = Some r ->
  (exists k, lval r = lval a * lval b - k * lval (m_n m))%Z /\ norm r.
Proof.
  unfold wf_modulus, mulmod. rewrite andb_true_iff. intros [Hn%forallb_small Hi%forallb_small] Ha Hb.
  destruct (fits a && _ && _) eqn:Ef; [|done]. rewrite !andb_true_iff in Ef. destruct Ef as [[Fa Fh] Fk].
  apply Nat.leb_le in Fa, Fh, Fk.
  destruct (lmul_spec a b) as [Et Ht]; [done..|]. set (t := lmul a b) in *.
  destruct (lmul_spec (drop (m_len m - 1) t) (m_inv m)) as [_ Hq]; [auto with chain..|].
  set (q := lmul _ (m_inv m)) in *.
  destruct (lmul_spec (drop (S (m_len m)) q) (m_n m)) as [Ek Hk]; [auto with chain..|].
  destruct (trim_spec _ Hk) as [Ek' Hk']. destruct (lsub _ _ _) as [r0|] eqn:Es; [|done]. intros [= <-].
  apply lsub_spec in Es; [|done|done|done]. destruct Es as [Er Hr]. destruct (trim_spec r0 Hr) as [-> Hr'].
  split; [|done]. exists (lval (drop (S (m_len m)) q)). rewrite Er, Ek', Ek, Et. change (Uint63.to_Z 0) with 0%Z. ring.
Qed.

Lemma of_Z_limbs_spec n z : (0 <= z)%Z -> lval (of_Z_limbs n z) = (z mod base26 ^ Z.of_nat n)%Z /\ norm (of_Z_limbs n z).
Proof.
  revert z. induction n as [|n IH]; intros z Hz; cbn [of_Z_limbs lval]; [by rewrite Z.mod_1_r|].
  destruct (IH (z / base26)%Z) as [Hv Hn]; [by apply Z.div_pos|].
  assert (Uint63.to_Z (Uint63.of_Z (z mod base26)) = z mod base26)%Z as E.
  { rewrite Uint63.of_Z_spec. apply Z.mod_small. pose proof (Z.mod_pos_bound z base26 ltac:(done)).
    change Uint63.wB with wB. unfold base26 in *. lia. }
  split.
  - rewrite E, Hv, Nat2Z.inj_succ, Z.pow_succ_r by lia. rewrite Z.rem_mul_r; [done|done|]. apply Z.pow_pos_nonneg; [done|lia].
  - constructor; [|done]. unfold small. rewrite E. by apply Z.mod_pos_bound.
Qed.

(** ** Powers *)

(** [a] to the power [e], less multiples of the modulus. *)
Fixpoint powmod (m : modulus) (a : limbs) (e : positive) : option limbs :=
  match e with
  | xH => Some a
  | xO e => r ← powmod m a e; mulmod m r r
  | xI e => r ← powmod m a e; r ← mulmod m r r; mulmod m r a
  end.

Local Open Scope Z_scope.

Lemma mulmod_mod m n a b r :
  wf_modulus m = true -> lval (m_n m) = n -> norm a -> norm b -> mulmod m a b = Some r ->
  lval r mod n = (lval a * lval b) mod n /\ norm r.
Proof.
  intros Hm <- Ha Hb E. destruct (mulmod_spec m a b r Hm Ha Hb E) as [[k Ek] Hr]. split; [|done].
  rewrite Ek. replace (lval a * lval b - k * lval (m_n m)) with (lval a * lval b + - k * lval (m_n m)) by ring. apply Z_mod_plus_full.
Qed.

Lemma powmod_mod m n a e r :
  wf_modulus m = true -> lval (m_n m) = n -> norm a -> powmod m a e = Some r ->
  lval r mod n = (lval a ^ Z.pos e) mod n /\ norm r.
Proof.
  intros Hm Hn Ha. revert r. induction e as [e IH|e IH|]; intros r; cbn [powmod].
  - destruct (powmod m a e) as [x|]; [|done]. simpl. destruct (IH x eq_refl) as [Ex Hx].
    destruct (mulmod m x x) as [y|] eqn:Ey; [|done]. simpl. intros Er.
    apply (mulmod_mod m n) in Ey; [|done..]. destruct Ey as [Ey Hy].
    apply (mulmod_mod m n) in Er; [|done..]. destruct Er as [Er Hr]. split; [|done].
    rewrite Er, <- Zmult_mod_idemp_l, Ey, (Zmult_mod (lval x)), Ex, <- Zmult_mod, Zmult_mod_idemp_l.
    f_equal. rewrite Pos2Z.inj_xI, Z.pow_add_r, Z.pow_1_r, Z.pow_twice_r by lia. done.
  - destruct (powmod m a e) as [x|]; [|done]. simpl. destruct (IH x eq_refl) as [Ex Hx]. intros Er.
    apply (mulmod_mod m n) in Er; [|done..]. destruct Er as [Er Hr]. split; [|done].
    rewrite Er, Zmult_mod, Ex, <- Zmult_mod. f_equal. by rewrite Pos2Z.inj_xO, Z.pow_twice_r.
  - intros [= <-]. by rewrite Z.pow_1_r.
Qed.
