(* ===== verification/Fp.v ===== *)
(** * The field of Ed25519

    Fermat's little theorem and Pocklington's criterion, and with them that the modulus
    [2 ^ 255 - 19] is prime; then the field of the numbers modulo it.  A certificate of
    primality lists, for each prime but the smallest, prime divisors of its predecessor
    whose product is above its square root; [check_prime] verifies one with the arithmetic
    of [Limbs]. *)

From Stdlib Require Import ZArith Lia Znumtheory FinFun Ring Field Eqdep_dec.
From stdpp Require Import list.
From S2P Require Import Prelude Limbs.

(** ** Prime numbers *)

Local Open Scope Z_scope.

(** ** Congruences *)

Lemma mod_eq_iff n a b : n <> 0 -> a mod n = b mod n <-> (n | a - b).
Proof.
  intros Hn. split.
  - intros E. exists (a / n - b / n). pose proof (Z.div_mod a n Hn). pose proof (Z.div_mod b n Hn). lia.
  - intros [k E]. replace a with (b + k * n) by lia. apply Z_mod_plus_full.
Qed.

Lemma pow_mod_l n a b k : n <> 0 -> a mod n = b mod n -> a ^ k mod n = b ^ k mod n.
Proof.
  intros Hn E. destruct (Z.neg_nonneg_cases k) as [Hk|Hk]; [by rewrite !Z.pow_neg_r by done|].
  revert k Hk. apply natlike_ind; [done|]. intros k Hk IH. rewrite !Z.pow_succ_r by done.
  by rewrite Zmult_mod, E, IH, <- Zmult_mod.
Qed.

Lemma pow_one_mod n a k : 1 < n -> a mod n = 1 -> a ^ k mod n = if decide (0 <= k) then 1 else 0.
Proof.
  intros Hn E. destruct (decide (0 <= k)) as [Hk|Hk]; [|by rewrite Z.pow_neg_r by lia; apply Zmod_0_l].
  rewrite (pow_mod_l n a 1) by (lia || rewrite E, Z.mod_1_l by lia; done). rewrite Z.pow_1_l by done. by apply Z.mod_1_l.
Qed.

(** ** Fermat's little theorem *)

Section Fermat.
Context (p : Z) (Hp : prime p).

Lemma prime_gt_1 : 1 < p.
Proof. by destruct Hp. Qed.

Definition units : list Z := map Z.of_nat (seq 1 (Z.to_nat (p - 1))).

Lemma in_units x : In x units <-> 1 <= x < p.
Proof.
  pose proof prime_gt_1. unfold units. rewrite in_map_iff. split.
  - intros (n & <- & Hn%in_seq). lia.
  - intros Hx. exists (Z.to_nat x). rewrite in_seq. lia.
Qed.

Lemma units_NoDup : List.NoDup units.
Proof. apply Injective_map_NoDup; [intros a b; lia|apply seq_NoDup]. Qed.

Definition product (l : list Z) : Z := foldr Z.mul 1 l.

Lemma product_permutation l l' : Permutation l l' -> product l = product l'.
Proof. induction 1; simpl; lia. Qed.

Lemma product_scaled a l : product (map (fun x => a * x mod p) l) mod p = (a ^ Z.of_nat (length l) * product l) mod p.
Proof.
  induction l as [|x l IH]; [done|]. cbn [map product foldr length]. fold (product l) (product (map (fun x => a * x mod p) l)).
  rewrite Zmult_mod_idemp_l, Zmult_mod, IH, <- Zmult_mod, Nat2Z.inj_succ, Z.pow_succ_r by lia. f_equal. ring.
Qed.

Lemma not_divides x : 1 <= x < p -> ~ (p | x).
Proof. intros Hx Hd%Z.divide_pos_le; lia. Qed.

Lemma product_units_prime l : Forall (fun x => ~ (p | x)) l -> ~ (p | product l).
Proof.
  induction 1 as [|x l Hx Hl IH]; simpl.
  - pose proof prime_gt_1. intros Hd%Z.divide_pos_le; lia.
  - intros [?|?]%prime_mult; done.
Qed.

Lemma scaled_units a : ~ (p | a) -> Permutation (map (fun x => a * x mod p) units) units.
Proof.
  intros Ha. pose proof prime_gt_1 as H1. apply NoDup_Permutation_bis.
  - apply NoDup_map_NoDup_ForallPairs; [|apply units_NoDup].
    intros x y Hx%in_units Hy%in_units E. apply mod_eq_iff in E; [|lia].
    replace (a * x - a * y) with (a * (x - y)) in E by ring.
    apply prime_mult in E as [?|[k Hk]]; [done| |done]. assert (k = 0) by nia. lia.
  - by rewrite length_map.
  - intros y (x & <- & Hx%in_units)%in_map_iff. apply in_units. pose proof (Z.mod_pos_bound (a * x) p ltac:(lia)).
    assert (a * x mod p <> 0); [|lia]. intros E%Z.mod_divide; [|lia].
    apply prime_mult in E as [?|?]; [done| |done]. by apply (not_divides x).
Qed.

Lemma fermat a : ~ (p | a) -> a ^ (p - 1) mod p = 1.
Proof.
  intros Ha. pose proof prime_gt_1 as H1. pose proof (product_scaled a units) as E.
  rewrite (product_permutation _ _ (scaled_units a Ha)) in E.
  assert (length units = Z.to_nat (p - 1)) as El by (unfold units; by rewrite length_map, length_seq).
  rewrite El, Z2Nat.id in E by lia. symmetry in E. apply mod_eq_iff in E; [|lia].
  replace (a ^ (p - 1) * product units - product units) with ((a ^ (p - 1) - 1) * product units) in E by ring.
  apply prime_mult in E as [E|E]; [| |done].
  - apply mod_eq_iff in E; [|lia]. by rewrite Z.mod_1_l in E by lia.
  - exfalso. revert E. apply product_units_prime. apply List.Forall_forall. intros x Hx%in_units. by apply not_divides.
Qed.
End Fermat.

(** ** Prime divisors *)

Lemma prime_divisor n : 1 < n -> exists r, prime r /\ (r | n).
Proof.
  intros Hn. assert (0 <= n) as H0 by lia. revert n H0 Hn. refine (Z_lt_induction _ _). intros n IH Hn.
  destruct (prime_dec n) as [Hp|Hp]; [by exists n|]. apply not_prime_divide in Hp as (m & Hm & Hd); [|done].
  destruct (IH m) as (r & Hr & Hd'); [lia|lia|]. exists r. split; [done|]. by transitivity m.
Qed.

(** A number is prime if all its prime divisors are above its square root. *)
Lemma prime_by_divisors n : 1 < n -> (forall r, prime r -> (r | n) -> n < r * r) -> prime n.
Proof.
  intros Hn H. destruct (prime_dec n) as [|Hp]; [done|]. exfalso. apply not_prime_divide in Hp as (m & Hm & [k Hk]); [|done].
  assert (1 < k) by nia. destruct (prime_divisor m) as (r & Hr & Hc); [lia|]. destruct (prime_divisor k) as (s & Hs & He); [lia|].
  pose proof (prime_gt_1 r Hr). pose proof (prime_gt_1 s Hs).
  assert (n < r * r) by (apply H; [done|rewrite Hk; by apply Z.divide_mul_r]).
  assert (n < s * s) by (apply H; [done|rewrite Hk; by apply Z.divide_mul_l]).
  apply Z.divide_pos_le in Hc; [|lia]. apply Z.divide_pos_le in He; [|lia].
  assert (r * s <= k * m) by nia. destruct (Z.le_ge_cases r s); nia.
Qed.

Lemma prime_trial n : 1 < n -> (forall m, 1 < m -> m * m <= n -> ~ (m | n)) -> prime n.
Proof.
  intros Hn H. apply prime_by_divisors; [done|]. intros r Hr Hd. pose proof (prime_gt_1 r Hr).
  destruct (Z.lt_ge_cases n (r * r)) as [|Hge]; [done|]. exfalso. by apply (H r).
Qed.

(** ** Pocklington's criterion *)

Lemma bezout_nonneg a b : 0 < a -> 0 < b -> rel_prime a b -> exists u v, 0 <= u /\ 0 <= v /\ u * a = 1 + v * b.
Proof.
  intros Ha Hb Hr. apply rel_prime_bezout in Hr as [u v E]. exists (u + (Z.abs u + Z.abs v) * b), (- v + (Z.abs u + Z.abs v) * a).
  repeat split; [nia|nia|]. rewrite !Z.mul_add_distr_r, (Z.mul_comm _ b), (Z.mul_comm _ a). lia.
Qed.

Lemma order_divides r q b : prime r -> prime q -> b mod r <> 1 -> b ^ q mod r = 1 -> (q | r - 1).
Proof.
  intros Hr Hq Hb Eb. pose proof (prime_gt_1 r Hr). pose proof (prime_gt_1 q Hq).
  destruct (Zdivide_dec q (r - 1)) as [|Hn]; [done|]. exfalso. apply Hb.
  assert (~ (r | b)) as Hd.
  { intros [k ->].
    assert ((k * r) ^ q mod r = 0) as E0; [|lia]. rewrite (pow_mod_l r _ 0) by (lia || rewrite Z_mod_mult; done).
    rewrite Z.pow_0_l by lia. done. }
  destruct (bezout_nonneg q (r - 1)) as (u & v & Hu & Hv & E); [lia|lia|by apply prime_rel_prime|].
  pose proof (fermat r Hr b Hd) as Ef.
  assert (b ^ (u * q) mod r = 1) as E1.
  { rewrite Z.mul_comm, Z.pow_mul_r, pow_one_mod by (lia || done). by rewrite decide_True. }
  rewrite E, Z.pow_add_r, Z.pow_1_r, Zmult_mod, (Z.mul_comm v), Z.pow_mul_r in E1 by nia.
  rewrite (pow_one_mod r _ v), decide_True, Z.mul_1_r, Zmod_mod in E1 by (lia || done). done.
Qed.

Lemma product_divides (l : list Z) m : List.NoDup l -> Forall prime l -> Forall (fun q => (q | m)) l -> (product l | m).
Proof.
  induction l as [|q l IH]; intros Hn Hp Hd; simpl; [apply Z.divide_1_l|].
  inversion Hn; subst. inversion Hp; subst. inversion Hd as [|? ? [k ->] Hd']; subst.
  assert (rel_prime q (product l)) as Hr.
  { apply prime_rel_prime; [done|]. intros Hq. revert H1. clear -Hq H3 H4. induction H4 as [|x l Hx Hl IH]; simpl in *.
    - apply Z.divide_pos_le in Hq; [|lia]. pose proof (prime_gt_1 q H3). lia.
    - apply prime_mult in Hq as [Hq|Hq]; [| |done].
      + intros H. apply H. left. symmetry. by apply prime_div_prime.
      + intros H. apply IH; [done|]. intros Hi. apply H. by right. }
  rewrite Z.mul_comm. apply Z.mul_divide_mono_r. apply (Gauss _ q).
  - rewrite Z.mul_comm. by apply IH.
  - by apply rel_prime_sym.
Qed.

Lemma pocklington n a (l : list Z) :
  1 < n -> List.NoDup l -> Forall prime l -> n < product l * product l -> a ^ (n - 1) mod n = 1 ->
  Forall (fun q => (q | n - 1) /\ Z.gcd (a ^ ((n - 1) / q) - 1) n = 1) l -> prime n.
Proof.
  intros Hn Hd Hp Hl Ea Hq. apply prime_by_divisors; [done|]. intros r Hr Hrn. pose proof (prime_gt_1 r Hr).
  assert (product l | r - 1) as Hdiv; [|].
  { apply product_divides; [done|done|]. apply List.Forall_forall. intros q Hin.
    rewrite List.Forall_forall in Hp, Hq. destruct (Hq q Hin) as [[k Hk] Hg]. specialize (Hp q Hin).
    pose proof (prime_gt_1 q Hp). rewrite Hk, Z.div_mul in Hg by lia.
    apply (order_divides r q (a ^ k)); [done|done| |].
    - intros E. assert (r | 1) as Hone; [|apply Z.divide_pos_le in Hone; lia]. rewrite <- Hg. apply Z.gcd_greatest; [|done].
      apply mod_eq_iff; [lia|]. by rewrite E, Z.mod_1_l.
    - rewrite <- Z.pow_mul_r, <- Hk by nia. destruct Hrn as [c Hc].
      assert (a ^ (n - 1) mod n = 1 mod n) as E1 by (by rewrite Ea, Z.mod_1_l).
      apply mod_eq_iff in E1; [|lia]. assert (a ^ (n - 1) mod r = 1 mod r) as E2; [|by rewrite E2, Z.mod_1_l by lia].
      apply mod_eq_iff; [lia|]. transitivity n; [by exists c|done]. }
  assert (0 < product l) by (clear -Hp; induction Hp as [|x l Hx Hl IH]; simpl; [lia|pose proof (prime_gt_1 x Hx); lia]).
  apply Z.divide_pos_le in Hdiv; [nia|lia].
Qed.

(** ** Certificates *)

Fixpoint no_divisor (fuel : nat) (m n : Z) : bool :=
  match fuel with
  | O => false
  | S fuel => if n <? m * m then true else negb (n mod m =? 0) && no_divisor fuel (m + 1) n
  end.

Lemma no_divisor_sound fuel m n : no_divisor fuel m n = true -> forall x, m <= x -> x * x <= n -> 1 < m -> ~ (x | n).
Proof.
  revert m. induction fuel as [|fuel IH]; [done|]. intros m. cbn [no_divisor].
  destruct (n <? m * m) eqn:E; zbool; intros H x Hx Hn Hm Hd; [nia|]. apply andb_prop in H as [H1 H2]. zbool.
  destruct (decide (x = m)) as [->|]; [apply Z.mod_divide in Hd; lia|]. revert Hd. apply (IH (m + 1)); [done|lia|lia|lia].
Qed.

(** [n], a witness, and prime divisors of [n - 1]. *)
Definition cert : Type := Z * Z * list Z.

Definition congruent_1 (n : Z) (r : option limbs) : bool :=
  match r with Some r => lval r mod n =? 1 | None => false end.

Definition power (len : nat) (n a e : Z) : option limbs :=
  match e with Z.pos e => powmod (new_modulus len n) (of_Z_limbs len a) e | _ => None end.

Definition divisor_ok (len : nat) (n a q : Z) : bool :=
  ((n - 1) mod q =? 0) &&
  match power len n a ((n - 1) / q) with Some r => Z.gcd (lval r - 1) n =? 1 | None => false end.

Definition len_of (n : Z) : nat := S (Z.to_nat (Z.log2 n / 26)).

Definition check_cert (primes : list Z) (c : cert) : bool :=
  let '(n, a, l) := c in
  let len := len_of n in
  wf_modulus (new_modulus len n) && (1 <? n) && (0 <=? a) && (a <? n) && bool_decide (NoDup l) &&
  forallb (fun q => bool_decide (q ∈ primes) || (1 <? q) && no_divisor 100 2 q) l &&
  (n <? product l * product l) && congruent_1 n (power len n a (n - 1)) && forallb (divisor_ok len n a) l.

Fixpoint check_prime (primes : list Z) (cs : list cert) : bool :=
  match cs with
  | [] => true
  | c :: cs => check_cert primes c && check_prime (c.1.1 :: primes) cs
  end.

Lemma len_of_enough n : 1 < n -> n < base26 ^ Z.of_nat (len_of n).
Proof.
  intros Hn. destruct (Z.log2_spec n) as [_ H]; [lia|]. eapply Z.lt_le_trans; [exact H|].
  unfold base26, len_of. change 67108864 with (2 ^ 26). pose proof (Z.log2_nonneg n).
  pose proof (Z.div_mod (Z.log2 n) 26 ltac:(done)). pose proof (Z.mod_pos_bound (Z.log2 n) 26 ltac:(done)).
  rewrite <- Z.pow_mul_r by lia. apply Z.pow_le_mono_r; lia.
Qed.

Lemma power_mod n a e r :
  wf_modulus (new_modulus (len_of n) n) = true -> 1 < n -> 0 <= a < n -> power (len_of n) n a e = Some r ->
  lval r mod n = a ^ e mod n.
Proof.
  intros Hw Hn Ha. destruct e as [|e|e]; simpl; [done| |done]. intros E. pose proof (len_of_enough n Hn).
  destruct (of_Z_limbs_spec (len_of n) n) as [En _]; [lia|]. destruct (of_Z_limbs_spec (len_of n) a) as [Ea Ha']; [lia|].
  rewrite Z.mod_small in En, Ea by lia. rewrite <- Ea at 1.
  eapply powmod_mod in E as [E _]; [exact E|done|done|done].
Qed.

Lemma check_cert_prime primes c : Forall prime primes -> check_cert primes c = true -> prime c.1.1.
Proof.
  intros Hp. destruct c as [[n a] l]. unfold check_cert. rewrite !andb_true_iff. cbn [fst].
  intros ((((((((Hw & Hn) & Ha) & Ha') & Hd) & Hl) & Hprod) & H1) & Hq). zbool. apply bool_decide_eq_true in Hd.
  apply (pocklington n a l); [done|by apply NoDup_ListNoDup| |done| |].
  - apply Forall_forall. intros q Hin%list_elem_of_In. rewrite forallb_forall in Hl. specialize (Hl q Hin).
    apply orb_true_iff in Hl as [Hl|Hl].
    + apply bool_decide_eq_true in Hl. by apply (Forall_forall prime primes).
    + zbool. apply prime_trial; [done|]. intros m Hm Hmm. eapply (no_divisor_sound 100 2); [done|lia|done|done].
  - unfold congruent_1 in H1. destruct (power _ _ _ _) as [r|] eqn:E; [|done]. zbool.
    by rewrite <- (power_mod n a (n - 1) r).
  - apply Forall_forall. intros q Hin%list_elem_of_In. rewrite forallb_forall in Hq. specialize (Hq q Hin).
    unfold divisor_ok in Hq. apply andb_prop in Hq as [Hdiv Hg]. zbool.
    destruct (decide (q = 0)) as [->|Hq0]; [by rewrite Zmod_0_r in Hdiv; lia|]. split; [by apply Z.mod_divide|].
    destruct (power _ _ _ ((n - 1) / q)) as [r|] eqn:E; [|done]. apply Z.eqb_eq in Hg. apply power_mod in E; [|done|done|lia].
    apply mod_eq_iff in E as [k Ek]; [|lia].
    replace (a ^ ((n - 1) / q) - 1) with (lval r - 1 + (- k) * n) by lia.
    by rewrite Z.gcd_comm, Z.gcd_add_mult_diag_r, Z.gcd_comm.
Qed.

Lemma check_prime_sound primes cs : Forall prime primes -> check_prime primes cs = true -> Forall prime (map (fun c : cert => c.1.1) cs).
Proof.
  revert primes. induction cs as [|c cs IH]; intros primes Hp; cbn [check_prime map]; [constructor|].
  rewrite andb_true_iff. intros [Hc Hcs]. pose proof (check_cert_prime primes c Hp Hc). constructor; [done|].
  apply (IH (c.1.1 :: primes)); [by constructor|done].
Qed.

Definition certificate : list cert := [
  (8574133, 2, [991; 103]);
  (1919519569386763, 2, [8574133; 127]);
  (569003, 2, [419; 97]);
  (2773320623, 2, [569003]);
  (72106336199, 2, [2773320623]);
  (75445702479781427272750846543864801, 2, [1919519569386763; 72106336199]);
  (430751, 2, [1723]);
  (31757755568855353, 2, [430751; 4153]);
  (74058212732561358302231226437062788676166966415465897661863160754340907, 2,
   [75445702479781427272750846543864801; 31757755568855353]);
  (2 ^ 255 - 19, 2, [74058212732561358302231226437062788676166966415465897661863160754340907])].

Lemma certificate_ok : check_prime [] certificate = true.
Proof. vm_compute. reflexivity. Qed.

Lemma prime_25519 : prime (2 ^ 255 - 19).
Proof.
  pose proof (check_prime_sound [] certificate (Forall_nil_2 _) certificate_ok) as H.
  by apply (proj1 (Forall_forall _ _) H), list_elem_of_In; do 9 right; left.
Qed.

(** ** The field *)

Local Open Scope Z_scope.

Definition P25519 : Z := 57896044618658097711785492504343953926634992332820282019728792003956564819949.

Lemma P25519_eq : P25519 = 2 ^ 255 - 19.
Proof. reflexivity. Qed.

Lemma P25519_prime : prime P25519.
Proof. rewrite P25519_eq. exact prime_25519. Qed.

Record Fp := mkFp { fval : Z; fval_range : (fval mod P25519 =? fval) = true }.

Lemma fval_inj a b : fval a = fval b -> a = b.
Proof. destruct a as [x Hx], b as [y Hy]; simpl. intros ->. f_equal. apply UIP_dec, bool_dec. Qed.

Lemma of_Z_range z : ((z mod P25519) mod P25519 =? z mod P25519) = true.
Proof. apply Z.eqb_eq, Zmod_mod. Qed.

Definition of_Z (z : Z) : Fp := mkFp (z mod P25519) (of_Z_range z).

#[global] Arguments of_Z : simpl never.

Definition fadd a b := of_Z (fval a + fval b).
Definition fsub a b := of_Z (fval a - fval b).
Definition fmul a b := of_Z (fval a * fval b).
Definition fopp a := of_Z (- fval a).
Definition fpow a n := of_Z (fval a ^ n).
Definition finv a := fpow a (P25519 - 2).
Definition fdiv a b := fmul a (finv b).

Declare Scope fp_scope.
Delimit Scope fp_scope with fp.
Bind Scope fp_scope with Fp.
Infix "+" := fadd : fp_scope.
Infix "-" := fsub : fp_scope.
Infix "*" := fmul : fp_scope.
Infix "/" := fdiv : fp_scope.
Infix "^" := fpow : fp_scope.
Notation "- x" := (fopp x) : fp_scope.
Notation "0" := (of_Z 0) : fp_scope.
Notation "1" := (of_Z 1) : fp_scope.
Notation "2" := (of_Z 2) : fp_scope.

(** ** The embedding of the integers *)

Lemma fval_of_Z z : fval (of_Z z) = z mod P25519.
Proof. done. Qed.

Lemma fval_bounds a : 0 <= fval a < P25519.
Proof. destruct a as [x Hx]; simpl. apply Z.eqb_eq in Hx. rewrite <- Hx. by apply Z.mod_pos_bound. Qed.

Lemma fval_small a : fval a mod P25519 = fval a.
Proof. destruct a as [x Hx]; simpl. by apply Z.eqb_eq. Qed.

Lemma of_Z_fval a : of_Z (fval a) = a.
Proof. apply fval_inj. rewrite fval_of_Z. apply fval_small. Qed.

Lemma of_Z_eq x y : of_Z x = of_Z y <-> x mod P25519 = y mod P25519.
Proof. split; [intros E; by apply (f_equal fval) in E|]. intros E. by apply fval_inj. Qed.

Lemma of_Z_divide x y : of_Z x = of_Z y <-> (P25519 | x - y).
Proof. rewrite of_Z_eq. by apply mod_eq_iff. Qed.

Lemma of_Z_add x y : of_Z (x + y) = (of_Z x + of_Z y)%fp.
Proof. unfold fadd. rewrite of_Z_eq, !fval_of_Z. apply Zplus_mod. Qed.

Lemma of_Z_sub x y : of_Z (x - y) = (of_Z x - of_Z y)%fp.
Proof. unfold fsub. rewrite of_Z_eq, !fval_of_Z. apply Zminus_mod. Qed.

Lemma of_Z_mul x y : of_Z (x * y) = (of_Z x * of_Z y)%fp.
Proof. unfold fmul. rewrite of_Z_eq, !fval_of_Z. apply Zmult_mod. Qed.

Lemma of_Z_opp x : of_Z (- x) = (- of_Z x)%fp.
Proof. unfold fopp. rewrite of_Z_divide, fval_of_Z. exists (- (x / P25519)). pose proof (Z.div_mod x P25519 ltac:(done)). lia. Qed.

Lemma of_Z_pow x n : of_Z (x ^ n) = (of_Z x ^ n)%fp.
Proof. unfold fpow. rewrite of_Z_eq, fval_of_Z. apply pow_mod_l; [done|]. by rewrite Zmod_mod. Qed.

Create HintDb of_Z.
#[export] Hint Rewrite of_Z_add of_Z_sub of_Z_mul of_Z_opp of_Z_pow : of_Z.

(** Every equation between elements is one between integers. *)
Ltac fp_lift :=
  repeat match goal with
  | |- context [?a] => is_var a; match type of a with Fp => rewrite <- (of_Z_fval a); generalize (fval a); clear a end
  end; intros.

(** ** The field *)

Lemma fp_one_neq_zero : 1%fp <> 0%fp.
Proof. rewrite of_Z_eq. done. Qed.

Lemma Fp_ring : ring_theory 0%fp 1%fp fadd fmul fsub fopp eq.
Proof.
  constructor; intros; fp_lift; rewrite <- ?of_Z_opp, <- ?of_Z_add, <- ?of_Z_mul, <- ?of_Z_sub, <- ?of_Z_opp, <- ?of_Z_add, <- ?of_Z_mul; f_equal; ring.
Qed.

Lemma fp_zero_divides a : a = 0%fp <-> (P25519 | fval a).
Proof. rewrite <- (of_Z_fval a) at 1. rewrite of_Z_divide. by rewrite Z.sub_0_r. Qed.

(** Fermat's little theorem. *)
Lemma fp_fermat a : a <> 0%fp -> (a ^ (P25519 - 1))%fp = 1%fp.
Proof.
  intros Ha. unfold fpow. rewrite of_Z_eq. rewrite (fermat P25519 P25519_prime); [done|]. intros Hd. by apply Ha, fp_zero_divides.
Qed.

Lemma fpow_mul_r a n m : 0 <= n -> 0 <= m -> (a ^ (n * m) = (a ^ n) ^ m)%fp.
Proof. intros. rewrite <- (of_Z_fval a), <- !of_Z_pow. f_equal. by apply Z.pow_mul_r. Qed.

Lemma fpow_add a n m : 0 <= n -> 0 <= m -> (a ^ (n + m) = a ^ n * a ^ m)%fp.
Proof. intros. rewrite <- (of_Z_fval a), <- !of_Z_pow, <- of_Z_mul. f_equal. by apply Z.pow_add_r. Qed.

Lemma fpow_1 a : (a ^ 1 = a)%fp.
Proof. rewrite <- (of_Z_fval a) at 2. unfold fpow. by rewrite Z.pow_1_r. Qed.

Lemma fpow_2 a : (a ^ 2 = a * a)%fp.
Proof. change 2 with (1 + 1). by rewrite fpow_add, fpow_1. Qed.

Lemma fpow_mul_l a b n : ((a * b) ^ n = a ^ n * b ^ n)%fp.
Proof. rewrite <- (of_Z_fval a), <- (of_Z_fval b), <- of_Z_mul, <- !of_Z_pow, <- of_Z_mul. f_equal. by apply Z.pow_mul_l. Qed.

Lemma fpow_one n : 0 <= n -> (1 ^ n = 1)%fp.
Proof. intros. rewrite <- of_Z_pow. by rewrite Z.pow_1_l. Qed.

Lemma finv_l a : a <> 0%fp -> (finv a * a = 1)%fp.
Proof.
  intros Ha. unfold finv. rewrite <- (fpow_1 a) at 2. rewrite <- fpow_add by done. by apply fp_fermat.
Qed.

Lemma Fp_field : field_theory 0%fp 1%fp fadd fmul fsub fopp fdiv finv eq.
Proof. constructor; [exact Fp_ring|exact fp_one_neq_zero|done|exact finv_l]. Qed.

(** Integer constants in ring expressions. *)
Lemma Fp_morph : ring_morph 0%fp 1%fp fadd fmul fsub fopp eq 0 1 Z.add Z.mul Z.sub Z.opp Z.eqb of_Z.
Proof.
  constructor; [done|done|exact of_Z_add|exact of_Z_sub|exact of_Z_mul|exact of_Z_opp|]. intros x y E%Z.eqb_eq. by rewrite E.
Qed.

Ltac Fp_constant t :=
  match t with
  | of_Z ?z => match isZcst z with true => z | _ => constr:(InitialRing.NotConstant) end
  | _ => constr:(InitialRing.NotConstant)
  end.

Add Field Fp_field_structure : Fp_field (morphism Fp_morph, constants [Fp_constant]).

(** ** Consequences *)

#[export] Instance Fp_eq_dec : EqDecision Fp.
Proof.
  intros a b. destruct (decide (fval a = fval b)) as [E|E]; [left; by apply fval_inj|right; intros ->; done].
Defined.

Lemma fmul_zero a b : (a * b)%fp = 0%fp -> a = 0%fp \/ b = 0%fp.
Proof.
  intros E. destruct (decide (a = 0%fp)) as [|Ha]; [by left|]. right.
  transitivity (finv a * a * b)%fp; [rewrite finv_l by done; ring|]. transitivity (finv a * (a * b))%fp; [ring|]. rewrite E. ring.
Qed.

Lemma fmul_nonzero a b : a <> 0%fp -> b <> 0%fp -> (a * b)%fp <> 0%fp.
Proof. intros Ha Hb E. by apply fmul_zero in E as [?|?]. Qed.

Lemma fmul_cancel_l a b c : a <> 0%fp -> (a * b = a * c)%fp -> b = c.
Proof.
  intros Ha E. destruct (fmul_zero a (b - c)) as [?|H]; [|done|].
  - transitivity (a * b - a * c)%fp; [ring|]. rewrite E. ring.
  - transitivity (b - c + c)%fp; [ring|]. rewrite H. ring.
Qed.

Lemma fsquare_eq a b : (a * a = b * b)%fp -> a = b \/ a = (- b)%fp.
Proof.
  intros E. destruct (fmul_zero (a - b) (a + b)) as [H|H].
  - transitivity (a * a - b * b)%fp; [ring|]. rewrite E. ring.
  - left. transitivity (a - b + b)%fp; [ring|]. rewrite H. ring.
  - right. transitivity (a + b - b)%fp; [ring|]. rewrite H. ring.
Qed.

Lemma fp_two_neq_zero : 2%fp <> 0%fp.
Proof. rewrite of_Z_eq. done. Qed.

Lemma finv_nonzero a : a <> 0%fp -> finv a <> 0%fp.
Proof. intros Ha E. apply fp_one_neq_zero. rewrite <- (finv_l a Ha), E. ring. Qed.

Lemma fpow_nonzero a n : 0 <= n -> a <> 0%fp -> (a ^ n)%fp <> 0%fp.
Proof.
  intros Hn Ha. revert n Hn. apply natlike_ind; [exact fp_one_neq_zero|]. intros n Hn IH.
  replace (Z.succ n) with (n + 1) by lia. rewrite fpow_add, fpow_1 by lia. by apply fmul_nonzero.
Qed.

(** A square has the power [(p - 1) / 2] one. *)
Lemma euler_square a s : a = (s * s)%fp -> a <> 0%fp -> (a ^ ((P25519 - 1) / 2))%fp = 1%fp.
Proof.
  intros -> Ha. rewrite <- fpow_2, <- fpow_mul_r by (apply Z.leb_le; reflexivity). apply fp_fermat. intros ->. apply Ha. ring.
Qed.

(** ** Computing powers *)

(** Powers of constants, with the arithmetic of [Limbs]. *)
Definition pow_is (a e r : Z) : bool :=
  wf_modulus (new_modulus (len_of P25519) P25519) && (0 <=? a) && (a <? P25519) &&
  match power (len_of P25519) P25519 a e with Some l => lval l mod P25519 =? r mod P25519 | None => false end.

Lemma pow_is_ok a e r : pow_is a e r = true -> (of_Z a ^ e)%fp = of_Z r.
Proof.
  unfold pow_is. rewrite !andb_true_iff. intros (((Hw & Ha) & Ha') & H). zbool.
  destruct (power _ _ _ _) as [l|] eqn:E; [|done]. zbool. rewrite <- of_Z_pow, of_Z_eq. rewrite <- H.
  symmetry. eapply power_mod; [done|done|lia|exact E].
Qed.

(** From here on the operations are known by their laws. *)
#[global] Opaque fadd fsub fmul fopp fpow finv fdiv.
