(* ===== verification/FieldElement.v ===== *)
(** * Field elements: [crypto/ed25519/internal/edwards25519/edwards25519.go]

    A field element is ten limbs of type [int32], which stand for an element of [Fp] in
    the mixed radix [2 ^ 25.5]; limbs may be negative and larger than their digit.  First
    come the operations on them, with every 32-bit and 64-bit result wrapped.  A sum of
    products is wrapped once, which is what wrapping after every addition and
    multiplication gives.  The functions of the code write their result through a pointer
    that may also be an argument; they read a limb before they write it, so that a
    result that is returned is the same.

    Then the proof that the operations are those of the field.  [fe f] is the element of
    [Fp] that limbs stand for and [bounded b f] bounds the odd limbs by [b] and the even
    ones by [2 * b].  Every operation is shown to compute the operation of the field,
    without overflow, from limbs bounded by [loose], and products have limbs bounded by
    [tight].  The comments of the code ask for less than [loose] as a precondition
    ([1.1 * 2 ^ 26] for even limbs), and its callers do not keep to it. *)

From Stdlib Require Import ZArith Lia.
From S2P Require Import Prelude Limbs Fp.

Local Open Scope Z_scope.

Record FieldElement := FE {
  fe0 : Z; fe1 : Z; fe2 : Z; fe3 : Z; fe4 : Z; fe5 : Z; fe6 : Z; fe7 : Z; fe8 : Z; fe9 : Z;
}.

Definition FeZero : FieldElement := FE 0 0 0 0 0 0 0 0 0 0.
Definition FeOne : FieldElement := FE 1 0 0 0 0 0 0 0 0 0.

(** Limb by limb. *)
Definition fe_map2 (op : Z -> Z -> Z) (a b : FieldElement) : FieldElement :=
  FE (op (fe0 a) (fe0 b)) (op (fe1 a) (fe1 b)) (op (fe2 a) (fe2 b)) (op (fe3 a) (fe3 b)) (op (fe4 a) (fe4 b))
     (op (fe5 a) (fe5 b)) (op (fe6 a) (fe6 b)) (op (fe7 a) (fe7 b)) (op (fe8 a) (fe8 b)) (op (fe9 a) (fe9 b)).

Definition FeAdd (a b : FieldElement) : FieldElement := fe_map2 (fun x y => int32 (x + y)) a b.
Definition FeSub (a b : FieldElement) : FieldElement := fe_map2 (fun x y => int32 (x - y)) a b.
Definition FeNeg (f : FieldElement) : FieldElement := fe_map2 (fun x _ => int32 (- x)) f f.

Definition FeCMove (f g : FieldElement) (b : Z) : FieldElement :=
  let b := int32 (- b) in
  fe_map2 (fun x y => Z.lxor x (Z.land b (Z.lxor x y))) f g.

(** ** Carries *)

(** [c = (a + (1 << (n-1))) >> n; b += c; a -= c << n] on 64-bit integers. *)
Definition round_carry (n a b : Z) : Z * Z :=
  let c := Z.shiftr (int64 (a + Z.shiftl 1 (n - 1))) n in
  (int64 (a - int64 (Z.shiftl c n)), int64 (b + c)).

(** The last limb is carried into the first, [2 ^ 255] being 19. *)
Definition round_carry19 (h9 h0 : Z) : Z * Z :=
  let c9 := Z.shiftr (int64 (h9 + Z.shiftl 1 24)) 25 in
  (int64 (h9 - int64 (Z.shiftl c9 25)), int64 (h0 + int64 (c9 * 19))).

Definition FeCombine (h0 h1 h2 h3 h4 h5 h6 h7 h8 h9 : Z) : FieldElement :=
  let '(h0, h1) := round_carry 26 h0 h1 in
  let '(h4, h5) := round_carry 26 h4 h5 in
  let '(h1, h2) := round_carry 25 h1 h2 in
  let '(h5, h6) := round_carry 25 h5 h6 in
  let '(h2, h3) := round_carry 26 h2 h3 in
  let '(h6, h7) := round_carry 26 h6 h7 in
  let '(h3, h4) := round_carry 25 h3 h4 in
  let '(h7, h8) := round_carry 25 h7 h8 in
  let '(h4, h5) := round_carry 26 h4 h5 in
  let '(h8, h9) := round_carry 26 h8 h9 in
  let '(h9, h0) := round_carry19 h9 h0 in
  let '(h0, h1) := round_carry 26 h0 h1 in
  FE (int32 h0) (int32 h1) (int32 h2) (int32 h3) (int32 h4) (int32 h5) (int32 h6) (int32 h7) (int32 h8) (int32 h9).

(** ** Multiplication *)

Definition FeMul (f g : FieldElement) : FieldElement :=
  let f0 := fe0 f in let f1 := fe1 f in let f2 := fe2 f in let f3 := fe3 f in let f4 := fe4 f in let f5 := fe5 f in
  let f6 := fe6 f in let f7 := fe7 f in let f8 := fe8 f in let f9 := fe9 f in let f1_2 := int32 (2 * fe1 f) in
  let f3_2 := int32 (2 * fe3 f) in let f5_2 := int32 (2 * fe5 f) in let f7_2 := int32 (2 * fe7 f) in
  let f9_2 := int32 (2 * fe9 f) in let g0 := fe0 g in let g1 := fe1 g in let g2 := fe2 g in let g3 := fe3 g in
  let g4 := fe4 g in let g5 := fe5 g in let g6 := fe6 g in let g7 := fe7 g in let g8 := fe8 g in let g9 := fe9 g in
  let g1_19 := int32 (19 * fe1 g) in let g2_19 := int32 (19 * fe2 g) in let g3_19 := int32 (19 * fe3 g) in
  let g4_19 := int32 (19 * fe4 g) in let g5_19 := int32 (19 * fe5 g) in let g6_19 := int32 (19 * fe6 g) in
  let g7_19 := int32 (19 * fe7 g) in let g8_19 := int32 (19 * fe8 g) in let g9_19 := int32 (19 * fe9 g) in
  let h0 := int64 (f0 * g0 + f1_2 * g9_19 + f2 * g8_19 + f3_2 * g7_19 + f4 * g6_19 + f5_2 * g5_19 + f6 * g4_19 +
    f7_2 * g3_19 + f8 * g2_19 + f9_2 * g1_19) in
  let h1 := int64 (f0 * g1 + f1 * g0 + f2 * g9_19 + f3 * g8_19 + f4 * g7_19 + f5 * g6_19 + f6 * g5_19 + f7 * g4_19 +
    f8 * g3_19 + f9 * g2_19) in
  let h2 := int64 (f0 * g2 + f1_2 * g1 + f2 * g0 + f3_2 * g9_19 + f4 * g8_19 + f5_2 * g7_19 + f6 * g6_19 +
    f7_2 * g5_19 + f8 * g4_19 + f9_2 * g3_19) in
  let h3 := int64 (f0 * g3 + f1 * g2 + f2 * g1 + f3 * g0 + f4 * g9_19 + f5 * g8_19 + f6 * g7_19 + f7 * g6_19 +
    f8 * g5_19 + f9 * g4_19) in
  let h4 := int64 (f0 * g4 + f1_2 * g3 + f2 * g2 + f3_2 * g1 + f4 * g0 + f5_2 * g9_19 + f6 * g8_19 + f7_2 * g7_19 +
    f8 * g6_19 + f9_2 * g5_19) in
  let h5 := int64 (f0 * g5 + f1 * g4 + f2 * g3 + f3 * g2 + f4 * g1 + f5 * g0 + f6 * g9_19 + f7 * g8_19 + f8 * g7_19 +
    f9 * g6_19) in
  let h6 := int64 (f0 * g6 + f1_2 * g5 + f2 * g4 + f3_2 * g3 + f4 * g2 + f5_2 * g1 + f6 * g0 + f7_2 * g9_19 +
    f8 * g8_19 + f9_2 * g7_19) in
  let h7 := int64 (f0 * g7 + f1 * g6 + f2 * g5 + f3 * g4 + f4 * g3 + f5 * g2 + f6 * g1 + f7 * g0 + f8 * g9_19 +
    f9 * g8_19) in
  let h8 := int64 (f0 * g8 + f1_2 * g7 + f2 * g6 + f3_2 * g5 + f4 * g4 + f5_2 * g3 + f6 * g2 + f7_2 * g1 + f8 * g0 +
    f9_2 * g9_19) in
  let h9 := int64 (f0 * g9 + f1 * g8 + f2 * g7 + f3 * g6 + f4 * g5 + f5 * g4 + f6 * g3 + f7 * g2 + f8 * g1 +
    f9 * g0) in
  FeCombine h0 h1 h2 h3 h4 h5 h6 h7 h8 h9.

Definition feSquare (f : FieldElement) : Z * Z * Z * Z * Z * Z * Z * Z * Z * Z :=
  let f0 := fe0 f in let f1 := fe1 f in let f2 := fe2 f in let f3 := fe3 f in let f4 := fe4 f in let f5 := fe5 f in
  let f6 := fe6 f in let f7 := fe7 f in let f8 := fe8 f in let f9 := fe9 f in let f0_2 := int32 (2 * fe0 f) in
  let f1_2 := int32 (2 * fe1 f) in let f2_2 := int32 (2 * fe2 f) in let f3_2 := int32 (2 * fe3 f) in
  let f4_2 := int32 (2 * fe4 f) in let f5_2 := int32 (2 * fe5 f) in let f6_2 := int32 (2 * fe6 f) in
  let f7_2 := int32 (2 * fe7 f) in let f5_38 := int64 (38 * f5) in let f6_19 := int64 (19 * f6) in
  let f7_38 := int64 (38 * f7) in let f8_19 := int64 (19 * f8) in let f9_38 := int64 (38 * f9) in
  let h0 := int64 (f0 * f0 + f1_2 * f9_38 + f2_2 * f8_19 + f3_2 * f7_38 + f4_2 * f6_19 + f5 * f5_38) in
  let h1 := int64 (f0_2 * f1 + f2 * f9_38 + f3_2 * f8_19 + f4 * f7_38 + f5_2 * f6_19) in
  let h2 := int64 (f0_2 * f2 + f1_2 * f1 + f3_2 * f9_38 + f4_2 * f8_19 + f5_2 * f7_38 + f6 * f6_19) in
  let h3 := int64 (f0_2 * f3 + f1_2 * f2 + f4 * f9_38 + f5_2 * f8_19 + f6 * f7_38) in
  let h4 := int64 (f0_2 * f4 + f1_2 * f3_2 + f2 * f2 + f5_2 * f9_38 + f6_2 * f8_19 + f7 * f7_38) in
  let h5 := int64 (f0_2 * f5 + f1_2 * f4 + f2_2 * f3 + f6 * f9_38 + f7_2 * f8_19) in
  let h6 := int64 (f0_2 * f6 + f1_2 * f5_2 + f2_2 * f4 + f3_2 * f3 + f7_2 * f9_38 + f8 * f8_19) in
  let h7 := int64 (f0_2 * f7 + f1_2 * f6 + f2_2 * f5 + f3_2 * f4 + f8 * f9_38) in
  let h8 := int64 (f0_2 * f8 + f1_2 * f7_2 + f2_2 * f6 + f3_2 * f5_2 + f4 * f4 + f9 * f9_38) in
  let h9 := int64 (f0_2 * f9 + f1_2 * f8 + f2_2 * f7 + f3_2 * f6 + f4_2 * f5) in
  (h0, h1, h2, h3, h4, h5, h6, h7, h8, h9).

Definition FeSquare (f : FieldElement) : FieldElement :=
  let '(h0, h1, h2, h3, h4, h5, h6, h7, h8, h9) := feSquare f in
  FeCombine h0 h1 h2 h3 h4 h5 h6 h7 h8 h9.

Definition FeSquare2 (f : FieldElement) : FieldElement :=
  let '(h0, h1, h2, h3, h4, h5, h6, h7, h8, h9) := feSquare f in
  FeCombine (int64 (h0 + h0)) (int64 (h1 + h1)) (int64 (h2 + h2)) (int64 (h3 + h3)) (int64 (h4 + h4))
    (int64 (h5 + h5)) (int64 (h6 + h6)) (int64 (h7 + h7)) (int64 (h8 + h8)) (int64 (h9 + h9)).

(** ** Powers *)

(** [for i = 1; i < n; i++ { FeSquare(&t, &t) }] *)
Definition squares (n : nat) (t : FieldElement) : FieldElement := Nat.iter (n - 1) FeSquare t.

Definition FeInvert (z : FieldElement) : FieldElement :=
  let t0 := FeSquare z in let t1 := FeSquare t0 in let t1 := squares 2 t1 in let t1 := FeMul z t1 in
  let t0 := FeMul t0 t1 in let t2 := FeSquare t0 in let t1 := FeMul t1 t2 in let t2 := FeSquare t1 in
  let t2 := squares 5 t2 in let t1 := FeMul t2 t1 in let t2 := FeSquare t1 in let t2 := squares 10 t2 in
  let t2 := FeMul t2 t1 in let t3 := FeSquare t2 in let t3 := squares 20 t3 in let t2 := FeMul t3 t2 in
  let t2 := FeSquare t2 in let t2 := squares 10 t2 in let t1 := FeMul t2 t1 in let t2 := FeSquare t1 in
  let t2 := squares 50 t2 in let t2 := FeMul t2 t1 in let t3 := FeSquare t2 in let t3 := squares 100 t3 in
  let t2 := FeMul t3 t2 in let t2 := FeSquare t2 in let t2 := squares 50 t2 in let t1 := FeMul t2 t1 in
  let t1 := FeSquare t1 in let t1 := squares 5 t1 in FeMul t1 t0.

Definition fePow22523 (z : FieldElement) : FieldElement :=
  let t0 := FeSquare z in let t0 := squares 1 t0 in let t1 := FeSquare t0 in let t1 := squares 2 t1 in
  let t1 := FeMul z t1 in let t0 := FeMul t0 t1 in let t0 := FeSquare t0 in let t0 := squares 1 t0 in
  let t0 := FeMul t1 t0 in let t1 := FeSquare t0 in let t1 := squares 5 t1 in let t0 := FeMul t1 t0 in
  let t1 := FeSquare t0 in let t1 := squares 10 t1 in let t1 := FeMul t1 t0 in let t2 := FeSquare t1 in
  let t2 := squares 20 t2 in let t1 := FeMul t2 t1 in let t1 := FeSquare t1 in let t1 := squares 10 t1 in
  let t0 := FeMul t1 t0 in let t1 := FeSquare t0 in let t1 := squares 50 t1 in let t1 := FeMul t1 t0 in
  let t2 := FeSquare t1 in let t2 := squares 100 t2 in let t1 := FeMul t2 t1 in let t1 := FeSquare t1 in
  let t1 := squares 50 t1 in let t0 := FeMul t1 t0 in let t0 := FeSquare t0 in let t0 := squares 2 t0 in
  FeMul t0 z.

(** ** Bytes *)

(** The byte at an index of an array. *)
Definition byte_at (b : bytes) (i : nat) : Z := Z_of_byte (nth i b Byte.x00).

(** [load3(in[off:])] *)
Definition load3 (b : bytes) (off : nat) : Z :=
  let r := byte_at b off in
  let r := Z.lor r (Z.shiftl (byte_at b (off + 1)) 8) in
  Z.lor r (Z.shiftl (byte_at b (off + 2)) 16).

Definition load4 (b : bytes) (off : nat) : Z :=
  let r := byte_at b off in
  let r := Z.lor r (Z.shiftl (byte_at b (off + 1)) 8) in
  let r := Z.lor r (Z.shiftl (byte_at b (off + 2)) 16) in
  Z.lor r (Z.shiftl (byte_at b (off + 3)) 24).

Definition FeFromBytes (src : bytes) : FieldElement :=
  let h0 := load4 src 0 in
  let h1 := Z.shiftl (load3 src 4) 6 in
  let h2 := Z.shiftl (load3 src 7) 5 in
  let h3 := Z.shiftl (load3 src 10) 3 in
  let h4 := Z.shiftl (load3 src 13) 2 in
  let h5 := load4 src 16 in
  let h6 := Z.shiftl (load3 src 20) 7 in
  let h7 := Z.shiftl (load3 src 23) 5 in
  let h8 := Z.shiftl (load3 src 26) 4 in
  let h9 := Z.shiftl (Z.land (load3 src 29) 8388607) 2 in
  FeCombine h0 h1 h2 h3 h4 h5 h6 h7 h8 h9.

(** [carry = a >> n; b += carry; a -= carry << n] on 32-bit integers. *)
Definition floor_carry32 (n a b : Z) : Z * Z :=
  let c := Z.shiftr a n in
  (int32 (a - int32 (Z.shiftl c n)), int32 (b + c)).

(** The quotient by the modulus. *)
Definition fe_quotient (h : FieldElement) : Z :=
  let q := Z.shiftr (int32 (int32 (19 * fe9 h) + Z.shiftl 1 24)) 25 in
  let q := Z.shiftr (int32 (fe0 h + q)) 26 in
  let q := Z.shiftr (int32 (fe1 h + q)) 25 in
  let q := Z.shiftr (int32 (fe2 h + q)) 26 in
  let q := Z.shiftr (int32 (fe3 h + q)) 25 in
  let q := Z.shiftr (int32 (fe4 h + q)) 26 in
  let q := Z.shiftr (int32 (fe5 h + q)) 25 in
  let q := Z.shiftr (int32 (fe6 h + q)) 26 in
  let q := Z.shiftr (int32 (fe7 h + q)) 25 in
  let q := Z.shiftr (int32 (fe8 h + q)) 26 in
  Z.shiftr (int32 (fe9 h + q)) 25.

(** The part of [FeToBytes] that reduces its argument, which it changes in place. *)
Definition fe_freeze (h : FieldElement) : FieldElement :=
  let q := fe_quotient h in
  let h0 := int32 (fe0 h + int32 (19 * q)) in
  let '(h0, h1) := floor_carry32 26 h0 (fe1 h) in
  let '(h1, h2) := floor_carry32 25 h1 (fe2 h) in
  let '(h2, h3) := floor_carry32 26 h2 (fe3 h) in
  let '(h3, h4) := floor_carry32 25 h3 (fe4 h) in
  let '(h4, h5) := floor_carry32 26 h4 (fe5 h) in
  let '(h5, h6) := floor_carry32 25 h5 (fe6 h) in
  let '(h6, h7) := floor_carry32 26 h6 (fe7 h) in
  let '(h7, h8) := floor_carry32 25 h7 (fe8 h) in
  let '(h8, h9) := floor_carry32 26 h8 (fe9 h) in
  let c9 := Z.shiftr h9 25 in
  FE h0 h1 h2 h3 h4 h5 h6 h7 h8 (int32 (h9 - int32 (Z.shiftl c9 25))).

Definition fe_pack (h : FieldElement) : bytes :=
  let '(FE h0 h1 h2 h3 h4 h5 h6 h7 h8 h9) := h in
  [byte_of_Z (Z.shiftr h0 0);
   byte_of_Z (Z.shiftr h0 8);
   byte_of_Z (Z.shiftr h0 16);
   byte_of_Z (Z.lor (Z.shiftr h0 24) (int32 (Z.shiftl h1 2)));
   byte_of_Z (Z.shiftr h1 6);
   byte_of_Z (Z.shiftr h1 14);
   byte_of_Z (Z.lor (Z.shiftr h1 22) (int32 (Z.shiftl h2 3)));
   byte_of_Z (Z.shiftr h2 5);
   byte_of_Z (Z.shiftr h2 13);
   byte_of_Z (Z.lor (Z.shiftr h2 21) (int32 (Z.shiftl h3 5)));
   byte_of_Z (Z.shiftr h3 3);
   byte_of_Z (Z.shiftr h3 11);
   byte_of_Z (Z.lor (Z.shiftr h3 19) (int32 (Z.shiftl h4 6)));
   byte_of_Z (Z.shiftr h4 2);
   byte_of_Z (Z.shiftr h4 10);
   byte_of_Z (Z.shiftr h4 18);
   byte_of_Z (Z.shiftr h5 0);
   byte_of_Z (Z.shiftr h5 8);
   byte_of_Z (Z.shiftr h5 16);
   byte_of_Z (Z.lor (Z.shiftr h5 24) (int32 (Z.shiftl h6 1)));
   byte_of_Z (Z.shiftr h6 7);
   byte_of_Z (Z.shiftr h6 15);
   byte_of_Z (Z.lor (Z.shiftr h6 23) (int32 (Z.shiftl h7 3)));
   byte_of_Z (Z.shiftr h7 5);
   byte_of_Z (Z.shiftr h7 13);
   byte_of_Z (Z.lor (Z.shiftr h7 21) (int32 (Z.shiftl h8 4)));
   byte_of_Z (Z.shiftr h8 4);
   byte_of_Z (Z.shiftr h8 12);
   byte_of_Z (Z.lor (Z.shiftr h8 20) (int32 (Z.shiftl h9 6)));
   byte_of_Z (Z.shiftr h9 2);
   byte_of_Z (Z.shiftr h9 10);
   byte_of_Z (Z.shiftr h9 18)].

(** The bytes, and what the argument is afterwards. *)
Definition FeToBytes (h : FieldElement) : bytes * FieldElement :=
  let h := fe_freeze h in (fe_pack h, h).

Definition FeIsNegative (f : FieldElement) : Z * FieldElement :=
  let '(s, f) := FeToBytes f in (Z.land (byte_at s 0) 1, f).

Definition FeIsNonZero (f : FieldElement) : Z * FieldElement :=
  let '(s, f) := FeToBytes f in
  let x := foldl (fun x b => Z.lor x (Z_of_byte b)) 0 s in
  let x := Z.lor x (Z.shiftr x 4) in
  let x := Z.lor x (Z.shiftr x 2) in
  let x := Z.lor x (Z.shiftr x 1) in
  (Z.land x 1, f).

(** ** The operations are those of the field *)

Local Open Scope Z_scope.

Definition fe_eval (f : FieldElement) : Z :=
  fe0 f + 2 ^ 26 * fe1 f + 2 ^ 51 * fe2 f + 2 ^ 77 * fe3 f + 2 ^ 102 * fe4 f + 2 ^ 128 * fe5 f + 2 ^ 153 * fe6 f +
  2 ^ 179 * fe7 f + 2 ^ 204 * fe8 f + 2 ^ 230 * fe9 f.

Definition fe (f : FieldElement) : Fp := of_Z (fe_eval f).

Definition bounded (b : Z) (f : FieldElement) : Prop :=
  (- (2 * b) <= fe0 f <= 2 * b /\ - b <= fe1 f <= b) /\ (- (2 * b) <= fe2 f <= 2 * b /\ - b <= fe3 f <= b) /\
  (- (2 * b) <= fe4 f <= 2 * b /\ - b <= fe5 f <= b) /\ (- (2 * b) <= fe6 f <= 2 * b /\ - b <= fe7 f <= b) /\
  (- (2 * b) <= fe8 f <= 2 * b /\ - b <= fe9 f <= b).

(** [1.01 * 2 ^ 24] and [1.65 * 2 ^ 25]. *)
Definition tight : Z := 16944988.
Definition loose : Z := 55364812.

Lemma bounded_mono a b f : a <= b -> bounded a f -> bounded b f.
Proof. unfold bounded. lia. Qed.

(** ** Addition *)

Lemma FeAdd_ok a b f g : a + b <= 2 ^ 30 - 1 -> bounded a f -> bounded b g -> fe (FeAdd f g) = (fe f + fe g)%fp /\ bounded (a + b) (FeAdd f g).
Proof.
  intros Hab Hf Hg. unfold bounded in *. unfold FeAdd, fe_map2, fe, fe_eval. cbn [fe0 fe1 fe2 fe3 fe4 fe5 fe6 fe7 fe8 fe9].
  rewrite !int32_id by (unfold_int; lia). split; [|lia]. rewrite <- of_Z_add. f_equal. ring.
Qed.

Lemma FeSub_ok a b f g : a + b <= 2 ^ 30 - 1 -> bounded a f -> bounded b g -> fe (FeSub f g) = (fe f - fe g)%fp /\ bounded (a + b) (FeSub f g).
Proof.
  intros Hab Hf Hg. unfold bounded in *. unfold FeSub, fe_map2, fe, fe_eval. cbn [fe0 fe1 fe2 fe3 fe4 fe5 fe6 fe7 fe8 fe9].
  rewrite !int32_id by (unfold_int; lia). split; [|lia]. rewrite <- of_Z_sub. f_equal. ring.
Qed.

Lemma FeNeg_ok a f : a <= 2 ^ 30 - 1 -> bounded a f -> fe (FeNeg f) = (- fe f)%fp /\ bounded a (FeNeg f).
Proof.
  intros Hab Hf. unfold bounded in *. unfold FeNeg, fe_map2, fe, fe_eval. cbn [fe0 fe1 fe2 fe3 fe4 fe5 fe6 fe7 fe8 fe9].
  rewrite !int32_id by (unfold_int; lia). split; [|lia]. rewrite <- of_Z_opp. f_equal. ring.
Qed.

Lemma fe_zero : fe FeZero = 0%fp.
Proof. reflexivity. Qed.

Lemma fe_one : fe FeOne = 1%fp.
Proof. reflexivity. Qed.

(** ** Carries *)

Lemma shiftr_bounds x n : 0 <= n -> Z.shiftr x n * 2 ^ n <= x < Z.shiftr x n * 2 ^ n + 2 ^ n.
Proof.
  intros. rewrite Z.shiftr_div_pow2 by done. pose proof (Z.pow_pos_nonneg 2 n ltac:(lia) ltac:(lia)).
  pose proof (Z.div_mod x (2 ^ n) ltac:(lia)). pose proof (Z.mod_pos_bound x (2 ^ n) ltac:(lia)). lia.
Qed.

Lemma round_carry_ok n a b a' b' :
  n = 26 \/ n = 25 \/ n = 21 -> - 2 ^ 62 <= a <= 2 ^ 62 -> - 2 ^ 62 <= b <= 2 ^ 62 -> round_carry n a b = (a', b') ->
  a' + 2 ^ n * b' = a + 2 ^ n * b /\ - 2 ^ (n - 1) <= a' < 2 ^ (n - 1).
Proof.
  intros Hn Ha Hb [= <- <-]. rewrite Z.shiftl_1_l. rewrite (int64_id (a + _)) by (destruct Hn as [->|[->| ->]]; unfold_int; lia).
  pose proof (shiftr_bounds (a + 2 ^ (n - 1)) n ltac:(lia)) as H. rewrite Z.shiftl_mul_pow2 by lia.
  set (c := Z.shiftr _ _) in *. clearbody c.
  destruct Hn as [->|[->| ->]]; rewrite (int64_id (c * _)), !int64_id by (unfold_int; lia); lia.
Qed.

Lemma round_carry19_ok a b a' b' :
  - 2 ^ 62 <= a <= 2 ^ 62 -> - 2 ^ 61 <= b <= 2 ^ 61 -> round_carry19 a b = (a', b') ->
  exists c, a' = a - 2 ^ 25 * c /\ b' = b + 19 * c /\ - 2 ^ 24 <= a' < 2 ^ 24.
Proof.
  intros Ha Hb [= <- <-]. change (Z.shiftl 1 24) with (2 ^ 24). rewrite (int64_id (a + _)) by (unfold_int; lia).
  pose proof (shiftr_bounds (a + 2 ^ 24) 25 ltac:(lia)) as H. rewrite Z.shiftl_mul_pow2 by lia.
  set (c := Z.shiftr _ _) in *. clearbody c. exists c.
  rewrite (int64_id (c * 2 ^ 25)), (int64_id (c * 19)), !int64_id by (unfold_int; lia). lia.
Qed.

Ltac carry_step :=
  match goal with
  | |- context [round_carry ?n ?a ?b] =>
      let E := fresh "E" in let x := fresh "h" in let y := fresh "h" in let H := fresh "Hc" in
      destruct (round_carry n a b) as [x y] eqn:E; apply round_carry_ok in E; [|lia|lia|lia];
      destruct E as [E H]; cbn beta iota
  end.

Lemma FeCombine_ok h0 h1 h2 h3 h4 h5 h6 h7 h8 h9 :
  Forall (fun h => - 4000000000000000000 <= h <= 4000000000000000000) [h0; h1; h2; h3; h4; h5; h6; h7; h8; h9] ->
  fe (FeCombine h0 h1 h2 h3 h4 h5 h6 h7 h8 h9) =
    of_Z (h0 + 2 ^ 26 * h1 + 2 ^ 51 * h2 + 2 ^ 77 * h3 + 2 ^ 102 * h4 + 2 ^ 128 * h5 + 2 ^ 153 * h6 + 2 ^ 179 * h7 +
          2 ^ 204 * h8 + 2 ^ 230 * h9) /\
  bounded tight (FeCombine h0 h1 h2 h3 h4 h5 h6 h7 h8 h9).
Proof.
  rewrite !Forall_cons. intros (B0 & B1 & B2 & B3 & B4 & B5 & B6 & B7 & B8 & B9 & _). unfold FeCombine.
  do 10 carry_step.
  destruct (round_carry19 _ _) as [k9 k0] eqn:E9. apply round_carry19_ok in E9; [|lia|lia]. destruct E9 as (c & Ek9 & Ek0 & H9).
  cbn beta iota. carry_step. cbn beta iota.
  unfold bounded, tight, fe, fe_eval. cbn [fe0 fe1 fe2 fe3 fe4 fe5 fe6 fe7 fe8 fe9].
  rewrite !int32_id by (unfold_int; lia). split; [|lia].
  rewrite of_Z_divide, P25519_eq. exists (- c). lia.
Qed.

(** ** Products *)

Lemma mul_bound x y A B : - A <= x <= A -> - B <= y <= B -> - (A * B) <= x * y <= A * B.
Proof. nia. Qed.

Lemma add_bound x y A B : - A <= x <= A -> - B <= y <= B -> - (A + B) <= x + y <= A + B.
Proof. lia. Qed.

Lemma const_bound k : - Z.pos k <= Z.pos k <= Z.pos k.
Proof. lia. Qed.

(** Bounds of expressions from bounds of their variables. *)
Ltac zbound :=
  first [eassumption | apply const_bound | eapply add_bound; [zbound|zbound] | eapply mul_bound; [zbound|zbound]].

Lemma int32_bound x C : - C <= x <= C -> (C <=? MaxInt32) = true -> int32 x = x.
Proof. intros H HC. zbool. apply int32_id. unfold_int. lia. Qed.

Lemma int64_bound x C : - C <= x <= C -> (C <=? MaxInt64) = true -> int64 x = x.
Proof. intros H HC. zbool. apply int64_id. unfold_int. lia. Qed.

Lemma bound_le x C lo hi : - C <= x <= C -> (lo <=? - C) && (C <=? hi) = true -> lo <= x <= hi.
Proof. intros H HC. zbool. lia. Qed.

Ltac no_wrap :=
  repeat match goal with
  | |- context [int32 ?x] => erewrite (int32_bound x); [|zbound|vm_compute; reflexivity]
  | |- context [int64 ?x] => erewrite (int64_bound x); [|zbound|vm_compute; reflexivity]
  end.

Ltac bound_all := repeat (apply Forall_cons_2; [eapply bound_le; [zbound|vm_compute; reflexivity]|]); apply Forall_nil_2.

(** The multiple of [2 ^ 255] in a product of limbs. *)
Definition product_quotient (f g : FieldElement) : Z :=
  2 ^ 1 * (fe1 f * fe9 g) + 2 ^ 0 * (fe2 f * fe8 g) + 2 ^ 26 * (fe2 f * fe9 g) + 2 ^ 1 * (fe3 f * fe7 g) +
  2 ^ 26 * (fe3 f * fe8 g) + 2 ^ 52 * (fe3 f * fe9 g) + 2 ^ 0 * (fe4 f * fe6 g) + 2 ^ 26 * (fe4 f * fe7 g) +
  2 ^ 51 * (fe4 f * fe8 g) + 2 ^ 77 * (fe4 f * fe9 g) + 2 ^ 1 * (fe5 f * fe5 g) + 2 ^ 26 * (fe5 f * fe6 g) +
  2 ^ 52 * (fe5 f * fe7 g) + 2 ^ 77 * (fe5 f * fe8 g) + 2 ^ 103 * (fe5 f * fe9 g) + 2 ^ 0 * (fe6 f * fe4 g) +
  2 ^ 26 * (fe6 f * fe5 g) + 2 ^ 51 * (fe6 f * fe6 g) + 2 ^ 77 * (fe6 f * fe7 g) + 2 ^ 102 * (fe6 f * fe8 g) +
  2 ^ 128 * (fe6 f * fe9 g) + 2 ^ 1 * (fe7 f * fe3 g) + 2 ^ 26 * (fe7 f * fe4 g) + 2 ^ 52 * (fe7 f * fe5 g) +
  2 ^ 77 * (fe7 f * fe6 g) + 2 ^ 103 * (fe7 f * fe7 g) + 2 ^ 128 * (fe7 f * fe8 g) + 2 ^ 154 * (fe7 f * fe9 g) +
  2 ^ 0 * (fe8 f * fe2 g) + 2 ^ 26 * (fe8 f * fe3 g) + 2 ^ 51 * (fe8 f * fe4 g) + 2 ^ 77 * (fe8 f * fe5 g) +
  2 ^ 102 * (fe8 f * fe6 g) + 2 ^ 128 * (fe8 f * fe7 g) + 2 ^ 153 * (fe8 f * fe8 g) + 2 ^ 179 * (fe8 f * fe9 g) +
  2 ^ 1 * (fe9 f * fe1 g) + 2 ^ 26 * (fe9 f * fe2 g) + 2 ^ 52 * (fe9 f * fe3 g) + 2 ^ 77 * (fe9 f * fe4 g) +
  2 ^ 103 * (fe9 f * fe5 g) + 2 ^ 128 * (fe9 f * fe6 g) + 2 ^ 154 * (fe9 f * fe7 g) + 2 ^ 179 * (fe9 f * fe8 g) +
  2 ^ 205 * (fe9 f * fe9 g).

Lemma FeMul_ok f g : bounded loose f -> bounded loose g -> fe (FeMul f g) = (fe f * fe g)%fp /\ bounded tight (FeMul f g).
Proof.
  unfold bounded, loose. intros Hf Hg. destruct Hf as ((? & ?) & (? & ?) & (? & ?) & (? & ?) & (? & ?)), Hg as ((? & ?) & (? & ?) & (? & ?) & (? & ?) & (? & ?)).
  unfold FeMul. cbv zeta. no_wrap.
  edestruct FeCombine_ok as [E B]; [|split; [rewrite E|exact B]].
  - bound_all.
  - unfold fe. rewrite <- of_Z_mul, of_Z_divide, P25519_eq. exists (- product_quotient f g). unfold fe_eval, product_quotient. ring.
Qed.

(** The sums that [feSquare] returns. *)
Lemma feSquare_ok f :
  bounded loose f ->
  exists h0 h1 h2 h3 h4 h5 h6 h7 h8 h9,
    feSquare f = (h0, h1, h2, h3, h4, h5, h6, h7, h8, h9) /\
    Forall (fun h => - 2000000000000000000 <= h <= 2000000000000000000) [h0; h1; h2; h3; h4; h5; h6; h7; h8; h9] /\
    h0 + 2 ^ 26 * h1 + 2 ^ 51 * h2 + 2 ^ 77 * h3 + 2 ^ 102 * h4 + 2 ^ 128 * h5 + 2 ^ 153 * h6 + 2 ^ 179 * h7 +
    2 ^ 204 * h8 + 2 ^ 230 * h9 = fe_eval f * fe_eval f - product_quotient f f * P25519.
Proof.
  unfold bounded, loose. intros Hf. destruct Hf as ((? & ?) & (? & ?) & (? & ?) & (? & ?) & (? & ?)).
  unfold feSquare. cbv zeta. no_wrap. do 10 eexists. split; [reflexivity|]. split; [bound_all|].
  rewrite P25519_eq. unfold fe_eval, product_quotient. ring.
Qed.

Lemma FeSquare_ok f : bounded loose f -> fe (FeSquare f) = (fe f * fe f)%fp /\ bounded tight (FeSquare f).
Proof.
  intros Hf. destruct (feSquare_ok f Hf) as (h0 & h1 & h2 & h3 & h4 & h5 & h6 & h7 & h8 & h9 & E & Hh & Ev).
  unfold FeSquare. rewrite E. cbn beta iota. edestruct FeCombine_ok as [Ec B]; [|split; [rewrite Ec|exact B]].
  - eapply Forall_impl; [exact Hh|]. simpl. lia.
  - rewrite Ev. unfold fe. rewrite <- of_Z_mul, of_Z_divide. exists (- product_quotient f f). generalize (product_quotient f f), (fe_eval f), P25519. intros. ring.
Qed.

Lemma FeSquare2_ok f : bounded loose f -> fe (FeSquare2 f) = (2 * (fe f * fe f))%fp /\ bounded tight (FeSquare2 f).
Proof.
  intros Hf. destruct (feSquare_ok f Hf) as (h0 & h1 & h2 & h3 & h4 & h5 & h6 & h7 & h8 & h9 & E & Hh & Ev).
  unfold FeSquare2. rewrite E. cbn beta iota. rewrite !Forall_cons in Hh. rewrite !int64_id by (unfold_int; lia).
  edestruct FeCombine_ok as [Ec B]; [|split; [rewrite Ec|exact B]].
  - repeat (apply Forall_cons_2; [lia|]). apply Forall_nil_2.
  - unfold fe. rewrite <- !of_Z_mul, of_Z_divide. exists (- 2 * product_quotient f f). revert Ev. generalize (product_quotient f f), (fe_eval f), P25519. intros. lia.
Qed.

(** ** Powers *)

Section Powers.
Context (z : FieldElement).

(** [t] is a power of [z]. *)
Definition is_power (e : Z) (t : FieldElement) : Prop := 0 <= e /\ fe t = (fe z ^ e)%fp /\ bounded loose t.

Lemma tight_loose f : bounded tight f -> bounded loose f.
Proof. apply bounded_mono. unfold tight, loose. lia. Qed.

Lemma FeMul_power a b f g : is_power a f -> is_power b g -> is_power (a + b) (FeMul f g).
Proof.
  intros (Ha & Ef & Hf) (Hb & Eg & Hg). destruct (FeMul_ok f g Hf Hg) as [E B]. split; [lia|]. split; [|by apply tight_loose].
  by rewrite E, Ef, Eg, fpow_add.
Qed.

Lemma FeSquare_power a f : is_power a f -> is_power (2 * a) (FeSquare f).
Proof.
  intros (Ha & Ef & Hf). destruct (FeSquare_ok f Hf) as [E B]. split; [lia|]. split; [|by apply tight_loose].
  rewrite E, Ef, <- fpow_add by done. f_equal. lia.
Qed.

Lemma squares_power n a f : is_power a f -> is_power (2 ^ Z.of_nat (n - 1) * a) (squares n f).
Proof.
  intros Hf. unfold squares. induction (n - 1)%nat as [|k IH]; simpl Nat.iter.
  - by replace (2 ^ Z.of_nat 0 * a) with a by (simpl; lia).
  - rewrite Nat2Z.inj_succ, Z.pow_succ_r, <- Z.mul_assoc by lia. by apply FeSquare_power.
Qed.

(** The last power of a chain is a product. *)
Definition power_result (e : Z) (t : FieldElement) : Prop := fe t = (fe z ^ e)%fp /\ bounded tight t.

Lemma FeMul_result a b f g : is_power a f -> is_power b g -> power_result (a + b) (FeMul f g).
Proof.
  intros (Ha & Ef & Hf) (Hb & Eg & Hg). destruct (FeMul_ok f g Hf Hg) as [E B]. split; [|done]. by rewrite E, Ef, Eg, fpow_add.
Qed.

Lemma power_let e a (v : FieldElement) (b : FieldElement -> FieldElement) :
  is_power a v -> (forall t, is_power a t -> power_result e (b t)) -> power_result e (b v).
Proof. auto. Qed.

Ltac power_step :=
  lazymatch goal with
  | |- is_power _ (FeMul _ _) => eapply FeMul_power; eassumption
  | |- is_power _ (squares _ _) => eapply squares_power; eassumption
  | |- is_power _ (FeSquare _) => eapply FeSquare_power; eassumption
  end.

(** An addition chain, one assignment after the other. *)
Ltac power_chain :=
  repeat lazymatch goal with
  | |- power_result _ (let t := ?v in @?b t) =>
      refine (power_let _ _ v b _ _); [power_step|let t := fresh "t" in let H := fresh "H" in intros t H; cbv beta]
  end; eapply FeMul_result; eassumption.

Lemma FeInvert_ok : bounded loose z -> fe (FeInvert z) = finv (fe z) /\ bounded tight (FeInvert z).
Proof.
  intros Hz. assert (is_power 1 z) as H1 by (split; [lia|]; by rewrite fpow_1).
  cut (exists e, e = P25519 - 2 /\ power_result e (FeInvert z)); [intros (e & -> & H); exact H|].
  eexists. split; [|lazy beta delta [FeInvert]; power_chain]. vm_compute. reflexivity.
Qed.

Lemma fePow22523_ok : bounded loose z -> fe (fePow22523 z) = (fe z ^ ((P25519 - 5) / 8))%fp /\ bounded tight (fePow22523 z).
Proof.
  intros Hz. assert (is_power 1 z) as H1 by (split; [lia|]; by rewrite fpow_1).
  cut (exists e, e = (P25519 - 5) / 8 /\ power_result e (fePow22523 z)); [intros (e & -> & H); exact H|].
  eexists. split; [|lazy beta delta [fePow22523]; power_chain]. vm_compute. reflexivity.
Qed.
End Powers.
