(* ===== verification/FieldBytes.v ===== *)
(** * Field elements as bytes

    [FeFromBytes] reads 255 bits and [FeToBytes] writes the number below the modulus that
    a field element stands for; on the way it reduces its argument in place. *)

From Stdlib Require Import ZArith Lia.
From S2P Require Import Prelude Limbs Fp FieldElement.

Local Open Scope Z_scope.

(** ** Bits *)

Lemma testbit_digit a w R n : 0 <= w -> 0 <= a < 2 ^ w -> 0 <= n -> Z.testbit (a + 2 ^ w * R) n = if n <? w then Z.testbit a n else Z.testbit R (n - w).
Proof.
  intros Hw Ha Hn. destruct (n <? w) eqn:E; zbool.
  - rewrite <- (Z.mod_pow2_bits_low (a + 2 ^ w * R) w n) by done. f_equal. rewrite Z.mul_comm, Z_mod_plus_full. by apply Z.mod_small.
  - rewrite <- (Z.mod_small a (2 ^ w)) by done.
    replace n with (n - w + w) at 1 by lia. rewrite <- Z.div_pow2_bits by lia. f_equal.
    rewrite Z.mul_comm, Z.div_add by (apply Z.pow_nonzero; lia). rewrite Z.mod_small, Z.div_small by done. lia.
Qed.

Lemma testbit_above a w n : 0 <= a < 2 ^ w -> w <= n -> Z.testbit a n = false.
Proof.
  intros Ha Hn. destruct (Z.neg_nonneg_cases w) as [Hw|Hw]; [rewrite Z.pow_neg_r in Ha by done; lia|].
  rewrite <- (Z.mod_small a (2 ^ w)) by done. apply Z.mod_pow2_bits_high. lia.
Qed.

Lemma lor_shiftl a b n : 0 <= n -> 0 <= a < 2 ^ n -> Z.lor a (Z.shiftl b n) = a + 2 ^ n * b.
Proof.
  intros Hn Ha. apply Z.bits_inj'. intros k Hk. rewrite Z.lor_spec, testbit_digit by done.
  destruct (k <? n) eqn:E; zbool.
  - by rewrite Z.shiftl_spec_low, orb_false_r by lia.
  - rewrite (testbit_above a n) by (done || lia). by rewrite Z.shiftl_spec.
Qed.

Lemma byte_at_range b i : 0 <= byte_at b i < 256.
Proof. apply Z_of_byte_range. Qed.

Lemma load3_val b i : load3 b i = byte_at b i + 2 ^ 8 * byte_at b (i + 1) + 2 ^ 16 * byte_at b (i + 2).
Proof.
  unfold load3. pose proof (byte_at_range b i). pose proof (byte_at_range b (i + 1)). pose proof (byte_at_range b (i + 2)).
  rewrite (lor_shiftl (byte_at b i)), lor_shiftl by lia. done.
Qed.

Lemma load4_val b i : load4 b i = byte_at b i + 2 ^ 8 * byte_at b (i + 1) + 2 ^ 16 * byte_at b (i + 2) + 2 ^ 24 * byte_at b (i + 3).
Proof.
  unfold load4. pose proof (byte_at_range b i). pose proof (byte_at_range b (i + 1)). pose proof (byte_at_range b (i + 2)).
  pose proof (byte_at_range b (i + 3)). rewrite (lor_shiftl (byte_at b i)) by lia.
  rewrite (lor_shiftl (byte_at b i + _)) by lia. rewrite lor_shiftl by lia. done.
Qed.

(** ** Reading *)

(** Thirty-two bytes. *)
Lemma bytes32 (b : bytes) : length b = 32%nat -> b = map (fun i => nth i b Byte.x00) (seq 0 32).
Proof. intros H. do 32 (destruct b as [|? b]; [done|]). by destruct b. Qed.

Lemma le_get_bytes32 b : length b = 32%nat ->
  le_get b = foldr (fun i v => byte_at b i + 2 ^ 8 * v) 0 (seq 0 32).
Proof. intros H. rewrite (bytes32 b H) at 1. unfold byte_at. done. Qed.

(** The value is that of the bytes without the highest bit. *)
Lemma FeFromBytes_ok b : length b = 32%nat -> fe (FeFromBytes b) = of_Z (le_get b mod 2 ^ 255) /\ bounded tight (FeFromBytes b).
Proof.
  intros H. assert (Hb : forall i, 0 <= byte_at b i < 256) by (intros; apply byte_at_range).
  rewrite (le_get_bytes32 b H). unfold FeFromBytes. rewrite !load3_val, !load4_val. cbn [Nat.add seq foldr].
  change 8388607 with (Z.ones 23). rewrite Z.land_ones by lia. rewrite !Z.shiftl_mul_pow2 by lia.
  set (h29 := byte_at b 29 + _ + _).
  assert (0 <= h29 < 2 ^ 24) as H29 by (pose proof (Hb 29%nat); pose proof (Hb 30%nat); pose proof (Hb 31%nat); unfold h29; lia).
  pose proof (Z.div_mod h29 (2 ^ 23) ltac:(lia)) as Hd. pose proof (Z.mod_pos_bound h29 (2 ^ 23) ltac:(lia)) as Hm.
  assert (Hall : Forall (fun i => 0 <= byte_at b i < 256) (seq 0 32)) by (apply Forall_forall; intros; apply Hb).
  cbn [seq] in Hall. rewrite !Forall_cons in Hall.
  edestruct FeCombine_ok as [E B]; [|split; [rewrite E|exact B]].
  - repeat (apply Forall_cons_2; [lia|]). apply Forall_nil_2.
  - f_equal. apply (Zmod_unique _ _ (h29 / 2 ^ 23)); unfold h29 in *; lia.
Qed.

(** ** Reduction *)

Lemma floor_carry32_ok n a b a' b' :
  n = 26 \/ n = 25 -> - 2 ^ 30 <= a <= 2 ^ 30 -> - 2 ^ 30 <= b <= 2 ^ 30 -> floor_carry32 n a b = (a', b') ->
  a' + 2 ^ n * b' = a + 2 ^ n * b /\ 0 <= a' < 2 ^ n.
Proof.
  intros Hn Ha Hb [= <- <-]. pose proof (shiftr_bounds a n ltac:(lia)) as H. rewrite Z.shiftl_mul_pow2 by lia.
  set (c := Z.shiftr _ _) in *. clearbody c.
  destruct Hn as [->| ->]; rewrite (int32_id (c * _)), !int32_id by (unfold_int; lia); lia.
Qed.

(** One step of the quotient. *)
Ltac quotient_step :=
  match goal with
  | |- context [Z.shiftr (int32 ?x) ?n] =>
      rewrite (int32_id x) by (unfold_int; lia);
      let H := fresh "Hq" in pose proof (shiftr_bounds x n ltac:(lia)) as H;
      let q := fresh "q" in set (q := Z.shiftr x n) in *; clearbody q
  end.

(** The quotient is that of the value by the modulus. *)
Lemma fe_quotient_ok h : bounded loose h -> 0 <= fe_eval h - fe_quotient h * P25519 < P25519.
Proof.
  unfold bounded, loose. intros Hh. destruct Hh as ((B0 & B1) & (B2 & B3) & (B4 & B5) & (B6 & B7) & (B8 & B9)).
  unfold fe_quotient. rewrite (int32_id (19 * _)) by (unfold_int; lia). change (Z.shiftl 1 24) with (2 ^ 24).
  do 11 quotient_step.
  set (H := fe_eval h). set (low := H - 2 ^ 230 * fe9 h).
  assert (- 2 * 2 ^ 230 <= low <= 2 * 2 ^ 230) as Hlow by (unfold low, H, fe_eval; lia).
  assert (2 ^ 255 * q9 <= H + q < 2 ^ 255 * q9 + 2 ^ 255) as Hfl by (unfold H, fe_eval; lia).
  rewrite P25519_eq. 
  pose proof (Z.div_mod H (2 ^ 255 - 19) ltac:(lia)) as Hd. pose proof (Z.mod_pos_bound H (2 ^ 255 - 19) ltac:(lia)) as Hr.
  set (Q := H / (2 ^ 255 - 19)) in *. set (r := H mod (2 ^ 255 - 19)) in *.
  assert (0 <= r + q - 19 * Q < 2 ^ 255) as Hrange.
  { clearbody Q r. unfold low in *. clear -Hd Hr Hq Hlow B9. clearbody H. lia. }
  assert (q9 = Q) as -> by lia. lia.
Qed.

(** Limbs that are digits. *)
Definition frozen (f : FieldElement) : Prop :=
  (0 <= fe0 f < 2 ^ 26 /\ 0 <= fe1 f < 2 ^ 25) /\ (0 <= fe2 f < 2 ^ 26 /\ 0 <= fe3 f < 2 ^ 25) /\
  (0 <= fe4 f < 2 ^ 26 /\ 0 <= fe5 f < 2 ^ 25) /\ (0 <= fe6 f < 2 ^ 26 /\ 0 <= fe7 f < 2 ^ 25) /\
  (0 <= fe8 f < 2 ^ 26 /\ 0 <= fe9 f < 2 ^ 25).

Ltac floor_step :=
  match goal with
  | |- context [floor_carry32 ?n ?a ?b] =>
      let E := fresh "E" in let x := fresh "h" in let y := fresh "h" in let H := fresh "Hc" in
      destruct (floor_carry32 n a b) as [x y] eqn:E; apply floor_carry32_ok in E; [|lia|lia|lia];
      destruct E as [E H]; cbn beta iota
  end.

Lemma fe_freeze_ok h : bounded loose h -> fe_eval (fe_freeze h) = fval (fe h) /\ frozen (fe_freeze h).
Proof.
  intros Hh. pose proof (fe_quotient_ok h Hh) as Hq. revert Hh. unfold bounded, loose.
  intros ((B0 & B1) & (B2 & B3) & (B4 & B5) & (B6 & B7) & (B8 & B9)).
  assert (fval (fe h) = fe_eval h - fe_quotient h * P25519) as ->.
  { unfold fe. rewrite fval_of_Z. symmetry. apply (Zmod_unique _ _ (fe_quotient h)); [done|]. ring. }
  unfold fe_freeze. set (q := fe_quotient h) in *. clearbody q. rewrite P25519_eq in *.
  assert (- 16 <= q <= 16) as Bq by (unfold fe_eval in Hq; lia).
  rewrite (int32_id (19 * q)), (int32_id (fe0 h + _)) by (unfold_int; lia). do 9 floor_step.
  match goal with |- context [Z.shiftr ?k 25] => pose proof (shiftr_bounds k 25 ltac:(lia)) as Hs; set (c := Z.shiftr k 25) in * end.
  rewrite Z.shiftl_mul_pow2 by lia. clearbody c. rewrite (int32_id (c * _)), int32_id by (unfold_int; lia).
  unfold frozen, fe_eval in *. cbn [fe0 fe1 fe2 fe3 fe4 fe5 fe6 fe7 fe8 fe9]. split; [|lia].
  assert (c = q) as -> by lia. lia.
Qed.

(** ** Writing *)

(** Digits of mixed widths, least significant first. *)
Fixpoint horner (l : list (Z * Z)) : Z :=
  match l with
  | [] => 0
  | (w, h) :: l => h + 2 ^ w * horner l
  end.

Fixpoint horner_bit (l : list (Z * Z)) (n : Z) : bool :=
  match l with
  | [] => false
  | (w, h) :: l => if n <? w then Z.testbit h n else horner_bit l (n - w)
  end.

Definition digit (d : Z * Z) : Prop := 0 <= d.1 /\ 0 <= d.2 < 2 ^ d.1.

Lemma horner_testbit l n : Forall digit l -> 0 <= n -> Z.testbit (horner l) n = horner_bit l n.
Proof.
  intros Hl. revert n. induction Hl as [|[w h] l [Hw Hh] Hl IH]; intros n Hn; cbn [horner horner_bit]; [apply Z.testbit_0_l|].
  simpl in *. rewrite testbit_digit by done. destruct (n <? w) eqn:E; [done|]. zbool. apply IH. lia.
Qed.

Lemma le_put_bytes n v : le_put n v = map (fun k => byte_of_Z (Z.shiftr v (8 * Z.of_nat k))) (seq 0 n).
Proof.
  revert v. induction n as [|n IH]; intros v; [done|]. cbn [seq map]. rewrite <- seq_shift, map_map.
  change (le_put (S n) v) with (byte_of_Z v :: le_put n (v / 256)). rewrite IH. f_equal.
  apply map_ext. intros k. f_equal. change 256 with (2 ^ 8). rewrite <- Z.shiftr_div_pow2, Z.shiftr_shiftr by lia. f_equal. lia.
Qed.

Lemma byte_of_bits x y : (forall j, 0 <= j < 8 -> Z.testbit x j = Z.testbit y j) -> byte_of_Z x = byte_of_Z y.
Proof.
  intros H. unfold byte_of_Z. do 3 f_equal. change 256 with (2 ^ 8). apply Z.bits_inj'. intros j Hj.
  destruct (Z.lt_ge_cases j 8); [rewrite !Z.mod_pow2_bits_low by done; by apply H|by rewrite !Z.mod_pow2_bits_high].
Qed.

(** Wrapping keeps the low bits. *)
Lemma int32_testbit x j : 0 <= j < 32 -> Z.testbit (int32 x) j = Z.testbit x j.
Proof.
  intros Hj. rewrite <- (Z.mod_pow2_bits_low (int32 x) 32 j), <- (Z.mod_pow2_bits_low x 32 j) by lia. f_equal.
  unfold int32. change (2 ^ 32) with 4294967296. rewrite Zminus_mod_idemp_l. f_equal. lia.
Qed.

Lemma int64_testbit x j : 0 <= j < 64 -> Z.testbit (int64 x) j = Z.testbit x j.
Proof.
  intros Hj. rewrite <- (Z.mod_pow2_bits_low (int64 x) 64 j), <- (Z.mod_pow2_bits_low x 64 j) by lia. f_equal.
  unfold int64. change (2 ^ 64) with 18446744073709551616. rewrite Zminus_mod_idemp_l. f_equal. lia.
Qed.

Lemma cons_eq (x y : byte) l l' : x = y -> l = l' -> x :: l = y :: l'.
Proof. by intros -> ->. Qed.

Lemma byte_cases j : 0 <= j < 8 -> j = 0 \/ j = 1 \/ j = 2 \/ j = 3 \/ j = 4 \/ j = 5 \/ j = 6 \/ j = 7.
Proof. lia. Qed.

(** A byte that is put together from one or two limbs. *)
Ltac packed_byte :=
  apply byte_of_bits; let j := fresh "j" in let Hj := fresh "Hj" in intros j Hj;
  rewrite (Z.shiftr_spec (horner _)), horner_testbit by (assumption || lia);
  rewrite ?Z.lor_spec, ?int32_testbit, ?int64_testbit, ?Z.shiftr_spec, ?Z.shiftl_spec by lia;
  destruct (byte_cases j Hj) as [->|[->|[->|[->|[->|[->|[->| ->]]]]]]];
  lazy [horner_bit Z.ltb Z.compare Pos.compare Pos.compare_cont Z.add Pos.add Z.sub Z.opp Z.pos_sub Pos.pred_double Z.mul Z.of_nat
        Pos.of_succ_nat Pos.succ Pos.mul Z.succ_double Z.pred_double Z.double];
  rewrite ?Z.testbit_neg_r by lia;
  repeat match goal with B : 0 <= ?h < 2 ^ ?w |- context [Z.testbit ?h ?n] => rewrite (testbit_above h w n B) by lia end;
  rewrite ?orb_false_r, ?orb_false_l; reflexivity.

Lemma fe_pack_ok h : frozen h -> fe_pack h = le_put 32 (fe_eval h).
Proof.
  intros ((B0 & B1) & (B2 & B3) & (B4 & B5) & (B6 & B7) & (B8 & B9)). destruct h as [h0 h1 h2 h3 h4 h5 h6 h7 h8 h9].
  cbn [fe0 fe1 fe2 fe3 fe4 fe5 fe6 fe7 fe8 fe9] in *.
  replace (fe_eval _) with (horner [(26, h0); (25, h1); (26, h2); (25, h3); (26, h4); (25, h5); (26, h6); (25, h7); (26, h8); (25, h9)])
    by (unfold fe_eval; cbn [horner fe0 fe1 fe2 fe3 fe4 fe5 fe6 fe7 fe8 fe9]; ring).
  rewrite le_put_bytes. set (l := [(26, h0); _; _; _; _; _; _; _; _; _]).
  assert (Forall digit l) as Hl by (repeat (apply Forall_cons_2; [split; simpl; lia|]); apply Forall_nil_2).
  unfold fe_pack. cbn [seq map].
  repeat (apply cons_eq; [packed_byte|]). reflexivity.
Qed.

(** ** What the functions on bytes compute *)

Definition frozen_bound : Z := 33554432.

(** The bytes of an element of the field. *)
Definition fp_bytes (x : Fp) : bytes := le_put 32 (fval x).

Lemma length_fp_bytes x : length (fp_bytes x) = 32%nat.
Proof. apply length_le_put. Qed.

Lemma fp_bytes_val x : le_get (fp_bytes x) = fval x.
Proof.
  unfold fp_bytes. rewrite le_get_put. apply Z.mod_small. pose proof (fval_bounds x). change (256 ^ Z.of_nat 32) with (2 ^ 256).
  rewrite P25519_eq in *. lia.
Qed.

Lemma fp_bytes_inj x y : fp_bytes x = fp_bytes y -> x = y.
Proof. intros E. apply fval_inj. by rewrite <- (fp_bytes_val x), E, fp_bytes_val. Qed.

Lemma FeToBytes_ok h :
  bounded loose h -> exists h', FeToBytes h = (fp_bytes (fe h), h') /\ fe h' = fe h /\ bounded frozen_bound h'.
Proof.
  intros Hh. destruct (fe_freeze_ok h Hh) as [E Hf]. exists (fe_freeze h). unfold FeToBytes, fp_bytes. rewrite fe_pack_ok, E by done.
  split; [done|]. split; [unfold fe at 1; by rewrite E, of_Z_fval|]. unfold frozen, bounded, frozen_bound in *. lia.
Qed.

(** The sign of an element is its lowest bit. *)
Definition fp_sign (x : Fp) : Z := fval x mod 2.

Lemma byte_at_le_put n v i : (i < n)%nat -> byte_at (le_put n v) i = (v / 2 ^ (8 * Z.of_nat i)) mod 256.
Proof.
  intros Hi. unfold byte_at. rewrite le_put_bytes. rewrite (nth_indep _ _ (byte_of_Z (Z.shiftr v (8 * Z.of_nat 0)))) by (by rewrite length_map, length_seq).
  rewrite (map_nth (fun k => byte_of_Z (Z.shiftr v (8 * Z.of_nat k)))), seq_nth, Z_of_byte_of_Z, Z.shiftr_div_pow2 by lia. done.
Qed.

Lemma FeIsNegative_ok h :
  bounded loose h -> exists h', FeIsNegative h = (fp_sign (fe h), h') /\ fe h' = fe h /\ bounded frozen_bound h'.
Proof.
  intros Hh. destruct (FeToBytes_ok h Hh) as (h' & E & Eh & B). exists h'. unfold FeIsNegative. rewrite E.
  split; [|done]. f_equal. unfold fp_bytes, fp_sign. rewrite byte_at_le_put by lia. change (8 * Z.of_nat 0) with 0.
  rewrite Z.div_1_r. change 1 with (Z.ones 1) at 1. rewrite Z.land_ones by lia. change (2 ^ 1) with 2.
  rewrite <- Znumtheory.Zmod_div_mod; [done|lia|lia|by exists 128].
Qed.

Lemma foldl_lor_zero l x : 0 <= x -> foldl (fun x b => Z.lor x (Z_of_byte b)) x l = 0 <-> x = 0 /\ Forall (fun b => Z_of_byte b = 0) l.
Proof.
  revert x. induction l as [|b l IH]; intros x Hx; simpl.
  - split; [done|by intros []].
  - pose proof (Z_of_byte_range b). rewrite IH by (apply Z.lor_nonneg; lia). rewrite Z.lor_eq_0_iff, Forall_cons. tauto.
Qed.

Lemma foldl_lor_range l x : 0 <= x < 256 -> 0 <= foldl (fun x b => Z.lor x (Z_of_byte b)) x l < 256.
Proof.
  revert x. induction l as [|b l IH]; intros x Hx; simpl; [done|]. apply IH. pose proof (Z_of_byte_range b).
  split; [apply Z.lor_nonneg; lia|]. change 256 with (2 ^ 8).
  destruct (decide (Z.lor x (Z_of_byte b) = 0)) as [->|]; [lia|]. apply Z.log2_lt_pow2; [assert (0 <= Z.lor x (Z_of_byte b)) by (apply Z.lor_nonneg; lia); lia|].
  rewrite Z.log2_lor by lia. apply Z.max_lub_lt; (destruct (decide (x = 0)) as [->|]; [done|] || idtac);
    (destruct (decide (Z_of_byte b = 0)) as [->|]; [done|] || idtac); try (apply Z.log2_lt_pow2; lia).
Qed.

(** Every bit of a byte is folded into the lowest. *)
Lemma fold_bits x : 0 <= x < 256 ->
  Z.land (let x := Z.lor x (Z.shiftr x 4) in let x := Z.lor x (Z.shiftr x 2) in Z.lor x (Z.shiftr x 1)) 1 = if x =? 0 then 0 else 1.
Proof.
  intros Hx. assert (Forall (fun x => Z.land (let x := Z.lor x (Z.shiftr x 4) in let x := Z.lor x (Z.shiftr x 2) in Z.lor x (Z.shiftr x 1)) 1
    = if x =? 0 then 0 else 1) (seqZ 0 256)) as H by (apply (bool_decide_unpack _); vm_compute; exact I).
  rewrite Forall_forall in H. apply H. apply elem_of_seqZ. lia.
Qed.

Lemma zero_bytes l : Forall (fun b => Z_of_byte b = 0) l -> l = replicate (length l) Byte.x00.
Proof.
  induction 1 as [|b l Hb Hl IH]; [done|]. cbn [length replicate]. rewrite <- IH. f_equal. by apply (inj Z_of_byte).
Qed.

Lemma FeIsNonZero_ok h :
  bounded loose h -> exists h', FeIsNonZero h = (if decide (fe h = 0%fp) then 0 else 1, h') /\ fe h' = fe h /\ bounded frozen_bound h'.
Proof.
  intros Hh. destruct (FeToBytes_ok h Hh) as (h' & E & Eh & B). exists h'. unfold FeIsNonZero. rewrite E.
  split; [|done]. f_equal. rewrite fold_bits by (apply foldl_lor_range; lia).
  pose proof (foldl_lor_zero (fp_bytes (fe h)) 0 ltac:(lia)) as Hz.
  assert (Forall (fun b => Z_of_byte b = 0) (fp_bytes (fe h)) <-> fe h = 0%fp) as Hb.
  { split.
    - intros Hall. apply fp_bytes_inj. transitivity (replicate 32 Byte.x00); [|reflexivity].
      rewrite <- (length_fp_bytes (fe h)). by apply zero_bytes.
    - intros ->. repeat constructor. }
  destruct (decide (fe h = 0%fp)) as [E0|E0].
  - rewrite (proj2 Hz); [done|]. split; [done|]. by apply Hb.
  - destruct (_ =? 0) eqn:Ez; [|done]. exfalso. zbool. apply E0, Hb. by apply Hz in Ez as [_ ?].
Qed.

(** From here on the operations are known by their lemmas. *)
#[global] Opaque FeAdd FeSub FeNeg FeMul FeSquare FeSquare2 FeInvert fePow22523 FeToBytes FeIsNegative FeIsNonZero FeFromBytes FeCMove.
