(* ===== verification/Edwards.v ===== *)
(** * The group of the curve

    Points of the twisted Edwards curve [y^2 - x^2 = 1 + d x^2 y^2] over [Fp], with the
    addition of the curve.  The denominators of the addition are never zero, because [d]
    is not a square and [-1] is one, so that the law is total and makes the points a
    commutative group.  The files that follow prove that the code of
    [crypto/ed25519/internal/edwards25519] computes in this group. *)

From Stdlib Require Import ZArith Lia Ring Field Eqdep_dec.
From S2P Require Import Prelude Limbs Fp.

Local Open Scope fp_scope.

(** ** The parameters of the curve *)

Definition D25519 : Z := 37095705934669439343138083508754565189542113879843219016388785533085940283555.
Definition I25519 : Z := 19681161376707505956807079304988542015446066515923890162744021073123829784752.

Definition ed_d : Fp := of_Z D25519.
Definition sqrt_m1 : Fp := of_Z I25519.

(** [d] is [-121665 / 121666]. *)
Lemma ed_d_ratio : of_Z 121666 * ed_d = of_Z (-121665).
Proof. unfold ed_d. rewrite <- of_Z_mul, of_Z_eq. by vm_compute. Qed.

Lemma sqrt_m1_square : sqrt_m1 * sqrt_m1 = - (1).
Proof. unfold sqrt_m1. rewrite <- of_Z_mul, <- of_Z_opp, of_Z_eq. by vm_compute. Qed.

Lemma ed_d_nonzero : ed_d <> 0.
Proof. unfold ed_d. rewrite of_Z_eq. by vm_compute. Qed.

Lemma ed_d_pow : ed_d ^ ((P25519 - 1) / 2) = of_Z (-1).
Proof. apply pow_is_ok. vm_compute. reflexivity. Qed.

Lemma ed_d_nonsquare s : ed_d <> s * s.
Proof.
  intros E. pose proof (euler_square ed_d s E ed_d_nonzero) as H. rewrite ed_d_pow in H.
  rewrite of_Z_eq in H. by vm_compute in H.
Qed.

Lemma ed_d_not_ratio a b : ed_d * (a * a) = b * b -> a = 0.
Proof.
  intros E. destruct (decide (a = 0)) as [|Ha]; [done|]. exfalso. apply (ed_d_nonsquare (b / a)).
  apply (fmul_cancel_l (a * a)); [by apply fmul_nonzero|]. transitivity (b * b); [rewrite <- E; ring|]. field. done.
Qed.

(** ** Points *)

Definition on_curve (x y : Fp) : Prop := y * y - x * x = 1 + ed_d * x * x * y * y.

Record point := mkPoint { px : Fp; py : Fp; p_on_curve : on_curve px py }.

Lemma point_eq P Q : px P = px Q -> py P = py Q -> P = Q.
Proof. destruct P as [x y H], Q as [x' y' H']; simpl. intros -> ->. f_equal. apply UIP_dec. solve_decision. Qed.

#[export] Instance point_eq_dec : EqDecision point.
Proof.
  intros P Q. destruct (decide (px P = px Q /\ py P = py Q)) as [[E1 E2]|E].
  - left. by apply point_eq.
  - right. intros ->. by apply E.
Defined.

(** ** The denominators *)

Section Complete.
Context (x1 y1 x2 y2 : Fp) (H1 : on_curve x1 y1) (H2 : on_curve x2 y2).

Let e := ed_d * x1 * x2 * y1 * y2.

Lemma denominator_square s (Hs : s * s = 1) :
  e * e = 1 ->
  ed_d * ((x1 * y1 * (sqrt_m1 * x2 + s * y2)) * (x1 * y1 * (sqrt_m1 * x2 + s * y2))) =
  (sqrt_m1 * x1 + s * e * y1) * (sqrt_m1 * x1 + s * e * y1).
Proof.
  unfold on_curve in *. intros He. pose proof sqrt_m1_square as Hi.
  transitivity (ed_d * x1 * x1 * y1 * y1 * (y2 * y2 - x2 * x2) + 2 * sqrt_m1 * s * x1 * y1 * e).
  { unfold e. ring [Hs Hi]. }
  rewrite H2. transitivity (ed_d * x1 * x1 * y1 * y1 + e * e + 2 * sqrt_m1 * s * x1 * y1 * e); [unfold e; ring|].
  rewrite He. transitivity (y1 * y1 - x1 * x1 + 2 * sqrt_m1 * s * x1 * y1 * e); [rewrite H1; ring|].
  clearbody e. ring [Hs Hi He].
Qed.

Lemma denominator_not_one : e * e <> 1.
Proof.
  intros He. assert (x1 * y1 <> 0) as Hxy.
  { intros E. apply fp_one_neq_zero. rewrite <- He. unfold e. transitivity (ed_d * x2 * y2 * (x1 * y1) * e); [unfold e; ring|]. rewrite E. ring. }
  assert (forall s, s * s = 1 -> sqrt_m1 * x2 + s * y2 = 0) as H.
  { intros s Hs. pose proof (ed_d_not_ratio _ _ (denominator_square s Hs He)) as E. destruct (fmul_zero _ _ E) as [E'|E']; [contradiction|exact E']. }
  pose proof (H 1 ltac:(ring)) as Ha. pose proof (H (- (1)) ltac:(ring)) as Hb.
  assert (y2 = 0) as Ey.
  { apply (fmul_cancel_l 2); [apply fp_two_neq_zero|]. transitivity (sqrt_m1 * x2 + 1 * y2 - (sqrt_m1 * x2 + - (1) * y2)); [ring|].
    rewrite Ha, Hb. ring. }
  apply fp_one_neq_zero. rewrite <- He. unfold e. rewrite Ey. ring.
Qed.

Lemma denominator_plus : 1 + ed_d * x1 * x2 * y1 * y2 <> 0.
Proof.
  fold e. intros E. apply denominator_not_one. transitivity ((1 + e) * (e - 1) + 1); [ring|]. rewrite E. ring.
Qed.

Lemma denominator_minus : 1 - ed_d * x1 * x2 * y1 * y2 <> 0.
Proof.
  fold e. intros E. apply denominator_not_one. transitivity (1 - (1 - e) * (1 + e)); [ring|]. rewrite E. ring.
Qed.
End Complete.

(** ** The group *)

Definition add_x (x1 y1 x2 y2 : Fp) : Fp := (x1 * y2 + y1 * x2) / (1 + ed_d * x1 * x2 * y1 * y2).
Definition add_y (x1 y1 x2 y2 : Fp) : Fp := (y1 * y2 + x1 * x2) / (1 - ed_d * x1 * x2 * y1 * y2).

(** One over [d], for which the equation of the curve is a rewriting rule. *)
Definition ed_c : Fp := finv ed_d.

Lemma ed_c_d : ed_c * ed_d = 1.
Proof. apply finv_l, ed_d_nonzero. Qed.

Lemma on_curve_rule x y : on_curve x y -> x * x * y * y = ed_c * (y * y - x * x - 1).
Proof. unfold on_curve. intros ->. pose proof ed_c_d as Hc. ring [Hc]. Qed.

Lemma on_curve_cleared x y X Y U V :
  U <> 0 -> V <> 0 -> x * U = X -> y * V = Y ->
  Y * Y * (U * U) - X * X * (V * V) = U * U * (V * V) + ed_d * X * X * Y * Y -> on_curve x y.
Proof.
  intros HU HV <- <- H. unfold on_curve. apply (fmul_cancel_l (U * U * (V * V))); [by repeat apply fmul_nonzero|].
  transitivity (y * V * (y * V) * (U * U) - x * U * (x * U) * (V * V)); [ring|]. rewrite H. ring.
Qed.

Lemma fdiv_mul a b : b <> 0 -> a / b * b = a.
Proof. intros Hb. field. done. Qed.

Lemma fmul_comm_div a b : b <> 0 -> b * (a / b) = a.
Proof. intros Hb. field. done. Qed.

Lemma add_on_curve x1 y1 x2 y2 : on_curve x1 y1 -> on_curve x2 y2 -> on_curve (add_x x1 y1 x2 y2) (add_y x1 y1 x2 y2).
Proof.
  intros H1 H2. pose proof (denominator_plus _ _ _ _ H1 H2) as Hp. pose proof (denominator_minus _ _ _ _ H1 H2) as Hm.
  eapply on_curve_cleared; [exact Hp|exact Hm|by apply fdiv_mul|by apply fdiv_mul|].
  apply on_curve_rule in H1, H2. pose proof ed_c_d as Hc. ring [H1 H2 Hc].
Qed.

Definition padd (P Q : point) : point :=
  mkPoint (add_x (px P) (py P) (px Q) (py Q)) (add_y (px P) (py P) (px Q) (py Q))
    (add_on_curve _ _ _ _ (p_on_curve P) (p_on_curve Q)).

Lemma zero_on_curve : on_curve 0 1.
Proof. unfold on_curve. ring. Qed.

Definition pzero : point := mkPoint 0 1 zero_on_curve.

Lemma neg_on_curve x y : on_curve x y -> on_curve (- x) y.
Proof. unfold on_curve. intros H. transitivity (y * y - x * x); [ring|]. rewrite H. ring. Qed.

Definition pneg (P : point) : point := mkPoint (- px P) (py P) (neg_on_curve _ _ (p_on_curve P)).

Lemma padd_comm P Q : padd P Q = padd Q P.
Proof.
  apply point_eq; simpl; unfold add_x, add_y; f_equal; [ring|f_equal; ring|ring|f_equal; ring].
Qed.

Lemma padd_zero_l P : padd pzero P = P.
Proof.
  apply point_eq; simpl; unfold add_x, add_y; [transitivity (px P / 1)|transitivity (py P / 1)];
    try (f_equal; ring); field; exact fp_one_neq_zero.
Qed.

Lemma padd_zero_r P : padd P pzero = P.
Proof. rewrite padd_comm. apply padd_zero_l. Qed.

Lemma padd_neg_r P : padd P (pneg P) = pzero.
Proof.
  pose proof (p_on_curve P) as H. pose proof (neg_on_curve _ _ H) as Hn.
  pose proof (denominator_plus _ _ _ _ H Hn) as Hp. pose proof (denominator_minus _ _ _ _ H Hn) as Hm.
  apply point_eq; simpl; unfold add_x, add_y.
  - apply (fmul_cancel_l (1 + ed_d * px P * - px P * py P * py P)); [done|]. rewrite (fmul_comm_div _ _ Hp). ring.
  - apply (fmul_cancel_l (1 - ed_d * px P * - px P * py P * py P)); [done|]. rewrite (fmul_comm_div _ _ Hm).
    unfold on_curve in H. transitivity (py P * py P - px P * px P); [ring|]. rewrite H. ring.
Qed.

(** Two fractions, in terms of multiples of their numerators and denominators. *)
Lemma ratio_eq n1 e1 k1 n2 e2 k2 :
  e1 <> 0 -> k1 <> 0 -> e2 <> 0 -> k2 <> 0 -> n1 * k1 * (e2 * k2) = n2 * k2 * (e1 * k1) -> n1 / e1 = n2 / e2.
Proof.
  intros He1 Hk1 He2 Hk2 E. apply (fmul_cancel_l (k1 * k2 * (e1 * e2))); [by repeat apply fmul_nonzero|].
  transitivity (n1 * k1 * (e2 * k2)); [field; done|]. rewrite E. field. done.
Qed.

Section Associative.
Context (x1 y1 x2 y2 x3 y3 : Fp) (H1 : on_curve x1 y1) (H2 : on_curve x2 y2) (H3 : on_curve x3 y3).

Let U12 := 1 + ed_d * x1 * x2 * y1 * y2.
Let V12 := 1 - ed_d * x1 * x2 * y1 * y2.
Let U23 := 1 + ed_d * x2 * x3 * y2 * y3.
Let V23 := 1 - ed_d * x2 * x3 * y2 * y3.
Let x12 := add_x x1 y1 x2 y2.
Let y12 := add_y x1 y1 x2 y2.
Let x23 := add_x x2 y2 x3 y3.
Let y23 := add_y x2 y2 x3 y3.

Lemma x12_U : x12 * U12 = x1 * y2 + y1 * x2.
Proof. apply fdiv_mul, denominator_plus; done. Qed.
Lemma y12_V : y12 * V12 = y1 * y2 + x1 * x2.
Proof. apply fdiv_mul, denominator_minus; done. Qed.
Lemma x23_U : x23 * U23 = x2 * y3 + y2 * x3.
Proof. apply fdiv_mul, denominator_plus; done. Qed.
Lemma y23_V : y23 * V23 = y2 * y3 + x2 * x3.
Proof. apply fdiv_mul, denominator_minus; done. Qed.

Lemma add_assoc_x : add_x x12 y12 x3 y3 = add_x x1 y1 x23 y23.
Proof.
  unfold add_x at 1 2. apply (ratio_eq _ _ (U12 * V12) _ _ (U23 * V23));
    [by apply denominator_plus; [apply add_on_curve|]|apply fmul_nonzero; [by apply denominator_plus|by apply denominator_minus]
    |by apply denominator_plus; [|apply add_on_curve]|apply fmul_nonzero; [by apply denominator_plus|by apply denominator_minus]|].
  transitivity ((x12 * U12 * V12 * y3 + y12 * V12 * U12 * x3) * (U23 * V23 + ed_d * x1 * y1 * (x23 * U23) * (y23 * V23))); [ring|].
  transitivity ((x1 * (y23 * V23) * U23 + y1 * (x23 * U23) * V23) * (U12 * V12 + ed_d * (x12 * U12) * (y12 * V12) * x3 * y3)); [|ring].
  rewrite x12_U, y12_V, x23_U, y23_V. unfold U12, V12, U23, V23.
  apply on_curve_rule in H1, H2, H3. pose proof ed_c_d as Hc. ring [H1 H2 H3 Hc].
Qed.

Lemma add_assoc_y : add_y x12 y12 x3 y3 = add_y x1 y1 x23 y23.
Proof.
  unfold add_y at 1 2. apply (ratio_eq _ _ (U12 * V12) _ _ (U23 * V23));
    [by apply denominator_minus; [apply add_on_curve|]|apply fmul_nonzero; [by apply denominator_plus|by apply denominator_minus]
    |by apply denominator_minus; [|apply add_on_curve]|apply fmul_nonzero; [by apply denominator_plus|by apply denominator_minus]|].
  transitivity ((y12 * V12 * U12 * y3 + x12 * U12 * V12 * x3) * (U23 * V23 - ed_d * x1 * y1 * (x23 * U23) * (y23 * V23))); [ring|].
  transitivity ((y1 * (y23 * V23) * U23 + x1 * (x23 * U23) * V23) * (U12 * V12 - ed_d * (x12 * U12) * (y12 * V12) * x3 * y3)); [|ring].
  rewrite x12_U, y12_V, x23_U, y23_V. unfold U12, V12, U23, V23.
  apply on_curve_rule in H1, H2, H3. pose proof ed_c_d as Hc. ring [H1 H2 H3 Hc].
Qed.
End Associative.

Lemma padd_assoc P Q R : padd P (padd Q R) = padd (padd P Q) R.
Proof. symmetry. apply point_eq; simpl; [apply add_assoc_x|apply add_assoc_y]; apply p_on_curve. Qed.

(** ** Multiples of a point *)

Definition pmul (n : Z) (P : point) : point :=
  match n with
  | Z0 => pzero
  | Z.pos k => Pos.iter_op padd k P
  | Z.neg k => pneg (Pos.iter_op padd k P)
  end.

Lemma padd_cancel_l P Q R : padd P Q = padd P R -> Q = R.
Proof.
  intros E. apply (f_equal (padd (pneg P))) in E. rewrite !padd_assoc, (padd_comm (pneg P)), padd_neg_r, !padd_zero_l in E. done.
Qed.

Lemma pneg_unique P Q : padd P Q = pzero -> Q = pneg P.
Proof. intros E. apply (padd_cancel_l P). by rewrite E, padd_neg_r. Qed.

Lemma pneg_neg P : pneg (pneg P) = P.
Proof. symmetry. apply pneg_unique. rewrite padd_comm. apply padd_neg_r. Qed.

Lemma pneg_add P Q : pneg (padd P Q) = padd (pneg P) (pneg Q).
Proof.
  symmetry. apply pneg_unique. rewrite (padd_comm (pneg P)), padd_assoc, <- (padd_assoc P), padd_neg_r, padd_zero_r. apply padd_neg_r.
Qed.

Lemma pneg_zero : pneg pzero = pzero.
Proof. symmetry. apply pneg_unique, padd_zero_l. Qed.

Lemma pmul_succ n P : pmul (Z.succ n) P = padd P (pmul n P).
Proof.
  destruct n as [|k|k]; cbn [pmul].
  - by rewrite padd_zero_r.
  - rewrite <- Pos2Z.inj_succ. apply Pos.iter_op_succ, padd_assoc.
  - destruct (Pos.succ_pred_or k) as [->|<-]; [by rewrite padd_neg_r|]. set (j := Pos.pred k).
    replace (Z.succ (Z.neg (Pos.succ j))) with (Z.neg j) by lia. cbn [pmul].
    by rewrite (Pos.iter_op_succ _ padd padd_assoc), pneg_add, padd_assoc, padd_neg_r, padd_zero_l.
Qed.

Lemma pmul_add n m P : pmul (n + m) P = padd (pmul n P) (pmul m P).
Proof.
  revert n. apply Z.bi_induction; [by intros ? ? ->| |].
  - simpl. by rewrite padd_zero_l.
  - intros n. rewrite Z.add_succ_l, !pmul_succ, <- padd_assoc. split; [by intros ->|]. apply padd_cancel_l.
Qed.

Lemma pmul_1 P : pmul 1 P = P.
Proof. done. Qed.

Lemma pmul_neg n P : pmul (- n) P = pneg (pmul n P).
Proof. destruct n; simpl; [by rewrite pneg_zero|done|by rewrite pneg_neg]. Qed.

Lemma pmul_padd n P Q : pmul n (padd P Q) = padd (pmul n P) (pmul n Q).
Proof.
  revert n. apply Z.bi_induction; [by intros ? ? ->| |].
  - simpl. by rewrite padd_zero_l.
  - intros n. rewrite !pmul_succ.
    replace (padd (padd P (pmul n P)) (padd Q (pmul n Q))) with (padd (padd P Q) (padd (pmul n P) (pmul n Q))).
    + split; [by intros ->|]. apply padd_cancel_l.
    + rewrite <- !padd_assoc. f_equal. rewrite !padd_assoc. f_equal. apply padd_comm.
Qed.

Lemma pmul_zero n : pmul n pzero = pzero.
Proof. pose proof (pmul_padd n pzero pzero) as E. rewrite padd_zero_l in E. apply (padd_cancel_l (pmul n pzero)). by rewrite <- E, padd_zero_r. Qed.

Lemma pmul_mul n m P : pmul (n * m) P = pmul n (pmul m P).
Proof.
  revert n. apply Z.bi_induction; [by intros ? ? ->|done|].
  intros n. rewrite Z.mul_succ_l, pmul_succ, pmul_add, padd_comm. split; [by intros ->|]. apply padd_cancel_l.
Qed.

Lemma pmul_2 P : pmul 2 P = padd P P.
Proof. done. Qed.
