(* ===== verification/GroupElement.v ===== *)
(** * Points of the curve: [crypto/ed25519/internal/edwards25519/edwards25519.go]

    The four representations of a point that the code computes with, and the addition,
    doubling and encoding of points.  The receiver [r] that a Go function writes into is
    the result here.

    Then the proof that the code computes in the group of the curve.  [rep_extended p P]
    and its siblings say that the coordinates in the code stand for the point [P] of
    [Edwards], within bounds that exclude overflow.  Addition, doubling and the
    conversions preserve them: the formulas of the code are those of the group, also for
    equal, opposite and zero arguments. *)

From Stdlib Require Import ZArith Lia Ring Field.
From S2P Require Import Prelude FieldElement Limbs Fp FieldBytes Edwards.

Local Open Scope Z_scope.

(** ** Constants: [const.go] *)

Definition d : FieldElement :=
  FE (-10913610) 13857413 (-15372611) 6949391 114729 (-8787816) (-6275908) (-3247719) (-18696448) (-12055116).

Definition d2 : FieldElement :=
  FE (-21827239) (-5839606) (-30745221) 13898782 229458 15978800 (-12551817) (-6495438) 29715968 9444199.

Definition SqrtM1 : FieldElement :=
  FE (-32595792) (-7943725) 9377950 3500415 12389472 (-272473) (-25146209) (-2005654) 326686 11406482.

(** ** Representations *)

Record ProjectiveGroupElement := mkProjective { p_X : FieldElement; p_Y : FieldElement; p_Z : FieldElement }.

Record ExtendedGroupElement := mkExtended { e_X : FieldElement; e_Y : FieldElement; e_Z : FieldElement; e_T : FieldElement }.

Record CompletedGroupElement := mkCompleted { c_X : FieldElement; c_Y : FieldElement; c_Z : FieldElement; c_T : FieldElement }.

Record PreComputedGroupElement := mkPreComputed { pc_yPlusX : FieldElement; pc_yMinusX : FieldElement; pc_xy2d : FieldElement }.

Record CachedGroupElement := mkCached {
  ca_yPlusX : FieldElement;
  ca_yMinusX : FieldElement;
  ca_Z : FieldElement;
  ca_T2d : FieldElement;
}.

Definition Projective_Zero : ProjectiveGroupElement := mkProjective FeZero FeOne FeOne.
Definition Extended_Zero : ExtendedGroupElement := mkExtended FeZero FeOne FeOne FeZero.
Definition PreComputed_Zero : PreComputedGroupElement := mkPreComputed FeOne FeOne FeZero.

(** ** Conversions *)

Definition Extended_ToProjective (p : ExtendedGroupElement) : ProjectiveGroupElement := mkProjective (e_X p) (e_Y p) (e_Z p).

Definition Extended_ToCached (p : ExtendedGroupElement) : CachedGroupElement :=
  mkCached (FeAdd (e_Y p) (e_X p)) (FeSub (e_Y p) (e_X p)) (e_Z p) (FeMul (e_T p) d2).

Definition Completed_ToProjective (p : CompletedGroupElement) : ProjectiveGroupElement :=
  mkProjective (FeMul (c_X p) (c_T p)) (FeMul (c_Y p) (c_Z p)) (FeMul (c_Z p) (c_T p)).

Definition Completed_ToExtended (p : CompletedGroupElement) : ExtendedGroupElement :=
  mkExtended (FeMul (c_X p) (c_T p)) (FeMul (c_Y p) (c_Z p)) (FeMul (c_Z p) (c_T p)) (FeMul (c_X p) (c_Y p)).

(** ** Addition and doubling *)

Definition Projective_Double (p : ProjectiveGroupElement) : CompletedGroupElement :=
  let rX := FeSquare (p_X p) in
  let rZ := FeSquare (p_Y p) in
  let rT := FeSquare2 (p_Z p) in
  let rY := FeAdd (p_X p) (p_Y p) in
  let t0 := FeSquare rY in
  let rY := FeAdd rZ rX in
  let rZ := FeSub rZ rX in
  let rX := FeSub t0 rY in
  let rT := FeSub rT rZ in
  mkCompleted rX rY rZ rT.

Definition Extended_Double (p : ExtendedGroupElement) : CompletedGroupElement := Projective_Double (Extended_ToProjective p).

Definition geAdd (p : ExtendedGroupElement) (q : CachedGroupElement) : CompletedGroupElement :=
  let rX := FeAdd (e_Y p) (e_X p) in
  let rY := FeSub (e_Y p) (e_X p) in
  let rZ := FeMul rX (ca_yPlusX q) in
  let rY := FeMul rY (ca_yMinusX q) in
  let rT := FeMul (ca_T2d q) (e_T p) in
  let rX := FeMul (e_Z p) (ca_Z q) in
  let t0 := FeAdd rX rX in
  let rX := FeSub rZ rY in
  let rY := FeAdd rZ rY in
  let rZ := FeAdd t0 rT in
  let rT := FeSub t0 rT in
  mkCompleted rX rY rZ rT.

Definition geSub (p : ExtendedGroupElement) (q : CachedGroupElement) : CompletedGroupElement :=
  let rX := FeAdd (e_Y p) (e_X p) in
  let rY := FeSub (e_Y p) (e_X p) in
  let rZ := FeMul rX (ca_yMinusX q) in
  let rY := FeMul rY (ca_yPlusX q) in
  let rT := FeMul (ca_T2d q) (e_T p) in
  let rX := FeMul (e_Z p) (ca_Z q) in
  let t0 := FeAdd rX rX in
  let rX := FeSub rZ rY in
  let rY := FeAdd rZ rY in
  let rZ := FeSub t0 rT in
  let rT := FeAdd t0 rT in
  mkCompleted rX rY rZ rT.

Definition geMixedAdd (p : ExtendedGroupElement) (q : PreComputedGroupElement) : CompletedGroupElement :=
  let rX := FeAdd (e_Y p) (e_X p) in
  let rY := FeSub (e_Y p) (e_X p) in
  let rZ := FeMul rX (pc_yPlusX q) in
  let rY := FeMul rY (pc_yMinusX q) in
  let rT := FeMul (pc_xy2d q) (e_T p) in
  let t0 := FeAdd (e_Z p) (e_Z p) in
  let rX := FeSub rZ rY in
  let rY := FeAdd rZ rY in
  let rZ := FeAdd t0 rT in
  let rT := FeSub t0 rT in
  mkCompleted rX rY rZ rT.

Definition geMixedSub (p : ExtendedGroupElement) (q : PreComputedGroupElement) : CompletedGroupElement :=
  let rX := FeAdd (e_Y p) (e_X p) in
  let rY := FeSub (e_Y p) (e_X p) in
  let rZ := FeMul rX (pc_yMinusX q) in
  let rY := FeMul rY (pc_yPlusX q) in
  let rT := FeMul (pc_xy2d q) (e_T p) in
  let t0 := FeAdd (e_Z p) (e_Z p) in
  let rX := FeSub rZ rY in
  let rY := FeAdd rZ rY in
  let rZ := FeSub t0 rT in
  let rT := FeAdd t0 rT in
  mkCompleted rX rY rZ rT.

(** ** Bytes *)

(** [s[31] ^= sign << 7] *)
Definition xor_sign (s : bytes) (sign : Z) : bytes :=
  <[31%nat := byte_of_Z (Z.lxor (byte_at s 31) (Z.shiftl sign 7))]> s.

(** The code that [ToBytes] of both representations has. *)
Definition coordinates_ToBytes (X Y Z : FieldElement) : bytes :=
  let recip := FeInvert Z in
  let x := FeMul X recip in
  let y := FeMul Y recip in
  let s := (FeToBytes y).1 in
  xor_sign s (FeIsNegative x).1.

Definition Projective_ToBytes (p : ProjectiveGroupElement) : bytes := coordinates_ToBytes (p_X p) (p_Y p) (p_Z p).
Definition Extended_ToBytes (p : ExtendedGroupElement) : bytes := coordinates_ToBytes (e_X p) (e_Y p) (e_Z p).

(** The result, and the receiver afterwards, which is changed also when the bytes are no
    point.  Functions that test an element reduce it in place. *)
Definition Extended_FromBytes (p : ExtendedGroupElement) (s : bytes) : bool * ExtendedGroupElement :=
  let Y := FeFromBytes s in
  let Z := FeOne in
  let u := FeSquare Y in
  let v := FeMul u d in
  let u := FeSub u Z in
  let v := FeAdd v Z in
  let v3 := FeSquare v in
  let v3 := FeMul v3 v in
  let X := FeSquare v3 in
  let X := FeMul X v in
  let X := FeMul X u in
  let X := fePow22523 X in
  let X := FeMul X v3 in
  let X := FeMul X u in
  let vxx := FeSquare X in
  let vxx := FeMul vxx v in
  let check := FeSub vxx u in
  let finish (X : FieldElement) : bool * ExtendedGroupElement :=
    let '(negative, X) := FeIsNegative X in
    let X := if negative =? Z.shiftr (byte_at s 31) 7 then X else FeNeg X in
    (true, mkExtended X Y Z (FeMul X Y)) in
  if (FeIsNonZero check).1 =? 1 then
    let check := FeAdd vxx u in
    if (FeIsNonZero check).1 =? 1 then (false, mkExtended X Y Z (e_T p))
    else
      let X := FeMul X SqrtM1 in
      let '(_, X) := FeToBytes X in
      finish X
  else finish X.

(** ** The code computes in the group *)

Local Open Scope Z_scope.

(** ** Limbs with a value *)

Definition val (b : Z) (x : Fp) (f : FieldElement) : Prop := bounded b f /\ fe f = x.

Lemma val_add a b x y f g : val a x f -> val b y g -> (a + b <=? 2 ^ 30 - 1) = true -> val (a + b) (x + y)%fp (FeAdd f g).
Proof. intros [Bf <-] [Bg <-] H. zbool. destruct (FeAdd_ok a b f g H Bf Bg). by split. Qed.

Lemma val_sub a b x y f g : val a x f -> val b y g -> (a + b <=? 2 ^ 30 - 1) = true -> val (a + b) (x - y)%fp (FeSub f g).
Proof. intros [Bf <-] [Bg <-] H. zbool. destruct (FeSub_ok a b f g H Bf Bg). by split. Qed.

Lemma val_neg a x f : val a x f -> (a <=? 2 ^ 30 - 1) = true -> val a (- x)%fp (FeNeg f).
Proof. intros [Bf <-] H. zbool. destruct (FeNeg_ok a f H Bf). by split. Qed.

Lemma val_le a b x f : val a x f -> (a <=? b) = true -> val b x f.
Proof. intros [Bf Ef] H. zbool. split; [by apply (bounded_mono a)|done]. Qed.

Lemma val_mul a b x y f g : val a x f -> val b y g -> (a <=? loose) && (b <=? loose) = true -> val tight (x * y)%fp (FeMul f g).
Proof.
  intros [Bf <-] [Bg <-] H. zbool. destruct (FeMul_ok f g); [by apply (bounded_mono a)|by apply (bounded_mono b)|by split].
Qed.

Lemma val_square a x f : val a x f -> (a <=? loose) = true -> val tight (x * x)%fp (FeSquare f).
Proof. intros [Bf <-] H. zbool. destruct (FeSquare_ok f); [by apply (bounded_mono a)|by split]. Qed.

Lemma val_square2 a x f : val a x f -> (a <=? loose) = true -> val tight (2 * (x * x))%fp (FeSquare2 f).
Proof. intros [Bf <-] H. zbool. destruct (FeSquare2_ok f); [by apply (bounded_mono a)|by split]. Qed.

(** The value of an expression of field operations. *)
Ltac val_auto :=
  lazymatch goal with
  | |- val _ _ (FeAdd _ _) => eapply val_add; [val_auto|val_auto|vm_compute; reflexivity]
  | |- val _ _ (FeSub _ _) => eapply val_sub; [val_auto|val_auto|vm_compute; reflexivity]
  | |- val _ _ (FeNeg _) => eapply val_neg; [val_auto|vm_compute; reflexivity]
  | |- val _ _ (FeMul _ _) => eapply val_mul; [val_auto|val_auto|vm_compute; reflexivity]
  | |- val _ _ (FeSquare _) => eapply val_square; [val_auto|vm_compute; reflexivity]
  | |- val _ _ (FeSquare2 _) => eapply val_square2; [val_auto|vm_compute; reflexivity]
  | |- _ => eassumption
  end.

Lemma val_eq a b x y f : val a x f -> x = y -> (a <=? b) = true -> val b y f.
Proof. intros H <-. by apply val_le. Qed.

Lemma val_const b x f : fe f = x -> forallb (fun z => (- (2 * b) <=? z) && (z <=? 2 * b)) [fe0 f; fe2 f; fe4 f; fe6 f; fe8 f] &&
  forallb (fun z => (- b <=? z) && (z <=? b)) [fe1 f; fe3 f; fe5 f; fe7 f; fe9 f] = true -> val b x f.
Proof.
  intros E H. split; [|done]. cbn [forallb] in H. rewrite !andb_true_iff, !Z.leb_le in H. unfold bounded. lia.
Qed.

Lemma val_d : val tight ed_d d.
Proof. apply val_const; [|by vm_compute]. unfold ed_d, fe. rewrite of_Z_eq. by vm_compute. Qed.

Lemma val_d2 : val tight (2 * ed_d)%fp d2.
Proof. apply val_const; [|by vm_compute]. unfold ed_d, fe. rewrite <- of_Z_mul, of_Z_eq. by vm_compute. Qed.

Lemma val_SqrtM1 : val tight sqrt_m1 SqrtM1.
Proof. apply val_const; [|by vm_compute]. unfold sqrt_m1, fe. rewrite of_Z_eq. by vm_compute. Qed.

Lemma val_one : val tight 1%fp FeOne.
Proof. by apply val_const. Qed.

Lemma val_zero : val tight 0%fp FeZero.
Proof. by apply val_const. Qed.

(** ** Representations of points *)

Local Open Scope fp_scope.

Definition rep_projective (p : ProjectiveGroupElement) (P : point) : Prop :=
  exists z, z <> 0 /\ val frozen_bound (px P * z) (p_X p) /\ val tight (py P * z) (p_Y p) /\ val tight z (p_Z p).

Definition rep_extended (p : ExtendedGroupElement) (P : point) : Prop :=
  exists z, z <> 0 /\ val frozen_bound (px P * z) (e_X p) /\ val tight (py P * z) (e_Y p) /\ val tight z (e_Z p) /\
    val tight (px P * py P * z) (e_T p).

Definition rep_completed (p : CompletedGroupElement) (P : point) : Prop :=
  exists z t, z <> 0 /\ t <> 0 /\ val (3 * tight) (px P * z) (c_X p) /\ val (3 * tight) (py P * t) (c_Y p) /\
    val (3 * tight) z (c_Z p) /\ val (3 * tight) t (c_T p).

Definition rep_precomputed (p : PreComputedGroupElement) (P : point) : Prop :=
  val tight (py P + px P) (pc_yPlusX p) /\ val tight (py P - px P) (pc_yMinusX p) /\ val tight (2 * ed_d * px P * py P) (pc_xy2d p).

Definition rep_cached (p : CachedGroupElement) (P : point) : Prop :=
  exists z, z <> 0 /\ val loose ((py P + px P) * z) (ca_yPlusX p) /\ val loose ((py P - px P) * z) (ca_yMinusX p) /\
    val tight z (ca_Z p) /\ val tight (2 * ed_d * px P * py P * z) (ca_T2d p).

Ltac val_is := eapply val_eq; [val_auto| |vm_compute; reflexivity].

(** ** Conversions *)

Lemma Projective_Zero_rep : rep_projective Projective_Zero pzero.
Proof.
  pose proof val_zero. pose proof val_one. exists 1. split; [exact fp_one_neq_zero|].
  repeat split; simpl; try (val_is; ring); by apply val_one.
Qed.

Lemma Extended_Zero_rep : rep_extended Extended_Zero pzero.
Proof.
  pose proof val_zero. pose proof val_one. exists 1. split; [exact fp_one_neq_zero|].
  split; [simpl; val_is; ring|]. split; [simpl; val_is; ring|]. split; [done|]. simpl; val_is; ring.
Qed.

Lemma PreComputed_Zero_rep : rep_precomputed PreComputed_Zero pzero.
Proof. pose proof val_zero. pose proof val_one. split; [|split]; simpl; val_is; ring. Qed.

Lemma ToProjective_rep p P : rep_extended p P -> rep_projective (Extended_ToProjective p) P.
Proof. intros (z & Hz & HX & HY & HZ & HT). by exists z. Qed.

Lemma ToCached_rep p P : rep_extended p P -> rep_cached (Extended_ToCached p) P.
Proof.
  intros (z & Hz & HX & HY & HZ & HT). pose proof val_d2. exists z. split; [done|].
  split; [simpl; val_is; ring|]. split; [simpl; val_is; ring|]. split; [done|]. simpl; val_is; ring.
Qed.

Lemma Completed_ToProjective_rep p P : rep_completed p P -> rep_projective (Completed_ToProjective p) P.
Proof.
  intros (z & t & Hz & Ht & HX & HY & HZ & HT). exists (z * t). split; [by apply fmul_nonzero|].
  split; [simpl; val_is; ring|]. split; [simpl; val_is; ring|]. simpl; val_is; ring.
Qed.

Lemma Completed_ToExtended_rep p P : rep_completed p P -> rep_extended (Completed_ToExtended p) P.
Proof.
  intros (z & t & Hz & Ht & HX & HY & HZ & HT). exists (z * t). split; [by apply fmul_nonzero|].
  split; [simpl; val_is; ring|]. split; [simpl; val_is; ring|]. split; simpl; val_is; ring.
Qed.

(** ** Addition *)

Section Add.
Context (P Q : point).

Definition den_plus : Fp := 1 + ed_d * px P * px Q * py P * py Q.
Definition den_minus : Fp := 1 - ed_d * px P * px Q * py P * py Q.

Lemma den_plus_nonzero : den_plus <> 0.
Proof. apply denominator_plus; apply p_on_curve. Qed.

Lemma den_minus_nonzero : den_minus <> 0.
Proof. apply denominator_minus; apply p_on_curve. Qed.

Lemma padd_px : px (padd P Q) * den_plus = px P * py Q + py P * px Q.
Proof. apply fdiv_mul, den_plus_nonzero. Qed.

Lemma padd_py : py (padd P Q) * den_minus = py P * py Q + px P * px Q.
Proof. apply fdiv_mul, den_minus_nonzero. Qed.

(** Completed coordinates that are a multiple of numerators and denominators of the sum. *)
Lemma completed_sum r k X Y Z T :
  k <> 0 -> val (3 * tight) X (c_X r) -> val (3 * tight) Y (c_Y r) -> val (3 * tight) Z (c_Z r) -> val (3 * tight) T (c_T r) ->
  X = k * (px P * py Q + py P * px Q) -> Y = k * (py P * py Q + px P * px Q) -> Z = k * den_plus -> T = k * den_minus ->
  rep_completed r (padd P Q).
Proof.
  intros Hk HX HY HZ HT -> -> -> ->. exists (k * den_plus), (k * den_minus).
  split; [apply fmul_nonzero; [done|apply den_plus_nonzero]|]. split; [apply fmul_nonzero; [done|apply den_minus_nonzero]|].
  split; [eapply val_eq; [exact HX|rewrite <- padd_px; ring|done]|].
  split; [eapply val_eq; [exact HY|rewrite <- padd_py; ring|done]|]. done.
Qed.
End Add.

Lemma double_nonzero z : z <> 0 -> 2 * z <> 0.
Proof. apply fmul_nonzero, fp_two_neq_zero. Qed.

Ltac val_3 := eapply val_le; [val_auto|vm_compute; reflexivity].

Lemma geAdd_rep p q P Q : rep_extended p P -> rep_cached q Q -> rep_completed (geAdd p q) (padd P Q).
Proof.
  intros (z1 & Hz1 & HX & HY & HZ & HT) (z2 & Hz2 & Hyp & Hym & HZ2 & HT2).
  apply (completed_sum P Q _ (2 * (z1 * z2))) with
    (X := (py P * z1 + px P * z1) * ((py Q + px Q) * z2) - (py P * z1 - px P * z1) * ((py Q - px Q) * z2))
    (Y := (py P * z1 + px P * z1) * ((py Q + px Q) * z2) + (py P * z1 - px P * z1) * ((py Q - px Q) * z2))
    (Z := z1 * z2 + z1 * z2 + 2 * ed_d * px Q * py Q * z2 * (px P * py P * z1))
    (T := z1 * z2 + z1 * z2 - 2 * ed_d * px Q * py Q * z2 * (px P * py P * z1));
    [by apply double_nonzero, fmul_nonzero|simpl; val_3..|ring|ring|unfold den_plus; ring|unfold den_minus; ring].
Qed.

Lemma geSub_rep p q P Q : rep_extended p P -> rep_cached q Q -> rep_completed (geSub p q) (padd P (pneg Q)).
Proof.
  intros (z1 & Hz1 & HX & HY & HZ & HT) (z2 & Hz2 & Hyp & Hym & HZ2 & HT2).
  apply (completed_sum P (pneg Q) _ (2 * (z1 * z2))) with
    (X := (py P * z1 + px P * z1) * ((py Q - px Q) * z2) - (py P * z1 - px P * z1) * ((py Q + px Q) * z2))
    (Y := (py P * z1 + px P * z1) * ((py Q - px Q) * z2) + (py P * z1 - px P * z1) * ((py Q + px Q) * z2))
    (Z := z1 * z2 + z1 * z2 - 2 * ed_d * px Q * py Q * z2 * (px P * py P * z1))
    (T := z1 * z2 + z1 * z2 + 2 * ed_d * px Q * py Q * z2 * (px P * py P * z1));
    [by apply double_nonzero, fmul_nonzero|simpl; val_3..|simpl; ring|simpl; ring|unfold den_plus; simpl; ring|unfold den_minus; simpl; ring].
Qed.

Lemma geMixedAdd_rep p q P Q : rep_extended p P -> rep_precomputed q Q -> rep_completed (geMixedAdd p q) (padd P Q).
Proof.
  intros (z1 & Hz1 & HX & HY & HZ & HT) (Hyp & Hym & HT2).
  apply (completed_sum P Q _ (2 * z1)) with
    (X := (py P * z1 + px P * z1) * (py Q + px Q) - (py P * z1 - px P * z1) * (py Q - px Q))
    (Y := (py P * z1 + px P * z1) * (py Q + px Q) + (py P * z1 - px P * z1) * (py Q - px Q))
    (Z := z1 + z1 + 2 * ed_d * px Q * py Q * (px P * py P * z1))
    (T := z1 + z1 - 2 * ed_d * px Q * py Q * (px P * py P * z1));
    [by apply double_nonzero|simpl; val_3..|ring|ring|unfold den_plus; ring|unfold den_minus; ring].
Qed.

Lemma geMixedSub_rep p q P Q : rep_extended p P -> rep_precomputed q Q -> rep_completed (geMixedSub p q) (padd P (pneg Q)).
Proof.
  intros (z1 & Hz1 & HX & HY & HZ & HT) (Hyp & Hym & HT2).
  apply (completed_sum P (pneg Q) _ (2 * z1)) with
    (X := (py P * z1 + px P * z1) * (py Q - px Q) - (py P * z1 - px P * z1) * (py Q + px Q))
    (Y := (py P * z1 + px P * z1) * (py Q - px Q) + (py P * z1 - px P * z1) * (py Q + px Q))
    (Z := z1 + z1 - 2 * ed_d * px Q * py Q * (px P * py P * z1))
    (T := z1 + z1 + 2 * ed_d * px Q * py Q * (px P * py P * z1));
    [by apply double_nonzero|simpl; val_3..|simpl; ring|simpl; ring|unfold den_plus; simpl; ring|unfold den_minus; simpl; ring].
Qed.

(** On the curve, [1 + d x^2 y^2] is [y^2 - x^2]. *)
Lemma Projective_Double_rep p P : rep_projective p P -> rep_completed (Projective_Double p) (padd P P).
Proof.
  intros (z & Hz & HX & HY & HZ). pose proof (p_on_curve P) as Hc. unfold on_curve in Hc.
  apply (completed_sum P P _ (z * z)) with
    (X := (px P * z + py P * z) * (px P * z + py P * z) - (py P * z * (py P * z) + px P * z * (px P * z)))
    (Y := py P * z * (py P * z) + px P * z * (px P * z))
    (Z := py P * z * (py P * z) - px P * z * (px P * z))
    (T := 2 * (z * z) - (py P * z * (py P * z) - px P * z * (px P * z)));
    [by apply fmul_nonzero|simpl; val_3..|ring|ring| |].
  - transitivity (z * z * (py P * py P - px P * px P)); [ring|]. rewrite Hc. unfold den_plus. ring.
  - transitivity (z * z * (2 - (py P * py P - px P * px P))); [ring|]. rewrite Hc. unfold den_minus. ring.
Qed.

Lemma Extended_Double_rep p P : rep_extended p P -> rep_completed (Extended_Double p) (padd P P).
Proof. intros H. by apply Projective_Double_rep, ToProjective_rep. Qed.
