(* ===== verification/GroupBytes.v ===== *)
(** * Points as bytes

    [encode P] is the 32-byte encoding of a point: the second coordinate, and the sign of
    the first in the highest bit.  [ToBytes] writes it.  [FromBytes] accepts bytes
    exactly when they decode to a point, and then represents it; besides the encodings
    of points it accepts a second coordinate that is not reduced and a sign for zero. *)

From Stdlib Require Import ZArith Lia Ring Field.
From S2P Require Import Prelude Limbs Fp FieldElement FieldBytes Edwards GroupElement.

Local Open Scope Z_scope.

Definition encode (P : point) : bytes := le_put 32 (fval (py P) + 2 ^ 255 * fp_sign (px P)).

Lemma fp_sign_range x : 0 <= fp_sign x <= 1.
Proof. unfold fp_sign. pose proof (Z.mod_pos_bound (fval x) 2 ltac:(lia)). lia. Qed.

(** ** Writing *)

Lemma fval_below x : 0 <= fval x < 2 ^ 255.
Proof. pose proof (fval_bounds x). rewrite P25519_eq in *. lia. Qed.

(** A bit above 248 bits is in the last of 32 bytes. *)
Lemma low_byte_same v s k : 0 <= v < 2 ^ 255 -> 0 <= k <= 240 -> byte_of_Z (Z.shiftr v k) = byte_of_Z (Z.shiftr (v + 2 ^ 255 * s) k).
Proof.
  intros Hv Hk. apply byte_of_bits. intros j Hj. rewrite !Z.shiftr_spec by lia. rewrite testbit_digit by lia.
  destruct (j + k <? 255) eqn:E; [done|]. zbool. lia.
Qed.

Lemma xor_sign_le_put v s : 0 <= v < 2 ^ 255 -> 0 <= s <= 1 -> xor_sign (le_put 32 v) s = le_put 32 (v + 2 ^ 255 * s).
Proof.
  intros Hv Hs. unfold xor_sign. rewrite byte_at_le_put by lia. rewrite !le_put_bytes. cbn [seq map]. 
  cbn [insert list_insert]. do 31 (apply cons_eq; [apply low_byte_same; lia|]). apply cons_eq; [|reflexivity].
  apply byte_of_bits. intros j Hj. change (8 * Z.of_nat 31) with 248. change 256 with (2 ^ 8).
  rewrite Z.lxor_spec, Z.mod_pow2_bits_low, Z.div_pow2_bits, Z.shiftr_spec, testbit_digit, Z.shiftl_spec by lia.
  destruct (j + 248 <? 255) eqn:E; zbool.
  - by rewrite (Z.testbit_neg_r s), xorb_false_r by lia.
  - rewrite (testbit_above v 255) by (done || lia). rewrite xorb_false_l. f_equal. lia.
Qed.

Lemma val_invert a x f : val a x f -> (a <=? loose) = true -> val tight (finv x) (FeInvert f).
Proof. intros [Bf <-] H. zbool. destruct (FeInvert_ok f); [by apply (bounded_mono a)|by split]. Qed.

Lemma val_pow22523 a x f : val a x f -> (a <=? loose) = true -> val tight (x ^ ((P25519 - 5) / 8))%fp (fePow22523 f).
Proof. intros [Bf <-] H. zbool. destruct (fePow22523_ok f); [by apply (bounded_mono a)|by split]. Qed.

Lemma val_loose a x f : val a x f -> (a <=? loose) = true -> bounded loose f.
Proof. intros [Bf _] H. zbool. by apply (bounded_mono a). Qed.

Lemma coordinates_ToBytes_encode X Y Z P z :
  z <> 0%fp -> val frozen_bound (px P * z)%fp X -> val tight (py P * z)%fp Y -> val tight z Z -> coordinates_ToBytes X Y Z = encode P.
Proof.
  intros Hz HX HY HZ. pose proof (val_invert _ _ _ HZ eq_refl) as HI. unfold coordinates_ToBytes.
  assert (val tight (px P) (FeMul X (FeInvert Z))) as Hx by (val_is; field; done).
  assert (val tight (py P) (FeMul Y (FeInvert Z))) as Hy by (clear Hx; val_is; field; done).
  destruct (FeToBytes_ok _ (val_loose _ _ _ Hy eq_refl)) as (y' & -> & _).
  destruct (FeIsNegative_ok _ (val_loose _ _ _ Hx eq_refl)) as (x' & -> & _). destruct Hx as [_ ->], Hy as [_ ->]. simpl.
  apply xor_sign_le_put; [apply fval_below|apply fp_sign_range].
Qed.

Lemma Projective_ToBytes_encode p P : rep_projective p P -> Projective_ToBytes p = encode P.
Proof. intros (z & Hz & HX & HY & HZ). exact (coordinates_ToBytes_encode _ _ _ P z Hz HX HY HZ). Qed.

Lemma Extended_ToBytes_encode p P : rep_extended p P -> Extended_ToBytes p = encode P.
Proof. intros (z & Hz & HX & HY & HZ & _). exact (coordinates_ToBytes_encode _ _ _ P z Hz HX HY HZ). Qed.

(** ** Decoding *)

(** The coordinate and the sign that bytes hold. *)
Definition decoded_y (s : bytes) : Fp := of_Z (le_get s mod 2 ^ 255).
Definition decoded_sign (s : bytes) : Z := le_get s / 2 ^ 255.

Definition decodes (s : bytes) (P : point) : Prop :=
  length s = 32%nat /\ py P = decoded_y s /\ (px P = 0%fp \/ fp_sign (px P) = decoded_sign s).

(** A number and its opposite have different signs. *)
Lemma fp_sign_opp x : x <> 0%fp -> fp_sign (- x)%fp = 1 - fp_sign x.
Proof.
  intros Hx. unfold fp_sign. rewrite <- (of_Z_fval x) at 1. rewrite <- of_Z_opp, fval_of_Z. pose proof (fval_bounds x) as Hb.
  assert (fval x <> 0) as H0 by (intros E; apply Hx, fval_inj; rewrite E; reflexivity).
  rewrite <- (Zmod_unique (- fval x) P25519 (-1) (P25519 - fval x)) by lia.
  assert (P25519 mod 2 = 1) as Hodd by reflexivity. rewrite Zminus_mod, Hodd.
  pose proof (Z.mod_pos_bound (fval x) 2 ltac:(lia)). assert (fval x mod 2 = 0 \/ fval x mod 2 = 1) as [-> | ->] by lia; done.
Qed.

Local Open Scope fp_scope.

Lemma on_curve_square x y : on_curve x y <-> (1 + ed_d * (y * y)) * (x * x) = y * y - 1.
Proof.
  unfold on_curve. split; intros H.
  - transitivity (x * x + (1 + ed_d * x * x * y * y) - 1); [ring|]. rewrite <- H. ring.
  - transitivity (1 + (y * y - 1) - x * x); [ring|]. rewrite <- H. ring.
Qed.

Lemma square_denominator y : 1 + ed_d * (y * y) <> 0.
Proof.
  intros E. assert (y = 0) as ->.
  - apply (ed_d_not_ratio y sqrt_m1). rewrite sqrt_m1_square. transitivity (1 + ed_d * (y * y) - 1); [ring|]. rewrite E. ring.
  - apply fp_one_neq_zero. rewrite <- E. ring.
Qed.

(** The point is determined by its second coordinate and its sign. *)
Lemma same_y P Q : py P = py Q -> px P = px Q \/ px P = - px Q.
Proof.
  intros E. apply fsquare_eq. apply (fmul_cancel_l (1 + ed_d * (py P * py P))); [apply square_denominator|].
  rewrite (proj1 (on_curve_square _ _) (p_on_curve P)). rewrite E. symmetry. exact (proj1 (on_curve_square _ _) (p_on_curve Q)).
Qed.

Lemma decodes_unique s P Q : decodes s P -> decodes s Q -> P = Q.
Proof.
  intros (_ & EP & SP) (_ & EQ & SQ). rewrite <- EQ in EP. apply point_eq; [|done].
  destruct (same_y P Q EP) as [E|E]; [done|]. destruct (decide (px Q = 0)) as [E0|E0]; [rewrite E, E0; ring|].
  exfalso. pose proof (fp_sign_opp _ E0) as Hs. rewrite <- E in Hs. destruct SQ as [?|SQ]; [done|].
  destruct SP as [SP|SP].
  - apply E0. transitivity (- px P); [rewrite E; ring|]. rewrite SP. ring.
  - pose proof (fp_sign_range (px Q)). lia.
Qed.

Lemma encode_val P : le_get (encode P) = (fval (py P) + 2 ^ 255 * fp_sign (px P))%Z.
Proof.
  unfold encode. rewrite le_get_put. apply Z.mod_small. pose proof (fval_below (py P)). pose proof (fp_sign_range (px P)).
  change (256 ^ Z.of_nat 32)%Z with (2 ^ 256)%Z. lia.
Qed.

Lemma encode_decodes P : decodes (encode P) P.
Proof.
  pose proof (fval_below (py P)). pose proof (fp_sign_range (px P)).
  split; [apply length_le_put|]. unfold decoded_y, decoded_sign. rewrite encode_val. split.
  - rewrite Z.mul_comm, Z_mod_plus_full, Z.mod_small, of_Z_fval by done. done.
  - right. rewrite Z.mul_comm, Z.div_add, Z.div_small by (done || lia). lia.
Qed.

Lemma encode_inj P Q : encode P = encode Q -> P = Q.
Proof. intros E. apply (decodes_unique (encode P)); [apply encode_decodes|rewrite E; apply encode_decodes]. Qed.

(** ** The square root *)

Section Root.
Context (u v : Fp) (Hv : v <> 0).

Let w := u * (v * v * v) * (v * v * v) * v.

(** [u v^3 (u v^7)^((p-5)/8)] *)
Definition root : Fp := w ^ ((P25519 - 5) / 8) * (v * v * v) * u.

Lemma root_square : root * root * v = u * w ^ ((P25519 - 1) / 4).
Proof.
  unfold root. replace ((P25519 - 1) / 4)%Z with ((P25519 - 5) / 8 + (P25519 - 5) / 8 + 1)%Z by reflexivity.
  rewrite !fpow_add, fpow_1 by (apply Z.leb_le; reflexivity). set (e := w ^ _). unfold w. ring.
Qed.

(** If [u / v] is a square, the root is one of [u / v] or of [- u / v]. *)
Lemma root_of_square x : v * (x * x) = u -> root * root * v = u \/ root * root * v = - u.
Proof.
  intros E. rewrite root_square. destruct (decide (u = 0)) as [->|Hu]; [left; ring|].
  assert (w <> 0) as Hw by (unfold w; repeat apply fmul_nonzero; done).
  assert (w ^ ((P25519 - 1) / 2) = 1) as H1.
  { apply (euler_square w (v * v * v * v * x)); [|done]. unfold w. rewrite <- E. ring. }
  replace ((P25519 - 1) / 2)%Z with ((P25519 - 1) / 4 + (P25519 - 1) / 4)%Z in H1 by reflexivity.
  rewrite fpow_add in H1 by (apply Z.leb_le; reflexivity). set (e := w ^ _) in *.
  destruct (fsquare_eq e 1) as [-> | ->]; [rewrite H1; ring|left; ring|right; ring].
Qed.
End Root.

(** ** Reading *)

Lemma val_from_bytes s : length s = 32%nat -> val tight (decoded_y s) (FeFromBytes s).
Proof. intros H. destruct (FeFromBytes_ok s H). by split. Qed.

Lemma val_is_negative a x f : val a x f -> (a <=? loose)%Z = true -> exists f', FeIsNegative f = (fp_sign x, f') /\ val frozen_bound x f'.
Proof.
  intros [Bf <-] H. destruct (FeIsNegative_ok f) as (f' & E & Ef & B); [zbool; by apply (bounded_mono a)|]. exists f'. split; [done|]. by split.
Qed.

Lemma val_is_nonzero a x f : val a x f -> (a <=? loose)%Z = true -> ((FeIsNonZero f).1 =? 1)%Z = if decide (x = 0) then false else true.
Proof.
  intros [Bf <-] H. destruct (FeIsNonZero_ok f) as (f' & -> & _); [zbool; by apply (bounded_mono a)|]. simpl. by destruct (decide _).
Qed.

Lemma val_to_bytes a x f : val a x f -> (a <=? loose)%Z = true -> exists f', FeToBytes f = (fp_bytes x, f') /\ val frozen_bound x f'.
Proof.
  intros [Bf <-] H. destruct (FeToBytes_ok f) as (f' & E & Ef & B); [zbool; by apply (bounded_mono a)|]. exists f'. split; [done|]. by split.
Qed.

Lemma last_byte s : length s = 32%nat -> Z.shiftr (byte_at s 31) 7 = decoded_sign s.
Proof.
  intros H. unfold decoded_sign. rewrite <- (le_put_get s) at 1. rewrite H, byte_at_le_put by lia.
  pose proof (le_get_bound s) as Hb. rewrite H in Hb. change (256 ^ Z.of_nat 32)%Z with (2 ^ 256)%Z in Hb.
  rewrite (Z.mod_small (_ / _)) by (split; [apply Z.div_pos; lia|apply Z.div_lt_upper_bound; lia]).
  rewrite Z.shiftr_div_pow2, Z.div_div by lia. done.
Qed.

Lemma decoded_sign_range s : length s = 32%nat -> (0 <= decoded_sign s <= 1)%Z.
Proof.
  intros H. unfold decoded_sign. pose proof (le_get_bound s) as Hb. rewrite H in Hb. change (256 ^ Z.of_nat 32)%Z with (2 ^ 256)%Z in Hb.
  split; [apply Z.div_pos; lia|]. assert (le_get s / 2 ^ 255 < 2)%Z by (apply Z.div_lt_upper_bound; lia). lia.
Qed.

(** The end of [FromBytes], with a first coordinate that is on the curve. *)
Lemma finish_decodes s b x X Y :
  length s = 32%nat -> val b x X -> (b <=? loose)%Z = true -> val tight (decoded_y s) Y -> on_curve x (decoded_y s) ->
  exists P p',
    (let '(negative, X) := FeIsNegative X in
     let X := if (negative =? Z.shiftr (byte_at s 31) 7)%Z then X else FeNeg X in
     (true, mkExtended X Y FeOne (FeMul X Y))) = (true, p') /\ decodes s P /\ rep_extended p' P.
Proof.
  intros Hs HX Hb HY Hc. destruct (val_is_negative b x X HX Hb) as (X' & -> & HX'). cbv zeta. rewrite last_byte by done.
  pose proof val_one as H1.
  assert (forall x' X'', on_curve x' (decoded_y s) -> x' = 0 \/ fp_sign x' = decoded_sign s -> val frozen_bound x' X'' ->
    exists P p', (true, mkExtended X'' Y FeOne (FeMul X'' Y)) = (true, p') /\ decodes s P /\ rep_extended p' P) as Hfin.
  { intros x' X'' Hc' Hsign HX''. exists (mkPoint x' (decoded_y s) Hc'). eexists. split; [reflexivity|]. split; [by repeat split|].
    exists 1. split; [exact fp_one_neq_zero|]. cbn [px py e_X e_Y e_Z e_T].
    split; [eapply val_eq; [exact HX''|ring|done]|]. split; [eapply val_eq; [exact HY|ring|done]|]. split; [done|]. val_is. ring. }
  destruct (fp_sign x =? decoded_sign s)%Z eqn:E; zbool.
  - by apply (Hfin x); [|right|].
  - apply (Hfin (- x)); [by apply neg_on_curve| |by apply val_neg].
    destruct (decide (x = 0)) as [->|Hx]; [left; ring|]. right. rewrite fp_sign_opp by done.
    pose proof (fp_sign_range x). pose proof (decoded_sign_range s Hs). lia.
Qed.

(** [FromBytes] decides whether the bytes decode to a point, and represents the point. *)
Lemma FromBytes_decides p s :
  length s = 32%nat ->
  match Extended_FromBytes p s with
  | (true, p') => exists P, decodes s P /\ rep_extended p' P
  | (false, _) => forall P, ~ decodes s P
  end.
Proof.
  intros Hs. unfold Extended_FromBytes.
  pose proof (val_from_bytes s Hs) as HY. set (Y := FeFromBytes s) in *. clearbody Y. set (y := decoded_y s) in *.
  pose proof val_d as Hd. pose proof val_one as H1.
  assert (val (2 * tight) (y * y - 1) (FeSub (FeSquare Y) FeOne)) as Hu by (val_is; reflexivity).
  assert (val (2 * tight) (1 + ed_d * (y * y)) (FeAdd (FeMul (FeSquare Y) d) FeOne)) as Hv by (clear Hu; val_is; ring).
  set (u' := FeSub (FeSquare Y) FeOne) in *. set (v' := FeAdd (FeMul (FeSquare Y) d) FeOne) in *. clearbody u' v'.
  pose proof (square_denominator y) as Hv0. set (u := y * y - 1) in *. set (v := 1 + ed_d * (y * y)) in *.
  assert (val tight (v * v * v) (FeMul (FeSquare v') v')) as Hv3 by (val_is; ring). set (v3 := FeMul (FeSquare v') v') in *. clearbody v3.
  assert (val tight (u * (v * v * v) * (v * v * v) * v) (FeMul (FeMul (FeSquare v3) v') u')) as Hw by (val_is; ring).
  set (w' := FeMul (FeMul (FeSquare v3) v') u') in *. clearbody w'.
  pose proof (val_pow22523 _ _ _ Hw eq_refl) as He. set (e' := fePow22523 w') in *. clearbody e'. clear Hw w'.
  assert (val tight (root u v) (FeMul (FeMul e' v3) u')) as Hx by (val_is; unfold root; ring).
  set (x' := FeMul (FeMul e' v3) u') in *. clearbody x'. clear He e'. set (x := root u v) in *.
  assert (val tight (x * x * v) (FeMul (FeSquare x') v')) as Hvxx by (val_is; ring). set (vxx := FeMul (FeSquare x') v') in *. clearbody vxx.
  assert (val loose (x * x * v - u) (FeSub vxx u')) as Hminus by (val_is; ring).
  assert (val loose (x * x * v + u) (FeAdd vxx u')) as Hplus by (clear Hminus; val_is; ring).
  rewrite (val_is_nonzero _ _ _ Hminus eq_refl), (val_is_nonzero _ _ _ Hplus eq_refl).
  destruct (decide (x * x * v - u = 0)) as [Em|Em].
  { assert (on_curve x y) as Hc.
    { apply on_curve_square. fold v u. transitivity (x * x * v - u + u); [ring|]. rewrite Em. ring. }
    destruct (finish_decodes s _ x x' Y Hs Hx eq_refl HY Hc) as (P & p' & E & H). cbv beta iota zeta in E |- *. rewrite E. by exists P. }
  destruct (decide (x * x * v + u = 0)) as [Ep|Ep].
  - pose proof val_SqrtM1 as Hi. assert (val tight (x * sqrt_m1) (FeMul x' SqrtM1)) as Hxi by (val_is; ring).
    destruct (val_to_bytes _ _ _ Hxi eq_refl) as (X & -> & HX). cbn beta iota.
    assert (on_curve (x * sqrt_m1) y) as Hc.
    { apply on_curve_square. fold v u. transitivity (sqrt_m1 * sqrt_m1 * (x * x * v)); [ring|]. rewrite sqrt_m1_square.
      transitivity (u - (x * x * v + u)); [ring|]. rewrite Ep. ring. }
    destruct (finish_decodes s _ _ X Y Hs HX eq_refl HY Hc) as (P & p' & E & H). cbv beta iota zeta in E |- *. rewrite E. by exists P.
  - intros P (_ & Ey & _). pose proof (proj1 (on_curve_square _ _) (p_on_curve P)) as Hc. rewrite Ey in Hc. fold y v u in Hc.
    destruct (root_of_square u v Hv0 (px P) Hc) as [E|E].
    + apply Em. fold x in E. rewrite E. ring.
    + apply Ep. fold x in E. rewrite E. ring.
Qed.

(** A point has more than one string that decodes to it: a number that is not reduced, and the sign of 0, are not refused. *)
Lemma non_canonical_key_decodes :
  decodes (le_put 32 (2 ^ 255 - 18)) pzero /\ decodes (le_put 32 (1 + 2 ^ 255)) pzero /\
  NoDup [encode pzero; le_put 32 (2 ^ 255 - 18); le_put 32 (1 + 2 ^ 255)].
Proof.
  split; [|split].
  - split; [apply length_le_put|]. split; [|by left]. unfold decoded_y. rewrite le_get_put. cbn [py pzero].
    change 1%fp with (of_Z 1). rewrite of_Z_eq. by vm_compute.
  - split; [apply length_le_put|]. split; [|by left]. unfold decoded_y. rewrite le_get_put. cbn [py pzero].
    change 1%fp with (of_Z 1). rewrite of_Z_eq. by vm_compute.
  - assert (forall a b, 0 <= a < 2 ^ 256 -> 0 <= b < 2 ^ 256 -> a <> b -> le_put 32 a <> le_put 32 b)%Z as Hne.
    { intros a b Ha Hb Hab E. apply (f_equal le_get) in E. rewrite !le_get_put, !Z.mod_small in E by (change (256 ^ Z.of_nat 32)%Z with (2 ^ 256)%Z; lia). done. }
    assert (encode pzero = le_put 32 1) as ->.
    { unfold encode. f_equal. }
    repeat (apply NoDup_cons_2; [rewrite ?not_elem_of_cons; repeat split; try (apply Hne; lia); apply not_elem_of_nil|]). apply NoDup_nil_2.
Qed.
