(* ===== verification/TableProof.v ===== *)
(** * The tables hold the multiples of the base point

    Points with coordinates in the limbs of [Limbs], for what has to be computed once.
    Every entry of [bi] and [base] is verified: [base] row by row, where an entry is the
    one before plus the first of the row, and the first of the next row is 32 times the
    last.  The order of the base point is computed in the same way. *)

From Stdlib Require Import ZArith Lia Ring Field Uint63.
From S2P Require Import Prelude Limbs Fp FieldElement Edwards GroupElement EdTable.

(** ** Computing with points *)

Local Open Scope Z_scope.

(** ** The field in limbs *)

Definition fl (l : limbs) : Fp := of_Z (lval l).

(** Limbs of a number below [2 ^ 260], without division. *)
Fixpoint limbs_of (n : nat) (z : Z) : limbs :=
  match n with
  | O => []
  | S n => Uint63.of_Z (Z.land z 67108863) :: limbs_of n (Z.shiftr z 26)
  end.

Lemma limbs_of_eq n z : limbs_of n z = of_Z_limbs n z.
Proof.
  revert z. induction n as [|n IH]; intros z; [done|]. cbn [limbs_of of_Z_limbs]. rewrite IH. f_equal.
  - f_equal. change 67108863 with (Z.ones 26). by rewrite Z.land_ones.
  - by rewrite Z.shiftr_div_pow2.
Qed.

Definition mod_p : modulus := Eval vm_compute in new_modulus 10 P25519.

Lemma mod_p_wf : wf_modulus mod_p = true.
Proof. vm_compute. reflexivity. Qed.

Lemma mod_p_val : lval (m_n mod_p) = P25519.
Proof. vm_compute. reflexivity. Qed.

(** An element with its value. *)
Definition is_fl (l : limbs) (x : Fp) : Prop := norm l /\ fl l = x.

Lemma mulmod_fl a b r x y : is_fl a x -> is_fl b y -> mulmod mod_p a b = Some r -> is_fl r (x * y)%fp.
Proof.
  intros [Ha <-] [Hb <-] E. apply (mulmod_mod mod_p P25519) in E; [|exact mod_p_wf|exact mod_p_val|done|done].
  destruct E as [E Hr]. split; [done|]. unfold fl. rewrite <- of_Z_mul. by apply of_Z_eq.
Qed.

Lemma ladd_fl a b x y : is_fl a x -> is_fl b y -> is_fl (ladd a b) (x + y)%fp.
Proof. intros [Ha <-] [Hb <-]. destruct (ladd_spec a b Ha Hb) as [E H]. split; [done|]. unfold fl. by rewrite E, of_Z_add. Qed.

Lemma is_fl_eq a x y : is_fl a x -> x = y -> is_fl a y.
Proof. by intros H <-. Qed.

(** A multiple of the modulus that is added before a subtraction. *)
Definition many_p : limbs := Eval vm_compute in of_Z_limbs 11 (1024 * P25519).

Definition msub (a b : limbs) : option limbs := lsub (ladd a many_p) b 0.

Lemma many_p_fl : is_fl many_p 0%fp.
Proof. split; [apply forallb_small; by vm_compute|]. unfold fl. rewrite of_Z_eq. by vm_compute. Qed.

Lemma msub_fl a b r x y : is_fl a x -> is_fl b y -> msub a b = Some r -> is_fl r (x - y)%fp.
Proof.
  intros Ha [Hb <-] E. destruct (ladd_fl _ _ _ _ Ha many_p_fl) as [Hn En]. apply lsub_spec in E; [|done|done|done].
  destruct E as [E Hr]. split; [done|]. unfold fl. rewrite E. change (Uint63.to_Z 0) with 0. rewrite Z.sub_0_r, of_Z_sub.
  fold (fl (ladd a many_p)) (fl b). rewrite En. ring.
Qed.

Definition limbs_eqb (a b : limbs) : bool :=
  (fix go (a b : limbs) := match a, b with
                           | [], [] => true
                           | x :: a, y :: b => (x =? y)%uint63 && go a b
                           | _, _ => false
                           end) a b.

Lemma limbs_eqb_eq a b : limbs_eqb a b = true -> a = b.
Proof.
  revert b. induction a as [|x a IH]; intros [|y b]; try done. cbn. rewrite andb_true_iff. intros [E H].
  apply Uint63.eqb_correct in E as ->. f_equal. by apply IH.
Qed.

Definition zeros : list limbs := Eval vm_compute in map (fun k => trim (of_Z_limbs 11 (k * P25519))) [0; 1; 2; 3; 4].

Definition is_zero (r : limbs) : bool := existsb (limbs_eqb r) zeros.

(** The difference of two elements is zero. *)
Definition same (a b : limbs) : bool :=
  match (c ← msub a b; mulmod mod_p c [1%uint63]) with
  | Some r => is_zero r
  | None => false
  end.

Lemma one_fl : is_fl [1%uint63] 1%fp.
Proof. split; [by repeat constructor|reflexivity]. Qed.

Lemma zeros_fl : Forall (fun l => fl l = 0%fp) zeros.
Proof. repeat constructor; unfold fl; rewrite of_Z_eq; by vm_compute. Qed.

Lemma is_zero_ok r : is_zero r = true -> fl r = 0%fp.
Proof.
  unfold is_zero. intros H. apply existsb_exists in H as (z & Hz & E). apply limbs_eqb_eq in E as ->.
  pose proof zeros_fl as Hzero. rewrite List.Forall_forall in Hzero. by apply Hzero.
Qed.

Lemma same_ok a b x y : is_fl a x -> is_fl b y -> same a b = true -> x = y.
Proof.
  intros Ha Hb. unfold same. destruct (msub a b) as [c|] eqn:Ec; [|done]. simpl.
  destruct (mulmod mod_p c _) as [r|] eqn:Er; [|done]. intros H.
  pose proof (msub_fl _ _ _ _ _ Ha Hb Ec) as Hc. pose proof (mulmod_fl _ _ _ _ _ Hc one_fl Er) as [_ Hr].
  rewrite (is_zero_ok r H) in Hr.
  transitivity ((x - y) * 1 + y)%fp; [ring|]. rewrite <- Hr. ring.
Qed.

(** ** Constants *)

Definition const_limbs (z : Z) : limbs := limbs_of 10 z.

Lemma const_limbs_fl z : 0 <= z < 2 ^ 260 -> is_fl (const_limbs z) (of_Z z).
Proof.
  intros Hz. unfold const_limbs. rewrite limbs_of_eq. destruct (of_Z_limbs_spec 10 z) as [E H]; [lia|]. split; [done|].
  unfold fl. rewrite E. f_equal. by apply Z.mod_small.
Qed.

(** Limbs of a field element of the code. *)
Definition fe_limbs (f : FieldElement) : option limbs :=
  let z := fe_eval f + 8 * P25519 in
  if (0 <=? z) && (z <? 2 ^ 260) then Some (limbs_of 10 z) else None.

Lemma fe_limbs_fl f l : fe_limbs f = Some l -> is_fl l (fe f).
Proof.
  unfold fe_limbs. destruct (_ && _) eqn:E; [|done]. intros Hl. apply (inj Some) in Hl. rewrite <- Hl. apply andb_prop in E as [E1 E2].
  apply Z.leb_le in E1. apply Z.ltb_lt in E2. fold (const_limbs (fe_eval f + 8 * P25519)).
  replace (fe f) with (of_Z (fe_eval f + 8 * P25519)); [by apply const_limbs_fl|]. clear. unfold fe. rewrite of_Z_eq. apply Z_mod_plus_full.
Qed.

Definition half : limbs := Eval vm_compute in of_Z_limbs 10 ((P25519 + 1) / 2).

Lemma half_fl : is_fl half (finv 2%fp).
Proof.
  split; [apply forallb_small; by vm_compute|]. apply (fmul_cancel_l 2%fp); [exact fp_two_neq_zero|].
  transitivity 1%fp; [|field; exact fp_two_neq_zero]. unfold fl. rewrite <- of_Z_mul, of_Z_eq. by vm_compute.
Qed.

Definition limbs_d : limbs := Eval vm_compute in of_Z_limbs 10 D25519.

Lemma limbs_d_fl : is_fl limbs_d ed_d.
Proof. split; [apply forallb_small; by vm_compute|]. unfold fl, ed_d. rewrite of_Z_eq. by vm_compute. Qed.

(** ** Points *)

Notation apoint := (limbs * limbs)%type.

Definition rep_affine (a : apoint) (P : point) : Prop := is_fl a.1 (px P) /\ is_fl a.2 (py P).

(** [mulmod] with the modulus of the field *)
Notation fmulm := (mulmod mod_p).

Ltac fl_auto :=
  lazymatch goal with
  | |- is_fl (ladd _ _) _ => eapply ladd_fl; [fl_auto|fl_auto]
  | |- is_fl [_] _ => exact one_fl
  | |- is_fl limbs_d _ => exact limbs_d_fl
  | |- is_fl half _ => exact half_fl
  | |- _ => eassumption
  end.

(** Take the next operation of a computation, if it has a result. *)
Ltac fl_step :=
  lazymatch goal with
  | |- context [@mbind option _ _ _ _ ?x] =>
      let r := fresh "r" in let E := fresh "E" in
      destruct x as [r|] eqn:E; [|solve [cbn [mbind option_bind]; discriminate]];
      lazymatch type of E with
      | mulmod mod_p _ _ = _ => eapply mulmod_fl in E; [|fl_auto|fl_auto]
      | msub _ _ = _ => eapply msub_fl in E; [|fl_auto|fl_auto]
      | fe_limbs _ = _ => apply fe_limbs_fl in E
      end; cbn [mbind option_bind]
  end.

Definition check_sum (a b c : apoint) : bool :=
  match (
    xx ← fmulm a.1 b.1;
    yy ← fmulm a.2 b.2;
    e ← fmulm xx yy;
    e ← fmulm e limbs_d;
    xy ← fmulm a.1 b.2;
    yx ← fmulm a.2 b.1;
    l ← fmulm c.1 (ladd [1%uint63] e);
    m ← msub [1%uint63] e;
    r ← fmulm c.2 m;
    Some (same l (ladd xy yx) && same r (ladd yy xx))) with
  | Some ok => ok
  | None => false
  end.

Lemma check_sum_ok a b c x y P Q :
  rep_affine a P -> rep_affine b Q -> is_fl c.1 x -> is_fl c.2 y -> check_sum a b c = true -> rep_affine c (padd P Q).
Proof.
  intros [Ha1 Ha2] [Hb1 Hb2] Hx Hy. unfold check_sum. repeat fl_step. rewrite andb_true_iff. intros [Sx Sy].
  eapply same_ok in Sx; [|fl_auto|fl_auto]. eapply same_ok in Sy; [|fl_auto|fl_auto].
  split; [replace (px (padd P Q)) with x|replace (py (padd P Q)) with y]; try done.
  - apply (fmul_cancel_l (den_plus P Q)); [apply den_plus_nonzero|].
    transitivity (px (padd P Q) * den_plus P Q)%fp; [rewrite padd_px, <- Sx; unfold den_plus; ring|ring].
  - apply (fmul_cancel_l (den_minus P Q)); [apply den_minus_nonzero|].
    transitivity (py (padd P Q) * den_minus P Q)%fp; [rewrite padd_py, <- Sy; unfold den_minus; ring|ring].
Qed.

(** An entry of a table. *)
Definition entry_affine (e : PreComputedGroupElement) : option apoint :=
  yp ← fe_limbs (pc_yPlusX e);
  ym ← fe_limbs (pc_yMinusX e);
  x ← msub yp ym;
  x ← fmulm half x;
  y ← fmulm half (ladd yp ym);
  Some (x, y).

Definition limbs_within (b : Z) (f : FieldElement) : bool :=
  forallb (fun z => (- (2 * b) <=? z) && (z <=? 2 * b)) [fe0 f; fe2 f; fe4 f; fe6 f; fe8 f] &&
  forallb (fun z => (- b <=? z) && (z <=? b)) [fe1 f; fe3 f; fe5 f; fe7 f; fe9 f].

Definition check_entry (e : PreComputedGroupElement) (a : apoint) : bool :=
  limbs_within tight (pc_yPlusX e) && limbs_within tight (pc_yMinusX e) && limbs_within tight (pc_xy2d e) &&
  match (
    t ← fe_limbs (pc_xy2d e);
    xy ← fmulm a.1 a.2;
    r ← fmulm (ladd limbs_d limbs_d) xy;
    Some (same t r)) with
  | Some ok => ok
  | None => false
  end.

Lemma entry_affine_fl e a : entry_affine e = Some a ->
  is_fl a.1 (finv 2 * (fe (pc_yPlusX e) - fe (pc_yMinusX e)))%fp /\ is_fl a.2 (finv 2 * (fe (pc_yPlusX e) + fe (pc_yMinusX e)))%fp.
Proof.
  unfold entry_affine. repeat fl_step. intros Er. apply (inj Some) in Er. rewrite <- Er. cbn [fst snd]. split; assumption.
Qed.

Lemma check_entry_ok e a P : entry_affine e = Some a -> check_entry e a = true -> rep_affine a P -> rep_precomputed e P.
Proof.
  intros Ea He [Hx Hy]. destruct (entry_affine_fl e a Ea) as [Hx' Hy']. destruct Hx as [_ Hx], Hy as [_ Hy].
  pose proof Hx' as [_ Ex]. pose proof Hy' as [_ Ey]. rewrite Hx in Ex. rewrite Hy in Ey. clear Ea. unfold check_entry in He.
  rewrite !andb_true_iff in He. destruct He as (((B1 & B2) & B3) & He).
  assert (fe (pc_yPlusX e) = py P + px P)%fp as Ep by (rewrite Ex, Ey; field; exact fp_two_neq_zero).
  assert (fe (pc_yMinusX e) = py P - px P)%fp as Em by (rewrite Ex, Ey; field; exact fp_two_neq_zero).
  split; [by apply val_const|]. split; [by apply val_const|]. apply val_const; [|done].
  revert He. repeat fl_step. intros Es. eapply same_ok in Es; [|fl_auto|fl_auto]. rewrite Es, <- Ex, <- Ey. ring.
Qed.

(** ** Multiples *)

(** Entries whose points increase by [step] from [prev]. *)
Fixpoint check_row (step prev : apoint) (es : list PreComputedGroupElement) : option apoint :=
  match es with
  | [] => Some prev
  | e :: es =>
      a ← entry_affine e;
      if check_sum prev step a && check_entry e a then check_row step a es else None
  end.

Lemma check_row_ok S P es step prev last :
  rep_affine step S -> rep_affine prev P -> check_row step prev es = Some last ->
  rep_affine last (padd P (pmul (zlen es) S)) /\
  forall j e, es !! j = Some e -> rep_precomputed e (padd P (pmul (Z.of_nat j + 1) S)).
Proof.
  intros HS. revert prev P. induction es as [|e es IH]; intros prev P HP; cbn [check_row].
  - intros H. apply (inj Some) in H as <-. change (zlen []) with 0. cbn [pmul]. rewrite padd_zero_r. split; [done|]. done.
  - destruct (entry_affine e) as [a|] eqn:Ea; [|done]. cbn [mbind option_bind].
    destruct (check_sum prev step a && check_entry e a) eqn:Ec; [|done]. apply andb_prop in Ec as [Es Ee]. intros Hr.
    destruct (entry_affine_fl e a Ea) as [Hx Hy]. pose proof (check_sum_ok _ _ _ _ _ _ _ HP HS Hx Hy Es) as Ha.
    destruct (IH a (padd P S) Ha Hr) as [Hl He]. split.
    + replace (zlen (e :: es)) with (Z.succ (zlen es)) by (unfold zlen; simpl length; lia). by rewrite pmul_succ, padd_assoc.
    + intros [|j] e' Hj; simpl in Hj.
      * apply (inj Some) in Hj as <-. change (Z.of_nat 0 + 1) with 1. rewrite pmul_1. by eapply check_entry_ok.
      * replace (Z.of_nat (Datatypes.S j) + 1) with (Z.succ (Z.of_nat j + 1)) by lia. rewrite pmul_succ, padd_assoc. by apply He.
Qed.

(** Projective coordinates. *)
Notation ppoint := (limbs * limbs * limbs)%type.

Definition rep_proj (p : ppoint) (P : point) : Prop :=
  exists z, z <> 0%fp /\ is_fl p.1.1 (px P * z)%fp /\ is_fl p.1.2 (py P * z)%fp /\ is_fl p.2 z.

Definition pdouble (p : ppoint) : option ppoint :=
  let '(X, Y, Z) := p in
  xx ← fmulm X X;
  yy ← fmulm Y Y;
  zz ← fmulm Z Z;
  xy ← fmulm X Y;
  f ← msub yy xx;
  f ← fmulm f [1%uint63];
  t ← msub (ladd zz zz) f;
  x ← fmulm (ladd xy xy) t;
  y ← fmulm (ladd yy xx) f;
  z ← fmulm f t;
  Some (x, y, z).

Lemma pdouble_ok p q P : rep_proj p P -> pdouble p = Some q -> rep_proj q (padd P P).
Proof.
  intros (z & Hz & HX & HY & HZ). destruct p as [[X Y] Z]. cbn [fst snd] in *. unfold pdouble. repeat fl_step.
  intros Eq. apply (inj Some) in Eq. rewrite <- Eq. clear Eq.
  assert (py P * py P - px P * px P = den_plus P P)%fp as Hp by (rewrite (p_on_curve P); unfold den_plus; ring).
  assert (2 - (py P * py P - px P * px P) = den_minus P P)%fp as Hm by (rewrite (p_on_curve P); unfold den_minus; ring).
  assert (z * z <> 0)%fp as Hzz by (by apply fmul_nonzero).
  exists ((z * z) * (z * z) * (den_plus P P * den_minus P P))%fp.
  split; [repeat apply fmul_nonzero; first [assumption|apply den_plus_nonzero|apply den_minus_nonzero]|]. cbn [fst snd].
  split; [|split].
  - eapply is_fl_eq; [eassumption|]. transitivity (z * z * (z * z) * (px (padd P P) * den_plus P P) * den_minus P P)%fp; [|ring].
    rewrite padd_px, <- Hm. ring.
  - eapply is_fl_eq; [eassumption|]. transitivity (z * z * (z * z) * (py (padd P P) * den_minus P P) * den_plus P P)%fp; [|ring].
    rewrite padd_py, <- Hp. ring.
  - eapply is_fl_eq; [eassumption|]. rewrite <- Hp, <- Hm. ring.
Qed.

Fixpoint pdoubles (n : nat) (p : ppoint) : option ppoint :=
  match n with
  | O => Some p
  | S n => q ← pdouble p; pdoubles n q
  end.

Lemma pdoubles_ok n p q P : rep_proj p P -> pdoubles n p = Some q -> rep_proj q (pmul (2 ^ Z.of_nat n) P).
Proof.
  revert p P. induction n as [|n IH]; intros p P Hp; cbn [pdoubles].
  - intros E. apply (inj Some) in E as <-. change (2 ^ Z.of_nat 0) with 1. by rewrite pmul_1.
  - destruct (pdouble p) as [r|] eqn:E; [|done]. cbn [mbind option_bind]. intros Hq. apply (pdouble_ok _ _ P) in E; [|done].
    apply (IH r (padd P P)) in Hq; [|done]. rewrite Nat2Z.inj_succ, Z.pow_succ_r, Z.mul_comm, pmul_mul, pmul_2 by lia. done.
Qed.

(** The same point in projective and in affine coordinates. *)
Definition same_point (p : ppoint) (a : apoint) : bool :=
  match (x ← fmulm a.1 p.2; y ← fmulm a.2 p.2; Some (same p.1.1 x && same p.1.2 y)) with
  | Some ok => ok
  | None => false
  end.

Lemma same_point_ok p a x y P : rep_proj p P -> is_fl a.1 x -> is_fl a.2 y -> same_point p a = true -> rep_affine a P.
Proof.
  intros (z & Hz & HX & HY & HZ) Hx Hy. unfold same_point. repeat fl_step. rewrite andb_true_iff. intros [Sx Sy].
  eapply same_ok in Sx; [|fl_auto|fl_auto]. eapply same_ok in Sy; [|fl_auto|fl_auto].
  split; [replace (px P) with x|replace (py P) with y]; try assumption; apply (fmul_cancel_l z); try assumption.
  - transitivity (x * z)%fp; [ring|]. rewrite <- Sx. ring.
  - transitivity (y * z)%fp; [ring|]. rewrite <- Sy. ring.
Qed.

(** ** The tables *)

Local Open Scope Z_scope.

(** ** The base point *)

Definition Bx : Z := 15112221349535400772501151409588531511454012693041857206046113283949847762202.
Definition By : Z := 46316835694926478169428394003475163141307993866256225615783033603165251855960.

Lemma B_on_curve : on_curve (of_Z Bx) (of_Z By).
Proof. unfold on_curve, ed_d. rewrite <- !of_Z_mul, <- of_Z_sub, <- of_Z_add, of_Z_eq. by vm_compute. Qed.

Definition ed_B : point := mkPoint (of_Z Bx) (of_Z By) B_on_curve.

(** The second coordinate is 4/5, and the first is even. *)
Lemma ed_B_spec : (of_Z 5 * py ed_B = of_Z 4)%fp /\ fval (px ed_B) mod 2 = 0.
Proof. split; [simpl; rewrite <- of_Z_mul, of_Z_eq; by vm_compute|by vm_compute]. Qed.

Definition limbs_B : apoint := Eval vm_compute in (const_limbs Bx, const_limbs By).
Definition limbs_zero : apoint := Eval vm_compute in (const_limbs 0, const_limbs 1).

Lemma limbs_B_rep : rep_affine limbs_B ed_B.
Proof. split; (split; [apply forallb_small; by vm_compute|]); unfold fl; simpl; rewrite of_Z_eq; by vm_compute. Qed.

Lemma limbs_zero_rep : rep_affine limbs_zero pzero.
Proof. split; (split; [apply forallb_small; by vm_compute|]); unfold fl; simpl; rewrite of_Z_eq; by vm_compute. Qed.

(** ** Rows *)

Definition affine_proj (a : apoint) : ppoint := (a.1, a.2, [1%uint63]).

Lemma affine_proj_rep a P : rep_affine a P -> rep_proj (affine_proj a) P.
Proof.
  intros [Hx Hy]. exists 1%fp. split; [exact fp_one_neq_zero|]. split; [eapply is_fl_eq; [exact Hx|ring]|].
  split; [eapply is_fl_eq; [exact Hy|ring]|exact one_fl].
Qed.

(** A row, from the point that its first entry has. *)
Fixpoint check_rows (first : apoint) (rows : list (list PreComputedGroupElement)) : bool :=
  match rows with
  | [] => true
  | row :: rows =>
      match check_row first limbs_zero row with
      | None => false
      | Some last =>
          match rows with
          | [] => true
          | [] :: _ => false
          | (e :: _) :: _ =>
              match entry_affine e, pdoubles 5 (affine_proj last) with
              | Some a, Some p => (zlen row =? 8) && same_point p a && check_rows a rows
              | _, _ => false
              end
          end
      end
  end.

Lemma check_rows_ok P first rows :
  rep_affine first P -> check_rows first rows = true ->
  forall i row j e, rows !! i = Some row -> row !! j = Some e -> rep_precomputed e (pmul ((Z.of_nat j + 1) * 256 ^ Z.of_nat i) P).
Proof.
  revert P first. induction rows as [|row rows IH]; intros P first Hf; [done|]. cbn [check_rows].
  destruct (check_row first limbs_zero row) as [last|] eqn:Er; [|done].
  apply (check_row_ok P pzero) in Er as [Hl He]; [|done|exact limbs_zero_rep]. rewrite padd_zero_l in Hl.
  intros Hc [|i] row' j e Hi Hj; simpl in Hi.
  - apply (inj Some) in Hi as <-. change (256 ^ Z.of_nat 0) with 1. rewrite Z.mul_1_r. rewrite <- (padd_zero_l (pmul _ _)). by apply He.
  - destruct rows as [|[|e' r] rows]; [done|done|]. destruct (entry_affine e') as [a|] eqn:Ea; [|done].
    destruct (pdoubles 5 (affine_proj last)) as [p|] eqn:Ep; [|done]. rewrite !andb_true_iff in Hc. destruct Hc as ((H8 & Hs) & Hc).
    apply Z.eqb_eq in H8. rewrite H8 in Hl. apply (pdoubles_ok 5 _ _ (pmul 8 P)) in Ep; [|by apply affine_proj_rep].
    rewrite <- pmul_mul in Ep. change (2 ^ Z.of_nat 5 * 8) with 256 in Ep.
    destruct (entry_affine_fl e' a Ea) as [Hx Hy]. pose proof (same_point_ok _ _ _ _ _ Ep Hx Hy Hs) as Ha.
    pose proof (IH (pmul 256 P) a Ha Hc i row' j e Hi Hj) as H. rewrite <- pmul_mul in H.
    rewrite Nat2Z.inj_succ, Z.pow_succ_r by lia.
    by replace ((Z.of_nat j + 1) * (256 * 256 ^ Z.of_nat i)) with ((Z.of_nat j + 1) * 256 ^ Z.of_nat i * 256) by ring.
Qed.

Lemma base_checked : check_rows limbs_B base = true.
Proof. vm_compute. reflexivity. Qed.

Lemma base_rep i row j e :
  base !! i = Some row -> row !! j = Some e -> rep_precomputed e (pmul ((Z.of_nat j + 1) * 256 ^ Z.of_nat i) ed_B).
Proof. apply (check_rows_ok ed_B limbs_B base limbs_B_rep base_checked). Qed.

(** Odd multiples: the first entry, and then steps of twice the base point, which is the
    second entry of [base]. *)
Definition check_bi : bool :=
  match bi, base_0 with
  | b :: bs, _ :: twice :: _ =>
      match entry_affine b, entry_affine twice with
      | Some ab, Some a2 =>
          check_sum limbs_zero limbs_B ab && check_entry b ab && check_sum limbs_B limbs_B a2 &&
          match check_row a2 ab bs with Some _ => true | None => false end
      | _, _ => false
      end
  | _, _ => false
  end.

Lemma bi_checked : check_bi = true.
Proof. vm_compute. reflexivity. Qed.

Lemma bi_rep j e : bi !! j = Some e -> rep_precomputed e (pmul (2 * Z.of_nat j + 1) ed_B).
Proof.
  pose proof bi_checked as H. unfold check_bi in H. destruct bi as [|b bs]; [done|]. destruct base_0 as [|b0 [|b1 b2]]; [done..|].
  destruct (entry_affine b) as [ab|] eqn:Eb; [|done]. destruct (entry_affine b1) as [a2|] eqn:E2; [|done].
  destruct (check_row a2 ab bs) as [last|] eqn:Er; [|by rewrite andb_false_r in H].
  rewrite !andb_true_iff in H. destruct H as (((Hs & He) & Ht) & _).
  destruct (entry_affine_fl b ab Eb) as [Hx Hy]. destruct (entry_affine_fl b1 a2 E2) as [Hx2 Hy2].
  pose proof (check_sum_ok _ _ _ _ _ _ _ limbs_zero_rep limbs_B_rep Hx Hy Hs) as Hab. rewrite padd_zero_l in Hab.
  pose proof (check_sum_ok _ _ _ _ _ _ _ limbs_B_rep limbs_B_rep Hx2 Hy2 Ht) as Ha2.
  destruct (check_row_ok (padd ed_B ed_B) ed_B bs a2 ab last Ha2 Hab Er) as [_ Hall].
  destruct j as [|j]; intros Hj.
  - apply (inj Some) in Hj. rewrite <- Hj. change (2 * Z.of_nat 0 + 1) with 1. rewrite pmul_1. exact (check_entry_ok b ab ed_B Eb He Hab).
  - specialize (Hall j e Hj). replace (2 * Z.of_nat (S j) + 1) with (1 + (Z.of_nat j + 1) * 2) by lia.
    by rewrite pmul_add, pmul_1, pmul_mul, pmul_2.
Qed.

(** ** The order of the base point *)

Definition padd_affine (p : ppoint) (a : apoint) : option ppoint :=
  let '(X, Y, Z) := p in
  zz ← fmulm Z Z;
  xx ← fmulm X a.1;
  yy ← fmulm Y a.2;
  e ← fmulm xx yy;
  e ← fmulm e limbs_d;
  xy ← fmulm X a.2;
  yx ← fmulm Y a.1;
  f ← msub zz e;
  f ← fmulm f [1%uint63];
  zf ← fmulm Z f;
  zg ← fmulm Z (ladd zz e);
  x ← fmulm zf (ladd xy yx);
  y ← fmulm zg (ladd yy xx);
  z ← fmulm f (ladd zz e);
  Some (x, y, z).

Lemma padd_affine_ok p a q P Q : rep_proj p P -> rep_affine a Q -> padd_affine p a = Some q -> rep_proj q (padd P Q).
Proof.
  intros (z & Hz & HX & HY & HZ) [Ha1 Ha2]. destruct p as [[X Y] Z]. cbn [fst snd] in *. unfold padd_affine. repeat fl_step.
  intros Eq. apply (inj Some) in Eq. rewrite <- Eq. clear Eq.
  assert (z * z <> 0)%fp as Hzz by (by apply fmul_nonzero).
  exists ((z * z) * (z * z) * (den_plus P Q * den_minus P Q))%fp.
  split; [repeat apply fmul_nonzero; first [assumption|apply den_plus_nonzero|apply den_minus_nonzero]|]. cbn [fst snd].
  split; [|split].
  - eapply is_fl_eq; [eassumption|]. transitivity (z * z * (z * z) * (px (padd P Q) * den_plus P Q) * den_minus P Q)%fp; [|ring].
    rewrite padd_px. unfold den_minus. ring.
  - eapply is_fl_eq; [eassumption|]. transitivity (z * z * (z * z) * (py (padd P Q) * den_minus P Q) * den_plus P Q)%fp; [|ring].
    rewrite padd_py. unfold den_plus. ring.
  - eapply is_fl_eq; [eassumption|]. unfold den_plus, den_minus. ring.
Qed.

(** A multiple, by doubling and adding. *)
Fixpoint pscale (n : positive) (a : apoint) : option ppoint :=
  match n with
  | xH => Some (affine_proj a)
  | xO n => q ← pscale n a; pdouble q
  | xI n => q ← pscale n a; q ← pdouble q; padd_affine q a
  end.

Lemma pscale_ok n a q P : rep_affine a P -> pscale n a = Some q -> rep_proj q (pmul (Z.pos n) P).
Proof.
  intros Ha. revert q. induction n as [n IH|n IH|]; intros q; cbn [pscale].
  - destruct (pscale n a) as [q1|]; [|done]. cbn [mbind option_bind]. destruct (pdouble q1) as [q2|] eqn:E2; [|done]. cbn [mbind option_bind]. intros E.
    apply (padd_affine_ok q2 a q (pmul (2 * Z.pos n) P) P) in E; [|rewrite pmul_mul, pmul_2; exact (pdouble_ok _ _ _ (IH q1 eq_refl) E2)|exact Ha].
    rewrite Pos2Z.inj_xI, pmul_add, pmul_1. exact E.
  - destruct (pscale n a) as [q1|]; [|done]. cbn [mbind option_bind]. intros E.
    rewrite Pos2Z.inj_xO, pmul_mul, pmul_2. exact (pdouble_ok _ _ _ (IH q1 eq_refl) E).
  - intros E. apply (inj Some) in E as <-. rewrite pmul_1. by apply affine_proj_rep.
Qed.

Definition order : positive := Eval vm_compute in Z.to_pos (2 ^ 252 + 27742317777372353535851937790883648493).

Definition check_order : bool := match pscale order limbs_B with Some p => same_point p limbs_zero | None => false end.

Lemma order_checked : check_order = true.
Proof. vm_compute. reflexivity. Qed.

Lemma ed_B_order : pmul (2 ^ 252 + 27742317777372353535851937790883648493) ed_B = pzero.
Proof.
  change (2 ^ 252 + _) with (Z.pos order). pose proof order_checked as H. unfold check_order in H.
  destruct (pscale order limbs_B) as [p|] eqn:E; [|done]. apply (pscale_ok order limbs_B p ed_B limbs_B_rep) in E.
  destruct limbs_zero_rep as [[Hx1 Hx2] [Hy1 Hy2]].
  destruct (same_point_ok p limbs_zero _ _ _ E (conj Hx1 eq_refl) (conj Hy1 eq_refl) H) as [[_ Ex] [_ Ey]].
  apply point_eq; congruence.
Qed.

(** ** The bounds that callers keep *)

(** The comments of the code ask for limbs within [1.1 * 2 ^ 26] before a multiplication.  Adding three times the base point twice to the
    base point leaves a limb that is larger, which [Completed_ToExtended] then multiplies. *)
Lemma callers_exceed_precondition :
  exists q1 q3, bi !! 0%nat = Some q1 /\ bi !! 1%nat = Some q3 /\
    let p1 := Completed_ToExtended (geMixedAdd Extended_Zero q1) in
    let p4 := Completed_ToExtended (geMixedAdd p1 q3) in
    11 * 2 ^ 26 < 10 * Z.abs (fe8 (c_T (geMixedAdd p4 q3))).
Proof. eexists _, _. split; [reflexivity|]. split; [reflexivity|]. vm_compute. reflexivity. Qed.
