(* ===== verification/Scalar.v ===== *)
(** * Scalars: [crypto/ed25519/internal/edwards25519/edwards25519.go]

    Arithmetic modulo the order of the base point.  A number is a list of limbs of type
    [int64] in radix [2 ^ 21], which may be negative and larger than their digit.  The
    code is straight-line: carries from one limb to the next, and folds of a limb twelve
    places down, [2 ^ 252] being a small number modulo the order.  Here a step is a
    value, a routine is the list of its steps in the order of the code, and [run_steps]
    performs them with every 64-bit result wrapped.

    For the proof, [iv_run] computes, for limbs that lie in given intervals, intervals of
    the limbs after some steps, and fails when a 64-bit result could wrap.  It is sound:
    the steps then keep the value up to multiples of the order.  Evaluated on the steps of
    the code it shows that nothing overflows, and how close to a digit the limbs are in
    the end. *)

From Stdlib Require Import ZArith Lia.
From S2P Require Import Prelude FieldElement FieldBytes.

Local Open Scope Z_scope.

Inductive sc_step :=
  | RoundCarry (i : nat)
  | FloorCarry (i : nat)
  | Fold (k : nat).

(** [s_i += x] and [s_i -= x] *)
Definition add_to (i : nat) (x : Z) (s : list Z) : list Z := alter (fun y => int64 (y + x)) i s.
Definition sub_from (i : nat) (x : Z) (s : list Z) : list Z := alter (fun y => int64 (y - x)) i s.

(** [carry[i] = c; s_{i+1} += carry[i]; s_i -= carry[i] << 21] *)
Definition carry_from (i : nat) (c : Z) (s : list Z) : list Z := sub_from i (int64 (Z.shiftl c 21)) (add_to (i + 1) c s).

Definition run_step (st : sc_step) (s : list Z) : list Z :=
  match st with
  | RoundCarry i => carry_from i (Z.shiftr (int64 (s !!! i + Z.shiftl 1 20)) 21) s
  | FloorCarry i => carry_from i (Z.shiftr (s !!! i) 21) s
  | Fold k =>
      let x := s !!! k in
      let s := add_to (k - 12) (int64 (x * 666643)) s in
      let s := add_to (k - 11) (int64 (x * 470296)) s in
      let s := add_to (k - 10) (int64 (x * 654183)) s in
      let s := sub_from (k - 9) (int64 (x * 997805)) s in
      let s := add_to (k - 8) (int64 (x * 136657)) s in
      let s := sub_from (k - 7) (int64 (x * 683901)) s in
      <[k := 0]> s
  end.

Definition run_steps (steps : list sc_step) (s : list Z) : list Z := foldl (fun s st => run_step st s) s steps.

(** The steps that both routines have, up to the last two folds of the thirteenth limb. *)
Definition reduce_steps : list sc_step := [
  Fold 23; Fold 22; Fold 21; Fold 20; Fold 19; Fold 18; RoundCarry 6; RoundCarry 8; RoundCarry 10;
  RoundCarry 12; RoundCarry 14; RoundCarry 16; RoundCarry 7; RoundCarry 9; RoundCarry 11; RoundCarry 13;
  RoundCarry 15; Fold 17; Fold 16; Fold 15; Fold 14; Fold 13; Fold 12; RoundCarry 0; RoundCarry 2;
  RoundCarry 4; RoundCarry 6; RoundCarry 8; RoundCarry 10; RoundCarry 1; RoundCarry 3; RoundCarry 5;
  RoundCarry 7; RoundCarry 9; RoundCarry 11; Fold 12].

(** Carries, a fold of what is carried out, and carries again. *)
Definition last_steps : list sc_step := [
  FloorCarry 0; FloorCarry 1; FloorCarry 2; FloorCarry 3; FloorCarry 4; FloorCarry 5; FloorCarry 6;
  FloorCarry 7; FloorCarry 8; FloorCarry 9; FloorCarry 10; FloorCarry 11; Fold 12; FloorCarry 0; FloorCarry 1;
  FloorCarry 2; FloorCarry 3; FloorCarry 4; FloorCarry 5; FloorCarry 6; FloorCarry 7; FloorCarry 8;
  FloorCarry 9; FloorCarry 10].

(** The carries of the product. *)
Definition product_steps : list sc_step := [
  RoundCarry 0; RoundCarry 2; RoundCarry 4; RoundCarry 6; RoundCarry 8; RoundCarry 10; RoundCarry 12;
  RoundCarry 14; RoundCarry 16; RoundCarry 18; RoundCarry 20; RoundCarry 22; RoundCarry 1; RoundCarry 3;
  RoundCarry 5; RoundCarry 7; RoundCarry 9; RoundCarry 11; RoundCarry 13; RoundCarry 15; RoundCarry 17;
  RoundCarry 19; RoundCarry 21].

(** Twelve limbs of 32 bytes; the last one is not masked. *)
Definition load_scalar (a : bytes) : list Z := [
  Z.land 2097151 (load3 a 0); Z.land 2097151 (Z.shiftr (load4 a 2) 5); Z.land 2097151 (Z.shiftr (load3 a 5) 2);
  Z.land 2097151 (Z.shiftr (load4 a 7) 7); Z.land 2097151 (Z.shiftr (load4 a 10) 4);
  Z.land 2097151 (Z.shiftr (load3 a 13) 1); Z.land 2097151 (Z.shiftr (load4 a 15) 6);
  Z.land 2097151 (Z.shiftr (load3 a 18) 3); Z.land 2097151 (load3 a 21);
  Z.land 2097151 (Z.shiftr (load4 a 23) 5); Z.land 2097151 (Z.shiftr (load3 a 26) 2); Z.shiftr (load4 a 28) 7].

(** Twenty-four limbs of 64 bytes. *)
Definition load_wide (s : bytes) : list Z := [
  Z.land 2097151 (load3 s 0); Z.land 2097151 (Z.shiftr (load4 s 2) 5); Z.land 2097151 (Z.shiftr (load3 s 5) 2);
  Z.land 2097151 (Z.shiftr (load4 s 7) 7); Z.land 2097151 (Z.shiftr (load4 s 10) 4);
  Z.land 2097151 (Z.shiftr (load3 s 13) 1); Z.land 2097151 (Z.shiftr (load4 s 15) 6);
  Z.land 2097151 (Z.shiftr (load3 s 18) 3); Z.land 2097151 (load3 s 21);
  Z.land 2097151 (Z.shiftr (load4 s 23) 5); Z.land 2097151 (Z.shiftr (load3 s 26) 2);
  Z.land 2097151 (Z.shiftr (load4 s 28) 7); Z.land 2097151 (Z.shiftr (load4 s 31) 4);
  Z.land 2097151 (Z.shiftr (load3 s 34) 1); Z.land 2097151 (Z.shiftr (load4 s 36) 6);
  Z.land 2097151 (Z.shiftr (load3 s 39) 3); Z.land 2097151 (load3 s 42);
  Z.land 2097151 (Z.shiftr (load4 s 44) 5); Z.land 2097151 (Z.shiftr (load3 s 47) 2);
  Z.land 2097151 (Z.shiftr (load4 s 49) 7); Z.land 2097151 (Z.shiftr (load4 s 52) 4);
  Z.land 2097151 (Z.shiftr (load3 s 55) 1); Z.land 2097151 (Z.shiftr (load4 s 57) 6); Z.shiftr (load4 s 60) 3].

(** The limbs of [a * b + c]. *)
Definition product_limbs (a b c : list Z) : list Z :=
  match a, b, c with
  | [a0; a1; a2; a3; a4; a5; a6; a7; a8; a9; a10; a11],
    [b0; b1; b2; b3; b4; b5; b6; b7; b8; b9; b10; b11],
    [c0; c1; c2; c3; c4; c5; c6; c7; c8; c9; c10; c11] =>
      [int64 (c0 + a0*b0);
       int64 (c1 + a0*b1 + a1*b0);
       int64 (c2 + a0*b2 + a1*b1 + a2*b0);
       int64 (c3 + a0*b3 + a1*b2 + a2*b1 + a3*b0);
       int64 (c4 + a0*b4 + a1*b3 + a2*b2 + a3*b1 + a4*b0);
       int64 (c5 + a0*b5 + a1*b4 + a2*b3 + a3*b2 + a4*b1 + a5*b0);
       int64 (c6 + a0*b6 + a1*b5 + a2*b4 + a3*b3 + a4*b2 + a5*b1 + a6*b0);
       int64 (c7 + a0*b7 + a1*b6 + a2*b5 + a3*b4 + a4*b3 + a5*b2 + a6*b1 + a7*b0);
       int64 (c8 + a0*b8 + a1*b7 + a2*b6 + a3*b5 + a4*b4 + a5*b3 + a6*b2 + a7*b1 + a8*b0);
       int64 (c9 + a0*b9 + a1*b8 + a2*b7 + a3*b6 + a4*b5 + a5*b4 + a6*b3 + a7*b2 + a8*b1 + a9*b0);
       int64 (c10 + a0*b10 + a1*b9 + a2*b8 + a3*b7 + a4*b6 + a5*b5 + a6*b4 + a7*b3 + a8*b2 + a9*b1 + a10*b0);
       int64 (c11 + a0*b11 + a1*b10 + a2*b9 + a3*b8 + a4*b7 + a5*b6 + a6*b5 + a7*b4 + a8*b3 + a9*b2 + a10*b1 + a11*b0);
       int64 (a1*b11 + a2*b10 + a3*b9 + a4*b8 + a5*b7 + a6*b6 + a7*b5 + a8*b4 + a9*b3 + a10*b2 + a11*b1);
       int64 (a2*b11 + a3*b10 + a4*b9 + a5*b8 + a6*b7 + a7*b6 + a8*b5 + a9*b4 + a10*b3 + a11*b2);
       int64 (a3*b11 + a4*b10 + a5*b9 + a6*b8 + a7*b7 + a8*b6 + a9*b5 + a10*b4 + a11*b3);
       int64 (a4*b11 + a5*b10 + a6*b9 + a7*b8 + a8*b7 + a9*b6 + a10*b5 + a11*b4);
       int64 (a5*b11 + a6*b10 + a7*b9 + a8*b8 + a9*b7 + a10*b6 + a11*b5);
       int64 (a6*b11 + a7*b10 + a8*b9 + a9*b8 + a10*b7 + a11*b6);
       int64 (a7*b11 + a8*b10 + a9*b9 + a10*b8 + a11*b7);
       int64 (a8*b11 + a9*b10 + a10*b9 + a11*b8);
       int64 (a9*b11 + a10*b10 + a11*b9);
       int64 (a10*b11 + a11*b10);
       int64 (a11 * b11);
       0]
  | _, _, _ => []
  end.

Definition sc_pack (s : list Z) : bytes :=
  match s with
  | s0 :: s1 :: s2 :: s3 :: s4 :: s5 :: s6 :: s7 :: s8 :: s9 :: s10 :: s11 :: _ =>
      [byte_of_Z (Z.shiftr s0 0);
       byte_of_Z (Z.shiftr s0 8);
       byte_of_Z (Z.lor (Z.shiftr s0 16) (int64 (Z.shiftl s1 5)));
       byte_of_Z (Z.shiftr s1 3);
       byte_of_Z (Z.shiftr s1 11);
       byte_of_Z (Z.lor (Z.shiftr s1 19) (int64 (Z.shiftl s2 2)));
       byte_of_Z (Z.shiftr s2 6);
       byte_of_Z (Z.lor (Z.shiftr s2 14) (int64 (Z.shiftl s3 7)));
       byte_of_Z (Z.shiftr s3 1);
       byte_of_Z (Z.shiftr s3 9);
       byte_of_Z (Z.lor (Z.shiftr s3 17) (int64 (Z.shiftl s4 4)));
       byte_of_Z (Z.shiftr s4 4);
       byte_of_Z (Z.shiftr s4 12);
       byte_of_Z (Z.lor (Z.shiftr s4 20) (int64 (Z.shiftl s5 1)));
       byte_of_Z (Z.shiftr s5 7);
       byte_of_Z (Z.lor (Z.shiftr s5 15) (int64 (Z.shiftl s6 6)));
       byte_of_Z (Z.shiftr s6 2);
       byte_of_Z (Z.shiftr s6 10);
       byte_of_Z (Z.lor (Z.shiftr s6 18) (int64 (Z.shiftl s7 3)));
       byte_of_Z (Z.shiftr s7 5);
       byte_of_Z (Z.shiftr s7 13);
       byte_of_Z (Z.shiftr s8 0);
       byte_of_Z (Z.shiftr s8 8);
       byte_of_Z (Z.lor (Z.shiftr s8 16) (int64 (Z.shiftl s9 5)));
       byte_of_Z (Z.shiftr s9 3);
       byte_of_Z (Z.shiftr s9 11);
       byte_of_Z (Z.lor (Z.shiftr s9 19) (int64 (Z.shiftl s10 2)));
       byte_of_Z (Z.shiftr s10 6);
       byte_of_Z (Z.lor (Z.shiftr s10 14) (int64 (Z.shiftl s11 7)));
       byte_of_Z (Z.shiftr s11 1);
       byte_of_Z (Z.shiftr s11 9);
       byte_of_Z (Z.shiftr s11 17)]
  | _ => []
  end.

Definition ScMulAdd (a b c : bytes) : bytes :=
  sc_pack (run_steps last_steps (run_steps reduce_steps (run_steps product_steps
    (product_limbs (load_scalar a) (load_scalar b) (load_scalar c))))).

Definition ScReduce (s : bytes) : bytes := sc_pack (run_steps last_steps (run_steps reduce_steps (load_wide s))).

(** ** The steps reduce modulo the order *)

(** The order of the base point. *)
Definition L : Z := 2 ^ 252 + 27742317777372353535851937790883648493.

(** The number that limbs stand for. *)
Fixpoint sc_eval (s : list Z) : Z :=
  match s with
  | [] => 0
  | x :: s => x + 2 ^ 21 * sc_eval s
  end.

Definition in_iv (x : Z) (i : Z * Z) : Prop := i.1 <= x <= i.2.
Definition in_ivs (s : list Z) (ivs : list (Z * Z)) : Prop := Forall2 in_iv s ivs.

Lemma sc_eval_bounds s ivs : in_ivs s ivs -> sc_eval (map fst ivs) <= sc_eval s <= sc_eval (map snd ivs).
Proof. induction 1 as [|x [lo hi] s ivs Hx Hs IH]; [done|]. unfold in_iv in Hx. cbn [map sc_eval fst snd] in *. lia. Qed.

Lemma sc_eval_alter f i s x :
  s !! i = Some x -> sc_eval (alter f i s) = sc_eval s + 2 ^ (21 * Z.of_nat i) * (f x - x).
Proof.
  revert i. induction s as [|y s IH]; intros [|i]; [done..| |].
  - intros H. apply (inj Some) in H as ->. change (alter f 0%nat (x :: s)) with (f x :: s). cbn [sc_eval]. change (2 ^ (21 * Z.of_nat 0)) with 1. lia.
  - intros H. change (alter f (S i) (y :: s)) with (y :: alter f i s). cbn [sc_eval]. rewrite (IH i H).
    replace (21 * Z.of_nat (S i)) with (21 + 21 * Z.of_nat i) by lia. rewrite Z.pow_add_r by lia. lia.
Qed.

Lemma in_ivs_lookup s ivs i lo hi : in_ivs s ivs -> ivs !! i = Some (lo, hi) -> exists x, s !! i = Some x /\ s !!! i = x /\ lo <= x <= hi.
Proof.
  intros Hs Hi. destruct (Forall2_lookup_r _ _ _ _ _ Hs Hi) as (x & Hx & Hb). exists x. split; [done|]. split; [by apply list_lookup_total_correct|done].
Qed.

Lemma in_ivs_alter s ivs i f j : in_ivs s ivs -> (forall x, s !! i = Some x -> in_iv (f x) j) -> in_ivs (alter f i s) (<[i := j]> ivs).
Proof.
  intros Hs. revert i. induction Hs as [|x k s ivs Hx Hs IH]; intros [|i] Hf; [constructor..| |].
  - constructor; [by apply Hf|done].
  - constructor; [done|]. by apply IH.
Qed.

(** ** Intervals of steps *)

Definition int64_iv (lo hi : Z) : option (Z * Z) := if (MinInt64 <=? lo) && (hi <=? MaxInt64) then Some (lo, hi) else None.

Definition iv_add (i : nat) (lo hi : Z) (ivs : list (Z * Z)) : option (list (Z * Z)) :=
  '(a, b) ← ivs !! i; j ← int64_iv (a + lo) (b + hi); Some (<[i := j]> ivs).

Lemma int64_iv_ok lo hi j x : int64_iv lo hi = Some j -> lo <= x <= hi -> int64 x = x /\ in_iv x j.
Proof. unfold int64_iv. destruct (_ && _) eqn:E; [|done]. intros [= <-] Hx. zbool. split; [apply int64_id; unfold_int; lia|done]. Qed.

Lemma iv_add_ok i lo hi ivs ivs' s x (f : Z -> Z) y :
  in_ivs s ivs -> iv_add i lo hi ivs = Some ivs' -> lo <= x <= hi -> (forall y, f y = int64 (y + x)) -> y = x * 2 ^ (21 * Z.of_nat i) ->
  in_ivs (alter f i s) ivs' /\ sc_eval (alter f i s) = sc_eval s + y.
Proof.
  intros Hs Hi Hx Hf ->. unfold iv_add in Hi. destruct (ivs !! i) as [[a b]|] eqn:Ei; [|done]. simpl in Hi.
  destruct (int64_iv (a + lo) (b + hi)) as [j|] eqn:Ej; [|done]. apply (inj Some) in Hi as <-.
  destruct (in_ivs_lookup _ _ _ _ _ Hs Ei) as (z & Hz & _ & Hb).
  destruct (int64_iv_ok _ _ _ (z + x) Ej ltac:(lia)) as [E Hj].
  split; [|rewrite (sc_eval_alter _ _ _ z), Hf, E by done; lia].
  apply in_ivs_alter; [done|]. intros z' Hz'. rewrite Hz in Hz'. apply (inj Some) in Hz' as <-. by rewrite Hf, E.
Qed.

Lemma add_to_ok i lo hi ivs ivs' s x :
  in_ivs s ivs -> iv_add i lo hi ivs = Some ivs' -> lo <= x <= hi ->
  in_ivs (add_to i x s) ivs' /\ sc_eval (add_to i x s) = sc_eval s + x * 2 ^ (21 * Z.of_nat i).
Proof. intros Hs Hi Hx. by apply (iv_add_ok i lo hi ivs ivs' s x). Qed.

Lemma sub_from_ok i lo hi ivs ivs' s x :
  in_ivs s ivs -> iv_add i lo hi ivs = Some ivs' -> lo <= - x <= hi ->
  in_ivs (sub_from i x s) ivs' /\ sc_eval (sub_from i x s) = sc_eval s - x * 2 ^ (21 * Z.of_nat i).
Proof. intros Hs Hi Hx. unfold sub_from. apply (iv_add_ok i lo hi ivs ivs' s (- x)); [exact Hs|exact Hi|exact Hx|done|lia]. Qed.

(** The limb from which is carried is left with a remainder that lies in [rem]. *)
Definition iv_carry (i : nat) (lo hi : Z) (rem : Z * Z) (ivs : list (Z * Z)) : option (list (Z * Z)) :=
  _ ← int64_iv (lo * 2 ^ 21) (hi * 2 ^ 21); ivs ← iv_add (i + 1) lo hi ivs; Some (<[i := rem]> ivs).

Definition iv_scaled (a b c : Z) : option (Z * Z) := int64_iv (Z.min (a * c) (b * c)) (Z.max (a * c) (b * c)).

Definition iv_fold (a b : Z) (i : nat) (c : Z) (ivs : list (Z * Z)) : option (list (Z * Z)) :=
  '(lo, hi) ← iv_scaled a b c; iv_add i lo hi ivs.

(** The wrapped products are those of the constants up to their sign. *)
Definition iv_step (st : sc_step) (ivs : list (Z * Z)) : option (list (Z * Z)) :=
  match st with
  | RoundCarry i =>
      '(a, b) ← ivs !! i; _ ← int64_iv (a + 2 ^ 20) (b + 2 ^ 20);
      iv_carry i (Z.shiftr (a + 2 ^ 20) 21) (Z.shiftr (b + 2 ^ 20) 21) (- 2 ^ 20, 2 ^ 20 - 1) ivs
  | FloorCarry i =>
      '(a, b) ← ivs !! i; iv_carry i (Z.shiftr a 21) (Z.shiftr b 21) (0, 2 ^ 21 - 1) ivs
  | Fold k =>
      if (k <? 12)%nat then None else
      '(a, b) ← ivs !! k;
      _ ← iv_scaled a b 997805; _ ← iv_scaled a b 683901;
      ivs ← iv_fold a b (k - 12) 666643 ivs;
      ivs ← iv_fold a b (k - 11) 470296 ivs;
      ivs ← iv_fold a b (k - 10) 654183 ivs;
      ivs ← iv_fold a b (k - 9) (- 997805) ivs;
      ivs ← iv_fold a b (k - 8) 136657 ivs;
      ivs ← iv_fold a b (k - 7) (- 683901) ivs;
      Some (<[k := (0, 0)]> ivs)
  end.

Definition iv_run (steps : list sc_step) (ivs : list (Z * Z)) : option (list (Z * Z)) :=
  foldl (fun o st => ivs ← o; iv_step st ivs) (Some ivs) steps.

(** What a step takes from the value: a multiple of the order. *)
Definition folded (st : sc_step) (s : list Z) : Z :=
  match st with Fold k => s !!! k * 2 ^ (21 * Z.of_nat (k - 12)) | _ => 0 end.

Lemma shiftr_mono a x b n : 0 <= n -> a <= x <= b -> Z.shiftr a n <= Z.shiftr x n <= Z.shiftr b n.
Proof. intros Hn H. rewrite !Z.shiftr_div_pow2 by done. split; apply Z.div_le_mono; lia. Qed.

Lemma carry_from_ok i lo hi rem ivs ivs' s c :
  in_ivs s ivs -> iv_carry i lo hi rem ivs = Some ivs' -> lo <= c <= hi ->
  (forall x, s !! i = Some x -> MinInt64 <= x - c * 2 ^ 21 <= MaxInt64 /\ in_iv (x - c * 2 ^ 21) rem) -> is_Some (s !! i) ->
  in_ivs (carry_from i c s) ivs' /\ sc_eval (carry_from i c s) = sc_eval s.
Proof.
  intros Hs Hi Hc Hrem [x Hx]. unfold iv_carry in Hi. destruct (int64_iv _ _) as [j|] eqn:Ej; [|done]. simpl in Hi.
  destruct (iv_add (i + 1) lo hi ivs) as [ivs1|] eqn:E1; [|done]. simpl in Hi. apply (inj Some) in Hi as <-.
  destruct (add_to_ok _ _ _ _ _ _ c Hs E1 Hc) as [H1 V1]. destruct (int64_iv_ok _ _ _ (c * 2 ^ 21) Ej ltac:(lia)) as [E _].
  assert (add_to (i + 1) c s !! i = Some x) as Hx' by (unfold add_to; rewrite list_lookup_alter_ne; [done|lia]).
  destruct (Hrem x Hx) as [Hb Hr]. unfold carry_from, sub_from. rewrite Z.shiftl_mul_pow2, E by lia. split.
  - apply in_ivs_alter; [done|]. intros y Hy. rewrite Hx' in Hy. apply (inj Some) in Hy as <-. rewrite int64_id; [done|unfold_int; lia].
  - rewrite (sc_eval_alter _ _ _ x), V1 by done. rewrite int64_id by (unfold_int; lia).
    replace (21 * Z.of_nat (i + 1)) with (21 + 21 * Z.of_nat i) by lia. rewrite Z.pow_add_r by lia. lia.
Qed.

Lemma scaled_bounds a x b c : a <= x <= b -> Z.min (a * c) (b * c) <= x * c <= Z.max (a * c) (b * c).
Proof. intros H. destruct (Z.le_ge_cases 0 c); nia. Qed.

Lemma iv_scaled_ok a b c j x : iv_scaled a b c = Some j -> a <= x <= b -> int64 (x * c) = x * c /\ in_iv (x * c) j.
Proof. intros Hj Hx. apply (int64_iv_ok _ _ _ _ Hj), scaled_bounds, Hx. Qed.

Lemma fold_add_ok a b i c ivs ivs' s x :
  in_ivs s ivs -> iv_fold a b i c ivs = Some ivs' -> a <= x <= b ->
  in_ivs (add_to i (int64 (x * c)) s) ivs' /\ sc_eval (add_to i (int64 (x * c)) s) = sc_eval s + x * c * 2 ^ (21 * Z.of_nat i).
Proof.
  intros Hs Hi Hx. unfold iv_fold in Hi. destruct (iv_scaled a b c) as [[lo hi]|] eqn:Ej; [|done]. simpl in Hi.
  destruct (iv_scaled_ok _ _ _ _ x Ej Hx) as [-> Hj]. by apply (add_to_ok i lo hi ivs).
Qed.

Lemma fold_sub_ok a b i c j ivs ivs' s x :
  in_ivs s ivs -> iv_scaled a b c = Some j -> iv_fold a b i (- c) ivs = Some ivs' -> a <= x <= b ->
  in_ivs (sub_from i (int64 (x * c)) s) ivs' /\ sc_eval (sub_from i (int64 (x * c)) s) = sc_eval s - x * c * 2 ^ (21 * Z.of_nat i).
Proof.
  intros Hs Hj Hi Hx. unfold iv_fold in Hi. destruct (iv_scaled a b (- c)) as [[lo hi]|] eqn:Ej; [|done]. simpl in Hi.
  destruct (iv_scaled_ok _ _ _ _ x Ej Hx) as [_ Hb]. destruct (iv_scaled_ok _ _ _ _ x Hj Hx) as [-> _].
  apply (sub_from_ok i lo hi ivs); [done|done|]. unfold in_iv in Hb. simpl in Hb. lia.
Qed.

Lemma insert_alter (s : list Z) i x : <[i := x]> s = alter (fun _ => x) i s.
Proof. revert i. induction s as [|y s IH]; intros [|i]; [done..|]. change (y :: <[i := x]> s = y :: alter (fun _ => x) i s). by rewrite IH. Qed.

(** What the constants of the code are. *)
Lemma order_limbs : 666643 + 470296 * 2 ^ 21 + 654183 * 2 ^ 42 - 997805 * 2 ^ 63 + 136657 * 2 ^ 84 - 683901 * 2 ^ 105 = 2 ^ 252 - L.
Proof. reflexivity. Qed.

Lemma fold_value v x (k : nat) : (12 <= k)%nat ->
  v + x * 666643 * 2 ^ (21 * Z.of_nat (k - 12)) + x * 470296 * 2 ^ (21 * Z.of_nat (k - 11)) + x * 654183 * 2 ^ (21 * Z.of_nat (k - 10)) -
    x * 997805 * 2 ^ (21 * Z.of_nat (k - 9)) + x * 136657 * 2 ^ (21 * Z.of_nat (k - 8)) - x * 683901 * 2 ^ (21 * Z.of_nat (k - 7)) +
    2 ^ (21 * Z.of_nat k) * (0 - x) = v - x * 2 ^ (21 * Z.of_nat (k - 12)) * L.
Proof.
  intros Hk. remember (k - 12)%nat as m eqn:Em.
  replace (k - 11)%nat with (1 + m)%nat by lia. replace (k - 10)%nat with (2 + m)%nat by lia. replace (k - 9)%nat with (3 + m)%nat by lia.
  replace (k - 8)%nat with (4 + m)%nat by lia. replace (k - 7)%nat with (5 + m)%nat by lia. replace k with (12 + m)%nat by lia.
  rewrite !Nat2Z.inj_add, !Z.mul_add_distr_l, !Z.pow_add_r by lia. set (q := 2 ^ (21 * Z.of_nat m)).
  replace L with (2 ^ 252 - (2 ^ 252 - L)) by ring. rewrite <- order_limbs.
  change (21 * Z.of_nat 1) with 21. change (21 * Z.of_nat 2) with 42. change (21 * Z.of_nat 3) with 63.
  change (21 * Z.of_nat 4) with 84. change (21 * Z.of_nat 5) with 105. change (21 * Z.of_nat 12) with 252. ring.
Qed.

Lemma iv_step_ok st ivs ivs' s :
  in_ivs s ivs -> iv_step st ivs = Some ivs' -> in_ivs (run_step st s) ivs' /\ sc_eval (run_step st s) = sc_eval s - folded st s * L.
Proof.
  intros Hs. destruct st as [i|i|k]; cbn [iv_step run_step folded].
  - destruct (ivs !! i) as [[a b]|] eqn:Ei; [|done]. simpl. destruct (int64_iv _ _) as [j|] eqn:Ej; [|done]. simpl. intros Hc.
    destruct (in_ivs_lookup _ _ _ _ _ Hs Ei) as (x & Hx & -> & Hb). change (Z.shiftl 1 20) with (2 ^ 20).
    destruct (int64_iv_ok _ _ _ (x + 2 ^ 20) Ej ltac:(lia)) as [-> _].
    rewrite Z.mul_0_l, Z.sub_0_r. apply (carry_from_ok _ _ _ _ _ _ _ _ Hs Hc); [apply shiftr_mono; lia| |by exists x].
    intros y Hy. rewrite Hx in Hy. apply (inj Some) in Hy as <-. pose proof (shiftr_bounds (x + 2 ^ 20) 21 ltac:(lia)).
    unfold in_iv; unfold_int; cbn [fst snd]. lia.
  - destruct (ivs !! i) as [[a b]|] eqn:Ei; [|done]. simpl. intros Hc.
    destruct (in_ivs_lookup _ _ _ _ _ Hs Ei) as (x & Hx & -> & Hb).
    rewrite Z.mul_0_l, Z.sub_0_r. apply (carry_from_ok _ _ _ _ _ _ _ _ Hs Hc); [apply shiftr_mono; lia| |by exists x].
    intros y Hy. rewrite Hx in Hy. apply (inj Some) in Hy as <-. pose proof (shiftr_bounds x 21 ltac:(lia)).
    unfold in_iv; unfold_int; cbn [fst snd]. lia.
  - destruct (k <? 12)%nat eqn:Hk; [done|]. apply Nat.ltb_ge in Hk. destruct (ivs !! k) as [[a b]|] eqn:Ei; [|done]. simpl.
    destruct (in_ivs_lookup _ _ _ _ _ Hs Ei) as (x & Hx & -> & Hb).
    destruct (iv_scaled a b 997805) as [j|] eqn:Ej; [|done]. destruct (iv_scaled a b 683901) as [j'|] eqn:Ej'; [|done]. simpl.
    destruct (iv_fold a b _ 666643 ivs) as [i0|] eqn:E0; [|done]. simpl. destruct (iv_fold a b _ 470296 i0) as [i1|] eqn:E1; [|done]. simpl.
    destruct (iv_fold a b _ 654183 i1) as [i2|] eqn:E2; [|done]. simpl. destruct (iv_fold a b _ (-997805) i2) as [i3|] eqn:E3; [|done]. simpl.
    destruct (iv_fold a b _ 136657 i3) as [i4|] eqn:E4; [|done]. simpl. destruct (iv_fold a b _ (-683901) i4) as [i5|] eqn:E5; [|done]. simpl.
    intros H. apply (inj Some) in H as <-.
    destruct (fold_add_ok _ _ _ _ _ _ _ x Hs E0 Hb) as [H0 V0]. destruct (fold_add_ok _ _ _ _ _ _ _ x H0 E1 Hb) as [H1 V1].
    destruct (fold_add_ok _ _ _ _ _ _ _ x H1 E2 Hb) as [H2 V2]. destruct (fold_sub_ok _ _ _ _ _ _ _ _ x H2 Ej E3 Hb) as [H3 V3].
    destruct (fold_add_ok _ _ _ _ _ _ _ x H3 E4 Hb) as [H4 V4]. destruct (fold_sub_ok _ _ _ _ _ _ _ _ x H4 Ej' E5 Hb) as [H5 V5].
    set (s5 := sub_from (k - 7) _ _) in *.
    assert (s5 !! k = Some x) as Hk5.
    { unfold s5, add_to, sub_from. rewrite !list_lookup_alter_ne by lia. done. }
    rewrite (insert_alter s5 k 0). split; [apply in_ivs_alter; [done|by intros]|].
    rewrite (sc_eval_alter _ _ _ x), V5, V4, V3, V2, V1, V0 by done.
    apply fold_value, Hk.
Qed.

Lemma run_steps_app a b s : run_steps (a ++ b) s = run_steps b (run_steps a s).
Proof. apply foldl_app. Qed.

Lemma run_steps_cons st steps s : run_steps (st :: steps) s = run_steps steps (run_step st s).
Proof. reflexivity. Qed.

Lemma iv_run_cons st steps ivs ivs' :
  iv_run (st :: steps) ivs = Some ivs' -> exists ivs1, iv_step st ivs = Some ivs1 /\ iv_run steps ivs1 = Some ivs'.
Proof.
  unfold iv_run. cbn [foldl mbind option_bind]. destruct (iv_step st ivs) as [ivs1|]; [by exists ivs1|].
  intros H. exfalso. revert H. by induction steps.
Qed.

(** Soundness: nothing wraps, the limbs lie in the intervals that are computed, and the value is the same modulo the order. *)
Lemma iv_run_ok steps ivs ivs' s :
  in_ivs s ivs -> iv_run steps ivs = Some ivs' -> in_ivs (run_steps steps s) ivs' /\ (L | sc_eval s - sc_eval (run_steps steps s)).
Proof.
  revert ivs s. induction steps as [|st steps IH]; intros ivs s Hs Hr.
  - apply (inj Some) in Hr as <-. split; [done|]. exists 0. simpl. lia.
  - apply iv_run_cons in Hr as (ivs1 & E1 & Hr). destruct (iv_step_ok st ivs ivs1 s Hs E1) as [H1 V1].
    destruct (IH _ _ H1 Hr) as [H2 [q Hq]]. split; [done|]. exists (q + folded st s). rewrite run_steps_cons.
    rewrite Z.mul_add_distr_r, <- Hq, V1. ring.
Qed.

(** Carries keep the value itself. *)
Definition is_carry (st : sc_step) : bool := match st with Fold _ => false | _ => true end.

Lemma iv_run_carries steps ivs ivs' s :
  in_ivs s ivs -> iv_run steps ivs = Some ivs' -> forallb is_carry steps = true -> sc_eval (run_steps steps s) = sc_eval s.
Proof.
  revert ivs s. induction steps as [|st steps IH]; intros ivs s Hs Hr Hc; [done|].
  apply iv_run_cons in Hr as (ivs1 & E1 & Hr). destruct (iv_step_ok st ivs ivs1 s Hs E1) as [H1 V1].
  cbn [forallb] in Hc. apply andb_true_iff in Hc as [Hst Hc]. rewrite run_steps_cons.
  rewrite (IH _ _ H1 Hr Hc), V1. destruct st; [simpl; lia..|done].
Qed.

(** ** The last steps *)

Definition digits (n : nat) : list (Z * Z) := replicate n (0, 2 ^ 21 - 1).
Definition zeros (n : nat) : list (Z * Z) := replicate n (0, 0).

(** Twelve digits and a borrow. *)
Definition borrowed : list (Z * Z) := digits 12 ++ (-1, 0) :: zeros 11.

(** The carries before and after the last fold. *)
Definition carries (n : nat) : list sc_step := map FloorCarry (seq 0 n).

Lemma last_steps_split : last_steps = carries 12 ++ Fold 12 :: carries 11.
Proof. reflexivity. Qed.

Lemma carries_carry n : forallb is_carry (carries n) = true.
Proof. apply forallb_forall. intros st [i [<- _]]%in_map_iff. done. Qed.

Definition last_ready (ivs : list (Z * Z)) : bool :=
  bool_decide (iv_run (carries 12) ivs = Some borrowed) && (- L <=? sc_eval (map fst ivs)) && (sc_eval (map snd ivs) <? L).

Lemma in_ivs_zeros s n : in_ivs s (zeros n) -> s = replicate n 0.
Proof.
  revert s. induction n as [|n IH]; intros s H; [by apply Forall2_nil_inv_r in H|].
  apply Forall2_cons_inv_r in H as (x & s' & [Hl Hh] & H & ->). cbn [fst snd] in Hl, Hh. rewrite (IH s' H). cbn [replicate]. assert (x = 0) as -> by lia. done.
Qed.

Lemma sc_eval_app s t : sc_eval (s ++ t) = sc_eval s + 2 ^ (21 * Z.of_nat (length s)) * sc_eval t.
Proof.
  induction s as [|x s IH]; cbn [app sc_eval length]; [change (2 ^ (21 * Z.of_nat 0)) with 1; lia|].
  rewrite IH, Nat2Z.inj_succ. replace (21 * Z.succ (Z.of_nat (length s))) with (21 + 21 * Z.of_nat (length s)) by lia. rewrite Z.pow_add_r by lia. lia.
Qed.

Lemma sc_eval_zeros n : sc_eval (replicate n 0) = 0.
Proof. induction n as [|n IH]; [done|]. cbn [replicate sc_eval]. lia. Qed.

Lemma digits_eval s n : in_ivs s (digits n) -> 0 <= sc_eval s < 2 ^ (21 * Z.of_nat n).
Proof.
  revert s. induction n as [|n IH]; intros s H; [by apply Forall2_nil_inv_r in H as ->|].
  apply Forall2_cons_inv_r in H as (x & s' & [Hl Hh] & H & ->). cbn [fst snd] in Hl, Hh. specialize (IH s' H). cbn [sc_eval].
  replace (21 * Z.of_nat (S n)) with (21 + 21 * Z.of_nat n) by lia. rewrite Z.pow_add_r by lia. lia.
Qed.

Definition last_steps_out : list (Z * Z) := digits 11 ++ (-1, 2 ^ 21) :: zeros 12.

Lemma last_steps_computed : iv_run (Fold 12 :: carries 11) borrowed = Some last_steps_out.
Proof. vm_compute. reflexivity. Qed.

(** The value of the limbs of [borrowed] is in the range of a borrow, and folding the borrow brings it into that of the order. *)
Lemma borrow_folded s v :
  in_ivs s borrowed -> sc_eval s = v -> - L <= v < L -> sc_eval (run_step (Fold 12) s) = v mod L.
Proof.
  intros Hs Hv Hb. destruct (iv_step (Fold 12) borrowed) as [ivs'|] eqn:E; [|by vm_compute in E].
  destruct (iv_step_ok _ _ _ _ Hs E) as [_ ->]. unfold folded. change (2 ^ (21 * Z.of_nat (12 - 12))) with 1. rewrite Z.mul_1_r, Hv.
  apply Forall2_app_inv_r in Hs as (d & t & Hd & Ht & ->). apply Forall2_cons_inv_r in Ht as (b & z & Hbb & Hz & ->).
  pose proof (Forall2_length _ _ _ Hd) as Hl. change (length (digits 12)) with 12%nat in Hl. apply in_ivs_zeros in Hz as ->.
  rewrite list_lookup_total_middle by lia. apply digits_eval in Hd. change (21 * Z.of_nat 12) with 252 in Hd.
  rewrite sc_eval_app, Hl in Hv. cbn [sc_eval] in Hv. rewrite sc_eval_zeros in Hv. change (21 * Z.of_nat 12) with 252 in Hv.
  unfold in_iv in Hbb. cbn [fst snd] in Hbb. assert (b = -1 \/ b = 0) as [-> | ->] by lia.
  - apply (Zmod_unique _ _ (-1)); [|lia]. unfold L in *. lia.
  - apply (Zmod_unique _ _ 0); [|lia]. unfold L in *. lia.
Qed.

(** The last limb may be [2 ^ 21], because the order is more than [2 ^ 252]. *)
Lemma last_steps_ok s ivs :
  in_ivs s ivs -> last_ready ivs = true ->
  exists d, run_steps last_steps s = d ++ replicate 12 0 /\ in_ivs d (digits 11 ++ [(0, 2 ^ 21)]) /\ sc_eval d = sc_eval s mod L.
Proof.
  intros Hs Hr. unfold last_ready in Hr. rewrite !andb_true_iff in Hr. destruct Hr as ((Hr & Hlo) & Hhi).
  apply bool_decide_eq_true in Hr. zbool. pose proof (sc_eval_bounds _ _ Hs) as Hb.
  rewrite last_steps_split, run_steps_app.
  destruct (iv_run_ok _ _ _ _ Hs Hr) as [H2 _]. pose proof (iv_run_carries _ _ _ _ Hs Hr (carries_carry 12)) as V2.
  set (s2 := run_steps (carries 12) s) in *. clearbody s2. pose proof last_steps_computed as Hc.
  destruct (iv_run_ok _ _ _ _ H2 Hc) as [H3 _].
  assert (sc_eval (run_steps (Fold 12 :: carries 11) s2) = sc_eval s mod L) as V3.
  { apply iv_run_cons in Hc as (i1 & E1 & Hc). destruct (iv_step_ok _ _ _ _ H2 E1) as [H4 _].
    rewrite run_steps_cons, (iv_run_carries _ _ _ _ H4 Hc (carries_carry 11)). apply (borrow_folded _ _ H2 V2). lia. }
  set (s3 := run_steps _ s2) in *. clearbody s3.
  apply Forall2_app_inv_r in H3 as (d & t & Hd & Ht & ->). apply Forall2_cons_inv_r in Ht as (b & z & Hbb & Hz & ->).
  apply in_ivs_zeros in Hz as ->. pose proof (Forall2_length _ _ _ Hd) as Hl. change (length (digits 11)) with 11%nat in Hl.
  rewrite sc_eval_app, Hl in V3. cbn [sc_eval] in V3. rewrite sc_eval_zeros in V3. change (21 * Z.of_nat 11) with 231 in V3.
  pose proof (digits_eval _ _ Hd) as Bd. change (21 * Z.of_nat 11) with 231 in Bd.
  assert (0 <= sc_eval s mod L < L) as Hm by (apply Z.mod_pos_bound; unfold L; lia).
  exists (d ++ [b]). split; [by rewrite <- app_assoc|]. split.
  - apply Forall2_app; [done|]. constructor; [|constructor].
    unfold in_iv in *. cbn [fst snd] in *. set (m := sc_eval s mod L) in *. clearbody m. unfold L in Hm. lia.
  - rewrite sc_eval_app, Hl. cbn [sc_eval]. change (21 * Z.of_nat 11) with 231. rewrite <- V3. ring.
Qed.

(** ** Writing and reading *)

(** The limbs of a list in intervals. *)
Ltac limbs H := let x := fresh "s" in let d := fresh "d" in let B := fresh "B" in apply Forall2_cons_inv_r in H as (x & d & B & H & ->).

Lemma sc_pack_ok d t : in_ivs d (digits 11 ++ [(0, 2 ^ 21)]) -> sc_pack (d ++ t) = le_put 32 (sc_eval d).
Proof.
  unfold digits. cbn [replicate app]. intros H. do 12 limbs H. apply Forall2_nil_inv_r in H as ->. unfold in_iv in *. cbn [fst snd] in *.
  match goal with |- context [sc_eval [?a0; ?a1; ?a2; ?a3; ?a4; ?a5; ?a6; ?a7; ?a8; ?a9; ?a10; ?a11]] =>
    replace (sc_eval _) with (horner [(21, a0); (21, a1); (21, a2); (21, a3); (21, a4); (21, a5); (21, a6); (21, a7); (21, a8); (21, a9); (21, a10); (25, a11)])
      by (cbn [horner sc_eval]; ring) end.
  repeat match goal with B : 0 <= ?x <= 2 ^ 21 - 1 |- _ => assert (0 <= x < 2 ^ 21) by lia; clear B end.
  match goal with B : 0 <= ?x <= 2 ^ 21 |- _ => assert (0 <= x < 2 ^ 25) by lia; clear B end.
  rewrite le_put_bytes. set (l := [(21, _); _; _; _; _; _; _; _; _; _; _; _]).
  assert (Forall digit l) as Hl by (repeat (apply Forall_cons_2; [split; simpl; lia|]); apply Forall_nil_2).
  unfold sc_pack. cbn [seq map app]. repeat (apply cons_eq; [packed_byte|]). reflexivity.
Qed.

(** The limbs of a number: [n] digits and what is above them. *)
Definition chunks (n : nat) (N : Z) : list Z := map (fun i => (N / 2 ^ (21 * Z.of_nat i)) mod 2 ^ 21) (seq 0 n) ++ [N / 2 ^ (21 * Z.of_nat n)].

Lemma chunks_eval n N : sc_eval (chunks n N) = N.
Proof.
  revert N. induction n as [|n IH]; intros N; [unfold chunks; cbn [seq map app sc_eval]; change (2 ^ (21 * Z.of_nat 0)) with 1; rewrite Z.div_1_r; lia|].
  transitivity (N mod 2 ^ 21 + 2 ^ 21 * (N / 2 ^ 21)); [|pose proof (Z.div_mod N (2 ^ 21) ltac:(lia)); lia].
  rewrite <- (IH (N / 2 ^ 21)). unfold chunks. cbn [seq map app sc_eval]. change (2 ^ (21 * Z.of_nat 0)) with 1. rewrite Z.div_1_r. do 3 f_equal.
  assert (forall i, N / 2 ^ 21 / 2 ^ (21 * Z.of_nat i) = N / 2 ^ (21 * Z.of_nat (S i))) as E.
  { intros i. rewrite Z.div_div by lia. rewrite <- Z.pow_add_r by lia. do 2 f_equal. lia. }
  rewrite E, <- seq_shift, map_map. f_equal. apply map_ext. intros i. by rewrite E.
Qed.

Lemma chunks_in n N hi : 0 <= N < 2 ^ (21 * Z.of_nat n) * (hi + 1) -> in_ivs (chunks n N) (digits n ++ [(0, hi)]).
Proof.
  intros HN. unfold chunks. apply Forall2_app.
  - apply Forall2_same_length_lookup. unfold digits. rewrite length_map, length_seq, length_replicate. split; [done|].
    intros i x j Hx [-> _]%lookup_replicate. apply list_lookup_fmap_Some in Hx as (k & -> & _). unfold in_iv. cbn [fst snd].
    pose proof (Z.mod_pos_bound (N / 2 ^ (21 * Z.of_nat k)) (2 ^ 21) ltac:(lia)). lia.
  - constructor; [|constructor]. unfold in_iv. cbn [fst snd].
    assert (0 < 2 ^ (21 * Z.of_nat n)) as Hp by (apply Z.pow_pos_nonneg; lia).
    pose proof (Z.div_pos N _ (proj1 HN) Hp). pose proof (Z.div_lt_upper_bound N _ _ Hp (proj2 HN)). lia.
Qed.

Lemma le_get_at (b : bytes) i : (i <= length b)%nat -> le_get b / 2 ^ (8 * Z.of_nat i) = le_get (drop i b).
Proof.
  intros Hi. rewrite <- (take_drop i b) at 1. rewrite le_get_app, length_take, Nat.min_l by done.
  pose proof (le_get_bound (take i b)) as Hb. rewrite length_take, Nat.min_l in Hb by done.
  change 256 with (2 ^ 8) in *. rewrite <- Z.pow_mul_r in * by lia.
  rewrite Z.mul_comm, Z.div_add, Z.div_small by lia. lia.
Qed.

Lemma byte_step (b : bytes) i : (i < length b)%nat -> le_get b / 2 ^ (8 * Z.of_nat i) = byte_at b i + 2 ^ 8 * (le_get b / 2 ^ (8 * Z.of_nat (i + 1))).
Proof.
  intros Hi. rewrite !le_get_at by lia. destruct (lookup_lt_is_Some_2 b i Hi) as [x Hx]. rewrite (drop_S b x i Hx).
  unfold byte_at. by rewrite (nth_lookup_Some b i _ x Hx), Nat.add_1_r.
Qed.

Lemma load3_get (b : bytes) i : (i + 3 <= length b)%nat -> load3 b i = (le_get b / 2 ^ (8 * Z.of_nat i)) mod 2 ^ 24.
Proof.
  intros Hi. rewrite load3_val. apply (Zmod_unique _ _ (le_get b / 2 ^ (8 * Z.of_nat (i + 1 + 1 + 1)))).
  - pose proof (byte_at_range b i). pose proof (byte_at_range b (i + 1)). pose proof (byte_at_range b (i + 2)). lia.
  - rewrite (byte_step b i), (byte_step b (i + 1)), (byte_step b (i + 1 + 1)) by lia. replace (i + 2)%nat with (i + 1 + 1)%nat by lia. ring.
Qed.

Lemma load4_get (b : bytes) i : (i + 4 <= length b)%nat -> load4 b i = (le_get b / 2 ^ (8 * Z.of_nat i)) mod 2 ^ 32.
Proof.
  intros Hi. rewrite load4_val. apply (Zmod_unique _ _ (le_get b / 2 ^ (8 * Z.of_nat (i + 1 + 1 + 1 + 1)))).
  - pose proof (byte_at_range b i). pose proof (byte_at_range b (i + 1)). pose proof (byte_at_range b (i + 2)). pose proof (byte_at_range b (i + 3)). lia.
  - rewrite (byte_step b i), (byte_step b (i + 1)), (byte_step b (i + 1 + 1)), (byte_step b (i + 1 + 1 + 1)) by lia.
    replace (i + 2)%nat with (i + 1 + 1)%nat by lia. replace (i + 3)%nat with (i + 1 + 1 + 1)%nat by lia. ring.
Qed.

(** Digits of a window of bits. *)
Lemma masked_window N o w k m : 0 <= o -> 0 <= k -> k + 21 <= w -> m = o + k ->
  Z.land 2097151 (Z.shiftr ((N / 2 ^ o) mod 2 ^ w) k) = (N / 2 ^ m) mod 2 ^ 21.
Proof.
  intros Ho Hk Hw ->. change 2097151 with (Z.ones 21). rewrite Z.land_comm, Z.land_ones, <- !Z.shiftr_div_pow2 by lia.
  apply Z.bits_inj'. intros j Hj. destruct (Z.lt_ge_cases j 21); [|by rewrite !Z.mod_pow2_bits_high by lia].
  rewrite !Z.mod_pow2_bits_low, Z.shiftr_spec, Z.mod_pow2_bits_low, !Z.shiftr_spec by lia. f_equal. lia.
Qed.

Lemma unmasked_window N o k m w : 0 <= N < 2 ^ (o + w) -> 0 <= o -> 0 <= k -> m = o + k -> 0 <= w -> Z.shiftr ((N / 2 ^ o) mod 2 ^ w) k = N / 2 ^ m.
Proof.
  intros HN Ho Hk -> Hw. assert (0 < 2 ^ o) by (apply Z.pow_pos_nonneg; lia). rewrite Z.mod_small.
  - rewrite Z.shiftr_div_pow2, Z.div_div, <- Z.pow_add_r by lia. done.
  - split; [apply Z.div_pos; lia|]. apply Z.div_lt_upper_bound; [lia|]. rewrite <- Z.pow_add_r by lia. apply HN.
Qed.

Lemma shiftr_0 x : x = Z.shiftr x 0.
Proof. done. Qed.

Ltac window :=
  first [rewrite load3_get by lia | rewrite load4_get by lia];
  lazymatch goal with |- Z.land _ (Z.modulo _ _) = _ => rewrite (shiftr_0 (Z.modulo _ _)) | _ => idtac end;
  first [apply masked_window; lia | apply unmasked_window; [done|lia..]].

Lemma load_scalar_chunks a : length a = 32%nat -> load_scalar a = chunks 11 (le_get a).
Proof.
  intros Ha. pose proof (le_get_bound a) as HN. rewrite Ha in HN. change (256 ^ Z.of_nat 32) with (2 ^ 256) in HN.
  unfold load_scalar, chunks. cbn [seq map app]. repeat (apply (f_equal2 (@cons Z)); [window|]). done.
Qed.

Lemma load_wide_chunks a : length a = 64%nat -> load_wide a = chunks 23 (le_get a).
Proof.
  intros Ha. pose proof (le_get_bound a) as HN. rewrite Ha in HN. change (256 ^ Z.of_nat 64) with (2 ^ 512) in HN.
  unfold load_wide, chunks. cbn [seq map app]. repeat (apply (f_equal2 (@cons Z)); [window|]). done.
Qed.
(** ** The routines *)

(** The intervals of the limbs of a product. *)
Definition scalar_top : list (Z * Z) := digits 11 ++ [(0, 2 ^ 25 - 1)].

Definition product_ivs : list (Z * Z) :=
  let m := replicate 11 (2 ^ 21 - 1) ++ [2 ^ 25 - 1] in map (fun x => (- x, x)) (product_limbs m m m).

Lemma iv_sym x C lo hi : - C <= x <= C -> (C <=? MaxInt64) && (lo <=? - C) && (C <=? hi) = true -> in_iv (int64 x) (lo, hi).
Proof. intros H HC. zbool. unfold in_iv. rewrite int64_id by (unfold_int; lia). simpl. lia. Qed.

Lemma product_limbs_ok a b c :
  in_ivs a scalar_top -> in_ivs b scalar_top -> in_ivs c scalar_top ->
  in_ivs (product_limbs a b c) product_ivs /\ sc_eval (product_limbs a b c) = sc_eval a * sc_eval b + sc_eval c.
Proof.
  unfold scalar_top, digits. cbn [replicate app]. intros Ha Hb Hc.
  do 12 limbs Ha. apply Forall2_nil_inv_r in Ha as ->. do 12 limbs Hb. apply Forall2_nil_inv_r in Hb as ->.
  do 12 limbs Hc. apply Forall2_nil_inv_r in Hc as ->. unfold in_iv in *. cbn [fst snd] in *.
  repeat match goal with B : 0 <= ?x <= ?h |- _ => assert (- h <= x <= h) by lia; clear B end.
  unfold product_limbs. split.
  - let i := eval vm_compute in product_ivs in change product_ivs with i.
    repeat (apply Forall2_cons_2; [first [eapply iv_sym; [zbound|vm_compute; reflexivity] | unfold in_iv; simpl; lia]|]). apply Forall2_nil_2.
  - no_wrap. cbn [sc_eval]. ring.
Qed.

Definition ready_after (steps : list sc_step) (ivs : list (Z * Z)) : bool :=
  match iv_run steps ivs with Some ivs => last_ready ivs | None => false end.

Lemma reduced_ok steps ivs s :
  in_ivs s ivs -> ready_after steps ivs = true -> sc_pack (run_steps last_steps (run_steps steps s)) = le_put 32 (sc_eval s mod L).
Proof.
  intros Hs Hr. unfold ready_after in Hr. destruct (iv_run steps ivs) as [ivs'|] eqn:E; [|done].
  destruct (iv_run_ok _ _ _ _ Hs E) as [H1 [q Hq]]. destruct (last_steps_ok _ _ H1 Hr) as (d & -> & Hd & Hv).
  rewrite sc_pack_ok by done. f_equal. rewrite Hv. replace (sc_eval s) with (sc_eval (run_steps steps s) + q * L) by lia.
  by rewrite Z_mod_plus_full.
Qed.

Lemma product_ready : ready_after (product_steps ++ reduce_steps) product_ivs = true.
Proof. vm_compute. reflexivity. Qed.

Lemma wide_ready : ready_after reduce_steps (digits 23 ++ [(0, 2 ^ 29 - 1)]) = true.
Proof. vm_compute. reflexivity. Qed.

Lemma load_scalar_ok a : length a = 32%nat -> in_ivs (load_scalar a) scalar_top /\ sc_eval (load_scalar a) = le_get a.
Proof.
  intros Ha. rewrite (load_scalar_chunks a Ha). split; [|apply chunks_eval]. apply chunks_in.
  pose proof (le_get_bound a) as HN. rewrite Ha in HN. exact HN.
Qed.

Lemma ScMulAdd_ok a b c :
  length a = 32%nat -> length b = 32%nat -> length c = 32%nat -> ScMulAdd a b c = le_put 32 ((le_get a * le_get b + le_get c) mod L).
Proof.
  intros Ha Hb Hc. destruct (load_scalar_ok a Ha) as [Ia Va]. destruct (load_scalar_ok b Hb) as [Ib Vb]. destruct (load_scalar_ok c Hc) as [Ic Vc].
  destruct (product_limbs_ok _ _ _ Ia Ib Ic) as [Hi Hv]. unfold ScMulAdd. rewrite <- (run_steps_app product_steps reduce_steps).
  rewrite (reduced_ok _ _ _ Hi product_ready), Hv, Va, Vb, Vc. done.
Qed.

Lemma ScReduce_ok s : length s = 64%nat -> ScReduce s = le_put 32 (le_get s mod L).
Proof.
  intros Hs. pose proof (le_get_bound s) as HN. rewrite Hs in HN. unfold ScReduce. rewrite (load_wide_chunks s Hs).
  by rewrite (reduced_ok _ _ _ (chunks_in 23 _ (2 ^ 29 - 1) HN) wide_ready), chunks_eval.
Qed.
