(* ===== verification/ScalarMult.v ===== *)
(** * Scalar multiplication: [crypto/ed25519/internal/edwards25519/edwards25519.go]

    [GeDoubleScalarMultVartime] and [GeScalarMultBase], with the recodings of scalars into
    signed digits and the selection of table entries without branches.  Arrays of [int8]
    are lists, with wrapped elements; a result [None] is an index out of range.

    Then the proof that the digits into which [slide] and [recode] turn a scalar have its
    value, and that the loops over the digits add up the multiples of the points. *)

From Stdlib Require Import ZArith Lia.
From S2P Require Import Prelude FieldElement GroupElement EdTable FieldBytes Fp Edwards TableProof Scalar.

Local Open Scope Z_scope.

Definition int8 (z : Z) : Z := (z + 128) mod 256 - 128.

(** ** Sliding windows *)

(** The elements of [r] at first: [r[i] = int8(1 & (a[i>>3] >> uint(i&7)))] *)
Definition scalar_bits (a : bytes) : list Z :=
  map (fun i => Z.land 1 (Z.shiftr (byte_at a (i / 8)) (Z.of_nat (i mod 8)))) (seq 0 256).

(** [for k := i + b; k < 256; k++ { if r[k] == 0 { r[k] = 1; break }; r[k] = 0 }], with [n] the number of iterations left. *)
Fixpoint slide_carry (n k : nat) (r : list Z) : list Z :=
  match n with
  | O => r
  | S n => if r !!! k =? 0 then <[k := 1]> r else slide_carry n (k + 1) (<[k := 0]> r)
  end.

(** The inner loop [for b := 1; b <= 6 && i+b < size; b++], with [n] the number of values of [b] left. *)
Fixpoint slide_window (size n b i : nat) (r : list Z) : list Z :=
  match n with
  | O => r
  | S n =>
      if (i + b <? size)%nat then
        if r !!! (i + b)%nat =? 0 then slide_window size n (b + 1) i r
        else
          let x := int8 (Z.shiftl (r !!! (i + b)%nat) (Z.of_nat b)) in
          if int8 (r !!! i + x) <=? 15 then
            slide_window size n (b + 1) i (<[(i + b)%nat := 0]> (<[i := int8 (r !!! i + x)]> r))
          else if -15 <=? int8 (r !!! i - x) then
            slide_window size n (b + 1) i (slide_carry (size - (i + b)) (i + b) (<[i := int8 (r !!! i - x)]> r))
          else r
      else r
  end.

Definition slide_at (size : nat) (r : list Z) (i : nat) : list Z :=
  if r !!! i =? 0 then r else slide_window size 6 1 i r.

Definition slide (a : bytes) : list Z := foldl (slide_at 256) (scalar_bits a) (seq 0 256).

(** ** The sum of a multiple of a point and a multiple of the base point *)

(** [Ai]: [A, 3A, ..., 15A]; the loop with [n] iterations left from the entry [last]. *)
Fixpoint odd_multiples (n : nat) (A2 : ExtendedGroupElement) (last : CachedGroupElement) : list CachedGroupElement :=
  match n with
  | O => [last]
  | S n => last :: odd_multiples n A2 (Extended_ToCached (Completed_ToExtended (geAdd A2 last)))
  end.

(** The number of digits from the first position at which a digit is not 0: [i + 1] after the loop that searches it. *)
Fixpoint top_digit (n : nat) (aSlide bSlide : list Z) : nat :=
  match n with
  | O => O
  | S i => if negb (aSlide !!! i =? 0) || negb (bSlide !!! i =? 0) then S i else top_digit i aSlide bSlide
  end.

Definition add_digit_a (Ai : list CachedGroupElement) (x : Z) (t : CompletedGroupElement) : option CompletedGroupElement :=
  if 0 <? x then q ← Ai !! Z.to_nat (Z.quot x 2); Some (geAdd (Completed_ToExtended t) q)
  else if x <? 0 then q ← Ai !! Z.to_nat (Z.quot (int8 (- x)) 2); Some (geSub (Completed_ToExtended t) q)
  else Some t.

Definition add_digit_b (x : Z) (t : CompletedGroupElement) : option CompletedGroupElement :=
  if 0 <? x then q ← bi !! Z.to_nat (Z.quot x 2); Some (geMixedAdd (Completed_ToExtended t) q)
  else if x <? 0 then q ← bi !! Z.to_nat (Z.quot (int8 (- x)) 2); Some (geMixedSub (Completed_ToExtended t) q)
  else Some t.

(** [for ; i >= 0; i--], from [i = n - 1]. *)
Fixpoint double_and_add (n : nat) (Ai : list CachedGroupElement) (aSlide bSlide : list Z) (r : ProjectiveGroupElement) :
  option ProjectiveGroupElement :=
  match n with
  | O => Some r
  | S i =>
      let t := Projective_Double r in
      t ← add_digit_a Ai (aSlide !!! i) t;
      t ← add_digit_b (bSlide !!! i) t;
      double_and_add i Ai aSlide bSlide (Completed_ToProjective t)
  end.

Definition GeDoubleScalarMultVartime (a : bytes) (A : ExtendedGroupElement) (b : bytes) : option ProjectiveGroupElement :=
  let aSlide := slide a in
  let bSlide := slide b in
  let A2 := Completed_ToExtended (Extended_Double A) in
  let Ai := odd_multiples 7 A2 (Extended_ToCached A) in
  double_and_add (top_digit 256 aSlide bSlide) Ai aSlide bSlide Projective_Zero.

(** ** Multiples of the base point *)

Definition equal (b c : Z) : Z :=
  let x := uint32 (Z.lxor b c) in
  let x := uint32 (x - 1) in
  int32 (Z.shiftr x 31).

Definition negative (b : Z) : Z := Z.land (Z.shiftr b 31) 1.

Definition PreComputedGroupElementCMove (t u : PreComputedGroupElement) (b : Z) : PreComputedGroupElement :=
  mkPreComputed (FeCMove (pc_yPlusX t) (pc_yPlusX u) b) (FeCMove (pc_yMinusX t) (pc_yMinusX u) b) (FeCMove (pc_xy2d t) (pc_xy2d u) b).

(** [for i := int32(0); i < 8; i++ { PreComputedGroupElementCMove(t, &base[pos][i], equal(bAbs, i+1)) }], over the entries of a row. *)
Fixpoint select_row (row : list PreComputedGroupElement) (i : Z) (bAbs : Z) (t : PreComputedGroupElement) : PreComputedGroupElement :=
  match row with
  | [] => t
  | e :: row => select_row row (i + 1) bAbs (PreComputedGroupElementCMove t e (equal bAbs (i + 1)))
  end.

Definition selectPoint (pos : nat) (b : Z) : option PreComputedGroupElement :=
  let bNegative := negative b in
  let bAbs := int32 (b - int32 (Z.shiftl (Z.land (int32 (- bNegative)) b) 1)) in
  row ← base !! pos;
  let t := select_row row 0 bAbs PreComputed_Zero in
  let minusT := mkPreComputed (pc_yMinusX t) (pc_yPlusX t) (FeNeg (pc_xy2d t)) in
  Some (PreComputedGroupElementCMove t minusT bNegative).

(** [e[2*i] = int8(v & 15); e[2*i+1] = int8((v >> 4) & 15)] *)
Definition nibbles (a : bytes) : list Z :=
  concat (map (fun v => [Z.land (Z_of_byte v) 15; Z.land (Z.shiftr (Z_of_byte v) 4) 15]) a).

(** The digits of [e] but the last are brought between -8 and 8, and the last takes the carry. *)
Fixpoint recode (e : list Z) (carry : Z) : list Z :=
  match e with
  | [] => []
  | [x] => [int8 (x + carry)]
  | x :: e =>
      let x := int8 (x + carry) in
      let carry := Z.shiftr (int8 (x + 8)) 4 in
      int8 (x - int8 (Z.shiftl carry 4)) :: recode e carry
  end.

(** [for i := start; i < 64; i += 2], over the list of these [i]. *)
Fixpoint add_digits (idx : list nat) (e : list Z) (h : ExtendedGroupElement) : option ExtendedGroupElement :=
  match idx with
  | [] => Some h
  | i :: idx =>
      t ← selectPoint (i / 2) (e !!! i);
      add_digits idx e (Completed_ToExtended (geMixedAdd h t))
  end.

Definition GeScalarMultBase (a : bytes) : option ExtendedGroupElement :=
  let e := recode (nibbles a) 0 in
  h ← add_digits (map (fun k => 2 * k + 1)%nat (seq 0 32)) e Extended_Zero;
  let s := Completed_ToProjective (Extended_Double h) in
  let s := Completed_ToProjective (Projective_Double s) in
  let s := Completed_ToProjective (Projective_Double s) in
  let h := Completed_ToExtended (Projective_Double s) in
  add_digits (map (fun k => 2 * k)%nat (seq 0 32)) e h.

(** ** Digits and multiples *)

(** ** Sliding windows *)

(** Signed binary digits, least significant first. *)
Fixpoint bin_eval (r : list Z) : Z :=
  match r with
  | [] => 0
  | x :: r => x + 2 * bin_eval r
  end.

Definition bit (x : Z) : Prop := x = 0 \/ x = 1.

Lemma slide_carry_app pre n k s : slide_carry n (length pre + k) (pre ++ s) = pre ++ slide_carry n k s.
Proof.
  revert k s. induction n as [|n IH]; intros k s; [done|]. cbn [slide_carry].
  rewrite lookup_total_app_r, Nat.add_comm, Nat.add_sub, Nat.add_comm by lia. destruct (s !!! k =? 0).
  - by rewrite insert_app_r.
  - by rewrite insert_app_r, <- Nat.add_assoc, IH.
Qed.

Lemma slide_window_app pre size n b i s :
  slide_window (length pre + size) n b (length pre + i) (pre ++ s) = pre ++ slide_window size n b i s.
Proof.
  revert b s. induction n as [|n IH]; intros b s; [done|]. cbn [slide_window].
  rewrite <- Nat.add_assoc. replace (length pre + (i + b) <? length pre + size)%nat with (i + b <? size)%nat
    by (destruct (Nat.ltb_spec (i + b) size), (Nat.ltb_spec (length pre + (i + b)) (length pre + size)); lia || done).
  assert (forall k, (pre ++ s) !!! (length pre + k)%nat = s !!! k) as E.
  { intros k. rewrite lookup_total_app_r by lia. f_equal. lia. }
  rewrite !E. replace (length pre + size - (length pre + (i + b)))%nat with (size - (i + b))%nat by lia.
  rewrite !insert_app_r, slide_carry_app, !IH. repeat case_match; done.
Qed.

Lemma slide_carry_ok s :
  Forall bit s -> exists s', slide_carry (length s) 0 s = s' /\ length s' = length s /\ Forall bit s' /\
    (bin_eval s + 1 < 2 ^ Z.of_nat (length s) -> bin_eval s' = bin_eval s + 1).
Proof.
  intros H. induction H as [|x s Hx Hs (s' & E & El & Eb & Ev)]; [exists []; split; [done|]; split; [done|]; split; [constructor|simpl; lia]|].
  cbn [length slide_carry]. change ((x :: s) !!! 0%nat) with x. destruct Hx as [-> | ->]; cbn [Z.eqb].
  - exists (1 :: s). split; [done|]. split; [done|]. split; [constructor; [by right|done]|]. cbn [bin_eval]. lia.
  - exists (0 :: s'). split; [rewrite <- E; apply (slide_carry_app [0])|]. split; [cbn; lia|]. split; [constructor; [by left|done]|].
    rewrite Nat2Z.inj_succ, Z.pow_succ_r by lia. cbn [bin_eval]. lia.
Qed.

(** Beyond the fourth place nothing changes. *)
Lemma slide_window_tail n b w v :
  -15 <= w <= 15 -> Forall bit v -> (5 <= b)%nat -> (n + b <= 7)%nat -> slide_window (S (length v)) n b 0 (w :: v) = w :: v.
Proof.
  intros Hw Hv. revert b. induction n as [|n IH]; intros b Hb Hn; [done|]. cbn [slide_window]. rewrite Nat.add_0_l.
  destruct (b <? S (length v))%nat eqn:E; [|done]. apply Nat.ltb_lt in E.
  change ((w :: v) !!! 0%nat) with w. destruct b as [|b]; [lia|]. change ((w :: v) !!! S b) with (v !!! b).
  assert (bit (v !!! b)) as [-> | ->].
  { destruct (lookup_lt_is_Some_2 v b ltac:(lia)) as [y Hy]. rewrite (list_lookup_total_correct _ _ _ Hy). by apply (Forall_lookup_1 _ _ _ _ Hv Hy). }
  - apply IH; lia.
  - assert (b = 4%nat \/ b = 5%nat) as [-> | ->] by lia; cbn [Z.eqb].
    + change (int8 (Z.shiftl 1 (Z.of_nat 5))) with 32. unfold int8. rewrite !Z.mod_small by lia.
      destruct (Z.leb_spec (w + 32 + 128 - 128) 15); [lia|]. destruct (Z.leb_spec (-15) (w - 32 + 128 - 128)); [lia|done].
    + change (int8 (Z.shiftl 1 (Z.of_nat 6))) with 64. unfold int8. rewrite !Z.mod_small by lia.
      destruct (Z.leb_spec (w + 64 + 128 - 128) 15); [lia|]. destruct (Z.leb_spec (-15) (w - 64 + 128 - 128)); [lia|done].
Qed.

(** What is left of the digits after a window: the first is odd and small, the others are bits, and what they stand for is at most half of
    what they have room for, if it was. *)
Definition window_done (u : list Z) (x : Z) (u' : list Z) : Prop :=
  length u' = length u /\ Forall bit u' /\ Z.odd x = true /\ -15 <= x <= 15 /\
  (2 * (1 + 2 * bin_eval u) <= 2 ^ Z.of_nat (S (length u)) -> x + 2 * bin_eval u' = 1 + 2 * bin_eval u /\ 2 * bin_eval u' <= 2 ^ Z.of_nat (length u)).

(** Three bits are taken in, whatever follows. *)
Lemma window_three size b1 b2 b3 t :
  bit b1 -> bit b2 -> bit b3 -> slide_window (4 + size) 6 1 0 (1 :: b1 :: b2 :: b3 :: t) =
    slide_window (4 + size) 3 4 0 ((1 + 2 * b1 + 4 * b2 + 8 * b3) :: 0 :: 0 :: 0 :: t).
Proof. intros [-> | ->] [-> | ->] [-> | ->]; reflexivity. Qed.

Lemma window_fourth b1 b2 b3 t :
  bit b1 -> bit b2 -> bit b3 -> Forall bit t ->
  exists x u', slide_window (4 + length t) 3 4 0 ((1 + 2 * b1 + 4 * b2 + 8 * b3) :: 0 :: 0 :: 0 :: t) = x :: u' /\ window_done (b1 :: b2 :: b3 :: t) x u'.
Proof.
  intros H1 H2 H3 Ht. set (w := 1 + 2 * b1 + 4 * b2 + 8 * b3).
  assert (1 <= w <= 15) as Hw by (unfold w, bit in *; lia).
  assert (Z.odd w = true) as Ho by (unfold w; destruct H1 as [-> | ->], H2 as [-> | ->], H3 as [-> | ->]; done).
  assert (forall t, 2 ^ Z.of_nat (S (length (b1 :: b2 :: b3 :: t))) = 16 * 2 ^ Z.of_nat (length t)) as P1.
  { intros t'. cbn [length]. replace (Z.of_nat _) with (4 + Z.of_nat (length t')) by lia. by rewrite Z.pow_add_r by lia. }
  assert (forall t, 2 ^ Z.of_nat (length (b1 :: b2 :: b3 :: t)) = 8 * 2 ^ Z.of_nat (length t)) as P2.
  { intros t'. cbn [length]. replace (Z.of_nat _) with (3 + Z.of_nat (length t')) by lia. by rewrite Z.pow_add_r by lia. }
  assert (forall v, Forall bit v -> Forall bit (0 :: 0 :: 0 :: v)) as Hz by (intros v Hv; do 3 (apply Forall_cons_2; [by left|]); done).
  destruct Ht as [|b4 t [-> | ->] Ht].
  - exists w, [0; 0; 0]. split; [reflexivity|]. unfold window_done. rewrite P1, P2. cbn [bin_eval length]. repeat split; [by apply Hz|done|lia..].
  - exists w, (0 :: 0 :: 0 :: 0 :: t). split.
    { change (slide_window (4 + length (0 :: t)) 3 4 0 (w :: 0 :: 0 :: 0 :: 0 :: t)) with (slide_window (S (length (0 :: 0 :: 0 :: 0 :: t))) 2 5 0 (w :: 0 :: 0 :: 0 :: 0 :: t)).
      apply slide_window_tail; [lia|apply Hz; constructor; [by left|done]|lia..]. }
    unfold window_done. rewrite P1, P2. cbn [bin_eval length]. repeat split; [apply Hz; constructor; [by left|done]|done|lia..].
  - destruct (slide_carry_ok (1 :: t)) as (t' & Et & Elt & Ebt & Evt); [constructor; [by right|done]|].
    exists (w - 16), (0 :: 0 :: 0 :: t'). split.
    { transitivity (slide_window (S (length (0 :: 0 :: 0 :: t'))) 2 5 0 (w - 16 :: 0 :: 0 :: 0 :: t')); [|apply slide_window_tail; [lia|by apply Hz|lia..]].
      rewrite <- Et at 2. change (w - 16 :: 0 :: 0 :: 0 :: slide_carry (length (1 :: t)) 0 (1 :: t)) with ([w - 16; 0; 0; 0] ++ slide_carry (length (1 :: t)) 0 (1 :: t)).
      rewrite <- slide_carry_app. cbn [length]. rewrite Elt. cbn [length].
      unfold w; destruct H1 as [-> | ->], H2 as [-> | ->], H3 as [-> | ->]; reflexivity. }
    unfold window_done. rewrite P1, P2. cbn [bin_eval length] in *. split; [lia|]. split; [by apply Hz|].
    split; [by rewrite Z.odd_sub, Ho|]. split; [lia|]. intros Hv. rewrite Nat2Z.inj_succ, Z.pow_succ_r in * by lia.
    assert (bin_eval t' = 1 + 2 * bin_eval t + 1) as Ev by (apply Evt; lia). rewrite Ev. lia.
Qed.

Lemma window_ok u : Forall bit u -> exists x u', slide_window (S (length u)) 6 1 0 (1 :: u) = x :: u' /\ window_done u x u'.
Proof.
  intros Hu. destruct Hu as [|b1 u H1 Hu].
  { exists 1, []. repeat split; [constructor|simpl; lia..]. }
  destruct Hu as [|b2 u H2 Hu].
  { exists (1 + 2 * b1), [0]. destruct H1 as [-> | ->]; (split; [reflexivity|]); (repeat split; [repeat constructor|simpl; lia..]). }
  destruct Hu as [|b3 u H3 Hu].
  { exists (1 + 2 * b1 + 4 * b2), [0; 0]. destruct H1 as [-> | ->], H2 as [-> | ->]; (split; [reflexivity|]);
      (repeat split; [repeat constructor|simpl; lia..]). }
  destruct (window_fourth b1 b2 b3 u H1 H2 H3 Hu) as (x & u' & E & Hd). exists x, u'. split; [|done].
  change (S (length (b1 :: b2 :: b3 :: u))) with (4 + length u)%nat. by rewrite window_three.
Qed.

(** The digits of a slide. *)
Definition slide_digit (x : Z) : Prop := x = 0 \/ Z.odd x = true /\ -15 <= x <= 15.

Lemma slide_loop_ok s : forall pre,
  Forall bit s -> 2 * bin_eval s <= 2 ^ Z.of_nat (length s) ->
  exists s', foldl (slide_at (length pre + length s)) (pre ++ s) (seq (length pre) (length s)) = pre ++ s' /\
    length s' = length s /\ Forall slide_digit s' /\ bin_eval s' = bin_eval s.
Proof.
  remember (length s) as n eqn:En. revert s En. induction n as [|n IH]; intros s En pre Hb Hv.
  { destruct s; [|done]. exists []. repeat split. constructor. }
  destruct s as [|x u]; [done|]. apply Forall_cons in Hb as [Hx Hu]. assert (n = length u) as Enu by (cbn [length] in En; lia). clear En. rename Enu into En. cbn [seq foldl].
  assert (exists x' u', slide_at (length pre + S n) (pre ++ x :: u) (length pre) = pre ++ x' :: u' /\ length u' = n /\ Forall bit u' /\
    slide_digit x' /\ x' + 2 * bin_eval u' = x + 2 * bin_eval u /\ 2 * bin_eval u' <= 2 ^ Z.of_nat n) as (x' & u' & E & El & Eb & Hd & Ev & Hle).
  { unfold slide_at. rewrite lookup_total_app_r, Nat.sub_diag by lia. change ((x :: u) !!! 0%nat) with x.
    rewrite Nat2Z.inj_succ, Z.pow_succ_r in Hv by lia. cbn [bin_eval] in Hv. destruct Hx as [-> | ->]; cbn [Z.eqb].
    - exists 0, u. repeat split; [done|done|by left|lia].
    - destruct (window_ok u Hu) as (x' & u' & E & El & Eb & Ho & Hr & Hvv). subst n.
      rewrite Nat2Z.inj_succ, Z.pow_succ_r in Hvv by lia. destruct (Hvv ltac:(lia)) as [Ev Hle].
      exists x', u'. rewrite <- (Nat.add_0_r (length pre)) at 2. rewrite slide_window_app, E. repeat split; try done. by right. }
  rewrite E. destruct (IH u' (eq_sym El) (pre ++ [x']) Eb Hle) as (s' & E' & El' & Hd' & Ev').
  rewrite length_app in E'. cbn [length] in E'. rewrite <- app_assoc in E'. cbn [app] in E'.
  replace (length pre + 1 + n)%nat with (length pre + S n)%nat in E' by lia. rewrite Nat.add_1_r in E'. rewrite E'.
  exists (x' :: s'). rewrite <- app_assoc. repeat split; [cbn [length]; lia|by constructor|]. cbn [bin_eval]. lia.
Qed.

(** The bits of a scalar. *)
Lemma byte_at_get (b : bytes) i : (i < length b)%nat -> byte_at b i = (le_get b / 2 ^ (8 * Z.of_nat i)) mod 2 ^ 8.
Proof. intros Hi. pose proof (byte_at_range b i). apply (Zmod_unique _ _ (le_get b / 2 ^ (8 * Z.of_nat (i + 1)))); [lia|]. rewrite (byte_step b i Hi). ring. Qed.

Lemma scalar_bits_get a : length a = 32%nat -> scalar_bits a = map (fun i => (le_get a / 2 ^ Z.of_nat i) mod 2) (seq 0 256).
Proof.
  intros Ha. unfold scalar_bits. apply map_ext_in. intros i Hi%in_seq. pose proof (Nat.div_mod_eq i 8) as Hd. pose proof (Nat.mod_upper_bound i 8 ltac:(lia)).
  rewrite byte_at_get by (rewrite Ha; apply Nat.Div0.div_lt_upper_bound; lia).
  change 1 with (Z.ones 1). rewrite Z.land_comm, Z.land_ones, <- !Z.shiftr_div_pow2 by lia. set (N := le_get a). change (Z.shiftr N (Z.of_nat i) mod 2) with (Z.shiftr N (Z.of_nat i) mod 2 ^ 1).
  apply Z.bits_inj'. intros j Hj. destruct (Z.lt_ge_cases j 1); [|by rewrite !Z.mod_pow2_bits_high by lia].
  rewrite !Z.mod_pow2_bits_low, Z.shiftr_spec, Z.mod_pow2_bits_low, !Z.shiftr_spec by lia. f_equal. lia.
Qed.

Lemma bits_eval n N : 0 <= N < 2 ^ Z.of_nat n -> bin_eval (map (fun i => (N / 2 ^ Z.of_nat i) mod 2) (seq 0 n)) = N.
Proof.
  revert N. induction n as [|n IH]; intros N HN; [simpl in *; lia|]. rewrite Nat2Z.inj_succ, Z.pow_succ_r in HN by lia.
  cbn [seq map bin_eval]. change (2 ^ Z.of_nat 0) with 1. rewrite Z.div_1_r, <- seq_shift, map_map.
  pose proof (Z.div_mod N 2 ltac:(lia)). pose proof (Z.mod_pos_bound N 2 ltac:(lia)).
  rewrite (map_ext _ (fun i => (N / 2 / 2 ^ Z.of_nat i) mod 2)).
  - rewrite IH; lia.
  - intros i. rewrite Z.div_div by lia. rewrite <- Z.pow_succ_r, Nat2Z.inj_succ by lia. done.
Qed.

Lemma slide_ok a : length a = 32%nat -> le_get a <= 2 ^ 255 -> length (slide a) = 256%nat /\ Forall slide_digit (slide a) /\ bin_eval (slide a) = le_get a.
Proof.
  intros Ha Hv. pose proof (le_get_bound a) as HN. rewrite Ha in HN. change (256 ^ Z.of_nat 32) with (2 ^ Z.of_nat 256) in HN.
  unfold slide. rewrite (scalar_bits_get a Ha). set (s := map _ _). assert (bin_eval s = le_get a) as Es by (apply bits_eval, HN).
  assert (length s = 256%nat) as El by (unfold s; by rewrite length_map, length_seq).
  destruct (slide_loop_ok s []) as (s' & E & El' & Hd & Ev).
  - apply Forall_forall. intros x Hx. apply list_elem_of_fmap in Hx as (i & -> & _). pose proof (Z.mod_pos_bound (le_get a / 2 ^ Z.of_nat i) 2 ltac:(lia)). unfold bit. lia.
  - rewrite Es, El. change (2 ^ Z.of_nat 256) with (2 * 2 ^ 255). lia.
  - rewrite El in E, El'. cbn [length app Nat.add] in E. rewrite E. split; [done|]. split; [done|]. congruence.
Qed.

(** ** Sums of multiples *)

Lemma slide_digit_half x : slide_digit x -> 0 < x -> exists j, (j < 8)%nat /\ x = 2 * Z.of_nat j + 1 /\ Z.to_nat (Z.quot x 2) = j.
Proof.
  intros [-> |[Ho Hx]] Hp; [lia|]. apply Z.odd_spec in Ho as [k ->]. exists (Z.to_nat k).
  rewrite Z.quot_div_nonneg by lia. rewrite (Z.mul_comm 2), Z.div_add_l by lia. change (1 / 2) with 0. lia.
Qed.

Lemma slide_digit_neg x : slide_digit x -> x < 0 -> int8 (- x) = - x /\ slide_digit (- x) /\ 0 < - x.
Proof.
  intros [-> |[Ho Hx]] Hn; [lia|]. unfold int8. rewrite Z.mod_small by lia. split; [lia|]. split; [|lia]. right. rewrite Z.odd_opp. split; [done|lia].
Qed.

Section double_and_add.
Context (A : point) (Ai : list CachedGroupElement).
Hypothesis HAi : forall j, (j < 8)%nat -> exists q, Ai !! j = Some q /\ rep_cached q (pmul (2 * Z.of_nat j + 1) A).

Lemma add_digit_a_rep x t T : slide_digit x -> rep_completed t T -> exists t', add_digit_a Ai x t = Some t' /\ rep_completed t' (padd T (pmul x A)).
Proof using HAi.
  intros Hx Ht. unfold add_digit_a. destruct (Z.ltb_spec 0 x) as [Hp|Hp]; [|destruct (Z.ltb_spec x 0) as [Hn|Hn]].
  - destruct (slide_digit_half x Hx Hp) as (j & Hj & Ex & ->). destruct (HAi j Hj) as (q & -> & Hq). eexists. split; [reflexivity|].
    rewrite Ex. apply geAdd_rep; [by apply Completed_ToExtended_rep|exact Hq].
  - destruct (slide_digit_neg x Hx Hn) as (-> & Hx' & Hp'). destruct (slide_digit_half _ Hx' Hp') as (j & Hj & Ex & ->).
    destruct (HAi j Hj) as (q & -> & Hq). eexists. split; [reflexivity|].
    replace x with (- (2 * Z.of_nat j + 1)) by lia. rewrite pmul_neg. apply geSub_rep; [by apply Completed_ToExtended_rep|exact Hq].
  - exists t. split; [done|]. replace x with 0 by lia. by rewrite padd_zero_r.
Qed.

Lemma bi_entry j : (j < 8)%nat -> exists q, bi !! j = Some q /\ rep_precomputed q (pmul (2 * Z.of_nat j + 1) ed_B).
Proof.
  intros Hj. destruct (bi !! j) as [q|] eqn:E.
  - exists q. split; [reflexivity|]. exact (bi_rep j q E).
  - apply lookup_ge_None in E. change (length bi) with 8%nat in E. lia.
Qed.

Lemma add_digit_b_rep x t T : slide_digit x -> rep_completed t T -> exists t', add_digit_b x t = Some t' /\ rep_completed t' (padd T (pmul x ed_B)).
Proof.
  intros Hx Ht. unfold add_digit_b. destruct (Z.ltb_spec 0 x) as [Hp|Hp]; [|destruct (Z.ltb_spec x 0) as [Hn|Hn]].
  - destruct (slide_digit_half x Hx Hp) as (j & Hj & Ex & ->). destruct (bi_entry j Hj) as (q & -> & Hq). eexists. split; [reflexivity|].
    rewrite Ex. apply geMixedAdd_rep; [by apply Completed_ToExtended_rep|exact Hq].
  - destruct (slide_digit_neg x Hx Hn) as (-> & Hx' & Hp'). destruct (slide_digit_half _ Hx' Hp') as (j & Hj & Ex & ->).
    destruct (bi_entry j Hj) as (q & -> & Hq). eexists. split; [reflexivity|].
    replace x with (- (2 * Z.of_nat j + 1)) by lia. rewrite pmul_neg. apply geMixedSub_rep; [by apply Completed_ToExtended_rep|exact Hq].
  - exists t. split; [done|]. replace x with 0 by lia. by rewrite padd_zero_r.
Qed.

Lemma padd_swap a b x y : padd (padd (padd a b) x) y = padd (padd x a) (padd y b).
Proof. rewrite (padd_comm x a), (padd_comm y b), <- !padd_assoc. f_equal. by rewrite !padd_assoc, (padd_comm b x). Qed.

Lemma sum_step P Q a b x y :
  padd (padd (padd (padd (pmul a P) (pmul b Q)) (padd (pmul a P) (pmul b Q))) (pmul x P)) (pmul y Q) = padd (pmul (x + 2 * a) P) (pmul (y + 2 * b) Q).
Proof.
  rewrite <- (pmul_2 (padd _ _)), pmul_padd, <- !pmul_mul, !pmul_add. apply padd_swap.
Qed.

Lemma drop_digit (s : list Z) i : (i < length s)%nat -> bin_eval (drop i s) = s !!! i + 2 * bin_eval (drop (S i) s).
Proof. intros Hi. destruct (lookup_lt_is_Some_2 s i Hi) as [x Hx]. by rewrite (drop_S s x i Hx), (list_lookup_total_correct _ _ _ Hx). Qed.

Lemma slide_digit_at s i : Forall slide_digit s -> (i < length s)%nat -> slide_digit (s !!! i).
Proof. intros Hs Hi. destruct (lookup_lt_is_Some_2 s i Hi) as [x Hx]. rewrite (list_lookup_total_correct _ _ _ Hx). exact (Forall_lookup_1 _ _ _ _ Hs Hx). Qed.

Lemma double_and_add_rep n a b r :
  Forall slide_digit a -> Forall slide_digit b -> (n <= length a)%nat -> (n <= length b)%nat ->
  rep_projective r (padd (pmul (bin_eval (drop n a)) A) (pmul (bin_eval (drop n b)) ed_B)) ->
  exists r', double_and_add n Ai a b r = Some r' /\ rep_projective r' (padd (pmul (bin_eval a) A) (pmul (bin_eval b) ed_B)).
Proof using HAi.
  intros Ha Hb. revert r. induction n as [|i IH]; intros r Hna Hnb Hr; [by exists r|]. cbn [double_and_add].
  destruct (add_digit_a_rep (a !!! i) (Projective_Double r) _ (slide_digit_at a i Ha ltac:(lia)) (Projective_Double_rep _ _ Hr)) as (t & -> & Ht).
  destruct (add_digit_b_rep (b !!! i) t _ (slide_digit_at b i Hb ltac:(lia)) Ht) as (t' & E' & Ht'). cbn [mbind option_bind]. rewrite E'. cbn [mbind option_bind].
  apply IH; [lia|lia|]. rewrite (drop_digit a i), (drop_digit b i) by lia. rewrite <- sum_step. apply Completed_ToProjective_rep, Ht'.
Qed.
End double_and_add.

Lemma odd_multiples_rep n A k A2 last :
  rep_extended A2 (pmul 2 A) -> rep_cached last (pmul k A) ->
  forall j, (j <= n)%nat -> exists q, odd_multiples n A2 last !! j = Some q /\ rep_cached q (pmul (2 * Z.of_nat j + k) A).
Proof.
  intros H2. revert k last. induction n as [|n IH]; intros k last Hl [|j] Hj; [|lia| |].
  - exists last. split; [done|exact Hl].
  - exists last. split; [done|exact Hl].
  - cbn [odd_multiples]. destruct (IH (2 + k) (Extended_ToCached (Completed_ToExtended (geAdd A2 last)))) with (j := j) as (q & E & Hq); [|lia|].
    + rewrite pmul_add. by apply ToCached_rep, Completed_ToExtended_rep, geAdd_rep.
    + exists q. split; [exact E|]. by replace (2 * Z.of_nat (S j) + k) with (2 * Z.of_nat j + (2 + k)) by lia.
Qed.

(** Above the first digit that is not 0 there is nothing to add. *)
Lemma top_digit_ok n a b :
  (n <= length a)%nat -> (n <= length b)%nat -> bin_eval (drop n a) = 0 -> bin_eval (drop n b) = 0 ->
  (top_digit n a b <= n)%nat /\ bin_eval (drop (top_digit n a b) a) = 0 /\ bin_eval (drop (top_digit n a b) b) = 0.
Proof.
  induction n as [|i IH]; intros Ha Hb Ea Eb; [done|]. cbn [top_digit]. destruct (_ || _) eqn:E; [done|].
  apply orb_false_iff in E as [E1 E2]. apply negb_false_iff, Z.eqb_eq in E1. apply negb_false_iff, Z.eqb_eq in E2.
  destruct IH as [H1 H2]; [lia|lia|rewrite drop_digit by lia; lia|rewrite drop_digit by lia; lia|]. split; [lia|exact H2].
Qed.

Lemma GeDoubleScalarMultVartime_rep a pA A b :
  length a = 32%nat -> le_get a <= 2 ^ 255 -> length b = 32%nat -> le_get b <= 2 ^ 255 -> rep_extended pA A ->
  exists r, GeDoubleScalarMultVartime a pA b = Some r /\ rep_projective r (padd (pmul (le_get a) A) (pmul (le_get b) ed_B)).
Proof.
  intros Ha Hva Hb Hvb HA. destruct (slide_ok a Ha Hva) as (La & Da & <-). destruct (slide_ok b Hb Hvb) as (Lb & Db & <-).
  unfold GeDoubleScalarMultVartime.
  assert (drop 256 (slide a) = [] /\ drop 256 (slide b) = []) as [Na Nb] by (split; apply drop_ge; lia).
  destruct (top_digit_ok 256 (slide a) (slide b)) as (Ht & Ea & Eb); [lia|lia|by rewrite Na|by rewrite Nb|].
  apply (double_and_add_rep A); [|done|done|lia|lia|].
  - intros j Hj. apply (odd_multiples_rep 7); [|by rewrite pmul_1; apply ToCached_rep|lia].
    rewrite pmul_2. by apply Completed_ToExtended_rep, Extended_Double_rep.
  - rewrite Ea, Eb. change (pmul 0 A) with pzero. change (pmul 0 ed_B) with pzero. rewrite padd_zero_l. exact Projective_Zero_rep.
Qed.

(** ** Selection without branches *)

#[local] Transparent FeCMove.

Lemma FeCMove_0 f g : FeCMove f g 0 = f.
Proof. unfold FeCMove, fe_map2. change (int32 (- (0))) with 0. rewrite !Z.land_0_l, !Z.lxor_0_r. by destruct f. Qed.

Lemma FeCMove_1 f g : FeCMove f g 1 = g.
Proof.
  unfold FeCMove, fe_map2. change (int32 (- (1))) with (-1).
  rewrite !Z.land_m1_l, <- !Z.lxor_assoc, !Z.lxor_nilpotent, !Z.lxor_0_l. by destruct g.
Qed.

Lemma CMove_0 t u : PreComputedGroupElementCMove t u 0 = t.
Proof. unfold PreComputedGroupElementCMove. rewrite !FeCMove_0. by destruct t. Qed.

Lemma CMove_1 t u : PreComputedGroupElementCMove t u 1 = u.
Proof. unfold PreComputedGroupElementCMove. rewrite !FeCMove_1. by destruct u. Qed.

#[local] Opaque FeCMove PreComputedGroupElementCMove.

Lemma equal_spec b c : 0 <= b < 2 ^ 31 -> 0 <= c < 2 ^ 31 -> equal b c = if b =? c then 1 else 0.
Proof.
  intros Hb Hc. unfold equal. destruct (Z.eqb_spec b c) as [-> |Hne]; [by rewrite Z.lxor_nilpotent|].
  assert (0 <= Z.lxor b c) as H0 by (apply Z.lxor_nonneg; lia). assert (Z.lxor b c <> 0) as H1 by (by rewrite Z.lxor_eq_0_iff).
  assert (Z.lxor b c < 2 ^ 31) as H2.
  { apply Z.log2_lt_pow2; [lia|]. pose proof (Z.log2_lxor b c ltac:(lia) ltac:(lia)).
    assert (forall x, 0 <= x < 2 ^ 31 -> Z.log2 x < 31) as Hl by (intros x Hx; destruct (decide (x = 0)) as [-> |]; [done|apply Z.log2_lt_pow2; lia]).
    pose proof (Hl b Hb). pose proof (Hl c Hc). lia. }
  rewrite (uint32_id (Z.lxor b c)), uint32_id by (unfold_int; lia). rewrite Z.shiftr_div_pow2, Z.div_small by lia. done.
Qed.

Lemma select_row_ok P row i b t :
  0 <= i -> i + zlen row < 2 ^ 31 -> 0 <= b < 2 ^ 31 -> (forall j e, row !! j = Some e -> rep_precomputed e (pmul (i + 1 + Z.of_nat j) P)) ->
  (b <= i \/ i + zlen row < b -> select_row row i b t = t) /\ (i < b <= i + zlen row -> rep_precomputed (select_row row i b t) (pmul b P)).
Proof.
  revert i t. induction row as [|e row IH]; intros i t Hi Hl Hb Hr; [split; [done|unfold zlen; cbn [length]; intros ?; exfalso; lia]|]. rewrite zlen_cons in *. cbn [select_row].
  pose proof (zlen_nonneg row) as Hn. rewrite equal_spec by lia.
  assert (forall j e', row !! j = Some e' -> rep_precomputed e' (pmul (i + 1 + 1 + Z.of_nat j) P)) as Hr'.
  { intros j e' Hj. replace (i + 1 + 1 + Z.of_nat j) with (i + 1 + Z.of_nat (S j)) by lia. by apply Hr. }
  destruct (Z.eqb_spec b (i + 1)) as [-> |Hne]; [rewrite CMove_1|rewrite CMove_0].
  - split; [intros ?; exfalso; lia|]. intros _. rewrite (proj1 (IH (i + 1) e ltac:(lia) ltac:(lia) Hb Hr')) by lia.
    replace (i + 1) with (i + 1 + Z.of_nat 0) by lia. by apply Hr.
  - destruct (IH (i + 1) t ltac:(lia) ltac:(lia) Hb Hr') as [H1 H2]. split; intros H; [apply H1|apply H2]; lia.
Qed.

(** The sign and the absolute value of a digit. *)
Lemma digit_sign b : -8 <= b <= 8 ->
  negative b = (if b <? 0 then 1 else 0) /\ int32 (b - int32 (Z.shiftl (Z.land (int32 (- negative b)) b) 1)) = Z.abs b.
Proof.
  intros Hb. assert (Forall (fun b => negative b = (if b <? 0 then 1 else 0) /\ int32 (b - int32 (Z.shiftl (Z.land (int32 (- negative b)) b) 1)) = Z.abs b)
    (seqZ (-8) 17)) as H by (apply (bool_decide_unpack _); vm_compute; exact I).
  rewrite Forall_forall in H. apply H. apply elem_of_seqZ. lia.
Qed.

Lemma minus_rep t P : rep_precomputed t P -> rep_precomputed (mkPreComputed (pc_yMinusX t) (pc_yPlusX t) (FeNeg (pc_xy2d t))) (pneg P).
Proof.
  intros (H1 & H2 & H3). unfold rep_precomputed. cbn [pc_yPlusX pc_yMinusX pc_xy2d px py pneg]. split; [|split].
  - eapply val_eq; [exact H2|ring|done].
  - eapply val_eq; [exact H1|ring|done].
  - eapply val_eq; [eapply val_neg; [exact H3|by vm_compute]|ring|done].
Qed.

Lemma base_row pos : (pos < 32)%nat -> exists row, base !! pos = Some row /\ zlen row = 8.
Proof.
  intros Hp. assert (Forall (fun row => zlen row = 8) base) as Hr by (repeat (apply Forall_cons_2; [reflexivity|]); apply Forall_nil_2).
  destruct (lookup_lt_is_Some_2 base pos Hp) as [row E]. exists row. split; [exact E|]. exact (Forall_lookup_1 _ _ _ _ Hr E).
Qed.

Lemma selectPoint_rep pos b :
  (pos < 32)%nat -> -8 <= b <= 8 -> exists t, selectPoint pos b = Some t /\ rep_precomputed t (pmul (b * 256 ^ Z.of_nat pos) ed_B).
Proof.
  intros Hp Hb. destruct (base_row pos Hp) as (row & E & Hl). destruct (digit_sign b Hb) as [Hn Ha].
  unfold selectPoint. rewrite Ha, Hn, E. cbn [mbind option_bind]. eexists. split; [reflexivity|].
  assert (rep_precomputed (select_row row 0 (Z.abs b) PreComputed_Zero) (pmul (Z.abs b * 256 ^ Z.of_nat pos) ed_B)) as Ht.
  { rewrite pmul_mul. destruct (select_row_ok (pmul (256 ^ Z.of_nat pos) ed_B) row 0 (Z.abs b) PreComputed_Zero) as [H0 H1]; [lia|lia|lia| |].
    - intros j e Hj. rewrite <- pmul_mul. replace (0 + 1 + Z.of_nat j) with (Z.of_nat j + 1) by lia. exact (base_rep pos row j e E Hj).
    - destruct (Z.eq_dec b 0) as [-> |Hne]; [rewrite H0 by lia; exact PreComputed_Zero_rep|apply H1; lia]. }
  destruct (Z.ltb_spec b 0); [rewrite CMove_1|rewrite CMove_0].
  - replace (b * _) with (- (Z.abs b * 256 ^ Z.of_nat pos)) by (rewrite Z.abs_neq by lia; lia). rewrite pmul_neg. by apply minus_rep.
  - rewrite (Z.abs_eq b) in * by lia. exact Ht.
Qed.

(** ** Signed hexadecimal digits *)

Fixpoint hex_eval (e : list Z) : Z :=
  match e with
  | [] => 0
  | x :: e => x + 16 * hex_eval e
  end.

Lemma nibbles_ok a : length (nibbles a) = (2 * length a)%nat /\ Forall (fun x => 0 <= x <= 15) (nibbles a) /\ hex_eval (nibbles a) = le_get a.
Proof.
  induction a as [|v a (Hl & Hd & Hv)]; [repeat split; constructor|]. change (nibbles (v :: a)) with
    (Z.land (Z_of_byte v) 15 :: Z.land (Z.shiftr (Z_of_byte v) 4) 15 :: nibbles a).
  assert (forall z, Z.land z 15 = z mod 16) as E15 by (intros z; exact (Z.land_ones z 4 ltac:(lia))).
  rewrite !E15, Z.shiftr_div_pow2 by lia. change (2 ^ 4) with 16. pose proof (Z_of_byte_range v) as Hb.
  pose proof (Z.mod_pos_bound (Z_of_byte v) 16 ltac:(lia)). pose proof (Z.div_mod (Z_of_byte v) 16 ltac:(lia)).
  rewrite (Z.mod_small (Z_of_byte v / 16)) by lia.
  split; [cbn [length]; lia|]. split; [constructor; [lia|]; constructor; [lia|exact Hd]|]. cbn [hex_eval le_get]. lia.
Qed.

Lemma recode_ok e c :
  Forall (fun x => 0 <= x <= 15) e -> 0 <= c <= 1 -> e <> [] -> 16 * hex_eval e < 8 * 16 ^ zlen e ->
  length (recode e c) = length e /\ Forall (fun x => -8 <= x <= 8) (recode e c) /\ hex_eval (recode e c) = hex_eval e + c.
Proof.
  intros He. revert c. induction He as [|x e Hx He IH]; intros c Hc Hne Hv; [done|]. destruct e as [|y e].
  { cbn [recode]. unfold zlen in Hv. cbn [hex_eval length] in *. change (16 ^ Z.of_nat 1) with 16 in Hv. unfold int8. rewrite Z.mod_small by lia.
    repeat split; [|lia]. constructor; [lia|constructor]. }
  assert (Forall (fun x => 0 <= x) (y :: e)) as Hp by (eapply Forall_impl; [exact He|intros; simpl in *; lia]).
  assert (0 <= hex_eval (y :: e)) as Hpos.
  { clear -Hp. induction Hp as [|z l Hz Hl IH]; [done|]. cbn [hex_eval]. lia. }
  change (recode (x :: y :: e) c) with (int8 (int8 (x + c) - int8 (Z.shiftl (Z.shiftr (int8 (int8 (x + c) + 8)) 4) 4)) :: recode (y :: e) (Z.shiftr (int8 (int8 (x + c) + 8)) 4)).
  set (e' := y :: e) in *. assert (int8 (x + c) = x + c) as -> by (unfold int8; rewrite Z.mod_small; lia).
  assert (int8 (x + c + 8) = x + c + 8) as -> by (unfold int8; rewrite Z.mod_small; lia).
  pose proof (shiftr_bounds (x + c + 8) 4 ltac:(lia)) as Hs. change (2 ^ 4) with 16 in Hs. rewrite Z.shiftl_mul_pow2 by lia. change (2 ^ 4) with 16.
  set (k := Z.shiftr (x + c + 8) 4) in *. assert (0 <= k <= 1) as Hk by lia. clearbody k.
  rewrite zlen_cons, Z.pow_add_r in Hv by (pose proof (zlen_nonneg e'); lia). cbn [hex_eval] in *.
  destruct (IH k Hk ltac:(done) ltac:(lia)) as (Hl & Hd & Hval).
  assert (int8 (k * 16) = k * 16) as -> by (unfold int8; rewrite Z.mod_small; lia).
  assert (int8 (x + c - k * 16) = x + c - k * 16) as -> by (unfold int8; rewrite Z.mod_small; lia).
  split; [cbn [length]; lia|]. split; [constructor; [lia|done]|]. cbn [hex_eval]. lia.
Qed.

(** ** Multiples of the base point *)

Definition zsum (f : nat -> Z) (l : list nat) : Z := foldr (fun i v => f i + v) 0 l.

Lemma add_digits_rep idx e h H :
  Forall (fun i => i < 64)%nat idx -> length e = 64%nat -> Forall (fun x => -8 <= x <= 8) e -> rep_extended h H ->
  exists h', add_digits idx e h = Some h' /\ rep_extended h' (padd H (pmul (zsum (fun i => e !!! i * 256 ^ Z.of_nat (i / 2)) idx) ed_B)).
Proof.
  intros Hi Hl He. revert h H. induction Hi as [|i idx Hi Hidx IH]; intros h H Hh.
  { exists h. split; [done|]. change (pmul (zsum _ []) ed_B) with pzero. by rewrite padd_zero_r. }
  cbn [add_digits]. destruct (selectPoint_rep (i / 2) (e !!! i)) as (t & -> & Ht).
  - apply Nat.Div0.div_lt_upper_bound. lia.
  - destruct (lookup_lt_is_Some_2 e i ltac:(lia)) as [x Hx]. rewrite (list_lookup_total_correct _ _ _ Hx). exact (Forall_lookup_1 _ _ _ _ He Hx).
  - cbn [mbind option_bind]. destruct (IH (Completed_ToExtended (geMixedAdd h t)) _ (Completed_ToExtended_rep _ _ (geMixedAdd_rep _ _ _ _ Hh Ht))) as (h' & E & Hh').
    exists h'. split; [exact E|]. change (zsum ?f (i :: idx)) with (f i + zsum f idx). rewrite pmul_add, padd_assoc. exact Hh'.
Qed.

Lemma zsum_ext f g l : (forall i, f i = g i) -> zsum f l = zsum g l.
Proof. intros E. induction l as [|i l IH]; [done|]. change (f i + zsum f l = g i + zsum g l). by rewrite E, IH. Qed.

Lemma zsum_map f g l : zsum f (map g l) = zsum (fun i => f (g i)) l.
Proof. induction l as [|i l IH]; [done|]. change (f (g i) + zsum f (map g l) = f (g i) + zsum (fun i => f (g i)) l). by rewrite IH. Qed.

Lemma zsum_scale c f l : zsum (fun i => c * f i) l = c * zsum f l.
Proof. induction l as [|i l IH]; [unfold zsum; cbn [foldr]; lia|]. change (c * f i + zsum (fun i => c * f i) l = c * (f i + zsum f l)). lia. Qed.

(** Two digits at a time. *)
Lemma hex_pairs n e : length e = (2 * n)%nat ->
  hex_eval e = zsum (fun k => e !!! (2 * k)%nat * 256 ^ Z.of_nat k) (seq 0 n) + 16 * zsum (fun k => e !!! (2 * k + 1)%nat * 256 ^ Z.of_nat k) (seq 0 n).
Proof.
  revert e. induction n as [|n IH]; intros e Hl; [by destruct e|]. destruct e as [|x [|y e]]; [done|cbn in Hl; lia|].
  cbn [seq]. rewrite <- seq_shift. change (zsum ?f (0%nat :: ?l)) with (f 0%nat + zsum f l). rewrite !zsum_map.
  rewrite (zsum_ext _ (fun k => 256 * (e !!! (2 * k)%nat * 256 ^ Z.of_nat k))).
  2: { intros k. replace (2 * S k)%nat with (S (S (2 * k))) by lia. change ((x :: y :: e) !!! S (S (2 * k))) with (e !!! (2 * k)%nat).
       rewrite Nat2Z.inj_succ, Z.pow_succ_r by lia. ring. }
  rewrite (zsum_ext (fun k => (x :: y :: e) !!! (2 * S k + 1)%nat * _) (fun k => 256 * (e !!! (2 * k + 1)%nat * 256 ^ Z.of_nat k))).
  2: { intros k. replace (2 * S k + 1)%nat with (S (S (2 * k + 1))) by lia. change ((x :: y :: e) !!! S (S (2 * k + 1))) with (e !!! (2 * k + 1)%nat).
       rewrite Nat2Z.inj_succ, Z.pow_succ_r by lia. ring. }
  rewrite !zsum_scale. change ((x :: y :: e) !!! (2 * 0)%nat) with x. change ((x :: y :: e) !!! (2 * 0 + 1)%nat) with y.
  change (256 ^ Z.of_nat 0) with 1. cbn [hex_eval]. rewrite (IH e) by (cbn in Hl; lia). ring.
Qed.

Lemma doubled_four_times h P :
  rep_extended h P ->
  rep_extended (Completed_ToExtended (Projective_Double (Completed_ToProjective (Projective_Double (Completed_ToProjective (Projective_Double
    (Completed_ToProjective (Extended_Double h)))))))) (pmul 16 P).
Proof.
  intros H. change 16 with (2 * (2 * (2 * 2))). rewrite !pmul_mul, !pmul_2.
  apply Completed_ToExtended_rep, Projective_Double_rep, Completed_ToProjective_rep, Projective_Double_rep, Completed_ToProjective_rep,
    Projective_Double_rep, Completed_ToProjective_rep, Extended_Double_rep, H.
Qed.

(** The scalar must be below [2 ^ 255], as the comment of the code asks for. *)
Lemma GeScalarMultBase_rep a :
  length a = 32%nat -> le_get a < 2 ^ 255 -> exists h, GeScalarMultBase a = Some h /\ rep_extended h (pmul (le_get a) ed_B).
Proof.
  intros Ha Hv. destruct (nibbles_ok a) as (Ln & Dn & Vn). rewrite Ha in Ln.
  destruct (recode_ok (nibbles a) 0 Dn) as (Lr & Dr & Vr); [lia|by destruct (nibbles a)|unfold zlen; rewrite Ln, Vn; change (16 ^ Z.of_nat (2 * 32)) with (2 ^ 256); lia|].
  unfold GeScalarMultBase. set (e := recode (nibbles a) 0) in *. clearbody e. rewrite Ln in Lr. rewrite Vn, Z.add_0_r in Vr.
  destruct (add_digits_rep (map (fun k => 2 * k + 1)%nat (seq 0 32)) e Extended_Zero pzero) as (h1 & -> & H1);
    [by apply (bool_decide_unpack _); vm_compute|exact Lr|exact Dr|exact Extended_Zero_rep|].
  rewrite padd_zero_l, zsum_map in H1. cbn [mbind option_bind]. apply doubled_four_times in H1.
  destruct (add_digits_rep (map (fun k => 2 * k)%nat (seq 0 32)) e _ _ ltac:(by apply (bool_decide_unpack _); vm_compute) Lr Dr H1) as (h & E & H6).
  exists h. split; [exact E|]. rewrite zsum_map, <- pmul_mul, <- pmul_add in H6. rewrite <- Vr, (hex_pairs 32 e Lr), Z.add_comm.
  rewrite (zsum_ext (fun i => e !!! (2 * i + 1)%nat * _) (fun k => e !!! (2 * k + 1)%nat * 256 ^ Z.of_nat k)) in H6
    by (intros k; do 3 f_equal; rewrite (Nat.mul_comm 2), Nat.div_add_l by lia; change (1 / 2)%nat with 0%nat; lia).
  rewrite (zsum_ext (fun i => e !!! (2 * i)%nat * _) (fun k => e !!! (2 * k)%nat * 256 ^ Z.of_nat k)) in H6
    by (intros k; do 3 f_equal; rewrite (Nat.mul_comm 2), Nat.div_mul by lia; lia).
  exact H6.
Qed.
