(* ===== verification/Ed25519.v ===== *)
(** * Signatures and keys: [crypto/ed25519/ed25519.go], [ecmath], [chainkd]

    Signing, verification and generation of keys; scalars and points as the package
    [ecmath] offers them; and extended keys with their derivation.  SHA-512 is a
    parameter, with the length of its digest as its only law.  A result [None] is a
    panic.  Arrays that Go passes by value are values here, and a receiver that is
    written through a pointer is returned. *)

From Stdlib Require Import ZArith Lia String.
From S2P Require Import Prelude Encoding FieldElement GroupElement Scalar ScalarMult.
From S2P Require Legacy.

Local Open Scope Z_scope.

(** [sha512.Sum512], or [sha512.New], [Write] and [Sum] *)
Class Sha512 := sha512 : bytes -> bytes.

Class Sha512Laws `{Sha512} : Prop := sha512_len bs : length (sha512 bs) = 64%nat.

(** [b[i] = f(b[i])] *)
Definition update_byte (i : nat) (f : Z -> Z) (b : bytes) : bytes := <[i := byte_of_Z (f (byte_at b i))]> b.

(** A point that is declared and not yet set. *)
Definition Extended_unset : ExtendedGroupElement := mkExtended FeZero FeZero FeZero FeZero.

(** [edwards25519.GeScalarMultBase(&P, &s); P.ToBytes(&buf)] *)
Definition public_bytes (s : bytes) : option bytes := P ← GeScalarMultBase s; Some (Extended_ToBytes P).

(** ** [ed25519.go] *)

Section ed25519.
Context `{Sha512}.

Definition PrivateKeySize : nat := 64.
Definition SignatureSize : nat := 64.

(** [priv[32:]] panics on a key that is too short; what is missing of the copy is 0. *)
Definition PrivateKey_Public (priv : bytes) : option bytes :=
  if (length priv <? 32)%nat then None else Some (take 32 (drop 32 priv ++ replicate 32 Byte.x00)).

(** What [io.ReadFull] reads, 32 bytes, or its failure; keys, or an error. *)
Definition GenerateKey (entropy : option bytes) : option (result unit (bytes * bytes)) :=
  match entropy with
  | None => Some (Err ())
  | Some seed =>
      let digest := sha512 seed in
      let digest := update_byte 0 (fun x => Z.land x 248) digest in
      let digest := update_byte 31 (fun x => Z.land x 127) digest in
      let digest := update_byte 31 (fun x => Z.lor x 64) digest in
      publicKeyBytes ← public_bytes (take 32 digest);
      Some (Ok (publicKeyBytes, seed ++ publicKeyBytes))
  end.

Definition Ed_Sign (privateKey message : bytes) : option bytes :=
  if negb (length privateKey =? PrivateKeySize)%nat then None
  else
    let digest1 := sha512 (take 32 privateKey) in
    let expandedSecretKey := take 32 digest1 in
    let expandedSecretKey := update_byte 0 (fun x => Z.land x 248) expandedSecretKey in
    let expandedSecretKey := update_byte 31 (fun x => Z.land x 63) expandedSecretKey in
    let expandedSecretKey := update_byte 31 (fun x => Z.lor x 64) expandedSecretKey in
    let messageDigest := sha512 (drop 32 digest1 ++ message) in
    let messageDigestReduced := ScReduce messageDigest in
    encodedR ← public_bytes messageDigestReduced;
    let hramDigest := sha512 (encodedR ++ drop 32 privateKey ++ message) in
    let hramDigestReduced := ScReduce hramDigest in
    let s := ScMulAdd hramDigestReduced expandedSecretKey messageDigestReduced in
    Some (encodedR ++ s).

(** [opts.HashFunc()] must be 0. *)
Definition PrivateKey_Sign (priv message : bytes) (hashFunc : Z) : option (result unit bytes) :=
  if negb (hashFunc =? 0) then Some (Err ()) else sig ← Ed_Sign priv message; Some (Ok sig).

Definition Ed_Verify (publicKey message sig : bytes) : option bool :=
  if negb (length publicKey =? 32)%nat then None
  else if negb (length sig =? SignatureSize)%nat || negb (Z.land (byte_at sig 63) 224 =? 0) then Some false
  else
    match Extended_FromBytes Extended_unset publicKey with
    | (false, _) => Some false
    | (true, A) =>
        let A := mkExtended (FeNeg (e_X A)) (e_Y A) (e_Z A) (FeNeg (e_T A)) in
        let digest := sha512 (take 32 sig ++ publicKey ++ message) in
        let hReduced := ScReduce digest in
        R ← GeDoubleScalarMultVartime hReduced A (drop 32 sig);
        let checkR := Projective_ToBytes R in
        Some (bool_decide (take 32 sig = checkR))
    end.

End ed25519.

(** ** [ecmath/scalar.go] *)

Module ecmath.

Definition Zero : bytes := replicate 32 Byte.x00.
Definition One : bytes := Byte.x01 :: replicate 31 Byte.x00.

Definition NegOne : bytes := map byte_of_Z [
  0xec; 0xd3; 0xf5; 0x5c; 0x1a; 0x63; 0x12; 0x58;
  0xd6; 0x9c; 0xf7; 0xa2; 0xde; 0xf9; 0xde; 0x14;
  0x00; 0x00; 0x00; 0x00; 0x00; 0x00; 0x00; 0x00;
  0x00; 0x00; 0x00; 0x00; 0x00; 0x00; 0x00; 0x10].

Definition scalar_L : bytes := map byte_of_Z [
  0xed; 0xd3; 0xf5; 0x5c; 0x1a; 0x63; 0x12; 0x58;
  0xd6; 0x9c; 0xf7; 0xa2; 0xde; 0xf9; 0xde; 0x14;
  0x00; 0x00; 0x00; 0x00; 0x00; 0x00; 0x00; 0x00;
  0x00; 0x00; 0x00; 0x00; 0x00; 0x00; 0x00; 0x10].

Definition MulAdd (a b c : bytes) : bytes := ScMulAdd a b c.
Definition Scalar_Add (x y : bytes) : bytes := MulAdd x One y.
Definition Scalar_Sub (x y : bytes) : bytes := MulAdd y NegOne x.
Definition Scalar_Neg (x : bytes) : bytes := MulAdd x NegOne Zero.
Definition Scalar_Equal (z x : bytes) : bool := bool_decide (x = z).

Definition Prune (z : bytes) : bytes :=
  let z := update_byte 0 (fun x => Z.land x 248) z in
  let z := update_byte 31 (fun x => Z.land x 127) z in
  update_byte 31 (fun x => Z.lor x 64) z.

Definition Reduce (x : bytes) : bytes := ScReduce x.

(** ** [ecmath/point.go] *)

Definition ZeroPoint : ExtendedGroupElement := Extended_Zero.

Definition Point_Add (x y : ExtendedGroupElement) : ExtendedGroupElement :=
  let y2 := Extended_ToCached y in
  let z2 := geAdd x y2 in
  Completed_ToExtended z2.

Definition Point_Sub (x y : ExtendedGroupElement) : ExtendedGroupElement :=
  let y2 := Extended_ToCached y in
  let z2 := geSub x y2 in
  Completed_ToExtended z2.

Definition ScMulBase (x : bytes) : option ExtendedGroupElement := GeScalarMultBase x.

(** The result of [FromBytes], whether the bytes are a point, is not looked at. *)
Definition Point_ScMulAdd (z : ExtendedGroupElement) (a : ExtendedGroupElement) (x y : bytes) : option ExtendedGroupElement :=
  p ← GeDoubleScalarMultVartime x a y;
  let buf := Projective_ToBytes p in
  Some (Extended_FromBytes z buf).2.

Definition ScMul (z x : ExtendedGroupElement) (y : bytes) : option ExtendedGroupElement := Point_ScMulAdd z x y Zero.

Definition Encode (z : ExtendedGroupElement) : bytes := Extended_ToBytes z.
Definition Decode (z : ExtendedGroupElement) (e : bytes) : bool * ExtendedGroupElement := Extended_FromBytes z e.

Definition ConstTimeEqual (z x : ExtendedGroupElement) : bool := bool_decide (Encode x = Encode z).

End ecmath.

(** ** [chainkd] *)

Module chainkd.
Section chainkd.
Context `{Sha512}.

(** [s] has at least 32 bytes. *)
Definition modifyScalar (s : bytes) : bytes :=
  let s := update_byte 0 (fun x => Z.land x 248) s in
  let s := update_byte 31 (fun x => Z.land x 127) s in
  update_byte 31 (fun x => Z.lor x 64) s.

(** What was written into the hash. *)
Definition hashKeySaltHelper (version : byte) (key salt : bytes) : bytes := [version] ++ key ++ salt.

Definition hashKeySalt (version : byte) (key salt : bytes) : bytes := sha512 (hashKeySaltHelper version key salt).

Definition hashKeySaltSelector (version : byte) (key salt sel : bytes) : bytes :=
  modifyScalar (sha512 (hashKeySaltHelper version key salt ++ uvarint (zlen sel) ++ sel)).

(** Keys of 64 bytes: a scalar or a point, and a salt. *)
Definition one : bytes := Byte.x01 :: replicate 31 Byte.x00.

Definition NewXPrv (entropy : option bytes) : result unit bytes :=
  match entropy with
  | None => Err ()
  | Some entropy =>
      let xprv := sha512 (list_byte_of_string "Chain seed" ++ entropy) in
      Ok (modifyScalar (take 32 xprv) ++ drop 32 xprv)
  end.

Definition XPrv_XPub (xprv : bytes) : option bytes :=
  buf ← public_bytes (take 32 xprv);
  Some (buf ++ drop 32 xprv).

Definition XPrv_Child (xprv sel : bytes) (hardened : bool) : option bytes :=
  if hardened then Some (hashKeySaltSelector Byte.x00 (take 32 xprv) (drop 32 xprv) sel)
  else
    let s := take 32 xprv in
    pubkey ← public_bytes s;
    let res := hashKeySaltSelector Byte.x01 pubkey (drop 32 xprv) sel in
    let f := take 32 res in
    let s2 := ScMulAdd one f s in
    Some (s2 ++ drop 32 res).

(** The result of [P.FromBytes] is not looked at. *)
Definition XPub_Child (xpub sel : bytes) : option bytes :=
  let res := hashKeySaltSelector Byte.x01 (take 32 xpub) (drop 32 xpub) sel in
  let f := take 32 res in
  F ← GeScalarMultBase f;
  let P := (Extended_FromBytes Extended_unset (take 32 xpub)).2 in
  let Fc := Extended_ToCached F in
  let R := geAdd P Fc in
  let P2 := Completed_ToExtended R in
  let pubkey := Extended_ToBytes P2 in
  Some (pubkey ++ drop 32 res).

Definition XPrv_Derive (xprv : bytes) (path : list bytes) : option bytes :=
  foldl (fun res p => xprv ← res; XPrv_Child xprv p false) (Some xprv) path.

Definition XPub_Derive (xpub : bytes) (path : list bytes) : option bytes :=
  foldl (fun res p => xpub ← res; XPub_Child xpub p) (Some xpub) path.

Definition XPrv_Sign (xprv msg : bytes) : option bytes :=
  let s := take 32 xprv in
  let h := hashKeySalt Byte.x02 (take 32 xprv) (drop 32 xprv) in
  pubkey ← public_bytes s;
  let r := sha512 (take 32 h ++ msg) in
  let rReduced := ScReduce r in
  R ← public_bytes rReduced;
  let k := sha512 (R ++ pubkey ++ msg) in
  let kReduced := ScReduce k in
  let S := ScMulAdd kReduced s rReduced in
  Some (R ++ S).

Definition XPub_PublicKey (xpub : bytes) : bytes := take 32 xpub.
Definition XPub_Verify (xpub msg sig : bytes) : option bool := Ed_Verify (XPub_PublicKey xpub) msg sig.

(** ** [chainkd/util.go] *)

Definition NewXKeys (entropy : option bytes) : option (result unit (bytes * bytes)) :=
  match NewXPrv entropy with
  | Err e => Some (Err e)
  | Ok xprv => xpub ← XPrv_XPub xprv; Some (Ok (xprv, xpub))
  end.

Definition XPubKeys (xpubs : list bytes) : list bytes := map XPub_PublicKey xpubs.

Definition DeriveXPubs (xpubs : list bytes) (path : list bytes) : option (list bytes) := mapM (fun xpub => XPub_Derive xpub path) xpubs.

End chainkd.

(** ** [chainkd/serialize.go]: text of both kinds of keys *)

Definition extendedPublicKeySize : Z := 64.
Definition extendedPrivateKeySize : Z := 64.

Inductive kderr := ErrBadKeyStr | InvalidByteError.

Definition Key_MarshalText (key : bytes) : bytes := Legacy.hex_encode key.

(** [hex.Decode] writes what comes before the first character that is no digit. *)
Fixpoint hex_prefix (inp : bytes) : bytes * bool :=
  match inp with
  | a :: b :: inp =>
      match Legacy.from_hex a, Legacy.from_hex b with
      | Some x, Some y => let '(l, ok) := hex_prefix inp in (byte_of_Z (Z.lor (Z.shiftl x 4) y) :: l, ok)
      | _, _ => ([], false)
      end
  | _ => ([], true)
  end.

(** The error, and the receiver afterwards. *)
Definition Key_UnmarshalText (size : Z) (key inp : bytes) : option kderr * bytes :=
  if negb (zlen inp =? 2 * size) then (Some ErrBadKeyStr, key)
  else
    let '(l, ok) := hex_prefix inp in
    (if ok then None else Some InvalidByteError, l ++ drop (length l) key).

Definition XPub_MarshalText : bytes -> bytes := Key_MarshalText.
Definition XPrv_MarshalText : bytes -> bytes := Key_MarshalText.
Definition XPub_UnmarshalText : bytes -> bytes -> option kderr * bytes := Key_UnmarshalText extendedPublicKeySize.
Definition XPrv_UnmarshalText : bytes -> bytes -> option kderr * bytes := Key_UnmarshalText extendedPrivateKeySize.

End chainkd.
