(* ===== verification/Ed25519Proof.v ===== *)
(** * Signing, verification and derivation in terms of points

    [public_bytes], [Ed_Verify] and the signing functions are reduced to the group: what
    is signed with a scalar verifies under the encoding of its multiple of the base
    point, and children of private and public keys correspond. *)

From Stdlib Require Import ZArith Lia.
From S2P Require Import Prelude Encoding FieldElement FieldBytes Fp Edwards GroupElement GroupBytes TableProof Scalar ScalarMult Ed25519.

Local Open Scope Z_scope.

(** ** Scalars as numbers *)

Lemma length_encode P : length (encode P) = 32%nat.
Proof. apply length_le_put. Qed.

Lemma L_pos : 0 < L.
Proof. unfold L. lia. Qed.

Lemma le_get_mod_L n : le_get (le_put 32 (n mod L)) = n mod L.
Proof.
  rewrite le_get_put. apply Z.mod_small. pose proof (Z.mod_pos_bound n L L_pos) as H.
  change (256 ^ Z.of_nat 32) with (2 ^ 256). assert (L < 2 ^ 256) by (unfold L; lia). lia.
Qed.

Lemma mod_L_below n : n mod L < 2 ^ 253.
Proof. pose proof (Z.mod_pos_bound n L L_pos). assert (L < 2 ^ 253) by (unfold L; lia). lia. Qed.

Lemma pmul_L : pmul L ed_B = pzero.
Proof. exact ed_B_order. Qed.

Lemma pmul_mod_L n : pmul (n mod L) ed_B = pmul n ed_B.
Proof.
  rewrite (Z.div_mod n L) at 2 by (unfold L; lia). rewrite pmul_add, (Z.mul_comm L), pmul_mul, pmul_L, pmul_zero, padd_zero_l. done.
Qed.

Lemma public_bytes_ok s : length s = 32%nat -> le_get s < 2 ^ 255 -> public_bytes s = Some (encode (pmul (le_get s) ed_B)).
Proof.
  intros Hs Hv. destruct (GeScalarMultBase_rep s Hs Hv) as (h & E & Hh). unfold public_bytes. rewrite E. cbn [mbind option_bind].
  by rewrite (Extended_ToBytes_encode _ _ Hh).
Qed.

Lemma public_bytes_mod n : public_bytes (le_put 32 (n mod L)) = Some (encode (pmul n ed_B)).
Proof.
  rewrite public_bytes_ok, le_get_mod_L; [by rewrite pmul_mod_L|apply length_le_put|]. rewrite le_get_mod_L. pose proof (mod_L_below n). lia.
Qed.

(** ** Bytes that are updated *)

Lemma length_update_byte i f b : length (update_byte i f b) = length b.
Proof. apply length_insert. Qed.

Lemma byte_at_update i f b : (i < length b)%nat -> byte_at (update_byte i f b) i = f (byte_at b i) mod 256.
Proof. intros Hi. unfold byte_at at 1, update_byte. by rewrite (nth_lookup_Some _ _ _ _ (list_lookup_insert_eq b i _ Hi)), Z_of_byte_of_Z. Qed.

Lemma byte_at_take n b i : (i < n)%nat -> byte_at (take n b) i = byte_at b i.
Proof. intros Hi. unfold byte_at. by rewrite !nth_lookup, lookup_take_lt by lia. Qed.

Lemma take_update n i f b : (i < n)%nat -> take n (update_byte i f b) = update_byte i f (take n b).
Proof. intros Hi. unfold update_byte. rewrite byte_at_take by lia. by rewrite take_insert_lt by lia. Qed.

Lemma drop_update n i f b : (i < n)%nat -> drop n (update_byte i f b) = drop n b.
Proof. intros Hi. unfold update_byte. by rewrite drop_insert_lt by lia. Qed.

Lemma byte_at_drop n b i : byte_at (drop n b) i = byte_at b (n + i).
Proof. unfold byte_at. by rewrite !nth_lookup, lookup_drop. Qed.

Lemma last_byte_bound s k : length s = 32%nat -> 0 <= k <= 8 -> byte_at s 31 < 2 ^ k <-> le_get s < 2 ^ (248 + k).
Proof.
  intros Hs Hk. pose proof (byte_at_get s 31 ltac:(lia)) as E. pose proof (le_get_bound s) as Hb. rewrite Hs in Hb.
  change (256 ^ Z.of_nat 32) with (2 ^ 256) in Hb. change (8 * Z.of_nat 31) with 248 in E.
  rewrite Z.mod_small in E by (split; [apply Z.div_pos; lia|apply Z.div_lt_upper_bound; lia]). rewrite E, Z.pow_add_r by lia.
  split; intros H.
  - pose proof (Z.div_mod (le_get s) (2 ^ 248) ltac:(lia)). pose proof (Z.mod_pos_bound (le_get s) (2 ^ 248) ltac:(lia)). nia.
  - apply Z.div_lt_upper_bound; lia.
Qed.

(** Facts about all values of a byte. *)
Lemma forall_byte (P : Z -> Prop) `{!forall x, Decision (P x)} : bool_decide (Forall P (seqZ 0 256)) = true -> forall x, 0 <= x < 256 -> P x.
Proof. intros Hall x Hx. apply bool_decide_eq_true in Hall. rewrite Forall_forall in Hall. apply Hall, elem_of_seqZ. lia. Qed.

Lemma pruned_byte x : 0 <= x < 256 -> Z.lor (Z.land x 127 mod 256) 64 mod 256 < 2 ^ 7.
Proof. apply (forall_byte (fun x => Z.lor (Z.land x 127 mod 256) 64 mod 256 < 2 ^ 7)). by vm_compute. Qed.

Lemma pruned_same x : 0 <= x < 256 -> byte_of_Z (Z.lor (Z.land x 127 mod 256) 64) = byte_of_Z (Z.lor (Z.land x 63 mod 256) 64).
Proof. apply (forall_byte (fun x => byte_of_Z (Z.lor (Z.land x 127 mod 256) 64) = byte_of_Z (Z.lor (Z.land x 63 mod 256) 64))). by vm_compute. Qed.

Lemma small_top x : 0 <= x < 256 -> (Z.land x 224 =? 0) = (x <? 2 ^ 5).
Proof. apply (forall_byte (fun x => (Z.land x 224 =? 0) = (x <? 2 ^ 5))). by vm_compute. Qed.

(** ** Pruning *)

Section prune.
Import chainkd.

Lemma length_modifyScalar s : length (modifyScalar s) = length s.
Proof. unfold modifyScalar. by rewrite !length_update_byte. Qed.

Lemma take_modifyScalar s : take 32 (modifyScalar s) = modifyScalar (take 32 s).
Proof. unfold modifyScalar. by rewrite !take_update by lia. Qed.

Lemma modifyScalar_below s : length s = 32%nat -> le_get (modifyScalar s) < 2 ^ 255.
Proof.
  intros Hs. apply (last_byte_bound _ 7); [by rewrite length_modifyScalar|lia|]. unfold modifyScalar.
  rewrite !byte_at_update by (rewrite ?length_update_byte; lia). apply pruned_byte, byte_at_range.
Qed.

(** The mask of [Ed_Sign] and that of [GenerateKey] leave the same scalar. *)
Lemma masks_same s : length s = 32%nat ->
  update_byte 31 (fun x => Z.lor x 64) (update_byte 31 (fun x => Z.land x 63) (update_byte 0 (fun x => Z.land x 248) s)) = modifyScalar s.
Proof.
  intros Hs. unfold modifyScalar. set (t := update_byte 0 _ s). assert (length t = 32%nat) as Ht by (unfold t; by rewrite length_update_byte). clearbody t.
  unfold update_byte at 1 3. rewrite !byte_at_update by lia. rewrite <- (pruned_same _ (byte_at_range t 31)).
  unfold update_byte. by rewrite !list_insert_insert_eq.
Qed.

End prune.

(** ** Verification *)

Lemma neg_rep p P : rep_extended p P -> rep_extended (mkExtended (FeNeg (e_X p)) (e_Y p) (e_Z p) (FeNeg (e_T p))) (pneg P).
Proof.
  intros (z & Hz & HX & HY & HZ & HT). exists z. split; [exact Hz|]. cbn [e_X e_Y e_Z e_T px py pneg].
  split; [eapply val_eq; [eapply val_neg; [exact HX|by vm_compute]|ring|by vm_compute]|]. split; [exact HY|]. split; [exact HZ|].
  eapply val_eq; [eapply val_neg; [exact HT|by vm_compute]|ring|by vm_compute].
Qed.

Section verify.
Context `{Hsha : Sha512} `{Hlaws : !Sha512Laws}.

(** The challenge that is hashed from a signature, a key and a message. *)
Definition challenge (R pk m : bytes) : Z := le_get (sha512 (R ++ pk ++ m)).

(** What a signature of a message by a key is. *)
Definition verifies (pk m sig : bytes) : Prop :=
  length sig = 64%nat /\ le_get (drop 32 sig) < 2 ^ 253 /\
  exists A, decodes pk A /\ take 32 sig = encode (padd (pmul (challenge (take 32 sig) pk m mod L) (pneg A)) (pmul (le_get (drop 32 sig)) ed_B)).

Lemma Ed_Verify_panics pk m sig : length pk <> 32%nat -> Ed_Verify pk m sig = None.
Proof using. intros Hpk. unfold Ed_Verify. destruct (Nat.eqb_spec (length pk) 32); [done|reflexivity]. Qed.

Lemma Ed_Verify_ok pk m sig : length pk = 32%nat -> exists b, Ed_Verify pk m sig = Some b /\ (b = true <-> verifies pk m sig).
Proof using Hlaws.
  intros Hpk. unfold Ed_Verify, verifies. rewrite Hpk. cbn [Nat.eqb negb]. unfold SignatureSize.
  destruct (Nat.eqb_spec (length sig) 64) as [Hl|Hl]; [|exists false; cbn; split; [done|]; split; [done|]; by intros (? & _)]. cbn [negb orb].
  assert (length (drop 32 sig) = 32%nat) as Hd by (rewrite length_drop; lia).
  rewrite small_top by apply byte_at_range. change 63%nat with (32 + 31)%nat. rewrite <- byte_at_drop.
  pose proof (last_byte_bound (drop 32 sig) 5 Hd ltac:(lia)) as Htop. change (248 + 5) with 253 in Htop.
  destruct (Z.ltb_spec (byte_at (drop 32 sig) 31) (2 ^ 5)) as [Hb|Hb]; cbn [negb].
  2: { exists false. split; [done|]. split; [done|]. intros (_ & Hv & _). apply Htop in Hv. lia. }
  apply Htop in Hb. pose proof (FromBytes_decides Extended_unset pk Hpk) as HF.
  destruct (Extended_FromBytes Extended_unset pk) as [[] pA].
  2: { exists false. split; [done|]. split; [done|]. intros (_ & _ & A & HA & _). by apply HF in HA. }
  destruct HF as (A & HA & HpA). rewrite (ScReduce_ok _ (Hlaws _)).
  set (h := le_get (sha512 (take 32 sig ++ pk ++ m))). assert (le_get (le_put 32 (h mod L)) <= 2 ^ 255) as Hh by (rewrite le_get_mod_L; pose proof (mod_L_below h); lia).
  destruct (GeDoubleScalarMultVartime_rep _ _ _ _ (length_le_put 32 (h mod L)) Hh Hd ltac:(lia) (neg_rep _ _ HpA)) as (R & E & HR).
  rewrite E. cbn [mbind option_bind]. rewrite (Projective_ToBytes_encode _ _ HR), le_get_mod_L. eexists. split; [reflexivity|].
  rewrite bool_decide_eq_true. split.
  - intros Heq. split; [done|]. split; [done|]. by exists A.
  - intros (_ & _ & A' & HA' & Heq). by rewrite (decodes_unique _ _ _ HA HA').
Qed.

(** ** Signing *)

Lemma cancel_neg c A R : padd (pmul c (pneg A)) (padd (pmul c A) R) = R.
Proof using. rewrite padd_assoc, <- pmul_padd, (padd_comm (pneg A)), padd_neg_r, pmul_zero. apply padd_zero_l. Qed.

(** A response to the challenge, from the scalar of the key and that of the commitment. *)
Definition response (a r : Z) (m : bytes) : bytes :=
  let R := encode (pmul r ed_B) in R ++ le_put 32 ((challenge R (encode (pmul a ed_B)) m mod L * a + r mod L) mod L).

Lemma length_response a r m : length (response a r m) = 64%nat.
Proof using. unfold response. by rewrite length_app, length_encode, length_le_put. Qed.

Lemma response_verifies a r m : verifies (encode (pmul a ed_B)) m (response a r m).
Proof using.
  unfold verifies, response. set (R := encode (pmul r ed_B)). set (c := challenge R _ m mod L).
  assert (length R = 32%nat) as HR by apply length_encode.
  rewrite length_app, HR, length_le_put, take_app_length', drop_app_length', le_get_mod_L by done. fold c.
  split; [done|]. split; [apply mod_L_below|]. exists (pmul a ed_B). split; [apply encode_decodes|]. fold c.
  by rewrite pmul_mod_L, pmul_add, pmul_mul, pmul_mod_L, cancel_neg.
Qed.

Lemma Ed_Verify_response a r m : Ed_Verify (encode (pmul a ed_B)) m (response a r m) = Some true.
Proof using Hlaws.
  destruct (Ed_Verify_ok (encode (pmul a ed_B)) m (response a r m) (length_encode _)) as (b & E & Hb).
  rewrite E, (proj2 Hb (response_verifies a r m)). done.
Qed.

(** What both signing functions compute, from the bytes of the scalar and the digest that the commitment is made of. *)
Lemma respond_ok s d m :
  length s = 32%nat -> length d = 64%nat ->
  (R ← public_bytes (ScReduce d);
   Some (R ++ ScMulAdd (ScReduce (sha512 (R ++ encode (pmul (le_get s) ed_B) ++ m))) s (ScReduce d))) = Some (response (le_get s) (le_get d) m).
Proof using Hlaws.
  intros Hs Hd. rewrite (ScReduce_ok d Hd), public_bytes_mod. cbn [mbind option_bind].
  rewrite (ScReduce_ok _ (Hlaws _)), ScMulAdd_ok by (try apply length_le_put; done). by rewrite !le_get_mod_L.
Qed.

Lemma bind_some {A B} (f : A -> option B) a : (x ← Some a; f x) = f a.
Proof using. reflexivity. Qed.

(** The scalar of a seed. *)
Definition seed_scalar (seed : bytes) : bytes := chainkd.modifyScalar (take 32 (sha512 seed)).

Lemma length_seed_scalar seed : length (seed_scalar seed) = 32%nat.
Proof using Hlaws. unfold seed_scalar. rewrite length_modifyScalar, length_take, (Hlaws seed). done. Qed.

Lemma GenerateKey_ok seed :
  GenerateKey (Some seed) = Some (Ok (encode (pmul (le_get (seed_scalar seed)) ed_B), seed ++ encode (pmul (le_get (seed_scalar seed)) ed_B))).
Proof using Hlaws.
  unfold GenerateKey. change (update_byte 31 _ (update_byte 31 _ (update_byte 0 _ (sha512 seed)))) with (chainkd.modifyScalar (sha512 seed)).
  rewrite take_modifyScalar. fold (seed_scalar seed). rewrite public_bytes_ok; [done|apply length_seed_scalar|].
  apply modifyScalar_below. rewrite length_take, (Hlaws seed). done.
Qed.

Lemma Ed_Sign_ok seed m :
  length seed = 32%nat -> Ed_Sign (seed ++ encode (pmul (le_get (seed_scalar seed)) ed_B)) m =
    Some (response (le_get (seed_scalar seed)) (le_get (sha512 (drop 32 (sha512 seed) ++ m))) m).
Proof using Hlaws.
  intros Hs. unfold Ed_Sign, PrivateKeySize. rewrite length_app, length_encode, Hs. cbn [Nat.eqb Nat.add negb].
  rewrite take_app_length', drop_app_length' by done. rewrite masks_same by (rewrite length_take, (Hlaws seed); done).
  fold (seed_scalar seed). apply respond_ok; [apply length_seed_scalar|apply Hlaws].
Qed.

(** ** Extended keys *)

Import chainkd.

(** Sixty-four bytes, whose scalar [GeScalarMultBase] can multiply. *)
Definition wf_xprv (xprv : bytes) : Prop := length xprv = 64%nat /\ le_get (take 32 xprv) < 2 ^ 255.

Definition xprv_point (xprv : bytes) : point := pmul (le_get (take 32 xprv)) ed_B.

Lemma wf_xprv_take xprv : wf_xprv xprv -> length (take 32 xprv) = 32%nat /\ length (drop 32 xprv) = 32%nat.
Proof using. intros [Hl _]. rewrite length_take, length_drop. lia. Qed.

Lemma XPrv_public xprv : wf_xprv xprv -> public_bytes (take 32 xprv) = Some (encode (xprv_point xprv)).
Proof using. intros Hw. destruct (wf_xprv_take _ Hw). apply public_bytes_ok; [done|apply Hw]. Qed.

Lemma XPrv_XPub_ok xprv : wf_xprv xprv -> XPrv_XPub xprv = Some (encode (xprv_point xprv) ++ drop 32 xprv).
Proof using. intros Hw. unfold XPrv_XPub. by rewrite (XPrv_public _ Hw). Qed.

Lemma NewXPrv_wf entropy xprv : NewXPrv entropy = Ok xprv -> wf_xprv xprv.
Proof using Hlaws.
  unfold NewXPrv. destruct entropy as [e|]; [|done]. intros [= <-]. set (x := sha512 _). assert (length x = 64%nat) as Hx by apply Hlaws.
  assert (length (take 32 x) = 32%nat) as Ht by (rewrite length_take; lia). split; [rewrite length_app, length_modifyScalar, length_drop; lia|].
  rewrite take_app_length' by (by rewrite length_modifyScalar). by apply modifyScalar_below.
Qed.

Lemma hashKeySaltSelector_ok v k s sel : length (hashKeySaltSelector v k s sel) = 64%nat /\ le_get (take 32 (hashKeySaltSelector v k s sel)) < 2 ^ 255.
Proof using Hlaws.
  unfold hashKeySaltSelector. rewrite length_modifyScalar, (Hlaws _), take_modifyScalar. split; [done|].
  apply modifyScalar_below. rewrite length_take, (Hlaws _). done.
Qed.

(** The scalar of a child is the sum of that of its parent and one that is hashed from public data. *)
Lemma XPrv_Child_ok xprv sel :
  wf_xprv xprv -> let res := hashKeySaltSelector Byte.x01 (encode (xprv_point xprv)) (drop 32 xprv) sel in
  XPrv_Child xprv sel false = Some (le_put 32 ((le_get (take 32 res) + le_get (take 32 xprv)) mod L) ++ drop 32 res).
Proof using Hlaws.
  intros Hw res. unfold XPrv_Child. rewrite (XPrv_public _ Hw). cbn [mbind option_bind]. fold res.
  destruct (hashKeySaltSelector_ok Byte.x01 (encode (xprv_point xprv)) (drop 32 xprv) sel) as [Hl _]. fold res in Hl.
  rewrite ScMulAdd_ok; [|done|rewrite length_take; lia|apply (wf_xprv_take _ Hw)]. change (le_get one) with 1. by rewrite Z.mul_1_l.
Qed.

Lemma XPrv_Child_wf xprv sel hardened child : wf_xprv xprv -> XPrv_Child xprv sel hardened = Some child -> wf_xprv child.
Proof using Hlaws.
  intros Hw. destruct hardened.
  - intros [= <-]. apply hashKeySaltSelector_ok.
  - rewrite (XPrv_Child_ok _ _ Hw). set (res := hashKeySaltSelector _ _ _ _). intros E. apply (inj Some) in E as <-.
    destruct (hashKeySaltSelector_ok Byte.x01 (encode (xprv_point xprv)) (drop 32 xprv) sel) as [Hl _]. fold res in Hl.
    split; [rewrite length_app, length_le_put, length_drop; lia|]. rewrite take_app_length' by (by rewrite length_le_put). rewrite le_get_mod_L.
    pose proof (mod_L_below (le_get (take 32 res) + le_get (take 32 xprv))). lia.
Qed.

Lemma XPub_Child_ok A salt sel :
  length salt = 32%nat -> let res := hashKeySaltSelector Byte.x01 (encode A) salt sel in
  XPub_Child (encode A ++ salt) sel = Some (encode (padd A (pmul (le_get (take 32 res)) ed_B)) ++ drop 32 res).
Proof using Hlaws.
  intros Hs res. unfold XPub_Child. rewrite take_app_length', drop_app_length' by (by rewrite length_encode). fold res.
  destruct (hashKeySaltSelector_ok Byte.x01 (encode A) salt sel) as [Hl Hv]. fold res in Hl, Hv.
  destruct (GeScalarMultBase_rep (take 32 res)) as (F & -> & HF); [rewrite length_take; lia|done|]. cbn [mbind option_bind].
  pose proof (FromBytes_decides Extended_unset (encode A) (length_encode A)) as HD.
  destruct (Extended_FromBytes Extended_unset (encode A)) as [[] pA]; [|by destruct (HD A (encode_decodes A))].
  destruct HD as (A' & HA & HpA). rewrite (decodes_unique _ _ _ (encode_decodes A) HA). cbn [snd].
  by rewrite (Extended_ToBytes_encode _ _ (Completed_ToExtended_rep _ _ (geAdd_rep _ _ _ _ HpA (ToCached_rep _ _ HF)))).
Qed.

Lemma child_corresponds xprv sel :
  wf_xprv xprv -> exists child, XPrv_Child xprv sel false = Some child /\ wf_xprv child /\
    XPub_Child (encode (xprv_point xprv) ++ drop 32 xprv) sel = Some (encode (xprv_point child) ++ drop 32 child).
Proof using Hlaws.
  intros Hw. pose proof (XPrv_Child_ok xprv sel Hw) as E. cbv zeta in E. eexists. split; [exact E|]. split; [exact (XPrv_Child_wf _ _ _ _ Hw E)|].
  rewrite XPub_Child_ok by apply (wf_xprv_take _ Hw). set (f := take 32 (hashKeySaltSelector _ _ _ _)). set (salt := drop 32 (hashKeySaltSelector _ _ _ _)).
  assert (xprv_point (le_put 32 ((le_get f + le_get (take 32 xprv)) mod L) ++ salt) = padd (xprv_point xprv) (pmul (le_get f) ed_B)) as ->.
  { unfold xprv_point. by rewrite take_app_length', le_get_mod_L, pmul_mod_L, pmul_add, padd_comm by (by rewrite length_le_put). }
  by rewrite drop_app_length' by (by rewrite length_le_put).
Qed.

Lemma derive_corresponds path xprv :
  wf_xprv xprv -> exists xprv', XPrv_Derive xprv path = Some xprv' /\ wf_xprv xprv' /\
    XPub_Derive (encode (xprv_point xprv) ++ drop 32 xprv) path = Some (encode (xprv_point xprv') ++ drop 32 xprv').
Proof using Hlaws.
  revert xprv. induction path as [|sel path IH]; intros xprv Hw; [by exists xprv|].
  destruct (child_corresponds xprv sel Hw) as (child & E1 & Hc & E2). destruct (IH child Hc) as (xprv' & E3 & Hw' & E4).
  exists xprv'. unfold XPrv_Derive, XPub_Derive in *. cbn [foldl mbind option_bind]. rewrite E1, E2. exact (conj E3 (conj Hw' E4)).
Qed.

Lemma XPrv_Sign_ok xprv m :
  wf_xprv xprv -> XPrv_Sign xprv m = Some (response (le_get (take 32 xprv)) (le_get (sha512 (take 32 (hashKeySalt Byte.x02 (take 32 xprv) (drop 32 xprv)) ++ m))) m).
Proof using Hlaws.
  intros Hw. rewrite <- (respond_ok (take 32 xprv)); [|apply (wf_xprv_take _ Hw)|apply Hlaws].
  unfold XPrv_Sign. rewrite (XPrv_public _ Hw), bind_some. reflexivity.
Qed.

Lemma XPrv_Sign_verifies xprv m : wf_xprv xprv -> exists sig, XPrv_Sign xprv m = Some sig /\ length sig = 64%nat /\ Ed_Verify (encode (xprv_point xprv)) m sig = Some true.
Proof using Hlaws. intros Hw. eexists. split; [exact (XPrv_Sign_ok _ m Hw)|]. split; [apply length_response|apply Ed_Verify_response]. Qed.

End verify.
