(* ===== verification/Ed25519Theorems.v ===== *)
(** * Theorems on Ed25519

    The arithmetic of the field, the group and the scalars is exact; encodings are read
    back; scalar multiplication computes multiples; what is signed verifies, and only
    that what satisfies the equation of verification; keys that are derived from a
    private and from its public key correspond, and the virtual machine accepts their
    signatures. *)

From Stdlib Require Import ZArith Lia Strings.Byte.
From S2P Require Import Prelude Checked GoSlice Crypto VMCode VM VMExec VMSpec Encoding Fp FieldElement FieldBytes Edwards GroupElement GroupBytes TableProof Scalar ScalarMult Ed25519 Ed25519Proof.
From S2P Require Legacy LegacyRoundtrip.

Local Open Scope Z_scope.

(** ** Field, group, scalars *)

(** C29: The operations on limbs compute those of the field of [2 ^ 255 - 19], without overflow of 32 or 64 bits, for all limbs within
    the bound [loose], which the sums and differences that the code multiplies keep to; products are within [tight]. *)
Theorem field_arithmetic_exact f g (Hf : bounded loose f) (Hg : bounded loose g) :
  (fe (FeAdd f g) = fe f + fe g /\ fe (FeSub f g) = fe f - fe g /\ fe (FeNeg f) = - fe f)%fp /\
  (fe (FeMul f g) = fe f * fe g /\ fe (FeSquare f) = fe f * fe f /\ fe (FeSquare2 f) = 2 * (fe f * fe f) /\ fe (FeInvert f) = finv (fe f))%fp /\
  Forall (bounded tight) [FeMul f g; FeSquare f; FeSquare2 f; FeInvert f] /\
  (FeToBytes f).1 = fp_bytes (fe f) /\ (FeIsNegative f).1 = fp_sign (fe f) /\ ((FeIsNonZero f).1 = 0 <-> fe f = 0%fp).
Proof.
  destruct (FeAdd_ok loose loose f g ltac:(done) Hf Hg) as [E1 _]. destruct (FeSub_ok loose loose f g ltac:(done) Hf Hg) as [E2 _].
  destruct (FeNeg_ok loose f ltac:(done) Hf) as [E3 _]. destruct (FeMul_ok f g Hf Hg) as [E4 B4]. destruct (FeSquare_ok f Hf) as [E5 B5].
  destruct (FeSquare2_ok f Hf) as [E6 B6]. destruct (FeInvert_ok f Hf) as [E7 B7].
  destruct (FeToBytes_ok f Hf) as (t & -> & _). destruct (FeIsNegative_ok f Hf) as (n & -> & _). destruct (FeIsNonZero_ok f Hf) as (z & -> & _).
  split; [exact (conj E1 (conj E2 E3))|]. split; [exact (conj E4 (conj E5 (conj E6 E7)))|].
  split; [repeat (apply Forall_cons_2; [assumption|]); apply Forall_nil_2|]. cbn [fst]. split; [reflexivity|]. split; [reflexivity|].
  destruct (decide (fe f = 0%fp)) as [E|E]; [split; [intros _; exact E|reflexivity]|split; [discriminate|intros E0; destruct (E E0)]].
Qed.

(** The largest limbs that are allowed. *)
Lemma field_arithmetic_exact_witness :
  let f := FE 110729624 (-55364812) 110729624 55364812 (-110729624) 55364812 110729624 55364812 110729624 (-55364812) in
  bounded loose f /\ (fe (FeMul f f) = fe f * fe f)%fp.
Proof.
  assert (bounded loose (FE 110729624 (-55364812) 110729624 55364812 (-110729624) 55364812 110729624 55364812 110729624 (-55364812))) as H
    by (unfold bounded, loose; cbn [fe0 fe1 fe2 fe3 fe4 fe5 fe6 fe7 fe8 fe9]; lia).
  split; [exact H|]. exact (proj1 (proj1 (proj2 (field_arithmetic_exact _ _ H H)))).
Defined.

(** C30: Addition, subtraction and doubling in the representations of the code, and the conversions between them, are the group law of the
    curve: there are no exceptional points. *)
Theorem group_operations_refine p P q Q r R (Hp : rep_extended p P) (Hq : rep_extended q Q) (Hr : rep_precomputed r R) :
  rep_completed (geAdd p (Extended_ToCached q)) (padd P Q) /\ rep_completed (geSub p (Extended_ToCached q)) (padd P (pneg Q)) /\
  rep_completed (geMixedAdd p r) (padd P R) /\ rep_completed (geMixedSub p r) (padd P (pneg R)) /\
  rep_completed (Extended_Double p) (padd P P) /\ rep_completed (Projective_Double (Extended_ToProjective p)) (padd P P) /\
  (forall t T, rep_completed t T -> rep_extended (Completed_ToExtended t) T /\ rep_projective (Completed_ToProjective t) T).
Proof.
  split; [by apply geAdd_rep, ToCached_rep|]. split; [by apply geSub_rep, ToCached_rep|]. split; [by apply geMixedAdd_rep|].
  split; [by apply geMixedSub_rep|]. split; [by apply Extended_Double_rep|]. split; [by apply Projective_Double_rep, ToProjective_rep|].
  intros t T Ht. split; [by apply Completed_ToExtended_rep|by apply Completed_ToProjective_rep].
Qed.

(** The point at infinity of the code and the base point. *)
Lemma group_operations_refine_witness :
  exists r, rep_precomputed r ed_B /\ rep_completed (geMixedAdd Extended_Zero r) (padd pzero ed_B).
Proof.
  destruct (bi_entry 0 ltac:(lia)) as (r & _ & Hr). exists r. change (2 * Z.of_nat 0 + 1) with 1 in Hr. rewrite pmul_1 in Hr.
  split; [exact Hr|]. exact (proj1 (proj2 (proj2 (group_operations_refine _ _ _ _ _ _ Extended_Zero_rep Extended_Zero_rep Hr)))).
Defined.

(** C31: [ToBytes] writes the encoding of the point, in both representations; [FromBytes] reads it back as the same point, and in general
    accepts exactly the strings that decode to a point of the curve. *)
Theorem point_bytes_roundtrip p q P p0 s (Hp : rep_extended p P) (Hq : rep_projective q P) (Hs : length s = 32%nat) :
  Extended_ToBytes p = encode P /\ Projective_ToBytes q = encode P /\
  (exists p', Extended_FromBytes p0 (Extended_ToBytes p) = (true, p') /\ rep_extended p' P) /\
  match Extended_FromBytes p0 s with
  | (true, p') => exists P', decodes s P' /\ rep_extended p' P'
  | (false, _) => forall P', ~ decodes s P'
  end.
Proof.
  rewrite (Extended_ToBytes_encode _ _ Hp), (Projective_ToBytes_encode _ _ Hq). split; [done|]. split; [done|]. split; [|by apply FromBytes_decides].
  pose proof (FromBytes_decides p0 (encode P) (length_encode P)) as H. destruct (Extended_FromBytes p0 (encode P)) as [[] p'].
  - exists p'. split; [done|]. destruct H as (P' & HP & Hr). by rewrite (decodes_unique _ _ _ (encode_decodes P) HP).
  - by destruct (H P (encode_decodes P)).
Qed.

Lemma point_bytes_roundtrip_witness : exists p', Extended_FromBytes Extended_unset (Extended_ToBytes Extended_Zero) = (true, p') /\ rep_extended p' pzero.
Proof.
  pose proof (point_bytes_roundtrip Extended_Zero Projective_Zero pzero Extended_unset (replicate 32 x00)
    Extended_Zero_rep Projective_Zero_rep eq_refl) as H. destruct H as (_ & _ & H & _). exact H.
Defined.

(** C28: [ScMulAdd] and [ScReduce] compute modulo the order of the base point, for all inputs, without overflow, and write the remainder
    itself: what is below the order. *)
Theorem scalar_arithmetic_exact a b c w (Ha : length a = 32%nat) (Hb : length b = 32%nat) (Hc : length c = 32%nat) (Hw : length w = 64%nat) :
  ScMulAdd a b c = le_put 32 ((le_get a * le_get b + le_get c) mod L) /\ ScReduce w = le_put 32 (le_get w mod L).
Proof. split; [by apply ScMulAdd_ok|by apply ScReduce_ok]. Qed.

(** The greatest numbers of 32 and 64 bytes. *)
Lemma scalar_arithmetic_exact_witness :
  let m := replicate 32 xff in le_get m = 2 ^ 256 - 1 /\ ScMulAdd m m m = le_put 32 ((le_get m * le_get m + le_get m) mod L).
Proof. split; [reflexivity|]. exact (proj1 (scalar_arithmetic_exact (replicate 32 xff) (replicate 32 xff) (replicate 32 xff) (replicate 64 xff) eq_refl eq_refl eq_refl eq_refl)). Defined.

(** C27: For scalars below [2 ^ 255] the loops over signed digits end within their tables and compute [a * B], and [a * A + b * B], where
    [B] is the base point. *)
Theorem scalar_multiplication_exact a b p A
  (Ha : length a = 32%nat) (Hb : length b = 32%nat) (Va : le_get a < 2 ^ 255) (Vb : le_get b < 2 ^ 255) (Hp : rep_extended p A) :
  (exists h, GeScalarMultBase a = Some h /\ rep_extended h (pmul (le_get a) ed_B)) /\
  (exists r, GeDoubleScalarMultVartime a p b = Some r /\ rep_projective r (padd (pmul (le_get a) A) (pmul (le_get b) ed_B))).
Proof. split; [by apply GeScalarMultBase_rep|]. apply GeDoubleScalarMultVartime_rep; done || lia. Qed.

Lemma scalar_multiplication_exact_witness :
  let a := le_put 32 (2 ^ 255 - 1) in exists h, GeScalarMultBase a = Some h /\ rep_extended h (pmul (le_get a) ed_B).
Proof.
  exact (proj1 (scalar_multiplication_exact (le_put 32 (2 ^ 255 - 1)) ecmath.Zero Extended_Zero pzero eq_refl eq_refl
    ltac:(vm_compute; reflexivity) ltac:(vm_compute; reflexivity) Extended_Zero_rep)).
Defined.

(** ** Signatures *)

Section signatures.
Context `{Hsha : Sha512} `{Hlaws : !Sha512Laws}.

(** C23: [Verify] panics for a key that is not of 32 bytes, and otherwise decides the equation of verification: the key decodes to a point
    [A], the second half of the signature is a number [s] below [2 ^ 253], and the first half is the encoding of [s * B - h * A], where [h]
    is the hash of commitment, key and message modulo the order. *)
Theorem Verify_decides pk m sig :
  (length pk <> 32%nat -> Ed_Verify pk m sig = None) /\
  (length pk = 32%nat -> exists b, Ed_Verify pk m sig = Some b /\ (b = true <-> verifies pk m sig)).
Proof using Hlaws. split; [apply Ed_Verify_panics|apply Ed_Verify_ok]. Qed.

(** C24: A key that [GenerateKey] returns signs: [Sign] does not panic, and [Verify] accepts the signature under the public key, which
    [Public] takes from the private key. *)
Theorem generated_key_signs seed m (Hseed : length seed = 32%nat) :
  exists pub priv sig, GenerateKey (Some seed) = Some (Ok (pub, priv)) /\ PrivateKey_Public priv = Some pub /\ take 32 priv = seed /\
    PrivateKey_Sign priv m 0 = Some (Ok sig) /\ length sig = 64%nat /\ Ed_Verify pub m sig = Some true.
Proof using Hlaws.
  set (a := le_get (seed_scalar seed)). exists (encode (pmul a ed_B)), (seed ++ encode (pmul a ed_B)). eexists.
  split; [apply GenerateKey_ok|]. pose proof (length_encode (pmul a ed_B)) as HA. split; [|split; [by rewrite take_app_length'|split]].
  - unfold PrivateKey_Public. rewrite length_app, Hseed, HA. cbn [Nat.add Nat.ltb Nat.leb]. rewrite drop_app_length' by done.
    by rewrite take_app_length' by done.
  - unfold PrivateKey_Sign. cbn [Z.eqb negb]. unfold a. rewrite Ed_Sign_ok by done. cbn [mbind option_bind]. reflexivity.
  - split; [apply length_response|apply Ed_Verify_response].
Qed.

(** A signature is not the only one: with the order added to its second half it is another one for the same message. *)
Lemma signature_malleable pk m R s :
  length R = 32%nat -> length s = 32%nat -> le_get s + L < 2 ^ 253 -> Ed_Verify pk m (R ++ s) = Some true ->
  Ed_Verify pk m (R ++ le_put 32 (le_get s + L)) = Some true /\ R ++ le_put 32 (le_get s + L) <> R ++ s.
Proof using Hlaws.
  intros HR Hs HL Hv. assert (length pk = 32%nat) as Hpk.
  { destruct (decide (length pk = 32%nat)) as [?|Hne]; [done|]. rewrite (Ed_Verify_panics pk m _ Hne) in Hv. done. }
  pose proof (le_get_bound s) as Bs. pose proof L_pos as HLp.
  assert (le_get (le_put 32 (le_get s + L)) = le_get s + L) as E.
  { rewrite le_get_put. apply Z.mod_small. change (256 ^ Z.of_nat 32) with (2 ^ 256). lia. }
  split.
  - destruct (Ed_Verify_ok pk m (R ++ s) Hpk) as (b & Eb & Hb). rewrite Hv in Eb. apply (inj Some) in Eb.
    destruct (proj1 Hb (eq_sym Eb)) as (_ & _ & A & HA & Heq). rewrite take_app_length', drop_app_length' in Heq by done.
    destruct (Ed_Verify_ok pk m (R ++ le_put 32 (le_get s + L)) Hpk) as (b' & -> & Hb'). f_equal. apply Hb'.
    unfold verifies. rewrite take_app_length', drop_app_length', length_app, length_le_put, E by done. split; [lia|]. split; [done|].
    exists A. split; [done|]. by rewrite pmul_add, pmul_L, padd_zero_r.
  - intros Happ. apply app_inv_head in Happ. apply (f_equal le_get) in Happ. lia.
Qed.

(** ** Derived keys *)

Import chainkd.

(** C25: A key that is derived from a private key has the public key that is derived from the public key, along every path; the derivations
    do not panic, and what the derived key signs verifies under the derived public key. *)
Theorem derived_keys_correspond xprv path m (Hw : wf_xprv xprv) :
  exists xpub xprv' xpub' sig, XPrv_XPub xprv = Some xpub /\ XPrv_Derive xprv path = Some xprv' /\ XPub_Derive xpub path = Some xpub' /\
    XPrv_XPub xprv' = Some xpub' /\ XPrv_Sign xprv' m = Some sig /\ XPub_Verify xpub' m sig = Some true.
Proof using Hlaws.
  destruct (derive_corresponds path xprv Hw) as (xprv' & Ed & Hw' & Ep). destruct (XPrv_Sign_verifies xprv' m Hw') as (sig & Es & Hl & Hv).
  exists (encode (xprv_point xprv) ++ drop 32 xprv), xprv', (encode (xprv_point xprv') ++ drop 32 xprv'), sig.
  split; [by apply XPrv_XPub_ok|]. split; [done|]. split; [done|]. split; [by apply XPrv_XPub_ok|]. split; [done|].
  unfold XPub_Verify, XPub_PublicKey. by rewrite take_app_length' by (by rewrite length_encode).
Qed.

End signatures.

(** ** The virtual machine with these signatures *)

(** The digests of [c], and signatures as they are.  [Verify] panics for a key of the wrong length; the machine does not call it then. *)
Definition ed25519_crypto `{Sha512} (c : Crypto) : Crypto := {|
  sha256_sum := @sha256_sum c;
  sha3_256_sum := @sha3_256_sum c;
  ed25519_Verify pk m sig := default false (Ed_Verify pk m sig);
|}.

Section multisig.
Context `{Hsha : Sha512} `{Hlaws : !Sha512Laws} `{Hrt : Runtime} (c : Crypto).
Import chainkd.

(** The derived key of a private key, and its signature. *)
Definition sign_derived (path : list bytes) (m : bytes) (xprv : bytes) : option bytes := k ← XPrv_Derive xprv path; XPrv_Sign k m.

Lemma derived_signer xprv path m :
  wf_xprv xprv -> exists xpub dpub sig, XPrv_XPub xprv = Some xpub /\ XPub_Derive xpub path = Some dpub /\ sign_derived path m xprv = Some sig /\
    length sig = 64%nat /\ Ed_Verify (XPub_PublicKey dpub) m sig = Some true.
Proof using Hlaws.
  intros Hw. destruct (derive_corresponds path xprv Hw) as (xprv' & Ed & Hw' & Ep). destruct (XPrv_Sign_verifies xprv' m Hw') as (sig & Es & Hl & Hv).
  exists (encode (xprv_point xprv) ++ drop 32 xprv), (encode (xprv_point xprv') ++ drop 32 xprv'), sig. split; [exact (XPrv_XPub_ok _ Hw)|].
  split; [exact Ep|]. split; [unfold sign_derived; rewrite Ed; exact Es|]. split; [exact Hl|]. unfold XPub_PublicKey.
  rewrite take_app_length' by (by rewrite length_encode). exact Hv.
Qed.

Lemma mapM_cons {A B} (f : A -> option B) x l r :
  mapM f (x :: l) = Some r -> exists y r', f x = Some y /\ mapM f l = Some r' /\ r = y :: r'.
Proof using. intros E%mapM_Some. apply Forall2_cons_inv_l in E as (y & r' & Hy & E & ->). exists y, r'. by rewrite <- mapM_Some in E. Qed.

Lemma derived_signed_by xprvs signers path m :
  signers `sublist_of` xprvs -> forall xpubs dpubs sigs, Forall wf_xprv xprvs ->
  mapM XPrv_XPub xprvs = Some xpubs -> DeriveXPubs xpubs path = Some dpubs -> mapM (sign_derived path m) signers = Some sigs ->
  @signed_by (ed25519_crypto c) m sigs (XPubKeys dpubs).
Proof using Hlaws.
  unfold DeriveXPubs, XPubKeys. induction 1 as [|x signers xprvs Hsub IH|x signers xprvs Hsub IH]; intros xpubs dpubs sigs Hw Hp Hd Hs.
  - apply (inj Some) in Hp as <-. apply (inj Some) in Hd as <-. apply (inj Some) in Hs as <-. exists []. split; [done|constructor].
  - apply Forall_cons in Hw as [Hx Hw]. destruct (derived_signer x path m Hx) as (xpub & dpub & sig & E1 & E2 & E3 & _ & Hv).
    apply mapM_cons in Hp as (y & xpubs' & Ey & Hp & ->). rewrite E1 in Ey. apply (inj Some) in Ey as <-.
    apply mapM_cons in Hd as (y & dpubs' & Ey & Hd & ->). rewrite E2 in Ey. apply (inj Some) in Ey as <-.
    apply mapM_cons in Hs as (y & sigs' & Ey & Hs & ->). rewrite E3 in Ey. apply (inj Some) in Ey as <-.
    destruct (IH xpubs' dpubs' sigs' Hw Hp Hd Hs) as (sel & Hsel & Hf). exists (XPub_PublicKey dpub :: sel).
    split; [by apply sublist_skip|]. constructor; [|exact Hf]. cbn [ed25519_Verify ed25519_crypto]. by rewrite Hv.
  - apply Forall_cons in Hw as [Hx Hw]. apply mapM_cons in Hp as (y & xpubs' & Ey & Hp & ->). apply mapM_cons in Hd as (y' & dpubs' & Ey' & Hd & ->).
    destruct (IH xpubs' dpubs' sigs Hw Hp Hd Hs) as (sel & Hsel & Hf). exists sel. split; [by apply sublist_cons|exact Hf].
Qed.

(** C26: With the signatures of this package, [CHECKMULTISIG] is true for the public keys that are derived from extended public keys along a
    path and the signatures of the keys that are derived from the private keys of some of them, in the same order. *)
Theorem multisig_accepts_derived_keys vm sn sm pubs smsg sigs rest xprvs signers xpubs dpubs path
  (Hw : Forall wf_xprv xprvs) (Hsub : signers `sublist_of` xprvs) (Hx : mapM XPrv_XPub xprvs = Some xpubs) (Hd : DeriveXPubs xpubs path = Some dpubs)
  (Hkeys : map (sbytes (mem vm)) pubs = XPubKeys dpubs)
  (Hsigs : mapM (sign_derived path (sbytes (mem vm) smsg)) signers = Some (map (sbytes (mem vm)) sigs))
  (Hst : dataStack vm = sn :: sm :: pubs ++ smsg :: sigs ++ rest) (Hdef : deferredCost vm = 0)
  (Hcost : stackCost (dataStack vm) <= 2 ^ 50) (Hrun : 1024 * zlen pubs <= runLimit vm <= 2 ^ 59)
  (Hn : AsInt64 (sbytes (mem vm) sn) = Ok (zlen pubs)) (Hm : AsInt64 (sbytes (mem vm) sm) = Ok (zlen sigs))
  (Hsome : 1 <= zlen sigs <= zlen pubs) (Hmsg : slen smsg = 32) (Hlens : Forall (fun p => slen p = 32) pubs) :
  exists vm', opCheckMultiSig (H0 := ed25519_crypto c) vm = (Ret tt, vm') /\ dataStack vm' = trueBytes :: rest.
Proof using Hlaws.
  destruct (opCheckMultiSig_spec (H0 := ed25519_crypto c) vm sn sm pubs smsg sigs rest Hst Hdef Hcost Hrun Hn Hm Hsome Hmsg Hlens) as (b & vm' & E1 & E2 & E3).
  exists vm'. split; [exact E1|]. rewrite E2. rewrite (proj2 E3); [reflexivity|]. rewrite Hkeys.
  exact (derived_signed_by xprvs signers path _ Hsub xpubs dpubs _ Hw Hx Hd Hsigs).
Qed.

End multisig.

(** ** Keys as text *)

Lemma hex_prefix_decode : forall l inp, Legacy.hex_decode inp = Some l -> chainkd.hex_prefix inp = (l, true).
Proof.
  fix IH 2. intros l [|a [|b inp]]; cbn [Legacy.hex_decode chainkd.hex_prefix]; [by intros [= <-]|done|].
  destruct (Legacy.from_hex a) as [x|]; [|done]. destruct (Legacy.from_hex b) as [y|]; [|done]. cbn [mbind option_bind].
  destruct (Legacy.hex_decode inp) as [r|] eqn:E; [|done]. intros [= <-]. by rewrite (IH r inp E).
Qed.

(** A key that is written is read back, whatever was in the receiver. *)
Lemma key_text_roundtrip key old :
  length key = 64%nat -> length old = 64%nat ->
  chainkd.XPub_UnmarshalText old (chainkd.XPub_MarshalText key) = (None, key) /\ chainkd.XPrv_UnmarshalText old (chainkd.XPrv_MarshalText key) = (None, key).
Proof.
  intros Hk Ho. assert (zlen (Legacy.hex_encode key) = 128) as Hl.
  { unfold zlen, Legacy.hex_encode. rewrite (flat_map_constant_length (c := 2)) by done. lia. }
  unfold chainkd.XPub_UnmarshalText, chainkd.XPrv_UnmarshalText, chainkd.Key_UnmarshalText, chainkd.XPub_MarshalText, chainkd.XPrv_MarshalText, chainkd.Key_MarshalText.
  rewrite Hl, (hex_prefix_decode key _ (LegacyRoundtrip.hex_roundtrip key)). cbn [Z.eqb negb]. rewrite drop_ge by lia. by rewrite app_nil_r.
Qed.

(** ** [ecmath] *)

Import ecmath.

(** The operations of [ecmath] are those of the group and of the integers modulo the order; [ScMulAdd] may ignore whether the bytes it
    has written itself are a point, since they are, and [ConstTimeEqual] compares points, not their coordinates. *)
Lemma ecmath_operations_exact z p P q Q x y
  (Hp : rep_extended p P) (Hq : rep_extended q Q) (Hx : length x = 32%nat) (Hy : length y = 32%nat) (Vx : le_get x < 2 ^ 255) (Vy : le_get y < 2 ^ 255) :
  rep_extended (Point_Add p q) (padd P Q) /\ rep_extended (Point_Sub p q) (padd P (pneg Q)) /\
  (exists r, ScMulBase x = Some r /\ rep_extended r (pmul (le_get x) ed_B)) /\
  (exists r, Point_ScMulAdd z p x y = Some r /\ rep_extended r (padd (pmul (le_get x) P) (pmul (le_get y) ed_B))) /\
  ConstTimeEqual p q = bool_decide (P = Q) /\
  Scalar_Add x y = le_put 32 ((le_get x + le_get y) mod L) /\ Scalar_Sub x y = le_put 32 ((le_get x - le_get y) mod L) /\
  Scalar_Neg x = le_put 32 (- le_get x mod L).
Proof.
  split; [by apply Completed_ToExtended_rep, geAdd_rep, ToCached_rep|]. split; [by apply Completed_ToExtended_rep, geSub_rep, ToCached_rep|].
  split; [by apply GeScalarMultBase_rep|]. split; [|split; [|split; [|split]]].
  - unfold Point_ScMulAdd. destruct (GeDoubleScalarMultVartime_rep x p P y Hx ltac:(lia) Hy ltac:(lia) Hp) as (r & -> & Hr). cbn [mbind option_bind].
    rewrite (Projective_ToBytes_encode _ _ Hr). eexists. split; [reflexivity|]. set (S := padd _ _).
    pose proof (FromBytes_decides z (encode S) (length_encode S)) as H. destruct (Extended_FromBytes z (encode S)) as [[] r'].
    + destruct H as (S' & HS & Hr'). by rewrite (decodes_unique _ _ _ (encode_decodes S) HS).
    + by destruct (H S (encode_decodes S)).
  - unfold ConstTimeEqual, Encode. rewrite (Extended_ToBytes_encode _ _ Hp), (Extended_ToBytes_encode _ _ Hq). apply bool_decide_ext.
    split; [intros E; symmetry; by apply encode_inj|by intros ->].
  - unfold Scalar_Add, MulAdd. rewrite ScMulAdd_ok by done. change (le_get One) with 1. by rewrite Z.mul_1_r.
  - unfold Scalar_Sub, MulAdd. rewrite ScMulAdd_ok by done. change (le_get NegOne) with (L - 1). f_equal.
    replace (le_get y * (L - 1) + le_get x) with (le_get x - le_get y + le_get y * L) by ring. apply Z_mod_plus_full.
  - unfold Scalar_Neg, MulAdd. rewrite ScMulAdd_ok by done. change (le_get NegOne) with (L - 1). change (le_get Zero) with 0. f_equal.
    replace (le_get x * (L - 1) + 0) with (- le_get x + le_get x * L) by ring. apply Z_mod_plus_full.
Qed.

Lemma ecmath_operations_exact_witness :
  exists r, Point_ScMulAdd Extended_unset Extended_Zero NegOne One = Some r /\ rep_extended r (padd (pmul (le_get NegOne) pzero) (pmul (le_get One) ed_B)).
Proof.
  destruct (ecmath_operations_exact Extended_unset Extended_Zero pzero Extended_Zero pzero NegOne One Extended_Zero_rep Extended_Zero_rep
    eq_refl eq_refl ltac:(vm_compute; reflexivity) ltac:(vm_compute; reflexivity)) as (_ & _ & _ & H & _). exact H.
Defined.

(** ** Examples *)

(** A stand-in for SHA-512: the first 64 bytes of the input, padded. *)
#[local] Instance toy_sha512 : Sha512 := fun bs => take 64 (bs ++ replicate 64 x00).

Lemma toy_sha512_laws : @Sha512Laws toy_sha512.
Proof. intros bs. unfold sha512, toy_sha512. rewrite length_take, length_app, length_replicate. lia. Qed.

Lemma generated_key_signs_witness :
  exists pub priv sig, GenerateKey (Some (replicate 32 x2a)) = Some (Ok (pub, priv)) /\ PrivateKey_Public priv = Some pub /\ take 32 priv = replicate 32 x2a /\
    PrivateKey_Sign priv [x61] 0 = Some (Ok sig) /\ length sig = 64%nat /\ Ed_Verify pub [x61] sig = Some true.
Proof. exact (generated_key_signs (Hlaws := toy_sha512_laws) (replicate 32 x2a) [x61] eq_refl). Defined.

Definition demo_xprv : bytes := replicate 64 x2a.

Lemma demo_xprv_wf : wf_xprv demo_xprv.
Proof. split; [reflexivity|vm_compute; reflexivity]. Qed.

Lemma Verify_decides_witness : exists b, Ed_Verify One [x61] (replicate 64 x00) = Some b /\ (b = true <-> verifies One [x61] (replicate 64 x00)).
Proof. exact (proj2 (Verify_decides (Hlaws := toy_sha512_laws) One [x61] (replicate 64 x00)) eq_refl). Defined.

Lemma derived_keys_correspond_witness :
  exists xpub xprv' xpub' sig, chainkd.XPrv_XPub demo_xprv = Some xpub /\ chainkd.XPrv_Derive demo_xprv [[x01]; [x02; x03]] = Some xprv' /\
    chainkd.XPub_Derive xpub [[x01]; [x02; x03]] = Some xpub' /\ chainkd.XPrv_XPub xprv' = Some xpub' /\
    chainkd.XPrv_Sign xprv' [x61] = Some sig /\ chainkd.XPub_Verify xpub' [x61] sig = Some true.
Proof. exact (derived_keys_correspond (Hlaws := toy_sha512_laws) demo_xprv [[x01]; [x02; x03]] [x61] demo_xprv_wf). Defined.

Lemma multisig_accepts_derived_keys_witness :
  exists vm vm', opCheckMultiSig (H0 := ed25519_crypto toy_crypto) vm = (Ret tt, vm') /\ dataStack vm' = [trueBytes].
Proof.
  destruct (derived_signer (Hlaws := toy_sha512_laws) demo_xprv [[x07]] (replicate 32 x61) demo_xprv_wf) as (xpub & dpub & sig & E1 & E2 & E3 & Hl & _).
  set (key := chainkd.XPub_PublicKey dpub). set (heap := [[x01]; [x01]; [x01]; key; replicate 32 x61; sig] : heap).
  set (vm := demo_vm [Slice 1 0 1 1; Slice 2 0 1 1; Slice 3 0 32 32; Slice 4 0 32 32; Slice 5 0 64 64] heap).
  exists vm.
  apply (multisig_accepts_derived_keys (Hlaws := toy_sha512_laws) toy_crypto vm (Slice 1 0 1 1) (Slice 2 0 1 1) [Slice 3 0 32 32] (Slice 4 0 32 32) [Slice 5 0 64 64] []
    [demo_xprv] [demo_xprv] [xpub] [dpub] [[x07]]).
  - constructor; [exact demo_xprv_wf|constructor].
  - reflexivity.
  - rewrite mapM_Some. constructor; [exact E1|constructor].
  - unfold chainkd.DeriveXPubs. rewrite mapM_Some. constructor; [exact E2|constructor].
  - change (map (sbytes (mem vm)) [Slice 3 0 32 32]) with [take 32 key]. unfold key, chainkd.XPubKeys, chainkd.XPub_PublicKey. cbn [map].
    by rewrite take_take.
  - change (map (sbytes (mem vm)) [Slice 5 0 64 64]) with [take 64 sig]. rewrite take_ge by lia. rewrite mapM_Some.
    constructor; [exact E3|constructor].
  - reflexivity.
  - reflexivity.
  - vm_compute. discriminate.
  - vm_compute. split; discriminate.
  - reflexivity.
  - reflexivity.
  - vm_compute. split; discriminate.
  - reflexivity.
  - constructor; [reflexivity|constructor].
Defined.
