(* ===== verification/RaftState.v ===== *)
(** * The replicated store: [database/raft/state/state.go]

    A [State] holds keys with values, the version of each key (the index of the log entry
    that wrote it), the addresses of the peers, and the index of the last entry applied.
    An entry is an instruction: conditions on keys, and operations that are carried out
    when all of them hold.  [Apply] is related to a transaction on an abstract store; the
    end of the file follows a store through a snapshot, which does not keep versions.

    The messages of [statepb] are encoded by a library ([golang/protobuf]), which is a
    parameter of the model: [Class Protobuf], with its documented laws. *)

From Stdlib Require Import ZArith Lia Strings.Byte String.
From stdpp Require Import gmap.
From S2P Require Import Prelude Encoding.

(** ** Maps of Go

    [None] is the nil map: it reads as the empty one, and to write to it is a panic. *)

Definition gomap (K V : Type) `{Countable K} := option (gmap K V).

Section GoMap.
Context {K V : Type} `{Countable K}.
Definition gm_items (m : gomap K V) : gmap K V := default ∅ m.
Definition gm_set (k : K) (v : V) (m : gomap K V) : option (gomap K V) := m ← m; Some (Some (<[k := v]> m)).
Definition gm_delete (k : K) (m : gomap K V) : gomap K V := delete k <$> m.

Lemma gm_items_delete k m : gm_items (gm_delete k m) = delete k (gm_items m).
Proof. destruct m; simpl; [done|]. by rewrite delete_empty. Qed.
End GoMap.

(** ** Messages: [internal/statepb] *)

(** The types of conditions and operations are open: any 32-bit number can be read. *)
Definition Cond_KEY_EXISTS : Z := 0.
Definition Cond_NOT_KEY_EXISTS : Z := 1.
Definition Cond_VALUE_EQUAL : Z := 2.
Definition Cond_NOT_VALUE_EQUAL : Z := 3.
Definition Cond_INDEX_EQUAL : Z := 4.
Definition Cond_NOT_INDEX_EQUAL : Z := 5.
Definition Op_SET : Z := 0.
Definition Op_DELETE : Z := 1.

Record Cond := mkCond { cond_Type : Z; cond_Key : bytes; cond_Value : bytes; cond_Index : Z }.
Record Op := mkOp { op_Type : Z; op_Key : bytes; op_Value : bytes }.
Record Instruction := mkInstruction { in_Conditions : list Cond; in_Operations : list Op }.
Record SnapshotPB := mkSnapshotPB { sn_Version : gomap bytes Z; sn_State : gomap bytes bytes; sn_Peers : gomap Z bytes }.

(** ** The library that encodes them *)

Class Protobuf := {
  MarshalInstruction : Instruction -> bytes;
  UnmarshalInstruction : bytes -> option Instruction;
  MarshalSnapshot : SnapshotPB -> option bytes;
  UnmarshalSnapshot : bytes -> SnapshotPB * bool;
  EncodeVarint : Z -> bytes;
  DecodeVarint : bytes -> Z * Z;
  valid_string : bytes -> bool;
}.

Definition instr_ok `{Protobuf} (i : Instruction) : bool :=
  forallb (fun c => in_int32 (cond_Type c) && in_uint64 (cond_Index c) && valid_string (cond_Key c)) (in_Conditions i) &&
  forallb (fun o => in_int32 (op_Type o) && valid_string (op_Key o)) (in_Operations i).

(** The empty map is not written, and what was not written is read as nil. *)
Definition nil_if_empty {K V} `{Countable K} (m : gomap K V) : gomap K V :=
  m ← m; if decide (m = ∅) then None else Some m.

Definition snap_ok `{Protobuf} (s : SnapshotPB) : Prop :=
  map_Forall (fun k z => valid_string k = true /\ in_uint64 z = true) (gm_items (sn_Version s)) /\
  map_Forall (fun k _ => valid_string k = true) (gm_items (sn_State s)) /\
  map_Forall (fun z a => in_uint64 z = true /\ valid_string a = true) (gm_items (sn_Peers s)).

(** Encoding and decoding are inverse, up to nil, for integers that fit their fields and
    strings that are valid, which those of ASCII characters are.  A varint below 128 is
    one byte. *)
Class ProtobufLaws `{Protobuf} : Prop := {
  instruction_roundtrip i : instr_ok i = true -> UnmarshalInstruction (MarshalInstruction i) = Some i;
  snapshot_roundtrip s b : MarshalSnapshot s = Some b ->
    UnmarshalSnapshot b = (mkSnapshotPB (nil_if_empty (sn_Version s)) (nil_if_empty (sn_State s)) (nil_if_empty (sn_Peers s)), true);
  snapshot_marshals s : snap_ok s -> is_Some (MarshalSnapshot s);
  varint_roundtrip n : 0 <= n <= MaxUint64 -> exists l, l <> 0 /\ DecodeVarint (EncodeVarint n) = (n, l);
  varint_small n : 0 <= n < 128 -> EncodeVarint n = [byte_of_Z n];
  ascii_valid s : Forall (fun b => Z_of_byte b < 128) s -> valid_string s = true;
}.

(** ** The state *)

Definition nextNodeID : bytes := list_byte_of_string "raft/nextNodeID".

Record State := mkState {
  st_state : gomap bytes bytes;
  st_peers : gomap Z bytes;
  st_appliedIndex : Z;
  st_version : gmap bytes Z;
}.

Definition New : State := mkState (Some {[nextNodeID := list_byte_of_string "2"]}) (Some ∅) 0 ∅.

Definition SetAppliedIndex (index : Z) (s : State) : State :=
  mkState (st_state s) (st_peers s) index (st_version s).

(** [None] is a panic. *)
Definition SetPeerAddr (id : Z) (addr : bytes) (s : State) : option State :=
  p ← gm_set id addr (st_peers s); Some (mkState (st_state s) p (st_appliedIndex s) (st_version s)).

Definition GetPeerAddr (id : Z) (s : State) : bytes := default [] (gm_items (st_peers s) !! id).

Definition RemovePeerAddr (id : Z) (s : State) : State :=
  mkState (st_state s) (gm_delete id (st_peers s)) (st_appliedIndex s) (st_version s).

Definition Get (key : bytes) (s : State) : bytes := default [] (gm_items (st_state s) !! key).

Definition AppliedIndex (s : State) : Z := st_appliedIndex s.

Inductive aerr := ErrAlreadyApplied | UnmarshalError | UnknownConditionType | UnknownOperationType.

Inductive ares := AOk (satisfied : bool) | AErr (e : aerr) | APanic.

(** The condition is compared with [y], which the negated types set to false.  [None] is an
    unknown type. *)
Definition check_cond (s : State) (c : Cond) : option bool :=
  let exists_ := bool_decide (is_Some (gm_items (st_state s) !! cond_Key c)) in
  let value_equal := bool_decide (Get (cond_Key c) s = cond_Value c) in
  let index_equal := default 0 (st_version s !! cond_Key c) =? cond_Index c in
  if cond_Type c =? Cond_NOT_KEY_EXISTS then Some (eqb exists_ false)
  else if cond_Type c =? Cond_KEY_EXISTS then Some (eqb exists_ true)
  else if cond_Type c =? Cond_NOT_VALUE_EQUAL then Some (eqb value_equal false)
  else if cond_Type c =? Cond_VALUE_EQUAL then Some (eqb value_equal true)
  else if cond_Type c =? Cond_NOT_INDEX_EQUAL then Some (eqb index_equal false)
  else if cond_Type c =? Cond_INDEX_EQUAL then Some (eqb index_equal true)
  else None.

(** What [Apply] returns because of a condition, if it does. *)
Fixpoint check_conds (s : State) (cs : list Cond) : option ares :=
  match cs with
  | [] => None
  | c :: cs =>
      match check_cond s c with
      | None => Some (AErr UnknownConditionType)
      | Some false => Some (AOk false)
      | Some true => check_conds s cs
      end
  end.

Fixpoint apply_ops (index : Z) (ops : list Op) (s : State) : State * ares :=
  match ops with
  | [] => (s, AOk true)
  | o :: ops =>
      if op_Type o =? Op_SET then
        match gm_set (op_Key o) (op_Value o) (st_state s) with
        | None => (s, APanic)
        | Some m => apply_ops index ops (mkState m (st_peers s) (st_appliedIndex s) (<[op_Key o := index]> (st_version s)))
        end
      else if op_Type o =? Op_DELETE then
        apply_ops index ops (mkState (gm_delete (op_Key o) (st_state s)) (st_peers s) (st_appliedIndex s) (delete (op_Key o) (st_version s)))
      else (s, AErr UnknownOperationType)
  end.

Section Messages.
Context `{Protobuf}.

Definition Apply (data : bytes) (index : Z) (s : State) : State * ares :=
  if index <? st_appliedIndex s then (s, AErr ErrAlreadyApplied)
  else
    match UnmarshalInstruction data with
    | None => (s, AErr UnmarshalError)
    | Some instr =>
        let s := SetAppliedIndex index s in
        match check_conds s (in_Conditions instr) with
        | Some r => (s, r)
        | None => apply_ops index (in_Operations instr) s
        end
    end.

(** The maps are overwritten also when decoding fails; the versions stay. *)
Definition RestoreSnapshot (data : bytes) (index : Z) (s : State) : State * bool :=
  let '(snapshot, ok) := UnmarshalSnapshot data in
  (mkState (sn_State snapshot) (sn_Peers snapshot) index (st_version s), ok).

Definition Snapshot (s : State) : option bytes * Z :=
  (MarshalSnapshot (mkSnapshotPB None (st_state s) (st_peers s)), st_appliedIndex s).

Definition Set_instr (key value : bytes) : Instruction := mkInstruction [] [mkOp Op_SET key value].
Definition Set_ (key value : bytes) : bytes := MarshalInstruction (Set_instr key value).

Definition Insert_instr (key value : bytes) : Instruction :=
  mkInstruction [mkCond Cond_NOT_KEY_EXISTS key [] 0] [mkOp Op_SET key value].
Definition Insert (key value : bytes) : bytes := MarshalInstruction (Insert_instr key value).

Definition Delete_instr (key : bytes) : Instruction := mkInstruction [] [mkOp Op_DELETE key []].
Definition Delete (key : bytes) : bytes := MarshalInstruction (Delete_instr key).

(** [None] is a panic. *)
Definition NextNodeID (s : State) : option (Z * Z) :=
  let '(id, n) := DecodeVarint (Get nextNodeID s) in
  if n =? 0 then None else Some (id, default 0 (st_version s !! nextNodeID)).

Definition Increment_instr (oldID index : Z) : Instruction :=
  mkInstruction [mkCond Cond_INDEX_EQUAL nextNodeID [] index] [mkOp Op_SET nextNodeID (EncodeVarint (uint64 (oldID + 1)))].
Definition IncrementNextNodeID (oldID index : Z) : bytes := MarshalInstruction (Increment_instr oldID index).

End Messages.

(** ** The abstract store *)

Record kv := mkKV { kv_map : gmap bytes bytes; kv_ver : gmap bytes Z }.

(** What a condition asks for; nothing is known of other types. *)
Definition cond_holds (k : kv) (c : Cond) : Prop :=
  let v := kv_map k !! cond_Key c in
  let n := default 0 (kv_ver k !! cond_Key c) in
  match cond_Type c with
  | 0 => is_Some v
  | 1 => v = None
  | 2 => default [] v = cond_Value c
  | 3 => default [] v <> cond_Value c
  | 4 => n = cond_Index c
  | 5 => n <> cond_Index c
  | _ => False
  end.

#[export] Instance cond_holds_dec k c : Decision (cond_holds k c).
Proof. unfold cond_holds. destruct (cond_Type c) as [|[[[]|[]|]|[[]|[]|]|]|]; apply _. Defined.

Definition do_op (index : Z) (k : kv) (o : Op) : kv :=
  if decide (op_Type o = Op_SET) then mkKV (<[op_Key o := op_Value o]> (kv_map k)) (<[op_Key o := index]> (kv_ver k))
  else mkKV (delete (op_Key o) (kv_map k)) (delete (op_Key o) (kv_ver k)).

(** All or nothing. *)
Definition transact (index : Z) (i : Instruction) (k : kv) : kv * bool :=
  if decide (Forall (cond_holds k) (in_Conditions i)) then (foldl (do_op index) k (in_Operations i), true) else (k, false).

Definition known (i : Instruction) : Prop :=
  Forall (fun c => 0 <= cond_Type c <= 5) (in_Conditions i) /\ Forall (fun o => op_Type o = Op_SET \/ op_Type o = Op_DELETE) (in_Operations i).

(** A state whose map of values was made, and the store it holds. *)
Definition made (s : State) : Prop := is_Some (st_state s).
Definition store (s : State) : kv := mkKV (gm_items (st_state s)) (st_version s).

Lemma check_cond_spec s c :
  0 <= cond_Type c <= 5 -> exists b, check_cond s c = Some b /\ (b = true <-> cond_holds (store s) c).
Proof.
  intros Ht. unfold check_cond, cond_holds, Get, store. cbn [kv_map kv_ver].
  assert (cond_Type c = 0 \/ cond_Type c = 1 \/ cond_Type c = 2 \/ cond_Type c = 3 \/ cond_Type c = 4 \/ cond_Type c = 5) as Hc by lia.
  destruct Hc as [E|[E|[E|[E|[E|E]]]]]; rewrite E; eexists; (split; [reflexivity|]).
  1-2: destruct (gm_items (st_state s) !! cond_Key c) as [v|]; vm_compute; naive_solver.
  1-2: case_bool_decide; simpl; naive_solver.
  all: destruct (Z.eqb_spec (default 0 (st_version s !! cond_Key c)) (cond_Index c)); simpl; naive_solver.
Qed.

Lemma check_conds_spec s cs :
  Forall (fun c => 0 <= cond_Type c <= 5) cs ->
  check_conds s cs = if decide (Forall (cond_holds (store s)) cs) then None else Some (AOk false).
Proof.
  induction 1 as [|c cs Hc _ IH]; [done|]. cbn [check_conds]. destruct (check_cond_spec s c Hc) as (b & -> & Hb).
  rewrite IH. destruct b.
  - apply decide_ext. rewrite Forall_cons. tauto.
  - rewrite decide_False; [done|]. intros [E _]%Forall_cons. by apply Hb in E.
Qed.

Lemma apply_ops_spec index ops s :
  is_Some (st_state s) -> Forall (fun o => op_Type o = Op_SET \/ op_Type o = Op_DELETE) ops ->
  exists s', apply_ops index ops s = (s', AOk true) /\ store s' = foldl (do_op index) (store s) ops /\
    is_Some (st_state s') /\ st_peers s' = st_peers s /\ st_appliedIndex s' = st_appliedIndex s.
Proof.
  intros Hm Ho. revert s Hm. induction Ho as [|o ops Ho _ IH]; intros s [m Hm]; cbn [apply_ops foldl]; [by eauto 10|].
  unfold do_op at 2. destruct Ho as [E|E]; rewrite E; cbn -[foldl].
  - rewrite Hm. simpl. destruct (IH (mkState (Some (<[op_Key o := op_Value o]> m)) (st_peers s) (st_appliedIndex s) (<[op_Key o := index]> (st_version s)))) as (s' & -> & Es & ?);
      [by eexists|]. exists s'. split; [done|]. by rewrite Es.
  - destruct (IH (mkState (gm_delete (op_Key o) (st_state s)) (st_peers s) (st_appliedIndex s) (delete (op_Key o) (st_version s)))) as (s' & -> & Es & ?);
      [rewrite Hm; by eexists|]. exists s'. split; [done|]. rewrite Es. unfold store. simpl. by rewrite gm_items_delete.
Qed.

(** A log; [None] is an entry without an instruction. *)
Notation log := (list (option Instruction)).

Section Laws.
Context `{ProtobufLaws}.

(** An entry whose instruction is known is a transaction on the store. *)
Lemma Apply_transacts data index s i :
  made s -> st_appliedIndex s <= index -> UnmarshalInstruction data = Some i -> known i ->
  exists s', Apply data index s = (s', AOk (transact index i (store s)).2) /\
    store s' = (transact index i (store s)).1 /\ made s' /\ st_peers s' = st_peers s /\ st_appliedIndex s' = index.
Proof.
  intros Hm Hi Hu [Hc Ho]. unfold Apply. destruct (Z.ltb_spec index (st_appliedIndex s)); [lia|].
  rewrite Hu, check_conds_spec by done. change (store (SetAppliedIndex index s)) with (store s).
  unfold transact. destruct (decide (Forall (cond_holds (store s)) (in_Conditions i))); simpl.
  - destruct (apply_ops_spec index (in_Operations i) (SetAppliedIndex index s)) as (s' & -> & Es & ? & E & Ei); [done..|].
    exists s'. by rewrite Es, E, Ei.
  - by exists (SetAppliedIndex index s).
Qed.

Lemma check_conds_known s cs : check_conds s cs = None -> Forall (fun c => 0 <= cond_Type c <= 5) cs.
Proof.
  induction cs as [|c cs IH]; cbn [check_conds]; [by constructor|]. destruct (check_cond s c) as [[]|] eqn:E; try done.
  intros Hc. constructor; [|by apply IH]. revert E. unfold check_cond.
  unfold Cond_NOT_KEY_EXISTS, Cond_KEY_EXISTS, Cond_NOT_VALUE_EQUAL, Cond_VALUE_EQUAL, Cond_NOT_INDEX_EQUAL, Cond_INDEX_EQUAL.
  repeat match goal with |- context [cond_Type c =? ?n] => destruct (Z.eqb_spec (cond_Type c) n); [lia|] end. done.
Qed.

Lemma apply_ops_known index ops s s' : apply_ops index ops s = (s', AOk true) -> Forall (fun o => op_Type o = Op_SET \/ op_Type o = Op_DELETE) ops.
Proof.
  revert s. induction ops as [|o ops IH]; intros s; cbn [apply_ops]; [by constructor|].
  destruct (Z.eqb_spec (op_Type o) Op_SET); [destruct (gm_set _ _ _); [|done]|destruct (Z.eqb_spec (op_Type o) Op_DELETE); [|done]];
    intros E; constructor; eauto.
Qed.

(** C21: [Apply] refuses an entry whose index is below the one applied and an instruction
    that cannot be decoded, and changes nothing; an instruction of known types is a
    transaction on the store: all its operations, with its index as version, when its
    conditions hold, and none otherwise.  What it answers with success is of known types. *)
Theorem Apply_exact data index s :
  made s ->
  (index < st_appliedIndex s -> Apply data index s = (s, AErr ErrAlreadyApplied)) /\
  (st_appliedIndex s <= index -> UnmarshalInstruction data = None -> Apply data index s = (s, AErr UnmarshalError)) /\
  (forall i, st_appliedIndex s <= index -> UnmarshalInstruction data = Some i -> known i ->
    exists s', Apply data index s = (s', AOk (transact index i (store s)).2) /\
      store s' = (transact index i (store s)).1 /\ made s' /\ st_peers s' = st_peers s /\ st_appliedIndex s' = index) /\
  (forall s', Apply data index s = (s', AOk true) -> exists i, UnmarshalInstruction data = Some i /\ known i).
Proof.
  intros Hm. split_and!.
  - intros Hi. unfold Apply. by rewrite (proj2 (Z.ltb_lt _ _) Hi).
  - intros Hi E. unfold Apply. rewrite (proj2 (Z.ltb_ge _ _) Hi). by rewrite E.
  - intros i Hi E Hk. by apply Apply_transacts.
  - intros s'. unfold Apply. destruct (index <? st_appliedIndex s); [done|]. destruct (UnmarshalInstruction data) as [i|]; [|done].
    destruct (check_conds (SetAppliedIndex index s) (in_Conditions i)) as [r|] eqn:Ec.
    + intros [= _ ->]. exfalso. revert Ec. clear. induction (in_Conditions i) as [|c cs IH]; cbn [check_conds]; [done|].
      destruct (check_cond _ c) as [[]|]; done.
    + intros E. exists i. split; [done|]. split; [by eapply check_conds_known|by eapply apply_ops_known].
Qed.

(** ** The instructions that the package issues

    Clients name any key but that of the node identifiers. *)

Inductive issued : Instruction -> Prop :=
  | issued_set k v : valid_string k = true -> k <> nextNodeID -> issued (Set_instr k v)
  | issued_insert k v : valid_string k = true -> k <> nextNodeID -> issued (Insert_instr k v)
  | issued_delete k : valid_string k = true -> k <> nextNodeID -> issued (Delete_instr k)
  | issued_increment id n : 0 <= id <= MaxUint64 -> 0 <= n <= MaxUint64 -> issued (Increment_instr id n).

Lemma nextNodeID_valid : valid_string nextNodeID = true.
Proof. apply ascii_valid. repeat constructor; vm_compute; done. Qed.

Lemma issued_known i : issued i -> known i.
Proof. destruct 1; split; cbn; rewrite ?Forall_singleton, ?Forall_nil; cbn; auto; vm_compute; done. Qed.

Lemma issued_ok i : issued i -> instr_ok i = true.
Proof.
  destruct 1 as [k v Hk|k v Hk|k Hk|id n Hid Hn]; unfold instr_ok; cbn -[nextNodeID]; rewrite ?nextNodeID_valid, ?Hk; try done.
  rewrite !andb_true_r. unfold in_uint64. apply andb_true_intro. split; apply Z.leb_le; lia.
Qed.

Lemma issued_decodes i : issued i -> UnmarshalInstruction (MarshalInstruction i) = Some i.
Proof. intros. by apply instruction_roundtrip, issued_ok. Qed.

Lemma transact_Set n k v a : transact n (Set_instr k v) a = (mkKV (<[k := v]> (kv_map a)) (<[k := n]> (kv_ver a)), true).
Proof. done. Qed.

Lemma transact_Delete n k a : transact n (Delete_instr k) a = (mkKV (delete k (kv_map a)) (delete k (kv_ver a)), true).
Proof. done. Qed.

Lemma transact_Insert n k v a :
  transact n (Insert_instr k v) a = match kv_map a !! k with Some _ => (a, false) | None => (mkKV (<[k := v]> (kv_map a)) (<[k := n]> (kv_ver a)), true) end.
Proof.
  unfold transact. cbn [in_Conditions Insert_instr]. destruct (kv_map a !! k) eqn:E.
  - rewrite decide_False; [done|]. rewrite Forall_singleton. unfold cond_holds. simpl. by rewrite E.
  - rewrite decide_True; [done|]. rewrite Forall_singleton. done.
Qed.

Definition id_version (a : kv) : Z := default 0 (kv_ver a !! nextNodeID).
Definition id_value (a : kv) : bytes := default [] (kv_map a !! nextNodeID).

Lemma transact_Increment n id v a :
  transact n (Increment_instr id v) a =
    if decide (id_version a = v)
    then (mkKV (<[nextNodeID := EncodeVarint (uint64 (id + 1))]> (kv_map a)) (<[nextNodeID := n]> (kv_ver a)), true) else (a, false).
Proof. unfold transact. apply decide_ext. cbn [in_Conditions Increment_instr]. rewrite Forall_singleton. done. Qed.

(** *** Stores that agree on the keys of clients *)

Definition agree (a b : kv) : Prop := forall k, k <> nextNodeID -> kv_map a !! k = kv_map b !! k.

#[export] Instance agree_equiv : Equivalence agree.
Proof. split; [done|intros a b E k Hk; by rewrite E|intros a b c E1 E2 k Hk; by rewrite E1, E2]. Qed.

Lemma agree_transact i n n' a b :
  issued i -> agree a b -> agree (transact n i a).1 (transact n' i b).1.
Proof.
  intros Hi E. destruct Hi as [k v _ Hk|k v _ Hk|k _ Hk|id v _ _].
  - rewrite !transact_Set. intros q Hq. simpl. rewrite !lookup_insert. case_decide; [done|]. by apply E.
  - rewrite !transact_Insert, (E k Hk). destruct (kv_map b !! k); [done|]. intros q Hq. simpl.
    rewrite !lookup_insert. case_decide; [done|]. by apply E.
  - rewrite !transact_Delete. intros q Hq. simpl. rewrite !lookup_delete. case_decide; [done|]. by apply E.
  - rewrite !transact_Increment. intros q Hq.
    do 2 case_decide; simpl; rewrite ?lookup_insert_ne by done; by apply E.
Qed.

(** What does not depend on versions is answered alike. *)
Lemma agree_reply i n n' a b :
  issued i -> (forall id v, i <> Increment_instr id v) -> agree a b -> (transact n i a).2 = (transact n' i b).2.
Proof.
  intros Hi Hn E. destruct Hi as [k v _ Hk|k v _ Hk|k _ Hk|id v _ _].
  - done.
  - rewrite !transact_Insert, (E k Hk). by destruct (kv_map b !! k).
  - done.
  - by destruct (Hn id v).
Qed.

(** ** Snapshots *)

Lemma nil_if_empty_keeps {K V} `{Countable K} (m : gomap K V) : gm_items m <> ∅ -> nil_if_empty m = m.
Proof. destruct m as [m|]; simpl; [|done]. intros. by rewrite decide_False. Qed.

Lemma gm_items_nil_if_empty {K V} `{Countable K} (m : gomap K V) : gm_items (nil_if_empty m) = gm_items m.
Proof. destruct m as [m|]; simpl; [|done]. by case_decide. Qed.

(** A node that starts from a snapshot has the keys, values and peers of the node that
    made it, and no versions.  If there were no peers, its map of peers is nil. *)
Lemma Restore_Snapshot s data index :
  Snapshot s = (Some data, index) -> gm_items (st_state s) <> ∅ ->
  index = st_appliedIndex s /\ RestoreSnapshot data index New = (mkState (st_state s) (nil_if_empty (st_peers s)) index ∅, true).
Proof.
  unfold Snapshot, RestoreSnapshot. intros [= Eb <-] Es. split; [done|].
  rewrite (snapshot_roundtrip _ _ Eb). simpl. by rewrite nil_if_empty_keeps.
Qed.

(** ** Logs: lists of instructions

    The entry at position [p] has index [p + 1]. *)

Definition run_entry (n : Z) (e : option Instruction) (a : kv) : kv :=
  match e with Some i => (transact n i a).1 | None => a end.

Fixpoint run_log (n : Z) (l : log) (a : kv) : kv :=
  match l with
  | [] => a
  | e :: l => run_log (n + 1) l (run_entry n e a)
  end.

Definition replay (l : log) : kv := run_log 1 l (store New).

Lemma run_log_app n l1 l2 a : run_log n (l1 ++ l2) a = run_log (n + zlen l1) l2 (run_log n l1 a).
Proof.
  revert n a. induction l1 as [|e l1 IH]; intros n a; simpl; [by rewrite zlen_nil, Z.add_0_r|].
  rewrite IH, zlen_cons. f_equal. lia.
Qed.

Lemma replay_step l p e : l !! p = Some e -> replay (take (S p) l) = run_entry (Z.of_nat p + 1) e (replay (take p l)).
Proof.
  intros He. unfold replay. rewrite (take_S_r _ _ e He), run_log_app. simpl. f_equal.
  unfold zlen. rewrite length_take_le; [lia|]. apply lookup_lt_Some in He. lia.
Qed.

(** *** Node identifiers *)

Lemma Increment_inj id v id' v' :
  0 <= id <= MaxUint64 -> 0 <= id' <= MaxUint64 -> Increment_instr id v = Increment_instr id' v' -> id = id' /\ v = v'.
Proof.
  intros Hid Hid' E. injection E as -> E%(f_equal DecodeVarint). split; [|done].
  destruct (varint_roundtrip _ (uint64_range (id + 1))) as (n & _ & En). destruct (varint_roundtrip _ (uint64_range (id' + 1))) as (m & _ & Em).
  rewrite En, Em in E. injection E as E _. unfold uint64, MaxUint64 in *.
  destruct (decide (id = 18446744073709551615)), (decide (id' = 18446744073709551615)); subst; [done|..];
    rewrite ?Z.mod_same, ?(Z.mod_small (_ + 1)) in E by lia; try lia.
Qed.

Definition next_id (a : kv) : option (Z * Z) :=
  let '(id, n) := DecodeVarint (id_value a) in if n =? 0 then None else Some (id, id_version a).

Lemma NextNodeID_store s : NextNodeID s = next_id (store s).
Proof. done. Qed.

(** Identifiers are proposed that were read from the state after a part of the log. *)
Definition reads_ok (l : log) : Prop :=
  forall p id v, 0 <= id <= MaxUint64 -> l !! p = Some (Some (Increment_instr id v)) -> exists k, (k <= p)%nat /\ next_id (replay (take k l)) = Some (id, v).

Definition all_issued (l : log) : Prop := Forall (fun e => from_option issued True e) l.

(** The entry at [p] gives out [id]. *)
Definition gives_out (l : log) (p : nat) (id v : Z) : Prop :=
  0 <= id <= MaxUint64 /\ l !! p = Some (Some (Increment_instr id v)) /\ id_version (replay (take p l)) = v.

Lemma id_step l p e :
  all_issued l -> l !! p = Some e ->
  (id_value (replay (take (S p) l)) = id_value (replay (take p l)) /\ id_version (replay (take (S p) l)) = id_version (replay (take p l)) /\
    forall id v, ~ gives_out l p id v) \/
  exists id v, gives_out l p id v /\
    id_value (replay (take (S p) l)) = EncodeVarint (uint64 (id + 1)) /\ id_version (replay (take (S p) l)) = Z.of_nat p + 1.
Proof.
  intros Hl He. rewrite (replay_step l p e He). set (a := replay (take p l)).
  destruct e as [i|]; [|left; split_and!; [done..|intros id v (_ & E & _); congruence]].
  pose proof (Forall_lookup_1 _ _ _ _ Hl He) as Hi. simpl in Hi. unfold run_entry.
  assert (forall id v, gives_out l p id v -> i = Increment_instr id v) as Hg by (intros id v (_ & E & _); congruence).
  destruct Hi as [k v _ Hk|k v _ Hk|k _ Hk|id v Hid _].
  - left. rewrite transact_Set. unfold id_value, id_version. simpl. rewrite !lookup_insert_ne by done.
    split_and!; [done..|]. intros id w E%Hg. done.
  - left. rewrite transact_Insert. unfold id_value, id_version. destruct (kv_map a !! k); simpl; rewrite ?lookup_insert_ne by done;
      (split_and!; [done..|]); intros id w E%Hg; done.
  - left. rewrite transact_Delete. unfold id_value, id_version. simpl. rewrite !lookup_delete_ne by done.
    split_and!; [done..|]. intros id w E%Hg. done.
  - rewrite transact_Increment. destruct (decide (id_version a = v)) as [E|E]; [right|left].
    + exists id, v. split; [done|]. unfold id_value, id_version. simpl. by rewrite !lookup_insert_eq.
    + split_and!; [done..|]. intros id' v' (_ & E1 & E2). rewrite He in E1. injection E1 as <- _. done.
Qed.

Lemma id_version_bound l p : all_issued l -> 0 <= id_version (replay (take p l)) <= Z.of_nat p.
Proof.
  intros Hl. induction p as [|p IH]; [done|]. destruct (l !! p) as [e|] eqn:He.
  - destruct (id_step l p e Hl He) as [(_ & -> & _)|(id & v & _ & _ & ->)]; lia.
  - apply lookup_ge_None in He. rewrite take_ge in IH |- * by lia. lia.
Qed.

(** The version tells whether the identifier was changed. *)
Lemma id_unchanged l k p :
  all_issued l -> (k <= p)%nat -> id_version (replay (take p l)) = id_version (replay (take k l)) ->
  id_value (replay (take p l)) = id_value (replay (take k l)).
Proof.
  intros Hl Hkp. cut ((id_version (replay (take p l)) = id_version (replay (take k l)) /\ id_value (replay (take p l)) = id_value (replay (take k l)))
    \/ Z.of_nat k < id_version (replay (take p l))).
  { pose proof (id_version_bound l k Hl). naive_solver lia. }
  induction Hkp as [|p Hkp IH]; [by left|]. destruct (l !! p) as [e|] eqn:He.
  - destruct (id_step l p e Hl He) as [(-> & -> & _)|(id & v & _ & _ & ->)]; [done|right; lia].
  - apply lookup_ge_None in He. rewrite (take_ge l p), (take_ge l (S p)) in * by lia. done.
Qed.

(** What a satisfied entry gives out is the next identifier at its position. *)
Lemma given_is_next l p id v :
  all_issued l -> reads_ok l -> gives_out l p id v -> next_id (replay (take p l)) = Some (id, v).
Proof.
  intros Hl Hr (Hid & He & Hv). destruct (Hr p id v Hid He) as (k & Hk & Ek).
  assert (id_version (replay (take k l)) = v) as Hkv.
  { revert Ek. unfold next_id. destruct (DecodeVarint _) as [x n]. destruct (n =? 0); [done|]. by intros [= _ <-]. }
  unfold next_id in *. rewrite (id_unchanged l k p Hl Hk), Hv by congruence. by rewrite Hkv in Ek.
Qed.

Definition first_id : Z := 50.

Lemma first_next : next_id (store New) = Some (first_id, 0).
Proof.
  unfold next_id. change (id_value (store New)) with [byte_of_Z first_id]. rewrite <- varint_small by (unfold first_id; lia).
  destruct (varint_roundtrip first_id) as (n & Hn & ->); [unfold first_id, MaxUint64; lia|].
  destruct (Z.eqb_spec n 0); done.
Qed.

(** The next identifier grows by one for each one given out. *)
Lemma next_grows l p :
  all_issued l -> reads_ok l -> zlen l + first_id <= MaxUint64 -> (p <= length l)%nat ->
  exists n, next_id (replay (take p l)) = Some (n, id_version (replay (take p l))) /\ first_id <= n <= first_id + Z.of_nat p /\
    forall q id v, (q < p)%nat -> gives_out l q id v -> id < n.
Proof.
  intros Hl Hr Hlen. induction p as [|p IH]; intros Hp.
  - exists first_id. rewrite take_0. split_and!; [apply first_next|lia..].
  - destruct IH as (n & En & Hn & Hq); [lia|]. destruct (lookup_lt_is_Some_2 l p) as [e He]; [lia|].
    destruct (id_step l p e Hl He) as [(Ev & Ew & Hno)|(id & v & Hg & Ev & Ew)].
    + exists n. unfold next_id in *. rewrite Ev, Ew. split_and!; [done|lia..|]. intros q id v Hqp Hg.
      destruct (decide (q = p)) as [->|]; [by destruct (Hno id v)|]. apply (Hq q id v); [lia|done].
    + pose proof (given_is_next l p id v Hl Hr Hg) as E. rewrite E in En. injection En as -> _.
      exists (n + 1). unfold next_id. rewrite Ev, Ew. unfold zlen in Hlen. rewrite uint64_id by (unfold first_id in *; lia).
      destruct (varint_roundtrip (n + 1)) as (k & Hk & ->); [unfold first_id in *; lia|].
      destruct (Z.eqb_spec k 0); [done|]. split_and!; [done|lia..|]. intros q id' v' Hqp Hg'.
      destruct (decide (q = p)) as [->|]; [|specialize (Hq q id' v'); naive_solver lia].
      pose proof (given_is_next l p id' v' Hl Hr Hg') as E'. rewrite E in E'. injection E' as <- _. lia.
Qed.

Lemma given_differ l p q id1 v1 id2 v2 :
  all_issued l -> reads_ok l -> zlen l + first_id <= MaxUint64 -> (p < q)%nat ->
  gives_out l p id1 v1 -> gives_out l q id2 v2 -> id1 < id2.
Proof.
  intros Hl Hr Hlen Hpq H1 H2. pose proof (lookup_lt_Some _ _ _ (proj1 (proj2 H2))).
  destruct (next_grows l q Hl Hr Hlen) as (n & En & _ & Hn); [lia|].
  rewrite (given_is_next l q id2 v2 Hl Hr H2) in En. injection En as -> _. by eapply Hn.
Qed.

End Laws.

(** ** A library that satisfies the laws

    Messages are written bit by bit, each in a byte of its own; varints are those of
    [encoding/binary], which have the same format. *)

#[export] Instance cond_eq_dec : EqDecision Cond.
Proof. solve_decision. Defined.
#[export] Instance cond_countable : Countable Cond.
Proof.
  refine (inj_countable' (fun c => (cond_Type c, cond_Key c, cond_Value c, cond_Index c)) (fun '(t, k, v, i) => mkCond t k v i) _).
  by intros [].
Defined.
#[export] Instance op_eq_dec : EqDecision Op.
Proof. solve_decision. Defined.
#[export] Instance op_countable : Countable Op.
Proof. refine (inj_countable' (fun o => (op_Type o, op_Key o, op_Value o)) (fun '(t, k, v) => mkOp t k v) _). by intros []. Defined.
#[export] Instance instruction_eq_dec : EqDecision Instruction.
Proof. solve_decision. Defined.
#[export] Instance instruction_countable : Countable Instruction.
Proof. refine (inj_countable' (fun i => (in_Conditions i, in_Operations i)) (fun '(c, o) => mkInstruction c o) _). by intros []. Defined.
#[export] Instance snapshotpb_eq_dec : EqDecision SnapshotPB.
Proof. solve_decision. Defined.
#[export] Instance snapshotpb_countable : Countable SnapshotPB.
Proof. refine (inj_countable' (fun s => (sn_Version s, sn_State s, sn_Peers s)) (fun '(v, s, p) => mkSnapshotPB v s p) _). by intros []. Defined.

Fixpoint bits (p : positive) : bytes :=
  match p with
  | xH => []
  | xO p => x00 :: bits p
  | xI p => x01 :: bits p
  end.

Fixpoint unbits (b : bytes) : positive :=
  match b with
  | [] => xH
  | x00 :: b => xO (unbits b)
  | _ :: b => xI (unbits b)
  end.

Lemma unbits_bits p : unbits (bits p) = p.
Proof. induction p; simpl; congruence. Qed.

Definition bits_encode {A} `{Countable A} (a : A) : bytes := bits (encode a).
Definition bits_decode {A} `{Countable A} (b : bytes) : option A := decode (unbits b).

Lemma bits_decode_encode {A} `{Countable A} (a : A) : bits_decode (bits_encode a) = Some a.
Proof. unfold bits_decode, bits_encode. by rewrite unbits_bits, decode_encode. Qed.

Definition empty_pb : SnapshotPB := mkSnapshotPB None None None.

#[local] Instance bits_protobuf : Protobuf := {|
  MarshalInstruction := bits_encode;
  UnmarshalInstruction := bits_decode;
  MarshalSnapshot s := Some (bits_encode (mkSnapshotPB (nil_if_empty (sn_Version s)) (nil_if_empty (sn_State s)) (nil_if_empty (sn_Peers s))));
  UnmarshalSnapshot b := match bits_decode b with Some s => (s, true) | None => (empty_pb, false) end;
  EncodeVarint := uvarint;
  DecodeVarint b := match ReadUvarint b with (Ok v, r) => (v, zlen b - zlen r) | _ => (0, 0) end;
  valid_string _ := true;
|}.

Lemma bits_protobuf_laws : ProtobufLaws.
Proof.
  split.
  - intros i _. apply bits_decode_encode.
  - intros s b [= <-]. cbn [UnmarshalSnapshot bits_protobuf]. by rewrite bits_decode_encode.
  - intros s _. by eexists.
  - intros n Hn. cbn [DecodeVarint EncodeVarint bits_protobuf]. pose proof (ReadUvarint_uvarint n []) as E. rewrite app_nil_r in E.
    rewrite E by (unfold MaxUint64 in Hn; lia). eexists. split; [|reflexivity]. rewrite zlen_nil. unfold uvarint, zlen.
    pose proof (length_PutUvarint 9 n ltac:(unfold MaxUint64 in Hn; cbn; lia)). lia.
  - intros n Hn. change (EncodeVarint n) with (if 0x80 <=? n then byte_of_Z (Z.lor (n mod 256) 0x80) :: PutUvarint 9 (Z.shiftr n 7) else [byte_of_Z n]).
    destruct (Z.leb_spec 0x80 n); [lia|done].
  - done.
Qed.

#[local] Existing Instance bits_protobuf_laws.

(** Witness: a key is inserted into a new state. *)
Lemma Apply_exact_witness :
  exists s', Apply (Insert [x61] [x62]) 1 New = (s', AOk true) /\ store s' = (transact 1 (Insert_instr [x61] [x62]) (store New)).1 /\ Get [x61] s' = [x62].
Proof.
  assert (made New) as Hm by by eexists. destruct (Apply_exact (Insert [x61] [x62]) 1 New Hm) as (_ & _ & Ht & _).
  destruct (Ht (Insert_instr [x61] [x62])) as (s' & E & Es & _); [done|by vm_compute|by apply issued_known; constructor|].
  exists s'. split_and!; [rewrite E; by vm_compute|done|]. change (Get [x61] s') with (default [] (kv_map (store s') !! [x61])). rewrite Es. by vm_compute.
Defined.

(** The index that was applied last is applied once more: [ErrAlreadyApplied] comes only
    below it. *)
Lemma last_entry_applied_again :
  let s := (Apply (Delete [x61]) 1 New).1 in
  AppliedIndex s = 1 /\ (Apply (Set_ [x61] [x62]) 1 s).2 = AOk true /\ Get [x61] (Apply (Set_ [x61] [x62]) 1 s).1 = [x62].
Proof. by vm_compute. Qed.

(** The first identifier given out is 50, the code of the character [2]. *)
Lemma first_identifier : NextNodeID New = Some (50, 0).
Proof. by vm_compute. Qed.
