(* ===== verification/Raft.v ===== *)
(** * The replicated key-value service: [database/raft]

    [raft.go] runs a state machine ([RaftState]) behind the consensus library of etcd: the
    library delivers the entries of one log, in order, to every node; [applyEntry] applies
    them.  [exec] proposes an instruction and waits until the node itself has applied it;
    [Get] asks the library for an index and waits until the node has reached it.

    The file has the formats on disk ([readID], [writeID], [writeFile] and the envelope of
    a snapshot with its checksum), the service and its update loop as a monad that keeps
    the service and may panic, and the calls of clients as programs of [Concur] over all
    the processes of a cluster.  The library, the write-ahead log, the file system and the
    network are one world [W] with the operations of [Class RaftLib]. *)

From Stdlib Require Import ZArith Lia Strings.Byte String.
From stdpp Require Import gmap.
From S2P Require Import Prelude Encoding RaftState Concur.

(** ** Checksums: [hash/crc32] with the polynomial of Castagnoli

    The register is shifted by one bit at a time; the tables of the package have the
    results of eight shifts. *)

Definition crc_poly : Z := 0x82f63b78.

Definition crc_shift (c : Z) : Z := if Z.odd c then Z.lxor (Z.shiftr c 1) crc_poly else Z.shiftr c 1.

Definition crc_byte (c : Z) (b : byte) : Z := Nat.iter 8 crc_shift (Z.lxor c (Z_of_byte b)).

Definition crc_update (c : Z) (bs : bytes) : Z := foldl crc_byte c bs.

Definition Checksum (bs : bytes) : Z := Z.lxor (crc_update 0xffffffff bs) 0xffffffff.

(** ** The file of the member's identifier *)

Inductive iderr := IDRead | BadIDFileSize | InvalidID | BadCRC.

(** The file has 12 bytes: the identifier and its checksum. *)
Definition id_file (id : Z) : bytes := be_put 8 id ++ be_put 4 (Checksum (be_put 8 id)).

Definition readID (file : option bytes) : result iderr Z :=
  match file with
  | None => Err IDRead
  | Some d =>
      if negb (zlen d =? 12) then Err BadIDFileSize
      else
        let id := be_get (subslice 0 8 d) in
        if id =? 0 then Err InvalidID
        else if negb (Checksum (subslice 0 8 d) =? be_get (subslice 8 12 d)) then Err BadCRC
        else Ok id
  end.

(** *** One byte of the file cannot change unnoticed *)

Notation u32 c := (0 <= c < 4294967296).

Lemma lxor_range a b : u32 a -> u32 b -> u32 (Z.lxor a b).
Proof.
  intros Ha Hb. assert (0 <= Z.lxor a b) by (apply Z.lxor_nonneg; lia). split; [done|].
  change 4294967296 with (2 ^ 32). destruct (decide (Z.lxor a b = 0)); [lia|]. apply Z.log2_lt_pow2; [lia|].
  pose proof (Z.log2_lxor a b ltac:(lia) ltac:(lia)).
  assert (forall x, u32 x -> Z.log2 x < 32) as Hl.
  { intros x Hx. destruct (decide (x = 0)) as [->|]; [done|]. apply Z.log2_lt_pow2; lia. }
  pose proof (Hl a Ha). pose proof (Hl b Hb). lia.
Qed.

Lemma crc_shift_range c : u32 c -> u32 (crc_shift c).
Proof.
  intros Hc. unfold crc_shift. assert (u32 (Z.shiftr c 1)).
  { rewrite Z.shiftr_div_pow2 by lia. change (2 ^ 1) with 2. split; [apply Z.div_pos; lia|]. apply Z.div_lt_upper_bound; lia. }
  destruct (Z.odd c); [|done]. by apply lxor_range.
Qed.

(** The highest bit after a shift is the bit that was shifted out. *)
Lemma crc_shift_top c : u32 c -> Z.testbit (crc_shift c) 31 = Z.odd c.
Proof.
  intros Hc. assert (Z.testbit (Z.shiftr c 1) 31 = false) as E.
  { rewrite Z.shiftr_spec by lia. destruct (decide (c = 0)) as [->|]; [done|].
    apply Z.bits_above_log2; [lia|]. apply Z.log2_lt_pow2; lia. }
  unfold crc_shift. destruct (Z.odd c); [|done]. rewrite Z.lxor_spec, E. done.
Qed.

Lemma crc_shift_inj a b : u32 a -> u32 b -> crc_shift a = crc_shift b -> a = b.
Proof.
  intros Ha Hb E. pose proof (crc_shift_top a Ha) as Ta. rewrite E, (crc_shift_top b Hb) in Ta.
  assert (Z.shiftr a 1 = Z.shiftr b 1) as Es.
  { revert E. unfold crc_shift. rewrite Ta. destruct (Z.odd a); [|done].
    intros E%(f_equal (fun x => Z.lxor x crc_poly)). by rewrite !Z.lxor_assoc, Z.lxor_nilpotent, !Z.lxor_0_r in E. }
  rewrite <- !Z.div2_spec in Es. rewrite (Z.div2_odd a), (Z.div2_odd b), Es, Ta. done.
Qed.

Lemma crc_shifts n a b : u32 a -> u32 b ->
  u32 (Nat.iter n crc_shift a) /\ (Nat.iter n crc_shift a = Nat.iter n crc_shift b -> a = b).
Proof.
  intros Ha Hb. assert (forall x, u32 x -> u32 (Nat.iter n crc_shift x)) as Hr.
  { intros x Hx. induction n; simpl; auto using crc_shift_range. }
  split; [auto|]. induction n as [|n IH]; simpl; [done|]. intros E. apply IH.
  - intros x Hx. clear -Hx. induction n; simpl; auto using crc_shift_range.
  - apply crc_shift_inj; [| |done]; clear -Ha Hb; induction n; simpl; auto using crc_shift_range.
Qed.

Lemma byte_u32 b : u32 (Z_of_byte b).
Proof. pose proof (Z_of_byte_range b). lia. Qed.

Lemma lxor_cancel_r a b c : Z.lxor a c = Z.lxor b c -> a = b.
Proof. intros E%(f_equal (fun x => Z.lxor x c)). by rewrite !Z.lxor_assoc, Z.lxor_nilpotent, !Z.lxor_0_r in E. Qed.

Lemma crc_byte_range c b : u32 c -> u32 (crc_byte c b).
Proof. intros Hc. pose proof (lxor_range c (Z_of_byte b) Hc (byte_u32 b)) as Hx. apply (crc_shifts 8 _ _ Hx Hx). Qed.

Lemma crc_byte_inj c d b : u32 c -> u32 d -> crc_byte c b = crc_byte d b -> c = d.
Proof. intros Hc Hd E. apply crc_shifts in E; [by eapply lxor_cancel_r|apply lxor_range; auto using byte_u32..]. Qed.

Lemma crc_byte_inj_byte c a b : u32 c -> crc_byte c a = crc_byte c b -> a = b.
Proof.
  intros Hc E. apply crc_shifts in E; [|apply lxor_range; auto using byte_u32..].
  rewrite !(Z.lxor_comm c) in E. apply (inj Z_of_byte). by eapply lxor_cancel_r.
Qed.

Lemma crc_update_range bs c : u32 c -> u32 (crc_update c bs).
Proof. revert c. induction bs as [|b bs IH]; intros c Hc; simpl; [done|]. apply IH, crc_byte_range, Hc. Qed.

Lemma crc_update_inj bs c d : u32 c -> u32 d -> crc_update c bs = crc_update d bs -> c = d.
Proof.
  revert c d. induction bs as [|b bs IH]; intros c d Hc Hd E; simpl in E; [done|].
  apply IH in E; auto using crc_byte_range. by eapply crc_byte_inj.
Qed.

(** A string and the same with one other byte have different checksums. *)
Lemma Checksum_detects l x y r : x <> y -> Checksum (l ++ x :: r) <> Checksum (l ++ y :: r).
Proof.
  intros Hxy E%lxor_cancel_r. unfold crc_update in E. rewrite !foldl_app in E. simpl in E.
  assert (u32 (foldl crc_byte 0xffffffff l)) as Hl by (apply crc_update_range; lia).
  apply crc_update_inj in E; auto using crc_byte_range. by apply crc_byte_inj_byte in E.
Qed.

Lemma Checksum_range bs : u32 (Checksum bs).
Proof. apply lxor_range; [apply crc_update_range|]; lia. Qed.

Lemma length_id_file id : length (id_file id) = 12%nat.
Proof. unfold id_file. by rewrite length_app, !length_be_put. Qed.

Lemma readID_parts a b :
  length a = 8%nat -> length b = 4%nat ->
  readID (Some (a ++ b)) = if be_get a =? 0 then Err InvalidID else if negb (Checksum a =? be_get b) then Err BadCRC else Ok (be_get a).
Proof.
  intros Ha Hb. unfold readID. rewrite zlen_app. unfold zlen. rewrite Ha, Hb. simpl negb. cbn match.
  rewrite subslice_head by (unfold zlen; rewrite Ha; done).
  rewrite <- (app_nil_r (a ++ b)), <- app_assoc, subslice_app by (unfold zlen; rewrite ?Ha, ?Hb; done). done.
Qed.

Lemma be_get_inj a b : length a = length b -> be_get a = be_get b -> a = b.
Proof. intros El E. rewrite <- (be_put_get a), <- (be_put_get b), El, E. done. Qed.

Lemma readID_id_file id : 1 <= id <= MaxUint64 -> readID (Some (id_file id)) = Ok id.
Proof.
  intros Hid. unfold id_file. rewrite readID_parts by (by rewrite length_be_put). rewrite !be_get_put.
  rewrite (Z.mod_small id), (Z.mod_small (Checksum _)) by (pose proof (Checksum_range (be_put 8 id)); unfold MaxUint64 in Hid; cbn; lia).
  destruct (Z.eqb_spec id 0); [lia|]. by rewrite Z.eqb_refl.
Qed.

Lemma readID_detects id i x b :
  id_file id !! i = Some x -> b <> x -> exists e, readID (Some (<[i := b]> (id_file id))) = Err e.
Proof.
  intros Hx Hb. unfold id_file in *. set (a := be_put 8 id) in *. set (c := be_put 4 (Checksum a)) in *.
  assert (length a = 8%nat) as La by apply length_be_put. assert (length c = 4%nat) as Lc by apply length_be_put.
  assert (be_get c = Checksum a) as Ec by (unfold c; rewrite be_get_put; apply Z.mod_small; pose proof (Checksum_range a); cbn; lia).
  apply lookup_app_Some in Hx as [Hx|[Hi Hx]].
  - assert (i < 8)%nat by (apply lookup_lt_Some in Hx; lia). rewrite insert_app_l, readID_parts by (rewrite ?length_insert; lia).
    destruct (_ =? 0); [by eexists|]. rewrite Ec. destruct (Z.eqb_spec (Checksum (<[i := b]> a)) (Checksum a)) as [E|]; [|by eexists].
    rewrite <- (take_drop_middle a i x Hx) in E at 2. rewrite insert_take_drop in E by lia. by apply Checksum_detects in E.
  - assert (i - 8 < 4)%nat by (apply lookup_lt_Some in Hx; lia). rewrite insert_app_r_alt, readID_parts by (rewrite ?length_insert; lia).
    destruct (_ =? 0); [by eexists|]. rewrite <- Ec.
    destruct (Z.eqb_spec (be_get c) (be_get (<[(i - length a)%nat := b]> c))) as [E|]; [|by eexists].
    apply be_get_inj in E; [|by rewrite length_insert]. rewrite E, list_lookup_insert_eq in Hx by lia. congruence.
Qed.

(** ** Files: [file.go]

    The operations of the system on files by name. *)

Class OS (W : Type) := {
  os_OpenFile : bytes -> W -> W * bool;
  os_Write : bytes -> bytes -> W -> W * (Z * bool);
  os_Sync : bytes -> W -> W * bool;
  os_Close : bytes -> W -> W * bool;
  os_Rename : bytes -> bytes -> W -> W * bool;
}.

(** What a process finds in a file.  Opening for writing truncates, a write may stop
    early, and renaming replaces a file at once. *)
Class OSLaws (W : Type) `{OS W} := {
  contents : W -> bytes -> option bytes;
  open_contents n w m : contents (os_OpenFile n w).1 m =
    if decide (m = n) then if (os_OpenFile n w).2 then Some [] else contents w n else contents w m;
  write_contents n d w m : contents (os_Write n d w).1 m =
    if decide (m = n) then old ← contents w n; Some (old ++ take (Z.to_nat (os_Write n d w).2.1) d) else contents w m;
  write_count n d w : (os_Write n d w).2.1 <= zlen d;
  sync_contents n w m : contents (os_Sync n w).1 m = contents w m;
  close_contents n w m : contents (os_Close n w).1 m = contents w m;
  rename_contents a b w m : contents (os_Rename a b w).1 m =
    if (os_Rename a b w).2 then if decide (m = b) then contents w a else if decide (m = a) then None else contents w m else contents w m;
}.

(** Steps that pass through worlds: the list has the world after every step, so that a
    crash can be looked at. *)
Definition io (W A : Type) : Type := W -> list W * W * A.
Definition io_op {W A} (f : W -> W * A) : io W A := fun w => let '(w, a) := f w in ([w], w, a).
#[export] Instance io_ret {W} : MRet (io W) := fun A a w => ([], w, a).
#[export] Instance io_bind {W} : MBind (io W) := fun A B f m w =>
  let '(t1, w, a) := m w in let '(t2, w, b) := f a w in (t1 ++ t2, w, b).

Inductive ferr := OpenFailed | ErrShortWrite | WriteFailed | SyncFailed | CloseFailed | RenameFailed.

Definition suffix : bytes := list_byte_of_string ".temp".

Section Files.
Context {W : Type} `{OS W}.

(** The deferred [Close] comes last once the file is open; its result is dropped. *)
Definition writeFile (name data : bytes) : io W (option ferr) :=
  let temp := name ++ suffix in
  ok ← io_op (os_OpenFile temp);
  if negb ok then mret (Some OpenFailed)
  else
    r ← (r ← io_op (os_Write temp data);
          if r.2 && (r.1 <? zlen data) then mret (Some ErrShortWrite)
          else if negb r.2 then mret (Some WriteFailed)
          else
            ok ← io_op (os_Sync temp);
            if negb ok then mret (Some SyncFailed)
            else
              ok ← io_op (os_Close temp);
              if negb ok then mret (Some CloseFailed)
              else
                ok ← io_op (os_Rename temp name);
                if negb ok then mret (Some RenameFailed) else mret None);
    _ ← io_op (os_Close temp);
    mret r.

Context `{!OSLaws W}.

(** Whatever fails, and wherever a crash stops it, the file has its old contents or the
    new ones, and it has the new ones exactly when [writeFile] reports success. *)
Lemma writeFile_atomic name data w :
  let '(worlds, w', r) := writeFile name data w in
  Forall (fun v => contents v name = contents w name \/ contents v name = Some data) worlds /\
  contents w' name = if r then contents w name else Some data.
Proof.
  assert (name <> name ++ suffix) as Hn.
  { intros E%(f_equal length). rewrite length_app in E. cbn in E. lia. }
  unfold writeFile, mbind, io_bind, io_op, mret, io_ret. set (t := name ++ suffix) in *.
  pose proof (open_contents t w) as C1. destruct (os_OpenFile t w) as [w1 ok1]; cbn [fst snd] in C1.
  assert (contents w1 name = contents w name) as E1 by (by rewrite C1, decide_False).
  destruct ok1; simpl; [|split; [rewrite ?Forall_cons, Forall_nil; split_and!|]; auto].
  pose proof (write_contents t data w1) as C2. pose proof (write_count t data w1) as Hc.
  destruct (os_Write t data w1) as [w2 [n ok2]]; cbn [fst snd] in C2, Hc.
  assert (contents w2 name = contents w name) as E2 by (by rewrite C2, decide_False).
  pose proof (close_contents t w2) as D2. pose proof (sync_contents t w2) as C3.
  destruct ok2; simpl; [|destruct (os_Close t w2); simpl in *; rewrite D2; split; [rewrite ?Forall_cons, Forall_nil; split_and!|]; rewrite ?D2; auto].
  destruct (Z.ltb_spec n (zlen data)); simpl; [destruct (os_Close t w2); simpl in *; rewrite D2; split; [rewrite ?Forall_cons, Forall_nil; split_and!|]; rewrite ?D2; auto|].
  assert (contents w2 t = Some data) as F2.
  { rewrite C2, C1, !decide_True by done. simpl. f_equal. apply take_ge. unfold zlen in *. lia. }
  destruct (os_Sync t w2) as [w3 ok3]; cbn [fst snd] in C3. pose proof (close_contents t w3) as C4.
  destruct ok3; simpl; [|destruct (os_Close t w3); simpl in *; rewrite C4, C3; split; [rewrite ?Forall_cons, Forall_nil; split_and!|]; rewrite ?C4, ?C3; auto].
  destruct (os_Close t w3) as [w4 ok4]; cbn [fst snd] in C4. pose proof (close_contents t w4) as D4.
  destruct ok4; simpl; [|destruct (os_Close t w4); simpl in *; rewrite D4, C4, C3; split; [rewrite ?Forall_cons, Forall_nil; split_and!|]; rewrite ?D4, ?C4, ?C3; auto].
  pose proof (rename_contents t name w4) as C5. destruct (os_Rename t name w4) as [w5 ok5]; cbn [fst snd] in C5.
  assert (contents w5 name = if ok5 then Some data else contents w name) as E5.
  { rewrite C5. destruct ok5; [rewrite decide_True by done|]; by rewrite C4, C3. }
  pose proof (close_contents t w5) as D5. destruct ok5; simpl; destruct (os_Close t w5); simpl in *; rewrite D5, E5;
    (split; [rewrite !Forall_cons, Forall_nil; split_and!|done]); rewrite ?D5, ?E5, ?C4, ?C3; auto.
Qed.
End Files.

(** ** Messages of the consensus library *)

Definition EntryNormal : Z := 0.
Definition EntryConfChange : Z := 1.
Definition ConfChangeAddNode : Z := 0.
Definition ConfChangeRemoveNode : Z := 1.
Definition ConfChangeUpdateNode : Z := 2.

(** [None] as data is nil. *)
Record Entry := mkEntry { e_Type : Z; e_Term : Z; e_Index : Z; e_Data : option bytes }.
Record ConfChange := mkConfChange { cc_Type : Z; cc_NodeID : Z; cc_Context : bytes }.
Record HardState := mkHardState { hs_Term : Z; hs_Vote : Z; hs_Commit : Z }.
Record RaftSnapshot := mkRaftSnapshot { rs_Data : bytes; rs_Index : Z; rs_Term : Z; rs_ConfState : list Z }.
Record Message := mkMessage { m_To : Z; m_Body : bytes }.
Record ReadState := mkReadState { r_Index : Z; r_RequestCtx : bytes }.
Record Ready := mkReady {
  rd_ReadStates : list ReadState; rd_HardState : HardState; rd_Entries : list Entry;
  rd_Snapshot : RaftSnapshot; rd_CommittedEntries : list Entry; rd_Messages : list Message;
}.

Definition IsEmptySnap (s : RaftSnapshot) : bool := rs_Index s =? 0.

(** What is proposed, as JSON. *)
Record proposal := mkProposal { Wctx : bytes; p_Instruction : bytes }.

(** Encodings of etcd's messages and of JSON. *)
Class RaftPB := {
  MarshalProposal : proposal -> bytes;
  UnmarshalProposal : bytes -> option proposal;
  UnmarshalConfChange : bytes -> option ConfChange;
  MarshalRaftSnapshot : RaftSnapshot -> option bytes;
  UnmarshalRaftSnapshot : bytes -> option RaftSnapshot;
  MarshalSnap : Z -> bytes -> option bytes;
  UnmarshalSnap : bytes -> option (Z * bytes);
  MarshalMessage : Message -> option bytes;
  DecodeNodeJoin : bytes -> option (Z * bytes);
}.

Class RaftPBLaws `{RaftPB} : Prop := {
  proposal_roundtrip p : UnmarshalProposal (MarshalProposal p) = Some p;
  raft_snapshot_roundtrip s b : MarshalRaftSnapshot s = Some b -> UnmarshalRaftSnapshot b = Some s;
  snap_roundtrip c d b : u32 c -> MarshalSnap c d = Some b -> UnmarshalSnap b = Some (c, d);
}.

(** The node, its storage, its write-ahead log and the network. *)
Class RaftLib (W : Type) := {
  raft_OS :: OS W;
  node_ApplyConfChange : ConfChange -> W -> W * list Z;
  node_Advance : W -> W;
  node_Stop : W -> W;
  node_RestartNode : Z -> Z -> W -> W;
  node_StartNode : Z -> bytes -> W -> W;
  node_Campaign : W -> W;
  node_send : bytes -> bytes -> W -> W;
  ms_Append : list Entry -> W -> W;
  ms_SetHardState : HardState -> W -> W;
  ms_ApplySnapshot : RaftSnapshot -> W -> W * bool;
  ms_CreateSnapshot : Z -> list Z -> bytes -> W -> W * option RaftSnapshot;
  ms_Compact : Z -> W -> W * bool;
  wal_Create : W -> W * bool;
  wal_Open : Z -> Z -> W -> W * bool;
  wal_ReadAll : W -> W * option (HardState * list Entry);
  wal_Save : HardState -> list Entry -> W -> W;
  wal_SaveSnapshot : Z -> Z -> W -> W * bool;
  wal_ReleaseLockTo : Z -> W -> W * bool;
  wal_dir_make : W -> W * bool;
  wal_dir_empty : W -> W * bool;
  wal_dir_remove : W -> W * bool;
  os_ReadFile : bytes -> W -> W * result bool bytes;
  http_join : bytes -> bytes -> W -> W * option (Z * bytes);
  tls_verify : bytes -> W -> W * bool;
}.

(** ** The service *)

Definition snapCount : Z := 10000.
Definition nSnapCatchupEntries : Z := 10000.

(** Errors: those of the first group are values of panics. *)
Inductive rerr :=
| CannotUnmarshal | RemovedFromCluster | BadJSON | ApplyFailed (e : aerr) | UnknownEntryType | NilMap | LibraryError
| BadSnapshotCRC | BadID (e : iderr) | FileError | JoinFailed | BadTLSName | StillRetrying.

(** [rdIndices] and [writers] are the tables of the loop [runUpdates], whose channels are
    numbers; [sv_sent] and [sv_read] are what was sent on them. *)
Record Service (W : Type) := mkService {
  sv_id : Z;
  sv_world : W;
  sv_state : State;
  sv_confState : list Z;
  sv_done : bool;
  sv_err : option rerr;
  sv_snapIndex : Z;
  sv_rdIndices : gmap bytes nat;
  sv_writers : gmap bytes nat;
  sv_sent : list (nat * bool);
  sv_read : list (nat * Z);
  sv_broadcasts : nat;
}.
Arguments mkService {W}. Arguments sv_id {W}. Arguments sv_world {W}. Arguments sv_state {W}. Arguments sv_confState {W}.
Arguments sv_done {W}. Arguments sv_err {W}. Arguments sv_snapIndex {W}. Arguments sv_rdIndices {W}. Arguments sv_writers {W}.
Arguments sv_sent {W}. Arguments sv_read {W}. Arguments sv_broadcasts {W}.

Section Service.
Context {W : Type} `{RaftLib W} `{Protobuf} `{RaftPB}.

Notation Sv := (Service W).

Definition set_id (id : Z) (s : Sv) : Sv :=
  mkService id (sv_world s) (sv_state s) (sv_confState s) (sv_done s) (sv_err s) (sv_snapIndex s) (sv_rdIndices s) (sv_writers s) (sv_sent s) (sv_read s) (sv_broadcasts s).
Definition set_world (w : W) (s : Sv) : Sv :=
  mkService (sv_id s) w (sv_state s) (sv_confState s) (sv_done s) (sv_err s) (sv_snapIndex s) (sv_rdIndices s) (sv_writers s) (sv_sent s) (sv_read s) (sv_broadcasts s).
Definition set_state (t : State) (s : Sv) : Sv :=
  mkService (sv_id s) (sv_world s) t (sv_confState s) (sv_done s) (sv_err s) (sv_snapIndex s) (sv_rdIndices s) (sv_writers s) (sv_sent s) (sv_read s) (sv_broadcasts s).
Definition set_confState (c : list Z) (s : Sv) : Sv :=
  mkService (sv_id s) (sv_world s) (sv_state s) c (sv_done s) (sv_err s) (sv_snapIndex s) (sv_rdIndices s) (sv_writers s) (sv_sent s) (sv_read s) (sv_broadcasts s).
Definition set_err (e : option rerr) (s : Sv) : Sv :=
  mkService (sv_id s) (sv_world s) (sv_state s) (sv_confState s) (sv_done s) e (sv_snapIndex s) (sv_rdIndices s) (sv_writers s) (sv_sent s) (sv_read s) (sv_broadcasts s).
Definition set_snapIndex (i : Z) (s : Sv) : Sv :=
  mkService (sv_id s) (sv_world s) (sv_state s) (sv_confState s) (sv_done s) (sv_err s) i (sv_rdIndices s) (sv_writers s) (sv_sent s) (sv_read s) (sv_broadcasts s).
Definition set_rdIndices (m : gmap bytes nat) (s : Sv) : Sv :=
  mkService (sv_id s) (sv_world s) (sv_state s) (sv_confState s) (sv_done s) (sv_err s) (sv_snapIndex s) m (sv_writers s) (sv_sent s) (sv_read s) (sv_broadcasts s).
Definition set_writers (m : gmap bytes nat) (s : Sv) : Sv :=
  mkService (sv_id s) (sv_world s) (sv_state s) (sv_confState s) (sv_done s) (sv_err s) (sv_snapIndex s) (sv_rdIndices s) m (sv_sent s) (sv_read s) (sv_broadcasts s).
Definition send_satisfied (c : nat) (b : bool) (s : Sv) : Sv :=
  mkService (sv_id s) (sv_world s) (sv_state s) (sv_confState s) (sv_done s) (sv_err s) (sv_snapIndex s) (sv_rdIndices s) (sv_writers s) (sv_sent s ++ [(c, b)]) (sv_read s) (sv_broadcasts s).
Definition send_index (c : nat) (i : Z) (s : Sv) : Sv :=
  mkService (sv_id s) (sv_world s) (sv_state s) (sv_confState s) (sv_done s) (sv_err s) (sv_snapIndex s) (sv_rdIndices s) (sv_writers s) (sv_sent s) (sv_read s ++ [(c, i)]) (sv_broadcasts s).
Definition Broadcast (s : Sv) : Sv :=
  mkService (sv_id s) (sv_world s) (sv_state s) (sv_confState s) (sv_done s) (sv_err s) (sv_snapIndex s) (sv_rdIndices s) (sv_writers s) (sv_sent s) (sv_read s) (S (sv_broadcasts s)).
Definition stop (s : Sv) : Sv :=
  mkService (sv_id s) (sv_world s) (sv_state s) (sv_confState s) true (sv_err s) (sv_snapIndex s) (sv_rdIndices s) (sv_writers s) (sv_sent s) (sv_read s) (sv_broadcasts s).

(** *** Computations on the service, which may panic or return an error *)

Definition M (A : Type) : Type := Sv -> Sv * result rerr A.
#[export] Instance sv_ret : MRet M := fun A a s => (s, Ok a).
Definition throw {A} (e : rerr) : M A := fun s => (s, Err e).
Definition modify (f : Sv -> Sv) : M unit := fun s => (f s, Ok tt).
Definition gets {A} (f : Sv -> A) : M A := fun s => (s, Ok (f s)).
#[export] Instance sv_bind : MBind M := fun A B f m s =>
  match m s with
  | (s, Ok a) => f a s
  | (s, Err e) => (s, Err e)
  end.
Definition lib {A} (f : W -> W * A) : M A := fun s => let '(w, a) := f (sv_world s) in (set_world w s, Ok a).
Definition lib_ (f : W -> W) : M unit := modify (fun s => set_world (f (sv_world s)) s).
Definition assert_ (ok : bool) (e : rerr) : M unit := if ok then mret tt else throw e.

(** *** Snapshots on disk *)

Definition encodeSnapshot (snapshot : RaftSnapshot) : option bytes :=
  b ← MarshalRaftSnapshot snapshot; MarshalSnap (Checksum b) b.

Definition decodeSnapshot (data : bytes) : result rerr RaftSnapshot :=
  match UnmarshalSnap data with
  | None => Err CannotUnmarshal
  | Some (crc, d) =>
      if negb (Checksum d =? crc) then Err BadSnapshotCRC
      else match UnmarshalRaftSnapshot d with None => Err CannotUnmarshal | Some s => Ok s end
  end.

Definition snapFile : bytes := list_byte_of_string "snap".
Definition idFile : bytes := list_byte_of_string "id".

(** [writeFile] of the world. *)
Definition write_file (name data : bytes) : M bool :=
  lib (fun w => let '(_, w, r) := writeFile name data w in (w, bool_decide (r = None))).

Definition writeID (id : Z) : M unit :=
  ok ← write_file idFile (id_file id); assert_ ok FileError.

Definition read_id : M Z :=
  f ← lib (os_ReadFile idFile);
  match readID (match f with Ok d => Some d | Err _ => None end) with Ok id => mret id | Err e => throw (BadID e) end.

(** False is an error to try again after. *)
Definition saveSnapshot (snapshot : RaftSnapshot) : M bool :=
  match encodeSnapshot snapshot with
  | None => throw CannotUnmarshal
  | Some d => write_file snapFile d
  end.

Definition getSnapshot : M RaftSnapshot :=
  s ← gets (fun sv => Snapshot (sv_state sv));
  match s with
  | (None, _) => throw CannotUnmarshal
  | (Some data, index) =>
      cs ← gets sv_confState;
      snap ← lib (ms_CreateSnapshot index cs data);
      match snap with None => throw LibraryError | Some snap => mret snap end
  end.

(** The index at which the log is cut after a snapshot. *)
Definition compactIndex (index : Z) : Z :=
  if nSnapCatchupEntries <? index then uint64 (index - nSnapCatchupEntries) else 1.

Definition triggerSnapshot : M bool :=
  snap ← getSnapshot;
  ok ← lib (wal_SaveSnapshot (rs_Index snap) (rs_Term snap));
  if negb ok then mret false
  else
    ok ← saveSnapshot snap;
    if negb ok then mret false
    else
      ok ← lib (ms_Compact (compactIndex (rs_Index snap)));
      assert_ ok LibraryError;;
      modify (set_snapIndex (rs_Index snap));;
      mret true.

(** Until [f] succeeds; [fuel] attempts. *)
Fixpoint redo (fuel : nat) (f : M bool) : M unit :=
  match fuel with
  | O => throw StillRetrying
  | S fuel =>
      ok ← f;
      modify (set_err (if ok : bool then None else Some FileError));;
      if ok : bool then mret tt else redo fuel f
  end.

(** *** Entries *)

Definition set_peer (id : Z) (addr : bytes) : M unit :=
  s ← gets sv_state;
  match SetPeerAddr id addr s with None => throw NilMap | Some s => modify (set_state s) end.

(** What is deferred is done also when the body panics. *)
Definition deferring (f : Sv -> Sv) {A} (m : M A) : M A := fun s => let '(s, r) := m s in (f s, r).

(** The answer goes to who waits for it; its channel has room for one. *)
Definition answer (wctx : bytes) (satisfied : bool) (s : Sv) : Sv :=
  match sv_writers s !! wctx with
  | Some c => set_writers (delete wctx (sv_writers s)) (send_satisfied c satisfied s)
  | None => s
  end.

Definition applyEntry (ent : Entry) : M unit :=
  if e_Type ent =? EntryConfChange then
    match UnmarshalConfChange (default [] (e_Data ent)) with
    | None => throw CannotUnmarshal
    | Some cc =>
        cs ← lib (node_ApplyConfChange cc);
        modify (set_confState cs);;
        modify (fun sv => set_state (SetAppliedIndex (e_Index ent) (sv_state sv)) sv);;
        if (cc_Type cc =? ConfChangeAddNode) || (cc_Type cc =? ConfChangeUpdateNode) then
          deferring Broadcast (set_peer (cc_NodeID cc) (cc_Context cc))
        else if cc_Type cc =? ConfChangeRemoveNode then
          id ← gets sv_id;
          assert_ (negb (cc_NodeID cc =? id)) RemovedFromCluster;;
          deferring Broadcast (modify (fun sv => set_state (RemovePeerAddr (cc_NodeID cc) (sv_state sv)) sv))
        else mret tt
    end
  else if e_Type ent =? EntryNormal then
    match e_Data ent with
    | None => modify (fun sv => set_state (SetAppliedIndex (e_Index ent) (sv_state sv)) sv)
    | Some data =>
        deferring Broadcast
          match UnmarshalProposal data with
          | None => throw BadJSON
          | Some p =>
              s ← gets sv_state;
              let '(s, r) := Apply (p_Instruction p) (e_Index ent) s in
              modify (set_state s);;
              match r with
              | APanic => throw NilMap
              | AErr e => throw (ApplyFailed e)
              | AOk satisfied => modify (answer (Wctx p) satisfied)
              end
          end
    end
  else throw UnknownEntryType.

(** The index of the last entry, or zero. *)
Fixpoint apply_entries (ents : list Entry) (lastEntryIndex : Z) : M Z :=
  match ents with
  | [] => mret lastEntryIndex
  | ent :: ents => applyEntry ent;; apply_entries ents (e_Index ent)
  end.

Fixpoint send (msgs : list Message) : M unit :=
  match msgs with
  | [] => mret tt
  | msg :: msgs =>
      match MarshalMessage msg with
      | None => throw CannotUnmarshal
      | Some data =>
          addr ← gets (fun sv => GetPeerAddr (m_To msg) (sv_state sv));
          (if decide (addr = []) then mret tt else lib_ (node_send addr data));;
          send msgs
      end
  end.

(** *** The update loop *)

Definition save_received (fuel : nat) (snap : RaftSnapshot) : M unit :=
  redo fuel (lib (wal_SaveSnapshot (rs_Index snap) (rs_Term snap)));;
  redo fuel (saveSnapshot snap);;
  ok ← lib (wal_ReleaseLockTo (rs_Index snap));
  assert_ ok LibraryError;;
  ok ← lib (ms_ApplySnapshot snap);
  assert_ ok LibraryError;;
  modify (set_snapIndex (rs_Index snap));;
  modify (set_confState (rs_ConfState snap)).

Definition runUpdatesReady (fuel : nat) (rd : Ready) : M unit :=
  lib_ (wal_Save (rd_HardState rd) (rd_Entries rd));;
  (if IsEmptySnap (rd_Snapshot rd) then mret tt else save_received fuel (rd_Snapshot rd));;
  lib_ (ms_Append (rd_Entries rd));;
  lastEntryIndex ← apply_entries (rd_CommittedEntries rd) 0;
  send (rd_Messages rd);;
  snapIndex ← gets sv_snapIndex;
  (if uint64 (snapIndex + snapCount) <? lastEntryIndex then redo fuel triggerSnapshot else mret tt);;
  lib_ node_Advance.

Definition replyReadIndex (readStates : list ReadState) (sv : Sv) : Sv :=
  foldl (fun sv st => match sv_rdIndices sv !! r_RequestCtx st with
                      | Some ch => set_rdIndices (delete (r_RequestCtx st) (sv_rdIndices sv)) (send_index ch (r_Index st) sv)
                      | None => sv
                      end) sv readStates.

(** What the loop receives; no channel in a request is a request to forget. *)
Inductive update := IsReady (rd : Ready) | RctxReq (rctx : bytes) (index : option nat) | WctxReq (wctx : bytes) (satisfied : option nat).

(** The deferred functions after a panic with an error. *)
Definition exit_loop (e : rerr) (sv : Sv) : Sv := Broadcast (stop (set_err (Some e) (set_world (node_Stop (sv_world sv)) sv))).

(** One iteration of [runUpdates]; false is the end of the loop, or an iteration that has
    not ended because [redo] goes on. *)
Definition runUpdates_body (fuel : nat) (u : update) (sv : Sv) : Sv * bool :=
  match u with
  | IsReady rd =>
      match runUpdatesReady fuel rd (replyReadIndex (rd_ReadStates rd) sv) with
      | (sv, Ok _) => (sv, true)
      | (sv, Err StillRetrying) => (sv, false)
      | (sv, Err e) => (exit_loop e sv, false)
      end
  | RctxReq rctx None => (set_rdIndices (delete rctx (sv_rdIndices sv)) sv, true)
  | RctxReq rctx (Some ch) => (set_rdIndices (<[rctx := ch]> (sv_rdIndices sv)) sv, true)
  | WctxReq wctx None => (set_writers (delete wctx (sv_writers sv)) sv, true)
  | WctxReq wctx (Some ch) => (set_writers (<[wctx := ch]> (sv_writers sv)) sv, true)
  end.

Fixpoint runUpdates (fuel : nat) (us : list update) (sv : Sv) : Sv :=
  match us with
  | [] => sv
  | u :: us => let '(sv, go) := runUpdates_body fuel u sv in if go then runUpdates fuel us sv else sv
  end.

(** *** Starting *)

Definition restore (snap : RaftSnapshot) : M unit :=
  s ← gets sv_state;
  let '(s, ok) := RestoreSnapshot (rs_Data snap) (rs_Index snap) s in
  modify (set_state s);;
  assert_ ok CannotUnmarshal;;
  modify (set_confState (rs_ConfState snap));;
  modify (set_snapIndex (rs_Index snap)).

Definition lift {A} (r : result rerr A) : M A := fun s => (s, r).

Definition emptySnapshot : RaftSnapshot := mkRaftSnapshot [] 0 0 [].

(** False: there is no write-ahead log.  An error of [ReadFile] is false when the file does
    not exist. *)
Definition recover : M bool :=
  ok ← lib wal_dir_make;
  assert_ ok FileError;;
  f ← lib (os_ReadFile snapFile);
  raftSnap ← match f with
             | Ok snapData => lift (decodeSnapshot snapData)
             | Err false => mret emptySnapshot
             | Err true => throw FileError
             end;
  empty ← lib wal_dir_empty;
  if empty : bool then mret false
  else
    ok ← lib (wal_Open (rs_Index raftSnap) (rs_Term raftSnap));
    assert_ ok LibraryError;;
    r ← lib wal_ReadAll;
    match r with
    | None => throw LibraryError
    | Some (st, ents) =>
        _ ← lib (ms_ApplySnapshot raftSnap);
        (if IsEmptySnap raftSnap then mret tt else restore raftSnap);;
        lib_ (ms_SetHardState st);;
        lib_ (ms_Append ents);;
        mret true
    end.

(** A new log in an empty directory. *)
Definition create_wal : M unit :=
  ok ← lib wal_dir_remove;
  assert_ ok FileError;;
  ok ← lib wal_Create;
  assert_ ok LibraryError.

Definition join (addr baseURL : bytes) : M unit :=
  resp ← lib (http_join baseURL addr);
  match resp with
  | None => throw JoinFailed
  | Some (status, body) =>
      assert_ (status =? 200) JoinFailed;;
      match DecodeNodeJoin body with
      | None => throw BadJSON
      | Some (id, snapData) =>
          modify (set_id id);;
          raftSnap ← lift (decodeSnapshot snapData);
          ok ← lib (ms_ApplySnapshot raftSnap);
          assert_ ok LibraryError;;
          writeID id;;
          create_wal;;
          if IsEmptySnap raftSnap then mret tt
          else
            ok ← lib (wal_SaveSnapshot (rs_Index raftSnap) (rs_Term raftSnap));
            assert_ ok LibraryError;;
            ok ← saveSnapshot raftSnap;
            assert_ ok FileError;;
            restore raftSnap
      end
  end.

Definition newService (w : W) : Sv := mkService 0 w New [] false None 0 ∅ ∅ [] [] 0.

(** The configuration of the node has the identifier and the index that was applied. *)
Definition restart_node : M unit :=
  id ← gets sv_id;
  applied ← gets (fun sv => AppliedIndex (sv_state sv));
  lib_ (node_RestartNode id applied).

Definition Start (laddr bootURL : bytes) : M unit :=
  ok ← lib (tls_verify laddr);
  assert_ ok BadTLSName;;
  recovered ← recover;
  if recovered : bool then
    id ← read_id;
    modify (set_id id);;
    restart_node;;
    lib_ node_Campaign
  else if decide (bootURL = []) then
    modify (set_id 1);;
    writeID 1;;
    create_wal;;
    lib_ (node_StartNode 1 laddr)
  else
    join laddr bootURL;;
    restart_node.

(** *** What the operations leave alone *)

Definition keeps {B A} (f : Sv -> B) (m : M A) : Prop := forall s, f (m s).1 = f s.

Lemma keeps_bind {B A C} (f : Sv -> B) (m : M A) (g : A -> M C) : keeps f m -> (forall a, keeps f (g a)) -> keeps f (m ≫= g).
Proof.
  intros Hm Hg s. unfold mbind, sv_bind. specialize (Hm s). destruct (m s) as [s1 [a|e]]; simpl in *; [|done].
  by rewrite (Hg a s1).
Qed.

Lemma keeps_lib {B A} (f : Sv -> B) (g : W -> W * A) : (forall w s, f (set_world w s) = f s) -> keeps f (lib g).
Proof. intros Hf s. unfold lib. destruct (g (sv_world s)). apply Hf. Qed.

Lemma keeps_modify {B} (f : Sv -> B) (g : Sv -> Sv) : (forall s, f (g s) = f s) -> keeps f (modify g).
Proof. intros Hf s. apply Hf. Qed.

Lemma keeps_redo {B} (f : Sv -> B) fuel (m : M bool) : (forall e s, f (set_err e s) = f s) -> keeps f m -> keeps f (redo fuel m).
Proof.
  intros Hf Hm. induction fuel as [|fuel IH]; cbn [redo]; [done|].
  apply keeps_bind; [done|]. intros ok. apply keeps_bind; [by apply keeps_modify|]. intros []. by destruct ok.
Qed.

(** Take a computation apart. *)
Ltac keep :=
  repeat match goal with
  | |- keeps _ (_ ≫= _) => apply keeps_bind
  | |- keeps _ (redo _ _) => apply keeps_redo
  | |- keeps _ (lib _) => apply keeps_lib
  | |- keeps _ (lib_ _) => apply keeps_modify
  | |- keeps _ (modify _) => apply keeps_modify
  | |- keeps _ (assert_ ?b _) => unfold assert_; destruct b
  | |- keeps _ (if ?b then _ else _) => destruct b
  | |- keeps _ (match ?b with _ => _ end) => destruct b
  | |- keeps _ (throw _) => intros ?; reflexivity
  | |- keeps _ (mret _) => intros ?; reflexivity
  | |- keeps _ (gets _) => intros ?; reflexivity
  | |- keeps _ (lift _) => intros ?; reflexivity
  | |- forall _, _ => intro
  | |- _ = _ => reflexivity
  end.

(** The state and the tables and channels of the loop. *)
Definition core (sv : Sv) := (sv_state sv, sv_writers sv, sv_sent sv, sv_rdIndices sv, sv_read sv).

Lemma core_state {A} (m : M A) : keeps core m -> keeps sv_state m.
Proof. intros Hm s. specialize (Hm s). by injection Hm. Qed.

Lemma saveSnapshot_keeps snap : keeps core (saveSnapshot snap).
Proof. unfold saveSnapshot, write_file. keep. Qed.

Lemma triggerSnapshot_keeps : keeps core triggerSnapshot.
Proof. unfold triggerSnapshot, getSnapshot. keep. all: apply saveSnapshot_keeps. Qed.

Lemma send_keeps msgs : keeps core (send msgs).
Proof. induction msgs as [|m msgs IH]; cbn [send]; [done|]. keep; apply IH. Qed.

(** A snapshot that the leader sends is stored and becomes the start of the log, but
    nothing of it gets into the state: only entries that come with it change it. *)
Lemma received_snapshot_not_restored fuel rd : rd_CommittedEntries rd = [] -> keeps core (runUpdatesReady fuel rd).
Proof.
  intros He. unfold runUpdatesReady, save_received. rewrite He. cbn [apply_entries]. keep.
  all: first [apply saveSnapshot_keeps | apply send_keeps | apply triggerSnapshot_keeps].
Qed.

Lemma writeID_keeps id : keeps sv_state (writeID id).
Proof. unfold writeID, write_file. keep. Qed.

(** *** Where the state of a process comes from *)

Definition boots (s : State) : Prop :=
  s = New \/ exists data index, index <> 0 /\ RestoreSnapshot data index New = (s, true).

(** What holds when a computation has returned. *)
Definition ends {A} (P : State -> Prop) (m : M A) (Q : A -> State -> Prop) : Prop :=
  forall s a s', P (sv_state s) -> m s = (s', Ok a) -> Q a (sv_state s').

Lemma ends_bind {A B} P R Q (m : M A) (g : A -> M B) : ends P m R -> (forall a, ends (R a) (g a) Q) -> ends P (m ≫= g) Q.
Proof.
  intros Hm Hg s b s'. unfold mbind, sv_bind. intros Hs E. specialize (Hm s). destruct (m s) as [s1 [a|e]]; [|done].
  eapply Hg; [|exact E]. by eapply Hm.
Qed.

Lemma ends_keeps {A} P (m : M A) : keeps sv_state m -> ends P m (fun _ => P).
Proof. intros Hk s a s' Hs E. specialize (Hk s). rewrite E in Hk. simpl in Hk. by rewrite Hk. Qed.

Lemma ends_mono {A} P (m : M A) (Q Q' : A -> State -> Prop) : (forall a s, Q a s -> Q' a s) -> ends P m Q -> ends P m Q'.
Proof. intros HQ Hm s a s' Hs E. eapply HQ, Hm; eauto. Qed.

Notation is_new := (fun s => s = New).

Lemma restore_boots snap : IsEmptySnap snap = false -> ends is_new (restore snap) (fun _ => boots).
Proof.
  intros Hs s [] s' Hn E. unfold restore, gets, mbind, sv_bind in E. rewrite Hn in E.
  destruct (RestoreSnapshot (rs_Data snap) (rs_Index snap) New) as [t ok] eqn:Er. destruct ok; [|done].
  injection E as <-. right. exists (rs_Data snap), (rs_Index snap). split; [|exact Er]. apply Z.eqb_neq, Hs.
Qed.

(** Skip what leaves the state alone. *)
Ltac skip := eapply ends_bind; [apply ends_keeps; keep|intros ?; simpl].

Lemma new_boots {A} (m : M A) : keeps sv_state m -> ends is_new m (fun _ => boots).
Proof. intros Hk. eapply ends_mono; [|by apply ends_keeps]. intros a s ->. by left. Qed.

Lemma recover_boots : ends is_new recover (fun b s => if b : bool then boots s else s = New).
Proof.
  unfold recover. do 3 skip. eapply ends_bind; [apply ends_keeps; destruct a1 as [|[]]; keep|]. intros snap. skip.
  destruct a2; [intros s b s' Hs E; by injection E as <- <-|]. do 3 skip. destruct a4 as [[st ents]|]; [|done]. skip.
  eapply ends_bind with (R := fun _ => boots).
  - destruct (IsEmptySnap snap) eqn:E; [apply new_boots; keep|by apply restore_boots].
  - intros []. do 2 skip. intros s b s' Hs E. by injection E as <- <-.
Qed.

Lemma join_boots addr url : ends is_new (join addr url) (fun _ => boots).
Proof.
  unfold join, create_wal. skip. destruct a as [[status body]|]; [|done]. skip. destruct (DecodeNodeJoin body) as [[id snapData]|]; [|done].
  do 2 skip. rename a1 into snap. do 2 skip. eapply ends_bind; [apply ends_keeps, writeID_keeps|intros ?; simpl]. skip.
  destruct (IsEmptySnap snap) eqn:E; [apply new_boots; keep|]. do 2 skip.
  eapply ends_bind; [apply ends_keeps, core_state, saveSnapshot_keeps|intros ?; simpl]. skip. by apply restore_boots.
Qed.

Lemma Start_boots laddr url w sv : Start laddr url (newService w) = (sv, Ok tt) -> boots (sv_state sv).
Proof.
  cut (ends is_new (Start laddr url) (fun _ => boots)); [intros Hs E; by apply (Hs (newService w) tt)|].
  unfold Start, create_wal, restart_node, read_id. do 2 skip. eapply ends_bind; [apply recover_boots|]. intros [].
  - apply ends_keeps. keep.
  - destruct (decide (url = [])).
    + apply new_boots. keep. apply writeID_keeps.
    + eapply ends_bind; [apply join_boots|]. intros []. apply ends_keeps. keep.
Qed.

(** An empty entry moves the index that [wait] waits for and wakes nobody up. *)
Lemma empty_entry_wakes_nobody index sv :
  applyEntry (mkEntry EntryNormal 0 index None) sv = (set_state (SetAppliedIndex index (sv_state sv)) sv, Ok tt) /\
  sv_broadcasts (set_state (SetAppliedIndex index (sv_state sv)) sv) = sv_broadcasts sv.
Proof. done. Qed.

(** Without a snapshot, an iteration changes what its entries change. *)
Lemma runUpdatesReady_core fuel rd sv :
  IsEmptySnap (rd_Snapshot rd) = true ->
  exists sv0, core sv0 = core sv /\ sv_id sv0 = sv_id sv /\ core (runUpdatesReady fuel rd sv).1 = core (apply_entries (rd_CommittedEntries rd) 0 sv0).1.
Proof.
  intros He. set (w1 := wal_Save (rd_HardState rd) (rd_Entries rd) (sv_world sv)).
  exists (set_world (ms_Append (rd_Entries rd) w1) (set_world w1 sv)). split_and!; [reflexivity..|].
  unfold runUpdatesReady. rewrite He. unfold lib_, modify. unfold mbind at 1 2 3, sv_bind at 1 2 3. cbn [mret sv_ret].
  change (sv_world (set_world (wal_Save (rd_HardState rd) (rd_Entries rd) (sv_world sv)) sv)) with w1. fold w1.
  unfold mbind at 1, sv_bind at 1. destruct (apply_entries (rd_CommittedEntries rd) 0 _) as [sv1 [last|e]]; [|reflexivity]. cbn [fst].
  revert sv1. change (keeps core (send (rd_Messages rd);; snapIndex ← gets sv_snapIndex;
    (if uint64 (snapIndex + snapCount) <? last then redo fuel triggerSnapshot else mret tt);; modify (fun s => set_world (node_Advance (sv_world s)) s))).
  keep; [apply send_keeps|apply triggerSnapshot_keeps].
Qed.

Lemma decode_encodeSnapshot `{!RaftPBLaws} snap b : encodeSnapshot snap = Some b -> decodeSnapshot b = Ok snap.
Proof.
  unfold encodeSnapshot, decodeSnapshot. intros (d & Ed & Eb)%bind_Some.
  rewrite (snap_roundtrip _ _ _ (Checksum_range d) Eb), Z.eqb_refl. simpl. by rewrite (raft_snapshot_roundtrip _ _ Ed).
Qed.

End Service.

(** ** The file of the identifier *)

(** C22: While [writeID] runs and wherever it stops, the file of the identifier reads as
    before or as the new identifier, and as the new one when it succeeded; and a file in
    which one byte of the twelve was changed is refused. *)
Theorem member_id_safe {W} `{OSLaws W} id w :
  1 <= id <= MaxUint64 ->
  let '(worlds, w', r) := writeFile idFile (id_file id) w in
  Forall (fun v => readID (contents v idFile) = readID (contents w idFile) \/ readID (contents v idFile) = Ok id) worlds /\
  readID (contents w' idFile) = (if r then readID (contents w idFile) else Ok id) /\
  forall i x b, id_file id !! i = Some x -> b <> x -> exists e, readID (Some (<[i := b]> (id_file id))) = Err e.
Proof.
  intros Hid. pose proof (writeFile_atomic idFile (id_file id) w) as Ha. destruct (writeFile idFile (id_file id) w) as [[worlds w'] r].
  destruct Ha as [Hf Hw]. pose proof (readID_id_file id Hid) as Er. split_and!.
  - eapply Forall_impl; [exact Hf|]. intros v [->| ->]; [by left|by right].
  - rewrite Hw. by destruct r.
  - intros i x b Hx Hb. by eapply readID_detects.
Qed.

(** Files in which the disk is full after [n] bytes. *)
#[local] Instance full_os : OS (nat * gmap bytes bytes) := {|
  os_OpenFile n w := ((w.1, <[n := []]> w.2), true);
  os_Write n d w := ((w.1, alter (fun old => old ++ take w.1 d) n w.2), (Z.min (Z.of_nat w.1) (zlen d), bool_decide (length d <= w.1)%nat));
  os_Sync _ w := (w, true);
  os_Close _ w := (w, true);
  os_Rename a b w :=
    match w.2 !! a with
    | Some d => if decide (a = b) then (w, false) else ((w.1, delete a (<[b := d]> w.2)), true)
    | None => (w, false)
    end;
|}.

#[local] Instance full_os_laws : OSLaws (nat * gmap bytes bytes).
Proof.
  refine {| contents w m := w.2 !! m |}; intros *; try done.
  - simpl. rewrite lookup_insert. destruct (decide (n = m)), (decide (m = n)); congruence.
  - simpl. destruct (decide (m = n)) as [->|Hn]; [|by rewrite lookup_alter_ne].
    rewrite lookup_alter_eq. destruct (w.2 !! n) as [old|]; [|done]. simpl. do 2 f_equal. unfold zlen.
    destruct (decide (w.1 <= length d)%nat); [by replace (Z.to_nat _) with w.1 by lia|].
    rewrite !take_ge by lia. done.
  - simpl. lia.
  - simpl. destruct (w.2 !! a) as [d|] eqn:E; [|done]. destruct (decide (a = b)); [done|]. simpl.
    destruct (decide (m = b)) as [->|]; [by rewrite lookup_delete_ne, lookup_insert_eq|].
    destruct (decide (m = a)) as [->|]; [by rewrite lookup_delete_eq|by rewrite lookup_delete_ne, lookup_insert_ne].
Defined.

(** Witness: with room for the file it is written, without it the old one stays. *)
Lemma member_id_safe_witness :
  let '(_, w1, r1) := writeFile idFile (id_file 1) (12%nat, ∅) in
  let '(_, w2, r2) := writeFile idFile (id_file 2) (5%nat, w1.2) in
  r1 = None /\ r2 = Some WriteFailed /\ readID (contents w2 idFile) = Ok 1 /\
  exists e, readID (Some (<[3%nat := x07]> (id_file 2))) = Err e.
Proof.
  pose proof (member_id_safe 1 (12%nat, ∅) ltac:(unfold MaxUint64; lia)) as Ha.
  destruct (writeFile idFile (id_file 1) (12%nat, ∅)) as [[l1 w1] r1] eqn:E1. destruct Ha as (_ & Ha & _).
  pose proof (member_id_safe 2 (5%nat, w1.2) ltac:(unfold MaxUint64; lia)) as Hb.
  destruct (writeFile idFile (id_file 2) (5%nat, w1.2)) as [[l2 w2] r2] eqn:E2. destruct Hb as (_ & Hb & Hd).
  assert (r1 = None) as -> by (change r1 with (l1, w1, r1).2; rewrite <- E1; by vm_compute).
  assert (r2 = Some WriteFailed) as ->.
  { change r2 with (l2, w2, r2).2. rewrite <- E2. change w1 with (l1, w1, None (A := ferr)).1.2. rewrite <- E1. by vm_compute. }
  split_and!; [done..|by rewrite Hb|]. apply (Hd 3%nat x00); [by vm_compute|done].
Defined.

(** The checksums of the tests of the package. *)
Lemma Checksum_tests : Checksum (be_put 8 1) = 0x7e433189 /\ Checksum (be_put 8 2) = 0x6d13c27d.
Proof. by vm_compute. Qed.
