(* ===== verification/RaftCluster.v ===== *)
(** * A cluster of raft services: clients, node identifiers and linearizable reads

    The processes of a cluster share one log, which the consensus library extends and
    delivers.  The calls of clients ([exec], [Set], [allocNodeID], [Get], [serveJoin] of
    [raft.go] and the functions of [membership.go]) are programs of atomic actions, and so
    are the steps of the library and of the update loop; all of them interleave freely.

    A process may start from nothing or from a snapshot.  The theorems say that [Get] is
    linearizable in both cases, and that node identifiers are unique when no process
    starts from a snapshot.  The last section shows why the second needs its condition. *)

From Stdlib Require Import ZArith Lia Strings.Byte String.
From stdpp Require Import gmap relations.
From S2P Require Import Prelude Encoding RaftState Concur Raft.

(** A call of [exec]; its number is the channel on which it is answered. *)
Record call := mkCall { c_node : nat; c_wctx : bytes; c_instr : bytes }.

(** A [Get] that returned: the length of the log when it began, and the number of entries
    that had been applied to what it read. *)
Record read := mkRead { rd_key : bytes; rd_value : bytes; rd_start : nat; rd_at : nat }.

(** Errors of calls. *)
Inductive xerr := RaftShutdown | ProposeFailed | ErrUnsatisfied | Timeout.

(** What the library commits next. *)
Inductive commit_choice := CProposal (i : nat) | CConfChange (d : bytes) | CEmpty.

Section Cluster.
Context {W : Type} `{RaftLib W} `{Protobuf} `{RaftPB}.

(** The log and the processes; what was proposed; then the history of calls, of calls to
    [Get], of snapshots, of calls that succeeded with the length of the log at that time,
    of node identifiers and of reads. *)
Record cluster := mkCluster {
  cl_log : list Entry;
  cl_nodes : list (Service W);
  cl_props : list bytes;
  cl_calls : list call;
  cl_gets : list (bytes * nat);
  cl_snaps : list (bytes * Z);
  cl_writes : list (nat * nat);
  cl_ids : list (nat * Z);
  cl_reads : list read;
}.

Definition init : cluster := mkCluster [] [] [] [] [] [] [] [] [].

Definition set_node (n : nat) (sv : Service W) (c : cluster) : cluster :=
  mkCluster (cl_log c) (<[n := sv]> (cl_nodes c)) (cl_props c) (cl_calls c) (cl_gets c) (cl_snaps c) (cl_writes c) (cl_ids c) (cl_reads c).
Definition add_node (sv : Service W) (c : cluster) : cluster :=
  mkCluster (cl_log c) (cl_nodes c ++ [sv]) (cl_props c) (cl_calls c) (cl_gets c) (cl_snaps c) (cl_writes c) (cl_ids c) (cl_reads c).
Definition add_entry (e : Entry) (c : cluster) : cluster :=
  mkCluster (cl_log c ++ [e]) (cl_nodes c) (cl_props c) (cl_calls c) (cl_gets c) (cl_snaps c) (cl_writes c) (cl_ids c) (cl_reads c).
Definition add_prop (d : bytes) (c : cluster) : cluster :=
  mkCluster (cl_log c) (cl_nodes c) (cl_props c ++ [d]) (cl_calls c) (cl_gets c) (cl_snaps c) (cl_writes c) (cl_ids c) (cl_reads c).
Definition add_call (k : call) (c : cluster) : cluster :=
  mkCluster (cl_log c) (cl_nodes c) (cl_props c) (cl_calls c ++ [k]) (cl_gets c) (cl_snaps c) (cl_writes c) (cl_ids c) (cl_reads c).
Definition add_get (g : bytes * nat) (c : cluster) : cluster :=
  mkCluster (cl_log c) (cl_nodes c) (cl_props c) (cl_calls c) (cl_gets c ++ [g]) (cl_snaps c) (cl_writes c) (cl_ids c) (cl_reads c).
Definition add_snap (s : bytes * Z) (c : cluster) : cluster :=
  mkCluster (cl_log c) (cl_nodes c) (cl_props c) (cl_calls c) (cl_gets c) (cl_snaps c ++ [s]) (cl_writes c) (cl_ids c) (cl_reads c).
Definition add_write (w : nat * nat) (c : cluster) : cluster :=
  mkCluster (cl_log c) (cl_nodes c) (cl_props c) (cl_calls c) (cl_gets c) (cl_snaps c) (cl_writes c ++ [w]) (cl_ids c) (cl_reads c).
Definition add_id (i : nat * Z) (c : cluster) : cluster :=
  mkCluster (cl_log c) (cl_nodes c) (cl_props c) (cl_calls c) (cl_gets c) (cl_snaps c) (cl_writes c) (cl_ids c ++ [i]) (cl_reads c).
Definition add_read (r : read) (c : cluster) : cluster :=
  mkCluster (cl_log c) (cl_nodes c) (cl_props c) (cl_calls c) (cl_gets c) (cl_snaps c) (cl_writes c) (cl_ids c) (cl_reads c ++ [r]).

(** ** The environment of an action

    What [rand.Read] gives, the outcomes of calls to the library, what the library
    commits and delivers, and the world of a new process. *)
Record env := mkEnv {
  e_rand : bytes;
  e_fail : bool;
  e_accept : bool;
  e_timeout : bool;
  e_commit : commit_choice;
  e_ready : Ready;
  e_pick : nat;
  e_world : W;
}.

(** Sixteen random bytes are "long enough to prevent collisions". *)
Definition fresh (e : env) (c : cluster) : Prop := e_rand e ∉ c_wctx <$> cl_calls c.

Notation prog A := (Concur.prog env cluster A).

(** ** The library *)

(** An entry gets the next index, a 64-bit number; a proposal may be committed at any
    time, never, or more than once. *)
Definition commit : prog unit := atomic (fun e c =>
  let index := zlen (cl_log c) + 1 in
  if MaxUint64 <? index + first_id then (c, tt)
  else
    match e_commit e with
    | CProposal i => match cl_props c !! i with Some d => (add_entry (mkEntry EntryNormal 0 index (Some d)) c, tt) | None => (c, tt) end
    | CConfChange d => match UnmarshalConfChange d with Some _ => (add_entry (mkEntry EntryConfChange 0 index (Some d)) c, tt) | None => (c, tt) end
    | CEmpty => (add_entry (mkEntry EntryNormal 0 index None) c, tt)
    end).

Definition applied (sv : Service W) : nat := Z.to_nat (AppliedIndex (sv_state sv)).

(** The entries that [Node.Ready] gives next.  The library keeps count of its own: after a
    snapshot that the leader sent they are those that follow the snapshot, in the same
    [Ready] and later, whatever the process has made of it. *)
Definition next_entry (receives : bool) (sv : Service W) (rd : Ready) : nat :=
  if negb receives then applied sv
  else if IsEmptySnap (rd_Snapshot rd) then Nat.max (applied sv) (Z.to_nat (sv_snapIndex sv))
  else Z.to_nat (rs_Index (rd_Snapshot rd)).

(** What [Node.Ready] promises: the committed entries are those that follow the ones
    before, and the index for a read request is at least what was committed when it was
    made.  A snapshot is one that some process made, and it is ahead of what this process
    has applied; there are runs with such snapshots ([receives]) and runs without. *)
Definition ready_ok (receives : bool) (c : cluster) (sv : Service W) (rd : Ready) : Prop :=
  (IsEmptySnap (rd_Snapshot rd) = true \/
   receives = true /\ (rs_Data (rd_Snapshot rd), rs_Index (rd_Snapshot rd)) ∈ cl_snaps c /\
   AppliedIndex (sv_state sv) < rs_Index (rd_Snapshot rd)) /\
  rd_CommittedEntries rd = take (length (rd_CommittedEntries rd)) (drop (next_entry receives sv rd) (cl_log c)) /\
  Forall (fun st => Forall (fun g => g.1 = r_RequestCtx st -> Z.of_nat g.2 <= r_Index st <= zlen (cl_log c)) (cl_gets c)) (rd_ReadStates rd).

#[export] Instance entry_eq_dec : EqDecision Entry.
Proof. solve_decision. Defined.

#[export] Instance ready_ok_dec receives c sv rd : Decision (ready_ok receives c sv rd).
Proof. unfold ready_ok. apply _. Defined.

(** One iteration of the update loop of process [n], which may be its last. *)
Definition deliver (receives : bool) (fuel n : nat) : prog unit := atomic (fun e c =>
  match cl_nodes c !! n with
  | Some sv =>
      if sv_done sv then (c, tt)
      else if decide (ready_ok receives c sv (e_ready e)) then
        let '(sv, go) := runUpdates_body fuel (IsReady (e_ready e)) sv in (set_node n (if go then sv else stop sv) c, tt)
      else (c, tt)
  | None => (c, tt)
  end).

(** ** Processes *)

Definition process (w : W) (s : State) : Service W := set_state s (newService w).

Definition boot_new : prog unit := atomic (fun e c => (add_node (process (e_world e) New) c, tt)).

Definition boot_snapshot : prog unit := atomic (fun e c =>
  match cl_snaps c !! e_pick e with
  | Some (data, index) =>
      match RestoreSnapshot data index New with
      | (s, true) => (add_node (process (e_world e) s) c, tt)
      | (_, false) => (c, tt)
      end
  | None => (c, tt)
  end).

Definition crash (n : nat) : prog unit := atomic (fun _ c =>
  match cl_nodes c !! n with Some sv => (set_node n (stop sv) c, tt) | None => (c, tt) end).

(** ** Calls of clients *)

(** The loop of process [n] receives a request, unless it has ended. *)
Definition request (n : nat) (u : update) (c : cluster) : option cluster :=
  sv ← cl_nodes c !! n;
  if sv_done sv then None else Some (set_node n (runUpdates_body 0 u sv).1 c).

Definition answer_of (n ch : nat) (c : cluster) : option bool :=
  sv ← cl_nodes c !! n;
  snd <$> find (fun a => bool_decide (a.1 = ch)) (sv_sent sv).

(** [donec] is closed. *)
Definition stopped (n : nat) (c : cluster) : bool := from_option sv_done true (cl_nodes c !! n).

(** A timeout may come at any time; the number of the call is kept for the history. *)
Definition exec_call (n : nat) (instruction : bytes) : prog (nat * option xerr) :=
  r ← atomic (fun e c =>
        let ch := length (cl_calls c) in
        match request n (WctxReq (e_rand e) (Some ch)) c with
        | None => (c, None)
        | Some c => (add_call (mkCall n (e_rand e) instruction) c, Some (ch, mkProposal (e_rand e) instruction))
        end);
  match r with
  | None => mret (0%nat, Some RaftShutdown)
  | Some (ch, prop) =>
      failed ← atomic (fun e c => (if e_accept e then add_prop (MarshalProposal prop) c else c, e_fail e));
      if failed : bool then
        atomic (fun _ c => (default c (request n (WctxReq (Wctx prop) None) c), tt));;
        mret (ch, Some ProposeFailed)
      else
        r ← atomic (fun e c =>
              if e_timeout e then (c, Some Timeout)
              else if e_fail e && stopped n c then (c, Some RaftShutdown)
              else match answer_of n ch c with
                   | Some true => (add_write (ch, length (cl_log c)) c, None)
                   | Some false => (c, Some ErrUnsatisfied)
                   | None => (c, Some Timeout)
                   end);
        mret (ch, r)
  end.

Definition exec (n : nat) (instruction : bytes) : prog (option xerr) :=
  r ← exec_call n instruction; mret r.2.

Definition service_Set (n : nat) (key val : bytes) : prog (option xerr) := exec n (Set_ key val).
Definition service_Insert (n : nat) (key val : bytes) : prog (option xerr) := exec n (Insert key val).
Definition service_Delete (n : nat) (key : bytes) : prog (option xerr) := exec n (Delete key).

(** [fuel] attempts; [None] is a call that is still trying.  The identifier that is
    returned is put in the history. *)
Fixpoint allocNodeID (fuel n : nat) : prog (option (result xerr Z)) :=
  match fuel with
  | O => mret None
  | S fuel =>
      r ← atomic_or_panic (fun _ c => (c, match cl_nodes c !! n with
                                          | Some sv => Some <$> NextNodeID (sv_state sv)
                                          | None => Some None
                                          end));
      match r with
      | None => mret (Some (Err RaftShutdown))
      | Some (nextID, index) =>
          x ← exec_call n (IncrementNextNodeID nextID index);
          match x.2 with
          | Some ErrUnsatisfied => allocNodeID fuel n
          | Some e => mret (Some (Err e))
          | None =>
              atomic (fun _ c => (add_id (x.1, nextID) c, tt));;
              mret (Some (Ok nextID))
          end
      end
  end.

(** The waiting loops look at the state once each time they are woken up. *)
Fixpoint wait_until {A} (fuel n : nat) (f : Service W -> option A) : prog (option A) :=
  match fuel with
  | O => mret None
  | S fuel =>
      r ← atomic (fun _ c => (c, sv ← cl_nodes c !! n; f sv));
      match r with Some a => mret (Some a) | None => wait_until fuel n f end
  end.

Definition wait_index (fuel n : nat) (index : Z) : prog (option bool) :=
  wait_until fuel n (fun sv => if negb (sv_done sv) && (AppliedIndex (sv_state sv) <? index) then None
                               else Some (index <=? AppliedIndex (sv_state sv))).

Definition waitForNode (fuel n : nat) (nodeID : Z) : prog (option unit) :=
  wait_until fuel n (fun sv => if decide (GetPeerAddr nodeID (sv_state sv) = []) then None else Some tt).

Definition index_of (n ch : nat) (c : cluster) : option Z :=
  sv ← cl_nodes c !! n;
  snd <$> find (fun a => bool_decide (a.1 = ch)) (sv_read sv).

(** [None]: still waiting.  The write that gets things going after a while is a [Set] like
    those of other clients. *)
Definition get (fuel n : nat) (key : bytes) : prog (option (result xerr bytes)) :=
  r ← atomic (fun e c =>
        let ch := length (cl_gets c) in
        if e_timeout e then (c, Err Timeout)
        else match request n (RctxReq (e_rand e) (Some ch)) c with
             | None => (c, Err RaftShutdown)
             | Some c => (add_get (e_rand e, length (cl_log c)) c, Ok (ch, e_rand e, length (cl_log c)))
             end);
  match r with
  | Err x => mret (Some (Err x))
  | Ok (ch, rctx, start) =>
      failed ← atomic (fun e c => (c, if e_fail e then Some (if e_timeout e then Timeout else ProposeFailed) else None));
      match failed with
      | Some x =>
        atomic (fun _ c => (default c (request n (RctxReq rctx None) c), tt));;
        mret (Some (Err x))
      | None =>
        idx ← atomic (fun e c => (c, if e_timeout e then Err Timeout
                                     else if e_fail e && stopped n c then Err RaftShutdown
                                     else match index_of n ch c with Some i => Ok i | None => Err Timeout end));
        match idx with
        | Err x => mret (Some (Err x))
        | Ok idx =>
            ok ← wait_index fuel n idx;
            match ok with
            | None => mret None
            | Some false => mret (Some (Err RaftShutdown))
            | Some true =>
                v ← atomic (fun _ c => match cl_nodes c !! n with
                                       | Some sv => let v := RaftState.Get key (sv_state sv) in (add_read (mkRead key v start (applied sv)) c, v)
                                       | None => (c, [])
                                       end);
                mret (Some (Ok v))
            end
        end
      end
  end.

(** Again after a timeout. *)
Fixpoint service_Get (fuel n : nat) (key : bytes) : prog (option (result xerr bytes)) :=
  match fuel with
  | O => mret None
  | S fuel' =>
      r ← get fuel n key;
      match r with
      | Some (Err Timeout) => service_Get fuel' n key
      | r => mret r
      end
  end.

(** ** Joining: [membership.go] and [serveJoin] *)

Definition allowedMemberPrefix : bytes := list_byte_of_string "/raft/allowed".
Definition member_key (addr : bytes) : bytes := allowedMemberPrefix ++ list_byte_of_string "/" ++ addr.

Definition AddAllowedMember (n : nat) (addr : bytes) : prog (option xerr) := service_Set n (member_key addr) [x01].

Definition isAllowedMember (fuel n : nat) (addr : bytes) : prog (option bool) :=
  r ← service_Get fuel n (member_key addr);
  mret match r with
       | None => None
       | Some (Err _) => Some false
       | Some (Ok data) => Some (0 <? zlen data)
       end.

Inductive join_reply := Joined (id : Z) (snap : bytes * Z) | JoinError (status : Z) | JoinWaits.

(** [getSnapshot] of process [n]: a snapshot that it made is also one to start from. *)
Definition take_snapshot (n : nat) : prog (option (bytes * Z)) := atomic (fun _ c =>
  match cl_nodes c !! n with
  | Some sv =>
      match Snapshot (sv_state sv) with
      | (Some data, index) => (add_snap (data, index) c, Some (data, index))
      | (None, _) => (c, None)
      end
  | None => (c, None)
  end).

(** The change of the configuration that is proposed is one of those that [commit] may
    commit. *)
Definition serveJoin (fuel n : nat) (addr : bytes) : prog join_reply :=
  newID ← allocNodeID fuel n;
  match newID with
  | None => mret JoinWaits
  | Some (Err _) => mret (JoinError 400)
  | Some (Ok newID) =>
      allowed ← isAllowedMember fuel n addr;
      match allowed with
      | None => mret JoinWaits
      | Some false => mret (JoinError 400)
      | Some true =>
          failed ← atomic (fun e c => (c, e_fail e));
          if failed : bool then mret (JoinError 500)
          else
            w ← waitForNode fuel n newID;
            match w with
            | None => mret JoinWaits
            | Some _ =>
                snap ← take_snapshot n;
                mret match snap with Some snap => Joined newID snap | None => JoinError 500 end
            end
      end
  end.

(** ** Runs *)

Definition drop_result {A} (p : prog A) : prog unit := p;; mret tt.

(** What may be started at any time.  Clients use keys that the library can encode, and not
    the one of the node identifiers.  [restores]: processes may start from a snapshot;
    [receives]: the leader may send a snapshot to a process that runs. *)
Inductive starts (restores receives : bool) : prog unit -> Prop :=
  | start_commit : starts restores receives commit
  | start_deliver fuel n : starts restores receives (deliver receives fuel n)
  | start_boot_new : starts restores receives boot_new
  | start_boot_snapshot : restores = true -> starts restores receives boot_snapshot
  | start_crash n : starts restores receives (crash n)
  | start_snapshot n : starts restores receives (drop_result (take_snapshot n))
  | start_Set n k v : valid_string k = true -> k <> nextNodeID -> starts restores receives (drop_result (service_Set n k v))
  | start_Insert n k v : valid_string k = true -> k <> nextNodeID -> starts restores receives (drop_result (service_Insert n k v))
  | start_Delete n k : valid_string k = true -> k <> nextNodeID -> starts restores receives (drop_result (service_Delete n k))
  | start_Get fuel n k : starts restores receives (drop_result (service_Get fuel n k))
  | start_alloc fuel n : starts restores receives (drop_result (allocNodeID fuel n))
  | start_join fuel n addr : starts restores receives (drop_result (serveJoin fuel n addr)).

(** The states that a cluster can get into. *)
Definition reachable (restores receives : bool) (c : cluster) : Prop :=
  exists ps, rtc (pool_step fresh (starts restores receives)) (init, []) (c, ps).

(** ** The invariant *)

Context `{!ProtobufLaws} `{!RaftPBLaws}.

Definition entry_instr (ent : Entry) : option Instruction :=
  if e_Type ent =? EntryNormal then d ← e_Data ent; p ← UnmarshalProposal d; UnmarshalInstruction (p_Instruction p) else None.

(** The log as the store sees it, and the store after its first [p] entries. *)
Definition view (l : list Entry) : log := entry_instr <$> l.
Definition store_at (l : list Entry) (p : nat) : kv := replay (take p (view l)).

Definition call_entry (k : call) (p : nat) : Entry :=
  mkEntry EntryNormal 0 (Z.of_nat p + 1) (Some (MarshalProposal (mkProposal (c_wctx k) (c_instr k)))).

(** Position [p] has the proposal of call [k]. *)
Definition carries (l : list Entry) (p : nat) (k : call) : Prop := l !! p = Some (call_entry k p).

Context (restores : bool).

(** The identifier was the next one after some of the first [p] entries. *)
Definition was_next_by (c : cluster) (p : nat) (id v : Z) : Prop :=
  restores = false -> exists q, (q <= p)%nat /\ (q <= length (cl_log c))%nat /\ next_id (store_at (cl_log c) q) = Some (id, v).

Definition was_next (c : cluster) (id v : Z) : Prop := was_next_by c (length (cl_log c)) id v.

(** An entry is empty, or changes the configuration, or has the proposal of a call. *)
Definition entry_ok (c : cluster) (p : nat) (ent : Entry) : Prop :=
  ent = mkEntry EntryNormal 0 (Z.of_nat p + 1) None \/
  (exists d cc, ent = mkEntry EntryConfChange 0 (Z.of_nat p + 1) (Some d) /\ UnmarshalConfChange d = Some cc) \/
  (exists ch k, cl_calls c !! ch = Some k /\ ent = call_entry k p /\
    forall id v, 0 <= id <= MaxUint64 -> UnmarshalInstruction (c_instr k) = Some (Increment_instr id v) -> was_next_by c p id v).

(** After a snapshot only the keys of clients are known. *)
Definition same_store (a b : kv) : Prop := if restores then agree a b else a = b.

(** An instruction whose outcome is the same on all processes. *)
Definition determined (i : Instruction) : Prop := restores = false \/ forall id v, i <> Increment_instr id v.

Definition id_ok (a : kv) : Prop := exists x, 0 <= x <= MaxUint64 /\ kv_map a !! nextNodeID = Some (EncodeVarint x).

Record state_ok (c : cluster) (s : State) : Prop := mkStateOk {
  so_applied : 0 <= AppliedIndex s <= zlen (cl_log c);
  so_made : made s;
  so_store : same_store (store s) (store_at (cl_log c) (Z.to_nat (AppliedIndex s)));
  so_id : id_ok (store s);
  so_version : 0 <= id_version (store s) <= zlen (cl_log c);
}.

(** Call [k] was answered with [b] because of position [p]. *)
Definition answered (c : cluster) (k : call) (p : nat) (b : bool) : Prop :=
  carries (cl_log c) p k /\ exists i, c_instr k = MarshalInstruction i /\ issued i /\
    (determined i -> (transact (Z.of_nat p + 1) i (store_at (cl_log c) p)).2 = b).

Record node_ok (c : cluster) (sv : Service W) : Prop := mkNodeOk {
  no_state : state_ok c (sv_state sv);
  no_writers w ch : sv_writers sv !! w = Some ch -> exists k, cl_calls c !! ch = Some k /\ c_wctx k = w;
  no_sent ch b : (ch, b) ∈ sv_sent sv -> exists k p, cl_calls c !! ch = Some k /\ answered c k p b;
  no_rdIndices w ch : sv_rdIndices sv !! w = Some ch -> exists st, cl_gets c !! ch = Some (w, st);
  no_read ch i : (ch, i) ∈ sv_read sv -> exists w st, cl_gets c !! ch = Some (w, st) /\ Z.of_nat st <= i <= zlen (cl_log c);
}.

Definition call_ok (c : cluster) (k : call) : Prop :=
  exists i, issued i /\ c_instr k = MarshalInstruction i /\ forall id v, 0 <= id <= MaxUint64 -> i = Increment_instr id v -> was_next c id v.

Definition prop_ok (c : cluster) (d : bytes) : Prop :=
  exists ch k, cl_calls c !! ch = Some k /\ d = MarshalProposal (mkProposal (c_wctx k) (c_instr k)).

Definition made_snapshot (c : cluster) (x : bytes * Z) : Prop := exists s, Snapshot s = (Some x.1, x.2) /\ state_ok c s.

(** A call that succeeded is in the log of that time, and its conditions held there. *)
Definition write_ok (c : cluster) (x : nat * nat) : Prop :=
  (x.2 <= length (cl_log c))%nat /\ exists k p, cl_calls c !! x.1 = Some k /\ (p < x.2)%nat /\ answered c k p true.

Definition given_ok (c : cluster) (x : nat * Z) : Prop :=
  exists k p v, cl_calls c !! x.1 = Some k /\ carries (cl_log c) p k /\ (restores = false -> gives_out (view (cl_log c)) p x.2 v).

(** A value that was read is the one after a part of the log that has all that was there
    when the read began. *)
Definition read_ok (c : cluster) (r : read) : Prop :=
  (rd_start r <= rd_at r <= length (cl_log c))%nat /\
  (rd_key r <> nextNodeID -> rd_value r = default [] (kv_map (store_at (cl_log c) (rd_at r)) !! rd_key r)).

Record inv (c : cluster) : Prop := mkInv {
  i_length : zlen (cl_log c) + first_id <= MaxUint64;
  i_log p ent : cl_log c !! p = Some ent -> entry_ok c p ent;
  i_calls : Forall (call_ok c) (cl_calls c);
  i_wctx : NoDup (c_wctx <$> cl_calls c);
  i_props : Forall (prop_ok c) (cl_props c);
  i_nodes : Forall (node_ok c) (cl_nodes c);
  i_snaps : Forall (made_snapshot c) (cl_snaps c);
  i_writes : Forall (write_ok c) (cl_writes c);
  i_ids : Forall (given_ok c) (cl_ids c);
  i_reads : Forall (read_ok c) (cl_reads c);
}.

(** *** Growing *)

Record grows (c c' : cluster) : Prop := mkGrows {
  g_log : cl_log c `prefix_of` cl_log c';
  g_calls : cl_calls c `prefix_of` cl_calls c';
  g_gets : cl_gets c `prefix_of` cl_gets c';
}.

Lemma take_prefix {A} (l l' : list A) p : l `prefix_of` l' -> (p <= length l)%nat -> take p l' = take p l.
Proof. intros [k ->] Hp. by rewrite take_app_le. Qed.

Lemma store_at_grows c c' p : grows c c' -> (p <= length (cl_log c))%nat -> store_at (cl_log c') p = store_at (cl_log c) p.
Proof.
  intros [[k ->] _ _] Hp. unfold store_at, view. rewrite fmap_app, take_app_le; [done|]. by rewrite length_fmap.
Qed.

Lemma grows_length c c' : grows c c' -> (length (cl_log c) <= length (cl_log c'))%nat.
Proof. intros [Hl _ _]. by apply prefix_length. Qed.

Lemma grows_zlen c c' : grows c c' -> zlen (cl_log c) <= zlen (cl_log c').
Proof. intros Hg%grows_length. unfold zlen. lia. Qed.

Lemma carries_lt l p k : carries l p k -> (p < length l)%nat.
Proof. apply lookup_lt_Some. Qed.

Lemma carries_grows c c' p k : grows c c' -> carries (cl_log c) p k -> carries (cl_log c') p k.
Proof. intros [Hl _ _] Hk. by eapply prefix_lookup_Some. Qed.

Lemma call_grows c c' ch k : grows c c' -> cl_calls c !! ch = Some k -> cl_calls c' !! ch = Some k.
Proof. intros [_ Hl _] Hk. by eapply prefix_lookup_Some. Qed.

Lemma get_grows c c' ch g : grows c c' -> cl_gets c !! ch = Some g -> cl_gets c' !! ch = Some g.
Proof. intros [_ _ Hl] Hk. by eapply prefix_lookup_Some. Qed.

Lemma answered_grows c c' k p b : grows c c' -> answered c k p b -> answered c' k p b.
Proof.
  intros Hg [Hc (i & E & Hi & Hd)]. split; [by eapply carries_grows|]. exists i. split_and!; [done..|].
  rewrite (store_at_grows _ _ _ Hg); [done|]. apply carries_lt in Hc. lia.
Qed.

Lemma state_ok_grows c c' s : grows c c' -> state_ok c s -> state_ok c' s.
Proof.
  intros Hg [Ha Hm Hs Hi Hv]. pose proof (grows_zlen _ _ Hg). split; [lia|done| |done|lia].
  rewrite (store_at_grows _ _ _ Hg); [done|]. unfold zlen in *. lia.
Qed.

Lemma node_ok_grows c c' sv : grows c c' -> node_ok c sv -> node_ok c' sv.
Proof.
  intros Hg [Hs Hw Ha Hr Hi]. pose proof (grows_zlen _ _ Hg). split.
  - by eapply state_ok_grows.
  - intros w ch E. destruct (Hw w ch E) as (k & ? & ?). exists k. split; [by eapply call_grows|done].
  - intros ch b E. destruct (Ha ch b E) as (k & p & ? & ?). exists k, p. split; [by eapply call_grows|by eapply answered_grows].
  - intros w ch E. destruct (Hr w ch E) as (st & ?). exists st. by eapply get_grows.
  - intros ch i E. destruct (Hi ch i E) as (w & st & ? & ?). exists w, st. split; [by eapply get_grows|lia].
Qed.

Lemma was_next_by_grows c c' p q id v : grows c c' -> (p <= q)%nat -> was_next_by c p id v -> was_next_by c' q id v.
Proof.
  intros Hg Hpq Hn Hr. destruct (Hn Hr) as (x & Hx & Hl & E). exists x. pose proof (grows_length _ _ Hg).
  rewrite (store_at_grows _ _ _ Hg) by done. split_and!; [lia..|done].
Qed.

Lemma was_next_grows c c' id v : grows c c' -> was_next c id v -> was_next c' id v.
Proof. intros Hg. eapply was_next_by_grows; [done|by apply grows_length]. Qed.

Lemma view_lookup l p ent : l !! p = Some ent -> view l !! p = Some (entry_instr ent).
Proof. intros E. unfold view. by rewrite list_lookup_fmap, E. Qed.

Lemma entry_instr_call k p : entry_instr (call_entry k p) = UnmarshalInstruction (c_instr k).
Proof. unfold entry_instr, call_entry. simpl. by rewrite proposal_roundtrip. Qed.

Lemma store_at_step l p ent : l !! p = Some ent -> store_at l (S p) = run_entry (Z.of_nat p + 1) (entry_instr ent) (store_at l p).
Proof. intros E. by apply replay_step, view_lookup. Qed.

(** *** Applying entries *)

Lemma transact_id_ok n i a : issued i -> id_ok a -> id_ok (transact n i a).1.
Proof.
  intros Hi (x & Hx & E). destruct Hi as [k v _ Hk|k v _ Hk|k _ Hk|id v _ _].
  - exists x. rewrite transact_Set. simpl. by rewrite lookup_insert_ne.
  - exists x. rewrite transact_Insert. destruct (kv_map a !! k); simpl; [done|]. by rewrite lookup_insert_ne.
  - exists x. rewrite transact_Delete. simpl. by rewrite lookup_delete_ne.
  - rewrite transact_Increment. case_decide; [|by exists x]. exists (uint64 (id + 1)). simpl. rewrite lookup_insert_eq.
    split; [apply uint64_range|done].
Qed.

Lemma transact_version n i a : issued i -> id_version (transact n i a).1 = id_version a \/ id_version (transact n i a).1 = n.
Proof.
  intros Hi. unfold id_version. destruct Hi as [k v _ Hk|k v _ Hk|k _ Hk|id v _ _].
  - left. rewrite transact_Set. simpl. by rewrite lookup_insert_ne.
  - left. rewrite transact_Insert. destruct (kv_map a !! k); simpl; [done|]. by rewrite lookup_insert_ne.
  - left. rewrite transact_Delete. simpl. by rewrite lookup_delete_ne.
  - rewrite transact_Increment. case_decide; [right|by left]. simpl. by rewrite lookup_insert_eq.
Qed.

Lemma same_store_transact n i a b : issued i -> same_store a b -> same_store (transact n i a).1 (transact n i b).1.
Proof. intros Hi. unfold same_store. destruct restores; [by apply agree_transact|by intros ->]. Qed.

Lemma same_store_reply n i a b : issued i -> determined i -> same_store a b -> (transact n i b).2 = (transact n i a).2.
Proof.
  unfold determined, same_store. intros Hi Hd. destruct restores; [|by intros ->].
  intros E. symmetry. apply agree_reply; [done| |done]. by destruct Hd.
Qed.

(** An entry without an instruction moves the index. *)
Lemma state_ok_skip c s s' ent :
  state_ok c s -> cl_log c !! Z.to_nat (AppliedIndex s) = Some ent -> entry_instr ent = None ->
  AppliedIndex s' = AppliedIndex s + 1 -> store s' = store s -> made s' -> state_ok c s'.
Proof.
  intros [Ha Hm Hs Hi Hv] He Hn Ea Es Hm'. pose proof (lookup_lt_Some _ _ _ He) as Hlt.
  split; rewrite ?Ea, ?Es; [unfold zlen; lia|done| |done|done].
  replace (Z.to_nat (AppliedIndex s + 1)) with (S (Z.to_nat (AppliedIndex s))) by lia.
  by rewrite (store_at_step _ _ _ He), Hn.
Qed.

Lemma state_ok_transact c s s' ent i :
  state_ok c s -> cl_log c !! Z.to_nat (AppliedIndex s) = Some ent -> entry_instr ent = Some i -> issued i ->
  AppliedIndex s' = AppliedIndex s + 1 -> store s' = (transact (AppliedIndex s + 1) i (store s)).1 -> made s' -> state_ok c s'.
Proof.
  intros [Ha Hm Hs Hi Hv] He Hn Hiss Ea Es Hm'. pose proof (lookup_lt_Some _ _ _ He) as Hlt.
  split; rewrite ?Ea, ?Es; [unfold zlen; lia|done| |by apply transact_id_ok|].
  - replace (Z.to_nat (AppliedIndex s + 1)) with (S (Z.to_nat (AppliedIndex s))) by lia.
    rewrite (store_at_step _ _ _ He), Hn. simpl. rewrite Z2Nat.id by lia. by apply same_store_transact.
  - destruct (transact_version (AppliedIndex s + 1) i (store s) Hiss) as [->| ->]; unfold zlen in *; lia.
Qed.

Lemma node_ok_core c sv sv' : core sv' = core sv -> node_ok c sv -> node_ok c sv'.
Proof.
  unfold core. intros E. injection E as E1 E2 E3 E4 E5. intros [Hs Hw Ha Hr Hi].
  by split; rewrite ?E1, ?E2, ?E3, ?E4, ?E5.
Qed.

Lemma node_ok_state c sv s : node_ok c sv -> state_ok c s -> node_ok c (set_state s sv).
Proof. by intros [Hs Hw Ha Hr Hi] Hs'. Qed.

Lemma applied_core sv sv' : core sv' = core sv -> applied sv' = applied sv.
Proof. unfold core, applied. intros E. by injection E as -> _ _ _ _. Qed.

(** The answer that is sent is that of the entry. *)
Lemma node_ok_answer c sv ch k p b :
  NoDup (c_wctx <$> cl_calls c) -> cl_calls c !! ch = Some k -> answered c k p b -> node_ok c sv -> node_ok c (answer (c_wctx k) b sv).
Proof.
  intros Hnd Hk Hb Hn. unfold answer. destruct (sv_writers sv !! c_wctx k) as [ch'|] eqn:Ew; [|done].
  destruct Hn as [Hs Hw Ha Hr Hi]. split; simpl; [done| | |done..].
  - intros w ch1 E. apply lookup_delete_Some in E as [_ E]. by apply Hw.
  - intros ch1 b1 [E|E]%elem_of_app; [by apply Ha|]. apply list_elem_of_singleton in E. injection E as -> ->.
    destruct (Hw _ _ Ew) as (k' & Ek' & Ewc). exists k', p. split; [done|].
    assert (ch' = ch) as ->; [|congruence]. eapply NoDup_lookup; [exact Hnd| |]; rewrite list_lookup_fmap; [by rewrite Ek'|rewrite Hk; simpl; by f_equal].
Qed.

Lemma issued_of c k ch : inv c -> cl_calls c !! ch = Some k ->
  exists i, issued i /\ c_instr k = MarshalInstruction i /\ UnmarshalInstruction (c_instr k) = Some i.
Proof.
  intros HI Hk. destruct (Forall_lookup_1 _ _ _ _ (i_calls c HI) Hk) as (i & Hi & E & _). exists i. split_and!; [done..|].
  rewrite E. by apply issued_decodes.
Qed.

(** A change of the configuration moves the index and changes no key. *)
Lemma applyEntry_conf index d cc sv :
  UnmarshalConfChange d = Some cc ->
  exists s', store s' = store (sv_state sv) /\ (made (sv_state sv) -> made s') /\ AppliedIndex s' = index /\
    core (applyEntry (mkEntry EntryConfChange 0 index (Some d)) sv).1 = core (set_state s' sv).
Proof.
  intros Hd. unfold applyEntry. cbn -[core]. rewrite Hd. unfold lib, modify, mbind, sv_bind.
  destruct (node_ApplyConfChange cc (sv_world sv)) as [w cs].
  destruct (_ || _); [unfold deferring, set_peer, gets, mbind, sv_bind; cbn -[core]; unfold SetPeerAddr|].
  - destruct (st_peers (sv_state sv)) as [m|]; [|by exists (SetAppliedIndex index (sv_state sv))].
    by exists (mkState (st_state (sv_state sv)) (Some (<[cc_NodeID cc := cc_Context cc]> m)) index (st_version (sv_state sv))).
  - destruct (cc_Type cc =? ConfChangeRemoveNode); [|by exists (SetAppliedIndex index (sv_state sv))].
    unfold gets, assert_, deferring. cbn -[core]. destruct (cc_NodeID cc =? sv_id sv); [by exists (SetAppliedIndex index (sv_state sv))|].
    by exists (RemovePeerAddr (cc_NodeID cc) (SetAppliedIndex index (sv_state sv))).
Qed.

(** The proposal of a call is a transaction, and its answer is sent. *)
Lemma applyEntry_call k p i sv :
  made (sv_state sv) -> AppliedIndex (sv_state sv) = Z.of_nat p -> UnmarshalInstruction (c_instr k) = Some i -> issued i ->
  exists s', store s' = (transact (Z.of_nat p + 1) i (store (sv_state sv))).1 /\ made s' /\ AppliedIndex s' = Z.of_nat p + 1 /\
    applyEntry (call_entry k p) sv = (Broadcast (answer (c_wctx k) (transact (Z.of_nat p + 1) i (store (sv_state sv))).2 (set_state s' sv)), Ok tt).
Proof.
  intros Hm Hp Hu Hi. destruct (Apply_transacts (c_instr k) (Z.of_nat p + 1) (sv_state sv) i) as (s' & Ea & Es & Hm' & _ & Ei);
    [done|unfold AppliedIndex in Hp; lia|done|by apply issued_known|].
  exists s'. split_and!; [done..|]. unfold applyEntry. cbn. rewrite proposal_roundtrip. unfold deferring, mbind, sv_bind. cbn.
  by rewrite Ea.
Qed.

(** A process that was right before an entry is right after it, also when it panics. *)
Lemma applyEntry_ok c sv ent :
  inv c -> node_ok c sv -> cl_log c !! applied sv = Some ent ->
  node_ok c (applyEntry ent sv).1 /\ applied (applyEntry ent sv).1 = S (applied sv).
Proof.
  intros HI Hn He. pose proof (no_state _ _ Hn) as Hs. pose proof (so_applied _ _ Hs) as Ha.
  assert (AppliedIndex (sv_state sv) = Z.of_nat (applied sv)) as Hk by (unfold applied; lia).
  destruct (i_log c HI _ _ He) as [->|[(d & cc & -> & Hd)|(ch & k & Hc & -> & _)]].
  - set (s' := SetAppliedIndex (Z.of_nat (applied sv) + 1) (sv_state sv)).
    change (applyEntry _ sv) with (set_state s' sv, Ok (E:=rerr) tt). cbn [fst]. split; [|unfold applied, s'; cbn; lia].
    apply node_ok_state; [done|]. eapply state_ok_skip; [exact Hs|exact He|done|cbn; lia|done|apply Hs].
  - destruct (applyEntry_conf (Z.of_nat (applied sv) + 1) d cc sv Hd) as (s' & Es & Hm & Ei & Ec).
    split; [|rewrite (applied_core _ _ Ec); unfold applied; cbn; lia].
    eapply node_ok_core; [exact Ec|]. apply node_ok_state; [done|].
    eapply state_ok_skip; [exact Hs|exact He|done|lia|done|apply Hm, Hs].
  - destruct (issued_of c k ch HI Hc) as (i & Hi & Ek & Hu).
    destruct (applyEntry_call k (applied sv) i sv) as (s' & Es & Hm & Ei & ->); [apply Hs|done..|]. cbn [fst].
    assert (answered c k (applied sv) (transact (Z.of_nat (applied sv) + 1) i (store (sv_state sv))).2) as Hans.
    { split; [done|]. exists i. split_and!; [done..|]. intros Hdet. apply same_store_reply; [done..|]. apply Hs. }
    assert (node_ok c (set_state s' sv)) as Hn'.
    { apply node_ok_state; [done|]. eapply state_ok_transact; [exact Hs|exact He|by rewrite entry_instr_call|done|lia| |done].
      by rewrite Hk. }
    split; [|unfold answer, applied in *; destruct (sv_writers (set_state s' sv) !! c_wctx k); cbn; unfold AppliedIndex in *; lia].
    eapply node_ok_core; [|eapply (node_ok_answer c _ ch k); [apply HI|done|exact Hans|exact Hn']]. done.
Qed.

Lemma apply_entries_ok c ents last sv :
  inv c -> node_ok c sv -> ents = take (length ents) (drop (applied sv) (cl_log c)) ->
  node_ok c (apply_entries ents last sv).1 /\ (applied sv <= applied (apply_entries ents last sv).1)%nat.
Proof.
  intros HI. revert last sv. induction ents as [|ent ents IH]; intros last sv Hn Ee; [done|].
  destruct (drop (applied sv) (cl_log c)) as [|ent' rest] eqn:Ed; [done|]. simpl in Ee. injection Ee as <- Ee.
  assert (cl_log c !! applied sv = Some ent) as He by (by rewrite <- (Nat.add_0_r (applied sv)), <- lookup_drop, Ed).
  destruct (applyEntry_ok c sv ent HI Hn He) as [Hn' Ha]. cbn [apply_entries]. unfold mbind, sv_bind.
  destruct (applyEntry ent sv) as [sv' [u|e]]; cbn [fst] in *; [|split; [done|lia]].
  destruct (IH (e_Index ent) sv' Hn') as [? ?]; [|split; [done|lia]].
  rewrite Ha, <- Nat.add_1_r, <- drop_drop, Ed. simpl. by rewrite drop_0.
Qed.

Lemma replyReadIndex_ok c sv sts :
  node_ok c sv -> Forall (fun st => Forall (fun g => g.1 = r_RequestCtx st -> Z.of_nat g.2 <= r_Index st <= zlen (cl_log c)) (cl_gets c)) sts ->
  node_ok c (replyReadIndex sts sv) /\ sv_state (replyReadIndex sts sv) = sv_state sv.
Proof.
  intros Hn Hst. revert sv Hn. induction Hst as [|st sts Hst _ IH]; intros sv Hn; [done|]. unfold replyReadIndex. cbn [foldl].
  destruct (sv_rdIndices sv !! r_RequestCtx st) as [ch|] eqn:E; [|by apply IH].
  destruct (IH (set_rdIndices (delete (r_RequestCtx st) (sv_rdIndices sv)) (send_index ch (r_Index st) sv))) as [? Es]; [|by split].
  destruct Hn as [Hs Hw Ha Hr Hi]. split; simpl; [done..| |].
  - intros w ch' [_ E']%lookup_delete_Some. by apply Hr.
  - intros ch' i [E'|E']%elem_of_app; [by apply Hi|]. apply list_elem_of_singleton in E'. injection E' as -> ->.
    destruct (Hr _ _ E) as (s & Eg). exists (r_RequestCtx st), s. split; [done|].
    by apply (proj1 (Forall_lookup _ _) Hst ch (r_RequestCtx st, s)).
Qed.

(** An iteration of the update loop keeps a process right. *)
Lemma loop_update_ok c sv fuel rd :
  inv c -> node_ok c sv -> ready_ok false c sv rd ->
  node_ok c (runUpdates_body fuel (IsReady rd) sv).1 /\ (applied sv <= applied (runUpdates_body fuel (IsReady rd) sv).1)%nat.
Proof.
  intros HI Hn ([Hs|[? _]] & He & Hr); [|done]. cbn [next_entry negb] in He. cbn [runUpdates_body]. destruct (replyReadIndex_ok c sv _ Hn Hr) as [Hn1 E1].
  set (sv1 := replyReadIndex (rd_ReadStates rd) sv) in *. assert (applied sv1 = applied sv) as Ha1 by (unfold applied; by rewrite E1).
  destruct (runUpdatesReady_core fuel rd sv1 Hs) as (sv0 & Ec & _ & Er).
  destruct (apply_entries_ok c (rd_CommittedEntries rd) 0 sv0 HI) as [Hn2 Ha2];
    [by eapply node_ok_core|by rewrite (applied_core _ _ Ec), Ha1|].
  rewrite (applied_core _ _ Ec), Ha1 in Ha2. rewrite <- (applied_core _ _ Er) in Ha2. apply (node_ok_core _ _ _ Er) in Hn2.
  destruct (runUpdatesReady fuel rd sv1) as [sv2 [u|[]]]; cbn [fst] in *; (split; first [exact Hn2|exact Ha2|apply (node_ok_core c sv2); [reflexivity|exact Hn2]]).
Qed.

(** *** Steps keep the invariant *)

Lemma entry_ok_grows c c' p ent : grows c c' -> entry_ok c p ent -> entry_ok c' p ent.
Proof.
  intros Hg [?|[?|(ch & k & Hk & ? & Hn)]]; [by left|by right; left|right; right]. exists ch, k. split_and!; [by eapply call_grows|done|].
  intros id v Hid E. eapply was_next_by_grows; [exact Hg|done|by apply Hn].
Qed.

Lemma call_ok_grows c c' k : grows c c' -> call_ok c k -> call_ok c' k.
Proof. intros Hg (i & Hi & E & Hn). exists i. split_and!; [done..|]. intros id v Hid ->. eapply was_next_grows; [done|]. by apply Hn. Qed.

Lemma prop_ok_grows c c' d : grows c c' -> prop_ok c d -> prop_ok c' d.
Proof. intros Hg (ch & k & Hk & E). exists ch, k. split; [by eapply call_grows|done]. Qed.

Lemma made_snapshot_grows c c' x : grows c c' -> made_snapshot c x -> made_snapshot c' x.
Proof. intros Hg (s & E & Hs). exists s. split; [done|by eapply state_ok_grows]. Qed.

Lemma write_ok_grows c c' x : grows c c' -> write_ok c x -> write_ok c' x.
Proof.
  intros Hg (Hl & k & p & Hk & Hp & Ha). pose proof (grows_length _ _ Hg). split; [lia|]. exists k, p.
  split_and!; [by eapply call_grows|done|by eapply answered_grows].
Qed.

Lemma gives_out_grows c c' p id v : grows c c' -> gives_out (view (cl_log c)) p id v -> gives_out (view (cl_log c')) p id v.
Proof.
  intros Hg (Hid & He & Hv). pose proof (lookup_lt_Some _ _ _ He) as Hlt. unfold view in Hlt. rewrite length_fmap in Hlt.
  split; [done|]. split.
  - destruct Hg as [[l ->] _ _]. unfold view in *. rewrite fmap_app. by apply lookup_app_l_Some.
  - rewrite <- Hv. f_equal. apply (store_at_grows c c' p Hg). lia.
Qed.

Lemma given_ok_grows c c' x : grows c c' -> given_ok c x -> given_ok c' x.
Proof.
  intros Hg (k & p & v & Hk & Hc & Hv). exists k, p, v. split_and!; [by eapply call_grows|by eapply carries_grows|].
  intros Hr. eapply gives_out_grows; eauto.
Qed.

Lemma read_ok_grows c c' r : grows c c' -> read_ok c r -> read_ok c' r.
Proof.
  intros Hg [Hl Hv]. pose proof (grows_length _ _ Hg). split; [lia|]. by rewrite (store_at_grows _ _ _ Hg) by lia.
Qed.

(** What was right stays right; what is new is to be shown. *)
Lemma inv_step c c' :
  inv c -> grows c c' ->
  zlen (cl_log c') + first_id <= MaxUint64 ->
  (forall p ent, cl_log c' !! p = Some ent -> cl_log c !! p = Some ent \/ entry_ok c' p ent) ->
  NoDup (c_wctx <$> cl_calls c') ->
  (forall x, x ∈ cl_calls c' -> x ∈ cl_calls c \/ call_ok c' x) ->
  (forall x, x ∈ cl_props c' -> x ∈ cl_props c \/ prop_ok c' x) ->
  (forall x, x ∈ cl_nodes c' -> x ∈ cl_nodes c \/ node_ok c' x) ->
  (forall x, x ∈ cl_snaps c' -> x ∈ cl_snaps c \/ made_snapshot c' x) ->
  (forall x, x ∈ cl_writes c' -> x ∈ cl_writes c \/ write_ok c' x) ->
  (forall x, x ∈ cl_ids c' -> x ∈ cl_ids c \/ given_ok c' x) ->
  (forall x, x ∈ cl_reads c' -> x ∈ cl_reads c \/ read_ok c' x) -> inv c'.
Proof.
  intros [Hlen Hlog Hcalls Hw Hprops Hnodes Hsnaps Hwrites Hids Hreads] Hg Llen Llog Lw Lcalls Lprops Lnodes Lsnaps Lwrites Lids Lreads.
  split; rewrite ?Forall_forall; [done| |..].
  - intros p ent E. destruct (Llog p ent E); [|done]. eapply entry_ok_grows; [exact Hg|by apply Hlog].
  - intros x E. destruct (Lcalls x E); [|done]. eapply call_ok_grows; [exact Hg|by apply (proj1 (Forall_forall _ _) Hcalls)].
  - done.
  - intros x E. destruct (Lprops x E); [|done]. eapply prop_ok_grows; [exact Hg|by apply (proj1 (Forall_forall _ _) Hprops)].
  - intros x E. destruct (Lnodes x E); [|done]. eapply node_ok_grows; [exact Hg|by apply (proj1 (Forall_forall _ _) Hnodes)].
  - intros x E. destruct (Lsnaps x E); [|done]. eapply made_snapshot_grows; [exact Hg|by apply (proj1 (Forall_forall _ _) Hsnaps)].
  - intros x E. destruct (Lwrites x E); [|done]. eapply write_ok_grows; [exact Hg|by apply (proj1 (Forall_forall _ _) Hwrites)].
  - intros x E. destruct (Lids x E); [|done]. eapply given_ok_grows; [exact Hg|by apply (proj1 (Forall_forall _ _) Hids)].
  - intros x E. destruct (Lreads x E); [|done]. eapply read_ok_grows; [exact Hg|by apply (proj1 (Forall_forall _ _) Hreads)].
Qed.

Lemma grows_same c c' : cl_log c' = cl_log c -> cl_calls c' = cl_calls c -> cl_gets c' = cl_gets c -> grows c c'.
Proof. intros E1 E2 E3. by split; rewrite ?E1, ?E2, ?E3. Qed.

Lemma in_insert {A} (l : list A) n x y : y ∈ <[n := x]> l -> y ∈ l \/ y = x.
Proof.
  intros [m E]%list_elem_of_lookup. destruct (decide (m = n)) as [->|Hne].
  - apply list_lookup_insert_Some in E as [(_ & -> & _)|(Hn & E)]; [by right|done].
  - left. apply list_elem_of_lookup. exists m. by rewrite list_lookup_insert_ne in E.
Qed.

Lemma in_snoc {A} (l : list A) x y : y ∈ l ++ [x] -> y ∈ l \/ y = x.
Proof. rewrite elem_of_app, list_elem_of_singleton. done. Qed.

(** The parts that a step does not touch. *)
Ltac untouched HI :=
  first [exact HI | by apply grows_same | exact (i_length _ HI) | exact (i_wctx _ HI) | by intros; left | idtac].

Lemma inv_set_node c n sv : inv c -> node_ok c sv -> inv (set_node n sv c).
Proof.
  intros HI Hn. apply (inv_step c); untouched HI. intros x [?| ->]%in_insert; [by left|right].
  apply (node_ok_grows c); [by apply grows_same|done].
Qed.

Lemma inv_add_node c sv : inv c -> node_ok c sv -> inv (add_node sv c).
Proof.
  intros HI Hn. apply (inv_step c); untouched HI. intros x [?| ->]%in_snoc; [by left|right].
  apply (node_ok_grows c); [by apply grows_same|done].
Qed.

Lemma grows_add_entry c ent : grows c (add_entry ent c).
Proof. split; simpl; [by exists [ent]|done..]. Qed.

Lemma inv_add_entry c ent :
  inv c -> zlen (cl_log c) + 1 + first_id <= MaxUint64 -> entry_ok c (length (cl_log c)) ent -> inv (add_entry ent c).
Proof.
  intros HI Hlen He. apply (inv_step c); untouched HI; [apply grows_add_entry|simpl; rewrite zlen_app, zlen_cons, zlen_nil; lia|].
  simpl. intros p x E. apply lookup_app_Some in E as [E|[Hp E]]; [by left|right].
  apply list_lookup_singleton_Some in E as [Ep <-]. replace p with (length (cl_log c)) by lia.
  eapply entry_ok_grows; [apply grows_add_entry|done].
Qed.

Lemma inv_add_prop c d : inv c -> prop_ok c d -> inv (add_prop d c).
Proof.
  intros HI Hd. apply (inv_step c); untouched HI. intros x [?| ->]%in_snoc; [by left|right].
  apply (prop_ok_grows c); [by apply grows_same|done].
Qed.

Lemma grows_add_call c k : grows c (add_call k c).
Proof. split; simpl; [done|by exists [k]|done]. Qed.

Lemma inv_add_call c k : inv c -> call_ok c k -> c_wctx k ∉ c_wctx <$> cl_calls c -> inv (add_call k c).
Proof.
  intros HI Hk Hw. apply (inv_step c); untouched HI; [apply grows_add_call| |].
  - simpl. rewrite fmap_app. apply NoDup_app. split_and!; [apply HI| |apply NoDup_singleton].
    intros w E1 E2. apply list_elem_of_singleton in E2 as ->. done.
  - intros x [?| ->]%in_snoc; [by left|right]. eapply call_ok_grows; [apply grows_add_call|done].
Qed.

Lemma grows_add_get c g : grows c (add_get g c).
Proof. split; simpl; [done..|by exists [g]]. Qed.

Lemma inv_add_get c g : inv c -> inv (add_get g c).
Proof. intros HI. apply (inv_step c); untouched HI. apply grows_add_get. Qed.

Lemma inv_add_snap c x : inv c -> made_snapshot c x -> inv (add_snap x c).
Proof.
  intros HI Hx. apply (inv_step c); untouched HI. intros y [?| ->]%in_snoc; [by left|right].
  apply (made_snapshot_grows c); [by apply grows_same|done].
Qed.

Lemma inv_add_write c x : inv c -> write_ok c x -> inv (add_write x c).
Proof.
  intros HI Hx. apply (inv_step c); untouched HI. intros y [?| ->]%in_snoc; [by left|right].
  apply (write_ok_grows c); [by apply grows_same|done].
Qed.

Lemma inv_add_id c x : inv c -> given_ok c x -> inv (add_id x c).
Proof.
  intros HI Hx. apply (inv_step c); untouched HI. intros y [?| ->]%in_snoc; [by left|right].
  apply (given_ok_grows c); [by apply grows_same|done].
Qed.

Lemma inv_add_read c x : inv c -> read_ok c x -> inv (add_read x c).
Proof.
  intros HI Hx. apply (inv_step c); untouched HI. intros y [?| ->]%in_snoc; [by left|right].
  apply (read_ok_grows c); [by apply grows_same|done].
Qed.

(** *** What a goroutine knows between its actions *)

Inductive token :=
  | TRead (id v : Z)
  | TCall (ch : nat) (k : call) (i : Instruction)
  | TDone (ch : nat) (i : Instruction)
  | TGet (ch start : nat)
  | TReached (n start : nat).

Definition tok_ok (c : cluster) (t : token) : Prop :=
  match t with
  | TRead id v => 0 <= id <= MaxUint64 /\ 0 <= v <= MaxUint64 /\ was_next c id v
  | TCall ch k i => cl_calls c !! ch = Some k /\ c_instr k = MarshalInstruction i /\ issued i
  | TDone ch i => exists k p, cl_calls c !! ch = Some k /\ c_instr k = MarshalInstruction i /\ issued i /\ answered c k p true
  | TGet ch start => exists w, cl_gets c !! ch = Some (w, start)
  | TReached n start => exists sv, cl_nodes c !! n = Some sv /\ (start <= applied sv)%nat
  end.

Definition tok_call (t : token) : option nat :=
  match t with TCall ch _ _ | TDone ch _ => Some ch | _ => None end.

(** The calls in flight and those that gave out identifiers are different ones. *)
Definition Inv (c : cluster) (toks : list token) : Prop :=
  inv c /\ NoDup (omap tok_call toks ++ (cl_ids c).*1) /\ Forall (tok_ok c) toks.

#[local] Instance Inv_perm c : Proper ((≡ₚ) ==> iff) (Inv c).
Proof. intros t t' E. unfold Inv. by rewrite E. Qed.

Record later (c c' : cluster) : Prop := mkLater {
  l_grows : grows c c';
  l_nodes n sv : cl_nodes c !! n = Some sv -> exists sv', cl_nodes c' !! n = Some sv' /\ (applied sv <= applied sv')%nat;
}.

Lemma tok_ok_later c c' t : later c c' -> tok_ok c t -> tok_ok c' t.
Proof.
  intros [Hg Hn]. destruct t as [id v|ch k i|ch i|ch st|n st]; simpl.
  - intros (? & ? & ?). split; [done|]; split; [done|]. by eapply was_next_grows.
  - intros (Hk & ?). split; [by eapply call_grows|done].
  - intros (k & p & Hk & ? & ? & Ha). exists k, p. split_and!; [by eapply call_grows|done..|by eapply answered_grows].
  - intros (w & Hk). exists w. by eapply get_grows.
  - intros (sv & Hk & ?). destruct (Hn n sv Hk) as (sv' & ? & ?). exists sv'. split; [done|lia].
Qed.

Lemma Inv_later c c' toks : later c c' -> inv c' -> cl_ids c' = cl_ids c -> Inv c toks -> Inv c' toks.
Proof.
  intros Hl HI Ei (_ & Hnd & Ht). split_and!; [done|by rewrite Ei|]. eapply Forall_impl; [exact Ht|]. intros t. by apply tok_ok_later.
Qed.

Lemma later_same c c' : grows c c' -> cl_nodes c' = cl_nodes c -> later c c'.
Proof. intros Hg E. split; [done|]. rewrite E. eauto. Qed.

Lemma later_set_node c n sv sv' : cl_nodes c !! n = Some sv -> (applied sv <= applied sv')%nat -> later c (set_node n sv' c).
Proof.
  intros Hn Ha. split; [by apply grows_same|]. intros m x Hx. destruct (decide (m = n)) as [->|Hne].
  - exists sv'. simpl. rewrite list_lookup_insert_eq by (by eapply lookup_lt_Some). split; [done|]. congruence.
  - exists x. simpl. by rewrite list_lookup_insert_ne.
Qed.

Lemma later_add_node c sv : later c (add_node sv c).
Proof. split; [by apply grows_same|]. intros n x Hx. exists x. simpl. split; [by apply lookup_app_l_Some|done]. Qed.

(** A new token about no call. *)
Lemma Inv_know c toks t : tok_call t = None -> tok_ok c t -> Inv c toks -> Inv c (t :: toks).
Proof. intros Ht Hok (HI & Hnd & Hts). split_and!; [done|simpl; by rewrite Ht|by constructor]. Qed.

Lemma Inv_drop c t toks : Inv c (t :: toks) -> Inv c toks.
Proof.
  intros (HI & Hnd & Hts). apply Forall_cons in Hts as [_ Hts]. split_and!; [done| |done].
  simpl in Hnd. destruct (tok_call t); [by apply NoDup_cons in Hnd as [_ Hnd]|done].
Qed.

Lemma Inv_tok c t toks : Inv c (t :: toks) -> tok_ok c t.
Proof. intros (_ & _ & Hts). by apply Forall_cons in Hts as [? _]. Qed.

(** *** The calls *)

Notation wp p h Q := (Concur.wp fresh Inv (fun _ => true) p h Q).

Lemma request_spec n u c c' toks :
  (forall sv, node_ok c sv -> node_ok c (runUpdates_body 0 u sv).1 /\ applied (runUpdates_body 0 u sv).1 = applied sv) ->
  request n u c = Some c' -> Inv c toks -> Inv c' toks /\ cl_log c' = cl_log c /\ cl_calls c' = cl_calls c /\ cl_gets c' = cl_gets c.
Proof.
  intros Hu E Hi. unfold request in E. apply bind_Some in E as (sv & Hsv & E). destruct (sv_done sv); [done|]. injection E as <-.
  destruct (Hu sv) as [Hn Ha]; [by eapply (Forall_lookup_1 _ _ _ _ (i_nodes _ (proj1 Hi)))|].
  split; [|done]. eapply Inv_later; [eapply later_set_node; [done|lia]|by apply inv_set_node; [apply Hi|]|done|done].
Qed.

Lemma forget_writer c w sv : node_ok c sv ->
  node_ok c (runUpdates_body 0 (WctxReq w None) sv).1 /\ applied (runUpdates_body 0 (WctxReq w None) sv).1 = applied sv.
Proof.
  intros [Hs Hw Ha Hr Hi]. split; [|done]. split; simpl; [done| |done..]. intros w' ch [_ E]%lookup_delete_Some. by apply Hw.
Qed.

Lemma forget_reader c w sv : node_ok c sv ->
  node_ok c (runUpdates_body 0 (RctxReq w None) sv).1 /\ applied (runUpdates_body 0 (RctxReq w None) sv).1 = applied sv.
Proof.
  intros [Hs Hw Ha Hr Hi]. split; [|done]. split; simpl; [done..| |done]. intros w' ch [_ E]%lookup_delete_Some. by apply Hr.
Qed.

(** A call is registered with the process and gets a number. *)
Lemma register_call n w i c c1 h0 fr :
  Inv c (h0 ++ fr) -> Inv c fr -> issued i -> (forall id v, 0 <= id <= MaxUint64 -> i = Increment_instr id v -> was_next c id v) -> w ∉ c_wctx <$> cl_calls c ->
  request n (WctxReq w (Some (length (cl_calls c)))) c = Some c1 ->
  Inv (add_call (mkCall n w (MarshalInstruction i)) c1) (TCall (length (cl_calls c)) (mkCall n w (MarshalInstruction i)) i :: fr).
Proof.
  intros _ (HI & Hnd & Hts) Hi Hnext Hw E. unfold request in E. apply bind_Some in E as (sv & Hsv & E).
  destruct (sv_done sv); [done|]. injection E as <-. set (k := mkCall n w (MarshalInstruction i)).
  pose proof (Forall_lookup_1 _ _ _ _ (i_nodes _ HI) Hsv) as Hn.
  assert (inv (add_call k c)) as HI1 by (apply inv_add_call; [done|by exists i|done]).
  assert (cl_calls (add_call k c) !! length (cl_calls c) = Some k) as Hk by (simpl; by rewrite lookup_app_r, Nat.sub_diag by lia).
  set (sv' := set_writers (<[w := length (cl_calls c)]> (sv_writers sv)) sv).
  assert (node_ok (add_call k c) sv') as Hn'.
  { destruct (node_ok_grows _ _ _ (grows_add_call c k) Hn) as [Hs Hwr Ha Hr Hir]. split; [done| |done..].
    simpl. intros w' ch' [[<- <-]|[_ E]]%lookup_insert_Some; [by exists k|by apply Hwr]. }
  assert (later c (set_node n sv' (add_call k c))) as Hl.
  { split; [by split; simpl; [|exists [k]|]|]. intros m x Hx. simpl. destruct (decide (m = n)) as [->|Hne].
    - exists sv'. rewrite list_lookup_insert_eq by (by eapply lookup_lt_Some). split; [done|]. by simplify_eq.
    - exists x. by rewrite list_lookup_insert_ne. }
  change (add_call k _) with (set_node n sv' (add_call k c)). split_and!.
  - by apply inv_set_node.
  - simpl. apply NoDup_cons. split; [|done]. rewrite elem_of_app. intros [(t & Ht & Et)%list_elem_of_omap|E].
    + rewrite Forall_forall in Hts. specialize (Hts t Ht). destruct t; simpl in *; simplify_eq.
      * destruct Hts as (E & _). apply lookup_lt_Some in E. lia.
      * destruct Hts as (k' & p & E & _). apply lookup_lt_Some in E. lia.
    + apply list_elem_of_fmap in E as (x & Ex & E). pose proof (proj1 (Forall_forall _ _) (i_ids _ HI) x E) as (k' & p & v & Ek & _).
      rewrite <- Ex in Ek. apply lookup_lt_Some in Ek. lia.
  - constructor; [done|]. eapply Forall_impl; [exact Hts|]. intros t. by apply tok_ok_later.
Qed.

Lemma answer_found n ch k i b c fr :
  Inv c (TCall ch k i :: fr) -> answer_of n ch c = Some b -> exists p, answered c k p b.
Proof.
  intros Hi E. destruct (Inv_tok _ _ _ Hi) as (Hk & _). unfold answer_of in E. apply bind_Some in E as (sv & Hsv & E).
  apply fmap_Some in E as ([ch' b'] & Ef & ->). apply find_some in Ef as [Hin Eb]. apply bool_decide_eq_true in Eb. simpl in Eb. subst ch'.
  apply list_elem_of_In in Hin. pose proof (Forall_lookup_1 _ _ _ _ (i_nodes _ (proj1 Hi)) Hsv) as Hn.
  destruct (no_sent _ _ Hn ch b' Hin) as (k' & p & Hk' & Ha). exists p. by simplify_eq.
Qed.

(** A call that returns without an error was in the log and its conditions held. *)
Lemma exec_call_spec n i h0 :
  issued i ->
  (forall c fr, Inv c (h0 ++ fr) -> Inv c fr /\ forall id v, 0 <= id <= MaxUint64 -> i = Increment_instr id v -> was_next c id v) ->
  wp (exec_call n (MarshalInstruction i)) h0 (fun r h => h = match r.2 with None => [TDone r.1 i] | Some _ => [] end).
Proof.
  intros Hi Hpre. unfold exec_call. apply conc_bind, wp_atomic. intros e c fr Hf HI. destruct (Hpre c fr HI) as [HI0 Hnext].
  destruct (request _ _ c) as [c1|] eqn:Er; cbn [fst snd]; [|by exists []].
  exists [TCall (length (cl_calls c)) (mkCall n (e_rand e) (MarshalInstruction i)) i]. split; [by eapply register_call|].
  set (ch := length (cl_calls c)). set (w := e_rand e). set (k := mkCall n w (MarshalInstruction i)). clearbody ch w. clear HI HI0 Hnext Er c c1 fr e Hf.
  apply conc_bind, wp_atomic. intros e c fr _ HI. exists [TCall ch k i]. destruct (Inv_tok _ _ _ HI) as (Hk & _). cbn [fst snd]. split.
  { destruct (e_accept e); [|done]. apply (Inv_later c); [|apply inv_add_prop; [apply HI|exists ch, k; split; [exact Hk|reflexivity]]|done|done].
    apply later_same; [by apply grows_same|done]. }
  clear HI Hk c fr. destruct (e_fail e).
  - apply conc_bind, wp_atomic. intros e' c fr _ HI. exists []. split; [|done]. apply Inv_drop in HI. cbn [fst].
    change (Wctx (mkProposal w (MarshalInstruction i))) with w.
    destruct (request n (WctxReq w None) c) as [c1|] eqn:Er; [|exact HI].
    by apply (request_spec _ _ _ _ _ (forget_writer c w) Er).
  - apply conc_bind, wp_atomic. intros e' c fr _ HI. destruct (Inv_tok _ _ _ HI) as (Hk & Hki & _).
    destruct (e_timeout e'); [by exists []; split; [by apply Inv_drop in HI|]|].
    destruct (e_fail e' && stopped n c); [by exists []; split; [by apply Inv_drop in HI|]|].
    destruct (answer_of n ch c) as [[]|] eqn:Ea; simpl; [|by exists []; split; [by apply Inv_drop in HI|]..].
    destruct (answer_found _ _ _ _ _ _ _ HI Ea) as (p & Ha). exists [TDone ch i]. split; [|done].
    assert (later c (add_write (ch, length (cl_log c)) c)) as Hl by (apply later_same; [by apply grows_same|done]).
    destruct HI as (HI & Hnd & Hts). apply Forall_cons in Hts as [_ Hts]. split_and!.
    + apply inv_add_write; [done|]. split; [done|]. exists k, p. split_and!; [done| |done]. simpl. eapply carries_lt, Ha.
    + done.
    + constructor; [|eapply Forall_impl; [exact Hts|]; intros t; by apply tok_ok_later].
      apply (tok_ok_later c); [done|]. by exists k, p.
Qed.

Lemma exec_spec n i :
  issued i -> (forall id v, i <> Increment_instr id v) -> wp (drop_result (exec n (MarshalInstruction i))) [] (done_with (fun _ => true) (fun _ => True)).
Proof.
  intros Hi Hn. unfold drop_result, exec. do 2 apply conc_bind.
  eapply conc_mono; [|apply exec_call_spec; [done|intros c fr HI; split; [done|]; intros id v _ E; by destruct (Hn id v)]].
  intros r h _. by repeat constructor; apply Forall_true.
Qed.

(** What is read as the next identifier was the next one, if the store is that of the log. *)
Lemma NextNodeID_spec c sv :
  node_ok c sv -> zlen (cl_log c) + first_id <= MaxUint64 -> exists id v, NextNodeID (sv_state sv) = Some (id, v) /\ tok_ok c (TRead id v).
Proof.
  intros Hn Hlen. pose proof (no_state _ _ Hn) as [Ha _ Hs (x & Hx & Ex) Hv]. rewrite NextNodeID_store.
  assert (next_id (store (sv_state sv)) = Some (x, id_version (store (sv_state sv)))) as E.
  { unfold next_id, id_value. rewrite Ex. simpl. destruct (varint_roundtrip x Hx) as (l & Hl & ->). by destruct (Z.eqb_spec l 0). }
  exists x, (id_version (store (sv_state sv))). split; [done|]. split; [done|]. split; [unfold first_id in Hlen; lia|].
  intros Hr. unfold same_store in Hs. rewrite Hr in Hs. exists (applied sv).
  split_and!; [unfold applied, zlen in *; lia..|]. unfold applied. by rewrite <- Hs.
Qed.

Lemma gives_out_of c k p id v :
  carries (cl_log c) p k -> c_instr k = MarshalInstruction (Increment_instr id v) -> issued (Increment_instr id v) -> 0 <= id <= MaxUint64 ->
  (transact (Z.of_nat p + 1) (Increment_instr id v) (store_at (cl_log c) p)).2 = true -> gives_out (view (cl_log c)) p id v.
Proof.
  intros Hc Ek Hi Hid Ht. split; [done|]. split.
  - rewrite (view_lookup _ _ _ Hc), entry_instr_call, Ek. f_equal. by apply issued_decodes.
  - rewrite transact_Increment in Ht. by case_decide.
Qed.

Lemma allocNodeID_spec fuel n : wp (allocNodeID fuel n) [] (fun _ h => h = []).
Proof.
  induction fuel as [|fuel IH]; cbn [allocNodeID]; [done|]. apply conc_bind. unfold atomic_or_panic. apply conc_bind, wp_atomic.
  intros e c fr _ HI. cbn [fst snd]. destruct (cl_nodes c !! n) as [sv|] eqn:Hsv; [|by exists []].
  destruct (NextNodeID_spec c sv) as (id & v & E & Ht);
    [exact (Forall_lookup_1 _ _ _ _ (i_nodes _ (proj1 HI)) Hsv)|apply HI|]. rewrite E. cbn [fmap option_fmap option_map].
  exists [TRead id v]. split; [by apply Inv_know|]. clear sv Hsv E.
  destruct Ht as (Hid & Hv & _). clear c fr HI e. cbn [mret]. unfold prog_ret. apply conc_ret.
  assert (issued (Increment_instr id v)) as Hi by by constructor. apply conc_bind.
  eapply conc_mono; [|apply (exec_call_spec n (Increment_instr id v) [TRead id v] Hi)].
  - intros [ch [x|]] h ->; cbn [fst snd]; [by destruct x|]. apply conc_bind, wp_atomic. intros e c fr _ HI. exists []. split; [|done].
    destruct (Inv_tok _ _ _ HI) as (k & p & Hk & Eki & _ & Hc & i' & Ei & Hi' & Ht).
    assert (i' = Increment_instr id v) as ->.
    { apply (inj Some). rewrite <- (issued_decodes i' Hi'), <- (issued_decodes _ Hi). congruence. }
    destruct HI as (HI & Hnd & Hts). apply Forall_cons in Hts as [_ Hts]. cbn [fst]. split_and!.
    + apply inv_add_id; [done|]. exists k, p, v. split_and!; [done..|]. intros Hr. eapply gives_out_of; [done..|]. apply Ht. by left.
    + cbn. rewrite fmap_app. cbn in Hnd |- *. rewrite app_assoc. rewrite <- Permutation_cons_append. done.
    + eapply Forall_impl; [exact Hts|]. intros t. apply tok_ok_later, later_same; [by apply grows_same|done].
  - intros c fr HI. split; [by eapply Inv_drop|]. intros id' v' Hid' E. destruct (Inv_tok _ _ _ HI) as (_ & _ & Hw).
    by apply Increment_inj in E as [<- <-].
Qed.

(** Waiting changes nothing; when it ends, the condition held in the state that was seen. *)
Lemma wait_until_spec {A} fuel n (f : Service W -> option A) h (Q : option A -> list token -> Prop) :
  Q None h -> (forall c sv a fr, Inv c (h ++ fr) -> cl_nodes c !! n = Some sv -> f sv = Some a -> exists h', Inv c (h' ++ fr) /\ Q (Some a) h') ->
  wp (wait_until fuel n f) h Q.
Proof.
  intros HN HS. induction fuel as [|fuel IH]; cbn [wait_until]; [done|]. apply conc_bind, wp_atomic. intros e c fr _ HI. cbn [fst snd].
  destruct (cl_nodes c !! n) as [sv|] eqn:Hsv; [|by exists h]. cbn [mbind option_bind]. destruct (f sv) as [a|] eqn:Ef; [|by exists h].
  destruct (HS c sv a fr HI Hsv Ef) as (h' & HI' & HQ). by exists h'.
Qed.

Lemma index_found n ch st i c fr : Inv c (TGet ch st :: fr) -> index_of n ch c = Some i -> Z.of_nat st <= i.
Proof.
  intros Hi E. destruct (Inv_tok _ _ _ Hi) as (w & Hw). unfold index_of in E. apply bind_Some in E as (sv & Hsv & E).
  apply fmap_Some in E as ([ch' i'] & Ef & ->). apply find_some in Ef as [Hin Eb]. apply bool_decide_eq_true in Eb. simpl in Eb. subst ch'.
  apply list_elem_of_In in Hin. pose proof (Forall_lookup_1 _ _ _ _ (i_nodes _ (proj1 Hi)) Hsv) as Hn.
  destruct (no_read _ _ Hn ch i' Hin) as (w' & st' & Hw' & Hst). simplify_eq. simpl. lia.
Qed.

Lemma register_get n w c c1 fr :
  Inv c fr -> request n (RctxReq w (Some (length (cl_gets c)))) c = Some c1 ->
  Inv (add_get (w, length (cl_log c1)) c1) (TGet (length (cl_gets c)) (length (cl_log c1)) :: fr).
Proof.
  intros Hi E. unfold request in E. apply bind_Some in E as (sv & Hsv & E).
  destruct (sv_done sv); [done|]. injection E as <-. set (g := (w, length (cl_log c))).
  pose proof (Forall_lookup_1 _ _ _ _ (i_nodes _ (proj1 Hi)) Hsv) as Hn.
  assert (cl_gets (add_get g c) !! length (cl_gets c) = Some g) as Hk by (simpl; by rewrite lookup_app_r, Nat.sub_diag by lia).
  set (sv' := set_rdIndices (<[w := length (cl_gets c)]> (sv_rdIndices sv)) sv).
  assert (Inv (add_get g c) fr) as Hi1.
  { apply (Inv_later c); [apply later_same; [apply grows_add_get|done]|apply inv_add_get, Hi|done|done]. }
  assert (node_ok (add_get g c) sv') as Hn'.
  { destruct (node_ok_grows _ _ _ (grows_add_get c g) Hn) as [Hs Hwr Ha Hr Hir]. split; [done..| |done].
    simpl. intros w' ch' [[<- <-]|[_ E]]%lookup_insert_Some; [by eexists|by apply Hr]. }
  change (add_get _ _) with (set_node n sv' (add_get g c)). apply Inv_know; [done|by exists w|].
  apply (Inv_later (add_get g c)); [|by apply inv_set_node; [apply Hi1|]|done|done].
  by apply (later_set_node _ _ sv).
Qed.

(** A read is of a state that has all that was in the log when it began. *)
Lemma read_right c n sv key st fr :
  Inv c (TReached n st :: fr) -> cl_nodes c !! n = Some sv -> Inv (add_read (mkRead key (RaftState.Get key (sv_state sv)) st (applied sv)) c) fr.
Proof.
  intros Hi Hsv. destruct (Inv_tok _ _ _ Hi) as (sv' & Hsv' & Hst). simplify_eq. apply Inv_drop in Hi.
  pose proof (no_state _ _ (Forall_lookup_1 _ _ _ _ (i_nodes _ (proj1 Hi)) Hsv)) as [Ha _ Hs _ _].
  apply (Inv_later c); [apply later_same; [by apply grows_same|done]| |done|done]. apply inv_add_read; [apply Hi|]. split; simpl.
  - unfold applied, zlen in *. lia.
  - intros Hk. unfold RaftState.Get, applied, same_store in *. destruct restores; [by rewrite <- (Hs key Hk)|by rewrite <- Hs].
Qed.

Lemma get_spec fuel n key : wp (get fuel n key) [] (fun _ h => h = []).
Proof.
  unfold get. apply conc_bind, wp_atomic. intros e c fr _ HI. destruct (e_timeout e); [by exists []|].
  destruct (request _ _ c) as [c1|] eqn:Er; cbn [fst snd]; [|by exists []].
  exists [TGet (length (cl_gets c)) (length (cl_log c1))]. split; [by eapply register_get|].
  set (ch := length (cl_gets c)). set (st := length (cl_log c1)). clearbody ch st. set (w := e_rand e). clearbody w. clear HI Er c c1 fr e.
  apply conc_bind, (wp_read _ _ _). intros e _ _. destruct (e_fail e).
  - apply conc_bind, wp_atomic. intros e' c fr _ HI. exists []. split; [|done]. apply Inv_drop in HI. cbn [fst].
    destruct (request n (RctxReq w None) c) as [c1|] eqn:Er; [|exact HI].
    by apply (request_spec _ _ _ _ _ (forget_reader c w) Er).
  - apply conc_bind, wp_atomic. intros e' c fr _ HI. cbn [fst snd].
    destruct (e_timeout e'); [by exists []; split; [by apply Inv_drop in HI|]|].
    destruct (e_fail e' && stopped n c); [by exists []; split; [by apply Inv_drop in HI|]|].
    destruct (index_of n ch c) as [idx|] eqn:Ei; [|by exists []; split; [by apply Inv_drop in HI|]].
    pose proof (index_found _ _ _ _ _ _ HI Ei) as Hidx. apply Inv_drop in HI. exists []. split; [done|]. clear HI Ei c fr e e'.
    apply conc_bind. apply wait_until_spec; [done|]. intros c sv a fr HI Hsv Ef.
    destruct (negb (sv_done sv) && (AppliedIndex (sv_state sv) <? idx)); [done|]. injection Ef as <-.
    destruct (Z.leb_spec idx (AppliedIndex (sv_state sv))) as [Hle|]; [|by exists []].
    exists [TReached n st]. split; [apply Inv_know; [done| |done]; exists sv; split; [done|unfold applied; lia]|]. clear HI Hsv Hle c sv fr.
    apply conc_bind, wp_atomic. intros e c fr _ HI. exists []. split; [|done]. destruct (Inv_tok _ _ _ HI) as (sv & Hsv & _). rewrite Hsv.
    by apply (read_right c n).
Qed.

Lemma service_Get_spec fuel n key : wp (service_Get fuel n key) [] (fun _ h => h = []).
Proof.
  induction fuel as [|fuel IH]; cbn [service_Get]; [done|]. apply conc_bind. eapply conc_mono; [|apply get_spec].
  intros r h ->. destruct r as [[v|[]]|]; done.
Qed.

Lemma take_snapshot_spec n : wp (take_snapshot n) [] (fun _ h => h = []).
Proof.
  apply wp_atomic. intros e c fr _ HI. exists []. destruct (cl_nodes c !! n) as [sv|] eqn:Hsv; [|done].
  pose proof (no_state _ _ (Forall_lookup_1 _ _ _ _ (i_nodes _ (proj1 HI)) Hsv)) as Hs.
  destruct (Snapshot (sv_state sv)) as [[data|] index] eqn:Es; [|done]. split; [|done].
  apply (Inv_later c); [apply later_same; [by apply grows_same|done]| |done|done]. apply inv_add_snap; [apply HI|]. by exists (sv_state sv).
Qed.

Lemma serveJoin_spec fuel n addr : wp (serveJoin fuel n addr) [] (fun _ h => h = []).
Proof.
  unfold serveJoin, isAllowedMember. apply conc_bind. eapply conc_mono; [|apply allocNodeID_spec]. intros [[id|x]|] h ->; [|done..].
  apply conc_bind, conc_bind. eapply conc_mono; [|apply service_Get_spec]. intros r h ->. apply conc_ret.
  destruct r as [[data|x]|]; [|done..]. destruct (0 <? zlen data); [|done].
  apply conc_bind, wp_read. intros e _ _. destruct (e_fail e); [done|]. apply conc_bind, wait_until_spec; [done|].
  intros c sv [] fr HI Hsv _. exists []. split; [done|]. apply conc_bind. eapply conc_mono; [|apply take_snapshot_spec]. by intros [] h ->.
Qed.

(** *** The library and the processes *)

Lemma commit_spec : wp commit [] (done_with (fun _ => true) (fun _ => True)).
Proof.
  apply wp_atomic. intros e c fr _ HI. exists []. split; [|done].
  cbv zeta. destruct (Z.ltb_spec MaxUint64 (zlen (cl_log c) + 1 + first_id)); [done|].
  assert (forall ent, entry_ok c (length (cl_log c)) ent -> Inv (add_entry ent c) ([] ++ fr)) as Hadd.
  { intros ent He. apply (Inv_later c); [apply later_same; [apply grows_add_entry|done]|apply inv_add_entry; [apply HI|lia|done]|done|done]. }
  destruct (e_commit e) as [i|d|]; cbn [fst].
  - destruct (cl_props c !! i) as [d|] eqn:Ed; [|done]. apply Hadd. right; right.
    destruct (Forall_lookup_1 _ _ _ _ (i_props _ (proj1 HI)) Ed) as (ch & k & Hk & ->). exists ch, k.
    split_and!; [done..|]. intros id v Hid Eu.
    destruct (Forall_lookup_1 _ _ _ _ (i_calls _ (proj1 HI)) Hk) as (i0 & Hi & Ei & Hn). apply Hn; [done|].
    rewrite Ei, issued_decodes in Eu by done. by injection Eu.
  - destruct (UnmarshalConfChange d) as [cc|] eqn:Ed; [|done]. apply Hadd. right; left. by exists d, cc.
  - apply Hadd. by left.
Qed.

Lemma stop_ok c sv : node_ok c sv -> node_ok c (stop sv).
Proof. by apply node_ok_core. Qed.

Lemma deliver_spec fuel n : wp (deliver false fuel n) [] (done_with (fun _ => true) (fun _ => True)).
Proof.
  apply wp_atomic. intros e c fr _ HI. exists []. split; [|by destruct (cl_nodes c !! n) as [sv|]; [destruct (sv_done sv)|]].
  destruct (cl_nodes c !! n) as [sv|] eqn:Hsv; [|done]. destruct (sv_done sv); [done|].
  destruct (decide (ready_ok false c sv (e_ready e))) as [Hr|]; [|done].
  pose proof (Forall_lookup_1 _ _ _ _ (i_nodes _ (proj1 HI)) Hsv) as Hn.
  destruct (loop_update_ok c sv fuel (e_ready e) (proj1 HI) Hn Hr) as [Hn' Ha].
  destruct (runUpdates_body fuel (IsReady (e_ready e)) sv) as [sv' go]. cbn [fst] in *.
  apply (Inv_later c); [eapply later_set_node; [done|by destruct go]|apply inv_set_node; [apply HI|destruct go; [done|by apply stop_ok]]|done|done].
Qed.

Lemma process_ok c w s : state_ok c s -> node_ok c (process w s).
Proof. intros Hs. split; [done|..]; simpl; intros ? ? E; try (by apply lookup_empty_Some in E); by apply not_elem_of_nil in E. Qed.

Lemma new_ok c : state_ok c New.
Proof.
  assert (0 <= zlen (cl_log c)) as Hl by apply zlen_nonneg. split.
  - done.
  - by eexists.
  - unfold same_store. destruct restores; done.
  - exists first_id. unfold first_id, MaxUint64. split; [lia|]. by rewrite varint_small.
  - done.
Qed.

Lemma boot_spec (p : prog unit) (f : env -> cluster -> cluster * unit) :
  p = atomic f -> (forall e c, (f e c).1 = c \/ exists w s, (f e c).1 = add_node (process w s) c /\ (inv c -> state_ok c s)) ->
  wp p [] (done_with (fun _ => true) (fun _ => True)).
Proof.
  intros -> Hf. apply wp_atomic. intros e c fr _ HI. exists []. split; [|done].
  destruct (Hf e c) as [->|(w & s & -> & Hs)]; [done|].
  apply (Inv_later c); [apply later_add_node|apply inv_add_node; [apply HI|apply process_ok, Hs, HI]|done|done].
Qed.

(** A process that starts from a snapshot agrees with the log on the keys of clients. *)
Lemma restored_ok c data index s :
  restores = true -> made_snapshot c (data, index) -> RestoreSnapshot data index New = (s, true) -> state_ok c s.
Proof.
  intros Hr (s0 & Es & [Ha Hm Hs Hi Hv]) E. destruct (Restore_Snapshot s0 data index) as [-> Er]; [done| |].
  { intros En. destruct Hi as (x & _ & Ex). unfold store in Ex. simpl in Ex. by rewrite En in Ex. }
  rewrite E in Er. injection Er as ->. split; [done|done| |done|].
  - unfold same_store in *. by rewrite Hr in *.
  - unfold id_version. simpl. rewrite lookup_empty. simpl. pose proof (zlen_nonneg (cl_log c)). lia.
Qed.

Lemma starts_spec p : starts restores false p -> wp p [] (done_with (fun _ => true) (fun _ => True)).
Proof.
  assert (forall A (q : prog A), wp q [] (fun _ h => h = []) -> wp (drop_result q) [] (done_with (fun _ => true) (fun _ => True))) as Hdrop.
  { intros A q Hq. apply conc_bind. eapply conc_mono; [|exact Hq]. by intros a h ->. }
  destruct 1 as [|fuel n| |Hr|n|n|n k v Hk Hn|n k v Hk Hn|n k Hk Hn|fuel n k|fuel n|fuel n addr].
  - apply commit_spec.
  - apply deliver_spec.
  - eapply boot_spec; [reflexivity|]. intros e c. right. eexists _, New. split; [reflexivity|]. intros _. apply new_ok.
  - apply wp_atomic. intros e c fr _ HI. exists []. split; [|by destruct (cl_snaps c !! e_pick e) as [[? ?]|]; [destruct (RestoreSnapshot _ _ _) as [? []]|]].
    destruct (cl_snaps c !! e_pick e) as [[data index]|] eqn:Ep; [|done].
    destruct (RestoreSnapshot data index New) as [s []] eqn:Es; [|done].
    pose proof (restored_ok c data index s Hr (Forall_lookup_1 _ _ _ _ (i_snaps _ (proj1 HI)) Ep) Es) as Hs.
    apply (Inv_later c); [apply later_add_node|apply inv_add_node; [apply HI|by apply process_ok]|done|done].
  - apply wp_atomic. intros e c fr _ HI. exists []. split; [|done]. destruct (cl_nodes c !! n) as [sv|] eqn:Hsv; [|done].
    apply (Inv_later c); [by eapply later_set_node|apply inv_set_node; [apply HI|]|done|done].
    apply stop_ok. exact (Forall_lookup_1 _ _ _ _ (i_nodes _ (proj1 HI)) Hsv).
  - apply Hdrop, take_snapshot_spec.
  - apply exec_spec; [by constructor|done].
  - apply exec_spec; [by constructor|done].
  - apply exec_spec; [by constructor|done].
  - apply Hdrop, service_Get_spec.
  - apply Hdrop, allocNodeID_spec.
  - apply Hdrop, serveJoin_spec.
Qed.

Lemma reachable_inv c : reachable restores false c -> inv c /\ NoDup (cl_ids c).*1.
Proof.
  intros (ps & Hr). assert (pool_ok (A := unit) fresh Inv (fun _ => true) (fun _ => True) (init, []) []) as Hinit.
  { split; [|constructor]. split_and!; [|constructor|constructor].
    split; simpl; try constructor; try done. }
  destruct (pool_ok_steps fresh (starts restores false) Inv (fun _ => true) (fun _ => True) _ _ _ starts_spec Hinit Hr) as (hs & (Hi & Hnd & _) & _).
  split; [exact Hi|]. by apply NoDup_app in Hnd as (_ & _ & ?).
Qed.

Lemma view_issued c : inv c -> all_issued (view (cl_log c)).
Proof.
  intros HI. apply Forall_lookup. intros p x E. unfold view in E. rewrite list_lookup_fmap in E. apply fmap_Some in E as (ent & E & ->).
  destruct (i_log c HI _ _ E) as [->|[(d & cc & -> & _)|(ch & k & Hk & -> & _)]]; [done..|]. rewrite entry_instr_call.
  by destruct (issued_of c k ch HI Hk) as (i & Hi & _ & ->).
Qed.

Lemma view_reads c : restores = false -> inv c -> reads_ok (view (cl_log c)).
Proof.
  intros Hr HI p id v Hid E. unfold view in E. rewrite list_lookup_fmap in E. apply fmap_Some in E as (ent & E & Ei).
  destruct (i_log c HI _ _ E) as [->|[(d & cc & -> & _)|(ch & k & Hk & -> & Hn)]]; [done..|]. rewrite entry_instr_call in Ei.
  destruct (Hn id v Hid (eq_sym Ei) Hr) as (q & Hq & _ & En). by exists q.
Qed.

(** The same position does not carry two calls. *)
Lemma carries_inj c p ch1 ch2 k1 k2 :
  inv c -> cl_calls c !! ch1 = Some k1 -> cl_calls c !! ch2 = Some k2 -> carries (cl_log c) p k1 -> carries (cl_log c) p k2 -> ch1 = ch2.
Proof.
  intros HI K1 K2 C1 C2. unfold carries, call_entry in *. rewrite C1 in C2. injection C2 as E%(f_equal UnmarshalProposal).
  rewrite !proposal_roundtrip in E. injection E as E _.
  eapply NoDup_lookup; [exact (i_wctx _ HI)| |]; rewrite list_lookup_fmap; [by rewrite K1|rewrite K2; simpl; by f_equal].
Qed.

Lemma ids_differ c : restores = false -> inv c -> NoDup (cl_ids c).*1 -> NoDup (cl_ids c).*2.
Proof.
  intros Hr HI Hnd. apply NoDup_alt. intros i j id Hi Hj. rewrite !list_lookup_fmap in *.
  apply fmap_Some in Hi as ([ch1 id1] & Hi & ->). apply fmap_Some in Hj as ([ch2 id2] & Hj & E). simpl in E. subst id2.
  destruct (Forall_lookup_1 _ _ _ _ (i_ids _ HI) Hi) as (k1 & p & v1 & K1 & C1 & G1).
  destruct (Forall_lookup_1 _ _ _ _ (i_ids _ HI) Hj) as (k2 & q & v2 & K2 & C2 & G2). simpl in *.
  pose proof (view_issued c HI) as Hv. pose proof (view_reads c Hr HI) as Hrd.
  assert (zlen (view (cl_log c)) + first_id <= MaxUint64) as Hlen by (unfold view, zlen; rewrite length_fmap; apply (i_length c HI)).
  destruct (lt_eq_lt_dec p q) as [[Hlt|Heq]|Hlt].
  - pose proof (given_differ _ _ _ _ _ _ _ Hv Hrd Hlen Hlt (G1 Hr) (G2 Hr)). lia.
  - subst q. assert (ch1 = ch2) as -> by (by eapply carries_inj).
    eapply NoDup_lookup; [exact Hnd| |]; rewrite list_lookup_fmap; [by rewrite Hi|by rewrite Hj].
  - pose proof (given_differ _ _ _ _ _ _ _ Hv Hrd Hlen Hlt (G2 Hr) (G1 Hr)). lia.
Qed.

End Cluster.

(** ** Theorems *)

Section Theorems.
Context {W : Type} `{RaftLib W} `{Protobuf} `{!ProtobufLaws} `{RaftPB} `{!RaftPBLaws}.

(** C19: In every interleaving of clients, commits, deliveries, crashes and starts, also of
    processes that start from a snapshot, but without snapshots that the leader sends to a
    process that runs: a value that [Get] returned is the one after a part of the log that is
    at least as long as the log was when the [Get] began; every call that had succeeded
    before is in that part, at a position where its conditions held.  With a snapshot that is
    sent to a running process this fails ([received_snapshot_stale_read]): the process saves
    the snapshot and does not restore its state from it. *)
Theorem Get_linearizable restores (c : cluster (W := W)) r :
  reachable restores false c -> r ∈ cl_reads c ->
  (rd_start r <= rd_at r <= length (cl_log c))%nat /\
  (rd_key r <> nextNodeID -> rd_value r = default [] (kv_map (store_at (cl_log c) (rd_at r)) !! rd_key r)) /\
  forall ch len, (ch, len) ∈ cl_writes c -> (len <= rd_start r)%nat ->
    exists k p i, cl_calls c !! ch = Some k /\ (p < rd_at r)%nat /\ carries (cl_log c) p k /\ c_instr k = MarshalInstruction i /\
      ((forall id v, i <> Increment_instr id v) -> (transact (Z.of_nat p + 1) i (store_at (cl_log c) p)).2 = true).
Proof.
  intros [HI _]%reachable_inv Hr. destruct (proj1 (Forall_forall _ _) (i_reads _ _ HI) r Hr) as [Hl Hv]. split_and!; [lia..|done|].
  intros ch len Hw Hs. destruct (proj1 (Forall_forall _ _) (i_writes _ _ HI) _ Hw) as (_ & k & p & Hk & Hp & Hc & i & Ei & Hi & Ht). simpl in *.
  exists k, p, i. split_and!; [done|lia|done..|]. intros Hn. apply Ht. by right.
Qed.

(** C20: When no process starts from a snapshot, and none is sent one while it runs, no two
    calls of [allocNodeID], on any processes and in any interleaving, return the same
    identifier.  Without the one condition [restored_process_repeats_id] is a run that
    returns an identifier twice, without the other [received_snapshot_repeats_id]. *)
Theorem node_ids_unique (c : cluster (W := W)) : reachable false false c -> NoDup (cl_ids c).*2.
Proof. intros [HI Hnd]%reachable_inv. by eapply ids_differ. Qed.

End Theorems.

(** ** A world in which nothing fails, and encodings bit by bit *)

#[local] Instance unit_os : OS unit := {|
  os_OpenFile _ w := (w, true); os_Write _ d w := (w, (zlen d, true)); os_Sync _ w := (w, true);
  os_Close _ w := (w, true); os_Rename _ _ w := (w, true);
|}.

#[local] Instance unit_lib : RaftLib unit := {|
  node_ApplyConfChange _ w := (w, []); node_Advance w := w; node_Stop w := w; node_RestartNode _ _ w := w; node_StartNode _ _ w := w;
  node_Campaign w := w; node_send _ _ w := w; ms_Append _ w := w; ms_SetHardState _ w := w; ms_ApplySnapshot _ w := (w, true);
  ms_CreateSnapshot i cs d w := (w, Some (mkRaftSnapshot d i 0 cs)); ms_Compact _ w := (w, true); wal_Create w := (w, true);
  wal_Open _ _ w := (w, true); wal_ReadAll w := (w, Some (mkHardState 0 0 0, [])); wal_Save _ _ w := w; wal_SaveSnapshot _ _ w := (w, true);
  wal_ReleaseLockTo _ w := (w, true); wal_dir_make w := (w, true); wal_dir_empty w := (w, true); wal_dir_remove w := (w, true);
  os_ReadFile _ w := (w, Err false); http_join _ _ w := (w, None); tls_verify _ w := (w, true);
|}.

#[local] Instance bits_pb : RaftPB := {|
  MarshalProposal p := bits_encode (Wctx p, p_Instruction p);
  UnmarshalProposal b := '(w, i) ← bits_decode b; Some (mkProposal w i);
  UnmarshalConfChange b := '(t, n, c) ← bits_decode b; Some (mkConfChange t n c);
  MarshalRaftSnapshot s := Some (bits_encode (rs_Data s, rs_Index s, rs_Term s, rs_ConfState s));
  UnmarshalRaftSnapshot b := '(d, i, t, cs) ← bits_decode b; Some (mkRaftSnapshot d i t cs);
  MarshalSnap c d := Some (bits_encode (c, d));
  UnmarshalSnap := bits_decode;
  MarshalMessage m := Some (m_Body m);
  DecodeNodeJoin := bits_decode;
|}.

Lemma bits_pb_laws : RaftPBLaws.
Proof.
  split.
  - intros [w i]. cbn [UnmarshalProposal MarshalProposal bits_pb]. by rewrite bits_decode_encode.
  - intros [d i t cs] b [= <-]. cbn [UnmarshalRaftSnapshot bits_pb]. by rewrite bits_decode_encode.
  - intros c d b _ [= <-]. apply bits_decode_encode.
Qed.

#[local] Existing Instances bits_protobuf bits_protobuf_laws bits_pb_laws.

(** A schedule: which goroutine takes an action, and with what environment. *)
#[local] Notation pool := (list (prog (env (W := unit)) (cluster (W := unit)) unit)).

Fixpoint run_sched (sched : list (nat * env)) (c : cluster * pool) : option (cluster * pool) :=
  match sched with
  | [] => Some c
  | (i, e) :: sched =>
      if decide (e_rand e ∈ c_wctx <$> cl_calls c.1) then None
      else match c.2 !! i with
           | Some (Act g) => '(s, p) ← g e c.1; run_sched sched (s, <[i := p]> c.2)
           | _ => None
           end
  end.

Definition reached (sched : list (nat * env)) (ps : pool) : cluster := from_option fst init (run_sched sched (init, ps)).

Lemma run_steps restores receives sched c c' : run_sched sched c = Some c' -> rtc (pool_step fresh (starts restores receives)) c c'.
Proof.
  revert c. induction sched as [|[i e] sched IH]; intros [s ps] E; cbn [run_sched fst snd] in E; [by injection E as <-|].
  case_decide as Hf; [done|]. destruct (ps !! i) as [[| |g]|] eqn:Ei; try done. apply bind_Some in E as ([s' p] & Eg & E).
  eapply rtc_l; [|by apply IH]. constructor. eapply do_act; [exact Hf|exact Ei|exact Eg].
Qed.

Lemma reached_reachable restores receives sched ps : Forall (starts restores receives) ps -> reachable restores receives (reached sched ps).
Proof.
  intros Hp. unfold reached. destruct (run_sched sched (init, ps)) as [[c ps']|] eqn:E; [|by exists []].
  exists ps'. etrans; [apply (starts_steps _ _ _ [] ps Hp)|by eapply run_steps].
Qed.

(** Environments: one that is never used for its random bytes, and some that are. *)
Definition no_ready : Ready := mkReady [] (mkHardState 0 0 0) [] (mkRaftSnapshot [] 0 0 []) [] [].
Definition quiet : env (W := unit) := mkEnv [x00] false true false CEmpty no_ready 0 tt.
Definition with_rand (b : byte) : env (W := unit) := mkEnv [b] false true false CEmpty no_ready 0 tt.
Definition commits (i : nat) : env (W := unit) := mkEnv [x00] false true false (CProposal i) no_ready 0 tt.
Definition delivers (ents : list Entry) (reads : list ReadState) : env (W := unit) :=
  mkEnv [x00] false true false CEmpty (mkReady reads (mkHardState 0 0 0) [] (mkRaftSnapshot [] 0 0 []) ents []) 0 tt.

Definition call_ent (w : byte) (instr : bytes) (p : nat) : Entry := call_entry (mkCall 0 [w] instr) p.

(** A process sets a key, then reads it, then gives out an identifier. *)
Definition demo_key : bytes := [x61].
Definition demo_pool : pool :=
  [boot_new; drop_result (service_Set 0 demo_key [x62]); commit; deliver false 1 0; drop_result (service_Get 2 0 demo_key); deliver false 1 0;
   drop_result (allocNodeID 1 0); commit; deliver false 1 0].
Definition demo : cluster := reached
  [(0, quiet); (1, with_rand x01); (1, quiet); (2, commits 0); (3, delivers [call_ent x01 (Set_ demo_key [x62]) 0] []); (1, quiet);
   (4, with_rand x02); (4, quiet); (5, delivers [] [mkReadState 1 [x02]]); (4, quiet); (4, quiet); (4, quiet);
   (6, quiet); (6, with_rand x03); (6, quiet); (7, commits 1); (8, delivers [call_ent x03 (IncrementNextNodeID 50 0) 1] []); (6, quiet); (6, quiet)]%nat demo_pool.

Lemma demo_reachable restores : reachable restores false demo.
Proof. apply reached_reachable. repeat constructor; by vm_compute. Qed.

Lemma demo_outcome : cl_reads demo = [mkRead demo_key [x62] 1 1] /\ cl_writes demo = [(0, 1); (1, 2)]%nat /\ cl_ids demo = [(1%nat, 50)].
Proof. by vm_compute. Qed.

(** Witness: the read of [demo] sees what was set before it. *)
Lemma Get_linearizable_witness :
  exists c : cluster (W := unit), exists r, reachable true false c /\ r ∈ cl_reads c /\ rd_value r = [x62] /\
    exists k p i, cl_calls c !! 0%nat = Some k /\ (p < rd_at r)%nat /\ carries (cl_log c) p k /\ c_instr k = MarshalInstruction i /\
      ((forall id v, i <> Increment_instr id v) -> (transact (Z.of_nat p + 1) i (store_at (cl_log c) p)).2 = true).
Proof.
  destruct demo_outcome as (Er & Ew & _). exists demo, (mkRead demo_key [x62] 1 1).
  assert (mkRead demo_key [x62] 1 1 ∈ cl_reads demo) as Hr by (rewrite Er; by apply list_elem_of_singleton).
  split_and!; [apply demo_reachable|exact Hr|reflexivity|].
  destruct (Get_linearizable true demo _ (demo_reachable true) Hr) as (_ & _ & Hw). apply (Hw 0%nat 1%nat); [|done].
  rewrite Ew. by left.
Defined.

Lemma node_ids_unique_witness : reachable false false demo /\ (cl_ids demo).*2 = [50] /\ NoDup (cl_ids demo).*2.
Proof.
  split_and!; [apply demo_reachable|by vm_compute|]. apply node_ids_unique. apply demo_reachable.
Defined.

(** ** Why the identifiers need the condition

    A snapshot has no versions, so that a process that starts from one takes the version of
    every key for zero.  It then accepts its own proposal for an identifier, which the
    others refuse, and one of them gives out the same identifier. *)

Definition dup_pool : pool :=
  [boot_new; drop_result (allocNodeID 1 0); commit; deliver false 1 0; drop_result (take_snapshot 0); boot_snapshot;
   drop_result (allocNodeID 1 1); commit; deliver false 1 1; deliver false 1 0; drop_result (allocNodeID 1 0); commit; deliver false 1 0].
Definition dup : cluster := reached
  [(0, quiet); (1, quiet); (1, with_rand x01); (1, quiet); (2, commits 0); (3, delivers [call_ent x01 (IncrementNextNodeID 50 0) 0] []); (1, quiet); (1, quiet);
   (4, quiet); (5, quiet);
   (6, quiet); (6, with_rand x02); (6, quiet); (7, commits 1); (8, delivers [call_ent x02 (IncrementNextNodeID 51 0) 1] []); (6, quiet); (6, quiet);
   (9, delivers [call_ent x02 (IncrementNextNodeID 51 0) 1] []);
   (10, quiet); (10, with_rand x03); (10, quiet); (11, commits 2); (12, delivers [call_ent x03 (IncrementNextNodeID 51 1) 2] []); (10, quiet); (10, quiet)]%nat dup_pool.

(** Two calls of [allocNodeID] return 51. *)
Lemma restored_process_repeats_id : exists c : cluster (W := unit), reachable true false c /\ (cl_ids c).*2 = [50; 51; 51].
Proof.
  exists dup. split; [|by vm_compute]. apply reached_reachable. repeat constructor.
Qed.

(** ** Why no snapshot may be sent to a running process

    Process 1 runs and has applied nothing when the leader sends it the snapshot of process
    0, which has set a key.  It keeps its own state, goes on with the entries after the
    snapshot, and answers a read of the key with nothing. *)

Definition sends (data : bytes) (index : Z) : env (W := unit) :=
  mkEnv [x00] false true false CEmpty (mkReady [] (mkHardState 0 0 0) [] (mkRaftSnapshot data index 0 []) [] []) 0 tt.

Definition empty_ent (p : nat) : Entry := mkEntry EntryNormal 0 (Z.of_nat p + 1) None.

(** The snapshot that process 0 makes at the end of a run. *)
Definition snap_of (c : cluster (W := unit)) : bytes * Z := default ([], 0) (last (cl_snaps c)).

Definition stale_pool : pool :=
  [boot_new; boot_new; drop_result (service_Set 0 demo_key [x62]); commit; deliver true 1 0; drop_result (take_snapshot 0);
   deliver true 1 1; commit; deliver true 1 1; drop_result (service_Get 2 1 demo_key); deliver true 1 1].
Definition stale_begin : list (nat * env) :=
  [(0, quiet); (1, quiet); (2, with_rand x01); (2, quiet); (3, commits 0); (4, delivers [call_ent x01 (Set_ demo_key [x62]) 0] []); (2, quiet);
   (5, quiet)]%nat.
Definition stale_snap : bytes * Z := snap_of (reached stale_begin stale_pool).
Definition stale : cluster := reached
  (stale_begin ++
   [(6, sends stale_snap.1 stale_snap.2); (7, quiet); (8, delivers [empty_ent 1] []); (9, with_rand x02); (9, quiet);
    (10, delivers [] [mkReadState 2 [x02]]); (9, quiet); (9, quiet); (9, quiet)]%nat) stale_pool.

(** The [Get] began when both entries were committed, the [Set] had succeeded, and the value
    it returned is not the one after the entries that it counts as applied. *)
Lemma received_snapshot_stale_read :
  exists (c : cluster (W := unit)) r, reachable false true c /\ r ∈ cl_reads c /\ rd_key r = demo_key /\ rd_value r = [] /\
    rd_start r = 2%nat /\ rd_at r = 2%nat /\ cl_writes c = [(0, 1)]%nat /\ kv_map (store_at (cl_log c) (rd_at r)) !! demo_key = Some [x62].
Proof.
  exists stale, (mkRead demo_key [] 2 2). split; [apply reached_reachable; repeat constructor; by vm_compute|].
  split; [|by vm_compute]. assert (cl_reads stale = [mkRead demo_key [] 2 2]) as -> by (by vm_compute). by apply list_elem_of_singleton.
Qed.

Definition repeat_pool : pool :=
  [boot_new; boot_new; drop_result (allocNodeID 1 0); commit; deliver true 1 0; drop_result (take_snapshot 0);
   deliver true 1 1; drop_result (allocNodeID 1 1); commit; deliver true 1 1].
Definition repeat_begin : list (nat * env) :=
  [(0, quiet); (1, quiet); (2, quiet); (2, with_rand x01); (2, quiet); (3, commits 0);
   (4, delivers [call_ent x01 (IncrementNextNodeID 50 0) 0] []); (2, quiet); (2, quiet); (5, quiet)]%nat.
Definition repeat_snap : bytes * Z := snap_of (reached repeat_begin repeat_pool).
Definition repeated : cluster := reached
  (repeat_begin ++
   [(6, sends repeat_snap.1 repeat_snap.2); (7, quiet); (7, with_rand x02); (7, quiet); (8, commits 1);
    (9, delivers [call_ent x02 (IncrementNextNodeID 50 0) 1] []); (7, quiet); (7, quiet)]%nat) repeat_pool.

(** Two calls of [allocNodeID] return 50. *)
Lemma received_snapshot_repeats_id : exists c : cluster (W := unit), reachable false true c /\ (cl_ids c).*2 = [50; 50].
Proof. exists repeated. split; [|by vm_compute]. apply reached_reachable. repeat constructor. Qed.
